(* ===== verification/_CoqProject ===== *)
-Q . S2P
Prelude.v
JsString.v
JsRegex.v
JsExec.v
JsNumber.v
JsMap.v
JsJson.v
JsonText.v
JsObject.v
JsArith.v
BillingExpr.v
BillingExprFacts.v
BillingExprProps.v
TierExpr.v
TierExprFacts.v
TierExprProps.v
TierDisplayProps.v
TieredEditor.v
TieredEditorProps.v
TieredEditorClaims.v
ModelPricing.v
ModelPricingTable.v
ModelPricingTableProps.v
ModelPricingClaims.v
RatioSync.v
RatioSyncProps.v
RatioSyncInv.v
RatioSyncClaims.v
Currency.v
PriceDisplay.v
PriceDisplayProps.v
PricingFilter.v
StatusCodeRules.v
StatusCodeRulesProps.v
ModelMapping.v
CursorPages.v
CursorPagesProps.v
ChannelUtils.v
ChannelUtilsProps.v
ChatMessages.v
ChatMessagesProps.v
ChatSession.v
ChatSessionProps.v
ChannelForm.v
ChannelFormProps.v
ParamOverride.v
ParamOverrideProps.v
ParamOverrideEditor.v
ParamOverrideEditorProps.v
ParamOverrideEditorInv.v
AccountValidation.v
AccountDialog.v
AccountSubmit.v
AccountHeaderProps.v
AccountReopen.v
AccountBatch.v
AccountSubmitProps.v
GroupRatio.v
GroupUsable.v
GroupUsableProps.v
GroupRatioProps.v
NavConfig.v
NavConfigProps.v
NavSidebar.v
NavSidebarProps.v
ApiClient.v
ApiClientProps.v
SettingsForm.v
SettingsFormProps.v
TableUrl.v
TableUrlProps.v
Moderation.v
ModerationProps.v
ModerationForm.v
Estimator.v
EstimatorParse.v
EstimatorProps.v
JsonEditor.v
EntityForms.v
EntityDrawer.v
