(* ===== verification/Prelude.v ===== *)
(** * StarNexus web console: a verification library

    StarNexus is a gateway for language-model APIs. Its operators work in the
    web console [web/default/src] (TypeScript): it edits channels, pricing
    expressions and parameter overrides as texts that the server stores and
    interprets, browses the usage log, and talks to models in a playground.
    The server is written in another language and only sees those texts, so a
    console that writes or reads one wrongly changes billing or routing. This
    library models the console's own logic and proves what it promises.

    ** The language

    [Prelude]     generic lemmas on lists, the insertion-ordered set and the
                  stable sort of the language, tactics and hint databases;
    [JsString]    strings as lists of UTF-16 code units: trim, split, search,
                  decimal texts;
    [JsRegex]     regular expressions with the backtracking order of the
                  language's standard, as executable matchers;
    [JsExec]      repeated matching, splitting and replacing with a pattern,
                  and following a match through a printed text;
    [JsNumber]    numbers as binary64, conversion from and to text;
    [JsMap]       insertion-ordered maps;
    [JsJson]      JSON values, parsing and printing, an [outcome] type for
                  code that may throw, truthiness and string conversion;
    [JsonText]    printed values are read back, for the values [json_safe];
    [JsObject]    reading and writing properties of objects;
    [JsArith]     arithmetic, rounding, [toFixed] and [parseFloat]; and how far
                  rounded products and quotients are from the exact ones.

    ** The components

    [BillingExpr], [BillingExprFacts], [BillingExprProps]: the conditional
    multipliers of a price expression, [features/pricing/lib/billing-expr.ts].
    The editor prints rule groups and recognises them again with regular
    expressions. Shown: printing and reading round trip, an expression splits
    into what it was combined from, unwrapping parentheses terminates, and two
    forms the editor prints and cannot read.

    [TierExpr], [TierExprFacts], [TierExprProps], [TierDisplayProps]: the
    tiers of a price expression,
    [features/pricing/lib/tier-expr.ts], and the parser of the price displays
    in [billing-expr.ts]. [TierExpr] is the model; the facts follow the
    patterns through a printed expression. Shown: the editor and the displays
    read from a printed configuration the tiers it was printed from, and a
    stored expression splits into its tiers and its rules.
    [Estimator], [EstimatorParse], [EstimatorProps]: the cost estimator of [tier-expr.ts], which has the engine of the language run the
    expression; the model has the lexer, the parser and the evaluation of the
    part of the language that prices are written in. Shown: the expression
    printed for tiers costs what the tiers say; and a tier order that is
    printed as no expression.

    [TieredEditor], [TieredEditorProps], [TieredEditorClaims]: the editor of
    such a price,
    [features/system-settings/models/tiered-pricing-editor.tsx], which keeps
    visual tiers, rule groups and a text, and agrees with its parent by
    effects. The state is a record that includes the parent's expressions and
    the editor's ref; a [flush] runs the effects of one render with the values
    of that render. Shown: the effects come to rest, a stored price
    opens and is saved unchanged, switching to the text and back loses nothing,
    the tier cards keep their invariant; and the expressions, rules and edits
    that opening or editing replaces.

    [ModelPricing]: the panel that edits a model's prices,
    [features/system-settings/models/model-pricing-sheet.tsx], with
    [pricing-format.ts] and [video-token-price.ts]. The operator sees prices,
    the form holds the ratios the server bills with; the state is a record, an
    event a function on it, and [panel_step] what the operator can do.
    [ModelPricingTable], [ModelPricingTableProps], [ModelPricingClaims]: the
    table of models over the eleven settings a price is stored in,
    [model-ratio-visual-editor.tsx]. Shown: the ratios are those of the prices
    shown, what a save stores for which models, a saved model opens as it was;
    and the prices that a save drops or changes.

    [RatioSync], [RatioSyncProps], [RatioSyncInv], [RatioSyncClaims]: the page that takes prices from upstream channels,
    [upstream-ratio-sync.tsx] with its helpers, table and columns. The operator
    selects values of the differences the server reports; a sync rewrites ten
    of the settings of [ModelPricingTable]. The page is a step relation; the
    inner objects of the report live in a store, since an updater deletes from
    them in place. Shown: what can be selected together, what a sync writes and
    the table then shows, when a column counts as selected; and what becomes of
    refused updates and of an updater that runs twice.

    [Currency]: amounts under the configured display, [lib/currency.ts].
    [PriceDisplay], [PriceDisplayProps]: the prices users see,
    [features/pricing/lib/price.ts], [special-price.ts], [dynamic-price.ts].
    [PricingFilter]: the list of models, [filters.ts]. Shown: a stored price
    expression is displayed as it was built, the ratio of the groups is the
    least, no amount is rounded to nothing, the list holds what every filter
    wants in the order of the prices; and the prices shown wrong for free groups
    and under a decimal comma.

    [StatusCodeRules], [StatusCodeRulesProps]: lists of status codes and
    ranges, [lib/http-status-code-rules.ts], and the guard over redirected
    codes, [features/channels/lib/status-code-risk-guard.ts]. Shown: the
    normal form of accepted rules, which errors are reported, stability.

    [ModelMapping]: lists of models and their redirections,
    [features/channels/lib/model-mapping-validation.ts].

    [CursorPages], [CursorPagesProps]: the cache of cursors behind the pages
    of the usage log, [features/usage-logs/lib/cursor-pages.ts], as a state
    machine over requests and responses in any order. Shown: bounds, the
    provenance of every cursor sent, that late responses are ignored, and
    that the next page is reached.

    [ChannelUtils], [ChannelUtilsProps]: keys, groups, attention flags and
    the rows of tagged channels, [features/channels/lib/channel-utils.ts].

    [ChatMessages], [ChatMessagesProps]: the conversation of the playground,
    [features/playground/lib/message-utils.ts], [payload-builder.ts] and the
    hooks [use-chat-handler.ts] and [use-stream-request.ts]. Shown: the think
    tags of an answer are split out, streaming agrees with receiving the whole
    answer, events change only the last message, what is sent, and what is
    repaired on loading.

    [ChatSession], [ChatSessionProps]: the page around that conversation,
    [features/playground/index.tsx], where texts are sent, answers regenerated
    and messages edited while streams deliver. Shown: with one answer at a time
    only the last message is unfinished; and how two answers mix, and a draft
    is lost, where the page does not guard against it.

    [ChannelForm], [ChannelFormProps]: the form of a
    channel, [features/channels/lib/channel-form.ts], with the settings it
    shares with the server in two JSON texts. Shown: every stored property as
    a function of the form, credentials are kept out of local pools, stored
    keys are kept, what was saved is shown again, and when saving throws.

    [AccountValidation], [AccountDialog], [AccountSubmit]: the dialog that adds
    and edits the upstream accounts a local pool draws on,
    [features/upstream-accounts/account-dialog.tsx] with
    [account-dialog-validation.ts] and [account-model-restriction.tsx]. An
    account is opened as a draft; a save checks it, builds credentials or a
    patch of them, extra settings and a payload, and calls the server; it is a
    computation that logs its calls and may fail with the message shown.
    [AccountHeaderProps], [AccountReopen], [AccountBatch]: header overrides,
    model restrictions, temporary rules and extra settings are shown and saved
    again as they were saved; and the model patterns and short rules that are
    not; what a batch sends of a draft.
    [AccountSubmitProps]: the protocol a save follows.

    [ParamOverride], [ParamOverrideProps], [ParamOverrideEditor],
    [ParamOverrideEditorProps], [ParamOverrideEditorInv]: the dialog that
    edits the rules by which requests are rewritten,
    [features/channels/components/dialogs/param-override-editor-dialog.tsx].
    [ParamOverride] holds the rules, their JSON and the checks; the dialog is
    a step relation over its event handlers. Shown: saved rules are well
    formed and open again as the same rules, refusals, drags, a refinement of
    an abstract editor of rules with unique identifiers and the invariant of
    all reachable states; also the values that change on opening, the prune
    rules that cannot be edited and the texts the dialog cannot open.

    [GroupRatio], [GroupRatioProps]: the tables of groups,
    [features/system-settings/models/group-ratio-visual-editor.tsx]: what users
    of a group pay, which groups they may select, top-ups, overrides of one
    group for another and the automatic groups. The table of ratios keeps rows,
    drafts and the signature it wrote last, and takes the texts of the parent
    over in an effect; [table_step] is what the operator and the parent can do.
    [GroupUsable], [GroupUsableProps]: the rules that let a group use others,
    [group-special-usable-editor.tsx], refining a table of rules. Shown: saved
    rows are shown again, the invariant of all reachable tables, the refinement;
    and the texts the table misses and the ratios it adds.

    [NavConfig], [NavConfigProps]: the settings of the header and the sidebar,
    [features/system-settings/maintenance/config.ts] and [lib/nav-modules.ts],
    read by parsers of their own in the settings page and in the pages that
    obey them. [NavSidebar], [NavSidebarProps]: what obeys them, the sidebar
    ([hooks/use-sidebar-config.ts]), the guards of four routes, the links of
    the header ([hooks/use-top-nav-links.ts]) and the card in which a user
    narrows the sidebar. Shown: saved settings open as they were, the sidebar
    shows exactly the entries the settings, the user and the role leave (one
    that names several addresses when one of them is on), guards and sidebar
    agree, the card shows what the sidebar does; and the values the parsers
    read differently.

    [ApiClient], [ApiClientProps]: the client all requests go through,
    [lib/api.ts]: requests in flight are shared, interceptors show messages and
    end the session. Calls, answers and the end of a request are the steps.
    Shown: which request a call waits for, whatever the order of the steps; and
    whose flags decide about messages.

    [SettingsForm], [SettingsFormProps]: the form behind the system settings,
    [features/system-settings/hooks/use-settings-form.ts], which nests dotted
    names for the form library and flattens them again. Shown: names survive
    that, and a submit sends exactly the marked fields that changed.

    [TableUrl], [TableUrlProps]: the filters and pages of tables, kept in the
    address, [hooks/use-table-url-state.ts], with the search schemas and the
    parameters of four tables. The router is a step that hands over what the
    schema makes of the address. Shown: a reload shows the same table, and the
    hook refines a table of a page, a text and filters; and where it does not
    follow the address.

    [Moderation], [ModerationProps], [ModerationForm]: the settings of the
    audit of prompts,
    [features/system-settings/request-limits/content-moderation-utils.ts] and
    [content-moderation-section.tsx]. Shown: an accepted form is shown again
    from the server's answer, which masks the key; the invariant of the form
    under edits and answers; and the keys, addresses and models it loses.

    [JsonEditor]: the table and text of key and value pairs,
    [components/json-editor.tsx]. Shown: what an edit of a row writes; and that
    a text it is mounted over is never shown.

    [EntityForms], [EntityDrawer]: the forms of keys, redemption codes and
    users, [api-key-form.ts], [redemption-form.ts], [user-form.ts], and the
    drawers that edit them, which are one state machine over the interface
    [DrawerOps]. Shown: for an operator who waits the drawer sends exactly what
    his sessions prescribe, one who does not wait may save a row with the fields
    of another; and a key saved unedited keeps its fields, its quota included,
    which is converted to the display and back.

    A name of the model is the name of the source where the language allows
    it; helpers stand for parts of the function the comment before them names.

    ** Bounds

    Loops without a structural measure carry fuel that is never short: the
    JSON parser is given twice the length of the text plus one, the repetition
    of a regular expression one step per remaining unit, the search for think
    tags one step per unit, the removal of outer parentheses one step per
    unit (each removes two), the shortest digits of a number seventeen, the
    parser of the estimator twelve steps per token. That fuel suffices is part of the results: the
    round trips, [compile_item], [unwrapOuterParens_normal] and [parseThinkTags_spec] say what
    is returned for every input in their scope. The effects of the pricing
    editor need at most five rounds, which [editor_settles] proves.

    ** Parameters

    Code the console calls and that is not in the repository is a parameter:
    the translation function, the locale's comparison of strings, the clock,
    the time zone, lower case of other than ASCII letters, random identifiers, the browser's data transfer, number formats of the
    locale and the powers of ten the language leaves to its engine. Where a theorem relies on
    their behaviour it says so as a hypothesis: translations are not empty,
    the sign of the comparison orders the strings, powers of ten are positive.
    The server's answers and the events of a stream are inputs of the steps; a
    closed stream delivers no more. Where a form is opened again from an answer,
    the hypothesis says which fields the server returns as they were sent. Nothing is assumed of the
    clock or of random identifiers; that the identifiers of the override
    editor differ is proved from their counter.

    ** Not modelled

    Rendering, routing apart from four guards, styling and translations; the
    query cache; the functions that only name an address; toasts of other than
    the client of requests; which fields the form library marks as changed;
    group names, section names and setting names that every object has as
    members; the list of the sidebar's entries, which is an argument; the schema library's checks of field types,
    which the form theorems assume of their input; labels, icons, colours,
    dates and currency formatting of [channel-utils.ts]; the columns, price
    summaries and preview rows of the price table, and settings whose text is
    JSON but no object; the playground's texts in the browser storage; the lists a drawer offers; the
    dialog that picks upstream channels; expressions outside the part of the
    language [Estimator] reads; the test of an audit key; JSON numbers
    outside binary64's exact integers and short decimals in the printing
    results ([json_safe] delimits them). The classic console, the image
    playground, the desktop shell and the server are other programs. *)

From Stdlib Require Export ZArith Lia.
From stdpp Require Export base tactics list option gmap sorting.

#[global] Open Scope Z_scope.

(** ** Hint databases and tactics of the library *)

Create HintDb starnexus.
Create Rewrite HintDb starnexus_rw.

(** Destruct every [match]/[if] scrutinee of the goal, and solve what is
    left by congruence or arithmetic. *)
Ltac split_matches :=
  repeat match goal with
  | |- context [match ?x with _ => _ end] => destruct x eqn:?; simplify_eq/=
  end.

(** Turn boolean comparisons in hypotheses and goal into propositions. *)
Ltac reflect_bools :=
  repeat match goal with
  | H : _ && _ = true |- _ => apply andb_true_iff in H as [? ?]
  | H : negb _ = true |- _ => apply negb_true_iff in H
  | H : negb _ = false |- _ => apply negb_false_iff in H
  | H : Z.leb _ _ = true |- _ => apply Z.leb_le in H
  | H : Z.leb _ _ = false |- _ => apply Z.leb_gt in H
  | H : Z.ltb _ _ = true |- _ => apply Z.ltb_lt in H
  | H : Z.ltb _ _ = false |- _ => apply Z.ltb_ge in H
  | H : Z.eqb _ _ = true |- _ => apply Z.eqb_eq in H
  | H : Z.eqb _ _ = false |- _ => apply Z.eqb_neq in H
  | H : bool_decide _ = true |- _ => apply bool_decide_eq_true in H
  | H : bool_decide _ = false |- _ => apply bool_decide_eq_false in H
  end.

Ltac solve_bool := reflect_bools; try done; try lia; try congruence.

(** Evaluate a closed boolean or equality goal. *)
Ltac by_eval := vm_compute; reflexivity.

(** ** [Array.from(new Set(xs))]: first occurrences, in insertion order *)
Section js_set.
Context {A : Type} `{!EqDecision A}.

Definition set_add (acc : list A) (x : A) : list A :=
  if decide (x ∈ acc) then acc else acc ++ [x].

Definition js_set_from (acc xs : list A) : list A := foldl set_add acc xs.
Definition js_set (xs : list A) : list A := js_set_from [] xs.

Lemma elem_of_set_add acc x y : y ∈ set_add acc x ↔ y ∈ acc ∨ y = x.
Proof. unfold set_add. case_decide; set_solver. Qed.

Lemma NoDup_set_add acc x : NoDup acc → NoDup (set_add acc x).
Proof.
  intros Hnd. unfold set_add. case_decide; [done|].
  apply NoDup_app; split_and!; [done| |apply NoDup_singleton].
  set_solver.
Qed.

Lemma elem_of_js_set_from acc xs y : y ∈ js_set_from acc xs ↔ y ∈ acc ∨ y ∈ xs.
Proof.
  unfold js_set_from. revert acc; induction xs as [|x xs IH]; intros acc; simpl.
  - set_solver.
  - rewrite IH, elem_of_set_add. set_solver.
Qed.

Lemma NoDup_js_set_from acc xs : NoDup acc → NoDup (js_set_from acc xs).
Proof.
  unfold js_set_from. revert acc; induction xs as [|x xs IH]; intros acc Hnd; simpl;
    auto using NoDup_set_add.
Qed.

Lemma elem_of_js_set xs y : y ∈ js_set xs ↔ y ∈ xs.
Proof. unfold js_set. rewrite elem_of_js_set_from. set_solver. Qed.

Lemma NoDup_js_set xs : NoDup (js_set xs).
Proof. apply NoDup_js_set_from, NoDup_nil_2. Qed.

Lemma Forall_js_set (P : A → Prop) xs : Forall P xs → Forall P (js_set xs).
Proof. rewrite !Forall_forall. setoid_rewrite elem_of_js_set. done. Qed.

Lemma js_set_from_NoDup acc xs :
  NoDup (acc ++ xs) → js_set_from acc xs = acc ++ xs.
Proof.
  unfold js_set_from. revert acc; induction xs as [|x xs IH]; intros acc Hnd; simpl.
  - by rewrite app_nil_r.
  - unfold set_add at 2. rewrite decide_False.
    + rewrite IH by by rewrite <- app_assoc. by rewrite <- app_assoc.
    + apply NoDup_app in Hnd as (_ & Hd & _). intros Hx. eapply Hd; [exact Hx|]. set_solver.
Qed.

(** A duplicate-free array is unchanged by the round trip through [Set]. *)
Lemma js_set_NoDup xs : NoDup xs → js_set xs = xs.
Proof. intros. unfold js_set. by rewrite js_set_from_NoDup. Qed.

Lemma js_set_idemp xs : js_set (js_set xs) = js_set xs.
Proof. apply js_set_NoDup, NoDup_js_set. Qed.

Lemma js_set_from_length acc xs :
  (length (js_set_from acc xs) ≤ length acc + length xs)%nat.
Proof.
  unfold js_set_from. revert acc; induction xs as [|x xs IH]; intros acc; simpl; [lia|].
  etrans; [apply IH|]. unfold set_add. case_decide; rewrite ?length_app; simpl; lia.
Qed.

Lemma js_set_length xs : (length (js_set xs) ≤ length xs)%nat.
Proof. apply (js_set_from_length [] xs). Qed.
End js_set.

#[export] Hint Resolve NoDup_js_set NoDup_js_set_from : starnexus.
#[export] Hint Rewrite @elem_of_js_set : starnexus_rw.

(** ** [Array.prototype.sort]: the stable sort by a comparison *)
Section stable_sort.
Context {A : Type} (leb : A → A → bool).

Fixpoint sort_insert (x : A) (l : list A) : list A :=
  match l with
  | [] => [x]
  | y :: l' => if leb x y then x :: y :: l' else y :: sort_insert x l'
  end.

Definition stable_sort (l : list A) : list A := foldr sort_insert [] l.

Lemma sort_insert_Permutation x l : sort_insert x l ≡ₚ x :: l.
Proof.
  induction l as [|y l IH]; simpl; [done|]. destruct (leb x y); [done|].
  rewrite IH. apply Permutation_swap.
Qed.

Lemma stable_sort_Permutation l : stable_sort l ≡ₚ l.
Proof.
  induction l as [|x l IH]; simpl; [done|]. by rewrite sort_insert_Permutation, IH.
Qed.

Lemma elem_of_stable_sort x l : x ∈ stable_sort l ↔ x ∈ l.
Proof. by rewrite stable_sort_Permutation. Qed.

Context (leb_total : ∀ x y, leb x y = true ∨ leb y x = true).

Lemma sort_insert_sorted x l :
  Sorted (λ a b, leb a b = true) l → Sorted (λ a b, leb a b = true) (sort_insert x l).
Proof.
  induction 1 as [|y l Hs IH Hhd]; simpl; [by repeat constructor|].
  destruct (leb x y) eqn:Hxy; [by repeat constructor|].
  constructor; [done|].
  assert (leb y x = true) by (destruct (leb_total x y); congruence).
  destruct l as [|z l]; simpl in *; [by constructor|].
  inversion Hhd; subst. destruct (leb x z); by constructor.
Qed.

Lemma stable_sort_sorted l : Sorted (λ a b, leb a b = true) (stable_sort l).
Proof. induction l; simpl; [constructor|by apply sort_insert_sorted]. Qed.
End stable_sort.

(** An already sorted list is left as it is. *)
Lemma stable_sort_id {A} (leb : A → A → bool) l :
  Sorted (λ a b, leb a b = true) l → stable_sort leb l = l.
Proof.
  induction 1 as [|x l Hs IH Hhd]; simpl; [done|]. rewrite IH.
  destruct Hhd as [|y l Hxy]; simpl; [done|]. by rewrite Hxy.
Qed.

(** ** [xs.filter(Boolean)] on strings, and all-or-nothing traversal *)
Definition nonempty {A} (l : list A) : bool :=
  match l with [] => false | _ => true end.

Definition filterb {A} (p : A → bool) (l : list A) : list A := List.filter p l.

Lemma elem_of_filterb {A} (p : A → bool) l x : x ∈ filterb p l ↔ x ∈ l ∧ p x = true.
Proof. unfold filterb. rewrite !list_elem_of_In, filter_In. done. Qed.

Lemma filterb_id {A} (p : A → bool) l : Forall (λ x, p x = true) l → filterb p l = l.
Proof. induction 1 as [|x l Hx _ IH]; simpl; [done|]. by rewrite Hx, IH. Qed.

Lemma NoDup_filterb {A} (p : A → bool) l : NoDup l → NoDup (filterb p l).
Proof. rewrite !NoDup_ListNoDup. apply List.NoDup_filter. Qed.

Lemma filterb_twice {A} (p : A → bool) l : filterb p (filterb p l) = filterb p l.
Proof. apply filterb_id, Forall_forall. by intros x [_ Hx]%elem_of_filterb. Qed.

Lemma filterb_empty {A} (p : A → bool) l : Forall (λ x, p x = false) l → filterb p l = [].
Proof. induction 1 as [|x l Hx _ IH]; [done|]. unfold filterb in *. cbn. by rewrite Hx. Qed.

Lemma filterb_app {A} (p : A → bool) l k : filterb p (l ++ k) = filterb p l ++ filterb p k.
Proof. apply List.filter_app. Qed.

Lemma filterb_filterb {A} (p q : A → bool) l : filterb p (filterb q l) = filterb (λ x, q x && p x) l.
Proof. unfold filterb. induction l as [|x l IH]; [done|]. cbn. destruct (q x); cbn; [by rewrite IH|done]. Qed.

Lemma filterb_ext {A} (p q : A → bool) l : (∀ x, p x = q x) → filterb p l = filterb q l.
Proof. intros H. unfold filterb. induction l as [|x l IH]; [done|]. cbn. by rewrite H, IH. Qed.

Lemma filterb_true {A} (p : A → bool) l : (∀ x, p x = true) → filterb p l = l.
Proof. intros H. apply filterb_id, Forall_forall. auto. Qed.

Lemma nonempty_true {A} (l : list A) : nonempty l = true ↔ l ≠ [].
Proof. by destruct l. Qed.

(** The loop [for (x of xs) { r = f(x); if (!r) return null; out.push(r) }]. *)
Fixpoint traverse {A B} (f : A → option B) (l : list A) : option (list B) :=
  match l with
  | [] => Some []
  | x :: l' =>
      match f x with
      | None => None
      | Some y => match traverse f l' with None => None | Some ys => Some (y :: ys) end
      end
  end.

Lemma traverse_Some {A B} (f : A → option B) l k :
  traverse f l = Some k ↔ Forall2 (λ x y, f x = Some y) l k.
Proof.
  split.
  - revert k; induction l as [|x l IH]; intros k; simpl; [intros [= <-]; constructor|].
    destruct (f x) eqn:?, (traverse f l); intros; simplify_eq; auto using Forall2.
  - induction 1 as [|x y l k Hxy _ IH]; simpl; [done|]. by rewrite Hxy, IH.
Qed.

Lemma traverse_None {A B} (f : A → option B) l x :
  x ∈ l → f x = None → traverse f l = None.
Proof.
  induction 1 as [x l|x y l Hx IH]; simpl; intros Hf; [by rewrite Hf|].
  rewrite (IH Hf). by destruct (f y).
Qed.

Lemma traverse_map {A B C} (g : A → B) (f : B → option C) (h : A → C) l :
  Forall (λ x, f (g x) = Some (h x)) l → traverse f (map g l) = Some (map h l).
Proof. induction 1 as [|x l Hx _ IH]; simpl; [done|]. by rewrite Hx, IH. Qed.

(** ** Runs of a step relation *)

(** What every step keeps, every run keeps. *)
Lemma rtc_keeps {A} (R : relation A) (P : A → Prop) :
  (∀ x y, R x y → P x → P y) → ∀ x y, rtc R x y → P x → P y.
Proof. intros HR x y. induction 1; eauto. Qed.

(** ** Calls that may throw *)

(** The outcome of a call: a value, or a thrown exception. *)
Inductive outcome (A : Type) : Type :=
| Ret (a : A)
| Throw.
Arguments Ret {A} a.
Arguments Throw {A}.

#[export] Instance outcome_ret : MRet outcome := λ A a, Ret a.
#[export] Instance outcome_bind : MBind outcome := λ A B f m,
  match m with Ret a => f a | Throw => Throw end.
#[export] Instance outcome_fmap : FMap outcome := λ A B f m,
  match m with Ret a => Ret (f a) | Throw => Throw end.
#[export] Instance outcome_eq_dec {A} `{!EqDecision A} : EqDecision (outcome A).
Proof. solve_decision. Defined.

(** Unlike [injection], this does not evaluate the values. *)
Lemma Ret_inj {A} (x y : A) : Ret x = Ret y → x = y.
Proof. by intros [=]. Qed.

Definition throw_if_none {A} (o : option A) : outcome A :=
  match o with Some a => Ret a | None => Throw end.

(** The loop [for (x of xs) { r = f(x); if (!r) return null; out.push(r) }]
    whose body may throw. *)
Fixpoint traverse_o {A B} (f : A → outcome (option B)) (l : list A)
    : outcome (option (list B)) :=
  match l with
  | [] => Ret (Some [])
  | x :: l' =>
      match f x with
      | Throw => Throw
      | Ret None => Ret None
      | Ret (Some y) =>
          match traverse_o f l' with
          | Ret (Some ys) => Ret (Some (y :: ys))
          | r => r
          end
      end
  end.

Lemma traverse_o_Some {A B} (f : A → outcome (option B)) l k :
  Forall2 (λ x y, f x = Ret (Some y)) l k → traverse_o f l = Ret (Some k).
Proof. induction 1 as [|x y l k Hxy _ IH]; simpl; [done|]. by rewrite Hxy, IH. Qed.

Lemma traverse_o_app_None {A B} (f : A → outcome (option B)) l x r ys :
  Forall2 (λ x y, f x = Ret (Some y)) l ys → f x = Ret None →
  traverse_o f (l ++ x :: r) = Ret None.
Proof.
  induction 1 as [|z y l k Hzy _ IH]; simpl; intros Hx; [by rewrite Hx|].
  by rewrite Hzy, IH.
Qed.
