(* ===== verification/JsString.v ===== *)
(** * JavaScript strings

    A JavaScript string is a sequence of UTF-16 code units; here a [list Z].
    The file gives the operations of [String.prototype] that the modelled
    sources call (trim, split, indexOf, includes, startsWith, slice, join,
    decimal printing and reading) and their lemmas. A source literal is
    written [js "..."]: the Rocq string holds UTF-8 bytes, which [js] turns
    into UTF-16 code units. *)

From Stdlib Require Import String Ascii.
From S2P Require Export Prelude.

Abbreviation jstr := (list Z).

(** ** Literals *)

Fixpoint utf8_to_utf16 (bs : list Z) : jstr :=
  match bs with
  | [] => []
  | b0 :: r0 =>
      if b0 <? 128 then b0 :: utf8_to_utf16 r0
      else match r0 with
      | [] => []
      | b1 :: r1 =>
          if b0 <? 224 then ((b0 - 192) * 64 + (b1 - 128)) :: utf8_to_utf16 r1
          else match r1 with
          | [] => []
          | b2 :: r2 =>
              if b0 <? 240
              then ((b0 - 224) * 4096 + (b1 - 128) * 64 + (b2 - 128)) :: utf8_to_utf16 r2
              else match r2 with
              | [] => []
              | b3 :: r3 =>
                  let cp := (b0 - 240) * 262144 + (b1 - 128) * 4096
                            + (b2 - 128) * 64 + (b3 - 128) - 65536 in
                  (55296 + cp / 1024) :: (56320 + cp mod 1024) :: utf8_to_utf16 r3
              end
          end
      end
  end.

Definition byte_code (a : ascii) : Z := Z.of_N (N_of_ascii a).

Definition js (s : string) : jstr :=
  utf8_to_utf16 (map byte_code (list_ascii_of_string s)).

Definition chr (s : string) : Z := default 0 (head (js s)).

(** The code units used by name in the models. *)
Definition c_nl : Z := 10.
Definition c_quote : Z := 34.
Definition c_lpar : Z := 40.
Definition c_rpar : Z := 41.
Definition c_star : Z := 42.
Definition c_comma : Z := 44.
Definition c_minus : Z := 45.
Definition c_backslash : Z := 92.

(** ** Character classes *)

(** White space and line terminators: what [trim] strips and [\s] matches. *)
Definition is_ws (c : Z) : bool :=
  ((9 <=? c) && (c <=? 13)) || (c =? 32) || (c =? 160) || (c =? 5760)
  || ((8192 <=? c) && (c <=? 8202)) || (c =? 8232) || (c =? 8233)
  || (c =? 8239) || (c =? 8287) || (c =? 12288) || (c =? 65279).

Definition is_digit (c : Z) : bool := (48 <=? c) && (c <=? 57).

(** Line terminators, which [.] does not match without the [s] flag. *)
Definition is_line_end (c : Z) : bool :=
  (c =? 10) || (c =? 13) || (c =? 8232) || (c =? 8233).

(** ** Trimming *)

Fixpoint drop_while (p : Z → bool) (s : jstr) : jstr :=
  match s with
  | [] => []
  | c :: s' => if p c then drop_while p s' else s
  end.

Definition trim_start (s : jstr) : jstr := drop_while is_ws s.
Definition trim (s : jstr) : jstr := rev (drop_while is_ws (rev (trim_start s))).

Lemma drop_while_suffix p s : ∃ u, s = u ++ drop_while p s ∧ Forall (λ c, p c = true) u.
Proof.
  induction s as [|c s (u & Hu & Hp)]; simpl; [by exists []|].
  destruct (p c) eqn:Hc; [|by exists []].
  exists (c :: u). split; [by rewrite Hu at 1|by constructor].
Qed.

Lemma drop_while_head p c s s' : drop_while p s = c :: s' → p c = false.
Proof.
  induction s as [|d s IH]; simpl; [done|]. destruct (p d) eqn:Hd; [done|].
  by intros [= -> ->].
Qed.

Lemma drop_while_id p c s : p c = false → drop_while p (c :: s) = c :: s.
Proof. simpl. by intros ->. Qed.

Lemma drop_while_idemp p s : drop_while p (drop_while p s) = drop_while p s.
Proof.
  destruct (drop_while p s) as [|c s'] eqn:Hs; [done|].
  apply drop_while_id. by eapply drop_while_head.
Qed.

(** A string with neither a leading nor a trailing white-space code unit. *)
Definition no_edge_ws (s : jstr) : Prop :=
  (∀ c, head s = Some c → is_ws c = false) ∧ (∀ c, last s = Some c → is_ws c = false).

Lemma trim_no_edge s : no_edge_ws s → trim s = s.
Proof.
  intros [Hh Hl]. unfold trim, trim_start. destruct s as [|c s]; [done|].
  rewrite drop_while_id by by apply Hh.
  rewrite <- (rev_involutive (c :: s)). rewrite rev_involutive.
  destruct (rev (c :: s)) as [|d r] eqn:Hr; [done|].
  rewrite drop_while_id; [done|]. apply Hl.
  rewrite <- (rev_involutive (c :: s)), Hr. simpl. apply last_snoc.
Qed.

Lemma drop_while_last p s c :
  last (drop_while p s) = Some c → last s = Some c.
Proof.
  destruct (drop_while_suffix p s) as (u & Hu & _). intros Hl.
  rewrite Hu, last_app, Hl. done.
Qed.

Lemma head_rev_last {A} (s : list A) : head (rev s) = last s.
Proof. rewrite rev_alt. apply head_reverse. Qed.

Lemma trim_edges s : no_edge_ws (trim s).
Proof.
  unfold trim, trim_start. set (t := drop_while is_ws s). split.
  - intros c Hc. rewrite head_rev_last in Hc. apply drop_while_last in Hc.
    rewrite <- head_rev_last, rev_involutive in Hc.
    destruct t as [|d t'] eqn:Ht; [done|]. simpl in Hc. injection Hc as ->.
    unfold t in Ht. by eapply drop_while_head.
  - intros c Hc. rewrite <- head_rev_last, rev_involutive in Hc.
    destruct (drop_while is_ws (rev t)) as [|d r] eqn:Hr; [done|].
    simpl in Hc. injection Hc as ->. by eapply drop_while_head.
Qed.

Lemma trim_idemp s : trim (trim s) = trim s.
Proof. apply trim_no_edge, trim_edges. Qed.

Lemma trim_fixed_iff s : trim s = s ↔ no_edge_ws s.
Proof. split; [intros <-; apply trim_edges|apply trim_no_edge]. Qed.

Lemma elem_of_trim c s : c ∈ trim s → c ∈ s.
Proof.
  unfold trim, trim_start. rewrite !list_elem_of_In, <- in_rev, <- !list_elem_of_In.
  intros Hc.
  destruct (drop_while_suffix is_ws (rev (drop_while is_ws s))) as (u & Hu & _).
  destruct (drop_while_suffix is_ws s) as (v & Hv & _).
  rewrite Hv. apply elem_of_app; right.
  rewrite list_elem_of_In, in_rev, <- list_elem_of_In, Hu.
  apply elem_of_app; by right.
Qed.

Lemma elem_of_trim_ink c s : c ∈ s → is_ws c = false → c ∈ trim s.
Proof.
  assert (H : ∀ t, c ∈ t → is_ws c = false → c ∈ drop_while is_ws t).
  { intros t Ht Hc. destruct (drop_while_suffix is_ws t) as (u & E & Hu). rewrite E in Ht. apply elem_of_app in Ht as [Ht|Ht]; [|done].
    rewrite Forall_forall in Hu. by rewrite (Hu c Ht) in Hc. }
  intros Hs Hc. unfold trim. rewrite list_elem_of_In, <- in_rev, <- list_elem_of_In. apply H; [|done].
  rewrite list_elem_of_In, <- in_rev, <- list_elem_of_In. by apply H.
Qed.

#[export] Hint Resolve trim_edges trim_idemp : starnexus.
#[export] Hint Rewrite trim_idemp : starnexus_rw.

Lemma no_edge_ws_app_between a s b :
  is_ws a = false → is_ws b = false → no_edge_ws (a :: s ++ [b]).
Proof.
  intros Ha Hb. split; intros c; simpl; [by intros [= <-]|].
  change (a :: s ++ [b]) with ((a :: s) ++ [b]). rewrite last_snoc. by intros [= <-].
Qed.

Lemma no_edge_ws_intro a s b t :
  is_ws a = false → is_ws b = false → a :: s = t ++ [b] → no_edge_ws (a :: s).
Proof.
  intros Ha Hb Heq. split; intros c; [by intros [= <-]|].
  rewrite Heq, last_snoc. by intros [= <-].
Qed.

(** ** Prefixes, searching *)

(** [Some rest] when the string starts with [pat]. *)
Fixpoint strip_prefix (pat s : jstr) : option jstr :=
  match pat, s with
  | [], _ => Some s
  | a :: pat', b :: s' => if a =? b then strip_prefix pat' s' else None
  | _ :: _, [] => None
  end.

Definition starts_with (pat s : jstr) : bool :=
  match strip_prefix pat s with Some _ => true | None => false end.

Definition ends_with (pat s : jstr) : bool := starts_with (rev pat) (rev s).

Fixpoint index_of (pat s : jstr) : option nat :=
  if starts_with pat s then Some 0%nat
  else match s with [] => None | _ :: s' => S <$> index_of pat s' end.

(** [s.indexOf(pat, from)] *)
Definition index_of_from (pat s : jstr) (from : nat) : option nat :=
  (λ n, from + n)%nat <$> index_of pat (drop from s).

Definition includes (pat s : jstr) : bool :=
  match index_of pat s with Some _ => true | None => false end.

(** [s.slice(a, b)] for [0 <= a], [0 <= b]. *)
Definition slice (a b : nat) (s : jstr) : jstr := take (b - a) (drop a s).

(** [s.slice(-n)] *)
Definition slice_last (n : nat) (s : jstr) : jstr := drop (length s - n) s.

Lemma strip_prefix_Some pat s r : strip_prefix pat s = Some r ↔ s = pat ++ r.
Proof.
  revert s; induction pat as [|a pat IH]; intros s; simpl.
  - split; congruence.
  - destruct s as [|b s]; [split; congruence|].
    destruct (Z.eqb_spec a b) as [->|Hne].
    + rewrite IH. split; congruence.
    + split; [done|]. intros [= Hab _]. congruence.
Qed.

Lemma strip_prefix_app pat r : strip_prefix pat (pat ++ r) = Some r.
Proof. by apply strip_prefix_Some. Qed.

Lemma starts_with_true pat s : starts_with pat s = true ↔ ∃ r, s = pat ++ r.
Proof.
  unfold starts_with. destruct (strip_prefix pat s) eqn:E.
  - apply strip_prefix_Some in E. split; eauto.
  - split; [done|]. intros [r Hr]. apply strip_prefix_Some in Hr. congruence.
Qed.

Lemma index_of_Some pat s n :
  index_of pat s = Some n →
  s = take n s ++ pat ++ drop (n + length pat) s ∧ (n + length pat ≤ length s)%nat.
Proof.
  revert n; induction s as [|c s IH]; intros n; cbn [index_of].
  - destruct (starts_with pat []) eqn:E; [|done]. intros [= <-].
    apply starts_with_true in E as [r Hr]. symmetry in Hr. apply app_eq_nil in Hr as [-> ->].
    done.
  - destruct (starts_with pat (c :: s)) eqn:E.
    + intros [= <-]. apply starts_with_true in E as [r Hr]. rewrite Hr.
      rewrite take_0, Nat.add_0_l, drop_app_length. simpl. rewrite length_app. split; [done|lia].
    + destruct (index_of pat s) as [k|] eqn:Ek; [|done]. intros [= <-].
      destruct (IH k eq_refl) as [Heq Hlen]. simpl. split; [by rewrite Heq at 1|lia].
Qed.

(** Nothing before the reported index starts with the pattern. *)
Lemma index_of_first pat s n k :
  index_of pat s = Some n → (k < n)%nat → starts_with pat (drop k s) = false.
Proof.
  revert n k; induction s as [|c s IH]; intros n k; cbn [index_of].
  - destruct (starts_with pat []); [|done]. intros [= <-]. lia.
  - destruct (starts_with pat (c :: s)) eqn:E; [intros [= <-]; lia|].
    destruct (index_of pat s) as [m|] eqn:Em; [|done]. intros [= <-] Hk.
    destruct k as [|k]; [done|]. simpl. apply (IH m); [done|lia].
Qed.

Lemma index_of_None pat s :
  index_of pat s = None ↔ ∀ k, (k ≤ length s)%nat → starts_with pat (drop k s) = false.
Proof.
  induction s as [|c s IH]; cbn [index_of].
  - destruct (starts_with pat []) eqn:E; split; try done.
    + intros H. specialize (H 0%nat). simpl in H. rewrite E in H. discriminate H; lia.
    + intros _ k _. by rewrite drop_nil.
  - destruct (starts_with pat (c :: s)) eqn:E; split; try done.
    + intros H. specialize (H 0%nat). simpl in H. rewrite E in H. discriminate H; lia.
    + destruct (index_of pat s); [done|]. intros _ [|k] Hk; [done|].
      simpl. apply IH; [done|]. simpl in Hk. lia.
    + intros H. destruct (index_of pat s); [|done]. apply fmap_None, IH.
      intros k Hk. apply (H (S k)). simpl. lia.
Qed.

Lemma includes_true pat s : includes pat s = true ↔ ∃ u v, s = u ++ pat ++ v.
Proof.
  unfold includes. destruct (index_of pat s) as [n|] eqn:E; split; try done.
  - intros _. apply index_of_Some in E as [E _]. eauto.
  - intros (u & v & ->). pose proof (proj1 (index_of_None _ _) E (length u)) as H.
    rewrite drop_app_length in H. rewrite (proj2 (starts_with_true _ _)) in H by eauto.
    discriminate H. rewrite length_app. lia.
Qed.

Lemma includes_single c s : includes [c] s = true ↔ c ∈ s.
Proof.
  rewrite includes_true. split.
  - intros (u & v & ->). set_solver.
  - intros (u & v & ->)%list_elem_of_split. by exists u, v.
Qed.

(** ** [split] on one code unit, [join] *)

Fixpoint split_char (sep : Z) (s : jstr) : list jstr :=
  match s with
  | [] => [[]]
  | c :: s' =>
      if c =? sep then [] :: split_char sep s'
      else match split_char sep s' with
           | [] => [[c]]
           | p :: ps => (c :: p) :: ps
           end
  end.

Fixpoint join (sep : jstr) (l : list jstr) : jstr :=
  match l with
  | [] => []
  | [s] => s
  | s :: l' => s ++ sep ++ join sep l'
  end.

Lemma split_char_nonempty sep s : split_char sep s ≠ [].
Proof. destruct s; simpl; [done|]. split_matches; done. Qed.

Lemma split_char_no_sep sep s : sep ∉ s → split_char sep s = [s].
Proof.
  induction s as [|c s IH]; intros Hn; simpl; [done|].
  apply not_elem_of_cons in Hn as [Hc Hn].
  rewrite (proj2 (Z.eqb_neq c sep)) by congruence. by rewrite IH.
Qed.

Lemma split_char_app sep p s :
  sep ∉ p → split_char sep (p ++ sep :: s) = p :: split_char sep s.
Proof.
  induction p as [|c p IH]; intros Hn; simpl; [by rewrite Z.eqb_refl|].
  apply not_elem_of_cons in Hn as [Hc Hn].
  rewrite (proj2 (Z.eqb_neq c sep)) by congruence. by rewrite IH.
Qed.

Lemma split_char_app_sep sep a s :
  split_char sep (a ++ sep :: s) = split_char sep a ++ split_char sep s.
Proof.
  induction a as [|c a IH]; simpl; [by rewrite Z.eqb_refl|].
  destruct (Z.eqb_spec c sep) as [->|Hc]; [by rewrite IH|]. rewrite IH.
  destruct (split_char sep a) eqn:E; [|done]. by apply split_char_nonempty in E.
Qed.

Lemma split_char_join sep l :
  l ≠ [] → Forall (λ s, sep ∉ s) l → split_char sep (join [sep] l) = l.
Proof.
  intros Hne Hl. induction Hl as [|s l Hs Hl IH]; [done|].
  destruct l as [|t l]; [by apply split_char_no_sep|].
  change (join [sep] (s :: t :: l)) with (s ++ sep :: join [sep] (t :: l)).
  rewrite split_char_app by done. by rewrite IH.
Qed.

Lemma split_char_pieces sep s : Forall (λ p, sep ∉ p) (split_char sep s).
Proof.
  induction s as [|c s IH]; simpl; [repeat constructor; set_solver|].
  destruct (Z.eqb_spec c sep) as [->|Hc]; [constructor; [set_solver|done]|].
  destruct (split_char sep s) as [|p ps]; inversion IH; subst;
    constructor; set_solver.
Qed.

Lemma elem_of_split_char sep s p c : p ∈ split_char sep s → c ∈ p → c ∈ s.
Proof.
  revert p; induction s as [|d s IH]; intros p; simpl.
  { intros ->%list_elem_of_singleton. done. }
  destruct (d =? sep).
  { intros [->|Hp]%elem_of_cons Hc; [by apply not_elem_of_nil in Hc|].
    apply elem_of_cons; right; eauto. }
  destruct (split_char sep s) as [|q qs].
  { intros ->%list_elem_of_singleton Hc. apply list_elem_of_singleton in Hc as ->. by left. }
  intros [->|Hp]%elem_of_cons Hc; apply elem_of_cons.
  - apply elem_of_cons in Hc as [->|Hc]; [by left|]. right. apply (IH q); [by left|done].
  - right. apply (IH p); [by right|done].
Qed.

Lemma join_split_char sep s : join [sep] (split_char sep s) = s.
Proof.
  induction s as [|c s IH]; simpl; [done|].
  destruct (Z.eqb_spec c sep) as [->|Hc].
  - destruct (split_char sep s) as [|p ps] eqn:E; [by apply split_char_nonempty in E|].
    by rewrite <- IH.
  - destruct (split_char sep s) as [|p ps] eqn:E; [by apply split_char_nonempty in E|].
    rewrite <- IH. by destruct ps.
Qed.

Lemma join_app_nonempty sep l k :
  l ≠ [] → k ≠ [] → join sep (l ++ k) = join sep l ++ sep ++ join sep k.
Proof.
  intros Hl Hk. induction l as [|s l IH]; [done|].
  destruct l as [|t l]; simpl.
  - by destruct k.
  - simpl in IH. rewrite IH by done. by rewrite <- !app_assoc.
Qed.

(** ** Reading and printing decimal integers *)

Definition digits_value (s : jstr) : Z := foldl (λ acc c, acc * 10 + (c - 48)) 0 s.

(** [/^\d+$/] *)
Definition all_digits (s : jstr) : bool := nonempty s && forallb is_digit s.

(** [String(n)] for an integer [n] of magnitude below [10^21]. *)
Fixpoint print_digits (fuel : nat) (n : Z) : jstr :=
  match fuel with
  | O => []
  | S f => if n <? 10 then [48 + n] else print_digits f (n / 10) ++ [48 + n mod 10]
  end.

Definition string_of_Z (n : Z) : jstr :=
  if n <? 0 then c_minus :: print_digits (S (Z.to_nat (Z.log2 (- n)))) (- n)
  else print_digits (S (Z.to_nat (Z.log2 n))) n.

Lemma digits_value_snoc s c : digits_value (s ++ [c]) = digits_value s * 10 + (c - 48).
Proof. unfold digits_value. by rewrite foldl_snoc. Qed.

Lemma print_digits_spec fuel n :
  0 ≤ n → n < 2 ^ Z.of_nat fuel →
  (fuel ≠ 0)%nat →
  digits_value (print_digits fuel n) = n ∧
  forallb is_digit (print_digits fuel n) = true ∧ print_digits fuel n ≠ [].
Proof.
  revert n; induction fuel as [|f IH]; intros n H0 Hn Hf; [done|]. cbn [print_digits].
  destruct (Z.ltb_spec n 10) as [Hlt|Hge].
  - unfold digits_value, is_digit. simpl. split_and!; [lia| |done].
    rewrite andb_true_r. apply andb_true_iff; split; apply Z.leb_le; lia.
  - assert (f ≠ 0%nat) by (intros ->; simpl in Hn; lia).
    destruct (IH (n / 10)) as (Hv & Hd & Hne); [apply Z.div_pos; lia| |done|].
    { rewrite Nat2Z.inj_succ, Z.pow_succ_r in Hn by lia.
      apply Z.div_lt_upper_bound; lia. }
    rewrite digits_value_snoc, Hv, forallb_app, Hd. simpl.
    pose proof (Z.div_mod n 10 ltac:(lia)). pose proof (Z.mod_pos_bound n 10 ltac:(lia)).
    split_and!; [lia| |by destruct (print_digits f (n / 10))].
    unfold is_digit. rewrite andb_true_r. apply andb_true_iff; split; apply Z.leb_le; lia.
Qed.

Lemma string_of_Z_nonneg n :
  0 ≤ n →
  digits_value (string_of_Z n) = n ∧ all_digits (string_of_Z n) = true.
Proof.
  intros Hn. unfold string_of_Z, all_digits. rewrite (proj2 (Z.ltb_ge n 0)) by lia.
  destruct (print_digits_spec (S (Z.to_nat (Z.log2 n))) n) as (Hv & Hd & Hne);
    [done| |done|].
  - destruct (Z.eq_dec n 0) as [->|]; [done|].
    rewrite Nat2Z.inj_succ, Z2Nat.id by apply Z.log2_nonneg. apply Z.log2_spec; lia.
  - split; [done|]. rewrite Hd. apply nonempty_true in Hne. by rewrite Hne.
Qed.

Lemma digits_value_nonneg_from acc s :
  0 ≤ acc → forallb is_digit s = true → 0 ≤ foldl (λ acc c, acc * 10 + (c - 48)) acc s.
Proof.
  revert acc; induction s as [|c s IH]; intros acc H; simpl; [done|].
  unfold is_digit at 1. intros ?; reflect_bools. apply IH; [lia|done].
Qed.

Lemma is_digit_not_ws c : is_digit c = true → is_ws c = false.
Proof.
  unfold is_digit, is_ws. intros H; reflect_bools.
  repeat (apply orb_false_iff; split); try apply andb_false_iff;
    rewrite ?Z.leb_gt, ?Z.eqb_neq; lia.
Qed.

(** Joining with an empty separator is concatenation. *)
Lemma all_digits_spec s : all_digits s = true → s ≠ [] ∧ Forall (λ c, is_digit c = true) s.
Proof.
  unfold all_digits. intros [Hne Hd]%andb_true_iff. apply nonempty_true in Hne.
  split; [done|]. apply Forall_forall. intros c Hc. rewrite forallb_forall in Hd.
  by apply Hd, list_elem_of_In.
Qed.

Lemma join_nil l : join [] l = concat l.
Proof.
  induction l as [|s l IH]; simpl; [done|].
  destruct l; simpl in *; [by rewrite app_nil_r|]. by rewrite IH.
Qed.

(** ** Separated lists of trimmed, non-empty entries

    [s.split(sep).map(trim).filter(Boolean)], the reading of every comma or
    line separated field of the console. *)

Definition trimmed_parts (sep : Z) (s : jstr) : list jstr :=
  filterb nonempty (map trim (split_char sep s)).

Definition clean_part (sep : Z) (p : jstr) : Prop := p ≠ [] ∧ trim p = p ∧ sep ∉ p.

Lemma trimmed_parts_clean sep s : Forall (clean_part sep) (trimmed_parts sep s).
Proof.
  apply Forall_forall. intros p [Hp Hne]%elem_of_filterb. apply nonempty_true in Hne.
  apply list_elem_of_fmap in Hp as (q & -> & Hq). split; [done|]. split; [apply trim_idemp|].
  intros Hs%elem_of_trim. pose proof (split_char_pieces sep s) as Hf.
  rewrite Forall_forall in Hf. by apply (Hf q).
Qed.

Lemma trimmed_parts_join sep l : Forall (clean_part sep) l → trimmed_parts sep (join [sep] l) = l.
Proof.
  intros Hl. destruct l as [|p l]; [done|]. unfold trimmed_parts.
  rewrite split_char_join; [|done|eapply Forall_impl; [exact Hl|]; by intros ? (_ & _ & ?)].
  replace (map trim (p :: l)) with (p :: l).
  - apply filterb_id. eapply Forall_impl; [exact Hl|]. intros ? (? & _). by apply nonempty_true.
  - symmetry. rewrite <- (map_id (p :: l)) at 2. apply map_ext_in. intros q Hq.
    rewrite Forall_forall in Hl. by apply (Hl q), list_elem_of_In.
Qed.

Lemma trimmed_parts_nil sep : trimmed_parts sep [] = [].
Proof. done. Qed.

Lemma elem_of_trimmed_parts sep s p :
  p ∈ trimmed_parts sep s ↔ p ≠ [] ∧ ∃ q, q ∈ split_char sep s ∧ p = trim q.
Proof.
  unfold trimmed_parts. rewrite elem_of_filterb, nonempty_true, list_elem_of_fmap. naive_solver.
Qed.

#[export] Hint Resolve trimmed_parts_clean trim_idemp trim_edges : starnexus.

(** ** Order *)

(** The default order of [sort()]: by UTF-16 code units. *)
Fixpoint units_le (a b : jstr) : bool :=
  match a, b with
  | [], _ => true
  | _ :: _, [] => false
  | c :: a', d :: b' => if c =? d then units_le a' b' else c <? d
  end.

Lemma units_le_total a b : units_le a b = true ∨ units_le b a = true.
Proof.
  revert b; induction a as [|c a IH]; intros [|d b]; simpl; auto.
  rewrite (Z.eqb_sym d c). destruct (Z.eqb_spec c d); [apply IH|]. lia.
Qed.

Lemma units_le_trans a b c : units_le a b = true → units_le b c = true → units_le a c = true.
Proof.
  revert b c; induction a as [|x a IH]; intros [|y b] [|z c]; simpl; try done.
  destruct (Z.eqb_spec x y), (Z.eqb_spec y z), (Z.eqb_spec x z); subst; try done; try lia; eauto.
Qed.

Lemma units_le_antisym a b : units_le a b = true → units_le b a = true → a = b.
Proof.
  revert b; induction a as [|x a IH]; intros [|y b]; simpl; try done.
  rewrite (Z.eqb_sym y x). destruct (Z.eqb_spec x y); subst; [|lia]. intros H1 H2. f_equal. auto.
Qed.

(** A comparison function with that order; an instance of what
    [localeCompare] promises. *)
Definition units_compare (a b : jstr) : Z :=
  if units_le a b then (if units_le b a then 0 else -1) else 1.

Lemma units_compare_le a b : units_compare a b ≤ 0 ↔ units_le a b = true.
Proof. unfold units_compare. repeat case_match; split; try done; lia. Qed.

Lemma units_compare_total a b : units_compare a b ≤ 0 ∨ units_compare b a ≤ 0.
Proof. rewrite !units_compare_le. apply units_le_total. Qed.

Lemma units_compare_trans a b c :
  units_compare a b ≤ 0 → units_compare b c ≤ 0 → units_compare a c ≤ 0.
Proof. rewrite !units_compare_le. apply units_le_trans. Qed.

Lemma units_compare_antisym a b : units_compare a b ≤ 0 → units_compare b a ≤ 0 → a = b.
Proof. rewrite !units_compare_le. apply units_le_antisym. Qed.
