(* ===== verification/JsRegex.v ===== *)
(** * ECMAScript regular expressions

    The sources parse text with JavaScript regular expressions. A pattern is
    a term of [re] and [rmatch] is the backtracking matcher of the language
    definition, in continuation-passing style: alternatives are tried from
    left to right, greedy repetitions from the longest match down, an
    iteration of a repetition that consumes nothing is refused, and the
    captures inside a repetition are reset at each iteration. The lemmas
    describe the shapes the sources use: literals, character classes under a
    greedy repetition, captures and the anchors. *)

From Stdlib Require Import String.
From S2P Require Export JsString.

(** ** Patterns *)

Inductive re : Type :=
| REps
| RChar (p : Z → bool)
| RSeq (r1 r2 : re)
| RAlt (r1 r2 : re)
| RStar (greedy : bool) (r : re)
| RGroup (i : nat) (r : re)
| RBackref (i : nat)
| RBol
| REol
| RWordBoundary.

Declare Scope re_scope.
Delimit Scope re_scope with re.
Bind Scope re_scope with re.
Infix "⋅" := RSeq (at level 41, right associativity) : re_scope.
Infix "⊕" := RAlt (at level 51, right associativity) : re_scope.
Open Scope re_scope.

Definition caps := list (nat * jstr).

(** The matcher's position: what precedes it (reversed), what follows, and
    the captures so far. *)
Record mstate := MState { m_pre : jstr; m_rest : jstr; m_caps : caps }.

Fixpoint cap (i : nat) (cs : caps) : option jstr :=
  match cs with
  | [] => None
  | (j, w) :: cs' => if Nat.eqb i j then Some w else cap i cs'
  end.

Fixpoint groups (r : re) : list nat :=
  match r with
  | RSeq a b | RAlt a b => groups a ++ groups b
  | RStar _ a => groups a
  | RGroup i a => i :: groups a
  | _ => []
  end.

Definition drop_caps (gs : list nat) (cs : caps) : caps :=
  List.filter (λ c, negb (existsb (Nat.eqb c.1) gs)) cs.

Definition or_else {R} (a b : option R) : option R :=
  match a with Some _ => a | None => b end.

(** [\w] *)
Definition is_word (c : Z) : bool :=
  is_digit c || ((65 <=? c) && (c <=? 90)) || ((97 <=? c) && (c <=? 122)) || (c =? 95).

Definition word_at (s : jstr) : bool :=
  match s with [] => false | c :: _ => is_word c end.

Section matcher.
Context {R : Type}.

(** The loop of a repetition; [step] matches one iteration. *)
Fixpoint star_loop (greedy : bool) (step : (mstate → option R) → mstate → option R)
    (k : mstate → option R) (fuel : nat) (st : mstate) : option R :=
  match fuel with
  | O => k st
  | S f =>
      let again :=
        step (λ st', if (length (m_rest st') <? length (m_rest st))%nat
                     then star_loop greedy step k f st' else None) st in
      if greedy then or_else again (k st) else or_else (k st) again
  end.

Fixpoint rmatch (r : re) (k : mstate → option R) (st : mstate) : option R :=
  match r with
  | REps => k st
  | RChar p =>
      match m_rest st with
      | c :: s => if p c then k (MState (c :: m_pre st) s (m_caps st)) else None
      | [] => None
      end
  | RSeq a b => rmatch a (rmatch b k) st
  | RAlt a b => or_else (rmatch a k st) (rmatch b k st)
  | RStar g a =>
      star_loop g
        (λ k' st', rmatch a k' (MState (m_pre st') (m_rest st')
                                  (drop_caps (groups a) (m_caps st'))))
        k (S (length (m_rest st))) st
  | RGroup i a =>
      rmatch a (λ st', k (MState (m_pre st') (m_rest st')
          ((i, take (length (m_rest st) - length (m_rest st')) (m_rest st))
           :: drop_caps [i] (m_caps st')))) st
  | RBackref i =>
      let w := default [] (cap i (m_caps st)) in
      match strip_prefix w (m_rest st) with
      | Some s => k (MState (rev w ++ m_pre st) s (m_caps st))
      | None => None
      end
  | RBol => match m_pre st with [] => k st | _ => None end
  | REol => match m_rest st with [] => k st | _ => None end
  | RWordBoundary => if xorb (word_at (m_pre st)) (word_at (m_rest st)) then k st else None
  end.
End matcher.

(** [re.exec] from a position on: the first starting point that matches.
    The result is the start (what precedes the match, reversed) and the state
    at its end. *)
Fixpoint search (r : re) (pre s : jstr) : option (jstr * mstate) :=
  match rmatch r Some (MState pre s []) with
  | Some st => Some (pre, st)
  | None => match s with [] => None | c :: s' => search r (c :: pre) s' end
  end.

(** [s.match(re)] of a pattern without the [g] flag: its captures. *)
Definition match_caps (r : re) (s : jstr) : option caps :=
  (λ p, m_caps p.2) <$> search r [] s.

(** [re.test(s)] *)
Definition re_test (r : re) (s : jstr) : bool :=
  match search r [] s with Some _ => true | None => false end.

(** ** Pattern abbreviations *)

Definition is_chr (c d : Z) : bool := c =? d.

Fixpoint rlits (w : jstr) : re :=
  match w with [] => REps | c :: w' => RSeq (RChar (is_chr c)) (rlits w') end.

Definition lit (w : string) : re := rlits (js w).
Definition rstar (p : Z → bool) : re := RStar true (RChar p).
Definition rplus (p : Z → bool) : re := RSeq (RChar p) (rstar p).
Definition ropt (r : re) : re := RAlt r REps.

(** The pattern between [^] and [$]. *)
Definition anchored (r : re) : re := RBol ⋅ r ⋅ REol.

Definition any_char (c : Z) : bool := true.
Definition not_line_end (c : Z) : bool := negb (is_line_end c).
Definition not_quote (c : Z) : bool := negb (c =? c_quote).

(** ** Matching literals *)

Lemma rmatch_rlits {R} w (k : mstate → option R) pre s cs :
  rmatch (rlits w) k (MState pre s cs) =
  match strip_prefix w s with
  | Some s' => k (MState (rev w ++ pre) s' cs)
  | None => None
  end.
Proof.
  revert pre s; induction w as [|c w IH]; intros pre s; simpl; [done|].
  destruct s as [|d s]; simpl; [done|]. unfold is_chr. destruct (Z.eqb_spec c d) as [->|]; [|done].
  rewrite IH. destruct (strip_prefix w s); [|done]. by rewrite <- app_assoc.
Qed.

Lemma rmatch_lit {R} w (k : mstate → option R) pre s cs :
  rmatch (lit w) k (MState pre s cs) =
  match strip_prefix (js w) s with
  | Some s' => k (MState (rev (js w) ++ pre) s' cs)
  | None => None
  end.
Proof. apply rmatch_rlits. Qed.

Lemma rmatch_lit_app {R} w (k : mstate → option R) pre s cs :
  rmatch (lit w) k (MState pre (js w ++ s) cs) = k (MState (rev (js w) ++ pre) s cs).
Proof. by rewrite rmatch_lit, strip_prefix_app. Qed.

(** ** Fuel of a repetition: the loop never runs out *)

Lemma star_loop_fuel {R} g (step : (mstate → option R) → mstate → option R) k :
  (∀ k1 k2 st, (∀ st', k1 st' = k2 st') → step k1 st = step k2 st) →
  ∀ f1 f2 st, (length (m_rest st) < f1)%nat → (length (m_rest st) < f2)%nat →
  star_loop g step k f1 st = star_loop g step k f2 st.
Proof.
  intros Hext f1; induction f1 as [|f1 IH]; intros [|f2] st H1 H2; [lia..|].
  cbn [star_loop].
  rewrite (Hext _ (λ st', if (length (m_rest st') <? length (m_rest st))%nat
                          then star_loop g step k f2 st' else None)); [done|].
  intros st'. destruct (Nat.ltb_spec (length (m_rest st')) (length (m_rest st))); [|done].
  apply IH; lia.
Qed.

(** ** A character class under a greedy repetition *)

Section greedy.
Context {R : Type} (p : Z → bool) (k : mstate → option R) (cs : caps).

Fixpoint greedy_span (pre s : jstr) : option R :=
  match s with
  | [] => k (MState pre [] cs)
  | c :: s' =>
      if p c then or_else (greedy_span (c :: pre) s') (k (MState pre s cs))
      else k (MState pre s cs)
  end.

Lemma drop_caps_nil : drop_caps [] cs = cs.
Proof. unfold drop_caps. induction cs as [|c l IH]; simpl; [done|]. f_equal. exact IH. Qed.

Lemma star_loop_class fuel pre s :
  (length s < fuel)%nat →
  star_loop true
    (λ k' st', rmatch (RChar p) k' (MState (m_pre st') (m_rest st') (drop_caps [] (m_caps st'))))
    k fuel (MState pre s cs) = greedy_span pre s.
Proof.
  revert pre s; induction fuel as [|f IH]; intros pre s Hf; [lia|].
  destruct s as [|c s]; cbn [star_loop]; [done|]. simpl. rewrite drop_caps_nil.
  destruct (p c); [|done].
  rewrite (proj2 (Nat.ltb_lt _ _)) by lia. rewrite <- IH by (simpl in Hf; lia). done.
Qed.

Lemma rmatch_rstar pre s :
  rmatch (rstar p) k (MState pre s cs) = greedy_span pre s.
Proof. unfold rstar. cbn [rmatch groups]. apply star_loop_class. simpl. lia. Qed.

(** The longest stretch of the class whose continuation matches wins. *)
Lemma greedy_span_longest pre u t x :
  Forall (λ c, p c = true) u →
  (∀ t1 t2, t = t1 ++ t2 → t1 ≠ [] → Forall (λ c, p c = true) t1 →
    k (MState (rev t1 ++ rev u ++ pre) t2 cs) = None) →
  k (MState (rev u ++ pre) t cs) = Some x →
  greedy_span pre (u ++ t) = Some x.
Proof.
  intros Hu; revert pre; induction Hu as [|c u Hc Hu IH]; intros pre Hfail Hk; simpl.
  - simpl in *. revert pre Hfail Hk.
    destruct t as [|c t]; intros pre Hfail Hk; simpl; [done|].
    destruct (p c) eqn:Hpc; [|done].
    assert (greedy_span (c :: pre) t = None) as ->; [|done].
    assert (Hgen : ∀ w v, c :: t = v ++ w → v ≠ [] → Forall (λ c, p c = true) v →
              greedy_span (rev v ++ pre) w = None).
    { induction w as [|d w IHw]; intros v Hv Hne Hp; simpl; [by apply Hfail|].
      destruct (p d) eqn:Hd; [|by apply Hfail].
      specialize (IHw (v ++ [d])). rewrite rev_unit in IHw. simpl in IHw.
      rewrite IHw; [by apply Hfail|by rewrite <- app_assoc|by destruct v|].
      apply Forall_app; auto. }
    apply (Hgen t [c]); auto.
  - rewrite Hc. simpl in Hk, Hfail. rewrite (IH (c :: pre)); [done| |].
    + intros t1 t2 -> Hne Hp. specialize (Hfail t1 t2 eq_refl Hne Hp).
      by rewrite <- !app_assoc in Hfail.
    + by rewrite <- app_assoc in Hk.
Qed.

(** When the continuation cannot start inside the class, the repetition is
    deterministic: it takes the whole stretch. *)
Lemma greedy_span_det pre u t :
  Forall (λ c, p c = true) u →
  (∀ c t', t = c :: t' → p c = false) →
  (∀ pre' c s', p c = true → k (MState pre' (c :: s') cs) = None) →
  greedy_span pre (u ++ t) = k (MState (rev u ++ pre) t cs).
Proof.
  intros Hu Ht Hk; revert pre; induction Hu as [|c u Hc Hu IH]; intros pre; simpl.
  - destruct t as [|c t]; simpl; [done|]. by rewrite (Ht c t eq_refl).
  - rewrite Hc, IH, (Hk _ c) by done. rewrite <- app_assoc. simpl.
    by destruct (k (MState (rev u ++ c :: pre) t cs)).
Qed.
End greedy.

(** ** A captured run of a class followed by a literal *)

Section capture.
Context {R : Type}.
Implicit Types (k : mstate → option R) (p : Z → bool).

(** The capture recorded after a run [u]. *)
Definition cap_add (i : nat) (u : jstr) (cs : caps) : caps := (i, u) :: drop_caps [i] cs.

Lemma take_run (u t : jstr) : take (length (u ++ t) - length t) (u ++ t) = u.
Proof. rewrite length_app, Nat.add_sub. apply take_app_length. Qed.

(** [(cls+)] then a continuation that rejects every code unit of [cls]. *)
Lemma rmatch_group_plus_det i p k pre u t cs :
  Forall (λ c, p c = true) u → u ≠ [] →
  (∀ c t', t = c :: t' → p c = false) →
  (∀ pre' cs' c s', p c = true → k (MState pre' (c :: s') cs') = None) →
  rmatch (RGroup i (rplus p)) k (MState pre (u ++ t) cs) =
  k (MState (rev u ++ pre) t (cap_add i u cs)).
Proof.
  intros Hu Hne Ht Hk. destruct u as [|c u]; [done|]. inversion_clear Hu as [|? ? Hc Hu'].
  unfold rplus. cbn [rmatch app m_rest m_pre m_caps]. rewrite Hc.
  fold (rstar p). rewrite rmatch_rstar. rewrite greedy_span_det; [|done..|].
  - pose proof (take_run (c :: u) t) as Htk. simpl in Htk |- *. unfold cap_add.
    by rewrite Htk, <- app_assoc.
  - intros pre' d s' Hd. by apply Hk.
Qed.

(** [(cls+)] where only the whole run lets the continuation succeed. *)
Lemma rmatch_group_plus_longest i p k pre u t cs x :
  Forall (λ c, p c = true) u → u ≠ [] →
  (∀ pre' cs' t1 t2, t = t1 ++ t2 → t1 ≠ [] → Forall (λ c, p c = true) t1 →
     k (MState pre' t2 cs') = None) →
  k (MState (rev u ++ pre) t (cap_add i u cs)) = Some x →
  rmatch (RGroup i (rplus p)) k (MState pre (u ++ t) cs) = Some x.
Proof.
  intros Hu Hne Hfail Hk. destruct u as [|c u]; [done|]. inversion_clear Hu as [|? ? Hc Hu'].
  unfold rplus. cbn [rmatch app m_rest m_pre m_caps]. rewrite Hc.
  fold (rstar p). rewrite rmatch_rstar. apply greedy_span_longest; [done| |].
  - intros t1 t2 -> Hne1 Hp. by eapply Hfail.
  - pose proof (take_run (c :: u) t) as Htk. simpl in Htk, Hk |- *. unfold cap_add in Hk.
    by rewrite Htk, <- Hk, <- app_assoc.
Qed.

(** A class run cannot start on a code unit outside the class. *)
Lemma rmatch_group_plus_none i p k pre s cs :
  (∀ c s', s = c :: s' → p c = false) →
  rmatch (RGroup i (rplus p)) k (MState pre s cs) = None.
Proof.
  intros Hs. unfold rplus. cbn [rmatch m_rest]. destruct s as [|c s]; [done|].
  by rewrite (Hs c s eq_refl).
Qed.
End capture.

(** ** Anchored patterns are tried at the start only *)

Lemma search_bol_none r pre s : pre ≠ [] → search (RBol ⋅ r) pre s = None.
Proof.
  revert pre; induction s as [|c s IH]; intros pre Hne; cbn [search rmatch m_pre];
    destruct pre; try done. by apply IH.
Qed.

Lemma search_bol r s :
  search (RBol ⋅ r) [] s = (λ st, ([], st)) <$> rmatch r Some (MState [] s []).
Proof.
  destruct s as [|c s]; cbn [search rmatch m_pre].
  - by destruct (rmatch r Some (MState [] [] [])).
  - destruct (rmatch r Some (MState [] (c :: s) [])); [done|]. by apply search_bol_none.
Qed.

Lemma match_caps_bol r s :
  match_caps (RBol ⋅ r) s = m_caps <$> rmatch r Some (MState [] s []).
Proof. unfold match_caps. rewrite search_bol. by destruct (rmatch r Some (MState [] s [])). Qed.

Lemma re_test_bol r s :
  re_test (RBol ⋅ r) s = match rmatch r Some (MState [] s []) with Some _ => true | None => false end.
Proof. unfold re_test. rewrite search_bol. by destruct (rmatch r Some (MState [] s [])). Qed.

(** ** The continuation matters only through the states it is given *)

Lemma or_else_None {R} (a b : option R) : or_else a b = None ↔ a = None ∧ b = None.
Proof. destruct a, b; naive_solver. Qed.

Lemma rmatch_ext {R} r : ∀ (k1 k2 : mstate → option R) st,
  (∀ st', k1 st' = k2 st') → rmatch r k1 st = rmatch r k2 st.
Proof.
  induction r as [|p|a IHa b IHb|a IHa b IHb|g a IHa|i a IHa|i| | |]; intros k1 k2 st Hk; cbn [rmatch];
    try (by rewrite ?Hk).
  - destruct (m_rest st); [done|]. by rewrite Hk.
  - apply IHa. intros st'. by apply IHb.
  - by rewrite (IHa k1 k2), (IHb k1 k2).
  - generalize (S (length (m_rest st))) as f. intros f. revert st.
    induction f as [|f IH]; intros st; cbn [star_loop]; [apply Hk|].
    rewrite Hk. erewrite IHa; [reflexivity|]. intros st'. simpl.
    destruct (_ <? _)%nat; [apply IH|done].
  - apply IHa. intros st'. apply Hk.
  - destruct (strip_prefix _ _); [apply Hk|done].
Qed.

(** ** The code units a match consumes *)

(** Every code unit [r] can consume satisfies [P]. *)
Fixpoint re_over (P : Z → bool) (r : re) : Prop :=
  match r with
  | RChar p => ∀ c, p c = true → P c = true
  | RSeq a b | RAlt a b => re_over P a ∧ re_over P b
  | RStar _ a | RGroup _ a => re_over P a
  | RBackref _ => False
  | _ => True
  end.

(** [st'] is reached from [st] by consuming units of [P]. *)
Definition consumed (P : Z → bool) (st st' : mstate) : Prop :=
  ∃ u, m_rest st = u ++ m_rest st' ∧ Forall (λ c, P c = true) u.

Lemma consumed_refl P st : consumed P st st.
Proof. by exists []. Qed.

Lemma consumed_trans P st1 st2 st3 :
  consumed P st1 st2 → consumed P st2 st3 → consumed P st1 st3.
Proof.
  intros (u & Hu & Fu) (v & Hv & Fv). exists (u ++ v).
  rewrite Hu, Hv, app_assoc. split; [done|]. by apply Forall_app.
Qed.

Lemma rmatch_over {R} P r : re_over P r →
  ∀ (k : mstate → option R) st x, rmatch r k st = Some x →
  ∃ st', consumed P st st' ∧ k st' = Some x.
Proof.
  induction r as [|p|a IHa b IHb|a IHa b IHb|g a IHa|i a IHa|i| | |]; simpl;
    intros Hover k st x; try (intros H; eauto using consumed_refl; fail).
  - destruct st as [pre [|c s] cs]; simpl; [done|]. destruct (p c) eqn:Hc; [|done]. intros Hk.
    eexists; split; [|done]. exists [c]. split; [done|]. by repeat constructor; apply Hover.
  - destruct Hover as [Ha Hb]. intros Hm.
    destruct (IHa Ha _ _ _ Hm) as (st1 & H1 & Hm1).
    destruct (IHb Hb _ _ _ Hm1) as (st2 & H2 & Hm2). eauto using consumed_trans.
  - destruct Hover as [Ha Hb]. destruct (rmatch a k st) eqn:E; simpl; [|by apply IHb].
    intros [= ->]. by apply (IHa Ha).
  - change (star_loop g (λ k' st', rmatch a k' (MState (m_pre st') (m_rest st')
        (drop_caps (groups a) (m_caps st')))) k (S (length (m_rest st))) st = Some x →
      ∃ st', consumed P st st' ∧ k st' = Some x).
    generalize (S (length (m_rest st))) as f. intros f. revert st.
    induction f as [|f IHf]; intros st; cbn [star_loop]; [eauto using consumed_refl|].
    intros Hm.
    assert (Hcases : k st = Some x ∨ rmatch a (λ st', if (length (m_rest st') <? length (m_rest st))%nat
        then star_loop g (λ k' st', rmatch a k' (MState (m_pre st') (m_rest st')
          (drop_caps (groups a) (m_caps st')))) k f st' else None)
        (MState (m_pre st) (m_rest st) (drop_caps (groups a) (m_caps st))) = Some x).
    { destruct g; unfold or_else in Hm; case_match; auto. }
    destruct Hcases as [Hk|Hstep]; [eauto using consumed_refl|].
    destruct (IHa Hover _ _ _ Hstep) as (st1 & Hc1 & Hm1).
    destruct (_ <? _)%nat; [|done]. destruct (IHf _ Hm1) as (st2 & Hc2 & Hk2).
    exists st2. split; [|done]. eapply consumed_trans; [exact Hc1|done].
  - intros Hm. destruct (IHa Hover _ _ _ Hm) as (st1 & H1 & Hk).
    eexists; split; [|exact Hk]. exact H1.
  - done.
  - destruct (m_pre st); [|done]. eauto using consumed_refl.
  - destruct (m_rest st); [|done]. eauto using consumed_refl.
  - destruct (xorb _ _); [|done]. eauto using consumed_refl.
Qed.

(** A pattern over [P] that is anchored at the end accepts only text of [P]. *)
Lemma rmatch_over_eol P r pre s x :
  re_over P r → rmatch (r ⋅ REol) Some (MState pre s []) = Some x → Forall (λ c, P c = true) s.
Proof.
  intros Hr Hm. cbn [rmatch] in Hm.
  destruct (rmatch_over P r Hr _ _ _ Hm) as (st & (u & Hu & Fu) & Hk).
  simpl in Hk, Hu. destruct (m_rest st); [|done]. by rewrite Hu, app_nil_r.
Qed.

Lemma rmatch_assoc {R} a b c (k : mstate → option R) st :
  rmatch (a ⋅ b ⋅ c) k st = rmatch ((a ⋅ b) ⋅ c) k st.
Proof. done. Qed.

(** ** Equations of the matcher *)

Section equations.
Context {R : Type}.
Implicit Types k : mstate → option R.

Lemma rmatch_seq a b k st : rmatch (a ⋅ b) k st = rmatch a (rmatch b k) st.
Proof. done. Qed.

Lemma rmatch_group_alt i a b k st :
  rmatch (RGroup i (a ⊕ b)) k st =
  or_else (rmatch (RGroup i a) k st) (rmatch (RGroup i b) k st).
Proof. done. Qed.

Lemma rmatch_group_lit i w k pre s cs :
  rmatch (RGroup i (lit w)) k (MState pre s cs) =
  match strip_prefix (js w) s with
  | Some t => k (MState (rev (js w) ++ pre) t (cap_add i (js w) cs))
  | None => None
  end.
Proof.
  cbn [rmatch]. rewrite rmatch_lit. destruct (strip_prefix (js w) s) as [t|] eqn:E; [|done].
  apply strip_prefix_Some in E as ->. cbn [m_rest m_pre m_caps]. by rewrite take_run.
Qed.

Lemma rmatch_backref i w k pre t cs :
  cap i cs = Some w →
  rmatch (RBackref i) k (MState pre (w ++ t) cs) = k (MState (rev w ++ pre) t cs).
Proof. intros Hw. cbn [rmatch m_caps m_rest]. rewrite Hw. simpl. by rewrite strip_prefix_app. Qed.

Lemma rmatch_eol_nil k pre cs : rmatch REol k (MState pre [] cs) = k (MState pre [] cs).
Proof. done. Qed.

Lemma rmatch_eol_cons k pre c s cs : rmatch REol k (MState pre (c :: s) cs) = None.
Proof. done. Qed.

Lemma or_else_r (o : option R) : or_else o None = o.
Proof. by destruct o. Qed.
End equations.
