(* ===== verification/JsExec.v ===== *)
(** * Repeated matching

    What a pattern with the [g] flag is used for in the sources: [re.exec] in
    a loop, [s.replace], and [s.split] with a pattern; and lemmas that follow
    one successful match through a printed text, with what cannot match there
    on the way. *)

From Stdlib Require Import String.
From S2P Require Export JsRegex.

(** ** Operations *)

(** The captures of every match of [while ((m = re.exec(s)) !== null)]; the
    patterns of the sources match no empty text, so every round consumes. *)
Fixpoint exec_loop (fuel : nat) (r : re) (pre s : jstr) : list caps :=
  match fuel with
  | O => []
  | S f =>
      match search r pre s with
      | None => []
      | Some (_, st) => m_caps st :: exec_loop f r (m_pre st) (m_rest st)
      end
  end.

Definition exec_all (r : re) (s : jstr) : list caps := exec_loop (S (length s)) r [] s.

(** [s.split(re)] of a pattern without captures: [cur] is the reversed text
    since the last separator. *)
Fixpoint split_loop (fuel : nat) (r : re) (pre cur s : jstr) : list jstr :=
  match fuel, s with
  | S f, c :: s' =>
      let next := split_loop f r (c :: pre) (c :: cur) s' in
      match rmatch r Some (MState pre s []) with
      | Some st =>
          if negb (nonempty cur) && (length (m_rest st) =? length s)%nat then next
          else rev cur :: split_loop f r (m_pre st) [] (m_rest st)
      | None => next
      end
  | _, _ => [rev cur]
  end.

Definition re_split (r : re) (s : jstr) : list jstr := split_loop (length s) r [] [] s.

(** [s.replace(re, w)] with the [g] flag, for a [w] without [$]. *)
Fixpoint replace_loop (fuel : nat) (r : re) (w pre s : jstr) : jstr :=
  match fuel with
  | O => s
  | S f =>
      match search r pre s with
      | None => s
      | Some (p, st) =>
          take (length p - length pre) s ++ w ++
          (if (length (m_rest st) =? length s)%nat then
             match s with [] => [] | c :: s' => c :: replace_loop f r w (c :: pre) s' end
           else replace_loop f r w (m_pre st) (m_rest st))
      end
  end.

Definition re_replace (r : re) (w s : jstr) : jstr := replace_loop (S (length s)) r w [] s.

(** [str.replace(re, f)] of a pattern without the [g] flag. *)
Definition replace_first (r : re) (f : caps → jstr) (s : jstr) : jstr :=
  match search r [] s with
  | Some (pre, st) => rev pre ++ f (m_caps st) ++ m_rest st
  | None => s
  end.

Example split_replace_examples :
  re_split (rstar is_ws ⋅ lit "&&" ⋅ rstar is_ws) (js "p < 5 && c >= 3&&len>1 ") = map js ["p < 5"; "c >= 3"; "len>1 "]%string
  ∧ re_replace (lit "<" ⋅ ropt (lit "=")) (js "<") (js "a <= b < c") = js "a < b < c"
  ∧ exec_all (RGroup 1 (rplus is_digit)) (js "a12b3") = [[(1%nat, js "12")]; [(1%nat, js "3")]].
Proof. split; [|split]; by_eval. Qed.

(** ** Following a match *)

(** [r] cannot match at a code unit of [P]. *)
Definition rejects (P : Z → bool) (r : re) : Prop :=
  ∀ R (k : mstate → option R) pre c s cs, P c = true → rmatch r k (MState pre (c :: s) cs) = None.

Lemma rejects_char P p : (∀ c, P c = true → p c = false) → rejects P (RChar p).
Proof. intros H R k pre c s cs Hc. cbn [rmatch m_rest]. by rewrite (H c Hc). Qed.

Lemma rejects_seq P a b : rejects P a → rejects P (a ⋅ b).
Proof. intros H R k pre c s cs Hc. cbn [rmatch]. by apply H. Qed.

Lemma rejects_alt P a b : rejects P a → rejects P b → rejects P (a ⊕ b).
Proof. intros Ha Hb R k pre c s cs Hc. cbn [rmatch]. by rewrite Ha, Hb. Qed.

Lemma rejects_opt P a b : rejects P a → rejects P b → rejects P (ropt a ⋅ b).
Proof. intros Ha Hb R k pre c s cs Hc. cbn [rmatch ropt]. by rewrite Ha, Hb. Qed.

Lemma rejects_group P i a : rejects P a → rejects P (RGroup i a).
Proof. intros H R k pre c s cs Hc. cbn [rmatch]. by apply H. Qed.

Lemma rejects_plus P p : (∀ c, P c = true → p c = false) → rejects P (rplus p).
Proof. intros H. by apply rejects_seq, rejects_char. Qed.

Lemma rejects_lits P c w : P c = false → rejects P (rlits (c :: w)).
Proof.
  intros H. apply rejects_seq, rejects_char. intros d Hd. unfold is_chr. apply Z.eqb_neq. by intros ->; rewrite Hd in H.
Qed.

Lemma rejects_boundary P r : rejects P r → rejects P (RWordBoundary ⋅ r).
Proof. intros H R k pre c s cs Hc. cbn [rmatch]. case_match; [by apply H|done]. Qed.

Section follow.
Context {R : Type}.
Implicit Types k : mstate → option R.

Lemma follow_lits w r k pre s cs :
  rmatch (rlits w ⋅ r) k (MState pre (w ++ s) cs) = rmatch r k (MState (rev w ++ pre) s cs).
Proof. cbn [rmatch]. by rewrite rmatch_rlits, strip_prefix_app. Qed.

Lemma fail_lits w r k pre s cs : strip_prefix w s = None → rmatch (rlits w ⋅ r) k (MState pre s cs) = None.
Proof. intros H. cbn [rmatch]. by rewrite rmatch_rlits, H. Qed.

(** A class repeated, then a pattern that cannot start inside the class. *)
Lemma follow_star p r k pre u s cs :
  Forall (λ c, p c = true) u → (∀ c s', s = c :: s' → p c = false) → rejects p r →
  rmatch (rstar p ⋅ r) k (MState pre (u ++ s) cs) = rmatch r k (MState (rev u ++ pre) s cs).
Proof.
  intros Hu Hs Hr. rewrite rmatch_seq, rmatch_rstar. apply greedy_span_det; [done..|].
  intros pre' c s' Hc. by apply Hr.
Qed.

(** The same, at the end of a pattern. *)
Lemma follow_star_end p k pre u s cs x :
  Forall (λ c, p c = true) u → (∀ c s', s = c :: s' → p c = false) →
  k (MState (rev u ++ pre) s cs) = Some x → rmatch (rstar p) k (MState pre (u ++ s) cs) = Some x.
Proof.
  intros Hu Hs Hk. rewrite rmatch_rstar. apply greedy_span_longest; [done| |done].
  intros t1 t2 -> Hne Hp. destruct t1 as [|d t1]; [done|]. apply Forall_cons in Hp as [Hd _].
  by rewrite (Hs d (t1 ++ t2) eq_refl) in Hd.
Qed.

(** The longest run is taken whenever what follows matches. *)
Lemma follow_plus p k pre n s cs x :
  Forall (λ c, p c = true) n → n ≠ [] → (∀ c s', s = c :: s' → p c = false) →
  k (MState (rev n ++ pre) s cs) = Some x → rmatch (rplus p) k (MState pre (n ++ s) cs) = Some x.
Proof.
  intros Hn Hne Hs Hk. destruct n as [|c n]; [done|]. apply Forall_cons in Hn as [Hc Hn].
  unfold rplus. cbn [rmatch app m_rest m_pre m_caps]. rewrite Hc. fold (rstar p). rewrite rmatch_rstar.
  apply greedy_span_longest; [done| |].
  - intros t1 t2 -> Hne1 Hp. destruct t1 as [|d t1]; [done|]. apply Forall_cons in Hp as [Hd _].
    by rewrite (Hs d (t1 ++ t2) eq_refl) in Hd.
  - cbn [rev] in Hk. by rewrite <- app_assoc in Hk.
Qed.

Lemma follow_group_plus i p r k pre n s cs x :
  Forall (λ c, p c = true) n → n ≠ [] → (∀ c s', s = c :: s' → p c = false) →
  rmatch r k (MState (rev n ++ pre) s (cap_add i n cs)) = Some x →
  rmatch (RGroup i (rplus p) ⋅ r) k (MState pre (n ++ s) cs) = Some x.
Proof.
  intros Hn Hne Hs Hk. rewrite rmatch_seq. apply rmatch_group_plus_longest; [done|done| |done].
  intros pre' cs' t1 t2 -> Hne1 Hp. destruct t1 as [|d t1]; [done|]. apply Forall_cons in Hp as [Hd _].
  by rewrite (Hs d (t1 ++ t2) eq_refl) in Hd.
Qed.

(** A captured repetition of a class that what follows cannot start in. *)
Lemma follow_group_star i p r k pre u s cs :
  Forall (λ c, p c = true) u → (∀ c s', s = c :: s' → p c = false) → rejects p r →
  rmatch (RGroup i (rstar p) ⋅ r) k (MState pre (u ++ s) cs) = rmatch r k (MState (rev u ++ pre) s (cap_add i u cs)).
Proof.
  intros Hu Hs Hr. rewrite rmatch_seq. cbn [rmatch]. fold (rstar p). rewrite rmatch_rstar, greedy_span_det; [|done..|].
  - cbn [m_rest m_pre m_caps]. by rewrite take_run.
  - intros pre' c s' Hc. cbn. by apply Hr.
Qed.

(** A group whose pattern is followed by [k]. *)
Lemma follow_group i a k pre w s cs x :
  (∀ k', k' (MState (rev w ++ pre) s cs) = Some x → rmatch a k' (MState pre (w ++ s) cs) = Some x) →
  k (MState (rev w ++ pre) s (cap_add i w cs)) = Some x →
  rmatch (RGroup i a) k (MState pre (w ++ s) cs) = Some x.
Proof. intros Ha Hk. cbn [rmatch]. apply Ha. cbn [m_pre m_rest m_caps]. by rewrite take_run. Qed.

Lemma follow_opt a r k st x : rmatch (a ⋅ r) k st = Some x → rmatch (ropt a ⋅ r) k st = Some x.
Proof. intros H. cbn [rmatch ropt] in *. by rewrite H. Qed.

Lemma skip_opt a r k st :
  rmatch a (rmatch r k) st = None → rmatch (ropt a ⋅ r) k st = rmatch r k st.
Proof. intros H. cbn [rmatch ropt]. by rewrite H. Qed.
End follow.

(** ** Searching *)

(** What a pattern rejects is skipped. *)
Lemma search_skip P r pre u s :
  rejects P r → Forall (λ c, P c = true) u → search r pre (u ++ s) = search r (rev u ++ pre) s.
Proof.
  intros Hr Hu. revert pre. induction Hu as [|c u Hc Hu IH]; intros pre; [done|].
  cbn [app search]. rewrite Hr by done. rewrite IH. cbn [rev]. by rewrite <- app_assoc.
Qed.

Lemma search_here r pre s st : rmatch r Some (MState pre s []) = Some st → search r pre s = Some (pre, st).
Proof. intros H. destruct s; cbn [search]; by rewrite H. Qed.

Lemma cap_add_eq i w cs : cap i (cap_add i w cs) = Some w.
Proof. cbn. by rewrite Nat.eqb_refl. Qed.

Lemma cap_drop i gs cs : existsb (Nat.eqb i) gs = false → cap i (drop_caps gs cs) = cap i cs.
Proof.
  intros H. unfold drop_caps. induction cs as [|[j w] cs IH]; [done|]. cbn [List.filter fst].
  destruct (existsb (Nat.eqb j) gs) eqn:Ej; cbn [negb cap]; rewrite IH; [|done].
  destruct (Nat.eqb_spec i j) as [->|]; [by rewrite H in Ej|done].
Qed.

Lemma cap_add_ne i j w cs : i ≠ j → cap i (cap_add j w cs) = cap i cs.
Proof.
  intros H. cbn [cap cap_add]. rewrite (proj2 (Nat.eqb_neq i j)) by done. apply cap_drop. cbn.
  by rewrite (proj2 (Nat.eqb_neq i j)).
Qed.
