(* ===== verification/JsNumber.v ===== *)
(** * JavaScript numbers

    A JavaScript number is an IEEE 754 binary64 value: the type [spec_float]
    of the Standard Library at precision 53 and exponent bound 1024. The file
    gives the conversions the sources rely on: the correctly rounded reading
    of a decimal literal ([Number(text)]), the shortest decimal that reads
    back ([String(x)]) and the integer tests. All of it is executable. *)

From Stdlib Require Import String.
From Stdlib Require Export SpecFloat.
From S2P Require Export JsString.

Abbreviation jsnum := spec_float.

Definition prec64 : Z := 53.
Definition emax64 : Z := 1024.

#[export] Instance spec_float_eq_dec : EqDecision spec_float.
Proof. solve_decision. Defined.

(** ** From integers and decimals *)

(** The binary64 value nearest to [(-1)^neg * m * 10^e], ties to even. *)
Definition num_of_decimal (neg : bool) (m : N) (e : Z) : jsnum :=
  match m with
  | N0 => S754_zero neg
  | Npos p =>
      if 0 <=? e
      then match Z.pos p * 10 ^ e with
           | Zpos q => binary_round prec64 emax64 neg q 0
           | _ => S754_zero neg
           end
      else let '(q, e', l) := SFdiv_core_binary prec64 emax64 (Zpos p) 0 (10 ^ (- e)) 0 in
           binary_round_aux prec64 emax64 neg q e' l
  end.

Definition num_of_Z (n : Z) : jsnum := num_of_decimal (n <? 0) (Z.abs_N n) 0.

Definition is_finite (x : jsnum) : bool :=
  match x with S754_zero _ | S754_finite _ _ _ => true | _ => false end.

(** The integer a number denotes, when it denotes one. *)
Definition num_integer (x : jsnum) : option Z :=
  match x with
  | S754_zero _ => Some 0
  | S754_finite s m e =>
      let sg := if s then -1 else 1 in
      if 0 <=? e then Some (sg * (Z.pos m * 2 ^ e))
      else if Z.pos m mod 2 ^ (- e) =? 0 then Some (sg * (Z.pos m / 2 ^ (- e)))
      else None
  | _ => None
  end.

(** [Number.isInteger(x)] and [Number.isSafeInteger(x)] *)
Definition is_integer (x : jsnum) : bool :=
  match num_integer x with Some _ => true | None => false end.

Definition is_safe_integer (x : jsnum) : bool :=
  match num_integer x with Some n => Z.abs n <=? 2 ^ 53 - 1 | None => false end.

(** ** [Number(text)] *)

(** A run of digits at the front of the text, and what follows. *)
Fixpoint take_digits (s : jstr) : jstr * jstr :=
  match s with
  | c :: s' => if is_digit c then let '(d, r) := take_digits s' in (c :: d, r) else ([], s)
  | [] => ([], [])
  end.

Definition take_sign (s : jstr) : bool * jstr :=
  match s with
  | c :: s' => if c =? 45 then (true, s') else if c =? 43 then (false, s') else (false, s)
  | [] => (false, [])
  end.

(** The exponent part: absent, or [e] with a signed run of digits. *)
Definition take_exponent (s : jstr) : option (Z * jstr) :=
  match s with
  | c :: s' =>
      if (c =? 101) || (c =? 69) then
        let '(neg, s1) := take_sign s' in
        match take_digits s1 with
        | ([], _) => None
        | (ds, r) => Some ((if neg then - digits_value ds else digits_value ds), r)
        end
      else Some (0, s)
  | [] => Some (0, [])
  end.

(** An unsigned decimal literal: [123], [1.5], [.5], [5.], with an exponent. *)
Definition read_decimal (neg : bool) (s : jstr) : option (jsnum * jstr) :=
  let '(ip, r) := take_digits s in
  let '(fp, r') := match r with
                   | c :: r1 => if c =? 46 then take_digits r1 else ([], r)
                   | [] => ([], [])
                   end in
  if nonempty (ip ++ fp) then
    match take_exponent r' with
    | None => None
    | Some (e, r2) =>
        Some (num_of_decimal neg (Z.to_N (digits_value (ip ++ fp)))
                (e - Z.of_nat (length fp)), r2)
    end
  else None.

Definition hex_digit (c : Z) : option Z :=
  if is_digit c then Some (c - 48)
  else if (97 <=? c) && (c <=? 102) then Some (c - 87)
  else if (65 <=? c) && (c <=? 70) then Some (c - 55)
  else None.

(** [0x], [0o] and [0b] literals: all digits of the radix. *)
Fixpoint radix_value (radix acc : Z) (s : jstr) : option Z :=
  match s with
  | [] => Some acc
  | c :: s' =>
      match hex_digit c with
      | Some d => if d <? radix then radix_value radix (acc * radix + d) s' else None
      | None => None
      end
  end.

Definition radix_literal (s : jstr) : option jsnum :=
  match s with
  | c0 :: c :: _ :: _ =>
      if c0 =? 48 then
        let go radix := num_of_Z <$> radix_value radix 0 (drop 2 s) in
        if (c =? 120) || (c =? 88) then go 16
        else if (c =? 111) || (c =? 79) then go 8
        else if (c =? 98) || (c =? 66) then go 2
        else None
      else None
  | _ => None
  end.

(** [Number(text)]: [NaN] where the text is no numeric literal. *)
Definition number_of_string (text : jstr) : jsnum :=
  let s := trim text in
  match s with
  | [] => S754_zero false
  | _ =>
      match radix_literal s with
      | Some x => x
      | None =>
          let '(neg, r) := take_sign s in
          if bool_decide (r = js "Infinity") then S754_infinity neg
          else match read_decimal neg r with
               | Some (x, []) => x
               | _ => S754_nan
               end
      end
  end.

(** ** [String(x)] *)

Definition digits_of (n : Z) : jstr := string_of_Z n.

(** [n] with [10^(n-1) <= num/den < 10^n], for [0 < num], [0 < den]. *)
Definition decimal_scale (num den : Z) : Z :=
  let n0 := Z.of_nat (length (digits_of num)) - Z.of_nat (length (digits_of den)) in
  let below n := if 0 <=? n then num <? den * 10 ^ n else num * 10 ^ (- n) <? den in
  if below n0 then n0 else n0 + 1.

(** The shortest digit string of at most [17] digits that reads back as [x];
    of two such, the nearer one. *)
Fixpoint shortest_digits (fuel : nat) (k : Z) (x : jsnum) (num den n : Z) : Z * Z :=
  let scaled := if 0 <=? k - n then num * 10 ^ (k - n) else num in
  let divisor := if 0 <=? k - n then den else den * 10 ^ (n - k) in
  let lo := scaled / divisor in
  let near := if 2 * (scaled mod divisor) <=? divisor then (lo, lo + 1) else (lo + 1, lo) in
  let reads s := bool_decide (num_of_decimal false (Z.to_N s) (n - k) = x) in
  match fuel with
  | O => (near.1, k)
  | S f =>
      if reads near.1 then (near.1, k)
      else if reads near.2 then (near.2, k)
      else shortest_digits f (k + 1) x num den n
  end.

Definition zeros (n : Z) : jstr := replicate (Z.to_nat n) 48.

(** The layout of [k] digits [ds] with the decimal point after [n] of them. *)
Definition layout (ds : jstr) (n : Z) : jstr :=
  let k := Z.of_nat (length ds) in
  if (k <=? n) && (n <=? 21) then ds ++ zeros (n - k)
  else if (0 <? n) && (n <=? 21) then take (Z.to_nat n) ds ++ js "." ++ drop (Z.to_nat n) ds
  else if (-6 <? n) && (n <=? 0) then js "0." ++ zeros (- n) ++ ds
  else
    let e := n - 1 in
    let es := (if e <? 0 then js "e-" else js "e+") ++ digits_of (Z.abs e) in
    match ds with
    | [d] => d :: es
    | d :: ds' => d :: js "." ++ ds' ++ es
    | [] => es
    end.

Definition string_of_number (x : jsnum) : jstr :=
  match x with
  | S754_nan => js "NaN"
  | S754_zero _ => js "0"
  | S754_infinity s => if s then js "-Infinity" else js "Infinity"
  | S754_finite s m e =>
      let num := if 0 <=? e then Z.pos m * 2 ^ e else Z.pos m in
      let den := if 0 <=? e then 1 else 2 ^ (- e) in
      let n := decimal_scale num den in
      let '(sd, k) := shortest_digits 16 1 (S754_finite false m e) num den n in
      (* [sd = 10^k] carries into the next power of ten *)
      let n' := if 10 ^ k <=? sd then n + 1 else n in
      let ds := digits_of (if 10 ^ k <=? sd then sd / 10 else sd) in
      (if s then js "-" else []) ++ layout ds n'
  end.

(** ** Comparisons *)

(** [x < y], [x <= y], [x === y] on numbers *)
Definition num_lt (x y : jsnum) : bool := SFltb x y.
Definition num_le (x y : jsnum) : bool := SFleb x y.
Definition num_eq (x y : jsnum) : bool := SFeqb x y.

(** ** Evaluations against the language's own *)

Example read_print_examples :
  map (λ t, string_of_number (number_of_string (js t)))
    ["0.1"; "1e21"; "123456789012345680000"; "5e-324"; "1.7976931348623157e308";
     " 0x1F "; "-0.000001"; "1e-7"; "100"; "abc"; ""; "-Infinity"; "0.30000000000000004";
     "9007199254740993"; "1e400"]%string
  = map js
    ["0.1"; "1e+21"; "123456789012345680000"; "5e-324"; "1.7976931348623157e+308";
     "31"; "-0.000001"; "1e-7"; "100"; "NaN"; "0"; "-Infinity"; "0.30000000000000004";
     "9007199254740992"; "Infinity"]%string.
Proof. by_eval. Qed.
