(* ===== verification/JsMap.v ===== *)
(** * The JavaScript [Map]

    A [Map] is the list of its entries in insertion order: [set] on a present
    key keeps its place, [keys().next()] is the oldest entry. *)

From S2P Require Import Prelude.

Section js_map.
Context {K V : Type} `{!EqDecision K}.
Implicit Types (m : list (K * V)).

Fixpoint map_get m (key : K) : option V :=
  match m with
  | [] => None
  | (k, v) :: m' => if decide (k = key) then Some v else map_get m' key
  end.

Definition map_has m (key : K) : bool :=
  match map_get m key with Some _ => true | None => false end.

Fixpoint map_set m (key : K) (v : V) : list (K * V) :=
  match m with
  | [] => [(key, v)]
  | (k, w) :: m' => if decide (k = key) then (k, v) :: m' else (k, w) :: map_set m' key v
  end.

Definition map_delete m (key : K) : list (K * V) :=
  filterb (λ e, negb (bool_decide (e.1 = key))) m.

(** [m.keys().next().value] *)
Definition map_oldest m : option K := fst <$> head m.

(** [m.delete(m.keys().next().value)] where there is an entry *)
Definition evict_oldest m : list (K * V) :=
  match map_oldest m with Some k => map_delete m k | None => m end.

Definition well_keyed m : Prop := NoDup (map fst m).

Lemma map_get_None m key : map_get m key = None ↔ key ∉ map fst m.
Proof.
  induction m as [|[k v] m IH]; simpl; [set_solver|].
  case_decide; subst; [set_solver|]. rewrite IH. set_solver.
Qed.

Lemma map_get_Some_elem m key v : map_get m key = Some v → (key, v) ∈ m.
Proof.
  induction m as [|[k w] m IH]; simpl; [done|]. case_decide; subst.
  - intros [= ->]. by left.
  - intros Hg. right. auto.
Qed.

Lemma map_get_elem m key v : well_keyed m → (key, v) ∈ m → map_get m key = Some v.
Proof.
  unfold well_keyed. induction m as [|[k w] m IH]; simpl; intros Hnd Hin; [set_solver|].
  apply NoDup_cons in Hnd as [Hn Hnd]. apply elem_of_cons in Hin as [[= <- <-]|Hin].
  - by rewrite decide_True.
  - rewrite decide_False; [auto|]. intros ->. apply Hn. apply list_elem_of_fmap.
    by exists (key, v).
Qed.

Lemma map_set_keys m key v : map fst (map_set m key v) = set_add (map fst m) key.
Proof.
  unfold set_add. induction m as [|[k w] m IH]; cbn [map map_set fst]; [done|].
  - destruct (decide (k = key)) as [->|Hk]; cbn [map fst].
    + by rewrite decide_True by by left.
    + rewrite IH. destruct (decide (key ∈ map fst m)) as [Hin|Hn].
      * by rewrite decide_True by by right.
      * rewrite decide_False; [done|]. by intros [->|?]%elem_of_cons.
Qed.

Lemma map_set_well_keyed m key v : well_keyed m → well_keyed (map_set m key v).
Proof. unfold well_keyed. rewrite map_set_keys. apply NoDup_set_add. Qed.

Lemma map_get_set_eq m key v : map_get (map_set m key v) key = Some v.
Proof.
  induction m as [|[k w] m IH]; simpl; [by rewrite decide_True|].
  case_decide; simpl; [by rewrite decide_True|by rewrite decide_False].
Qed.

Lemma map_get_set_ne m key key' v : key ≠ key' → map_get (map_set m key v) key' = map_get m key'.
Proof.
  intros Hne. induction m as [|[k w] m IH]; simpl; [by rewrite decide_False|].
  case_decide; subst; simpl; [by rewrite !decide_False|]. by rewrite IH.
Qed.

Lemma map_get_set m key key' v :
  map_get (map_set m key v) key' = if decide (key = key') then Some v else map_get m key'.
Proof. case_decide; subst; [apply map_get_set_eq|by apply map_get_set_ne]. Qed.

Lemma map_get_delete_eq m key : map_get (map_delete m key) key = None.
Proof.
  apply map_get_None. intros ([k v] & -> & [_ H]%elem_of_filterb)%list_elem_of_fmap.
  simpl in H. by rewrite bool_decide_eq_true_2 in H.
Qed.

Lemma map_get_delete_ne m key key' : key ≠ key' → map_get (map_delete m key) key' = map_get m key'.
Proof.
  intros Hne. induction m as [|[k v] m IH]; simpl; [done|].
  destruct (decide (k = key)) as [->|Hk].
  - rewrite bool_decide_eq_true_2 by done. simpl. by rewrite decide_False.
  - rewrite bool_decide_eq_false_2 by done. simpl. case_decide; [done|apply IH].
Qed.

Lemma map_get_delete m key key' :
  map_get (map_delete m key) key' = if decide (key = key') then None else map_get m key'.
Proof. case_decide; subst; [apply map_get_delete_eq|by apply map_get_delete_ne]. Qed.

Lemma map_get_delete_Some m key key' v :
  map_get (map_delete m key) key' = Some v → map_get m key' = Some v.
Proof.
  destruct (decide (key = key')) as [->|Hne]; [by rewrite map_get_delete_eq|].
  by rewrite map_get_delete_ne.
Qed.

Lemma map_delete_well_keyed m key : well_keyed m → well_keyed (map_delete m key).
Proof.
  unfold well_keyed, map_delete. induction m as [|[k v] m IH]; simpl; [done|].
  intros [Hn Hnd]%NoDup_cons. destruct (bool_decide (k = key)); simpl; [auto|].
  apply NoDup_cons. split; [|auto]. intros Hin. apply Hn.
  apply list_elem_of_fmap in Hin as (e & -> & [He _]%elem_of_filterb).
  apply list_elem_of_fmap. eauto.
Qed.

Lemma evict_oldest_well_keyed m : well_keyed m → well_keyed (evict_oldest m).
Proof. unfold evict_oldest. case_match; [apply map_delete_well_keyed|done]. Qed.

Lemma map_get_evict_Some m key v : map_get (evict_oldest m) key = Some v → map_get m key = Some v.
Proof. unfold evict_oldest. case_match; [apply map_get_delete_Some|done]. Qed.

(** Evicting removes the first entry and no other. *)
Lemma evict_oldest_tail m : well_keyed m → evict_oldest m = tail m.
Proof.
  unfold evict_oldest, map_oldest, well_keyed, map_delete. destruct m as [|[k v] m]; [done|].
  cbn. rewrite bool_decide_eq_true_2 by done. cbn. intros [Hn _]%NoDup_cons.
  apply filterb_id, Forall_forall. intros e He. apply negb_true_iff, bool_decide_eq_false.
  intros <-. apply Hn, list_elem_of_fmap. eauto.
Qed.

Lemma map_set_fresh m key v : key ∉ map fst m → map_set m key v = m ++ [(key, v)].
Proof.
  induction m as [|[k w] m IH]; cbn [map fst map_set app]; [done|]. intros Hn.
  rewrite decide_False by (intros ->; apply Hn; by left). f_equal. apply IH. intros Hin.
  apply Hn. by right.
Qed.

Lemma map_set_length m key v : (length (map_set m key v) ≤ S (length m))%nat.
Proof. induction m as [|[k w] m IH]; simpl; [lia|]. case_decide; simpl; lia. Qed.

Lemma map_set_length_present m key v w :
  map_get m key = Some w → length (map_set m key v) = length m.
Proof.
  induction m as [|[k u] m IH]; simpl; [done|]. case_decide; simpl; [done|].
  intros Hg. by rewrite IH.
Qed.

Lemma evict_oldest_length m : well_keyed m → length (evict_oldest m) = (length m - 1)%nat.
Proof. intros H. rewrite evict_oldest_tail by done. destruct m; simpl; lia. Qed.
End js_map.

#[export] Hint Resolve map_set_well_keyed map_delete_well_keyed evict_oldest_well_keyed : starnexus.
#[export] Hint Rewrite @map_get_set_eq : starnexus_rw.
