(* ===== verification/JsJson.v ===== *)
(** * JSON values, [JSON.parse] and [JSON.stringify]

    The sources keep configuration as JSON text. A parsed value is a term of
    [json]; an object is its list of own properties in insertion order, and
    [own_entries] enumerates them as the language does (integer keys in
    ascending order first). The parser is [JSON.parse] on the grammar of
    RFC 8259; [json_quote] is [JSON.stringify] of a string. The main result is
    that parsing a quoted string gives the string back. *)

From Stdlib Require Import String.
From S2P Require Export JsNumber JsMap.

Inductive json : Type :=
| JNull
| JBool (b : bool)
| JNum (x : jsnum)
| JStr (s : jstr)
| JArr (l : list json)
| JObj (o : list (jstr * json)).

(** ** Objects *)

(** An object is the [Map] of its own properties. *)
Abbreviation obj_get := map_get.
Abbreviation obj_set := map_set.
Abbreviation obj_delete := map_delete.

(** An array-index key: the canonical decimal form of an integer below [2^32 - 1]. *)
Definition index_key (k : jstr) : option Z :=
  if all_digits k then
    let n := digits_value k in
    if (n <? 2 ^ 32 - 1) && bool_decide (string_of_Z n = k) then Some n else None
  else None.

Definition is_index_key (k : jstr) : bool :=
  match index_key k with Some _ => true | None => false end.

Definition index_key_le {V} (a b : jstr * V) : bool :=
  default 0 (index_key a.1) <=? default 0 (index_key b.1).

(** [Object.entries(o)], [Object.keys(o)], [Object.values(o)] *)
Definition own_entries {V} (o : list (jstr * V)) : list (jstr * V) :=
  stable_sort index_key_le (filterb (λ e, is_index_key e.1) o)
  ++ filterb (λ e, negb (is_index_key e.1)) o.

Definition own_keys {V} (o : list (jstr * V)) : list jstr := map fst (own_entries o).
Definition own_values {V} (o : list (jstr * V)) : list V := map snd (own_entries o).

Lemma own_entries_Permutation {V} (o : list (jstr * V)) : own_entries o ≡ₚ o.
Proof.
  unfold own_entries. rewrite stable_sort_Permutation.
  induction o as [|e o IH]; simpl; [done|]. destruct (is_index_key e.1); simpl.
  - by rewrite IH.
  - by rewrite <- Permutation_middle, IH.
Qed.

Lemma elem_of_own_entries {V} (o : list (jstr * V)) e : e ∈ own_entries o ↔ e ∈ o.
Proof. by rewrite own_entries_Permutation. Qed.

Lemma own_keys_Permutation {V} (o : list (jstr * V)) : own_keys o ≡ₚ map fst o.
Proof. unfold own_keys. by rewrite own_entries_Permutation. Qed.

(** ** [JSON.stringify] of a string *)

Definition hex_char (d : Z) : Z := if d <? 10 then 48 + d else 87 + d.

(** [\uXXXX], lower-case hexadecimal *)
Definition u_escape (c : Z) : jstr :=
  [92; 117; hex_char (c / 4096); hex_char (c / 256 mod 16);
   hex_char (c / 16 mod 16); hex_char (c mod 16)].

Definition is_high (c : Z) : bool := (55296 <=? c) && (c <=? 56319).
Definition is_low (c : Z) : bool := (56320 <=? c) && (c <=? 57343).

Definition escape_unit (c : Z) : jstr :=
  if c =? 8 then [92; 98]
  else if c =? 9 then [92; 116]
  else if c =? 10 then [92; 110]
  else if c =? 12 then [92; 102]
  else if c =? 13 then [92; 114]
  else if c =? 34 then [92; 34]
  else if c =? 92 then [92; 92]
  else if c <? 32 then u_escape c
  else [c].

(** A surrogate pair is kept, a lone surrogate is escaped. *)
Fixpoint escape (s : jstr) : jstr :=
  match s with
  | [] => []
  | c :: s' =>
      if is_high c then
        match s' with
        | d :: s'' => if is_low d then c :: d :: escape s'' else u_escape c ++ escape s'
        | [] => u_escape c
        end
      else if is_low c then u_escape c ++ escape s'
      else escape_unit c ++ escape s'
  end.

Definition json_quote (s : jstr) : jstr := c_quote :: escape s ++ [c_quote].

(** ** [JSON.parse] *)

Definition is_json_ws (c : Z) : bool := (c =? 32) || (c =? 9) || (c =? 10) || (c =? 13).
Definition skip_ws (s : jstr) : jstr := drop_while is_json_ws s.

Definition simple_escape (c : Z) : option Z :=
  if (c =? 34) || (c =? 92) || (c =? 47) then Some c
  else if c =? 98 then Some 8
  else if c =? 102 then Some 12
  else if c =? 110 then Some 10
  else if c =? 114 then Some 13
  else if c =? 116 then Some 9
  else None.

Definition cons_unit (c : Z) (r : option (jstr * jstr)) : option (jstr * jstr) :=
  match r with Some (s, rest) => Some (c :: s, rest) | None => None end.

Definition hex4 (a b c d : Z) : option Z :=
  match hex_digit a, hex_digit b, hex_digit c, hex_digit d with
  | Some a, Some b, Some c, Some d => Some (a * 4096 + b * 256 + c * 16 + d)
  | _, _, _, _ => None
  end.

(** The rest of a string literal, after its opening quote. *)
Fixpoint parse_string (s : jstr) : option (jstr * jstr) :=
  match s with
  | [] => None
  | c :: r =>
      if c =? c_quote then Some ([], r)
      else if c =? c_backslash then
        match r with
        | [] => None
        | e :: r1 =>
            if e =? 117 then
              match r1 with
              | h1 :: h2 :: h3 :: h4 :: r5 =>
                  match hex4 h1 h2 h3 h4 with
                  | Some v => cons_unit v (parse_string r5)
                  | None => None
                  end
              | _ => None
              end
            else match simple_escape e with
                 | Some d => cons_unit d (parse_string r1)
                 | None => None
                 end
        end
      else if c <? 32 then None
      else cons_unit c (parse_string r)
  end.

(** A JSON number: no leading zeros, digits on both sides of the point. *)
Definition parse_number (s : jstr) : option (jsnum * jstr) :=
  let '(neg, s1) := match s with c :: r => if c =? 45 then (true, r) else (false, s)
                    | [] => (false, s) end in
  let '(ip, r) := take_digits s1 in
  let ok_int := match ip with
                | [] => false
                | d :: (_ :: _) => negb (d =? 48)
                | _ => true
                end in
  if ok_int then
    let bad_frac := match r with
                    | c :: r1 => (c =? 46) && negb (nonempty (take_digits r1).1)
                    | [] => false
                    end in
    if bad_frac then None else read_decimal neg s1
  else None.

Fixpoint parse_value (fuel : nat) (s : jstr) {struct fuel} : option (json * jstr) :=
  match fuel with
  | O => None
  | S f =>
      match skip_ws s with
      | [] => None
      | c :: r =>
          if c =? c_quote then
            match parse_string r with Some (w, r') => Some (JStr w, r') | None => None end
          else if c =? 123 then
            match skip_ws r with
            | d :: r' => if d =? 125 then Some (JObj [], r') else parse_members f [] r
            | [] => None
            end
          else if c =? 91 then
            match skip_ws r with
            | d :: r' => if d =? 93 then Some (JArr [], r') else parse_elements f [] r
            | [] => None
            end
          else match strip_prefix (js "true") (c :: r), strip_prefix (js "false") (c :: r),
                     strip_prefix (js "null") (c :: r) with
               | Some r', _, _ => Some (JBool true, r')
               | _, Some r', _ => Some (JBool false, r')
               | _, _, Some r' => Some (JNull, r')
               | _, _, _ =>
                   match parse_number (c :: r) with
                   | Some (x, r') => Some (JNum x, r')
                   | None => None
                   end
               end
      end
  end
with parse_members (fuel : nat) (acc : list (jstr * json)) (s : jstr) {struct fuel}
    : option (json * jstr) :=
  match fuel with
  | O => None
  | S f =>
      match skip_ws s with
      | q :: r =>
          if q =? c_quote then
            match parse_string r with
            | Some (k, r1) =>
                match skip_ws r1 with
                | colon :: r2 =>
                    if colon =? 58 then
                      match parse_value f r2 with
                      | Some (v, r3) =>
                          let acc' := obj_set acc k v in
                          match skip_ws r3 with
                          | d :: r4 =>
                              if d =? c_comma then parse_members f acc' r4
                              else if d =? 125 then Some (JObj acc', r4) else None
                          | [] => None
                          end
                      | None => None
                      end
                    else None
                | [] => None
                end
            | None => None
            end
          else None
      | [] => None
      end
  end
with parse_elements (fuel : nat) (acc : list json) (s : jstr) {struct fuel}
    : option (json * jstr) :=
  match fuel with
  | O => None
  | S f =>
      match parse_value f s with
      | Some (v, r) =>
          match skip_ws r with
          | d :: r1 =>
              if d =? c_comma then parse_elements f (acc ++ [v]) r1
              else if d =? 93 then Some (JArr (acc ++ [v]), r1) else None
          | [] => None
          end
      | None => None
      end
  end.

(** [JSON.parse(text)]; [None] is the thrown [SyntaxError]. Every recursive
    call follows the consumption of a code unit, so the fuel is enough. *)
Definition json_parse (text : jstr) : option json :=
  match parse_value (S (2 * length text)) text with
  | Some (v, r) => if nonempty (skip_ws r) then None else Some v
  | None => None
  end.

(** ** [String(value)], [Boolean(value)] *)

Definition join_opt (sep : jstr) (l : list jstr) : jstr := join sep l.

(** Array elements print as their [join(',')], with [null] as the empty string. *)
Fixpoint string_of_json (v : json) : jstr :=
  match v with
  | JNull => js "null"
  | JBool b => if b then js "true" else js "false"
  | JNum x => string_of_number x
  | JStr s => s
  | JArr l =>
      join (js ",")
        (map (λ v, match v with JNull => [] | _ => string_of_json v end) l)
  | JObj _ => js "[object Object]"
  end.

Definition truthy (v : json) : bool :=
  match v with
  | JNull => false
  | JBool b => b
  | JNum x => match x with S754_zero _ | S754_nan => false | _ => true end
  | JStr s => nonempty s
  | JArr _ | JObj _ => true
  end.

(** A parsed value that is an object and no array, as the sources test it. *)
Definition as_object (v : json) : option (list (jstr * json)) :=
  match v with JObj o => Some o | _ => None end.

(** ** Reading a quoted string back *)

Definition code_unit (c : Z) : Prop := 0 ≤ c < 65536.

Lemma hex_digit_char d : 0 ≤ d < 16 → hex_digit (hex_char d) = Some d.
Proof.
  intros Hd. unfold hex_char, hex_digit, is_digit.
  destruct (Z.ltb_spec d 10).
  - rewrite !(proj2 (Z.leb_le _ _)) by lia. simpl. f_equal; lia.
  - rewrite (proj2 (Z.leb_le 48 _)), (proj2 (Z.leb_gt _ 57)) by lia. simpl.
    rewrite !(proj2 (Z.leb_le _ _)) by lia. simpl. f_equal; lia.
Qed.

Lemma hex4_u_escape c :
  code_unit c →
  hex4 (hex_char (c / 4096)) (hex_char (c / 256 mod 16))
       (hex_char (c / 16 mod 16)) (hex_char (c mod 16)) = Some c.
Proof.
  intros [H0 H1]. unfold hex4.
  do 4 rewrite hex_digit_char by (first [apply Z.mod_pos_bound; lia
    |split; [apply Z.div_pos; lia|apply Z.div_lt_upper_bound; lia]]).
  f_equal.
  pose proof (Z.div_mod c 16 ltac:(lia)). pose proof (Z.div_mod (c / 16) 16 ltac:(lia)).
  pose proof (Z.div_mod (c / 256) 16 ltac:(lia)).
  assert (c / 16 / 16 = c / 256) by (rewrite Z.div_div; [done|lia..]).
  assert (c / 256 / 16 = c / 4096) by (rewrite Z.div_div; [done|lia..]).
  lia.
Qed.

Lemma parse_u_escape c t :
  code_unit c → parse_string (u_escape c ++ t) = cons_unit c (parse_string t).
Proof. intros Hc. simpl. by rewrite hex4_u_escape. Qed.

Lemma parse_plain_unit c t :
  c ≠ 34 → c ≠ 92 → 32 ≤ c → parse_string (c :: t) = cons_unit c (parse_string t).
Proof.
  intros Hq Hb Hc. cbn [parse_string]. unfold c_quote, c_backslash.
  by rewrite (proj2 (Z.eqb_neq c 34)), (proj2 (Z.eqb_neq c 92)), (proj2 (Z.ltb_ge c 32)).
Qed.

Lemma parse_escape_unit c t :
  code_unit c → parse_string (escape_unit c ++ t) = cons_unit c (parse_string t).
Proof.
  intros Hc. unfold escape_unit.
  repeat match goal with
  | |- context [if c =? ?n then _ else _] =>
      destruct (Z.eqb_spec c n) as [->|?]; [reflexivity|]
  end.
  destruct (Z.ltb_spec c 32); [by apply parse_u_escape|].
  by apply parse_plain_unit.
Qed.

Lemma parse_escape s t :
  Forall code_unit s → parse_string (escape s ++ c_quote :: t) = Some (s, t).
Proof.
  intros Hs. remember (length s) as n eqn:Hn.
  revert s Hs Hn; induction n as [n IH] using lt_wf_ind; intros s Hs Hn.
  destruct s as [|c s]; [done|]. inversion_clear Hs as [|? ? Hc Hs']. cbn [escape].
  assert (Htail : parse_string (escape s ++ c_quote :: t) = Some (s, t))
    by (eapply IH; [|done|reflexivity]; simpl in Hn; lia).
  destruct (is_high c) eqn:Hhi.
  - destruct s as [|d s].
    + by rewrite parse_u_escape.
    + destruct (is_low d) eqn:Hlo.
      * inversion_clear Hs' as [|? ? Hd Hs''].
        unfold is_high in Hhi. unfold is_low in Hlo. reflect_bools.
        change ((c :: d :: escape s) ++ c_quote :: t) with (c :: d :: (escape s ++ c_quote :: t)).
        rewrite !parse_plain_unit by lia.
        rewrite (IH (length s)); [done|simpl in Hn; lia|done|done].
      * rewrite <- app_assoc, parse_u_escape by done. by rewrite Htail.
  - destruct (is_low c); rewrite <- app_assoc.
    + rewrite parse_u_escape by done. by rewrite Htail.
    + rewrite parse_escape_unit by done. by rewrite Htail.
Qed.

(** [JSON.parse(JSON.stringify(s)) === s] for every string. *)
Lemma json_parse_nil : json_parse [] = None.
Proof. by_eval. Qed.

Lemma json_parse_quote s : Forall code_unit s → json_parse (json_quote s) = Some (JStr s).
Proof.
  intros Hs. unfold json_parse, json_quote. cbn [length parse_value].
  change (skip_ws (c_quote :: escape s ++ [c_quote])) with (c_quote :: escape s ++ [c_quote]).
  cbv beta iota. rewrite Z.eqb_refl, (parse_escape s []) by done. done.
Qed.

(** Text without quotes, backslashes, control characters or surrogates is
    quoted by putting it between quotes. *)
Definition plain_unit (c : Z) : bool :=
  (32 <=? c) && negb (c =? 34) && negb (c =? 92) && negb (is_high c) && negb (is_low c)
  && (c <? 65536).

Lemma plain_unit_code c : plain_unit c = true → code_unit c.
Proof. unfold plain_unit, code_unit. intros H; reflect_bools. lia. Qed.

Lemma escape_plain s : forallb plain_unit s = true → escape s = s.
Proof.
  induction s as [|c s IH]; simpl; [done|]. intros [Hc Hs]%andb_true_iff.
  rewrite IH by done. unfold plain_unit in Hc. reflect_bools.
  destruct (is_high c); [done|]. destruct (is_low c); [done|].
  unfold escape_unit.
  repeat match goal with
  | |- context [if c =? ?n then _ else _] =>
      rewrite (proj2 (Z.eqb_neq c n)) by lia
  end.
  by rewrite (proj2 (Z.ltb_ge c 32)).
Qed.

Lemma json_quote_plain s :
  forallb plain_unit s = true → json_quote s = c_quote :: s ++ [c_quote].
Proof. intros Hs. unfold json_quote. by rewrite escape_plain. Qed.

(** ** Evaluations *)

Example json_parse_examples :
  map (λ t, string_of_json <$> json_parse (js t))
    [" [1, 2.50, null, [true]] "; "{}"; "[1,]"; "01"; "1."; "tru"; " -0.5e1 "]%string
  = [Some (js "1,2.5,,true"); Some (js "[object Object]"); None; None; None; None; Some (js "-5")].
Proof. by_eval. Qed.
