(* ===== verification/JsonText.v ===== *)
(** * [JSON.stringify], and reading its text back

    The compact and the indented form in one printer: [json_print step d]
    prints at depth [d] with [step] blanks per level, on one line when [step]
    is 0. Reading the text of a value back gives the value, for values whose
    numbers print to text that reads back ([json_safe]). *)

From Stdlib Require Import String.
From S2P Require Import JsJson.

(** ** The printer *)

Definition line_break (step depth : nat) : jstr :=
  if (step =? 0)%nat then [] else c_nl :: replicate (depth * step) 32.

Definition colon (step : nat) : jstr := if (step =? 0)%nat then js ":" else js ": ".

Definition enclose (open close : Z) (step depth : nat) (items : list jstr) : jstr :=
  match items with
  | [] => [open; close]
  | _ => open :: line_break step (S depth)
         ++ join (c_comma :: line_break step (S depth)) items
         ++ line_break step depth ++ [close]
  end.

Definition print_number (x : jsnum) : jstr :=
  if is_finite x then string_of_number x else js "null".

(** Members are printed in the order of [Object.keys]. *)
Fixpoint json_print (step depth : nat) (v : json) : jstr :=
  match v with
  | JNull => js "null"
  | JBool b => if b then js "true" else js "false"
  | JNum x => print_number x
  | JStr s => json_quote s
  | JArr l => enclose 91 93 step depth (map (json_print step (S depth)) l)
  | JObj o =>
      enclose 123 125 step depth
        (map (λ e : jstr * jstr, json_quote e.1 ++ colon step ++ e.2)
           (own_entries (map (λ e : jstr * json, (e.1, json_print step (S depth) e.2)) o)))
  end.

(** [JSON.stringify(v)] and [JSON.stringify(v, null, 2)] *)
Definition json_stringify (v : json) : jstr := json_print 0 0 v.
Definition json_stringify_2 (v : json) : jstr := json_print 2 0 v.

(** ** The values whose text reads back *)

(** After a number: the end, or a unit that does not continue one. *)
Definition ends_number (r : jstr) : Prop :=
  ∀ c, head r = Some c → is_digit c = false ∧ c ≠ 46 ∧ c ≠ 101 ∧ c ≠ 69.

Definition number_start (s : jstr) : bool :=
  match s with c :: _ => is_digit c || (c =? 45) | [] => false end.

(** The number prints to a text that reads back as itself. *)
Definition number_safe (x : jsnum) : bool :=
  is_finite x && (number_start (string_of_number x) && forallb (λ c, negb (is_ws c)) (string_of_number x))
  && bool_decide (parse_number (string_of_number x) = Some (x, [])).

Inductive json_safe : json → Prop :=
| safe_null : json_safe JNull
| safe_bool b : json_safe (JBool b)
| safe_num x : number_safe x = true → json_safe (JNum x)
| safe_str s : Forall code_unit s → json_safe (JStr s)
| safe_arr l : Forall json_safe l → json_safe (JArr l)
| safe_obj o :
    NoDup (map fst o) → own_entries o = o →
    Forall (λ e, Forall code_unit e.1) o → Forall (λ e, json_safe e.2) o → json_safe (JObj o).

Section json_ind.
Context (P : json → Prop).
Hypothesis P_null : P JNull.
Hypothesis P_bool : ∀ b, P (JBool b).
Hypothesis P_num : ∀ x, P (JNum x).
Hypothesis P_str : ∀ s, P (JStr s).
Hypothesis P_arr : ∀ l, Forall P l → P (JArr l).
Hypothesis P_obj : ∀ o : list (jstr * json), Forall (λ e, P e.2) o → P (JObj o).

Fixpoint json_nested_ind (v : json) : P v :=
  match v with
  | JNull => P_null
  | JBool b => P_bool b
  | JNum x => P_num x
  | JStr s => P_str s
  | JArr l => P_arr l ((fix go l : Forall P l :=
      match l with [] => Forall_nil_2 _ | v :: l' => Forall_cons_2 _ _ _ (json_nested_ind v) (go l') end) l)
  | JObj o => P_obj o ((fix go (o : list (jstr * json)) : Forall (λ e, P e.2) o :=
      match o with [] => Forall_nil_2 _ | e :: o' => Forall_cons_2 _ _ _ (json_nested_ind e.2) (go o') end) o)
  end.
End json_ind.

(** ** Numbers *)

Lemma take_digits_app s r d t :
  take_digits s = (d, t) → (t = [] → ∀ c, head r = Some c → is_digit c = false) →
  take_digits (s ++ r) = (d, t ++ r).
Proof.
  revert d t; induction s as [|c s IH]; cbn [take_digits app]; intros d t.
  - intros [= <- <-] Hr. destruct r as [|c r]; [done|]. cbn. by rewrite (Hr eq_refl c eq_refl).
  - destruct (is_digit c) eqn:Ec.
    + destruct (take_digits s) as [d' t'] eqn:E. intros [= <- <-] Hr. by rewrite (IH d' t' eq_refl Hr).
    + by intros [= <- <-] _.
Qed.

Lemma take_digits_nil_rest s d t : take_digits s = (d, t) → s = d ++ t.
Proof.
  revert d t; induction s as [|c s IH]; cbn; intros d t; [by intros [= <- <-]|].
  destruct (is_digit c); [|by intros [= <- <-]].
  destruct (take_digits s) as [d' t']. intros [= <- <-]. cbn. f_equal. by apply IH.
Qed.

Lemma take_exponent_app s r e :
  take_exponent s = Some (e, []) → ends_number r → take_exponent (s ++ r) = Some (e, r).
Proof.
  intros H Hr. destruct s as [|c s]; cbn [take_exponent app] in *.
  - injection H as <-. destruct r as [|c r]; [done|]. cbn. destruct (Hr c eq_refl) as (_ & _ & H1 & H2).
    by rewrite (proj2 (Z.eqb_neq c 101)), (proj2 (Z.eqb_neq c 69)) by done.
  - destruct ((c =? 101) || (c =? 69)) eqn:Ec; [|by simplify_eq].
    assert (Hs : s ≠ []) by by intros ->.
    assert (Hsign : take_sign (s ++ r) = ((take_sign s).1, (take_sign s).2 ++ r)).
    { destruct s as [|c2 s2]; [done|]. cbn. by repeat case_match. }
    rewrite Hsign. destruct (take_sign s) as [neg s1]. cbn [fst snd].
    destruct (take_digits s1) as [d t] eqn:Ed.
    destruct d as [|d0 d]; [done|]. injection H as <- ->.
    rewrite (take_digits_app s1 r (d0 :: d) []) by (done || by (intros _ c' Hc'; apply Hr)). done.
Qed.

Lemma read_decimal_app neg s r x :
  read_decimal neg s = Some (x, []) → ends_number r → read_decimal neg (s ++ r) = Some (x, r).
Proof.
  unfold read_decimal. intros H Hr. destruct (take_digits s) as [ip t] eqn:E.
  assert (Hdig : ∀ c, head r = Some c → is_digit c = false) by (intros c Hc; by apply Hr).
  rewrite (take_digits_app s r ip t E) by done.
  destruct t as [|c t]; cbn [app].
  - destruct r as [|c r]; [done|].
    destruct (Hr c eq_refl) as (_ & Hdot & _ & _). rewrite (proj2 (Z.eqb_neq c 46)) by done.
    destruct (nonempty (ip ++ [])); [|done].
    destruct (take_exponent []) as [[e r2]|] eqn:Ee; [|done]. injection H as <- ->.
    pose proof (take_exponent_app [] (c :: r) e Ee Hr) as Hx. cbn [app] in Hx. by rewrite Hx.
  - destruct (c =? 46) eqn:Ec.
    + destruct (take_digits t) as [fp t2] eqn:E2. rewrite (take_digits_app t r fp t2 E2) by done.
      destruct (nonempty (ip ++ fp)); [|done].
      destruct (take_exponent t2) as [[e r2]|] eqn:Ee; [|done]. injection H as <- ->.
      by rewrite (take_exponent_app t2 r e Ee Hr).
    + destruct (nonempty (ip ++ [])); [|done].
      destruct (take_exponent (c :: t)) as [[e r2]|] eqn:Ee; [|done]. injection H as <- ->.
      pose proof (take_exponent_app (c :: t) r e Ee Hr) as Hx. cbn [app] in Hx. by rewrite Hx.
Qed.

Lemma parse_number_app s r x :
  parse_number s = Some (x, []) → ends_number r → parse_number (s ++ r) = Some (x, r).
Proof.
  unfold parse_number. intros H Hr.
  assert (Hsg : ∀ s, s ≠ [] → (match s ++ r with c :: u => if c =? 45 then (true, u) else (false, s ++ r)
                      | [] => (false, s ++ r) end) =
    let p := match s with c :: u => if c =? 45 then (true, u) else (false, s) | [] => (false, s) end in
    (p.1, p.2 ++ r)).
  { intros [|c u] Hu; [done|]. cbn. by destruct (c =? 45). }
  destruct (decide (s = [])) as [->|Hne]; [done|]. rewrite Hsg by done. cbn zeta.
  destruct (match s with c :: u => if c =? 45 then (true, u) else (false, s) | [] => (false, s) end)
    as [neg s1]. cbn [fst snd].
  destruct (take_digits s1) as [ip t] eqn:E.
  assert (Hdig : ∀ c, head r = Some c → is_digit c = false) by (intros c Hc; by apply Hr).
  rewrite (take_digits_app s1 r ip t E) by done.
  case_match; [|done].
  assert (Hfrac : match t ++ r with c :: r1 => (c =? 46) && negb (nonempty (take_digits r1).1) | [] => false end
                = match t with c :: r1 => (c =? 46) && negb (nonempty (take_digits r1).1) | [] => false end).
  { destruct t as [|c t]; cbn [app].
    - destruct r as [|c r]; [done|]. destruct (Hr c eq_refl) as (_ & Hdot & _). by rewrite (proj2 (Z.eqb_neq c 46)).
    - destruct (take_digits t) as [d u] eqn:E2. by rewrite (take_digits_app t r d u E2). }
  rewrite Hfrac. destruct (match t with c :: r1 => _ | [] => false end); [done|].
  by apply read_decimal_app.
Qed.

(** ** The order of the members *)

Lemma sort_insert_map {A B} (la : A → A → bool) (lb : B → B → bool) (g : A → B) x l :
  (∀ a b, lb (g a) (g b) = la a b) → sort_insert lb (g x) (map g l) = map g (sort_insert la x l).
Proof.
  intros Hg. induction l as [|y l IH]; cbn; [done|]. rewrite Hg. destruct (la x y); [done|].
  by rewrite IH.
Qed.

Lemma stable_sort_map {A B} (la : A → A → bool) (lb : B → B → bool) (g : A → B) l :
  (∀ a b, lb (g a) (g b) = la a b) → stable_sort lb (map g l) = map g (stable_sort la l).
Proof.
  intros Hg. induction l as [|x l IH]; [done|]. cbn [stable_sort foldr map].
  fold (stable_sort lb (map g l)). rewrite IH. by apply sort_insert_map.
Qed.

Lemma filterb_map {A B} (p : B → bool) (g : A → B) l :
  filterb p (map g l) = map g (filterb (λ x, p (g x)) l).
Proof. unfold filterb. induction l as [|x l IH]; cbn; [done|]. rewrite IH. by destruct (p (g x)). Qed.

Lemma own_entries_map {V W} (g : V → W) (o : list (jstr * V)) :
  own_entries (map (λ e, (e.1, g e.2)) o) = map (λ e, (e.1, g e.2)) (own_entries o).
Proof. unfold own_entries. rewrite !filterb_map, map_app. f_equal. by apply stable_sort_map. Qed.

(** ** Reading the text *)

Lemma is_json_ws_break step d : Forall (λ c, is_json_ws c = true) (line_break step d).
Proof.
  unfold line_break. case_match; [constructor|]. constructor; [done|].
  apply Forall_replicate. done.
Qed.

Lemma skip_ws_app u s : Forall (λ c, is_json_ws c = true) u → skip_ws (u ++ s) = skip_ws s.
Proof. unfold skip_ws. induction 1 as [|c u Hc _ IH]; [done|]. cbn. by rewrite Hc. Qed.

Lemma skip_break step d s : skip_ws (line_break step d ++ s) = skip_ws s.
Proof. apply skip_ws_app, is_json_ws_break. Qed.

Lemma skip_none c s : is_json_ws c = false → skip_ws (c :: s) = c :: s.
Proof. unfold skip_ws. cbn. by intros ->. Qed.

Lemma parse_value_break f step d s : parse_value f (line_break step d ++ s) = parse_value f s.
Proof. destruct f; [done|]. cbn [parse_value]. by rewrite skip_break. Qed.

Lemma ends_number_break step d c r :
  is_digit c = false → c ≠ 46 → c ≠ 101 → c ≠ 69 → ends_number (line_break step d ++ c :: r).
Proof.
  intros. unfold line_break. case_match; intros x; cbn; intros [= <-]; [done|]. by repeat split.
Qed.

(** The first unit of a value's text. *)
Lemma json_print_head step d v :
  json_safe v → ∃ c t, json_print step d v = c :: t ∧ is_json_ws c = false ∧ c ≠ 93 ∧ c ≠ 125.
Proof.
  intros Hv. destruct Hv as [|b|x Hx|s|l|o]; cbn [json_print].
  - eexists _, _. by split; [vm_compute|].
  - destruct b; eexists _, _; by split; [vm_compute|].
  - unfold number_safe in Hx. apply andb_true_iff in Hx as [[Hf [Hs _]%andb_true_iff]%andb_true_iff _].
    unfold print_number. rewrite Hf. destruct (string_of_number x) as [|c t]; [done|].
    cbn in Hs. exists c, t. split; [done|]. unfold is_digit, is_json_ws in *. lia.
  - by eexists _, _.
  - unfold enclose. case_match; by eexists _, _.
  - unfold enclose. case_match; by eexists _, _.
Qed.

Lemma enclose_edges open close step d l :
  is_ws open = false → is_ws close = false → no_edge_ws (enclose open close step d l).
Proof.
  intros Ho Hc. destruct l as [|x l].
  - by apply (no_edge_ws_app_between open [] close).
  - unfold enclose. rewrite !app_assoc. by apply no_edge_ws_app_between.
Qed.

Lemma json_quote_edges s : no_edge_ws (json_quote s).
Proof. by apply no_edge_ws_app_between. Qed.

(** The text of a value has no blanks at its ends. *)
Lemma json_print_edges step d v : json_safe v → no_edge_ws (json_print step d v).
Proof.
  intros Hv. destruct Hv as [|b|x Hx|s|l|o]; cbn [json_print].
  - by apply trim_fixed_iff; vm_compute.
  - destruct b; by apply trim_fixed_iff; vm_compute.
  - unfold number_safe in Hx. apply andb_true_iff in Hx as [[Hf [_ Hw]%andb_true_iff]%andb_true_iff _].
    unfold print_number. rewrite Hf. rewrite forallb_forall in Hw.
    assert (Hall : ∀ c, c ∈ string_of_number x → is_ws c = false).
    { intros c Hc%list_elem_of_In%Hw. by apply negb_true_iff. }
    split; intros c Hc; apply Hall; [by apply head_Some_elem_of|by apply last_Some_elem_of].
  - apply json_quote_edges.
  - by apply enclose_edges.
  - by apply enclose_edges.
Qed.

(** The fuel a value needs: its depth and its numbers of members. *)
Definition need_items (ns : list nat) : nat := foldr (λ n acc, S (Nat.max n acc)) 0%nat ns.

Fixpoint json_need (v : json) : nat :=
  match v with
  | JArr l => S (need_items (map json_need l))
  | JObj o => S (need_items (map (λ e : jstr * json, json_need e.2) o))
  | _ => 1%nat
  end.

Lemma join_cons sep a b l : join sep (a :: b :: l) = a ++ sep ++ join sep (b :: l).
Proof. done. Qed.

Section reading.
Context (step : nat).

Definition reads (v : json) : Prop :=
  ∀ d f r, (json_need v ≤ f)%nat → ends_number r → parse_value f (json_print step d v ++ r) = Some (v, r).

Lemma ends_number_item d c r : c = c_comma ∨ c = 93 ∨ c = 125 → ends_number (line_break step d ++ c :: r).
Proof. intros [->|[->| ->]]; by apply ends_number_break. Qed.

(** What follows an item: the next item, or the closing bracket. *)
Lemma parse_elements_text d l acc f r :
  l ≠ [] → Forall reads l → (need_items (map json_need l) ≤ f)%nat →
  parse_elements f acc (line_break step (S d)
    ++ join (c_comma :: line_break step (S d)) (map (json_print step (S d)) l)
    ++ line_break step d ++ 93 :: r) = Some (JArr (acc ++ l), r).
Proof.
  intros Hne Hl. revert acc f; induction Hl as [|v l Hv Hl IH]; intros acc f Hf; [done|].
  destruct f as [|f]; [cbn in Hf; lia|]. cbn [need_items map foldr] in Hf. fold (need_items (map json_need l)) in Hf.
  cbn [parse_elements]. rewrite parse_value_break.
  destruct l as [|v2 l]; cbn [map join].
  - rewrite Hv; [|lia|by apply ends_number_item; auto].
    rewrite skip_break. rewrite skip_none by done. done.
  - rewrite <- !app_assoc. cbn [app]. rewrite Hv; [|lia|intros c [= <-]; by repeat split].
    rewrite skip_none by done. cbn beta iota. rewrite Z.eqb_refl.
    rewrite IH; [by rewrite <- app_assoc|done|lia].
Qed.

Definition member_text (d : nat) (e : jstr * json) : jstr :=
  json_quote e.1 ++ colon step ++ json_print step d e.2.

Lemma parse_members_text d o acc f r :
  o ≠ [] → Forall (λ e, Forall code_unit e.1) o → Forall (λ e, reads e.2) o →
  NoDup (map fst (acc ++ o)) → (need_items (map (λ e, json_need e.2) o) ≤ f)%nat →
  parse_members f acc (line_break step (S d)
    ++ join (c_comma :: line_break step (S d)) (map (member_text (S d)) o)
    ++ line_break step d ++ 125 :: r) = Some (JObj (acc ++ o), r).
Proof.
  intros Hne Hk Hl. revert acc f; induction Hl as [|[k v] o Hv Hl IH]; intros acc f Hnd Hf; [done|].
  inversion Hk as [|? ? Hk1 Hk2]; subst. cbn [fst snd] in *.
  destruct f as [|f]; [cbn in Hf; lia|]. cbn [need_items map foldr] in Hf.
  fold (need_items (map (λ e : jstr * json, json_need e.2) o)) in Hf. cbn [snd] in Hf.
  assert (Hfresh : map_set acc k v = acc ++ [(k, v)]).
  { apply map_set_fresh. rewrite map_app in Hnd. apply NoDup_app in Hnd as (_ & Hd & _).
    intros Hin. apply (Hd k Hin). by left. }
  cbn [parse_members]. rewrite skip_break.
  assert (Hcolon : ∀ t, ∃ u, skip_ws (colon step ++ t) = 58 :: u ++ t ∧ Forall (λ c, is_json_ws c = true) u).
  { intros t. unfold colon. case_match; [by exists []|]. exists [32]. split; [done|]. by repeat constructor. }
  assert (Hval : ∀ u s, Forall (λ c, is_json_ws c = true) u → parse_value f (u ++ s) = parse_value f s).
  { intros u s Hu. destruct f; [done|]. cbn [parse_value]. by rewrite skip_ws_app. }
  destruct o as [|e2 o]; cbn [map].
  - cbn [join]. unfold member_text at 1. unfold json_quote. cbn [fst snd app]. rewrite <- !app_assoc. cbn [app].
    rewrite skip_none by done. cbn beta iota. rewrite Z.eqb_refl, parse_escape by done.
    edestruct Hcolon as (u & -> & Hu). cbn beta iota. rewrite Z.eqb_refl, Hval by done.
    rewrite Hv; [|lia|by apply ends_number_item; auto]. rewrite Hfresh, skip_break, skip_none by done. done.
  - cbn [map] in IH, Hf. rewrite join_cons. unfold member_text at 1. unfold json_quote at 1. cbn [fst snd app]. rewrite <- !app_assoc. cbn [app].
    rewrite skip_none by done. cbn beta iota. rewrite Z.eqb_refl, parse_escape by done.
    edestruct Hcolon as (u & -> & Hu). cbn beta iota. rewrite Z.eqb_refl, Hval by done.
    rewrite Hv; [|lia|intros c [= <-]; by repeat split]. rewrite Hfresh, skip_none by done.
    cbn beta iota. rewrite Z.eqb_refl. rewrite <- !app_assoc. rewrite IH; [by rewrite <- app_assoc|done|done| |lia].
    by rewrite <- app_assoc.
Qed.
End reading.

Lemma enclose_cons open close step d x l :
  enclose open close step d (x :: l) =
  open :: line_break step (S d) ++ join (c_comma :: line_break step (S d)) (x :: l)
       ++ line_break step d ++ [close].
Proof. done. Qed.

Lemma line_break_head step d c t : is_json_ws c = false →
  skip_ws (line_break step d ++ c :: t) = c :: t.
Proof. intros Hc. by rewrite skip_break, skip_none. Qed.

Lemma join_head sep s l c t : s = c :: t → ∃ t', join sep (s :: l) = c :: t'.
Proof. intros ->. destruct l; cbn; eauto. Qed.

Lemma own_entries_print step d o :
  own_entries o = o →
  own_entries (map (λ e : jstr * json, (e.1, json_print step d e.2)) o) =
  map (λ e, (e.1, json_print step d e.2)) o.
Proof. intros Ho. by rewrite own_entries_map, Ho. Qed.

Lemma json_print_obj step d o :
  own_entries o = o → json_print step d (JObj o) = enclose 123 125 step d (map (member_text step (S d)) o).
Proof. intros Ho. cbn [json_print]. rewrite own_entries_print by done. by rewrite map_map. Qed.

Lemma json_print_reads step v : json_safe v → reads step v.
Proof.
  induction v as [|b|x|s|l IH|o IH] using json_nested_ind; intros Hsafe d f r Hf Hr;
    destruct f as [|f]; try (cbn in Hf; lia).
  - cbn [json_print]. change (js "null" ++ r) with (110 :: 117 :: 108 :: 108 :: r). by cbn.
  - cbn [json_print]. destruct b.
    + change (js "true" ++ r) with (116 :: 114 :: 117 :: 101 :: r). by cbn.
    + change (js "false" ++ r) with (102 :: 97 :: 108 :: 115 :: 101 :: r). by cbn.
  - inversion Hsafe as [| |? Hx| | |]; subst. unfold number_safe in Hx.
    apply andb_true_iff in Hx as [[Hfin [Hst _]%andb_true_iff]%andb_true_iff Hp%bool_decide_eq_true].
    cbn [json_print]. unfold print_number. rewrite Hfin.
    pose proof (parse_number_app _ r x Hp Hr) as Happ.
    destruct (string_of_number x) as [|c t]; [done|]. cbn [app] in *. cbn in Hst.
    assert (Hc : is_json_ws c = false ∧ c ≠ 34 ∧ c ≠ 123 ∧ c ≠ 91 ∧ c ≠ 116 ∧ c ≠ 102 ∧ c ≠ 110)
      by (unfold is_json_ws, is_digit in *; lia).
    destruct Hc as (Hws & H1 & H2 & H3 & H4 & H5 & H6). cbn [parse_value].
    rewrite skip_none by done. unfold c_quote.
    rewrite (proj2 (Z.eqb_neq c 34)), (proj2 (Z.eqb_neq c 123)), (proj2 (Z.eqb_neq c 91)) by done.
    assert (Hsp : ∀ k p, k ≠ c → strip_prefix (k :: p) (c :: t ++ r) = None)
      by (intros k p Hk; cbn; by rewrite (proj2 (Z.eqb_neq k c))).
    change (js "true") with (116 :: js "rue"). change (js "false") with (102 :: js "alse").
    change (js "null") with (110 :: js "ull"). rewrite !Hsp by done. by rewrite Happ.
  - inversion Hsafe; subst. cbn [json_print]. unfold json_quote. cbn [app]. rewrite <- app_assoc.
    cbn [parse_value app]. rewrite skip_none by done. cbn beta iota. rewrite Z.eqb_refl.
    by rewrite parse_escape.
  - inversion Hsafe as [| | | |? Hl|]; subst. cbn [json_print].
    destruct l as [|v l]; [by cbn|]. rewrite Forall_cons in Hl. destruct Hl as [Hv Hl].
    cbn [map]. rewrite enclose_cons. cbn [app parse_value]. rewrite skip_none by done. cbn beta iota.
    change (91 =? c_quote) with false. change (91 =? 123) with false. change (91 =? 91) with true. cbn beta iota.
    rewrite <- !app_assoc. cbn [app].
    destruct (json_print_head step (S d) v Hv) as (c & t & Hpr & Hws & H93 & _).
    destruct (join_head (c_comma :: line_break step (S d)) _ (map (json_print step (S d)) l) c t Hpr) as [t' Hj].
    rewrite Hj. cbn [app]. rewrite line_break_head by done. rewrite (proj2 (Z.eqb_neq c 93)) by done.
    change (c :: t' ++ line_break step d ++ 93 :: r) with ((c :: t') ++ line_break step d ++ 93 :: r).
    rewrite <- Hj. apply (parse_elements_text step d (v :: l) [] f r); [done| |cbn in Hf; cbn; lia].
    rewrite Forall_cons in IH. destruct IH as [IHv IH]. constructor; [by apply IHv|].
    rewrite Forall_forall in *. intros x Hx. apply IH; [done|by apply Hl].
  - inversion Hsafe as [| | | | |? Hnd Hord Hk Hl]; subst. rewrite json_print_obj by done.
    destruct o as [|[k v] o]; [by cbn|].
    cbn [map]. rewrite enclose_cons. cbn [app parse_value]. rewrite skip_none by done. cbn beta iota.
    change (123 =? c_quote) with false. change (123 =? 123) with true. cbn beta iota.
    rewrite <- !app_assoc. cbn [app].
    assert (Hm : ∃ t, member_text step (S d) (k, v) = c_quote :: t) by by eexists.
    destruct Hm as [t Hm].
    destruct (join_head (c_comma :: line_break step (S d)) _ (map (member_text step (S d)) o) c_quote t Hm) as [t' Hj].
    rewrite Hj. cbn [app]. rewrite line_break_head by done. change (c_quote =? 125) with false. cbn beta iota.
    change (c_quote :: t' ++ line_break step d ++ 125 :: r) with ((c_quote :: t') ++ line_break step d ++ 125 :: r).
    rewrite <- Hj. apply (parse_members_text step d ((k, v) :: o) [] f r); [done|done| |done|cbn in Hf; cbn; lia].
    rewrite Forall_forall in *. intros e He. apply IH; [done|by apply Hl].
Qed.

(** The fuel of [json_parse] is enough for the text of any value. *)
Lemma need_items_join ns ts sep :
  Forall2 (λ n t, (n ≤ 2 * length t)%nat) ns ts → sep ≠ [] →
  (need_items ns ≤ 2 * length (join sep ts) + 1)%nat.
Proof.
  intros Hf Hsep. assert (length sep ≠ 0%nat) by by destruct sep.
  induction Hf as [|n t ns ts Hn Hf IH]; cbn [need_items foldr]; [lia|].
  fold (need_items ns). destruct Hf as [|n2 t2 ns ts Hn2 Hf].
  - cbn [need_items foldr join]. lia.
  - rewrite join_cons, !length_app. lia.
Qed.

Lemma enclose_length open close step d l :
  l ≠ [] → (length (join (c_comma :: line_break step (S d)) l) + 2 ≤ length (enclose open close step d l))%nat.
Proof. destruct l; [done|]. intros _. rewrite enclose_cons. cbn [length]. rewrite !length_app. cbn. lia. Qed.

Lemma json_need_length step v : json_safe v → ∀ d, (json_need v ≤ 2 * length (json_print step d v))%nat.
Proof.
  induction v as [|b|x|s|l IH|o IH] using json_nested_ind; intros Hsafe d.
  1-4: destruct (json_print_head step d _ Hsafe) as (c & t & -> & _); cbn [json_need length]; lia.
  - inversion Hsafe as [| | | |? Hl|]; subst. destruct l as [|v l]; [cbn; lia|].
    cbn [json_need json_print]. pose proof (enclose_length 91 93 step d (map (json_print step (S d)) (v :: l)) ltac:(done)).
    pose proof (need_items_join (map json_need (v :: l)) (map (json_print step (S d)) (v :: l))
                  (c_comma :: line_break step (S d))) as Hn.
    specialize (Hn ltac:(apply Forall2_fmap, Forall_Forall2_diag; rewrite Forall_forall in *; intros; by apply IH; [|apply Hl]) ltac:(done)).
    lia.
  - inversion Hsafe as [| | | | |? Hnd Hord Hk Hl]; subst. destruct o as [|e o]; [cbn; lia|].
    rewrite json_print_obj by done. cbn [json_need].
    pose proof (enclose_length 123 125 step d (map (member_text step (S d)) (e :: o)) ltac:(done)).
    pose proof (need_items_join (map (λ e : jstr * json, json_need e.2) (e :: o)) (map (member_text step (S d)) (e :: o))
                  (c_comma :: line_break step (S d))) as Hn.
    assert (Hf : Forall2 (λ n t, (n ≤ 2 * length t)%nat) (map (λ e : jstr * json, json_need e.2) (e :: o))
                   (map (member_text step (S d)) (e :: o))).
    { apply Forall2_fmap, Forall_Forall2_diag. rewrite Forall_forall in *. intros x Hx. unfold member_text.
      rewrite !length_app. pose proof (IH x Hx (Hl x Hx) (S d)). lia. }
    specialize (Hn Hf ltac:(done)). lia.
Qed.

(** [JSON.parse(JSON.stringify(v))] is [v], with or without indentation. *)
Lemma json_parse_print step v : json_safe v → json_parse (json_print step 0 v) = Some v.
Proof.
  intros Hv. unfold json_parse. pose proof (json_need_length step v Hv 0%nat) as Hn.
  pose proof (json_print_reads step v Hv 0%nat (S (2 * length (json_print step 0 v))) []) as Hr.
  rewrite app_nil_r in Hr. rewrite Hr; [done|lia|done].
Qed.

Lemma json_parse_stringify v : json_safe v → json_parse (json_stringify v) = Some v.
Proof. apply json_parse_print. Qed.

Lemma json_parse_stringify_2 v : json_safe v → json_parse (json_stringify_2 v) = Some v.
Proof. apply json_parse_print. Qed.

(** ** Safety of the values programs build *)

Lemma safe_num_Z n : number_safe (num_of_Z n) = true → json_safe (JNum (num_of_Z n)).
Proof. apply safe_num. Qed.

(** Objects without array-index keys are in their canonical order. *)
Lemma own_entries_plain {V} (o : list (jstr * V)) :
  Forall (λ e, is_index_key e.1 = false) o → own_entries o = o.
Proof.
  intros Ho. unfold own_entries.
  assert (H1 : filterb (λ e : jstr * V, is_index_key e.1) o = []).
  { apply elem_of_nil_inv. intros e [He Hk]%elem_of_filterb. rewrite Forall_forall in Ho.
    specialize (Ho e He). congruence. }
  rewrite H1. apply filterb_id. eapply Forall_impl; [exact Ho|]. intros e ->. done.
Qed.

(** A check that a value is safe, for the values at hand. *)
Definition code_unitb (c : Z) : bool := (0 <=? c) && (c <? 65536).

Fixpoint json_safeb (v : json) : bool :=
  match v with
  | JNull | JBool _ => true
  | JNum x => number_safe x
  | JStr s => forallb code_unitb s
  | JArr l => forallb json_safeb l
  | JObj o =>
      bool_decide (NoDup (map fst o))
      && forallb (λ e : jstr * json, negb (is_index_key e.1) && forallb code_unitb e.1 && json_safeb e.2) o
  end.

Lemma code_unitb_ok s : forallb code_unitb s = true → Forall code_unit s.
Proof.
  rewrite forallb_forall. intros H. apply Forall_forall. intros c Hc%list_elem_of_In.
  specialize (H c Hc). unfold code_unitb, code_unit in *. lia.
Qed.

Lemma json_safeb_ok v : json_safeb v = true → json_safe v.
Proof.
  induction v as [|b|x|s|l IH|o IH] using json_nested_ind; cbn [json_safeb]; intros H; try constructor.
  - done.
  - by apply code_unitb_ok.
  - rewrite Forall_forall in IH |- *. rewrite forallb_forall in H. intros v Hv. apply IH; [done|].
    by apply H, list_elem_of_In.
  - apply andb_true_iff in H as [H _]. by apply bool_decide_eq_true in H.
  - apply andb_true_iff in H as [_ H]. rewrite forallb_forall in H. apply own_entries_plain, Forall_forall.
    intros e He%list_elem_of_In%H. by destruct (is_index_key e.1).
  - apply andb_true_iff in H as [_ H]. rewrite forallb_forall in H. apply Forall_forall.
    intros e He%list_elem_of_In%H. apply code_unitb_ok. solve_bool.
  - apply andb_true_iff in H as [_ H]. rewrite forallb_forall in H. rewrite Forall_forall in IH |- *.
    intros e He. apply IH; [done|]. apply list_elem_of_In, H in He. solve_bool.
Qed.

Example stringify_sample :
  let v := JObj [(js "a", JArr [JNum (num_of_Z 1); JBool true]); (js "b", JObj [])] in
  json_stringify v = map (λ c, if c =? 39 then c_quote else c) (js "{'a':[1,true],'b':{}}") ∧
  json_parse (json_stringify_2 v) = Some v.
Proof. split; by_eval. Qed.
