(* ===== verification/JsObject.v ===== *)
(** * Objects read property by property

    The idioms with which forms and payloads read and write plain objects:
    optional properties, defaults, spreading, deletion; and the lemmas and
    tactics that look a literal property up in such an object. A property
    that is [undefined] is absent. *)

From Stdlib Require Import String.
From S2P Require Import JsJson JsonText.

Definition object : Type := list (jstr * json).

(** ** Reading values *)

Definition fld (o : object) (name : string) : option json := obj_get o (js name).

(** [v || d], [v ?? d], [v === true], [v !== false] *)
Definition or_ (v : option json) (d : json) : json :=
  match v with Some x => if truthy x then x else d | None => d end.

Definition nullish_or (v : option json) (d : json) : json :=
  match v with None | Some JNull => d | Some x => x end.

Definition is_true (v : option json) : bool :=
  match v with Some (JBool true) => true | _ => false end.

Definition not_false (v : option json) : bool :=
  match v with Some (JBool false) => false | _ => true end.

Definition is_truthy (v : option json) : bool :=
  match v with Some x => truthy x | None => false end.

(** [v === n] for an integer [n], [v === 'text'] *)
Definition is_num (v : option json) (n : Z) : bool :=
  match v with Some (JNum x) => bool_decide (num_integer x = Some n) | _ => false end.

Definition is_str (v : option json) (s : jstr) : bool :=
  match v with Some (JStr t) => bool_decide (t = s) | _ => false end.

(** [v?.trim()] of an optional string *)
Definition trim_opt (v : option json) : option json :=
  match v with Some (JStr s) => Some (JStr (trim s)) | _ => None end.

(** [v?.name] and [v.name] *)
Definition opt_prop (v : option json) (name : string) : option json :=
  match v with Some (JObj o) => fld o name | _ => None end.

Definition spread (a b : object) : object := foldl (λ o (e : jstr * json), obj_set o e.1 e.2) a b.

(** A property that is left out when its value is [undefined]. *)
Definition opt_entry (name : string) (v : option json) : object :=
  match v with Some x => [(js name, x)] | None => [] end.

Definition entry (name : string) (v : json) : jstr * json := (js name, v).
Definition str (s : string) : json := JStr (js s).
Definition num (n : Z) : json := JNum (num_of_Z n).

(** ** Writing properties *)

(** [o.key = v] when the condition holds, else [delete o.key]. *)
Definition put_if (c : bool) (name : string) (v : json) (o : object) : object :=
  if c then obj_set o (js name) v else obj_delete o (js name).

Definition put (name : string) (v : json) (o : object) : object := obj_set o (js name) v.
Definition del (name : string) (o : object) : object := obj_delete o (js name).

(** ** Looking properties up *)

(** Property names are compared, never computed with. *)
#[local] Opaque js.

(** Decide the equalities between literal property names. *)
Ltac decide_names :=
  repeat match goal with
  | |- context [@decide (js ?a = js ?a) ?d] =>
      let Hx := fresh in
      destruct (@decide (js a = js a) d) as [_|Hx]; [|exfalso; apply Hx; reflexivity]
  | |- context [@decide (js ?a = js ?b) ?d] =>
      let Hx := fresh in
      destruct (@decide (js a = js b) d) as [Hx|_]; [exfalso; revert Hx; vm_compute; discriminate|]
  end.

Definition when (c : bool) (v : option json) : option json := if c then v else None.

Lemma fld_put name v o k : fld (put name v o) k = if decide (js name = js k) then Some v else fld o k.
Proof. apply map_get_set. Qed.

Lemma fld_del name o k : fld (del name o) k = if decide (js name = js k) then None else fld o k.
Proof. apply map_get_delete. Qed.

Lemma fld_put_if c name v o k :
  fld (put_if c name v o) k = if decide (js name = js k) then when c (Some v) else fld o k.
Proof. destruct c; [apply fld_put|apply fld_del]. Qed.

Ltac get_names := rewrite ?fld_put, ?fld_del, ?fld_put_if;
  repeat (progress decide_names; rewrite ?fld_put, ?fld_del, ?fld_put_if).

Definition names (l : list string) : list jstr := map js l.

Lemma put_frame name v o k : k ≠ js name → map_get (put name v o) k = map_get o k.
Proof. intros Hk. unfold put. by rewrite map_get_set_ne. Qed.

Lemma del_frame name o k : k ≠ js name → map_get (del name o) k = map_get o k.
Proof. intros Hk. unfold del. by rewrite map_get_delete_ne. Qed.

Lemma put_if_frame c name v o k : k ≠ js name → map_get (put_if c name v o) k = map_get o k.
Proof. intros Hk. unfold put_if. case_match; [by apply put_frame|by apply del_frame]. Qed.

(** A name outside a list of names differs from each of them. *)
Lemma not_names_cons k n l : k ∉ names (n :: l) ↔ k ≠ js n ∧ k ∉ names l.
Proof. unfold names. cbn. by rewrite not_elem_of_cons. Qed.

Lemma not_names_app k l1 l2 : k ∉ names (l1 ++ l2) ↔ (k ∉ names l1) ∧ k ∉ names l2.
Proof. unfold names. by rewrite map_app, not_elem_of_app. Qed.

(** Strip the edits of other names. *)
Ltac frame_names :=
  repeat match goal with H : _ ∉ names (_ :: _) |- _ => apply not_names_cons in H as [? H] end;
  repeat match goal with
  | H : ?k ≠ js ?n |- context [map_get (put ?n ?v ?o) ?k] => rewrite (put_frame n v o k H)
  | H : ?k ≠ js ?n |- context [map_get (del ?n ?o) ?k] => rewrite (del_frame n o k H)
  | H : ?k ≠ js ?n |- context [map_get (put_if ?c ?n ?v ?o) ?k] => rewrite (put_if_frame c n v o k H)
  end.

(** ** Literal objects *)

Lemma fld_nil k : fld [] k = None.
Proof. done. Qed.

Lemma fld_entry n v o k : fld (entry n v :: o) k = if decide (js n = js k) then Some v else fld o k.
Proof. done. Qed.

Lemma fld_opt n v o k :
  fld (opt_entry n v ++ o) k =
  if decide (js n = js k) then match v with Some x => Some x | None => fld o k end else fld o k.
Proof. destruct v; [done|]. cbn [opt_entry app]. by destruct (decide _). Qed.

Lemma fld_app a b k : fld (a ++ b) k = match fld a k with Some v => Some v | None => fld b k end.
Proof.
  unfold fld. induction a as [|[n v] a IH]; [done|]. cbn [app map_get].
  by destruct (decide (n = js k)).
Qed.

Lemma map_get_spread a b k :
  NoDup (map fst b) → map_get (spread a b) k = match map_get b k with Some v => Some v | None => map_get a k end.
Proof.
  unfold spread. revert a; induction b as [|[n v] b IH]; intros a Hnd; [done|].
  apply NoDup_cons in Hnd as [Hn Hnd]. cbn [foldl fst snd map_get]. rewrite IH, map_get_set by done.
  destruct (decide (n = k)) as [->|]; [|done]. by rewrite (proj2 (map_get_None b k)).
Qed.

Lemma fld_spread a b k :
  NoDup (map fst b) → fld (spread a b) k = match fld b k with Some v => Some v | None => fld a k end.
Proof. apply map_get_spread. Qed.

(** Compute the value of a literal property of a literal object. *)
Ltac look := repeat (first [rewrite fld_entry | rewrite fld_opt | rewrite fld_nil]; decide_names; cbn [app]).

(** The values some properties of an object are to have. *)
Definition meets (o : object) (spec : list (string * option json)) : Prop :=
  Forall (λ e : string * option json, fld o e.1 = e.2) spec.

(** The properties of a specification, one equation each. *)
Ltac open_spec H :=
  repeat match type of H with
  | Forall _ (_ :: _) =>
      let Hx := fresh "Hv" in apply Forall_cons_1 in H as [Hx H]; cbn [fst snd] in Hx
  end; clear H.
