(* ===== verification/JsArith.v ===== *)
(** * Arithmetic and rounding of numbers

    The operations of binary64 the sources use, [Math.round], [Math.max],
    [toFixed] and [parseFloat], executable on every number; and, in the module
    [Rounding], how far multiplications and divisions are from the exact ones:
    numbers of moderate size that are divided, multiplied and taken back again
    round to the integer they came from. *)

From Stdlib Require Import String.
From Stdlib Require QArith Qpower Lqa.
From S2P Require Export JsNumber JsJson.
From S2P Require Import JsonText.

Definition num_add : jsnum → jsnum → jsnum := SFadd prec64 emax64.
Definition num_sub : jsnum → jsnum → jsnum := SFsub prec64 emax64.
Definition num_mul : jsnum → jsnum → jsnum := SFmul prec64 emax64.
Definition num_div : jsnum → jsnum → jsnum := SFdiv prec64 emax64.

(** [Math.abs(x)] *)
Definition num_abs (x : jsnum) : jsnum := SFabs x.

(** [Math.max(x, y)]: [NaN] when one is, and the positive of two zeros. *)
Definition num_max (x y : jsnum) : jsnum :=
  match x, y with
  | S754_nan, _ | _, S754_nan => S754_nan
  | S754_zero s, S754_zero s' => S754_zero (s && s')
  | _, _ => if num_lt x y then y else x
  end.

Definition is_negative (x : jsnum) : bool :=
  match x with S754_zero s | S754_infinity s | S754_finite s _ _ => s | S754_nan => false end.

(** [Math.round(x)]: the nearest integer, the greater of two. *)
Definition math_round (x : jsnum) : jsnum :=
  match x with
  | S754_finite s m e =>
      if 0 <=? e then x
      else
        let signed := if s then - Z.pos m else Z.pos m in
        let n := (2 * signed + 2 ^ (- e)) / 2 ^ (1 - e) in
        if n =? 0 then S754_zero s else num_of_Z n
  | _ => x
  end.

(** [x.toFixed(digits)]: the nearest decimal with that many digits, the greater
    of two, and [String(x)] from [10^21] on. *)
Definition fixed_digits (digits : Z) (n : Z) : jstr :=
  let m := string_of_Z n in
  if digits =? 0 then m
  else
    let padded := zeros (digits + 1 - Z.of_nat (length m)) ++ m in
    let k := (length padded - Z.to_nat digits)%nat in
    take k padded ++ js "." ++ drop k padded.

Definition to_fixed (digits : Z) (x : jsnum) : jstr :=
  match x with
  | S754_zero _ => fixed_digits digits 0
  | S754_finite s m e =>
      let num := Z.pos m * 2 ^ Z.max e 0 in
      let den := 2 ^ Z.max (- e) 0 in
      if den * 10 ^ 21 <=? num then string_of_number x
      else (if s then js "-" else []) ++ fixed_digits digits ((2 * num * 10 ^ digits + den) / (2 * den))
  | _ => string_of_number x
  end.

(** [parseFloat(text)]: the longest decimal literal at the front. *)
Definition parse_float (text : jstr) : jsnum :=
  let '(neg, r) := take_sign (trim_start text) in
  if starts_with (js "Infinity") r then S754_infinity neg
  else
    let '(ip, r1) := take_digits r in
    let '(fp, r2) := match r1 with
                     | c :: t => if c =? 46 then take_digits t else ([], r1)
                     | [] => ([], [])
                     end in
    if nonempty (ip ++ fp) then
      let e := match take_exponent r2 with Some (e, _) => e | None => 0 end in
      num_of_decimal neg (Z.to_N (digits_value (ip ++ fp))) (e - Z.of_nat (length fp))
    else S754_nan.

(** ** Evaluations against the language's own *)

Definition tokens (l : list string) : list jsnum := map (λ t, number_of_string (js t)) l.

Example to_fixed_examples :
  map (to_fixed 2) (tokens ["1.005"; "2.5"; "-1.555"; "0"; "-0.0001"; "1e21"; "123.456"; "0.995"]%string)
  = map js ["1.00"; "2.50"; "-1.55"; "0.00"; "-0.00"; "1e+21"; "123.46"; "0.99"]%string
  ∧ map (to_fixed 0) (tokens ["0.5"; "1.5"; "2.5"; "-2.5"; "99.5"]%string) = map js ["1"; "2"; "3"; "-3"; "100"]%string.
Proof. split; by_eval. Qed.

Example math_round_examples :
  map (λ x, string_of_number (math_round x)) (tokens ["2.5"; "-2.5"; "0.4"; "-0.5"; "1e20"; "0.49999999999999994"]%string)
  = map js ["3"; "-2"; "0"; "0"; "100000000000000000000"; "0"]%string.
Proof. by_eval. Qed.

Example parse_float_examples :
  map (λ t, string_of_number (parse_float (js t)))
    [" 3.5abc"; "1e3x"; "1e"; "."; "5."; "-.5"; "-Infinityx"; "0x10"; ""]%string
  = map js ["3.5"; "1000"; "1"; "NaN"; "5"; "-0.5"; "-Infinity"; "0"; "NaN"]%string.
Proof. by_eval. Qed.

(** ** Reading printed numbers *)

Lemma take_digits_digit s d t : take_digits s = (d, t) → (∃ c u, d = c :: u) → ∃ c u, s = c :: u ∧ is_digit c = true.
Proof.
  destruct s as [|c s]; cbn; [intros [= <- <-] (? & ? & ?); done|].
  destruct (is_digit c) eqn:Hc; [|intros [= <- <-] (? & ? & ?); done]. eauto.
Qed.

(** A JSON number is read by [parseFloat] as by [JSON.parse]. *)
Lemma parse_float_number s x : parse_number s = Some (x, []) → parse_float s = x.
Proof.
  unfold parse_number. destruct s as [|c0 s0]; [done|].
  destruct (if c0 =? 45 then (true, s0) else (false, c0 :: s0)) as [neg s1] eqn:Hs1.
  destruct (take_digits s1) as [ip r] eqn:Hd.
  destruct ip as [|d ip']; [done|]. cbn zeta. set (ok := match ip' with [] => true | _ => _ end).
  destruct ok; [|done]. set (bad := match r with [] => false | _ => _ end).
  destruct bad; [done|]. unfold read_decimal. rewrite Hd.
  destruct (take_digits_digit s1 _ _ Hd) as (c & u & E & Hc); [eauto|].
  assert (Htrim : trim_start (c0 :: s0) = c0 :: s0 ∧ take_sign (c0 :: s0) = (neg, s1)).
  { unfold trim_start, take_sign. destruct (c0 =? 45) eqn:H0; injection Hs1 as <- <-.
    - reflect_bools; subst. by split; [rewrite drop_while_id by done|].
    - injection E as -> ->. rewrite drop_while_id by (by apply is_digit_not_ws).
      assert ((c =? 43) = false) as -> by (unfold is_digit in Hc; lia). done. }
  destruct Htrim as [Ht Hsign]. unfold parse_float. rewrite Ht, Hsign.
  assert (starts_with (js "Infinity") s1 = false) as ->.
  { destruct (starts_with _ s1) eqn:Hst; [|done]. apply starts_with_true in Hst as [v Hv]. subst s1.
    injection Hv as -> _. done. }
  rewrite Hd. destruct (match r with [] => _ | _ => _ end) as [fp r2] eqn:Hfp.
  cbn [app nonempty]. destruct (take_exponent r2) as [[e r3]|] eqn:He; [|done]. by intros [= -> ->].
Qed.

Lemma parse_float_safe x : number_safe x = true → parse_float (string_of_number x) = x.
Proof.
  unfold number_safe. intros [_ H%bool_decide_eq_true]%andb_true_iff. by apply parse_float_number.
Qed.

Lemma number_safe_finite x : number_safe x = true → is_finite x = true.
Proof. unfold number_safe. intros [[H _]%andb_true_iff _]%andb_true_iff. done. Qed.

Lemma number_safe_text x : number_safe x = true → string_of_number x ≠ [].
Proof.
  unfold number_safe. intros [[_ [H _]%andb_true_iff]%andb_true_iff _]%andb_true_iff E. by rewrite E in H.
Qed.

Lemma num_lt_trans x y z : num_lt x y = true → num_lt y z = true → num_lt x z = true.
Proof.
  unfold num_lt, SFltb. destruct x as [sx|sx| |sx mx ex], y as [sy|sy| |sy my ey], z as [sz|sz| |sz mz ez]; cbn;
    try done; repeat match goal with s : bool |- _ => destruct s end; try done.
  all: repeat match goal with |- context [Z.compare ?a ?b] => destruct (Z.compare_spec a b) end; subst; try done; try lia.
  all: fold (Pos.compare mx my); fold (Pos.compare my mz); fold (Pos.compare mx mz).
  all: repeat match goal with |- context [Pos.compare ?a ?b] => destruct (Pos.compare_spec a b) end; cbn; try done; lia.
Qed.

Lemma num_lt_irrefl x : num_lt x x = false.
Proof.
  unfold num_lt, SFltb. destruct x as [[]|[]| |[] m e]; cbn; try done; rewrite Z.compare_refl;
    fold (Pos.compare m m); by rewrite Pos.compare_refl.
Qed.

(** ** How far rounded operations are from exact ones *)

Module Rounding.
Import QArith Qpower Lqa.
#[local] Open Scope Z_scope.

(** *** Digits *)

Lemma digits2_bounds p : 2 ^ (Zpos (digits2_pos p) - 1) ≤ Zpos p < 2 ^ Zpos (digits2_pos p).
Proof.
  induction p as [p IH|p IH|]; cbn [digits2_pos]; [| |done].
  - rewrite Pos2Z.inj_succ, Z.sub_succ_l, !Z.pow_succ_r by lia. lia.
  - rewrite Pos2Z.inj_succ, Z.sub_succ_l, !Z.pow_succ_r by lia. lia.
Qed.

Lemma digits2_unique p d : 0 < d → 2 ^ (d - 1) ≤ Zpos p < 2 ^ d → Zpos (digits2_pos p) = d.
Proof.
  intros Hd Hp. pose proof (digits2_bounds p) as Hb.
  assert (Zpos (digits2_pos p) - 1 < d) by (apply (Z.pow_lt_mono_r_iff 2); lia).
  assert (d - 1 < Zpos (digits2_pos p)) by (apply (Z.pow_lt_mono_r_iff 2); lia). lia.
Qed.

(** *** Shifting to the right halves the mantissa *)

Lemma shr_1_m r : 0 ≤ shr_m r → shr_m (shr_1 r) = shr_m r / 2.
Proof.
  destruct r as [[|[p|p|]|p] b c]; cbn; intros H; try done; try lia.
  - rewrite Pos2Z.inj_xI. apply (Z.div_unique _ _ _ 1); lia.
  - rewrite Pos2Z.inj_xO. apply (Z.div_unique _ _ _ 0); lia.
Qed.

Lemma shr_iter_m n r : 0 ≤ shr_m r → shr_m (SpecFloat.iter_pos shr_1 n r) = shr_m r / 2 ^ Zpos n.
Proof.
  assert (Hd : ∀ x a b, 0 ≤ x → 0 ≤ a → 0 ≤ b → x / 2 ^ a / 2 ^ b = x / 2 ^ (a + b)).
  { intros x a b Hx Ha Hb. rewrite Z.pow_add_r by done. apply Z.div_div; [apply Z.pow_nonzero|apply Z.pow_pos_nonneg]; lia. }
  assert (Hp : ∀ x a, 0 ≤ x → 0 ≤ a → 0 ≤ x / 2 ^ a) by (intros; apply Z.div_pos; [done|apply Z.pow_pos_nonneg; lia]).
  revert r. induction n as [n IH|n IH|]; intros r Hr; cbn [SpecFloat.iter_pos].
  - assert (H1 : 0 ≤ shr_m (shr_1 r)) by (rewrite shr_1_m by done; apply Z.div_pos; lia).
    rewrite IH by (rewrite IH by done; apply Hp; lia). rewrite IH, shr_1_m, <- (Z.pow_1_r 2) at 1 by done. rewrite !(Hd (shr_m r)) by lia. f_equal. f_equal. lia.
  - rewrite IH by (rewrite IH by done; apply Hp; lia). rewrite IH by done. rewrite Hd by lia. f_equal. f_equal. lia.
  - by rewrite shr_1_m.
Qed.

(** *** Rounding *)

(** A positive number with a mantissa of 53 bits. *)
Definition normal (m : positive) (e : Z) : Prop := 2 ^ 52 ≤ Zpos m < 2 ^ 53 ∧ -1000 ≤ e ≤ 900.

Lemma fexp_normal x : -1000 ≤ x - 53 → fexp prec64 emax64 x = x - 53.
Proof. unfold fexp, emin, prec64, emax64. lia. Qed.

Lemma nearest_step x l : round_nearest_even x l = x ∨ round_nearest_even x l = x + 1.
Proof. destruct l as [|[]]; cbn; auto. destruct (Z.even x); auto. Qed.

Lemma record_m x l : shr_m (shr_record_of_loc x l) = x.
Proof. by destruct l as [|[]]. Qed.

(** Rounding a mantissa of [53 + n] bits keeps the upper 53, or their successor. *)
Lemma round_cases mx ex lx n :
  2 ^ (52 + n) ≤ mx < 2 ^ (53 + n) → 0 ≤ n → -1000 ≤ ex + n ≤ 890 →
  ∃ m e, binary_round_aux prec64 emax64 false mx ex lx = S754_finite false m e ∧ normal m e
         ∧ ∃ r, (r = mx / 2 ^ n ∨ r = mx / 2 ^ n + 1) ∧ (n = 0 → lx = loc_Exact → r = mx)
                ∧ (Zpos m = r ∧ e = ex + n ∨ 2 * Zpos m = r ∧ e = ex + n + 1).
Proof.
  intros Hm Hn He. assert (0 < 2 ^ (52 + n)) by (apply Z.pow_pos_nonneg; lia).
  destruct mx as [|p|p]; [lia| |lia]. assert (Hd : Zpos (digits2_pos p) = 53 + n).
  { apply digits2_unique; [lia|]. by replace (53 + n - 1) with (52 + n) by lia. }
  assert (Hq : 2 ^ 52 ≤ Zpos p / 2 ^ n < 2 ^ 53).
  { rewrite !Z.pow_add_r in Hm by lia. split; [apply Z.div_le_lower_bound|apply Z.div_lt_upper_bound]; try apply Z.pow_pos_nonneg; lia. }
  unfold binary_round_aux. unfold shr_fexp at 1. cbn [Zdigits2]. rewrite Hd, fexp_normal by lia.
  replace (53 + n + ex - 53 - ex) with n by lia.
  assert (Hs : ∃ mrs, shr (shr_record_of_loc (Zpos p) lx) ex n = (mrs, ex + n) ∧ shr_m mrs = Zpos p / 2 ^ n
                      ∧ (n = 0 → mrs = shr_record_of_loc (Zpos p) lx)).
  { destruct n as [|n|n]; [| |lia]; cbn [shr].
    - eexists. split; [by rewrite Z.add_0_r|]. rewrite record_m. split; [by rewrite Z.div_1_r|done].
    - eexists. split; [done|]. rewrite shr_iter_m, record_m by (rewrite record_m; lia). by split. }
  destruct Hs as (mrs & -> & Hmrs & Hz). set (r := round_nearest_even (shr_m mrs) (loc_of_shr_record mrs)).
  assert (Hr : r = Zpos p / 2 ^ n ∨ r = Zpos p / 2 ^ n + 1) by (unfold r; rewrite <- Hmrs; apply nearest_step).
  assert (Hex : n = 0 → lx = loc_Exact → r = Zpos p).
  { intros -> ->. unfold r. rewrite Hz by done. cbn. done. }
  assert (Hrange : 2 ^ 52 ≤ r ≤ 2 ^ 53) by lia. clearbody r.
  destruct r as [|q|q]; [lia| |lia].
  destruct (decide (Zpos q = 2 ^ 53)) as [Eq|Nq].
  - assert (q = (2 ^ 53)%positive) as -> by lia. unfold shr_fexp. change (Zdigits2 (Zpos (2 ^ 53)%positive)) with 54.
    rewrite fexp_normal by lia. replace (54 + (ex + n) - 53 - (ex + n)) with 1 by lia. cbn [shr SpecFloat.iter_pos].
    change (shr_m (shr_1 _)) with (Zpos (2 ^ 52)%positive). rewrite (proj2 (Z.leb_le _ _)) by (unfold emax64, prec64; lia).
    eexists _, _. split; [done|]. split; [split; [lia|lia]|]. exists (Zpos (2 ^ 53)%positive). split_and!; [done|done|]. right. lia.
  - unfold shr_fexp. cbn [Zdigits2]. rewrite (digits2_unique q 53), fexp_normal by lia.
    replace (53 + (ex + n) - 53 - (ex + n)) with 0 by lia. cbn [shr shr_record_of_loc shr_m].
    rewrite (proj2 (Z.leb_le _ _)) by (unfold emax64, prec64; lia).
    eexists _, _. split; [done|]. split; [split; lia|]. exists (Zpos q). split_and!; [done|done|]. left. lia.
Qed.

(** *** Values *)

(** [2^e], and the value of a positive number. *)
Definition pw (e : Z) : Q := (2 ^ e)%Q.
Definition value_of (m : positive) (e : Z) : Q := (inject_Z (Zpos m) * pw e)%Q.

(** Within one unit of the last place of 53 bits. *)
Definition ulp : Q := (1 # (2 ^ 52)%positive)%Q.
Definition close (v r : Q) : Prop := ((1 - ulp) * v <= r /\ r <= (1 + ulp) * v)%Q.

#[local] Instance close_proper : Proper (Qeq ==> Qeq ==> iff) close.
Proof. intros v v' Hv r r' Hr. unfold close. by rewrite Hv, Hr. Qed.

Lemma pw_pos e : (0 < pw e)%Q.
Proof. by apply Qpower_0_lt. Qed.

Lemma pw_add a b : (pw (a + b) == pw a * pw b)%Q.
Proof. by apply Qpower_plus. Qed.

Lemma pw_Z n : 0 ≤ n → (pw n == inject_Z (2 ^ n))%Q.
Proof. intros Hn. unfold pw. change 2%Q with (inject_Z 2). by rewrite <- Zpower_Qpower. Qed.

Lemma close_of (K k v P r : Q) :
  (0 < P)%Q → (inject_Z (2 ^ 52) <= k)%Q → (k * P <= v)%Q → (v <= (k + 1) * P)%Q → (r == k * P \/ r == (k + 1) * P)%Q → close v r.
Proof.
  intros HP Hk H1 H2 Hr. assert (Hv : (P <= ulp * v)%Q).
  { assert (H : (inject_Z (2 ^ 52) * P <= v)%Q) by (eapply Qle_trans; [|exact H1]; apply Qmult_le_compat_r; [done|lra]).
    unfold ulp. change (inject_Z (2 ^ 52)) with (4503599627370496 # 1)%Q in *. change (2 ^ 52)%positive with 4503599627370496%positive. lra. }
  unfold close. destruct Hr as [-> | ->]; lra.
Qed.

Lemma round_close mx ex lx n v :
  2 ^ (52 + n) ≤ mx < 2 ^ (53 + n) → 0 ≤ n → -1000 ≤ ex + n ≤ 890 →
  (inject_Z mx * pw ex <= v)%Q → (v <= inject_Z (mx + 1) * pw ex)%Q →
  ∃ m e, binary_round_aux prec64 emax64 false mx ex lx = S754_finite false m e ∧ normal m e
         ∧ ex + n ≤ e ≤ ex + n + 1 ∧ close v (value_of m e).
Proof.
  intros Hm Hn He Hl Hu. destruct (round_cases mx ex lx n Hm Hn He) as (m & e & E & Hnm & r & Hr & _ & Hv).
  exists m, e. do 2 (split; [done|]). split; [lia|]. set (k := mx / 2 ^ n) in *.
  assert (Hp2 : 0 < 2 ^ n) by (apply Z.pow_pos_nonneg; lia).
  assert (Hk : k * 2 ^ n ≤ mx ∧ mx + 1 ≤ (k + 1) * 2 ^ n) by (pose proof (Z.div_mod mx (2 ^ n)); pose proof (Z.mod_pos_bound mx (2 ^ n)); lia).
  assert (Hk52 : 2 ^ 52 ≤ k) by (rewrite Z.pow_add_r in Hm by lia; apply Z.div_le_lower_bound; lia).
  assert (HP : (pw (ex + n) == inject_Z (2 ^ n) * pw ex)%Q) by (rewrite pw_add, (pw_Z n) by done; ring).
  assert (Hr' : (value_of m e == inject_Z r * pw (ex + n))%Q).
  { unfold value_of. destruct Hv as [[<- ->]|[<- ->]]; [done|]. rewrite pw_add, inject_Z_mult. change (pw 1) with 2%Q. change (inject_Z 2) with 2%Q. ring. }
  pose proof (pw_pos ex) as Hpe.
  apply (close_of 0 (inject_Z k) v (pw (ex + n))); [apply pw_pos|by rewrite <- Zle_Qle| | |].
  - rewrite HP, Qmult_assoc, <- inject_Z_mult. eapply Qle_trans; [|exact Hl]. apply Qmult_le_compat_r; [rewrite <- Zle_Qle; lia|lra].
  - change 1%Q with (inject_Z 1). rewrite HP, <- inject_Z_plus, Qmult_assoc, <- inject_Z_mult. eapply Qle_trans; [exact Hu|].
    apply Qmult_le_compat_r; [rewrite <- Zle_Qle; lia|lra].
  - rewrite Hr'. destruct Hr as [-> | ->]; [by left|right]. by rewrite inject_Z_plus.
Qed.

Lemma mul_close m1 e1 m2 e2 :
  normal m1 e1 → normal m2 e2 → -900 ≤ e1 + e2 ≤ 800 →
  ∃ m e, num_mul (S754_finite false m1 e1) (S754_finite false m2 e2) = S754_finite false m e ∧ normal m e
         ∧ e1 + e2 + 52 ≤ e ≤ e1 + e2 + 54 ∧ close (value_of m1 e1 * value_of m2 e2) (value_of m e).
Proof.
  intros [H1 _] [H2 _] He. unfold num_mul, SFmul. cbn [xorb].
  assert (Hn : ∃ n, 52 ≤ n ≤ 53 ∧ 2 ^ (52 + n) ≤ Zpos (m1 * m2) < 2 ^ (53 + n)).
  { rewrite Pos2Z.inj_mul. destruct (Z_lt_ge_dec (Zpos m1 * Zpos m2) (2 ^ 105)); [exists 52|exists 53]; (split; [lia|]); [|change (52 + 53) with 105]; nia. }
  destruct Hn as (n & Hn & Hm).
  destruct (round_close (Zpos (m1 * m2)) (e1 + e2) loc_Exact n (value_of m1 e1 * value_of m2 e2)) as (m & e & E & Hnm & Hee & Hc); [done|lia|lia| | |].
  - unfold value_of. rewrite Pos2Z.inj_mul, inject_Z_mult, pw_add. lra.
  - unfold value_of. rewrite inject_Z_plus, Pos2Z.inj_mul, inject_Z_mult, pw_add. pose proof (pw_pos e1). pose proof (pw_pos e2).
    assert (0 < pw e1 * pw e2)%Q by by apply Qmult_lt_0_compat. change (inject_Z 1) with 1%Q. lra.
  - exists m, e. do 2 (split; [done|]). split; [lia|done].
Qed.

Lemma div_close m1 e1 m2 e2 :
  normal m1 e1 → normal m2 e2 → -800 ≤ e1 - e2 ≤ 800 →
  ∃ m e, num_div (S754_finite false m1 e1) (S754_finite false m2 e2) = S754_finite false m e ∧ normal m e
         ∧ e1 - e2 - 53 ≤ e ≤ e1 - e2 - 51 ∧ close (value_of m1 e1 / value_of m2 e2) (value_of m e).
Proof.
  intros [H1 _] [H2 _] He. unfold num_div, SFdiv, SFdiv_core_binary. cbn [xorb Zdigits2].
  rewrite (digits2_unique m1 53), (digits2_unique m2 53) by lia. rewrite fexp_normal by lia.
  replace (Z.min (53 + e1 - (53 + e2) - 53) (e1 - e2)) with (e1 - e2 - 53) by lia.
  replace (e1 - e2 - (e1 - e2 - 53)) with 53 by lia. cbv zeta. cbn iota. rewrite Z.shiftl_mul_pow2 by lia.
  pose proof (Z_div_mod (Zpos m1 * 2 ^ 53) (Zpos m2) eq_refl) as Hd. destruct (Z.div_eucl _ _) as [q r]. destruct Hd as [Hd Hr].
  assert (Hn : ∃ n, 0 ≤ n ≤ 1 ∧ 2 ^ (52 + n) ≤ q < 2 ^ (53 + n)).
  { destruct (Z_lt_ge_dec q (2 ^ 53)); [exists 0|exists 1]; (split; [lia|]); change (52 + 1) with 53; change (53 + 1) with 54; nia. }
  destruct Hn as (n & Hn & Hq).
  assert (Hm2 : (0 < value_of m2 e2)%Q) by (apply Qmult_lt_0_compat; [by rewrite <- (Zlt_Qlt 0)|apply pw_pos]).
  assert (Hv : (value_of m1 e1 == inject_Z (Zpos m1 * 2 ^ 53) * pw (e1 - e2 - 53) * pw e2)%Q).
  { unfold value_of. rewrite inject_Z_mult, <- (pw_Z 53) by lia. replace e1 with (53 + (e1 - e2 - 53 + e2)) at 1 by lia. rewrite !pw_add. ring. }
  pose proof (pw_pos e2) as P2. pose proof (pw_pos (e1 - e2 - 53)) as P1.
  assert (Hb : ∀ x, (inject_Z x * pw (e1 - e2 - 53) * value_of m2 e2 == inject_Z (x * Zpos m2) * pw (e1 - e2 - 53) * pw e2)%Q).
  { intros x. unfold value_of. rewrite inject_Z_mult. ring. }
  destruct (round_close q (e1 - e2 - 53) (new_location (Zpos m2) r) n (value_of m1 e1 / value_of m2 e2)) as (m & e & E & Hnm & Hee & Hc); [done|lia|lia| | |].
  - apply Qle_shift_div_l; [done|]. rewrite Hb, Hv. apply Qmult_le_compat_r; [|lra]. apply Qmult_le_compat_r; [|lra].
    rewrite <- Zle_Qle. lia.
  - apply Qle_shift_div_r; [done|]. rewrite Hb, Hv. apply Qmult_le_compat_r; [|lra]. apply Qmult_le_compat_r; [|lra].
    rewrite <- Zle_Qle. lia.
  - exists m, e. do 2 (split; [done|]). split; [lia|done].
Qed.

(** *** Integers *)

Lemma shl_pos p k : Zpos (Pos.iter xO p k) = Zpos p * 2 ^ Zpos k.
Proof.
  induction k as [|k IH] using Pos.peano_ind; [cbn; lia|]. rewrite Pos.iter_succ, Pos2Z.inj_succ, Z.pow_succ_r by lia.
  rewrite Pos2Z.inj_xO, IH. lia.
Qed.

Lemma num_of_Z_normal q : 0 < q < 2 ^ 53 →
  ∃ m e, num_of_Z q = S754_finite false m e ∧ normal m e ∧ -52 ≤ e ≤ 0 ∧ (value_of m e == inject_Z q)%Q.
Proof.
  intros Hq. destruct q as [|p|p]; [lia| |lia]. unfold num_of_Z. cbn [Z.ltb Z.compare Z.abs_N num_of_decimal Z.leb].
  rewrite Z.mul_1_r. unfold binary_round. pose proof (digits2_bounds p) as Hb. set (d := Zpos (digits2_pos p)) in *.
  assert (Hd : 0 < d ≤ 53) by (split; [lia|]; assert (d - 1 < 53) by (apply (Z.pow_lt_mono_r_iff 2); lia); lia).
  rewrite fexp_normal, Z.add_0_r by lia.
  assert (Hs : ∃ m, shl_align p 0 (d - 53) = (m, d - 53) ∧ Zpos m = Zpos p * 2 ^ (53 - d)).
  { unfold shl_align. rewrite Z.sub_0_r. destruct (d - 53) as [|x|x] eqn:E; [|lia|].
    - exists p. replace (53 - d) with 0 by lia. split; [done|lia].
    - eexists. split; [done|]. rewrite shl_pos. f_equal. f_equal. lia. }
  destruct Hs as (m & -> & Hm).
  assert (Hr : 2 ^ 52 ≤ Zpos m < 2 ^ 53).
  { assert (E1 : 2 ^ 52 = 2 ^ (d - 1) * 2 ^ (53 - d)) by (rewrite <- Z.pow_add_r by lia; f_equal; lia).
    assert (E2 : 2 ^ 53 = 2 ^ d * 2 ^ (53 - d)) by (rewrite <- Z.pow_add_r by lia; f_equal; lia).
    rewrite Hm, E1, E2. assert (0 < 2 ^ (53 - d)) by (apply Z.pow_pos_nonneg; lia).
    split; [apply Z.mul_le_mono_nonneg_r; lia|apply Z.mul_lt_mono_pos_r; lia]. }
  destruct (round_cases (Zpos m) (d - 53) loc_Exact 0) as (m' & e & E & Hn & r & _ & Hx & Hv); [by rewrite !Z.add_0_r|lia|lia|].
  rewrite (Hx eq_refl eq_refl) in Hv. destruct Hv as [[[= ->] ->]|[Hv _]]; [|destruct Hn; lia].
  exists m, (d - 53 + 0). split; [done|]. split; [done|]. split; [lia|]. unfold value_of. rewrite Hm, inject_Z_mult, <- (pw_Z (53 - d)) by lia.
  rewrite <- Qmult_assoc, <- pw_add. replace (53 - d + (d - 53 + 0)) with 0 by lia. change (pw 0) with 1%Q. ring.
Qed.

(** Rounding to the nearest integer. *)
Lemma math_round_near m e q :
  normal m e → 0 < q ≤ 2 ^ 48 → (inject_Z q - (1 # 2) < value_of m e)%Q → (value_of m e < inject_Z q + (1 # 2))%Q →
  math_round (S754_finite false m e) = num_of_Z q.
Proof.
  intros [Hm He] Hq Hl Hu. unfold math_round.
  assert (Hneg : e < 0).
  { destruct (Z_lt_ge_dec e 0) as [|Hge]; [done|]. exfalso. unfold value_of in Hu. rewrite pw_Z, <- inject_Z_mult in Hu by lia.
    assert (0 < 2 ^ e) by (apply Z.pow_pos_nonneg; lia).
    assert (Hz : (inject_Z (q + 1) <= inject_Z (Zpos m * 2 ^ e))%Q) by (rewrite <- Zle_Qle; nia).
    rewrite inject_Z_plus in Hz. change (inject_Z 1) with 1%Q in Hz. lra. }
  rewrite (proj2 (Z.leb_gt _ _)) by lia. cbv zeta. set (D := 2 ^ (- e)). assert (HD : 0 < D) by (apply Z.pow_pos_nonneg; lia).
  assert (Hp : (pw e * inject_Z D == 1)%Q).
  { unfold D. rewrite <- pw_Z, <- pw_add by lia. replace (e + - e) with 0 by lia. done. }
  assert (HDq : (0 < inject_Z D)%Q) by by rewrite <- (Zlt_Qlt 0).
  assert (Hv : (value_of m e * inject_Z D == inject_Z (Zpos m))%Q) by (unfold value_of; rewrite <- Qmult_assoc, Hp; ring).
  assert (H1 : 2 * q * D < 2 * Zpos m + D).
  { rewrite Zlt_Qlt, inject_Z_plus, !inject_Z_mult, <- Hv. change (inject_Z 2) with 2%Q. nra. }
  assert (H2 : 2 * Zpos m < 2 * q * D + D).
  { rewrite Zlt_Qlt, inject_Z_plus, !inject_Z_mult, <- Hv. change (inject_Z 2) with 2%Q. nra. }
  assert ((2 * Zpos m + D) / 2 ^ (1 - e) = q) as ->.
  { symmetry. replace (1 - e) with (1 + - e) by lia. rewrite Z.pow_add_r by lia. fold D. change (2 ^ 1) with 2.
    apply (Z.div_unique _ _ _ (2 * Zpos m + D - 2 * D * q)); lia. }
  by rewrite (proj2 (Z.eqb_neq q 0)) by lia.
Qed.

(** *** There and back *)

Lemma scale (x y c : Q) : (x <= y)%Q → (0 < c)%Q → (x * c <= y * c)%Q.
Proof. intros Hxy Hc. apply Qmult_le_compat_r; [done|lra]. Qed.

Lemma close_there_back (q u r x1 x2 x3 x4 : Q) :
  (0 < q)%Q → (0 < u)%Q → (0 < r)%Q → close (q / u) x1 → close (x1 * r) x2 → close (x2 / r) x3 → close (x3 * u) x4 →
  ((1 - ulp) * (1 - ulp) * (1 - ulp) * (1 - ulp) * q <= x4)%Q ∧ (x4 <= (1 + ulp) * (1 + ulp) * (1 + ulp) * (1 + ulp) * q)%Q.
Proof.
  intros Hq Hu Hr [A1 B1] [A2 B2] [A3 B3] [A4 B4].
  assert (Hru : (0 < r * u)%Q) by by apply Qmult_lt_0_compat.
  set (a := (1 - ulp)%Q) in *. set (b := (1 + ulp)%Q) in *.
  assert (Ha : (0 < a)%Q) by done. assert (Hb : (0 < b)%Q) by done. clearbody a b.
  assert (Hdu : (q / u * u == q)%Q) by (field; lra). assert (Hdr : (x2 / r * r == x2)%Q) by (field; lra).
  set (y1 := (q / u)%Q) in *. set (y3 := (x2 / r)%Q) in *. clearbody y1 y3. split.
  - assert (G : (a * a * a * a * q * r <= x4 * r)%Q); [|by apply Qmult_le_r in G].
    assert (C1 : (a * q <= x1 * u)%Q) by (apply (scale _ _ u) in A1; [|done]; rewrite <- Hdu; lra).
    assert (C2 : (a * a * q * r <= x2 * u)%Q) by (apply (scale _ _ u) in A2; [|done]; apply (scale _ _ (a * r)) in C1; [lra|by apply Qmult_lt_0_compat]).
    assert (C3 : (a * a * a * q * r <= x3 * r * u)%Q).
    { apply (scale _ _ (r * u)) in A3; [|done]. apply (scale _ _ a) in C2; [|done]. rewrite <- Hdr in C2. lra. }
    apply (scale _ _ r) in A4; [|done]. apply (scale _ _ a) in C3; [lra|done].
  - assert (G : (x4 * r <= b * b * b * b * q * r)%Q); [|by apply Qmult_le_r in G].
    assert (C1 : (x1 * u <= b * q)%Q) by (apply (scale _ _ u) in B1; [|done]; rewrite <- Hdu; lra).
    assert (C2 : (x2 * u <= b * b * q * r)%Q) by (apply (scale _ _ u) in B2; [|done]; apply (scale _ _ (b * r)) in C1; [lra|by apply Qmult_lt_0_compat]).
    assert (C3 : (x3 * r * u <= b * b * b * q * r)%Q).
    { apply (scale _ _ (r * u)) in B3; [|done]. apply (scale _ _ b) in C2; [|done]. rewrite <- Hdr in C2. lra. }
    apply (scale _ _ r) in B4; [|done]. apply (scale _ _ b) in C3; [lra|done].
Qed.

(** A positive number whose exponent is far from the bounds. *)
Definition moderate (x : jsnum) : Prop := ∃ m e, x = S754_finite false m e ∧ normal m e ∧ -150 ≤ e ≤ 50.

Lemma there_and_back q u r : 0 < q ≤ 2 ^ 48 → moderate u → moderate r →
  ∃ m e, num_mul (num_div (num_of_Z q) u) r = S754_finite false m e
         ∧ math_round (num_mul (num_div (S754_finite false m e) r) u) = num_of_Z q.
Proof.
  intros Hq (mu & eu & -> & Hu & Hue) (mr & er & -> & Hr & Hre).
  destruct (num_of_Z_normal q) as (mq & eq & Eq & Hnq & Heq & Hvq); [lia|].
  destruct (div_close mq eq mu eu) as (m1 & e1 & E1 & H1 & He1 & C1); [done|done|lia|].
  destruct (mul_close m1 e1 mr er) as (m2 & e2 & E2 & H2 & He2 & C2); [done|done|lia|].
  destruct (div_close m2 e2 mr er) as (m3 & e3 & E3 & H3 & He3 & C3); [done|done|lia|].
  destruct (mul_close m3 e3 mu eu) as (m4 & e4 & E4 & H4 & He4 & C4); [done|done|lia|].
  exists m2, e2. rewrite Eq, E1, E2, E3, E4. split; [done|]. rewrite <- Eq. setoid_rewrite Hvq in C1.
  assert (Hpos : ∀ m e, (0 < value_of m e)%Q) by (intros; apply Qmult_lt_0_compat; [by rewrite <- (Zlt_Qlt 0)|apply pw_pos]).
  assert (Hqq : (0 < inject_Z q)%Q) by (rewrite <- (Zlt_Qlt 0); lia).
  assert (Hq48 : (inject_Z q <= inject_Z (2 ^ 48))%Q) by (rewrite <- Zle_Qle; lia). change (inject_Z (2 ^ 48)) with (281474976710656 # 1)%Q in Hq48.
  destruct (close_there_back (inject_Z q) (value_of mu eu) (value_of mr er) _ _ _ _ Hqq (Hpos _ _) (Hpos _ _) C1 C2 C3 C4) as [L U].
  assert (La : (1 - 5 * ulp <= (1 - ulp) * (1 - ulp) * (1 - ulp) * (1 - ulp))%Q) by done.
  assert (Ua : ((1 + ulp) * (1 + ulp) * (1 + ulp) * (1 + ulp) <= 1 + 5 * ulp)%Q) by done.
  apply (scale _ _ (inject_Z q)) in La; [|done]. apply (scale _ _ (inject_Z q)) in Ua; [|done].
  unfold ulp in *. change (2 ^ 52)%positive with 4503599627370496%positive in *.
  apply math_round_near; [done|lia|lra|lra].
Qed.

Lemma math_round_integer q : 0 ≤ q ≤ 2 ^ 48 → math_round (num_of_Z q) = num_of_Z q.
Proof.
  intros Hq. destruct (decide (q = 0)) as [->|]; [done|]. destruct (num_of_Z_normal q) as (m & e & E & Hn & _ & Hv); [lia|].
  rewrite E at 1. apply math_round_near; [done|lia|rewrite Hv; lra|rewrite Hv; lra].
Qed.
End Rounding.
