(* ===== verification/BillingExpr.v ===== *)
(** * Billing expressions: request rules

    Model of [web/default/src/features/pricing/lib/billing-expr.ts]: the
    variable registry, the request-rule printer used by the pricing editor,
    the parser that reads the rules back, and the split of a stored billing
    expression into its base and its rules. *)

From Stdlib Require Import String.
From S2P Require Import JsRegex JsJson.

(** ** Variable registry *)

Inductive BillingSide := SideInput | SideOutput | SideCondition.

Record BillingVar := {
  bv_key : jstr;
  bv_field : option jstr;
  bv_tierField : option jstr;
  bv_label : jstr;
  bv_shortLabel : jstr;
  bv_side : BillingSide;
  bv_isBase : bool;
  bv_isConditionOnly : bool;
  bv_group : option jstr;
}.

Definition billing_var (k f tf l sl : string) (side : BillingSide) (base : bool)
    (grp : option string) : BillingVar :=
  {| bv_key := js k; bv_field := Some (js f); bv_tierField := Some (js tf);
     bv_label := js l; bv_shortLabel := js sl; bv_side := side; bv_isBase := base;
     bv_isConditionOnly := false; bv_group := js <$> grp |}.

Definition BILLING_VARS : list BillingVar :=
  [ billing_var "p" "inputPrice" "input_unit_cost" "Input price" "Input" SideInput true None;
    billing_var "c" "outputPrice" "output_unit_cost" "Completion price" "Output"
      SideOutput true None;
    {| bv_key := js "len"; bv_field := None; bv_tierField := None;
       bv_label := js "Input length"; bv_shortLabel := js "Length";
       bv_side := SideCondition; bv_isBase := false; bv_isConditionOnly := true;
       bv_group := None |};
    billing_var "cr" "cacheReadPrice" "cache_read_unit_cost" "Cache read price" "Cache Read"
      SideInput false (Some "cache"%string);
    billing_var "cc" "cacheCreatePrice" "cache_create_unit_cost" "Cache create price"
      "Cache Write" SideInput false (Some "cache"%string);
    billing_var "cc1h" "cacheCreate1hPrice" "cache_create_1h_unit_cost"
      "Cache create (1h) price" "Cache Write (1h)" SideInput false (Some "cache"%string);
    billing_var "img" "imagePrice" "image_unit_cost" "Image input price" "Image In"
      SideInput false (Some "media"%string);
    billing_var "img_o" "imageOutputPrice" "image_output_unit_cost" "Image output price"
      "Image Out" SideOutput false (Some "media"%string);
    billing_var "ai" "audioInputPrice" "audio_input_unit_cost" "Audio input price" "Audio In"
      SideInput false (Some "media"%string);
    billing_var "ao" "audioOutputPrice" "audio_output_unit_cost" "Audio output price"
      "Audio Out" SideOutput false (Some "media"%string) ].

(** Variables with a price field, and the ones valid in tier conditions. *)
Definition BILLING_PRICING_VARS : list BillingVar :=
  filterb (λ v, negb (bv_isConditionOnly v)) BILLING_VARS.

Definition BILLING_CONDITION_VARS : list jstr :=
  map bv_key (filterb (λ v, bv_isBase v || bv_isConditionOnly v) BILLING_VARS).

Definition BILLING_EXTRA_VARS : list BillingVar :=
  filterb (λ v, negb (bv_isBase v) && negb (bv_isConditionOnly v)) BILLING_VARS.

Definition BILLING_CACHE_VAR_MAP : list (jstr * jstr) :=
  map (λ v, (default [] (bv_tierField v), bv_key v)) BILLING_EXTRA_VARS.

(** ** Request rules: constants and data *)

Definition MATCH_EQ := js "eq".
Definition MATCH_CONTAINS := js "contains".
Definition MATCH_GT := js "gt".
Definition MATCH_GTE := js "gte".
Definition MATCH_LT := js "lt".
Definition MATCH_LTE := js "lte".
Definition MATCH_EXISTS := js "exists".
Definition MATCH_RANGE := js "range".

Inductive TimeFunc := TF_hour | TF_minute | TF_weekday | TF_month | TF_day.

Definition TIME_FUNCS : list TimeFunc := [TF_hour; TF_minute; TF_weekday; TF_month; TF_day].

Definition time_func_name (f : TimeFunc) : jstr :=
  match f with
  | TF_hour => js "hour"
  | TF_minute => js "minute"
  | TF_weekday => js "weekday"
  | TF_month => js "month"
  | TF_day => js "day"
  end.

(** The member of [TIME_FUNCS] a string names. *)
Definition isTimeFunc (s : jstr) : option TimeFunc :=
  List.find (λ f, bool_decide (time_func_name f = s)) TIME_FUNCS.

Inductive PHSource := SOURCE_PARAM | SOURCE_HEADER.

Record ParamHeaderCondition := {
  ph_source : PHSource;
  ph_path : jstr;
  ph_mode : jstr;
  ph_value : jstr;
}.

Record TimeCondition := {
  tc_timeFunc : TimeFunc;
  tc_timezone : jstr;
  tc_mode : jstr;
  tc_value : jstr;
  tc_rangeStart : jstr;
  tc_rangeEnd : jstr;
}.

Inductive RequestCondition :=
| TimeCond (c : TimeCondition)
| PHCond (c : ParamHeaderCondition).

Record RequestRuleGroup := {
  rg_conditions : list RequestCondition;
  rg_multiplier : jstr;
}.

#[export] Instance TimeFunc_eq_dec : EqDecision TimeFunc.
Proof. solve_decision. Defined.
#[export] Instance PHSource_eq_dec : EqDecision PHSource.
Proof. solve_decision. Defined.
#[export] Instance ParamHeaderCondition_eq_dec : EqDecision ParamHeaderCondition.
Proof. solve_decision. Defined.
#[export] Instance TimeCondition_eq_dec : EqDecision TimeCondition.
Proof. solve_decision. Defined.
#[export] Instance RequestCondition_eq_dec : EqDecision RequestCondition.
Proof. solve_decision. Defined.
#[export] Instance RequestRuleGroup_eq_dec : EqDecision RequestRuleGroup.
Proof. solve_decision. Defined.

(** ** Patterns *)

(** [\d.eE+-] *)
Definition num_class (c : Z) : bool :=
  is_digit c || (c =? 46) || (c =? 101) || (c =? 69) || (c =? 43) || (c =? 45).

Definition is_e (c : Z) : bool := (c =? 101) || (c =? 69).
Definition is_sign (c : Z) : bool := (c =? 43) || (c =? 45).

Definition NUMERIC_LITERAL_REGEX : re :=
  RBol ⋅ ropt (lit "-")
  ⋅ ((rplus is_digit ⋅ ropt (lit ".") ⋅ rstar is_digit) ⊕ (lit "." ⋅ rplus is_digit))
  ⋅ ropt (RChar is_e ⋅ ropt (RChar is_sign) ⋅ rplus is_digit)
  ⋅ REol.

Definition is_numeric_literal (s : jstr) : bool := re_test NUMERIC_LITERAL_REGEX s.

(** A quoted argument of one or more code units other than the quote,
    captured as group [i], then [r]. *)
Definition quoted_arg (i : nat) (r : re) : re :=
  rlits [c_quote] ⋅ RGroup i (rplus not_quote) ⋅ rlits [c_quote] ⋅ r.

Definition time_funcs_re : re :=
  lit "hour" ⊕ lit "minute" ⊕ lit "weekday" ⊕ lit "month" ⊕ lit "day".

(** The overnight range: the time function is at least [a], or below [b]. *)
Definition time_range_re (tail : re) : re :=
  RGroup 1 time_funcs_re ⋅ lit "(" ⋅ quoted_arg 2
    (lit ") >= " ⋅ RGroup 3 (rplus num_class) ⋅ lit " || "
     ⋅ RBackref 1 ⋅ lit "(" ⋅ rlits [c_quote] ⋅ RBackref 2 ⋅ rlits [c_quote] ⋅ lit ") < "
     ⋅ RGroup 4 (rplus num_class) ⋅ tail).

Definition TIME_RANGE_RE : re := RBol ⋅ time_range_re REol.
Definition TIME_RANGE_PAREN_RE : re := RBol ⋅ lit "(" ⋅ time_range_re (lit ")" ⋅ REol).

Definition TIME_CMP_RE : re :=
  RBol ⋅ RGroup 1 time_funcs_re ⋅ lit "(" ⋅ quoted_arg 2
    (lit ") " ⋅ RGroup 3 (lit "==" ⊕ lit ">=" ⊕ lit "<") ⋅ lit " "
     ⋅ RGroup 4 (rplus num_class) ⋅ REol).

Definition HEADER_EXISTS_RE : re :=
  RBol ⋅ lit "header(" ⋅ quoted_arg 1 (lit ") != " ⋅ rlits [c_quote; c_quote] ⋅ REol).

Definition PARAM_EXISTS_RE : re :=
  RBol ⋅ lit "param(" ⋅ quoted_arg 1 (lit ") != nil" ⋅ REol).

(** A string literal by its delimiters: between quotes, code units other than
    quote and backslash, or a backslash and any code unit but a line end. *)
Definition str_plain (c : Z) : bool := negb (c =? c_quote) && negb (c =? c_backslash).
Definition str_token : re := RChar str_plain ⊕ (RChar (is_chr c_backslash) ⋅ RChar not_line_end).
Definition string_literal_re (i : nat) : re :=
  RGroup i (rlits [c_quote] ⋅ RStar true str_token ⋅ rlits [c_quote]).

Definition HEADER_CONTAINS_RE : re :=
  RBol ⋅ lit "has(header(" ⋅ quoted_arg 1 (lit "), " ⋅ string_literal_re 2 ⋅ lit ")" ⋅ REol).

Definition PARAM_CONTAINS_RE : re :=
  RBol ⋅ lit "param(" ⋅ quoted_arg 1
    (lit ") != nil && has(param(" ⋅ quoted_arg 2
      (lit "), " ⋅ string_literal_re 3 ⋅ lit ")" ⋅ REol)).

Definition PARAM_CMP_RE : re :=
  RBol ⋅ lit "param(" ⋅ quoted_arg 1
    (lit ") != nil && param(" ⋅ quoted_arg 2
      (lit ") " ⋅ RGroup 3 (lit ">" ⊕ lit ">=" ⊕ lit "<" ⊕ lit "<=") ⋅ lit " "
       ⋅ RGroup 4 (rplus num_class) ⋅ REol)).

Definition EQ_RE : re :=
  RBol ⋅ RGroup 1 (lit "param" ⊕ lit "header") ⋅ lit "(" ⋅ quoted_arg 2
    (lit ") == " ⋅ RGroup 3 (rplus not_line_end) ⋅ REol).

(** [(cond ? multiplier : 1)], where [.] also matches line terminators *)
Definition RULE_FACTOR_RE : re :=
  RBol ⋅ lit "(" ⋅ RGroup 1 (rplus any_char) ⋅ lit " ? "
  ⋅ RGroup 2 (rplus num_class) ⋅ lit " : 1)" ⋅ REol.

(** The text of capture [i] of a successful match. *)
Definition group (i : nat) (cs : caps) : jstr := default [] (cap i cs).

(** ** Splitting at the top level *)

Definition depth_step (d c : Z) : Z :=
  let d := if c =? c_lpar then d + 1 else d in
  if c =? c_rpar then d - 1 else d.

(** The scanning loop of both splitters: [cur] is the reversed text since
    [start], [skip] the code units of a separator still to step over. *)
Fixpoint split_top_loop (sep : jstr) (s : jstr) (d : Z) (cur : jstr) (skip : nat) : list jstr :=
  match s with
  | [] => [trim (rev cur)]
  | c :: s' =>
      match skip with
      | S k => split_top_loop sep s' d cur k
      | O =>
          let d' := depth_step d c in
          if (d' =? 0) && starts_with sep s
          then trim (rev cur) :: split_top_loop sep s' d' [] (length sep - 1)
          else split_top_loop sep s' d' (c :: cur) 0
      end
  end.

Definition splitTopLevelMultiply (expr : jstr) : list jstr :=
  filterb nonempty (split_top_loop (js " * ") expr 0 [] 0).

Definition splitTopLevelAnd (expr : jstr) : list jstr :=
  filterb nonempty (split_top_loop (js " && ") expr 0 [] 0).

(** ** The request-rule parser *)

(** [None] is the [null] the callers test for. *)
Definition parseExprLiteral (raw : jstr) : option json :=
  let text := trim raw in
  if bool_decide (text = js "true") || bool_decide (text = js "false") then Some (JStr text)
  else if is_numeric_literal text then Some (JStr text)
  else match json_parse text with
       | Some JNull => None
       | r => r
       end.

Definition time_func_of (cs : caps) : TimeFunc := default TF_hour (isTimeFunc (group 1 cs)).

Definition tryParseTimeCondition (expr : jstr) : option TimeCondition :=
  let range cs :=
    {| tc_timeFunc := time_func_of cs; tc_timezone := group 2 cs; tc_mode := MATCH_RANGE;
       tc_value := []; tc_rangeStart := group 3 cs; tc_rangeEnd := group 4 cs |} in
  match match_caps TIME_RANGE_RE expr with
  | Some cs => Some (range cs)
  | None =>
  match match_caps TIME_RANGE_PAREN_RE expr with
  | Some cs => Some (range cs)
  | None =>
  match match_caps TIME_CMP_RE expr with
  | Some cs =>
      let op := group 3 cs in
      let mode := if bool_decide (op = js "==") then MATCH_EQ
                  else if bool_decide (op = js ">=") then MATCH_GTE
                  else if bool_decide (op = js "<") then MATCH_LT
                  else MATCH_EQ in
      Some {| tc_timeFunc := time_func_of cs; tc_timezone := group 2 cs; tc_mode := mode;
              tc_value := group 4 cs; tc_rangeStart := []; tc_rangeEnd := [] |}
  | None => None
  end end end.

(** [JSON.parse] of a matched literal throws on an invalid escape. *)
Definition parse_literal (w : jstr) : outcome jstr :=
  string_of_json <$> throw_if_none (json_parse w).

Definition ph (src : PHSource) (path mode value : jstr) : RequestCondition :=
  PHCond {| ph_source := src; ph_path := path; ph_mode := mode; ph_value := value |}.

Definition tryParseRequestCondition (expr : jstr) : outcome (option RequestCondition) :=
  match tryParseTimeCondition expr with
  | Some tc => Ret (Some (TimeCond tc))
  | None =>
  match match_caps HEADER_EXISTS_RE expr with
  | Some cs => Ret (Some (ph SOURCE_HEADER (group 1 cs) MATCH_EXISTS []))
  | None =>
  match match_caps PARAM_EXISTS_RE expr with
  | Some cs => Ret (Some (ph SOURCE_PARAM (group 1 cs) MATCH_EXISTS []))
  | None =>
  match match_caps HEADER_CONTAINS_RE expr with
  | Some cs =>
      v ← parse_literal (group 2 cs);
      Ret (Some (ph SOURCE_HEADER (group 1 cs) MATCH_CONTAINS v))
  | None =>
  match (cs ← match_caps PARAM_CONTAINS_RE expr;
         if bool_decide (group 1 cs = group 2 cs) then Some cs else None) with
  | Some cs =>
      v ← parse_literal (group 3 cs);
      Ret (Some (ph SOURCE_PARAM (group 1 cs) MATCH_CONTAINS v))
  | None =>
  match (cs ← match_caps PARAM_CMP_RE expr;
         if bool_decide (group 1 cs = group 2 cs) then Some cs else None) with
  | Some cs =>
      let op := group 3 cs in
      let mode := if bool_decide (op = js ">") then MATCH_GT
                  else if bool_decide (op = js ">=") then MATCH_GTE
                  else if bool_decide (op = js "<") then MATCH_LT
                  else MATCH_LTE in
      Ret (Some (ph SOURCE_PARAM (group 1 cs) mode (group 4 cs)))
  | None =>
  match match_caps EQ_RE expr with
  | Some cs =>
      let src := if bool_decide (group 1 cs = js "header") then SOURCE_HEADER
                 else SOURCE_PARAM in
      match parseExprLiteral (group 3 cs) with
      | None => Ret None
      | Some v => Ret (Some (ph src (group 2 cs) MATCH_EQ (string_of_json v)))
      end
  | None => Ret None
  end end end end end end end.

Definition tryParseRuleGroupFactor (part : jstr) : outcome (option RequestRuleGroup) :=
  match match_caps RULE_FACTOR_RE part with
  | None => Ret None
  | Some cs =>
      let conditionStr := group 1 cs in
      let multiplier := group 2 cs in
      r ← traverse_o (λ ap, tryParseRequestCondition (trim ap)) (splitTopLevelAnd conditionStr);
      Ret (match r with
           | Some ((_ :: _) as conditions) =>
               Some {| rg_conditions := conditions; rg_multiplier := multiplier |}
           | _ => None
           end)
  end.

Definition tryParseRequestRuleExpr (expr : jstr) : outcome (option (list RequestRuleGroup)) :=
  let trimmed := trim expr in
  if nonempty trimmed
  then traverse_o tryParseRuleGroupFactor (splitTopLevelMultiply trimmed)
  else Ret (Some []).

(** ** Splitting a stored expression into base and rules *)

Fixpoint full_parens_loop (s : jstr) (d : Z) : bool :=
  match s with
  | [] => d =? 0
  | c :: s' =>
      let d' := depth_step d c in
      if (d' =? 0) && nonempty s' then false else full_parens_loop s' d'
  end.

Definition hasFullOuterParens (expr : jstr) : bool :=
  if negb (starts_with (js "(") expr) || negb (ends_with (js ")") expr) then false
  else full_parens_loop expr 0.

(** [s.slice(1, -1)] *)
Definition slice_1_m1 (s : jstr) : jstr := slice 1 (length s - 1) s.

(** The [while] loop; each round drops two code units, so the length bounds it. *)
Fixpoint unwrap_loop (fuel : nat) (current : jstr) : jstr :=
  match fuel with
  | O => current
  | S f =>
      if hasFullOuterParens current then unwrap_loop f (trim (slice_1_m1 current)) else current
  end.

Definition unwrapOuterParens (expr : jstr) : jstr :=
  unwrap_loop (length (trim expr)) (trim expr).

Record SplitExpr := { billingExpr : jstr; requestRuleExpr : jstr }.

(** The [forEach] that sorts the factors into rules and bases. *)
Fixpoint sort_parts (parts : list jstr) : outcome (list jstr * list jstr) :=
  match parts with
  | [] => Ret ([], [])
  | part :: parts' =>
      parsed ← tryParseRequestRuleExpr part;
      '(rules, bases) ← sort_parts parts';
      Ret (match parsed with
           | Some (_ :: _) => (part :: rules, bases)
           | _ => (rules, part :: bases)
           end)
  end.

Definition splitBillingExprAndRequestRules (expr : jstr) : outcome SplitExpr :=
  let trimmed := trim expr in
  let whole := {| billingExpr := trimmed; requestRuleExpr := [] |} in
  if nonempty trimmed then
    let parts := splitTopLevelMultiply trimmed in
    if (length parts <=? 1)%nat then Ret whole
    else
      '(ruleParts, baseParts) ← sort_parts parts;
      Ret (match ruleParts, baseParts with
           | _ :: _, [base] =>
               {| billingExpr := unwrapOuterParens base;
                  requestRuleExpr := join (js " * ") ruleParts |}
           | _, _ => whole
           end)
  else Ret {| billingExpr := []; requestRuleExpr := [] |}.

Definition combineBillingExpr (baseExpr ruleExpr : jstr) : jstr :=
  let base := trim baseExpr in
  let rules := trim ruleExpr in
  if negb (nonempty base) then []
  else if negb (nonempty rules) then base
  else js "(" ++ base ++ js ") * " ++ rules.

(** ** Editor: empty conditions, match options, normalization *)

Definition createEmptyCondition : ParamHeaderCondition :=
  {| ph_source := SOURCE_PARAM; ph_path := []; ph_mode := MATCH_EQ; ph_value := [] |}.

Definition createEmptyTimeCondition : TimeCondition :=
  {| tc_timeFunc := TF_hour; tc_timezone := js "Asia/Shanghai"; tc_mode := MATCH_GTE;
     tc_value := []; tc_rangeStart := []; tc_rangeEnd := [] |}.

Definition createEmptyRuleGroup : RequestRuleGroup :=
  {| rg_conditions := [PHCond createEmptyCondition]; rg_multiplier := [] |}.

Definition createEmptyTimeRuleGroup : RequestRuleGroup :=
  {| rg_conditions := [TimeCond createEmptyTimeCondition]; rg_multiplier := [] |}.

Record MatchOption := { mo_value : jstr; mo_labelKey : jstr }.

Definition mopt (v : jstr) (l : string) : MatchOption := {| mo_value := v; mo_labelKey := js l |}.

Definition getRequestRuleMatchOptions (source : jstr) : list MatchOption :=
  if bool_decide (source = js "time") then
    [mopt MATCH_EQ "Equals"; mopt MATCH_GTE "Greater than or equal";
     mopt MATCH_LT "Less than"; mopt MATCH_RANGE "Overnight range"]
  else
    let base := [mopt MATCH_EQ "Equals"; mopt MATCH_CONTAINS "Contains";
                 mopt MATCH_EXISTS "Exists"] in
    if bool_decide (source = js "header") then base
    else base ++ [mopt MATCH_GT "Greater than"; mopt MATCH_GTE "Greater than or equal";
                  mopt MATCH_LT "Less than"; mopt MATCH_LTE "Less than or equal"].

(** [Partial<RequestCondition> | null | undefined]: a missing field, and every
    field of a missing condition, is [None]. *)
Record PartialCondition := {
  pc_source : option jstr;
  pc_timeFunc : option jstr;
  pc_timezone : option jstr;
  pc_path : option jstr;
  pc_mode : option jstr;
  pc_value : option jstr;
  pc_rangeStart : option jstr;
  pc_rangeEnd : option jstr;
}.

(** [o || fallback] on an optional string *)
Definition or_string (o : option jstr) (fallback : jstr) : jstr :=
  match o with Some ((_ :: _) as s) => s | _ => fallback end.

(** [options.some(item => item.value === mode) ? mode : fallback] *)
Definition mode_or (options : list MatchOption) (mode : option jstr) (fallback : jstr) : jstr :=
  match mode with
  | Some m => if existsb (λ o, bool_decide (mo_value o = m)) options then m else fallback
  | None => fallback
  end.

Definition source_name (src : PHSource) : jstr :=
  match src with SOURCE_PARAM => js "param" | SOURCE_HEADER => js "header" end.

Definition normalizeCondition (cond : PartialCondition) : RequestCondition :=
  if bool_decide (pc_source cond = Some (js "time")) then
    TimeCond
      {| tc_timeFunc := default TF_hour (s ← pc_timeFunc cond; isTimeFunc s);
         tc_timezone := or_string (pc_timezone cond) (js "Asia/Shanghai");
         tc_mode := mode_or (getRequestRuleMatchOptions (js "time")) (pc_mode cond) MATCH_GTE;
         tc_value := default [] (pc_value cond);
         tc_rangeStart := default [] (pc_rangeStart cond);
         tc_rangeEnd := default [] (pc_rangeEnd cond) |}
  else
    let source := if bool_decide (pc_source cond = Some (js "header")) then SOURCE_HEADER
                  else SOURCE_PARAM in
    PHCond
      {| ph_source := source;
         ph_path := default [] (pc_path cond);
         ph_mode := mode_or (getRequestRuleMatchOptions (source_name source)) (pc_mode cond)
                      MATCH_EQ;
         ph_value := default [] (pc_value cond) |}.

(** A typed condition seen as the argument of [normalizeCondition]. *)
Definition partial_of (c : RequestCondition) : PartialCondition :=
  match c with
  | TimeCond t =>
      {| pc_source := Some (js "time"); pc_timeFunc := Some (time_func_name (tc_timeFunc t));
         pc_timezone := Some (tc_timezone t); pc_path := None; pc_mode := Some (tc_mode t);
         pc_value := Some (tc_value t); pc_rangeStart := Some (tc_rangeStart t);
         pc_rangeEnd := Some (tc_rangeEnd t) |}
  | PHCond h =>
      {| pc_source := Some (source_name (ph_source h)); pc_timeFunc := None;
         pc_timezone := None; pc_path := Some (ph_path h); pc_mode := Some (ph_mode h);
         pc_value := Some (ph_value h); pc_rangeStart := None; pc_rangeEnd := None |}
  end.

(** ** Editor: building expression text *)

Definition buildExprLiteral (mode value : jstr) : jstr :=
  let text := trim value in
  if bool_decide (mode = MATCH_CONTAINS) then json_quote text
  else if bool_decide (text = js "true") || bool_decide (text = js "false") then text
  else if is_numeric_literal text then text
  else json_quote text.

Definition buildTimeConditionExpr (cond : TimeCondition) : jstr :=
  match normalizeCondition (partial_of (TimeCond cond)) with
  | PHCond _ => []
  | TimeCond n =>
      let fn := time_func_name (tc_timeFunc n) ++ js "(" ++ json_quote (tc_timezone n) ++ js ")" in
      if bool_decide (tc_mode n = MATCH_RANGE) then
        let s := trim (tc_rangeStart n) in
        let e := trim (tc_rangeEnd n) in
        if negb (is_numeric_literal s) || negb (is_numeric_literal e) then []
        else fn ++ js " >= " ++ s ++ js " || " ++ fn ++ js " < " ++ e
      else
        let v := trim (tc_value n) in
        if negb (is_numeric_literal v) then []
        else
          let op := if bool_decide (tc_mode n = MATCH_GTE) then js ">="
                    else if bool_decide (tc_mode n = MATCH_LT) then js "<"
                    else js "==" in
          fn ++ js " " ++ op ++ js " " ++ v
  end.

Definition cmp_op (mode : jstr) : option jstr :=
  if bool_decide (mode = MATCH_GT) then Some (js ">")
  else if bool_decide (mode = MATCH_GTE) then Some (js ">=")
  else if bool_decide (mode = MATCH_LT) then Some (js "<")
  else if bool_decide (mode = MATCH_LTE) then Some (js "<=")
  else None.

Definition buildRequestConditionExpr (cond : RequestCondition) : jstr :=
  match cond with
  | TimeCond t => buildTimeConditionExpr t
  | PHCond h =>
      match normalizeCondition (partial_of (PHCond h)) with
      | TimeCond _ => []
      | PHCond n =>
          let path := trim (ph_path n) in
          if negb (nonempty path) then []
          else
            let sourceExpr := source_name (ph_source n) ++ js "(" ++ json_quote path ++ js ")" in
            let literal := buildExprLiteral (ph_mode n) (ph_value n) in
            if bool_decide (ph_mode n = MATCH_EXISTS) then
              match ph_source n with
              | SOURCE_HEADER => sourceExpr ++ js " != " ++ [c_quote; c_quote]
              | SOURCE_PARAM => sourceExpr ++ js " != nil"
              end
            else if bool_decide (ph_mode n = MATCH_CONTAINS) then
              match ph_source n with
              | SOURCE_HEADER => js "has(" ++ sourceExpr ++ js ", " ++ literal ++ js ")"
              | SOURCE_PARAM =>
                  sourceExpr ++ js " != nil && has(" ++ sourceExpr ++ js ", " ++ literal ++ js ")"
              end
            else match cmp_op (ph_mode n) with
                 | Some op =>
                     let numText := trim (ph_value n) in
                     if negb (is_numeric_literal numText) then []
                     else sourceExpr ++ js " != nil && " ++ sourceExpr ++ js " " ++ op
                          ++ js " " ++ numText
                 | None => sourceExpr ++ js " == " ++ literal
                 end
      end
  end.

Definition wrap_or (e : jstr) : jstr :=
  if includes (js " || ") e then js "(" ++ e ++ js ")" else e.

Definition buildRuleGroupFactor (group : RequestRuleGroup) : jstr :=
  let multiplier := trim (rg_multiplier group) in
  if negb (is_numeric_literal multiplier) then []
  else
    let condExprs := filterb nonempty (map buildRequestConditionExpr (rg_conditions group)) in
    match condExprs with
    | [] => []
    | _ =>
        let combined := match condExprs with
                        | [e] => e
                        | _ => join (js " && ") (map wrap_or condExprs)
                        end in
        js "(" ++ combined ++ js " ? " ++ multiplier ++ js " : 1)"
    end.

Definition buildRequestRuleExpr (groups : list RequestRuleGroup) : jstr :=
  join (js " * ") (filterb nonempty (map buildRuleGroupFactor groups)).

(** ** Evaluations *)

Definition sample_groups : list RequestRuleGroup :=
  [ {| rg_conditions :=
         [ TimeCond {| tc_timeFunc := TF_hour; tc_timezone := js "Asia/Shanghai";
                       tc_mode := MATCH_RANGE; tc_value := []; tc_rangeStart := js "22";
                       tc_rangeEnd := js "6" |};
           ph SOURCE_HEADER (js "X-Plan") MATCH_CONTAINS (js "pro") ];
       rg_multiplier := js "0.5" |};
    {| rg_conditions :=
         [ ph SOURCE_PARAM (js "service_tier") MATCH_EQ (js "flex") ];
       rg_multiplier := js "2" |} ].

Definition unq (s : string) : jstr := map (λ c, if c =? 39 then c_quote else c) (js s).

Example build_sample :
  buildRequestRuleExpr sample_groups =
  unq ("((hour('Asia/Shanghai') >= 22 || hour('Asia/Shanghai') < 6) && "
       ++ "has(header('X-Plan'), 'pro') ? 0.5 : 1) * (param('service_tier') == 'flex' ? 2 : 1)").
Proof. by_eval. Qed.

Example parse_sample :
  tryParseRequestRuleExpr (buildRequestRuleExpr sample_groups) = Ret (Some sample_groups).
Proof. by_eval. Qed.

Example split_sample :
  splitBillingExprAndRequestRules
    (combineBillingExpr (unq "tier('base', p * 1 + c * 2)") (buildRequestRuleExpr sample_groups)) =
  Ret {| billingExpr := unq "tier('base', p * 1 + c * 2)";
         requestRuleExpr := buildRequestRuleExpr sample_groups |}.
Proof. by_eval. Qed.

Example parse_throws :
  tryParseRequestRuleExpr (unq "(has(header('X'), '\x') ? 2 : 1)") = Throw.
Proof. by_eval. Qed.

Example parse_param_contains :
  tryParseRequestRuleExpr (buildRequestRuleExpr
    [{| rg_conditions := [ph SOURCE_PARAM (js "model") MATCH_CONTAINS (js "pro")];
        rg_multiplier := js "2" |}]) = Ret None.
Proof. by_eval. Qed.
