(* ===== verification/BillingExprFacts.v ===== *)
(** * Billing expressions: the rules read back

    Lemmas and properties of [BillingExpr]: what the printer writes the parser
    reads back, for every rule group in canonical form; a stored expression
    splits into the base and the rules it was combined from; and the cases in
    which this fails. *)

From Stdlib Require Import String.
From S2P Require Import JsRegex JsJson BillingExpr.

(** Replace closed literals by their code units. *)
Ltac lits :=
  repeat match goal with
  | |- context [js ?s] => let v := eval vm_compute in (js s) in change (js s) with v
  end.

(** ** Nesting depth *)

Definition depth_from (d : Z) (s : jstr) : Z := foldl depth_step d s.

Definition no_paren (c : Z) : bool := negb (c =? c_lpar) && negb (c =? c_rpar).

(** Parentheses are matched: the depth ends at zero and is never negative. *)
Definition balanced (s : jstr) : Prop :=
  depth_from 0 s = 0 ∧ ∀ u v, s = u ++ v → 0 ≤ depth_from 0 u.

Lemma depth_step_shift d c : depth_step d c = d + depth_step 0 c.
Proof. unfold depth_step. destruct (c =? c_lpar), (c =? c_rpar); lia. Qed.

Lemma depth_from_shift d s : depth_from d s = d + depth_from 0 s.
Proof.
  unfold depth_from. revert d; induction s as [|c s IH]; intros d; simpl; [lia|].
  rewrite (IH (depth_step d c)), (IH (depth_step 0 c)), (depth_step_shift d). lia.
Qed.

Lemma depth_from_app d s t : depth_from d (s ++ t) = depth_from (depth_from d s) t.
Proof. unfold depth_from. by rewrite foldl_app. Qed.

Lemma balanced_nil : balanced [].
Proof. split; [done|]. intros u v Huv. symmetry in Huv. by apply app_eq_nil in Huv as [-> _]. Qed.

Lemma depth_no_paren d s : forallb no_paren s = true → depth_from d s = d.
Proof.
  unfold depth_from. revert d; induction s as [|c s IH]; intros d; simpl; [done|].
  unfold no_paren at 1. intros H. apply andb_true_iff in H as [Hc Hs]. reflect_bools.
  rewrite IH by done. unfold depth_step.
  by rewrite (proj2 (Z.eqb_neq c c_lpar)), (proj2 (Z.eqb_neq c c_rpar)).
Qed.

Lemma balanced_no_paren s : forallb no_paren s = true → balanced s.
Proof.
  intros Hs. split; [by apply depth_no_paren|]. intros u v ->.
  rewrite forallb_app in Hs. apply andb_true_iff in Hs as [Hu _].
  by rewrite depth_no_paren.
Qed.

Lemma balanced_app s t : balanced s → balanced t → balanced (s ++ t).
Proof.
  intros [Ds Ps] [Dt Pt]. split; [by rewrite depth_from_app, Ds|]. intros u v Huv.
  apply app_eq_inv in Huv as [(k & -> & ->)|(k & -> & ->)].
  - eapply Ps. done.
  - rewrite depth_from_app, Ds. eapply Pt. done.
Qed.

Lemma balanced_paren s : balanced s → balanced (c_lpar :: s ++ [c_rpar]).
Proof.
  intros [Ds Ps]. unfold balanced.
  assert (Hd : ∀ u, depth_from 0 (c_lpar :: u) = 1 + depth_from 0 u)
    by (intros u; exact (depth_from_shift 1 u)).
  split; [by rewrite Hd, depth_from_app, Ds|]. intros [|c u] v Huv; [done|].
  injection Huv as <- Huv. rewrite Hd.
  apply app_eq_inv in Huv as [(k & -> & Hk)|(k & -> & Hk)].
  - specialize (Ps u k eq_refl). lia.
  - rewrite depth_from_app, Ds. destruct k as [|c k]; simpl; [lia|].
    injection Hk as <- Hk. symmetry in Hk. apply app_eq_nil in Hk as [-> ->]. done.
Qed.

(** The executable test. *)
Fixpoint balanced_from (d : Z) (s : jstr) : bool :=
  match s with
  | [] => d =? 0
  | c :: s' => (0 <=? depth_step d c) && balanced_from (depth_step d c) s'
  end.

Definition balancedb (s : jstr) : bool := balanced_from 0 s.

Lemma balanced_from_sound d s :
  balanced_from d s = true →
  depth_from d s = 0 ∧ ∀ u v, s = u ++ v → u ≠ [] → 0 ≤ depth_from d u.
Proof.
  revert d; induction s as [|c s IH]; intros d; simpl; intros H; reflect_bools.
  - split; [done|]. intros u v Huv Hu. symmetry in Huv. by apply app_eq_nil in Huv as [-> _].
  - destruct (IH _ H0) as [Hd Hp]. split; [done|]. intros [|c' u] v Huv Hu; [done|].
    injection Huv as <- Huv. destruct u as [|c2 u]; [done|]. by apply (Hp (c2 :: u) v).
Qed.

Lemma balancedb_sound s : balancedb s = true → balanced s.
Proof.
  intros [Hd Hp]%balanced_from_sound. split; [done|]. intros [|c u] v Huv; [done|].
  by apply (Hp (c :: u) v).
Qed.

#[local] Hint Resolve balanced_nil balanced_app balanced_paren balanced_no_paren : starnexus.

(** ** The top-level scan *)

(** No separator starts at depth zero inside [s]. *)
Definition no_hit (sep : jstr) (d : Z) (s t : jstr) : Prop :=
  ∀ u c v, s = u ++ c :: v → depth_from d (u ++ [c]) = 0 → starts_with sep (c :: v ++ t) = false.

Lemma split_scan sep s t d cur :
  no_hit sep d s t →
  split_top_loop sep (s ++ t) d cur 0 = split_top_loop sep t (depth_from d s) (rev s ++ cur) 0.
Proof.
  revert d cur; induction s as [|c s IH]; intros d cur Hno; [done|].
  cbn [app split_top_loop].
  assert (((depth_step d c =? 0) && starts_with sep (c :: s ++ t))%bool = false) as ->.
  { destruct (Z.eqb_spec (depth_step d c) 0) as [Hd|]; [|done]. simpl.
    apply (Hno [] c s); done. }
  rewrite IH.
  - simpl. by rewrite <- app_assoc.
  - intros u c' v -> Hd. apply (Hno (c :: u) c' v); done.
Qed.

Lemma split_skip sep s t d cur n :
  length s = n → split_top_loop sep (s ++ t) d cur n = split_top_loop sep t d cur 0.
Proof. revert n; induction s as [|c s IH]; intros [|n]; simpl; intros; try lia; auto. Qed.

(** A separator found at depth zero ends the current part. *)
Lemma split_at_sep c0 sep' t cur :
  no_paren c0 = true →
  split_top_loop (c0 :: sep') (c0 :: sep' ++ t) 0 cur 0 =
  trim (rev cur) :: split_top_loop (c0 :: sep') t 0 [] 0.
Proof.
  intros Hc. cbn [split_top_loop].
  assert (depth_step 0 c0 = 0) as ->.
  { unfold no_paren in Hc. reflect_bools. unfold depth_step.
    by rewrite (proj2 (Z.eqb_neq c0 c_lpar)), (proj2 (Z.eqb_neq c0 c_rpar)). }
  rewrite (proj2 (starts_with_true _ _)) by (by exists t). simpl.
  by rewrite Nat.sub_0_r, split_skip.
Qed.

(** Parts between which a separator starts with a space and whose own text
    has no hit are what the scan returns. *)
Lemma split_parts c0 sep' parts :
  no_paren c0 = true → parts ≠ [] →
  Forall (λ s, trim s = s ∧ depth_from 0 s = 0 ∧ ∀ t, no_hit (c0 :: sep') 0 s
               (match t with None => [] | Some t => c0 :: sep' ++ t end)) parts →
  split_top_loop (c0 :: sep') (join (c0 :: sep') parts) 0 [] 0 = parts.
Proof.
  intros Hc Hne Hp. induction Hp as [|s parts (Ht & Hd & Hno) Hp IH]; [done|].
  destruct parts as [|s2 parts].
  - simpl. rewrite <- (app_nil_r s) at 1. rewrite split_scan by apply (Hno None).
    simpl. by rewrite app_nil_r, rev_involutive, Ht.
  - change (join (c0 :: sep') (s :: s2 :: parts)) with
      (s ++ c0 :: sep' ++ join (c0 :: sep') (s2 :: parts)).
    rewrite split_scan by apply (Hno (Some _)).
    rewrite Hd, app_nil_r, split_at_sep by done.
    rewrite rev_involutive, Ht. f_equal. by apply IH.
Qed.

(** ** Factors: no multiplication sign at the top level *)

Lemma no_hit_paren sep' s t :
  balanced s → no_hit (32 :: sep') 0 (c_lpar :: s ++ [c_rpar]) t.
Proof.
  intros [Ds Ps] u c v Huv Hd. destruct u as [|c1 u]; [by injection Huv as <- _|].
  injection Huv as <- Huv.
  change (depth_from 0 ((c_lpar :: u) ++ [c])) with (depth_from 1 (u ++ [c])) in Hd.
  rewrite depth_from_shift in Hd.
  destruct (decide (c = c_rpar)) as [->|Hc]; [done|].
  assert (∃ w, s = (u ++ [c]) ++ w) as (w & Hw).
  { induction v as [|e v _] using rev_ind.
    - apply app_inj_tail in Huv as [_ He]. by destruct Hc.
    - exists v. rewrite <- app_assoc. simpl.
      assert (Huv' : s ++ [c_rpar] = (u ++ c :: v) ++ [e]) by (by rewrite Huv, <- app_assoc).
      by apply app_inj_tail in Huv' as [-> _]. }
  specialize (Ps _ _ Hw). lia.
Qed.

(** ** Conjuncts: text without an ampersand has no top-level conjunction *)

Lemma no_hit_no_amp s d t :
  38 ∉ s → (t = [] ∨ ∃ t', t = 32 :: t') → no_hit (js " && ") d s t.
Proof.
  intros Hn Ht u c v -> _. unfold starts_with. lits. cbn [strip_prefix].
  destruct (32 =? c) eqn:?; [|done].
  assert (Hv : v = [] ∨ ∃ e v', v = e :: v' ∧ e ≠ 38).
  { destruct v as [|e v']; [by left|right]. exists e, v'. split; [done|]. set_solver. }
  destruct Hv as [->|(e & v' & -> & He)].
  - destruct Ht as [->|[t' ->]]; done.
  - cbn [app strip_prefix]. by rewrite (proj2 (Z.eqb_neq 38 e)) by congruence.
Qed.

(** ** Numeric literals *)

Lemma num_class_over : re_over num_class
  (ropt (lit "-")
   ⋅ ((rplus is_digit ⋅ ropt (lit ".") ⋅ rstar is_digit) ⊕ (lit "." ⋅ rplus is_digit))
   ⋅ ropt (RChar is_e ⋅ ropt (RChar is_sign) ⋅ rplus is_digit)).
Proof.
  unfold lit. lits. cbn [ropt rplus rstar rlits re_over]. unfold num_class, is_e, is_sign, is_chr.
  split_and!; try done; intros c Hc; rewrite ?orb_true_iff in *; intuition auto;
    apply Z.eqb_eq in Hc; subst; simpl; auto.
Qed.

Lemma numeric_literal_class s :
  is_numeric_literal s = true → s ≠ [] ∧ Forall (λ c, num_class c = true) s.
Proof.
  intros Hs. split; [by intros ->; vm_compute in Hs|].
  unfold is_numeric_literal, NUMERIC_LITERAL_REGEX in Hs. rewrite re_test_bol in Hs.
  destruct (rmatch _ _ _) eqn:Hm; [|done].
  eapply (rmatch_over_eol num_class); [exact num_class_over|exact Hm].
Qed.

Lemma num_class_facts c :
  num_class c = true →
  is_ws c = false ∧ no_paren c = true ∧ c ≠ 38 ∧ c ≠ 124 ∧ c ≠ 32 ∧ c ≠ c_quote.
Proof.
  unfold num_class, no_paren, is_digit, c_lpar, c_rpar, c_quote. intros H.
  rewrite !orb_true_iff, andb_true_iff, !Z.leb_le, !Z.eqb_eq in H.
  assert (c = 43 ∨ c = 45 ∨ c = 46 ∨ (48 ≤ c ≤ 57) ∨ c = 69 ∨ c = 101) as Hc by lia.
  split_and!; try lia.
  destruct Hc as [->|[->|[->|[Hd|[->| ->]]]]]; try done.
  apply is_digit_not_ws. unfold is_digit. lia.
Qed.

Lemma edge_of_Forall (P : Z → Prop) s :
  Forall P s → (∀ c, P c → is_ws c = false) → no_edge_ws s.
Proof.
  intros Hs HP. split; intros c Hc; apply HP.
  - destruct s; [done|]. injection Hc as ->. by inversion Hs.
  - apply last_Some in Hc as [s' ->]. apply Forall_app in Hs as [_ Hs]. by inversion Hs.
Qed.

Lemma numeric_trim s : is_numeric_literal s = true → trim s = s.
Proof.
  intros [_ Hs]%numeric_literal_class. apply trim_no_edge.
  eapply edge_of_Forall; [exact Hs|]. intros c Hc. by apply num_class_facts.
Qed.

(** ** Text that may appear between quotes *)

(** Not a parenthesis, an ampersand or a bar, on which the scans act. *)
Definition inert (c : Z) : bool := no_paren c && negb (c =? 38) && negb (c =? 124).

(** A path or time zone that is quoted without escapes. *)
Definition name_ok (s : jstr) : bool :=
  nonempty s && forallb (λ c, plain_unit c && inert c) s.

(** A compared value: any UTF-16 text without scan characters and without the
    line separators that the pattern for [==] does not cross. *)
Definition value_unit (c : Z) : bool :=
  (0 <=? c) && (c <? 65536) && inert c && negb (c =? 8232) && negb (c =? 8233).

Definition value_ok (s : jstr) : bool := forallb value_unit s && bool_decide (trim s = s).

Lemma name_ok_facts s :
  name_ok s = true →
  s ≠ [] ∧ (c_quote ∉ s) ∧ json_quote s = c_quote :: s ++ [c_quote] ∧
  forallb inert s = true.
Proof.
  unfold name_ok. intros H. apply andb_true_iff in H as [Hne Hs].
  apply nonempty_true in Hne. rewrite forallb_forall in Hs.
  assert (forallb plain_unit s = true) as Hp.
  { apply forallb_forall. intros c Hc. apply Hs in Hc. by apply andb_true_iff in Hc as [? ?]. }
  split_and!; [done| |by apply json_quote_plain|].
  - intros Hq. rewrite list_elem_of_In in Hq. rewrite forallb_forall in Hp.
    apply Hp in Hq. done.
  - apply forallb_forall. intros c Hc. apply Hs in Hc. by apply andb_true_iff in Hc as [? ?].
Qed.

Lemma inert_facts s :
  forallb inert s = true → forallb no_paren s = true ∧ (38 ∉ s) ∧ (124 ∉ s).
Proof.
  intros Hs. rewrite forallb_forall in Hs. unfold inert in Hs. split_and!.
  - apply forallb_forall. intros c Hc. apply Hs in Hc. by reflect_bools.
  - intros Hc. rewrite list_elem_of_In in Hc. by apply Hs in Hc.
  - intros Hc. rewrite list_elem_of_In in Hc. by apply Hs in Hc.
Qed.

Lemma numeric_inert s : is_numeric_literal s = true → forallb inert s = true.
Proof.
  intros [_ Hs]%numeric_literal_class. apply forallb_forall. intros c Hc.
  rewrite Forall_forall in Hs. specialize (Hs c). rewrite list_elem_of_In in Hs.
  destruct (num_class_facts c (Hs Hc)) as (_ & Hp & H38 & H124 & _).
  unfold inert. rewrite Hp. simpl. lia.
Qed.

(** Escaping keeps text inert. *)
Lemma hex_char_inert d : 0 ≤ d < 16 → inert (hex_char d) = true.
Proof.
  intros Hd. unfold hex_char, inert, no_paren, c_lpar, c_rpar.
  destruct (Z.ltb_spec d 10);
    lia.
Qed.

Lemma u_escape_inert c : code_unit c → forallb inert (u_escape c) = true.
Proof.
  intros [H0 H1]. unfold u_escape. cbn [forallb].
  rewrite !hex_char_inert; [done|..];
    try (apply Z.mod_pos_bound; lia); split; [apply Z.div_pos|apply Z.div_lt_upper_bound]; lia.
Qed.

Lemma escape_unit_inert c :
  code_unit c → inert c = true → forallb inert (escape_unit c) = true.
Proof.
  intros Hc Hi. unfold escape_unit.
  repeat match goal with |- context [if c =? ?n then _ else _] => destruct (c =? n); [done|] end.
  destruct (c <? 32); [by apply u_escape_inert|]. simpl. by rewrite Hi.
Qed.

(** The shape of an escaped text, as the literal pattern reads it. *)
Inductive escaped : jstr → Prop :=
| esc_nil : escaped []
| esc_plain c t : str_plain c = true → escaped t → escaped (c :: t)
| esc_pair e t : not_line_end e = true → escaped t → escaped (c_backslash :: e :: t).

Lemma escaped_app s t : escaped s → escaped t → escaped (s ++ t).
Proof. induction 1; simpl; auto using escaped. Qed.

Lemma str_plain_ge c : 35 ≤ c → c ≠ 92 → str_plain c = true.
Proof.
  intros H1 H2. unfold str_plain, c_quote, c_backslash. lia.
Qed.

Lemma hex_char_range d : 0 ≤ d < 16 → 48 ≤ hex_char d ≤ 102 ∧ hex_char d ≠ 92.
Proof. intros Hd. unfold hex_char. destruct (Z.ltb_spec d 10); lia. Qed.

Lemma escaped_u c : code_unit c → escaped (u_escape c).
Proof.
  intros [H0 H1]. unfold u_escape. apply esc_pair; [done|].
  repeat apply esc_plain; try constructor; apply str_plain_ge;
    match goal with |- context [hex_char ?d] =>
      assert (0 ≤ d < 16) as Hd by (first [apply Z.mod_pos_bound; lia
        |split; [apply Z.div_pos|apply Z.div_lt_upper_bound]; lia]);
      pose proof (hex_char_range d Hd); lia
    end.
Qed.

Lemma escaped_unit c : code_unit c → escaped (escape_unit c).
Proof.
  intros Hc. unfold escape_unit.
  repeat match goal with |- context [if c =? ?n then _ else _] =>
    destruct (Z.eqb_spec c n); [by repeat constructor|] end.
  destruct (Z.ltb_spec c 32); [by apply escaped_u|].
  apply esc_plain; [|constructor]. unfold str_plain, c_quote, c_backslash. lia.
Qed.

(** A property of escaped text that holds of each piece of it. *)
Lemma escape_ind (P : jstr → Prop) (Q : Z → Prop) s :
  P [] → (∀ u v, P u → P v → P (u ++ v)) →
  (∀ c, Q c → P (u_escape c)) → (∀ c, Q c → P (escape_unit c)) →
  (∀ c, Q c → 256 ≤ c → P [c]) →
  Forall Q s → P (escape s).
Proof.
  intros P0 Papp Pu Pe Pc Hs. remember (length s) as n eqn:Hn.
  revert s Hs Hn; induction n as [n IH] using lt_wf_ind; intros s Hs Hn.
  destruct s as [|c s]; [done|]. inversion_clear Hs as [|? ? Hc Hs']. cbn [escape].
  assert (Ptail : P (escape s)) by (eapply IH; [|done|reflexivity]; simpl in Hn; lia).
  destruct (is_high c) eqn:Hhi; [destruct s as [|d s]; [auto|]; destruct (is_low d) eqn:Hlo|].
  - inversion_clear Hs' as [|? ? Hd Hs'']. unfold is_high in Hhi. unfold is_low in Hlo.
    reflect_bools. apply (Papp [c]); [apply Pc; [done|lia]|].
    apply (Papp [d]); [apply Pc; [done|lia]|].
    eapply IH; [|done|reflexivity]. simpl in Hn; lia.
  - auto.
  - destruct (is_low c); auto.
Qed.

Lemma escape_escaped s : Forall code_unit s → escaped (escape s).
Proof.
  apply escape_ind; auto using esc_nil, escaped_app, escaped_u, escaped_unit.
  intros c _ Hc. apply esc_plain; [apply str_plain_ge; lia|constructor].
Qed.

Lemma u_escape_lines c : code_unit c → Forall (λ c, not_line_end c = true) (u_escape c).
Proof.
  intros [H0 H1]. unfold u_escape. repeat constructor; unfold not_line_end, is_line_end;
    match goal with |- context [hex_char ?d] =>
      assert (0 ≤ d < 16) as Hd by (first [apply Z.mod_pos_bound; lia
        |split; [apply Z.div_pos|apply Z.div_lt_upper_bound]; lia]);
      pose proof (hex_char_range d Hd); lia
    end.
Qed.

Lemma escape_unit_lines c :
  code_unit c → c ≠ 8232 ∧ c ≠ 8233 → Forall (λ c, not_line_end c = true) (escape_unit c).
Proof.
  intros Hc Hl. unfold escape_unit.
  repeat match goal with |- context [if c =? ?n then _ else _] =>
    destruct (Z.eqb_spec c n); [by repeat constructor|] end.
  destruct (Z.ltb_spec c 32); [by apply u_escape_lines|].
  repeat constructor. unfold not_line_end, is_line_end. lia.
Qed.

Lemma value_ok_facts v :
  value_ok v = true →
  Forall code_unit v ∧ trim v = v ∧ forallb inert (escape v) = true ∧
  Forall (λ c, not_line_end c = true) (escape v).
Proof.
  unfold value_ok. intros H. apply andb_true_iff in H as [Hv Ht]. reflect_bools.
  assert (Hq : Forall (λ c, value_unit c = true) v)
    by (apply Forall_forall; intros c Hc; rewrite forallb_forall in Hv; apply Hv;
        by rewrite <- list_elem_of_In).
  assert (Hcu : ∀ c, value_unit c = true → code_unit c)
    by (unfold value_unit, code_unit; intros c Hc; reflect_bools; lia).
  split_and!; [by eapply Forall_impl|done| |].
  - apply (escape_ind (λ s, forallb inert s = true) (λ c, value_unit c = true)); auto.
    + intros u w Hu Hw. by rewrite forallb_app, Hu, Hw.
    + intros c Hc. by apply u_escape_inert, Hcu.
    + intros c Hc. apply escape_unit_inert; [by apply Hcu|].
      unfold value_unit in Hc. by reflect_bools.
    + intros c Hc _. unfold value_unit in Hc. reflect_bools. simpl.
      match goal with H : inert _ = true |- _ => by rewrite H end.
  - apply (escape_ind (Forall (λ c, not_line_end c = true)) (λ c, value_unit c = true)); auto.
    + intros u w Hu Hw. by apply Forall_app.
    + intros c Hc. by apply u_escape_lines, Hcu.
    + intros c Hc. apply escape_unit_lines; [by apply Hcu|].
      unfold value_unit, not_line_end, is_line_end in *. lia.
    + intros c Hc Hge. repeat constructor. unfold value_unit, not_line_end, is_line_end in *. lia.
Qed.

(** ** Matching the pieces of a condition *)

Ltac rx_step :=
  repeat (rewrite rmatch_seq || rewrite rmatch_group_alt || rewrite rmatch_group_lit
          || rewrite rmatch_lit);
  lits; cbn [strip_prefix app Z.eqb Pos.eqb or_else];
  rewrite ?or_else_r.

Ltac rx := repeat progress rx_step.

Section pieces.
Context {R : Type}.
Implicit Types k : mstate → option R.

Lemma rmatch_quoted_arg i r k pre p t cs :
  p ≠ [] → c_quote ∉ p →
  rmatch (quoted_arg i r) k (MState pre (c_quote :: p ++ c_quote :: t) cs) =
  rmatch r k (MState (c_quote :: rev p ++ c_quote :: pre) t (cap_add i p cs)).
Proof.
  intros Hne Hq. unfold quoted_arg. rewrite rmatch_seq, rmatch_rlits. cbn [strip_prefix].
  rewrite Z.eqb_refl, rmatch_seq, rmatch_group_plus_det.
  - rewrite rmatch_seq, rmatch_rlits. cbn [strip_prefix]. by rewrite Z.eqb_refl.
  - apply Forall_forall. intros c Hc. unfold not_quote. apply negb_true_iff, Z.eqb_neq.
    by intros ->.
  - done.
  - intros c t' [= <- _]. done.
  - intros pre' cs' c s' Hc. rewrite rmatch_seq, rmatch_rlits. cbn [strip_prefix].
    unfold not_quote in Hc. apply negb_true_iff, Z.eqb_neq in Hc.
    by rewrite (proj2 (Z.eqb_neq c_quote c)).
Qed.

Lemma rmatch_time_name f k pre t cs :
  rmatch (RGroup 1 time_funcs_re) k (MState pre (time_func_name f ++ js "(" ++ t) cs) =
  k (MState (rev (time_func_name f) ++ pre) (js "(" ++ t) (cap_add 1 (time_func_name f) cs)).
Proof. unfold time_funcs_re. destruct f; cbn [time_func_name]; by rx. Qed.

(** The call of a time function with a quoted zone. *)
Definition time_call (f : TimeFunc) (tz t : jstr) : jstr :=
  time_func_name f ++ js "(" ++ c_quote :: tz ++ c_quote :: t.

Lemma rmatch_time_call f tz r k pre t cs :
  name_ok tz = true → ∃ pre',
  rmatch (RGroup 1 time_funcs_re ⋅ lit "(" ⋅ quoted_arg 2 r) k
    (MState pre (time_call f tz t) cs) =
  rmatch r k (MState pre' t (cap_add 2 tz (cap_add 1 (time_func_name f) cs))).
Proof.
  intros (Hne & Hq & _)%name_ok_facts. eexists. unfold time_call.
  rewrite rmatch_seq, rmatch_time_name, rmatch_seq, rmatch_lit_app.
  by rewrite rmatch_quoted_arg.
Qed.

(** A numeric run before text that does not continue it. *)
Lemma rmatch_number i k pre v t cs :
  is_numeric_literal v = true →
  (∀ c t', t = c :: t' → num_class c = false) →
  (∀ pre' cs' c s', num_class c = true → k (MState pre' (c :: s') cs') = None) →
  rmatch (RGroup i (rplus num_class)) k (MState pre (v ++ t) cs) =
  k (MState (rev v ++ pre) t (cap_add i v cs)).
Proof. intros [Hne Hv]%numeric_literal_class Ht Hk. by apply rmatch_group_plus_det. Qed.

(** A numeric run at the end of the text. *)
Lemma rmatch_number_eol i k pre v cs :
  is_numeric_literal v = true →
  rmatch (RGroup i (rplus num_class) ⋅ REol) k (MState pre v cs) =
  k (MState (rev v ++ pre) [] (cap_add i v cs)).
Proof.
  intros Hv. rewrite rmatch_seq. rewrite <- (app_nil_r v) at 1.
  rewrite rmatch_number; [done|done|done|]. intros pre' cs' c s' _. apply rmatch_eol_cons.
Qed.

Lemma rmatch_number_end i k pre v cs :
  is_numeric_literal v = true →
  rmatch (RGroup i (rplus num_class)) (rmatch REol k) (MState pre v cs) =
  k (MState (rev v ++ pre) [] (cap_add i v cs)).
Proof. apply rmatch_number_eol. Qed.

(** A literal that starts outside the numeric class rejects a digit. *)
Lemma rmatch_lit_rejects c0 w r k pre c s cs :
  head (js w) = Some c0 → num_class c0 = false → num_class c = true →
  rmatch (lit w ⋅ r) k (MState pre (c :: s) cs) = None.
Proof.
  intros Hw H0 Hc. rewrite rmatch_seq, rmatch_lit. destruct (js w) as [|d w']; [done|].
  injection Hw as ->. cbn [strip_prefix]. destruct (Z.eqb_spec c0 c) as [->|]; [congruence|done].
Qed.

Lemma rmatch_number_lit i c0 w r k pre v t cs :
  is_numeric_literal v = true → head (js w) = Some c0 → num_class c0 = false →
  rmatch (RGroup i (rplus num_class) ⋅ lit w ⋅ r) k (MState pre (v ++ js w ++ t) cs) =
  rmatch r k (MState (rev (js w) ++ rev v ++ pre) t (cap_add i v cs)).
Proof.
  intros Hv Hw H0. rewrite rmatch_seq, rmatch_number.
  - by rewrite rmatch_seq, rmatch_lit_app.
  - done.
  - intros c t' Ht. destruct (js w); [done|]. injection Hw as ->. by injection Ht as -> _.
  - intros pre' cs' c s' Hc. by eapply rmatch_lit_rejects.
Qed.
End pieces.

(** ** Time conditions *)

Section time.
Context (f : TimeFunc) (tz : jstr) (Htz : name_ok tz = true).

Definition range_text (a b t : jstr) : jstr :=
  time_call f tz (js ") >= " ++ a ++ js " || " ++ time_call f tz (js ") < " ++ b ++ t)).

Definition cmp_text (op v : jstr) : jstr := time_call f tz (js ") " ++ op ++ js " " ++ v).

Definition time_caps : caps := cap_add 2 tz (cap_add 1 (time_func_name f) []).

Lemma rmatch_time_range {R} a b t tail (k : mstate → option R) pre :
  is_numeric_literal a = true → ∃ pre',
  rmatch (time_range_re tail) k (MState pre (range_text a b t) []) =
  rmatch (RGroup 4 (rplus num_class) ⋅ tail) k (MState pre' (b ++ t) (cap_add 3 a time_caps)).
Proof.
  intros Ha. unfold time_range_re, range_text.
  destruct (rmatch_time_call (R := R) f tz
    (lit ") >= " ⋅ RGroup 3 (rplus num_class) ⋅ lit " || "
     ⋅ RBackref 1 ⋅ lit "(" ⋅ rlits [c_quote] ⋅ RBackref 2 ⋅ rlits [c_quote] ⋅ lit ") < "
     ⋅ RGroup 4 (rplus num_class) ⋅ tail) k pre
    (js ") >= " ++ a ++ js " || " ++ time_call f tz (js ") < " ++ b ++ t)) [] Htz) as [pre1 ->].
  rewrite rmatch_seq, rmatch_lit_app, (rmatch_number_lit _ 32) by done.
  unfold time_call. rewrite rmatch_seq, (rmatch_backref 1 (time_func_name f)) by done.
  rewrite rmatch_seq, rmatch_lit_app, rmatch_seq, rmatch_rlits. cbn [strip_prefix].
  rewrite Z.eqb_refl, rmatch_seq, (rmatch_backref 2 tz) by done.
  rewrite rmatch_seq, rmatch_rlits. cbn [strip_prefix].
  rewrite Z.eqb_refl, rmatch_seq, rmatch_lit_app. by eexists.
Qed.

Lemma time_func_of_caps cs : group 1 cs = time_func_name f → time_func_of cs = f.
Proof. intros Hg. unfold time_func_of. rewrite Hg. by destruct f. Qed.

(** A bare time call does not start with a parenthesis. *)
Lemma time_call_no_paren {R} r (k : mstate → option R) pre t cs :
  rmatch (lit "(" ⋅ r) k (MState pre (time_call f tz t) cs) = None.
Proof. unfold time_call. destruct f; cbn [time_func_name]; by rx. Qed.

Lemma parse_range a b :
  is_numeric_literal a = true → is_numeric_literal b = true →
  tryParseTimeCondition (range_text a b []) =
  Some {| tc_timeFunc := f; tc_timezone := tz; tc_mode := MATCH_RANGE; tc_value := [];
          tc_rangeStart := a; tc_rangeEnd := b |}.
Proof.
  intros Ha Hb. unfold tryParseTimeCondition, TIME_RANGE_RE. rewrite match_caps_bol.
  destruct (rmatch_time_range a b [] REol Some [] Ha) as [pre ->].
  rewrite app_nil_r, rmatch_number_eol by done.
  cbn [fmap option_fmap option_map m_caps]. by rewrite time_func_of_caps.
Qed.

Lemma parse_range_paren a b :
  is_numeric_literal a = true → is_numeric_literal b = true →
  tryParseTimeCondition (js "(" ++ range_text a b (js ")")) =
  Some {| tc_timeFunc := f; tc_timezone := tz; tc_mode := MATCH_RANGE; tc_value := [];
          tc_rangeStart := a; tc_rangeEnd := b |}.
Proof.
  intros Ha Hb. unfold tryParseTimeCondition.
  assert (match_caps TIME_RANGE_RE (js "(" ++ range_text a b (js ")")) = None) as ->.
  { unfold TIME_RANGE_RE, time_range_re, time_funcs_re. rewrite match_caps_bol.
    generalize (range_text a b (js ")")) as w. intros w. by rx. }
  unfold TIME_RANGE_PAREN_RE. rewrite match_caps_bol, rmatch_seq, rmatch_lit_app.
  destruct (rmatch_time_range a b (js ")") (lit ")" ⋅ REol) Some (rev (js "(") ++ []) Ha)
    as [pre ->].
  rewrite <- (app_nil_r (js ")")), (rmatch_number_lit _ 41) by done.
  cbn [fmap option_fmap option_map m_caps rmatch m_rest]. by rewrite time_func_of_caps.
Qed.

Lemma parse_cmp op mode v :
  (op, mode) ∈ [(js "==", MATCH_EQ); (js ">=", MATCH_GTE); (js "<", MATCH_LT)] →
  is_numeric_literal v = true →
  tryParseTimeCondition (cmp_text op v) =
  Some {| tc_timeFunc := f; tc_timezone := tz; tc_mode := mode; tc_value := v;
          tc_rangeStart := []; tc_rangeEnd := [] |}.
Proof.
  intros Hop Hv. unfold tryParseTimeCondition, cmp_text.
  assert (match_caps TIME_RANGE_RE (time_call f tz (js ") " ++ op ++ js " " ++ v)) = None) as ->.
  { unfold TIME_RANGE_RE, time_range_re. rewrite match_caps_bol.
    edestruct (rmatch_time_call (R := mstate) f tz) as [pre ->]; [done|].
    rewrite rmatch_seq, rmatch_lit.
    rewrite !elem_of_cons in Hop. destruct Hop as [[= -> ->]|[[= -> ->]|[[= -> ->]|[]%elem_of_nil]]].
    - done.
    - change (js ") " ++ js ">=" ++ js " " ++ v) with (js ") >= " ++ v).
      rewrite strip_prefix_app, rmatch_seq. rewrite <- (app_nil_r v), rmatch_number; [done|done|done|].
      intros pre' cs' c s' Hc. by apply (rmatch_lit_rejects 32).
    - done. }
  assert (match_caps TIME_RANGE_PAREN_RE (time_call f tz (js ") " ++ op ++ js " " ++ v)) = None)
    as ->.
  { unfold TIME_RANGE_PAREN_RE. by rewrite match_caps_bol, time_call_no_paren. }
  unfold TIME_CMP_RE. rewrite match_caps_bol.
  edestruct (rmatch_time_call (R := mstate) f tz) as [pre ->]; [done|].
  rewrite rmatch_seq, rmatch_lit_app, rmatch_seq.
  rewrite !elem_of_cons in Hop. destruct Hop as [[= -> ->]|[[= -> ->]|[[= -> ->]|[]%elem_of_nil]]];
    rx; rewrite rmatch_number_end by done;
    cbn [fmap option_fmap option_map m_caps]; by rewrite time_func_of_caps.
Qed.
End time.

(** ** String literals *)

Section literal.
Context {R : Type} (k : mstate → option R) (cs : caps) (t : jstr) (x : R).

Lemma star_tokens e : escaped e → ∀ fuel pre,
  (length (e ++ c_quote :: t) < fuel)%nat →
  k (MState (rev e ++ pre) (c_quote :: t) cs) = Some x →
  star_loop true
    (λ k' st', rmatch str_token k' (MState (m_pre st') (m_rest st') (drop_caps [] (m_caps st'))))
    k fuel (MState pre (e ++ c_quote :: t) cs) = Some x.
Proof.
  induction 1 as [|c e Hc He IH|c e Hc He IH]; intros [|fuel] pre Hf Hk; simpl in Hf; try lia;
    cbn [star_loop m_rest m_pre m_caps app str_token rmatch]; rewrite drop_caps_nil.
  - exact Hk.
  - rewrite Hc. rewrite (proj2 (Nat.ltb_lt _ _)) by (simpl; lia).
    rewrite IH; [done|lia|]. simpl in Hk. by rewrite <- app_assoc in Hk.
  - change (str_plain c_backslash) with false. change (is_chr c_backslash c_backslash) with true.
    cbn [or_else m_rest m_pre m_caps]. rewrite Hc.
    rewrite (proj2 (Nat.ltb_lt _ _)) by (simpl; lia).
    rewrite IH; [done|lia|]. simpl in Hk. by rewrite <- !app_assoc in Hk.
Qed.
End literal.

Lemma rmatch_string_literal {R} i (k : mstate → option R) pre e t cs x :
  escaped e →
  k (MState (c_quote :: rev e ++ c_quote :: pre) t (cap_add i (c_quote :: e ++ [c_quote]) cs))
    = Some x →
  rmatch (string_literal_re i) k (MState pre (c_quote :: e ++ c_quote :: t) cs) = Some x.
Proof.
  intros He Hk. unfold string_literal_re. cbn [rmatch]. rewrite rmatch_rlits. cbn [strip_prefix].
  rewrite Z.eqb_refl. apply star_tokens; [done|simpl; lia|].
  rewrite rmatch_rlits. cbn [strip_prefix]. rewrite Z.eqb_refl. cbn [m_rest m_pre m_caps rev app].
  pose proof (take_run (c_quote :: e ++ [c_quote]) t) as Ht.
  rewrite <- app_comm_cons, <- app_assoc in Ht. cbn [app] in Ht. rewrite Ht. exact Hk.
Qed.

(** ** Conditions on a parameter or a header *)

Section param_header.
Context (p : jstr) (Hp : name_ok p = true).

(** The access to the parameter or header, before the text [t]. *)
Definition access (src : PHSource) (t : jstr) : jstr :=
  match src with SOURCE_PARAM => js "param(" | SOURCE_HEADER => js "header(" end
  ++ c_quote :: p ++ c_quote :: t.

Lemma rmatch_access {R} w i r (k : mstate → option R) pre t cs :
  rmatch (lit w ⋅ quoted_arg i r) k (MState pre (js w ++ c_quote :: p ++ c_quote :: t) cs) =
  rmatch r k (MState (c_quote :: rev p ++ c_quote :: rev (js w) ++ pre) t (cap_add i p cs)).
Proof.
  destruct (name_ok_facts p Hp) as (Hne & Hq & _).
  by rewrite rmatch_seq, rmatch_lit_app, rmatch_quoted_arg.
Qed.

(** Neither an access nor a [has] call is a time condition. *)
Lemma access_not_time src t : tryParseTimeCondition (access src t) = None.
Proof.
  unfold tryParseTimeCondition, TIME_RANGE_RE, TIME_RANGE_PAREN_RE, TIME_CMP_RE,
    time_range_re, time_funcs_re, access.
  rewrite !match_caps_bol. destruct src; by rx.
Qed.

Lemma has_not_time t : tryParseTimeCondition (js "has(" ++ t) = None.
Proof.
  unfold tryParseTimeCondition, TIME_RANGE_RE, TIME_RANGE_PAREN_RE, TIME_CMP_RE,
    time_range_re, time_funcs_re.
  rewrite !match_caps_bol. by rx.
Qed.

(** A pattern for the other source does not match. *)
Lemma param_re_header {R} r (k : mstate → option R) t :
  rmatch (lit "param(" ⋅ r) k (MState [] (access SOURCE_HEADER t) []) = None.
Proof. unfold access. by rx. Qed.

Lemma header_re_param {R} r (k : mstate → option R) t :
  rmatch (lit "header(" ⋅ r) k (MState [] (access SOURCE_PARAM t) []) = None.
Proof. unfold access. by rx. Qed.

Lemma has_re_access {R} r (k : mstate → option R) src t :
  rmatch (lit "has(header(" ⋅ r) k (MState [] (access src t) []) = None.
Proof. unfold access. destruct src; by rx. Qed.

Lemma parse_exists src :
  tryParseRequestCondition
    (access src (js ") != " ++ match src with SOURCE_HEADER => [c_quote; c_quote]
                               | SOURCE_PARAM => js "nil" end)) =
  Ret (Some (ph src p MATCH_EXISTS [])).
Proof.
  unfold tryParseRequestCondition. rewrite access_not_time.
  unfold HEADER_EXISTS_RE, PARAM_EXISTS_RE. rewrite !match_caps_bol. destruct src.
  - rewrite header_re_param. unfold access. rewrite rmatch_access. by rx.
  - unfold access. rewrite rmatch_access. rx. rewrite rmatch_rlits. done.
Qed.

(** On any other text after the access, the patterns before the equality
    one fail, unless it goes on with a test for [nil]. *)
Lemma access_only_eq src t :
  strip_prefix (js ") != ") t = None →
  tryParseRequestCondition (access src t) =
  match match_caps EQ_RE (access src t) with
  | Some cs =>
      match parseExprLiteral (group 3 cs) with
      | None => Ret None
      | Some v =>
          Ret (Some (ph (if bool_decide (group 1 cs = js "header") then SOURCE_HEADER
                         else SOURCE_PARAM) (group 2 cs) MATCH_EQ (string_of_json v)))
      end
  | None => Ret None
  end.
Proof.
  intros Ht. unfold tryParseRequestCondition. rewrite access_not_time.
  assert (Hnil : ∀ w, strip_prefix (js ") != nil" ++ w) t = None).
  { intros w. destruct (strip_prefix (js ") != nil" ++ w) t) eqn:E; [|done].
    apply strip_prefix_Some in E as ->.
    change (js ") != nil") with (js ") != " ++ js "nil") in Ht.
    by rewrite <- !app_assoc, strip_prefix_app in Ht. }
  pose proof (Hnil []) as H0. pose proof (Hnil (js " && has(param(")) as H1.
  pose proof (Hnil (js " && param(")) as H2.
  unfold HEADER_EXISTS_RE, PARAM_EXISTS_RE, HEADER_CONTAINS_RE, PARAM_CONTAINS_RE, PARAM_CMP_RE.
  rewrite !match_caps_bol, has_re_access. destruct src.
  - rewrite header_re_param. unfold access. rewrite !rmatch_access, !rmatch_seq, !rmatch_lit.
    rewrite app_nil_r in H0. rewrite H0.
    change (js ") != nil && has(param(") with (js ") != nil" ++ js " && has(param("). rewrite H1.
    change (js ") != nil && param(") with (js ") != nil" ++ js " && param("). by rewrite H2.
  - rewrite !param_re_header. unfold access. rewrite !rmatch_access, !rmatch_seq, !rmatch_lit.
    by rewrite Ht.
Qed.

Lemma match_eq src e :
  e ≠ [] → Forall (λ c, not_line_end c = true) e →
  match_caps EQ_RE (access src (js ") == " ++ e)) =
  Some (cap_add 3 e (cap_add 2 p (cap_add 1 (source_name src) []))).
Proof.
  intros Hne He. unfold EQ_RE. rewrite match_caps_bol, rmatch_seq.
  destruct (name_ok_facts p Hp) as (Hpne & Hpq & _).
  assert (Hfin : ∀ pre cs, rmatch (RGroup 3 (rplus not_line_end) ⋅ REol) Some (MState pre e cs)
            = Some (MState (rev e ++ pre) [] (cap_add 3 e cs))).
  { intros pre cs. rewrite rmatch_seq. rewrite <- (app_nil_r e) at 1.
    by rewrite rmatch_group_plus_det. }
  destruct src; unfold access; rx; rewrite rmatch_quoted_arg by done; rx.
  - exact (f_equal (fmap m_caps) (Hfin _ _)).
  - exact (f_equal (fmap m_caps) (Hfin _ _)).
Qed.
End param_header.

(** ** Literals read back *)

Lemma json_quote_no_edge s : no_edge_ws (json_quote s).
Proof. by apply no_edge_ws_app_between. Qed.

Lemma json_quote_not_numeric s : is_numeric_literal (json_quote s) = false.
Proof.
  destruct (is_numeric_literal (json_quote s)) eqn:E; [|done].
  apply numeric_literal_class in E as [_ E]. inversion_clear E. done.
Qed.

(** The literal of a compared value, for a mode other than [contains]. *)
Definition eq_literal (v : jstr) : jstr := buildExprLiteral MATCH_EQ v.

Lemma eq_literal_facts v :
  value_ok v = true →
  eq_literal v ≠ [] ∧ Forall (λ c, not_line_end c = true) (eq_literal v) ∧
  forallb inert (eq_literal v) = true ∧ no_edge_ws (eq_literal v) ∧
  string_of_json <$> parseExprLiteral (eq_literal v) = Some v.
Proof.
  intros (Hcu & Ht & Hi & Hl)%value_ok_facts. unfold eq_literal, buildExprLiteral. rewrite Ht.
  change (bool_decide (MATCH_EQ = MATCH_CONTAINS)) with false.
  destruct (bool_decide (v = js "true") || bool_decide (v = js "false")) eqn:Hb.
  { apply orb_true_iff in Hb as [Hb|Hb]; apply bool_decide_eq_true in Hb as ->;
      (split_and!; [done|by repeat constructor|done|by apply trim_fixed_iff|done]). }
  unfold parseExprLiteral. destruct (is_numeric_literal v) eqn:Hn.
  - rewrite Ht, Hb, Hn. destruct (numeric_literal_class v Hn) as [Hne Hcl].
    split_and!; [done| |by apply numeric_inert|by apply trim_fixed_iff|done].
    eapply Forall_impl; [exact Hcl|]. intros c Hc. apply num_class_facts in Hc as [Hc _].
    unfold not_line_end, is_line_end. unfold is_ws in Hc. simpl in Hc. lia.
  - rewrite (trim_no_edge _ (json_quote_no_edge v)), json_quote_not_numeric, json_parse_quote by done.
    unfold json_quote. split_and!; [done| | |by apply no_edge_ws_app_between|].
    + constructor; [done|]. apply Forall_app; split; [done|by repeat constructor].
    + cbn [forallb]. by rewrite forallb_app, Hi.
    + rewrite !bool_decide_eq_false_2; [done|..];
        intros H; apply (f_equal head) in H; discriminate H.
Qed.

Lemma parse_eq p src v :
  name_ok p = true → value_ok v = true →
  tryParseRequestCondition (access p src (js ") == " ++ eq_literal v)) =
  Ret (Some (ph src p MATCH_EQ v)).
Proof.
  intros Hp (Hne & Hl & _ & _ & Hread)%eq_literal_facts.
  rewrite access_only_eq by done. rewrite match_eq by done.
  change (group 3 (cap_add 3 (eq_literal v) (cap_add 2 p (cap_add 1 (source_name src) []))))
    with (eq_literal v).
  destruct (parseExprLiteral (eq_literal v)) as [w|]; [|done]. injection Hread as Hw.
  rewrite Hw. by destruct src.
Qed.

Lemma parse_header_contains p v :
  name_ok p = true → Forall code_unit v →
  tryParseRequestCondition
    (js "has(" ++ access p SOURCE_HEADER (js "), " ++ json_quote v ++ js ")")) =
  Ret (Some (ph SOURCE_HEADER p MATCH_CONTAINS v)).
Proof.
  intros Hp Hv. unfold tryParseRequestCondition. rewrite has_not_time.
  unfold HEADER_EXISTS_RE, PARAM_EXISTS_RE, HEADER_CONTAINS_RE. rewrite !match_caps_bol.
  assert (∀ r, rmatch (lit "header(" ⋅ r) Some (MState []
      (js "has(" ++ access p SOURCE_HEADER (js "), " ++ json_quote v ++ js ")")) []) = None) as ->
    by (intros r; unfold access; by rx).
  assert (∀ r, rmatch (lit "param(" ⋅ r) Some (MState []
      (js "has(" ++ access p SOURCE_HEADER (js "), " ++ json_quote v ++ js ")")) []) = None) as ->
    by (intros r; unfold access; by rx).
  unfold access. rewrite app_assoc. change (js "has(" ++ js "header(") with (js "has(header(").
  rewrite rmatch_access, rmatch_seq, rmatch_lit_app, rmatch_seq by done.
  unfold json_quote. rewrite <- app_comm_cons, <- app_assoc. cbn [app].
  erewrite rmatch_string_literal; [|by apply escape_escaped|by rx].
  cbn [fmap option_fmap option_map m_caps].
  change (group 2 (cap_add 2 (c_quote :: escape v ++ [c_quote]) (cap_add 1 p [])))
    with (json_quote v).
  unfold parse_literal. rewrite json_parse_quote by done. done.
Qed.

(** ** Canonical rule groups *)

(** The form the parser returns: numeric thresholds, quotable names, fields
    that the mode does not use left empty, and no parameter comparison. *)
Definition canonical_condition (c : RequestCondition) : bool :=
  match c with
  | TimeCond t =>
      name_ok (tc_timezone t) &&
      if bool_decide (tc_mode t = MATCH_RANGE) then
        bool_decide (tc_value t = []) && is_numeric_literal (tc_rangeStart t)
        && is_numeric_literal (tc_rangeEnd t)
      else
        bool_decide (tc_mode t ∈ [MATCH_EQ; MATCH_GTE; MATCH_LT])
        && is_numeric_literal (tc_value t)
        && bool_decide (tc_rangeStart t = []) && bool_decide (tc_rangeEnd t = [])
  | PHCond h =>
      name_ok (ph_path h) && bool_decide (trim (ph_path h) = ph_path h) &&
      if bool_decide (ph_mode h = MATCH_EXISTS) then bool_decide (ph_value h = [])
      else if bool_decide (ph_mode h = MATCH_CONTAINS) then
        bool_decide (ph_source h = SOURCE_HEADER) && value_ok (ph_value h)
      else bool_decide (ph_mode h = MATCH_EQ) && value_ok (ph_value h)
  end.

Definition canonical_group (g : RequestRuleGroup) : bool :=
  nonempty (rg_conditions g) && forallb canonical_condition (rg_conditions g)
  && is_numeric_literal (rg_multiplier g).

(** What the scans need to know about the text of a condition. *)
Record cond_text (e : jstr) : Prop := {
  ct_nonempty : e ≠ [];
  ct_trim : trim e = e;
  ct_balanced : balanced e;
  ct_no_amp : 38 ∉ e;
}.

Lemma balanced_inert s : forallb inert s = true → balanced s.
Proof. intros H. apply balanced_no_paren. by apply inert_facts. Qed.

Lemma no_amp_inert s : forallb inert s = true → 38 ∉ s.
Proof. intros H. by apply inert_facts. Qed.

#[local] Hint Resolve balanced_inert no_amp_inert numeric_inert : starnexus.

Definition not_amp (c : Z) : bool := negb (c =? 38).

Lemma not_amp_forall s : forallb not_amp s = true → 38 ∉ s.
Proof. intros H Hin. rewrite list_elem_of_In in Hin. rewrite forallb_forall in H. by apply H in Hin. Qed.

Lemma inert_not_amp s : forallb inert s = true → forallb not_amp s = true.
Proof.
  rewrite !forallb_forall. intros H c Hc. apply H in Hc. unfold inert, not_amp in *. lia.
Qed.

Lemma edge_app a m b :
  a ≠ [] → b ≠ [] → no_edge_ws a → no_edge_ws b → no_edge_ws (a ++ m ++ b).
Proof.
  intros Ha Hb [H1 _] [_ H2]. split; intros c Hc.
  - apply H1. by destruct a.
  - apply H2. rewrite !last_app in Hc. destruct b as [|d b] using rev_ind; [done|].
    by rewrite last_snoc in Hc |- *.
Qed.

Lemma quote_inert p : forallb inert p = true → forallb inert (c_quote :: p ++ [c_quote]) = true.
Proof. intros H. cbn [forallb]. by rewrite forallb_app, H. Qed.

Lemma access_text p src t :
  name_ok p = true → balanced t → forallb not_amp t = true →
  balanced (access p src (c_rpar :: t)) ∧ forallb not_amp (access p src (c_rpar :: t)) = true.
Proof.
  intros (_ & _ & _ & Hi)%name_ok_facts Hb Ha.
  set (name := match src with SOURCE_PARAM => js "param" | SOURCE_HEADER => js "header" end).
  assert (access p src (c_rpar :: t) =
          name ++ (c_lpar :: (c_quote :: p ++ [c_quote]) ++ [c_rpar]) ++ t) as ->.
  { unfold access, name. destruct src; cbn [app]; by rewrite <- !app_assoc. }
  apply quote_inert in Hi. revert Hi. generalize (c_quote :: p ++ [c_quote]) as q. intros q Hi.
  split.
  - apply balanced_app; [apply balanced_no_paren; by destruct src|].
    apply balanced_app; [|done]. by apply balanced_paren, balanced_inert.
  - apply inert_not_amp in Hi. rewrite forallb_app. cbn [forallb app].
    rewrite !forallb_app, Hi, Ha. by destruct src.
Qed.

Lemma time_call_text f tz t :
  name_ok tz = true → balanced t → forallb not_amp t = true →
  balanced (time_call f tz (c_rpar :: t)) ∧ forallb not_amp (time_call f tz (c_rpar :: t)) = true.
Proof.
  intros (_ & _ & _ & Hi)%name_ok_facts Hb Ha.
  assert (time_call f tz (c_rpar :: t) =
          time_func_name f ++ (c_lpar :: (c_quote :: tz ++ [c_quote]) ++ [c_rpar]) ++ t) as ->.
  { unfold time_call. cbn [app]. by rewrite <- !app_assoc. }
  apply quote_inert in Hi. revert Hi. generalize (c_quote :: tz ++ [c_quote]) as q. intros q Hi.
  split.
  - apply balanced_app; [apply balanced_no_paren; by destruct f|].
    apply balanced_app; [|done]. by apply balanced_paren, balanced_inert.
  - apply inert_not_amp in Hi. rewrite forallb_app. cbn [forallb app].
    rewrite !forallb_app, Hi, Ha. by destruct f.
Qed.

Lemma cond_text_intro e a m b :
  e = a ++ m ++ b → a ≠ [] → b ≠ [] → trim a = a → trim b = b →
  balanced e ∧ forallb not_amp e = true → cond_text e.
Proof.
  intros -> Ha Hb Ta Tb [Hbal Hamp]. apply trim_fixed_iff in Ta, Tb. split.
  - by destruct a.
  - by apply trim_no_edge, edge_app.
  - done.
  - by apply not_amp_forall.
Qed.

(** Text of which a part is followed by a numeric literal. *)
Lemma numeric_text w v :
  is_numeric_literal v = true → forallb inert w = true →
  balanced (w ++ v) ∧ forallb not_amp (w ++ v) = true.
Proof.
  intros Hv Hw. assert (Hwv : forallb inert (w ++ v) = true)
    by (by rewrite forallb_app, Hw, numeric_inert).
  split; [by apply balanced_inert|by apply inert_not_amp].
Qed.

(** The tail of a call can be cut anywhere. *)
Lemma time_call_snoc f tz t b :
  time_call f tz (t ++ b) = time_func_name f ++ (js "(" ++ c_quote :: tz ++ c_quote :: t) ++ b.
Proof. unfold time_call. rewrite <- !app_assoc. cbn [app]. by rewrite <- app_assoc. Qed.

Lemma access_snoc p src t b : access p src (t ++ b) = access p src t ++ b.
Proof. unfold access. destruct src; rewrite <- !app_assoc; cbn [app]; by rewrite <- app_assoc. Qed.

Lemma access_split p src t b :
  access p src (t ++ b) = source_name src ++ (js "(" ++ c_quote :: p ++ c_quote :: t) ++ b.
Proof.
  unfold access. destruct src; cbn [source_name].
  - change (js "param(") with (js "param" ++ js "(").
    repeat (progress (rewrite <- ?app_assoc; cbn [app])). reflexivity.
  - change (js "header(") with (js "header" ++ js "(").
    repeat (progress (rewrite <- ?app_assoc; cbn [app])). reflexivity.
Qed.

Lemma range_text_snoc f tz a b t :
  range_text f tz a b t =
  time_func_name f ++ (js "(" ++ c_quote :: tz ++ c_quote :: js ") >= " ++ a ++ js " || "
    ++ time_call f tz (js ") < ")) ++ b ++ t.
Proof.
  unfold range_text, time_call.
  repeat (progress (rewrite <- ?app_assoc; cbn [app])). reflexivity.
Qed.

Lemma range_text_ok f tz a b :
  name_ok tz = true → is_numeric_literal a = true → is_numeric_literal b = true →
  cond_text (range_text f tz a b []).
Proof.
  intros Htz Ha Hb. eapply (cond_text_intro _ (time_func_name f) _ b).
  - rewrite range_text_snoc, app_nil_r. reflexivity.
  - by destruct f.
  - by apply numeric_literal_class.
  - by destruct f.
  - by apply numeric_trim.
  - unfold range_text. change (js ") >= ") with (c_rpar :: js " >= ").
    rewrite app_nil_r.
    destruct (time_call_text f tz (js " < " ++ b) Htz) as [B2 A2]; [by apply numeric_text..|].
    destruct (numeric_text (js " >= ") a Ha eq_refl) as [B1 A1].
    cbn [app]. apply time_call_text; [done|..].
    + rewrite app_assoc. apply balanced_app; [done|]. apply balanced_app; [by apply balanced_no_paren|].
      exact B2.
    + rewrite app_assoc, forallb_app, A1. rewrite forallb_app. exact A2.
Qed.

(** ** The text of each canonical condition *)

Inductive canon : RequestCondition → jstr → Prop :=
| canon_range f tz a b :
    name_ok tz = true → is_numeric_literal a = true → is_numeric_literal b = true →
    canon (TimeCond {| tc_timeFunc := f; tc_timezone := tz; tc_mode := MATCH_RANGE;
                       tc_value := []; tc_rangeStart := a; tc_rangeEnd := b |})
          (range_text f tz a b [])
| canon_cmp f tz op mode v :
    name_ok tz = true → is_numeric_literal v = true →
    (op, mode) ∈ [(js "==", MATCH_EQ); (js ">=", MATCH_GTE); (js "<", MATCH_LT)] →
    canon (TimeCond {| tc_timeFunc := f; tc_timezone := tz; tc_mode := mode; tc_value := v;
                       tc_rangeStart := []; tc_rangeEnd := [] |})
          (cmp_text f tz op v)
| canon_exists src p :
    name_ok p = true →
    canon (ph src p MATCH_EXISTS [])
          (access p src (js ") != " ++ match src with SOURCE_HEADER => [c_quote; c_quote]
                                       | SOURCE_PARAM => js "nil" end))
| canon_contains p v :
    name_ok p = true → value_ok v = true →
    canon (ph SOURCE_HEADER p MATCH_CONTAINS v)
          (js "has(" ++ access p SOURCE_HEADER (js "), " ++ json_quote v ++ js ")"))
| canon_eq src p v :
    name_ok p = true → value_ok v = true →
    canon (ph src p MATCH_EQ v) (access p src (js ") == " ++ eq_literal v)).

Lemma normalize_time f tz mode v a b :
  tz ≠ [] → mode ∈ [MATCH_EQ; MATCH_GTE; MATCH_LT; MATCH_RANGE] →
  let c := TimeCond {| tc_timeFunc := f; tc_timezone := tz; tc_mode := mode; tc_value := v;
                       tc_rangeStart := a; tc_rangeEnd := b |} in
  normalizeCondition (partial_of c) = c.
Proof.
  intros Htz Hm c. unfold c, normalizeCondition, partial_of.
  cbn [pc_source pc_timeFunc pc_timezone pc_mode pc_value pc_rangeStart pc_rangeEnd
       tc_timeFunc tc_timezone tc_mode tc_value tc_rangeStart tc_rangeEnd].
  rewrite bool_decide_eq_true_2 by done. destruct tz as [|d tz]; [done|].
  assert (mode_or (getRequestRuleMatchOptions (js "time")) (Some mode) MATCH_GTE = mode) as ->.
  { rewrite !elem_of_cons, elem_of_nil in Hm. by destruct Hm as [->|[->|[->|[->|[]]]]]. }
  by destruct f.
Qed.

Lemma normalize_ph src p mode v :
  mode ∈ map mo_value (getRequestRuleMatchOptions (source_name src)) →
  normalizeCondition (partial_of (ph src p mode v)) = ph src p mode v.
Proof.
  intros Hm. unfold ph, normalizeCondition, partial_of.
  cbn [pc_source pc_path pc_mode pc_value ph_source ph_path ph_mode ph_value].
  rewrite bool_decide_eq_false_2 by (by destruct src).
  assert ((if bool_decide (Some (source_name src) = Some (js "header")) then SOURCE_HEADER
           else SOURCE_PARAM) = src) as -> by (by destruct src).
  unfold mode_or. assert (existsb (λ o, bool_decide (mo_value o = mode))
    (getRequestRuleMatchOptions (source_name src)) = true) as ->; [|done].
  apply existsb_exists. apply list_elem_of_fmap in Hm as (o & -> & Ho). exists o.
  rewrite list_elem_of_In in Ho. split; [done|]. by apply bool_decide_eq_true_2.
Qed.

Lemma build_time_canon t :
  canonical_condition (TimeCond t) = true → canon (TimeCond t) (buildTimeConditionExpr t).
Proof.
  destruct t as [f tz mode v a b]. cbn [canonical_condition tc_timezone tc_mode tc_value
    tc_rangeStart tc_rangeEnd]. intros H. apply andb_true_iff in H as [Htz H].
  destruct (name_ok_facts tz Htz) as (Hne & _ & Hq & _).
  unfold buildTimeConditionExpr.
  case_bool_decide as Hr.
  - subst mode. reflect_bools. subst v.
    rewrite normalize_time by (done || set_solver).
    cbn [tc_timeFunc tc_timezone tc_mode tc_rangeStart tc_rangeEnd]. rewrite Hq.
    rewrite !numeric_trim by done. rewrite bool_decide_eq_true_2 by done.
    repeat match goal with H : is_numeric_literal _ = true |- _ => rewrite H end. cbn [negb orb].
    replace (_ ++ js " >= " ++ _) with (range_text f tz a b []); [by constructor|].
    unfold range_text, time_call. rewrite app_nil_r.
    repeat (progress (rewrite <- ?app_assoc; cbn [app])). reflexivity.
  - reflect_bools. subst a b.
    rewrite normalize_time by (done || set_solver).
    cbn [tc_timeFunc tc_timezone tc_mode tc_value]. rewrite Hq, bool_decide_eq_false_2 by done.
    rewrite numeric_trim by done.
    match goal with H : is_numeric_literal _ = true |- _ => rewrite H end. cbn [negb].
    set (op := if bool_decide (mode = MATCH_GTE) then _ else _).
    replace (_ ++ js " " ++ op ++ _) with (cmp_text f tz op v).
    + apply canon_cmp; [done|done|].
      match goal with H : mode ∈ _ |- _ => rewrite !elem_of_cons, elem_of_nil in H;
        destruct H as [->|[->|[->|[]]]] end; unfold op; vm_compute (bool_decide _); set_solver.
    + unfold cmp_text, time_call. clear.
      repeat (progress (rewrite <- ?app_assoc; cbn [app])). reflexivity.
Qed.

Lemma build_ph_canon h :
  canonical_condition (PHCond h) = true → canon (PHCond h) (buildRequestConditionExpr (PHCond h)).
Proof.
  destruct h as [src p mode v]. cbn [canonical_condition ph_source ph_path ph_mode ph_value].
  intros H. apply andb_true_iff in H as [Hp H]. apply andb_true_iff in Hp as [Hp Ht].
  apply bool_decide_eq_true in Ht. destruct (name_ok_facts p Hp) as (Hne & _ & Hq & _).
  change (PHCond _) with (ph src p mode v). unfold buildRequestConditionExpr.
  cbn [ph]. fold (ph src p mode v).
  assert (Hsrc : ∀ t, source_name src ++ js "(" ++ (c_quote :: p ++ [c_quote]) ++ js ")" ++ t
                      = access p src (js ")" ++ t)).
  { intros t. unfold access. destruct src; repeat (progress (rewrite <- ?app_assoc; cbn [app]));
      reflexivity. }
  case_bool_decide as He; [|case_bool_decide as Hc].
  - subst mode. apply bool_decide_eq_true in H as ->.
    rewrite normalize_ph by (destruct src; vm_compute; set_solver). cbn [ph ph_path ph_source ph_mode].
    rewrite Ht. apply nonempty_true in Hne as ->. cbn [negb]. rewrite bool_decide_eq_true_2 by done.
    rewrite Hq. pose proof (canon_exists src p Hp) as Hcn.
    destruct src; rewrite <- !app_assoc, Hsrc; exact Hcn.
  - subst mode. reflect_bools. subst src.
    rewrite normalize_ph by (vm_compute; set_solver). cbn [ph ph_path ph_source ph_mode ph_value].
    rewrite Ht. apply nonempty_true in Hne as ->. cbn [negb].
    rewrite bool_decide_eq_false_2, bool_decide_eq_true_2, Hq by done.
    unfold buildExprLiteral. rewrite bool_decide_eq_true_2 by done.
    match goal with H : value_ok _ = true |- _ =>
      destruct (value_ok_facts v H) as (_ & Htv & _); pose proof (canon_contains p v Hp H) as Hcn end.
    rewrite Htv, <- !app_assoc, Hsrc. exact Hcn.
  - apply andb_true_iff in H as [Hm Hv]. apply bool_decide_eq_true in Hm as ->.
    rewrite normalize_ph by (destruct src; vm_compute; set_solver).
    cbn [ph ph_path ph_source ph_mode ph_value]. rewrite Ht. apply nonempty_true in Hne as ->.
    cbn [negb]. rewrite !bool_decide_eq_false_2, Hq by done.
    change (cmp_op MATCH_EQ) with (@None jstr). cbv iota.
    rewrite <- !app_assoc, Hsrc. exact (canon_eq src p v Hp Hv).
Qed.

Lemma build_canon c : canonical_condition c = true → canon c (buildRequestConditionExpr c).
Proof. destruct c; [apply build_time_canon|apply build_ph_canon]. Qed.

(** ** Canonical text is scanned as one piece and read back *)

Lemma canon_text c e : canon c e → cond_text e.
Proof.
  destruct 1 as [f tz a b Htz Ha Hb|f tz op mode v Htz Hv Hop|src p Hp|p v Hp Hv|src p v Hp Hv].
  - by apply range_text_ok.
  - eapply (cond_text_intro _ (time_func_name f) _ v); [|by destruct f| |by destruct f| |].
    + unfold cmp_text. rewrite (app_assoc op), (app_assoc (js ") ")). apply time_call_snoc.
    + by apply numeric_literal_class.
    + by apply numeric_trim.
    + unfold cmp_text. change (js ") ") with (c_rpar :: js " "). cbn [app].
      rewrite (app_assoc op), (app_assoc (js " ")).
      apply time_call_text; [done|..]; apply numeric_text; try done;
        rewrite !elem_of_cons, elem_of_nil in Hop;
        by destruct Hop as [[= -> ->]|[[= -> ->]|[[= -> ->]|[]]]].
  - eapply (cond_text_intro _ (source_name src) _
             (match src with SOURCE_HEADER => [c_quote; c_quote] | SOURCE_PARAM => js "nil" end)).
    + apply access_split.
    + by destruct src.
    + by destruct src.
    + by destruct src.
    + by destruct src.
    + change (js ") != ") with (c_rpar :: js " != "). cbn [app].
      apply access_text; [done|apply balanced_no_paren|]; by destruct src.
  - destruct (value_ok_facts v Hv) as (_ & _ & Hi & _).
    assert (Hq : forallb inert (js ", " ++ json_quote v) = true)
      by (apply quote_inert in Hi; rewrite forallb_app; exact Hi).
    destruct (access_text p SOURCE_HEADER (js ", " ++ json_quote v) Hp) as [B A];
      [by apply balanced_inert|by apply inert_not_amp|].
    eapply (cond_text_intro _ (js "has(") _ (js ")")); [|done..|].
    + rewrite (app_assoc (js "), ")), access_snoc. reflexivity.
    + rewrite (app_assoc (js "), ")), access_snoc.
      change (access p SOURCE_HEADER (js "), " ++ json_quote v)) with
        (access p SOURCE_HEADER (c_rpar :: js ", " ++ json_quote v)).
      revert B A. generalize (access p SOURCE_HEADER (c_rpar :: js ", " ++ json_quote v)) as w.
      intros w B A. change (js "has(" ++ w ++ js ")") with (js "has" ++ (c_lpar :: w ++ [c_rpar])).
      split.
      * apply balanced_app; [by apply balanced_no_paren|by apply balanced_paren].
      * rewrite forallb_app. cbn [forallb]. by rewrite forallb_app, A.
  - destruct (eq_literal_facts v Hv) as (Hne & _ & Hi & Hedge & _).
    eapply (cond_text_intro _ (source_name src) _ (eq_literal v)).
    + apply access_split.
    + by destruct src.
    + done.
    + by destruct src.
    + by apply trim_no_edge.
    + change (js ") == ") with (c_rpar :: js " == "). cbn [app].
      assert (Hq : forallb inert (js " == " ++ eq_literal v) = true) by (by rewrite forallb_app, Hi).
      apply access_text; [done|by apply balanced_inert|by apply inert_not_amp].
Qed.

Lemma canon_parse c e : canon c e → tryParseRequestCondition e = Ret (Some c).
Proof.
  destruct 1 as [f tz a b Htz Ha Hb|f tz op mode v Htz Hv Hop|src p Hp|p v Hp Hv|src p v Hp Hv].
  - unfold tryParseRequestCondition. by rewrite parse_range.
  - unfold tryParseRequestCondition. by erewrite parse_cmp.
  - by apply parse_exists.
  - apply parse_header_contains; [done|]. by apply value_ok_facts.
  - by apply parse_eq.
Qed.

Definition not_bar (c : Z) : bool := negb (c =? 124).

Lemma inert_not_bar s : forallb inert s = true → forallb not_bar s = true.
Proof. rewrite !forallb_forall. intros H c Hc. apply H in Hc. unfold inert, not_bar in *. lia. Qed.

Lemma access_no_bar p src t :
  name_ok p = true → forallb not_bar t = true → forallb not_bar (access p src t) = true.
Proof.
  intros (_ & _ & _ & Hi)%name_ok_facts Ht. apply inert_not_bar in Hi. unfold access.
  rewrite forallb_app. cbn [forallb]. rewrite forallb_app, Hi. cbn [forallb].
  rewrite Ht. by destruct src.
Qed.

Lemma time_call_no_bar f tz t :
  name_ok tz = true → forallb not_bar t = true → forallb not_bar (time_call f tz t) = true.
Proof.
  intros (_ & _ & _ & Hi)%name_ok_facts Ht. apply inert_not_bar in Hi. unfold time_call.
  rewrite !forallb_app. cbn [forallb]. rewrite forallb_app, Hi. cbn [forallb].
  rewrite Ht. by destruct f.
Qed.

Lemma wrap_or_no_bar e : forallb not_bar e = true → wrap_or e = e.
Proof.
  intros He. unfold wrap_or. destruct (includes (js " || ") e) eqn:Hi; [|done].
  apply includes_true in Hi as (u & w & ->). rewrite !forallb_app in He.
  apply andb_true_iff in He as [_ He]. by apply andb_true_iff in He as [He _].
Qed.

Lemma wrap_or_cases c e :
  canon c e →
  (wrap_or e = e) ∨
  (∃ f tz a b, name_ok tz = true ∧ is_numeric_literal a = true ∧ is_numeric_literal b = true ∧
     c = TimeCond {| tc_timeFunc := f; tc_timezone := tz; tc_mode := MATCH_RANGE; tc_value := [];
                     tc_rangeStart := a; tc_rangeEnd := b |} ∧
     wrap_or e = js "(" ++ range_text f tz a b (js ")")).
Proof.
  destruct 1 as [f tz a b Htz Ha Hb|f tz op mode v Htz Hv Hop|src p Hp|p v Hp Hv|src p v Hp Hv].
  - right. exists f, tz, a, b. split_and!; try done. unfold wrap_or.
    rewrite (proj2 (includes_true _ _)).
    + rewrite !range_text_snoc, app_nil_r. by rewrite <- !app_assoc.
    + exists (time_call f tz (js ") >= " ++ a)), (time_call f tz (js ") < " ++ b ++ [])).
      unfold range_text, time_call. repeat (progress (rewrite <- ?app_assoc; cbn [app])). reflexivity.
  - left. apply wrap_or_no_bar. apply time_call_no_bar; [done|].
    apply numeric_inert, inert_not_bar in Hv. rewrite !forallb_app, Hv.
    rewrite !elem_of_cons, elem_of_nil in Hop.
    by destruct Hop as [[= -> ->]|[[= -> ->]|[[= -> ->]|[]]]].
  - left. apply wrap_or_no_bar, access_no_bar; [done|]. by destruct src.
  - left. apply wrap_or_no_bar. rewrite forallb_app, access_no_bar; [done|done|].
    destruct (value_ok_facts v Hv) as (_ & _ & Hi & _).
    apply quote_inert, inert_not_bar in Hi. rewrite !forallb_app. unfold json_quote. by rewrite Hi.
  - left. apply wrap_or_no_bar, access_no_bar; [done|].
    destruct (eq_literal_facts v Hv) as (_ & _ & Hi & _).
    apply inert_not_bar in Hi. by rewrite forallb_app, Hi.
Qed.

Lemma canon_wrap c e :
  canon c e → cond_text (wrap_or e) ∧ tryParseRequestCondition (wrap_or e) = Ret (Some c).
Proof.
  intros Hc. destruct (wrap_or_cases c e Hc) as [->|(f & tz & a & b & Htz & Ha & Hb & -> & ->)].
  - split; [by eapply canon_text|by apply canon_parse].
  - split.
    + destruct (range_text_ok f tz a b Htz Ha Hb) as [Hne _ Hbal Hamp].
      assert (js "(" ++ range_text f tz a b (js ")") =
              c_lpar :: range_text f tz a b [] ++ [c_rpar]) as ->.
      { rewrite !range_text_snoc, app_nil_r. by rewrite <- !app_assoc. }
      split; [done|by apply trim_no_edge, no_edge_ws_app_between|by apply balanced_paren|].
      rewrite elem_of_cons, elem_of_app. intros [?|[?|H]]; [done|done|].
      by apply list_elem_of_singleton in H.
    + unfold tryParseRequestCondition. by rewrite parse_range_paren.
Qed.
