(* ===== verification/BillingExprProps.v ===== *)
(** * Billing expressions: properties

    The properties of the request-rule printer and parser of
    [billing-expr.ts]: the round trip, the split of a combined expression, the
    rules that do not survive it, and the normal forms. *)

From Stdlib Require Import String.
From S2P Require Import JsRegex JsJson BillingExpr BillingExprFacts.

(** ** Conjunctions of conditions *)

Lemma split_and_parts parts :
  parts ≠ [] → Forall cond_text parts → splitTopLevelAnd (join (js " && ") parts) = parts.
Proof.
  intros Hne Hp. unfold splitTopLevelAnd.
  change (js " && ") with (32 :: js "&& "). rewrite split_parts; [|done|done|].
  - apply filterb_id. eapply Forall_impl; [exact Hp|]. intros e []. by apply nonempty_true.
  - eapply Forall_impl; [exact Hp|]. intros e [_ Ht [Hd _] Ha]. split_and!; [done|done|].
    intros [t|]; apply no_hit_no_amp; eauto.
Qed.

Lemma join_balanced sep parts :
  forallb no_paren sep = true → Forall balanced parts → balanced (join sep parts).
Proof.
  intros Hs. induction 1 as [|e parts He Hp IH]; [apply balanced_nil|].
  destruct parts as [|e2 parts]; [done|].
  change (join sep (e :: e2 :: parts)) with (e ++ sep ++ join sep (e2 :: parts)).
  apply balanced_app; [done|]. apply balanced_app; [by apply balanced_no_paren|done].
Qed.

(** ** One factor *)

Definition factor_text (cond mult : jstr) : jstr := js "(" ++ cond ++ js " ? " ++ mult ++ js " : 1)".

Lemma proper_suffix_no_question m t1 t2 :
  is_numeric_literal m = true → t1 ≠ [] → js " ? " ++ m ++ js " : 1)" = t1 ++ t2 →
  strip_prefix (js " ? ") t2 = None.
Proof.
  intros [_ Hm]%numeric_literal_class Hne Heq.
  destruct (strip_prefix (js " ? ") t2) as [r|] eqn:E; [|done]. exfalso.
  apply strip_prefix_Some in E as ->.
  destruct t1 as [|a [|b t1]]; [done|by injection Heq|].
  change (js " ? ") with [32; 63; 32] in Heq. injection Heq as _ _ Heq.
  assert (Hq : 63 ∈ [32] ++ m ++ js " : 1)").
  { cbn [app]. rewrite Heq. rewrite elem_of_app. right. vm_compute (js " ? "). set_solver. }
  rewrite !elem_of_app in Hq. destruct Hq as [Hq|[Hq|Hq]].
  - by apply list_elem_of_singleton in Hq.
  - rewrite Forall_forall in Hm. by specialize (Hm _ Hq).
  - change (js " : 1)") with [32; 58; 32; 49; 41] in Hq. by set_unfold in Hq; lia.
Qed.

Lemma match_factor cond m :
  cond ≠ [] → is_numeric_literal m = true →
  match_caps RULE_FACTOR_RE (factor_text cond m) = Some (cap_add 2 m (cap_add 1 cond [])).
Proof.
  intros Hne Hm. unfold RULE_FACTOR_RE, factor_text.
  rewrite match_caps_bol, rmatch_seq, rmatch_lit_app, rmatch_seq.
  rewrite (rmatch_group_plus_longest _ _ _ _ _ _ _
    (MState (rev (js " : 1)") ++ rev m ++ rev (js " ? ") ++ rev cond ++ rev (js "("))
            [] (cap_add 2 m (cap_add 1 cond [])))); [done| |done| |].
  - by apply Forall_true.
  - intros pre' cs' t1 t2 Heq Ht1 _. rewrite rmatch_seq, rmatch_lit.
    by rewrite (proper_suffix_no_question m t1 t2).
  - rewrite rmatch_seq, rmatch_lit_app. rewrite <- (app_nil_r (js " : 1)")) at 1.
    rewrite (rmatch_number_lit 2 32), app_nil_r by done. reflexivity.
Qed.

(** The conjunction a factor is built from. *)
Definition combined (exprs : list jstr) : jstr :=
  match exprs with
  | [e] => e
  | _ => join (js " && ") (map wrap_or exprs)
  end.

Lemma combined_parts cs es :
  cs ≠ [] → Forall2 canon cs es →
  ∃ parts, combined es = join (js " && ") parts ∧ Forall cond_text parts ∧ parts ≠ [] ∧
    Forall2 (λ e c, tryParseRequestCondition (trim e) = Ret (Some c)) parts cs.
Proof.
  intros Hne Hc.
  assert (Hok : ∀ c e, canon c e → cond_text e ∧ tryParseRequestCondition (trim e) = Ret (Some c)).
  { intros c e He. pose proof (canon_text c e He) as Ht. rewrite (ct_trim _ Ht).
    split; [done|by apply canon_parse]. }
  assert (Hwr : ∀ c e, canon c e →
    cond_text (wrap_or e) ∧ tryParseRequestCondition (trim (wrap_or e)) = Ret (Some c)).
  { intros c e He. destruct (canon_wrap c e He) as [Ht Hp]. by rewrite (ct_trim _ Ht). }
  destruct Hc as [|c e cs es He Hc]; [done|]. destruct Hc as [|c2 e2 cs es He2 Hc].
  - exists [e]. destruct (Hok c e He). split_and!; auto using Forall2.
  - exists (map wrap_or (e :: e2 :: es)).
    assert (Hall : Forall2 canon (c :: c2 :: cs) (e :: e2 :: es)) by (by repeat constructor).
    split_and!; [done| |done|].
    + clear -Hwr Hall. induction Hall; simpl; constructor; [by eapply Hwr|done].
    + clear -Hwr Hall. induction Hall; simpl; constructor; [by eapply Hwr|done].
Qed.

Lemma build_canon_all cs :
  forallb canonical_condition cs = true → Forall2 canon cs (map buildRequestConditionExpr cs).
Proof.
  induction cs as [|c cs IH]; simpl; [constructor|]. intros [Hc Hcs]%andb_true_iff.
  constructor; [by apply build_canon|auto].
Qed.

Lemma canon_texts cs es : Forall2 canon cs es → Forall (λ e, nonempty e = true) es.
Proof.
  induction 1 as [|c e cs es He _ IH]; constructor; [|done].
  apply nonempty_true. by apply (ct_nonempty _ (canon_text c e He)).
Qed.

(** A canonical group is printed as a factor with balanced text. *)
Lemma build_factor g :
  canonical_group g = true →
  ∃ cond, buildRuleGroupFactor g = factor_text cond (rg_multiplier g) ∧ balanced cond ∧
    tryParseRuleGroupFactor (factor_text cond (rg_multiplier g)) = Ret (Some g).
Proof.
  destruct g as [cs m]. unfold canonical_group. cbn [rg_conditions rg_multiplier].
  intros H. apply andb_true_iff in H as [H Hm]. apply andb_true_iff in H as [Hne Hcs].
  apply nonempty_true in Hne. apply build_canon_all in Hcs.
  destruct (combined_parts _ _ Hne Hcs) as (parts & Hcomb & Htext & Hpne & Hparse).
  exists (combined (map buildRequestConditionExpr cs)).
  assert (Hbal : balanced (combined (map buildRequestConditionExpr cs))).
  { rewrite Hcomb. apply join_balanced; [done|]. eapply Forall_impl; [exact Htext|]. by intros e []. }
  split_and!; [|done|].
  - unfold buildRuleGroupFactor. cbn [rg_conditions rg_multiplier].
    rewrite numeric_trim, Hm, filterb_id by (done || by eapply canon_texts). cbn [negb].
    unfold combined, factor_text. destruct cs as [|c1 [|c2 cs]]; done.
  - unfold tryParseRuleGroupFactor. rewrite match_factor; [|rewrite Hcomb|done].
    + change (group 1 (cap_add 2 m (cap_add 1 (combined (map buildRequestConditionExpr cs)) [])))
        with (combined (map buildRequestConditionExpr cs)).
      change (group 2 _) with m. rewrite Hcomb, split_and_parts by done.
      rewrite (traverse_o_Some _ _ cs) by done. by destruct cs.
    + destruct Htext as [|e parts [He _ _ _] _]; [done|]. destruct parts, e; done.
Qed.

(** ** Products of factors *)

Lemma factor_parts c0 sep' factors :
  c0 = 32 → factors ≠ [] →
  Forall (λ w, ∃ s, w = c_lpar :: s ++ [c_rpar] ∧ balanced s) factors →
  split_top_loop (c0 :: sep') (join (c0 :: sep') factors) 0 [] 0 = factors.
Proof.
  intros -> Hne Hf. apply split_parts; [done|done|].
  eapply Forall_impl; [exact Hf|]. intros w (s & -> & Hb). split_and!.
  - by apply trim_no_edge, no_edge_ws_app_between.
  - by apply balanced_paren.
  - intros t. by apply no_hit_paren.
Qed.

Lemma factor_text_shape cond m :
  balanced cond → is_numeric_literal m = true →
  ∃ s, factor_text cond m = c_lpar :: s ++ [c_rpar] ∧ balanced s.
Proof.
  intros Hb Hm. exists (cond ++ js " ? " ++ m ++ js " : 1"). split.
  - unfold factor_text. change (js " : 1)") with (js " : 1" ++ [c_rpar]).
    by rewrite <- !app_assoc.
  - apply balanced_app; [done|]. apply balanced_inert.
    by rewrite !forallb_app, (numeric_inert m).
Qed.

Lemma join_edge sep l :
  l ≠ [] → Forall (λ w, ∃ s : jstr, w = c_lpar :: s ++ [c_rpar]) l → no_edge_ws (join sep l).
Proof.
  intros Hne Hl.
  assert (∃ u v, join sep l = c_lpar :: u ∧ join sep l = v ++ [c_rpar]) as (u & v & Hu & Hv).
  { induction Hl as [|w l (s & ->) Hl IH]; [done|destruct l as [|w2 l]].
    - by exists (s ++ [c_rpar]), (c_lpar :: s).
    - destruct (IH ltac:(done)) as (u & v & Hu & Hv). exists ((s ++ [c_rpar]) ++ sep ++ join sep (w2 :: l)),
        ((c_lpar :: s ++ [c_rpar]) ++ sep ++ v).
      change (join sep ((c_lpar :: s ++ [c_rpar]) :: w2 :: l)) with
        ((c_lpar :: s ++ [c_rpar]) ++ sep ++ join sep (w2 :: l)).
      split; [done|]. rewrite Hv. by rewrite <- !app_assoc. }
  split; intros c Hc; [rewrite Hu in Hc; by injection Hc as <-|].
  rewrite Hv, last_snoc in Hc. by injection Hc as <-.
Qed.

Lemma build_groups gs :
  forallb canonical_group gs = true →
  ∃ fs, buildRequestRuleExpr gs = join (js " * ") fs ∧
    Forall2 (λ w g, tryParseRuleGroupFactor w = Ret (Some g) ∧
                    ∃ s, w = c_lpar :: s ++ [c_rpar] ∧ balanced s) fs gs.
Proof.
  intros Hgs. exists (map buildRuleGroupFactor gs).
  assert (Hall : Forall2 (λ w g, tryParseRuleGroupFactor w = Ret (Some g) ∧
                    ∃ s, w = c_lpar :: s ++ [c_rpar] ∧ balanced s) (map buildRuleGroupFactor gs) gs).
  { induction gs as [|g gs IH]; simpl in *; [constructor|].
    apply andb_true_iff in Hgs as [Hg Hgs]. constructor; [|auto].
    destruct (build_factor g Hg) as (cond & -> & Hb & Hp). split; [done|].
    apply factor_text_shape; [done|]. unfold canonical_group in Hg. by reflect_bools. }
  split; [|done]. unfold buildRequestRuleExpr. f_equal. apply filterb_id.
  clear Hgs. induction Hall as [|w g ws gs' [_ (s & -> & _)] _ IH]; by constructor.
Qed.

Lemma parse_product fs gs :
  Forall2 (λ w g, tryParseRuleGroupFactor w = Ret (Some g) ∧
                  ∃ s, w = c_lpar :: s ++ [c_rpar] ∧ balanced s) fs gs →
  tryParseRequestRuleExpr (join (js " * ") fs) = Ret (Some gs).
Proof.
  intros Hall. destruct (decide (fs = [])) as [->|Hne]; [by inversion Hall|].
  assert (Hshape : Forall (λ w, ∃ s, w = c_lpar :: s ++ [c_rpar] ∧ balanced s) fs)
    by (clear Hne; induction Hall as [|w g ws gs' [_ ?] _ IH]; by constructor).
  unfold tryParseRequestRuleExpr. rewrite trim_no_edge.
  - assert (nonempty (join (js " * ") fs) = true) as ->.
    { destruct Hshape as [|w [|w2 l] (s & -> & _)]; done. }
    unfold splitTopLevelMultiply. change (js " * ") with (32 :: js "* ").
    rewrite factor_parts, filterb_id; [|..|done|done|done].
    + apply traverse_o_Some. eapply Forall2_impl; [exact Hall|]. by intros ? ? [? _].
    + eapply Forall_impl; [exact Hshape|]. by intros w (s & -> & _).
  - apply join_edge; [done|]. eapply Forall_impl; [exact Hshape|]. intros w (s & -> & _). eauto.
Qed.

(** ** Properties *)

(** C1. Round trip of request rules: for every list of rule groups in
    canonical form (time ranges and comparisons, header and parameter
    existence and equality, header substring tests, numeric multipliers), the
    expression the editor builds is read back by the parser as exactly the
    same groups, in the same order. *)
Theorem request_rules_roundtrip (gs : list RequestRuleGroup) :
  forallb canonical_group gs = true →
  tryParseRequestRuleExpr (buildRequestRuleExpr gs) = Ret (Some gs).
Proof. intros (fs & -> & Hall)%build_groups. by apply parse_product. Qed.

Lemma request_rules_roundtrip_witness :
  forallb canonical_group sample_groups = true ∧
  tryParseRequestRuleExpr (buildRequestRuleExpr sample_groups) = Ret (Some sample_groups).
Proof.
  assert (H : forallb canonical_group sample_groups = true) by (vm_compute; reflexivity).
  exact (conj H (request_rules_roundtrip sample_groups H)).
Defined.

(** *** Outer parentheses *)

Lemma slice_1_m1_wrap s : slice_1_m1 (c_lpar :: s ++ [c_rpar]) = s.
Proof.
  unfold slice_1_m1, slice. simpl. rewrite length_app. simpl.
  replace (length s + 1 - 0 - 1)%nat with (length s) by lia. apply take_app_length.
Qed.

Lemma trim_length s : (length (trim s) ≤ length s)%nat.
Proof.
  unfold trim, trim_start. rewrite length_rev.
  destruct (drop_while_suffix is_ws (rev (drop_while is_ws s))) as (u & Hu & _).
  destruct (drop_while_suffix is_ws s) as (v & Hv & _).
  apply (f_equal length) in Hu, Hv. rewrite length_app in Hu, Hv. rewrite length_rev in Hu. lia.
Qed.

Lemma full_parens_length s : hasFullOuterParens s = true → (1 ≤ length s)%nat.
Proof. destruct s; simpl; [done|lia]. Qed.

Lemma slice_1_m1_length s : (1 ≤ length s)%nat → (length (slice_1_m1 s) < length s)%nat.
Proof. intros H. unfold slice_1_m1, slice. rewrite length_take, length_drop. lia. Qed.

(** The loop reaches a fixed point within the length of its argument. *)
Lemma unwrap_loop_normal fuel s :
  (length s ≤ fuel)%nat → hasFullOuterParens (unwrap_loop fuel s) = false.
Proof.
  revert s; induction fuel as [|f IH]; intros s Hf; simpl.
  - by destruct s; simpl in Hf; [|lia].
  - destruct (hasFullOuterParens s) eqn:E; [|done]. apply IH.
    pose proof (trim_length (slice_1_m1 s)).
    pose proof (slice_1_m1_length s (full_parens_length s E)). lia.
Qed.

Lemma unwrap_loop_fuel f1 f2 s :
  (length s ≤ f1)%nat → (length s ≤ f2)%nat → unwrap_loop f1 s = unwrap_loop f2 s.
Proof.
  revert f2 s; induction f1 as [|f1 IH]; intros [|f2] s H1 H2; simpl; try done.
  - by destruct s; simpl in H1; [|lia].
  - by destruct s; simpl in H2; [|lia].
  - destruct (hasFullOuterParens s) eqn:E; [|done].
    pose proof (trim_length (slice_1_m1 s)).
    pose proof (slice_1_m1_length s (full_parens_length s E)). apply IH; lia.
Qed.

Lemma unwrap_loop_trim fuel s : trim s = s → trim (unwrap_loop fuel s) = unwrap_loop fuel s.
Proof.
  revert s; induction fuel as [|f IH]; intros s Hs; simpl; [done|].
  destruct (hasFullOuterParens s); [|done]. apply IH, trim_idemp.
Qed.

(** [unwrapOuterParens] terminates with a normal form: its result is
    trimmed, is not enclosed in a matching pair of parentheses, and is left
    unchanged by a second call. *)
Theorem unwrapOuterParens_normal (expr : jstr) :
  hasFullOuterParens (unwrapOuterParens expr) = false ∧
  trim (unwrapOuterParens expr) = unwrapOuterParens expr ∧
  unwrapOuterParens (unwrapOuterParens expr) = unwrapOuterParens expr.
Proof.
  assert (Hn : hasFullOuterParens (unwrapOuterParens expr) = false)
    by (by apply unwrap_loop_normal).
  assert (Ht : trim (unwrapOuterParens expr) = unwrapOuterParens expr)
    by (apply unwrap_loop_trim, trim_idemp).
  split_and!; [done|done|]. unfold unwrapOuterParens at 1. rewrite Ht.
  destruct (length (unwrapOuterParens expr)); simpl; [done|]. by rewrite Hn.
Qed.

Lemma full_parens_scan s d :
  (∀ u v, s = u ++ v → 0 < depth_from d u) →
  full_parens_loop (s ++ [c_rpar]) d = (depth_from d s - 1 =? 0).
Proof.
  revert d; induction s as [|c s IH]; intros d Hpos.
  - cbn [app full_parens_loop nonempty]. rewrite andb_false_r. done.
  - cbn [app full_parens_loop].
    assert (0 < depth_step d c) by exact (Hpos [c] s eq_refl).
    rewrite (proj2 (Z.eqb_neq (depth_step d c) 0)) by lia. cbn [andb].
    rewrite IH; [done|]. intros u v ->. exact (Hpos (c :: u) v eq_refl).
Qed.

Lemma full_parens_wrap s : balanced s → hasFullOuterParens (c_lpar :: s ++ [c_rpar]) = true.
Proof.
  intros [Hd Hp]. unfold hasFullOuterParens.
  assert (starts_with (js "(") (c_lpar :: s ++ [c_rpar]) = true) as ->
    by (apply starts_with_true; by exists (s ++ [c_rpar])).
  assert (ends_with (js ")") (c_lpar :: s ++ [c_rpar]) = true) as ->.
  { unfold ends_with. apply starts_with_true. exists (rev (c_lpar :: s)).
    change (c_lpar :: s ++ [c_rpar]) with ((c_lpar :: s) ++ [c_rpar]). by rewrite rev_app_distr. }
  cbn [negb orb full_parens_loop]. change (depth_step 0 c_lpar) with 1. cbn [Z.eqb andb].
  rewrite full_parens_scan.
  - by rewrite depth_from_shift, Hd.
  - intros u v Huv. rewrite depth_from_shift. specialize (Hp u v Huv). lia.
Qed.

Lemma unwrap_wrap s :
  balanced s → trim s = s → unwrapOuterParens (c_lpar :: s ++ [c_rpar]) = unwrapOuterParens s.
Proof.
  intros Hb Ht. unfold unwrapOuterParens.
  rewrite (trim_no_edge (c_lpar :: s ++ [c_rpar])) by by apply no_edge_ws_app_between.
  cbn [length unwrap_loop]. rewrite full_parens_wrap, slice_1_m1_wrap, Ht by done.
  apply unwrap_loop_fuel; [rewrite length_app|]; lia.
Qed.

(** *** Splitting a combined expression *)

Lemma sort_parts_rules fs gs :
  Forall2 (λ w g, tryParseRuleGroupFactor w = Ret (Some g) ∧
                  ∃ s, w = c_lpar :: s ++ [c_rpar] ∧ balanced s) fs gs →
  sort_parts fs = Ret (fs, []).
Proof.
  induction 1 as [|w g fs gs Hw _ IH]; simpl; [done|].
  assert (tryParseRequestRuleExpr w = Ret (Some [g])) as -> by
    (apply (parse_product [w] [g]); constructor; [exact Hw|constructor]).
  cbn [mbind outcome_bind]. rewrite IH. done.
Qed.

(** The parts of a combined expression, when its base is balanced. *)
Lemma combined_expr_parts base fs :
  fs ≠ [] → balanced base →
  Forall (λ w, ∃ s, w = c_lpar :: s ++ [c_rpar] ∧ balanced s) fs →
  let e := js "(" ++ base ++ js ") * " ++ join (js " * ") fs in
  trim e = e ∧ splitTopLevelMultiply e = (c_lpar :: base ++ [c_rpar]) :: fs.
Proof.
  intros Hne Hb Hfs e.
  assert (e = join (js " * ") ((c_lpar :: base ++ [c_rpar]) :: fs)) as ->.
  { unfold e. destruct fs as [|w fs]; [done|].
    change (join (js " * ") (?x :: w :: fs)) with (x ++ js " * " ++ join (js " * ") (w :: fs)).
    change (js ") * ") with ([c_rpar] ++ js " * "). change (js "(") with [c_lpar].
    cbn [app]. by rewrite <- !app_assoc. }
  assert (Hall : Forall (λ w, ∃ s, w = c_lpar :: s ++ [c_rpar] ∧ balanced s)
                   ((c_lpar :: base ++ [c_rpar]) :: fs)) by (constructor; eauto).
  split.
  - apply trim_no_edge, join_edge; [done|].
    eapply Forall_impl; [exact Hall|]. intros w (s & -> & _). eauto.
  - unfold splitTopLevelMultiply. change (js " * ") with (32 :: js "* ").
    rewrite factor_parts by done. apply filterb_id.
    eapply Forall_impl; [exact Hall|]. by intros w (s & -> & _).
Qed.

Lemma split_combined (base : jstr) (gs : list RequestRuleGroup) :
  base ≠ [] → trim base = base → balanced base →
  tryParseRequestRuleExpr (js "(" ++ base ++ js ")") = Ret None →
  gs ≠ [] → forallb canonical_group gs = true →
  splitBillingExprAndRequestRules (combineBillingExpr base (buildRequestRuleExpr gs)) =
  Ret {| billingExpr := unwrapOuterParens base; requestRuleExpr := buildRequestRuleExpr gs |}.
Proof.
  intros Hbne Hbt Hbb Hnotrule Hgne (fs & -> & Hall)%build_groups.
  assert (Hfne : fs ≠ []) by (intros ->; by inversion Hall; subst).
  assert (Hshape : Forall (λ w, ∃ s, w = c_lpar :: s ++ [c_rpar] ∧ balanced s) fs)
    by (clear -Hall; induction Hall as [|w g ws gs' [_ ?] _ IH]; by constructor).
  assert (Hrt : trim (join (js " * ") fs) = join (js " * ") fs).
  { apply trim_no_edge, join_edge; [done|].
    eapply Forall_impl; [exact Hshape|]. intros w (s & -> & _). eauto. }
  assert (Hrne : nonempty (join (js " * ") fs) = true)
    by (destruct Hshape as [|w [|w2 l] (s & -> & _)]; done).
  apply nonempty_true in Hbne.
  unfold combineBillingExpr. rewrite Hbt, Hrt, Hbne, Hrne. cbn [negb].
  destruct (combined_expr_parts base fs Hfne Hbb Hshape) as [Ht Hparts].
  unfold splitBillingExprAndRequestRules. rewrite Ht, Hparts.
  destruct fs as [|w fs]; [done|]. cbn [nonempty app length Nat.leb].
  cbn [sort_parts]. change (c_lpar :: base ++ [c_rpar]) with (js "(" ++ base ++ js ")").
  rewrite Hnotrule. cbn [mbind outcome_bind]. fold (sort_parts (w :: fs)).
  change (tryParseRequestRuleExpr w ≫= _) with (sort_parts (w :: fs)).
  rewrite (sort_parts_rules _ _ Hall). cbn [mbind outcome_bind].
  change (js "(" ++ base ++ js ")") with (c_lpar :: base ++ [c_rpar]). by rewrite unwrap_wrap.
Qed.

(** A stored expression splits into what it was combined from: for a
    trimmed, balanced base that is not itself a rule factor and a non-empty
    list of canonical rule groups, splitting the combination returns the base
    without its outer parentheses and the very text of the rules. *)
Theorem split_combine (base : jstr) (gs : list RequestRuleGroup) :
  base ≠ [] → trim base = base → balancedb base = true →
  tryParseRequestRuleExpr (js "(" ++ base ++ js ")") = Ret None →
  gs ≠ [] → forallb canonical_group gs = true →
  splitBillingExprAndRequestRules (combineBillingExpr base (buildRequestRuleExpr gs)) =
  Ret {| billingExpr := unwrapOuterParens base; requestRuleExpr := buildRequestRuleExpr gs |}.
Proof. intros H1 H2 H3%balancedb_sound. by apply split_combined. Qed.

Definition sample_base : jstr := unq "tier('base', p * 1 + c * 2)".

Lemma split_combine_witness :
  splitBillingExprAndRequestRules
    (combineBillingExpr sample_base (buildRequestRuleExpr sample_groups)) =
  Ret {| billingExpr := unwrapOuterParens sample_base;
         requestRuleExpr := buildRequestRuleExpr sample_groups |}.
Proof.
  apply (split_combine sample_base sample_groups); try (vm_compute; reflexivity); discriminate.
Defined.

(** *** Parameter comparisons *)

(** A condition the editor offers for a parameter and prints as two conjuncts. *)
Definition param_comparison (mode value : jstr) : bool :=
  if bool_decide (mode = MATCH_CONTAINS) then value_ok value
  else match cmp_op mode with Some _ => is_numeric_literal value | None => false end.

(** The second conjunct that is printed. *)
Definition second_conjunct (p mode v : jstr) : jstr :=
  if bool_decide (mode = MATCH_CONTAINS)
  then js "has(" ++ access p SOURCE_PARAM (js "), " ++ json_quote v ++ js ")")
  else access p SOURCE_PARAM (js ") " ++ default [] (cmp_op mode) ++ js " " ++ v).

Lemma cmp_op_cases mode op :
  cmp_op mode = Some op →
  (mode, op) ∈ [(MATCH_GT, js ">"); (MATCH_GTE, js ">="); (MATCH_LT, js "<"); (MATCH_LTE, js "<=")].
Proof.
  unfold cmp_op. repeat (case_bool_decide; [intros [= <-]; subst; set_solver|]). done.
Qed.

Lemma param_access_text p t : js "param(" ++ (c_quote :: p ++ [c_quote]) ++ js ")" ++ t
  = access p SOURCE_PARAM (js ")" ++ t).
Proof. unfold access. repeat (progress (rewrite <- ?app_assoc; cbn [app])). reflexivity. Qed.

Lemma build_param_comparison p mode v :
  name_ok p = true → trim p = p → param_comparison mode v = true →
  buildRequestConditionExpr (ph SOURCE_PARAM p mode v) =
  access p SOURCE_PARAM (js ") != nil") ++ js " && " ++ second_conjunct p mode v.
Proof.
  intros Hp Ht Hc. destruct (name_ok_facts p Hp) as (Hne & _ & Hq & _).
  unfold param_comparison, second_conjunct in *. unfold buildRequestConditionExpr. cbn [ph].
  fold (ph SOURCE_PARAM p mode v). apply nonempty_true in Hne.
  case_bool_decide as Hm; [subst mode|destruct (cmp_op mode) as [op|] eqn:Hop; [|done]].
  - rewrite normalize_ph by (vm_compute; set_solver). cbn [ph ph_path ph_source ph_mode ph_value].
    rewrite Ht, Hne, Hq. cbn [negb source_name].
    rewrite bool_decide_eq_false_2, bool_decide_eq_true_2 by done.
    unfold buildExprLiteral. rewrite bool_decide_eq_true_2 by done.
    destruct (value_ok_facts v Hc) as (_ & Htv & _). rewrite Htv. clear.
    unfold access. repeat (progress (rewrite <- ?app_assoc; cbn [app])). reflexivity.
  - pose proof (cmp_op_cases mode op Hop) as Hcases.
    rewrite normalize_ph by (clear -Hcases; set_unfold in Hcases; vm_compute; set_solver).
    cbn [ph ph_path ph_source ph_mode ph_value]. rewrite Ht, Hne, Hq. cbn [negb source_name].
    rewrite (bool_decide_eq_false_2 (mode = MATCH_EXISTS)), (bool_decide_eq_false_2 _ Hm)
      by (intros ->; done).
    rewrite Hop, numeric_trim, Hc by done. cbn [negb default].
    clear. unfold access. repeat (progress (rewrite <- ?app_assoc; cbn [app])). reflexivity.
Qed.

Lemma second_conjunct_unparsed p mode v :
  name_ok p = true → param_comparison mode v = true →
  tryParseRequestCondition (second_conjunct p mode v) = Ret None.
Proof.
  intros Hp Hc. unfold second_conjunct, param_comparison in *. case_bool_decide as Hm.
  - unfold tryParseRequestCondition. rewrite has_not_time.
    unfold HEADER_EXISTS_RE, PARAM_EXISTS_RE, HEADER_CONTAINS_RE, PARAM_CONTAINS_RE,
      PARAM_CMP_RE, EQ_RE. rewrite !match_caps_bol.
    generalize (js "), " ++ json_quote v ++ js ")") as w. intros w. unfold access. by rx.
  - destruct (cmp_op mode) as [op|] eqn:Hop; [|done]. apply cmp_op_cases in Hop. cbn [default].
    rewrite access_only_eq.
    + unfold EQ_RE. rewrite match_caps_bol. destruct (name_ok_facts p Hp) as (Hne & Hq & _).
      unfold access. rx. rewrite rmatch_quoted_arg by done.
      rewrite !elem_of_cons, elem_of_nil in Hop. destruct Hop as [[= _ ->]|[[= _ ->]|[[= _ ->]|[[= _ ->]|[]]]]]; by rx.
    + done.
    + rewrite !elem_of_cons, elem_of_nil in Hop. by destruct Hop as [[= _ ->]|[[= _ ->]|[[= _ ->]|[[= _ ->]|[]]]]].
Qed.

Lemma second_conjunct_text p mode v :
  name_ok p = true → param_comparison mode v = true → cond_text (second_conjunct p mode v).
Proof.
  intros Hp Hc. unfold second_conjunct, param_comparison in *. case_bool_decide as Hm.
  - destruct (value_ok_facts v Hc) as (_ & _ & Hi & _).
    assert (Hq : forallb inert (js ", " ++ json_quote v) = true)
      by (apply quote_inert in Hi; rewrite forallb_app; exact Hi).
    destruct (access_text p SOURCE_PARAM (js ", " ++ json_quote v) Hp) as [B A];
      [by apply balanced_inert|by apply inert_not_amp|].
    rewrite (app_assoc (js "), ")), access_snoc.
    change (access p SOURCE_PARAM (js "), " ++ json_quote v)) with
      (access p SOURCE_PARAM (c_rpar :: js ", " ++ json_quote v)).
    revert B A. generalize (access p SOURCE_PARAM (c_rpar :: js ", " ++ json_quote v)) as w.
    intros w B A. eapply (cond_text_intro _ (js "has(") w (js ")")); [done..|].
    change (js "has(" ++ w ++ js ")") with (js "has" ++ (c_lpar :: w ++ [c_rpar])). split.
    + apply balanced_app; [by apply balanced_no_paren|by apply balanced_paren].
    + rewrite forallb_app. cbn [forallb]. by rewrite forallb_app, A.
  - destruct (cmp_op mode) as [op|] eqn:Hop; [|done]. apply cmp_op_cases in Hop. cbn [default].
    assert (Hopi : forallb inert op = true)
      by (rewrite !elem_of_cons, elem_of_nil in Hop;
          by destruct Hop as [[= _ ->]|[[= _ ->]|[[= _ ->]|[[= _ ->]|[]]]]]).
    eapply (cond_text_intro _ (source_name SOURCE_PARAM) _ v); [|done| |done| |].
    + rewrite (app_assoc op), (app_assoc (js ") ")). apply access_split.
    + by apply numeric_literal_class.
    + by apply numeric_trim.
    + change (js ") ") with (c_rpar :: js " "). cbn [app]. rewrite (app_assoc op), (app_assoc (js " ")).
      apply access_text; [done|..]; apply numeric_text; try done; by rewrite !forallb_app, Hopi.
Qed.

(** A rule that compares a parameter (substring, greater, less) is lost:
    the editor prints it as a test for [nil] and a comparison joined by a
    conjunction, the parser splits at that conjunction before it tries the
    two-part patterns, and so returns [null] for the printed text. *)
Theorem param_comparison_unparsed (p mode v mult : jstr) :
  name_ok p = true → trim p = p → param_comparison mode v = true →
  is_numeric_literal mult = true →
  tryParseRequestRuleExpr
    (buildRequestRuleExpr
       [{| rg_conditions := [ph SOURCE_PARAM p mode v]; rg_multiplier := mult |}]) = Ret None.
Proof.
  intros Hp Ht Hc Hm.
  set (first := access p SOURCE_PARAM (js ") != nil")).
  assert (Hfirst : cond_text first) by (apply (canon_text _ _ (canon_exists SOURCE_PARAM p Hp))).
  assert (Hsecond := second_conjunct_text p mode v Hp Hc).
  set (cond := first ++ js " && " ++ second_conjunct p mode v).
  assert (Hcond : cond = join (js " && ") [first; second_conjunct p mode v]) by done.
  assert (Hcne : cond ≠ []) by (by unfold cond, first).
  assert (Hbal : balanced cond)
    by (rewrite Hcond; apply join_balanced; [done|]; repeat constructor; apply ct_balanced; done).
  assert (buildRequestRuleExpr [{| rg_conditions := [ph SOURCE_PARAM p mode v];
            rg_multiplier := mult |}] = factor_text cond mult) as ->.
  { unfold buildRequestRuleExpr, buildRuleGroupFactor. cbn [map rg_conditions rg_multiplier].
    rewrite numeric_trim, Hm, build_param_comparison by done. fold first. fold cond. cbn [negb filterb List.filter].
    apply nonempty_true in Hcne. rewrite Hcne. done. }
  destruct (factor_text_shape cond mult Hbal Hm) as (s & Hs & Hsb).
  unfold tryParseRequestRuleExpr. rewrite Hs, trim_no_edge by by apply no_edge_ws_app_between.
  cbn [nonempty]. unfold splitTopLevelMultiply. change (js " * ") with (32 :: js "* ").
  pose proof (factor_parts 32 (js "* ") [c_lpar :: s ++ [c_rpar]]) as Hparts. cbn [join] in Hparts.
  rewrite Hparts by (done || (constructor; [by eexists|constructor])). clear Hparts.
  cbn [filterb List.filter nonempty traverse_o]. rewrite <- Hs.
  unfold tryParseRuleGroupFactor. rewrite match_factor by done.
  change (group 1 (cap_add 2 mult (cap_add 1 cond []))) with cond.
  rewrite Hcond, split_and_parts
    by (done || (apply Forall_cons_2; [done|apply Forall_cons_2; [done|constructor]])).
  cbn [traverse_o]. rewrite !(ct_trim _ Hfirst), !(ct_trim _ Hsecond).
  rewrite second_conjunct_unparsed by done.
  assert (tryParseRequestCondition first = Ret (Some (ph SOURCE_PARAM p MATCH_EXISTS []))) as ->
    by exact (canon_parse _ _ (canon_exists SOURCE_PARAM p Hp)).
  done.
Qed.

Lemma param_comparison_unparsed_witness :
  param_comparison MATCH_GT (js "1000") = true ∧
  tryParseRequestRuleExpr
    (buildRequestRuleExpr
       [{| rg_conditions := [ph SOURCE_PARAM (js "max_tokens") MATCH_GT (js "1000")];
           rg_multiplier := js "2" |}]) = Ret None.
Proof.
  split; [vm_compute; reflexivity|].
  apply (param_comparison_unparsed (js "max_tokens") MATCH_GT (js "1000") (js "2"));
    vm_compute; reflexivity.
Defined.

(** *** Malformed literals *)

(** The parser throws instead of returning [null] on a header substring
    test whose literal is delimited like a string but is not valid JSON, for
    instance because of an unknown escape. *)
Theorem header_contains_throws (p e : jstr) :
  name_ok p = true → escaped e → json_parse (c_quote :: e ++ [c_quote]) = None →
  tryParseRequestCondition
    (js "has(" ++ access p SOURCE_HEADER (js "), " ++ c_quote :: e ++ c_quote :: js ")")) = Throw.
Proof.
  intros Hp He Hnone. unfold tryParseRequestCondition. rewrite has_not_time.
  unfold HEADER_EXISTS_RE, PARAM_EXISTS_RE, HEADER_CONTAINS_RE. rewrite !match_caps_bol.
  set (w := js "), " ++ c_quote :: e ++ c_quote :: js ")").
  assert (∀ r, rmatch (lit "header(" ⋅ r) Some (MState [] (js "has(" ++ access p SOURCE_HEADER w) [])
            = None) as -> by (intros r; unfold access; by rx).
  assert (∀ r, rmatch (lit "param(" ⋅ r) Some (MState [] (js "has(" ++ access p SOURCE_HEADER w) [])
            = None) as -> by (intros r; unfold access; by rx).
  unfold access. rewrite app_assoc. change (js "has(" ++ js "header(") with (js "has(header(").
  rewrite rmatch_access by done. unfold w. rewrite rmatch_seq, rmatch_lit_app, rmatch_seq.
  erewrite rmatch_string_literal; [|done|by rx].
  cbn [fmap option_fmap option_map m_caps].
  change (group 2 (cap_add 2 (c_quote :: e ++ [c_quote]) (cap_add 1 p [])))
    with (c_quote :: e ++ [c_quote]).
  unfold parse_literal. by rewrite Hnone.
Qed.

Lemma header_contains_throws_witness :
  tryParseRequestCondition (unq "has(header('X'), '\x')") = Throw.
Proof.
  apply (header_contains_throws (js "X") (js "\x")); [vm_compute; reflexivity| |vm_compute; reflexivity].
  apply esc_pair; [reflexivity|constructor].
Defined.

(** *** Normal conditions *)

Lemma mode_or_option options mode fallback :
  fallback ∈ map mo_value options → mode_or options mode fallback ∈ map mo_value options.
Proof.
  intros Hf. unfold mode_or. destruct mode as [m|]; [|done]. case_match eqn:E; [|done].
  apply existsb_exists in E as (o & Ho & Hv). reflect_bools. subst m.
  apply list_elem_of_fmap. exists o. by rewrite list_elem_of_In.
Qed.

(** The source of a condition, as the editor's option list names it. *)
Definition condition_source (c : RequestCondition) : jstr :=
  match c with TimeCond _ => js "time" | PHCond h => source_name (ph_source h) end.

Definition condition_mode (c : RequestCondition) : jstr :=
  match c with TimeCond t => tc_mode t | PHCond h => ph_mode h end.

(** [normalizeCondition] returns a condition whose mode is one the editor
    offers for its source, and normalizing it again changes nothing. *)
Theorem normalizeCondition_normal (cond : PartialCondition) :
  let c := normalizeCondition cond in
  condition_mode c ∈ map mo_value (getRequestRuleMatchOptions (condition_source c)) ∧
  normalizeCondition (partial_of c) = c.
Proof.
  intros c. destruct (bool_decide (pc_source cond = Some (js "time"))) eqn:Htime.
  - assert (Hc : ∃ f tz m v a b, tz ≠ [] ∧
        m ∈ map mo_value (getRequestRuleMatchOptions (js "time")) ∧
        c = TimeCond {| tc_timeFunc := f; tc_timezone := tz; tc_mode := m; tc_value := v;
                        tc_rangeStart := a; tc_rangeEnd := b |}).
    { unfold c, normalizeCondition. rewrite Htime. do 6 eexists. split_and!; [..|reflexivity].
      - unfold or_string. by destruct (pc_timezone cond) as [[|]|].
      - apply mode_or_option. vm_compute. set_solver. }
    destruct Hc as (f & tz & m & v & a & b & Htz & Hm & ->). split; [exact Hm|].
    by apply normalize_time.
  - assert (Hc : ∃ src p m v, c = ph src p m v ∧
        m ∈ map mo_value (getRequestRuleMatchOptions (source_name src))).
    { unfold c, normalizeCondition. rewrite Htime. do 4 eexists. split; [reflexivity|].
      apply mode_or_option. destruct (bool_decide (pc_source cond = Some (js "header"))); apply list_elem_of_here. }
    destruct Hc as (src & p & m & v & -> & Hm). split; [exact Hm|]. by apply normalize_ph.
Qed.
