(* ===== verification/TierExpr.v ===== *)
(** * Billing expressions: tiers

    Model of [web/default/src/features/pricing/lib/tier-expr.ts], the tiers of
    the visual pricing editor, how they are printed as an expression and read
    back, and of the tier parser of [billing-expr.ts], which the price
    displays use. Unit costs are numbers; fields a tier does not name are
    [undefined] and read as [NaN]. The local evaluation of an expression is modelled
    in [Estimator]. *)

From Stdlib Require Import String.
From S2P Require Import JsExec JsJson BillingExpr.

(** ** Tiers *)

Inductive CacheMode := CACHE_MODE_TIMED | CACHE_MODE_GENERIC.
Inductive TierVar := Var_p | Var_c | Var_len.
Inductive TierOp := Op_lt | Op_le | Op_gt | Op_ge.

#[export] Instance CacheMode_eq_dec : EqDecision CacheMode.
Proof. solve_decision. Defined.
#[export] Instance TierVar_eq_dec : EqDecision TierVar.
Proof. solve_decision. Defined.
#[export] Instance TierOp_eq_dec : EqDecision TierOp.
Proof. solve_decision. Defined.

Definition var_name (v : TierVar) : jstr :=
  match v with Var_p => js "p" | Var_c => js "c" | Var_len => js "len" end.

Definition op_name (o : TierOp) : jstr :=
  match o with Op_lt => js "<" | Op_le => js "<=" | Op_gt => js ">" | Op_ge => js ">=" end.

(** The bound of a condition: a number, or the text of an input field. *)
Inductive cond_value := NumValue (x : jsnum) | TextValue (s : jstr).

Record TierConditionInput := { ci_var : TierVar; ci_op : TierOp; ci_value : cond_value }.

Record VisualTier := {
  t_label : jstr;
  t_conditions : list TierConditionInput;
  t_input : jsnum;
  t_output : jsnum;
  t_cache_mode : CacheMode;
  t_costs : list (jstr * jsnum);   (* the other unit costs, by field *)
}.

(** [Partial<VisualTier>] *)
Record PartialTier := {
  p_label : option jstr;
  p_conditions : option (list TierConditionInput);
  p_input : option jsnum;
  p_output : option jsnum;
  p_cache_mode : option CacheMode;
  p_costs : list (jstr * jsnum);
}.

Definition as_partial (t : VisualTier) : PartialTier :=
  {| p_label := Some (t_label t); p_conditions := Some (t_conditions t); p_input := Some (t_input t);
     p_output := Some (t_output t); p_cache_mode := Some (t_cache_mode t); p_costs := t_costs t |}.

(** [Number(x) || 0] *)
Definition or_zero (x : option jsnum) : jsnum :=
  match x with
  | None | Some S754_nan | Some (S754_zero _) => S754_zero false
  | Some x => x
  end.

Definition positive (x : jsnum) : bool := num_lt (S754_zero false) x.

Definition cost (costs : list (jstr * jsnum)) (field : jstr) : jsnum := or_zero (map_get costs field).

Definition getTierCacheMode (tier : PartialTier) : CacheMode :=
  match p_cache_mode tier with
  | Some m => m
  | None => if positive (cost (p_costs tier) (js "cache_create_1h_unit_cost")) then CACHE_MODE_TIMED else CACHE_MODE_GENERIC
  end.

(** The spread keeps input and output costs as they are given. *)
Definition normalizeVisualTier (tier : PartialTier) : VisualTier :=
  {| t_label := default [] (p_label tier);
     t_conditions := default [] (p_conditions tier);
     t_input := default (or_zero None) (p_input tier);
     t_output := default (or_zero None) (p_output tier);
     t_cache_mode := getTierCacheMode tier;
     t_costs := map (λ field, (js field, cost (p_costs tier) (js field)))
       ["cache_read_unit_cost"; "cache_create_unit_cost"; "cache_create_1h_unit_cost"; "image_unit_cost";
        "image_output_unit_cost"; "audio_input_unit_cost"; "audio_output_unit_cost"]%string |}.

Definition createDefaultVisualConfig : list VisualTier :=
  [normalizeVisualTier
    {| p_label := Some (js "base"); p_conditions := Some []; p_input := Some (num_of_Z 0);
       p_output := Some (num_of_Z 0); p_cache_mode := Some CACHE_MODE_GENERIC; p_costs := [] |}].

(** A configuration is its tiers, [None] being [null]. *)
Definition normalizeVisualConfig (config : option (list PartialTier)) : list VisualTier :=
  match config with
  | None | Some [] => createDefaultVisualConfig
  | Some tiers => map normalizeVisualTier tiers
  end.

(** ** Printing *)

Definition value_text (v : cond_value) : jstr :=
  match v with NumValue x => string_of_number x | TextValue s => s end.

Definition condition_text (c : TierConditionInput) : jstr :=
  var_name (ci_var c) ++ js " " ++ op_name (ci_op c) ++ js " " ++ value_text (ci_value c).

Definition has_value (c : TierConditionInput) : bool :=
  match ci_value c with TextValue [] => false | _ => true end.

Definition buildConditionStr (conditions : list TierConditionInput) : jstr :=
  join (js " && ") (map condition_text (filterb has_value conditions)).

(** [`${v} * ${x}`] *)
Definition product (v : jstr) (x : jsnum) : jstr := v ++ js " * " ++ string_of_number x.

Definition nonzero (x : jsnum) : bool := match x with S754_zero _ => false | _ => true end.

Definition extra_products (tier : VisualTier) : list jstr :=
  omap (λ e : jstr * jstr, let v := cost (t_costs tier) e.1 in
          if nonzero v then Some (product e.2 v) else None) BILLING_CACHE_VAR_MAP.

Definition buildTierBodyExpr (tier : VisualTier) : jstr :=
  join (js " + ") (product (js "p") (or_zero (Some (t_input tier)))
                   :: product (js "c") (or_zero (Some (t_output tier))) :: extra_products tier).

Definition quoted (s : jstr) : jstr := c_quote :: s ++ [c_quote].

Definition tier_call (label : jstr) (tier : VisualTier) : jstr :=
  js "tier(" ++ quoted label ++ js ", " ++ buildTierBodyExpr tier ++ js ")".

Definition label_or (d : jstr) (tier : VisualTier) : jstr := match t_label tier with [] => d | l => l end.

(** The parts of several tiers: only the last one drops its conditions. *)
Fixpoint tier_parts (i : Z) (tiers : list VisualTier) : list jstr :=
  match tiers with
  | [] => []
  | tier :: rest =>
      let body := tier_call (label_or (js "tier_" ++ string_of_Z (i + 1)) tier) tier in
      let cond := buildConditionStr (t_conditions tier) in
      (if nonempty rest && nonempty cond then cond ++ js " ? " ++ body else body)
      :: tier_parts (i + 1) rest
  end.

Definition generateExprFromVisualConfig (config : option (list VisualTier)) : jstr :=
  match config with
  | None | Some [] => js "p * 0 + c * 0"
  | Some [tier] =>
      let body := tier_call (label_or (js "default") tier) tier in
      let cond := buildConditionStr (t_conditions tier) in
      if nonempty cond then cond ++ js " ? " ++ body ++ js " : p * 0 + c * 0" else body
  | Some tiers => join (js " : ") (tier_parts 0 tiers)
  end.

(** ** Patterns *)

(** [\s*] *)
Definition sp : re := rstar is_ws.

(** [[\d.eE+]] *)
Definition bound_class (c : Z) : bool :=
  is_digit c || (c =? 46) || (c =? 101) || (c =? 69) || (c =? 43).

Definition var_re : re := lit "p" ⊕ lit "c" ⊕ lit "len".
Definition op_re : re := lit "<" ⊕ lit "<=" ⊕ lit ">" ⊕ lit ">=".

(** One comparison, and a run of them joined by [&&]. *)
Definition comparison_re : re := var_re ⋅ sp ⋅ op_re ⋅ sp ⋅ rplus bound_class.
Definition cond_group_re (i : nat) : re :=
  RGroup i (comparison_re ⋅ RStar true (sp ⋅ lit "&&" ⋅ sp ⋅ comparison_re)).

Definition cond_prefix_re : re := ropt (cond_group_re 1 ⋅ sp ⋅ lit "?" ⋅ sp).

(** [tier("label", ] with the label as group [i], then [r]. *)
Definition tier_re (i : nat) (r : re) : re :=
  lit "tier(" ⋅ rlits [c_quote] ⋅ RGroup i (rstar not_quote) ⋅ rlits [c_quote] ⋅ lit "," ⋅ sp ⋅ r.

(** [v * number] with the number as group [i], then [r]. *)
Definition product_re (v : jstr) (i : nat) (r : re) : re :=
  rlits v ⋅ sp ⋅ lit "*" ⋅ sp ⋅ RGroup i (rplus num_class) ⋅ r.

(** The optional products of the variables [vs], groups from [i] on. *)
Fixpoint extra_re (vs : list jstr) (i : nat) (r : re) : re :=
  match vs with
  | [] => r
  | v :: vs' => ropt (sp ⋅ lit "+" ⋅ sp ⋅ product_re v i REps) ⋅ extra_re vs' (S i) r
  end.

Definition cacheVarNames : list jstr := map snd BILLING_CACHE_VAR_MAP.

Definition body_re (i : nat) (r : re) : re :=
  product_re (js "p") i (sp ⋅ lit "+" ⋅ sp ⋅ product_re (js "c") (S i) (extra_re cacheVarNames (S (S i)) r)).

Definition SINGLE_RE : re := RBol ⋅ tier_re 1 (body_re 2 (lit ")" ⋅ REol)).

Definition TIER_RE : re := cond_prefix_re ⋅ tier_re 2 (body_re 3 (lit ")")).

Definition AND_RE : re := sp ⋅ lit "&&" ⋅ sp.

Definition CONDITION_RE : re :=
  RBol ⋅ RGroup 1 var_re ⋅ sp ⋅ RGroup 2 op_re ⋅ sp ⋅ RGroup 3 (rplus bound_class) ⋅ REol.

Definition VERSION_RE : re := RBol ⋅ lit "v" ⋅ RGroup 1 (rplus is_digit) ⋅ lit ":" ⋅ RGroup 2 (rstar any_char) ⋅ REol.

(** ** Reading *)

Definition var_of (s : jstr) : TierVar :=
  if bool_decide (s = js "p") then Var_p else if bool_decide (s = js "c") then Var_c else Var_len.

Definition op_of (s : jstr) : TierOp :=
  if bool_decide (s = js "<") then Op_lt else if bool_decide (s = js "<=") then Op_le
  else if bool_decide (s = js ">") then Op_gt else Op_ge.

(** The conditions of a captured run of comparisons. *)
Definition parse_conditions (condStr : jstr) : list TierConditionInput :=
  match condStr with
  | [] => []
  | _ =>
      omap (λ cp, cm ← match_caps CONDITION_RE (trim cp);
        Some {| ci_var := var_of (group 1 cm); ci_op := op_of (group 2 cm);
                ci_value := NumValue (number_of_string (group 3 cm)) |}) (re_split AND_RE condStr)
  end.

(** The extra costs captured from group [i] on. *)
Fixpoint captured_costs (i : nat) (m : list (jstr * jstr)) (cs : caps) : list (jstr * jsnum) :=
  match m with
  | [] => []
  | (field, _) :: m' =>
      match cap i cs with
      | Some s => (field, number_of_string s) :: captured_costs (S i) m' cs
      | None => captured_costs (S i) m' cs
      end
  end.

(** The tier of a match: label in group [i], costs from the next group on. *)
Definition captured_tier (conditions : list TierConditionInput) (i : nat) (cs : caps) : VisualTier :=
  normalizeVisualTier
    {| p_label := Some (group i cs); p_conditions := Some conditions;
       p_input := Some (number_of_string (group (S i) cs));
       p_output := Some (number_of_string (group (S (S i)) cs));
       p_cache_mode := None;
       p_costs := captured_costs (S (S (S i))) BILLING_CACHE_VAR_MAP cs |}.

(** [s.replace(/\s+/g, '')] *)
Definition without_spaces (s : jstr) : jstr := filterb (λ c, negb (is_ws c)) s.

(** The text after a version prefix. *)
Definition strip_version (exprStr : jstr) : jstr :=
  match match_caps VERSION_RE exprStr with Some cs => group 2 cs | None => exprStr end.

Definition tryParseVisualConfig (exprStr : jstr) : option (list VisualTier) :=
  match exprStr with
  | [] => None
  | _ =>
      let body := strip_version exprStr in
      match match_caps SINGLE_RE body with
      | Some cs => Some (normalizeVisualConfig (Some [as_partial (captured_tier [] 1 cs)]))
      | None =>
          match map (λ cs, captured_tier (parse_conditions (default [] (cap 1 cs))) 2 cs) (exec_all TIER_RE body) with
          | [] => None
          | tiers =>
              let cfg := normalizeVisualConfig (Some (map as_partial tiers)) in
              if bool_decide (without_spaces (generateExprFromVisualConfig (Some cfg)) = without_spaces body)
              then Some cfg else None
          end
      end
  end.

Definition ESTIMATOR_VARS : list jstr := map js ["cr"; "cc"; "cc1h"; "img"; "img_o"; "ai"; "ao"]%string.

Definition word_of (vs : list jstr) : re := foldr (λ v r, rlits v ⊕ r) (RChar (λ _, false)) vs.

Definition exprUsesExtraVars (exprStr : jstr) : bool :=
  nonempty exprStr && re_test (RWordBoundary ⋅ RGroup 1 (word_of ESTIMATOR_VARS) ⋅ RWordBoundary) exprStr.

(** ** The tiers of the price displays *)

Record ParsedTier := {
  pt_label : jstr;
  pt_conditions : list TierConditionInput;
  pt_prices : list (jstr * jsnum);   (* by price field *)
}.

Definition BILLING_VAR_KEY_TO_FIELD : list (jstr * jstr) :=
  map (λ v, (bv_key v, default [] (bv_field v))) BILLING_PRICING_VARS.

Definition BILLING_VAR_REGEX : re :=
  RWordBoundary ⋅ RGroup 1 (word_of (map bv_key BILLING_PRICING_VARS)) ⋅ sp ⋅ lit "*" ⋅ sp ⋅ RGroup 2 (rplus num_class).

Definition stripExprVersion (exprStr : jstr) : jsnum * jstr :=
  match match_caps VERSION_RE exprStr with
  | Some cs => (number_of_string (group 1 cs), group 2 cs)
  | None => (num_of_Z 1, exprStr)
  end.

(** Of several coefficients of a variable the first one counts. *)
Definition add_coeff (coeffs : list (jstr * jsnum)) (cs : caps) : list (jstr * jsnum) :=
  if map_has coeffs (group 1 cs) then coeffs else map_set coeffs (group 1 cs) (number_of_string (group 2 cs)).

Definition parseTierBody (bodyStr : jstr) : list (jstr * jsnum) :=
  let coeffs := foldl add_coeff [] (exec_all BILLING_VAR_REGEX bodyStr) in
  map (λ e : jstr * jstr, (e.2, or_zero (map_get coeffs e.1))) BILLING_VAR_KEY_TO_FIELD.

Definition not_rpar (c : Z) : bool := negb (c =? c_rpar).

Definition PARSED_TIER_RE : re := cond_prefix_re ⋅ tier_re 2 (RGroup 3 (rplus not_rpar) ⋅ lit ")").

Definition parsed_tier (cs : caps) : ParsedTier :=
  {| pt_label := group 2 cs; pt_conditions := parse_conditions (default [] (cap 1 cs));
     pt_prices := parseTierBody (group 3 cs) |}.

Definition parseTiersFromExpr (exprStr : jstr) : list ParsedTier :=
  match exprStr with
  | [] => []
  | _ => map parsed_tier (exec_all PARSED_TIER_RE (stripExprVersion exprStr).2)
  end.

(** The signs of a comparison, ASCII or wide, without the equals sign. *)
Definition comparison_sign (ascii wide composed : Z) : re :=
  (RChar (is_chr ascii) ⋅ ropt (RChar (is_chr 61) ⊕ RChar (is_chr 65309)))
  ⊕ RChar (is_chr composed)
  ⊕ (RChar (is_chr wide) ⋅ ropt (RChar (is_chr 61) ⊕ RChar (is_chr 65309))).

(** [toLowerCase] is the language's. *)
Definition normalizeTierLabel (toLowerCase : jstr → jstr) (label : jstr) : jstr :=
  let signs := re_replace (comparison_sign 62 65310 8805) (js ">")
                 (re_replace (comparison_sign 60 65308 8804) (js "<") label) in
  toLowerCase (without_spaces signs).
