(* ===== verification/TierExprFacts.v ===== *)
(** * Billing expressions: matching printed tiers

    What the patterns of the tier parsers do on printed tiers: the products of
    a body, the conditions in front of a tier, and one tier after another. *)

From Stdlib Require Import String.
From S2P Require Import JsExec JsJson BillingExpr TierExpr.

#[local] Opaque js string_of_number number_of_string.

(** ** Numbers that print and read back *)

(** Printed within a class and read back; every number that is no integer
    beyond the exact range and has few digits is one. *)
Definition reads_back (class : Z → bool) (x : jsnum) : bool :=
  nonempty (string_of_number x) && forallb class (string_of_number x)
  && bool_decide (number_of_string (string_of_number x) = x).

Lemma reads_back_spec class x :
  reads_back class x = true →
  string_of_number x ≠ [] ∧ Forall (λ c, class c = true) (string_of_number x)
  ∧ number_of_string (string_of_number x) = x.
Proof.
  intros [[H1%nonempty_true H2]%andb_true_iff H3%bool_decide_eq_true]%andb_true_iff.
  split; [done|]. split; [|done]. rewrite forallb_forall in H2. apply Forall_forall.
  intros c Hc. by apply H2, list_elem_of_In.
Qed.

(** ** Literals and blanks of the patterns *)

Lemma js_sp : js " " = [32]. Proof. done. Qed.
Lemma js_times : js " * " = [32] ++ js "*" ++ [32]. Proof. done. Qed.
Lemma js_plus : js " + " = [32] ++ js "+" ++ [32]. Proof. done. Qed.
Lemma js_and : js " && " = [32] ++ js "&&" ++ [32]. Proof. done. Qed.
Lemma js_ask : js " ? " = [32] ++ js "?" ++ [32]. Proof. done. Qed.
Lemma js_colon : js " : " = [32; 58; 32]. Proof. done. Qed.

Lemma strip_head_ne c w d s : d ≠ c → strip_prefix (c :: w) (d :: s) = None.
Proof.
  intros H. destruct (strip_prefix _ _) eqn:E; [|done]. apply strip_prefix_Some in E. by injection E as ->.
Qed.

(** A state whose prefix is written differently. *)
Ltac same_pre H :=
  match goal with |- context [MState ?p _ _] =>
    match type of H with context [MState ?q _ _] =>
      replace p with q; [exact H|rewrite ?rev_app_distr, <- ?app_assoc; reflexivity]
    end
  end.

(** The head of a text is outside a class. *)
Definition stops (P : Z → bool) (s : jstr) : Prop := ∀ c s', s = c :: s' → P c = false.

Lemma stops_cons P c s : P c = false → stops P (c :: s).
Proof. by intros H d s' [= <- <-]. Qed.

Lemma stops_app P w s : w ≠ [] → stops P w → stops P (w ++ s).
Proof. intros Hw Hs c s'. destruct w as [|d w]; [done|]. intros [= <- _]. by eapply Hs. Qed.

Section matching.
Context {R : Type}.
Implicit Types k : mstate → option R.

Lemma follow_sp r k pre u s cs :
  Forall (λ c, is_ws c = true) u → stops is_ws s → rejects is_ws r →
  rmatch (sp ⋅ r) k (MState pre (u ++ s) cs) = rmatch r k (MState (rev u ++ pre) s cs).
Proof. apply follow_star. Qed.

(** One blank, none, before a literal. *)
Lemma follow_blank_lit c w r k pre s cs :
  is_ws c = false →
  rmatch (sp ⋅ rlits (c :: w) ⋅ r) k (MState pre (32 :: (c :: w) ++ s) cs)
  = rmatch r k (MState (rev (c :: w) ++ 32 :: pre) s cs).
Proof.
  intros Hc. change (32 :: (c :: w) ++ s) with ([32] ++ (c :: w) ++ s).
  rewrite (follow_sp (rlits (c :: w) ⋅ r)).
  - by rewrite follow_lits.
  - by apply Forall_singleton.
  - by apply stops_cons.
  - by apply rejects_seq, rejects_lits.
Qed.

(** A blank before something else than a literal. *)
Lemma fail_blank_lit c w r k pre u s cs :
  is_ws c = false → Forall (λ c, is_ws c = true) u → stops is_ws s → strip_prefix (c :: w) s = None →
  rmatch (sp ⋅ rlits (c :: w) ⋅ r) k (MState pre (u ++ s) cs) = None.
Proof.
  intros Hc Hu Hs Hp. rewrite (follow_sp (rlits (c :: w) ⋅ r)); [by apply fail_lits|done..|].
  by apply rejects_seq, rejects_lits.
Qed.
End matching.

(** ** Products *)

Lemma num_class_ws c : is_ws c = true → num_class c = false.
Proof. unfold is_ws, num_class, is_digit. intros H. solve_bool. Qed.

Lemma bound_class_ws c : is_ws c = true → bound_class c = false.
Proof. unfold is_ws, bound_class, is_digit. intros H. solve_bool. Qed.

(** A variable: letters, digits and underscores. *)
Definition is_var (v : jstr) : Prop := v ≠ [] ∧ Forall (λ c, is_word c = true) v.

Lemma is_word_ws c : is_word c = true → is_ws c = false ∧ c ≠ 42.
Proof. unfold is_word, is_ws, is_digit. intros H. split; solve_bool. Qed.

Lemma is_var_stops v s : is_var v → stops is_ws (v ++ s).
Proof.
  intros [Hne Hv]. destruct v as [|c v]; [done|]. apply Forall_cons in Hv as [Hc _].
  apply stops_cons. by apply is_word_ws.
Qed.

Lemma class_stops (P Q : Z → bool) n s :
  n ≠ [] → Forall (λ c, P c = true) n → (∀ c, P c = true → Q c = false) → stops Q (n ++ s).
Proof. intros Hne Hn H. destruct n as [|c n]; [done|]. apply Forall_cons in Hn as [Hc _]. by apply stops_cons, H. Qed.

Section products.
Context {R : Type}.
Implicit Types k : mstate → option R.

Lemma follow_product v i r k pre x s cs y :
  reads_back num_class x = true → stops num_class s →
  rmatch r k (MState (rev (product v x) ++ pre) s (cap_add i (string_of_number x) cs)) = Some y →
  rmatch (product_re v i r) k (MState pre (product v x ++ s) cs) = Some y.
Proof.
  intros (Hne & Hn & _)%reads_back_spec Hs Hk. unfold product_re, product in *.
  rewrite <- app_assoc, follow_lits, js_times, <- !app_assoc. cbn [app]. change (lit "*") with (rlits (42 :: [])).
  change (js "*" ++ 32 :: string_of_number x ++ s) with ((42 :: []) ++ 32 :: string_of_number x ++ s).
  rewrite (follow_blank_lit 42 []) by done.
  change (32 :: string_of_number x ++ s) with ([32] ++ string_of_number x ++ s).
  rewrite follow_sp; [|by apply Forall_singleton| |].
  - apply follow_group_plus; [done..|]. rewrite js_times, !rev_app_distr, <- !app_assoc in Hk. exact Hk.
  - eapply class_stops; [done|exact Hn|]. intros c Hc. destruct (is_ws c) eqn:E; [|done]. by rewrite num_class_ws in Hc.
  - apply rejects_seq, rejects_group, rejects_plus, num_class_ws.
Qed.

(** After another variable there is neither a blank nor the sign. *)
Lemma other_var_rest v w s t :
  is_var v → is_var w → v ≠ w → strip_prefix v (w ++ js " * " ++ s) = Some t →
  ∃ c t', t = c :: t' ∧ is_ws c = false ∧ c ≠ 42.
Proof.
  intros [Hv Fv] [Hw Fw] Hvw E. apply strip_prefix_Some in E.
  assert (Ht : ∃ c t', t = c :: t' ∧ is_word c = true).
  { clear Hv Hw. revert w Fw Hvw E; induction Fv as [|c v Hc Fv IH]; intros w Fw Hvw E.
    - destruct Fw as [|d w Hd Fw]; [done|]. exists d, (w ++ js " * " ++ s). by cbn in E; rewrite <- E.
    - destruct Fw as [|d w Hd Fw].
      + rewrite js_times in E. cbn in E. injection E as <- _. by apply is_word_ws in Hc as [? _].
      + cbn in E. injection E as <- E. apply (IH w Fw); [congruence|done]. }
  destruct Ht as (c & t' & -> & Hc). exists c, t'. split; [done|]. by apply is_word_ws.
Qed.

Lemma fail_times c t r k pre cs : is_ws c = false → c ≠ 42 → rmatch (sp ⋅ lit "*" ⋅ r) k (MState pre (c :: t) cs) = None.
Proof.
  intros H1 H2. change (lit "*") with (rlits (42 :: [])).
  apply (fail_blank_lit 42 [] r k _ [] (c :: t) cs); [done|by apply Forall_nil_2|by apply stops_cons|by apply strip_head_ne].
Qed.

(** Another variable does not match. *)
Lemma fail_other_var v w r k pre s cs :
  is_var v → is_var w → v ≠ w →
  rmatch (rlits v ⋅ sp ⋅ lit "*" ⋅ r) k (MState pre (w ++ js " * " ++ s) cs) = None.
Proof.
  intros Hv Hw Hvw. destruct (strip_prefix v (w ++ js " * " ++ s)) as [t|] eqn:E; [|by apply fail_lits].
  destruct (other_var_rest _ _ _ _ Hv Hw Hvw E) as (c & t' & -> & H1 & H2). apply strip_prefix_Some in E.
  rewrite E, follow_lits. by apply fail_times.
Qed.

(** The variable among [vs] that is printed. *)
Lemma follow_word i vs v r k pre s cs y :
  Forall is_var vs → v ∈ vs →
  rmatch (sp ⋅ lit "*" ⋅ r) k (MState (rev v ++ pre) (js " * " ++ s) (cap_add i v cs)) = Some y →
  rmatch (RGroup i (word_of vs) ⋅ sp ⋅ lit "*" ⋅ r) k (MState pre (v ++ js " * " ++ s) cs) = Some y.
Proof.
  intros Hvs Hv Hk. assert (Hvar : is_var v) by (rewrite Forall_forall in Hvs; by apply Hvs).
  induction Hvs as [|w vs Hw Hvs IH]; [by apply not_elem_of_nil in Hv|].
  unfold word_of. cbn [foldr]. fold (word_of vs). rewrite rmatch_seq, rmatch_group_alt.
  destruct (decide (w = v)) as [->|Hne].
  - assert (E : rmatch (RGroup i (rlits v)) (rmatch (sp ⋅ lit "*" ⋅ r) k) (MState pre (v ++ js " * " ++ s) cs) = Some y).
    { apply follow_group; [|exact Hk]. intros k' Hk'. by rewrite rmatch_rlits, strip_prefix_app. }
    by rewrite E.
  - assert (E : rmatch (RGroup i (rlits w)) (rmatch (sp ⋅ lit "*" ⋅ r) k) (MState pre (v ++ js " * " ++ s) cs) = None).
    { cbn [rmatch]. rewrite rmatch_rlits. destruct (strip_prefix w _) as [t|] eqn:E; [|done].
      destruct (other_var_rest _ _ _ _ Hw Hvar Hne E) as (c & t' & -> & H1 & H2). cbn [m_rest m_pre m_caps].
      by apply fail_times. }
    rewrite E. cbn [or_else]. apply elem_of_cons in Hv as [->|Hv]; [done|]. by apply IH.
Qed.
End products.

(** ** The body of a tier *)

Lemma join_concat sep a l : join sep (a :: l) = a ++ concat (map (app sep) l).
Proof.
  revert a; induction l as [|b l IH]; intros a; [by rewrite app_nil_r|].
  change (join sep (a :: b :: l)) with (a ++ sep ++ join sep (b :: l)). rewrite IH. cbn. by rewrite <- !app_assoc.
Qed.

Section body.
Context (tier : VisualTier).

(** The products of the nonzero costs among [m]. *)
Definition products_of (m : list (jstr * jstr)) : list jstr :=
  omap (λ e : jstr * jstr, let v := cost (t_costs tier) e.1 in if nonzero v then Some (product e.2 v) else None) m.

Definition extra_text (m : list (jstr * jstr)) : jstr := concat (map (app (js " + ")) (products_of m)).

(** What the optional products capture. *)
Fixpoint extra_caps (j : nat) (m : list (jstr * jstr)) (cs : caps) : caps :=
  match m with
  | [] => cs
  | e :: m' =>
      let v := cost (t_costs tier) e.1 in
      extra_caps (S j) m' (if nonzero v then cap_add j (string_of_number v) cs else cs)
  end.

Lemma extra_text_cons e m :
  extra_text (e :: m) =
  (if nonzero (cost (t_costs tier) e.1) then js " + " ++ product e.2 (cost (t_costs tier) e.1) else []) ++ extra_text m.
Proof. unfold extra_text, products_of. cbn. by destruct (nonzero _). Qed.

Lemma extra_text_shape m :
  extra_text m = [] ∨ ∃ w t, w ∈ map snd m ∧ extra_text m = js " + " ++ w ++ js " * " ++ t.
Proof.
  induction m as [|e m IH]; [by left|]. rewrite extra_text_cons. destruct (nonzero _).
  - right. exists e.2, (string_of_number (cost (t_costs tier) e.1) ++ extra_text m). split; [by left|].
    unfold product. by rewrite <- !app_assoc.
  - destruct IH as [->|(w & t & Hw & ->)]; [by left|]. right. exists w, t. split; [by right|done].
Qed.

Lemma extra_text_stops m rest : stops num_class rest → stops num_class (extra_text m ++ rest).
Proof.
  intros H. destruct (extra_text_shape m) as [->|(w & t & _ & ->)]; [done|]. rewrite js_plus. by apply stops_cons.
Qed.

(** A variable that is not among them is not found. *)
Lemma fail_extra {R} v j (k : mstate → option R) pre m rest cs :
  is_var v → Forall is_var (map snd m) → v ∉ map snd m →
  rmatch (sp ⋅ lit "+" ⋅ sp ⋅ product_re v j REps) k (MState pre (extra_text m ++ c_rpar :: rest) cs) = None.
Proof.
  intros Hv Hm Hnot. change (lit "+") with (rlits (43 :: [])).
  destruct (extra_text_shape m) as [->|(w & t & Hw & ->)].
  - apply (fail_blank_lit 43 [] _ k pre [] (c_rpar :: rest) cs); [done|by apply Forall_nil_2|by apply stops_cons|].
    by apply strip_head_ne.
  - rewrite Forall_forall in Hm. pose proof (Hm w Hw) as Hwv.
    rewrite js_plus, <- !app_assoc. cbn [app].
    change (js "+" ++ 32 :: w ++ js " * " ++ t ++ c_rpar :: rest) with ((43 :: []) ++ [32] ++ w ++ js " * " ++ t ++ c_rpar :: rest).
    rewrite (follow_blank_lit 43 []) by done.
    rewrite follow_sp; [|by apply Forall_singleton|by apply is_var_stops|].
    + unfold product_re. apply fail_other_var; [done..|]. by intros ->.
    + unfold product_re. destruct Hv as [Hne Hv]. destruct v as [|c v]; [done|].
      apply Forall_cons in Hv as [Hc _]. apply rejects_seq, rejects_lits. by apply is_word_ws.
Qed.

Lemma follow_extra {R} m j r (k : mstate → option R) pre rest cs y :
  Forall is_var (map snd m) → NoDup (map snd m) →
  Forall (λ e, nonzero (cost (t_costs tier) e.1) = true → reads_back num_class (cost (t_costs tier) e.1) = true) m →
  rmatch r k (MState (rev (extra_text m) ++ pre) (c_rpar :: rest) (extra_caps j m cs)) = Some y →
  rmatch (extra_re (map snd m) j r) k (MState pre (extra_text m ++ c_rpar :: rest) cs) = Some y.
Proof.
  intros Hv Hnd Hok. revert j pre cs; induction m as [|e m IH]; intros j pre cs Hk; [done|].
  cbn [map extra_re] in *. apply Forall_cons in Hv as [Hve Hv]. apply NoDup_cons in Hnd as [Hn Hnd].
  apply Forall_cons in Hok as [Hoke Hok]. rewrite extra_text_cons in *. cbn [extra_caps] in Hk.
  destruct (nonzero (cost (t_costs tier) e.1)) eqn:Hz.
  - apply follow_opt. rewrite rmatch_seq, js_plus, <- !app_assoc. cbn [app]. change (lit "+") with (rlits (43 :: [])).
    set (rest' := product e.2 _ ++ extra_text m ++ c_rpar :: rest).
    change (js "+" ++ 32 :: rest') with ((43 :: []) ++ [32] ++ rest').
    rewrite (follow_blank_lit 43 []) by done. unfold rest'.
    rewrite follow_sp; [|by apply Forall_singleton|unfold product; rewrite <- app_assoc; by apply is_var_stops|].
    + apply follow_product; [by apply Hoke|by apply extra_text_stops, stops_cons|]. cbn [rmatch].
      apply IH; [done..|]. rewrite js_plus, !rev_app_distr, <- !app_assoc in Hk. exact Hk.
    + unfold product_re. destruct Hve as [Hne Hve]. destruct e.2 as [|c v]; [done|].
      apply Forall_cons in Hve as [Hc _]. apply rejects_seq, rejects_lits. by apply is_word_ws.
  - rewrite skip_opt; [by apply IH|]. by apply fail_extra.
Qed.
End body.

Definition costs_ok (tier : VisualTier) : Prop :=
  reads_back num_class (or_zero (Some (t_input tier))) = true
  ∧ reads_back num_class (or_zero (Some (t_output tier))) = true
  ∧ Forall (λ e, nonzero (cost (t_costs tier) e.1) = true → reads_back num_class (cost (t_costs tier) e.1) = true)
      BILLING_CACHE_VAR_MAP.

Lemma cache_vars_ok : Forall is_var (map snd BILLING_CACHE_VAR_MAP) ∧ NoDup (map snd BILLING_CACHE_VAR_MAP).
Proof.
  split; [|apply (bool_decide_unpack _); by_eval].
  assert (H : forallb (λ v, nonempty v && forallb is_word v) (map snd BILLING_CACHE_VAR_MAP) = true) by by_eval.
  rewrite forallb_forall in H. apply Forall_forall. intros v Hv%list_elem_of_In%H.
  apply andb_true_iff in Hv as [Hne Hw]. split; [by apply nonempty_true|]. rewrite forallb_forall in Hw.
  apply Forall_forall. intros c Hc. by apply Hw, list_elem_of_In.
Qed.

Definition body_caps (i : nat) (tier : VisualTier) (cs : caps) : caps :=
  extra_caps tier (S (S i)) BILLING_CACHE_VAR_MAP
    (cap_add (S i) (string_of_number (or_zero (Some (t_output tier))))
      (cap_add i (string_of_number (or_zero (Some (t_input tier)))) cs)).

Lemma body_text tier :
  buildTierBodyExpr tier =
  product (js "p") (or_zero (Some (t_input tier))) ++ js " + "
  ++ product (js "c") (or_zero (Some (t_output tier))) ++ extra_text tier BILLING_CACHE_VAR_MAP.
Proof. unfold buildTierBodyExpr. rewrite join_concat. cbn [map concat]. by rewrite <- !app_assoc. Qed.

Section tier.
Context {R : Type}.
Implicit Types k : mstate → option R.

Lemma follow_body tier i r k pre rest cs y :
  costs_ok tier →
  rmatch r k (MState (rev (buildTierBodyExpr tier) ++ pre) (c_rpar :: rest) (body_caps i tier cs)) = Some y →
  rmatch (body_re i r) k (MState pre (buildTierBodyExpr tier ++ c_rpar :: rest) cs) = Some y.
Proof.
  intros (Hi & Ho & He) Hk. rewrite body_text in *. rewrite <- !app_assoc in *. unfold body_re.
  apply follow_product; [done|rewrite js_plus; by apply stops_cons|].
  rewrite js_plus, <- !app_assoc. cbn [app]. change (lit "+") with (rlits (43 :: [])).
  set (rest' := product (js "c") _ ++ _). change (js "+" ++ 32 :: rest') with ((43 :: []) ++ [32] ++ rest').
  rewrite (follow_blank_lit 43 []) by done.
  rewrite follow_sp; [|by apply Forall_singleton|by apply stops_cons|by apply rejects_seq, rejects_lits].
  apply follow_product; [done|by apply extra_text_stops, stops_cons|].
  destruct cache_vars_ok as [Hv Hnd]. apply (follow_extra tier); [done..|].
  rewrite !rev_app_distr, <- !app_assoc in Hk. exact Hk.
Qed.

Lemma follow_label label i r k pre s cs :
  Forall (λ c, not_quote c = true) label →
  rmatch (tier_re i r) k (MState pre (js "tier(" ++ quoted label ++ js ", " ++ s) cs)
  = rmatch (sp ⋅ r) k (MState (rev (js "tier(" ++ quoted label ++ js ",") ++ pre) ([32] ++ s) (cap_add i label cs)).
Proof.
  intros Hl. unfold tier_re, quoted. change (lit "tier(") with (rlits (js "tier(")). rewrite follow_lits.
  change ((c_quote :: label ++ [c_quote]) ++ js ", " ++ s) with ([c_quote] ++ (label ++ [c_quote]) ++ js ", " ++ s).
  rewrite follow_lits, <- app_assoc.
  rewrite follow_group_star; [|done|by apply stops_cons|by apply rejects_seq, rejects_lits].
  change ([c_quote] ++ js ", " ++ s) with ([c_quote] ++ js "," ++ [32] ++ s). rewrite follow_lits.
  change (lit ",") with (rlits (js ",")). rewrite follow_lits.
  change (c_quote :: label ++ [c_quote]) with ([c_quote] ++ label ++ [c_quote]).
  by rewrite !rev_app_distr, <- !app_assoc.
Qed.

Lemma label_prefix label pre : rev [32] ++ rev (js "tier(" ++ quoted label ++ js ",") ++ pre = rev (js "tier(" ++ quoted label ++ js ", ") ++ pre.
Proof. change (js ", ") with (js "," ++ [32]). by rewrite !rev_app_distr, <- !app_assoc. Qed.

Lemma follow_tier label i r k pre s cs :
  Forall (λ c, not_quote c = true) label → stops is_ws s → rejects is_ws r →
  rmatch (tier_re i r) k (MState pre (js "tier(" ++ quoted label ++ js ", " ++ s) cs)
  = rmatch r k (MState (rev (js "tier(" ++ quoted label ++ js ", ") ++ pre) s (cap_add i label cs)).
Proof.
  intros Hl Hs Hr. rewrite follow_label, follow_sp by (done || by apply Forall_singleton). by rewrite label_prefix.
Qed.

(** Whatever the parentheses enclose, if it matches after the blank. *)
Lemma follow_tier_some label i r k pre s cs x :
  Forall (λ c, not_quote c = true) label → stops is_ws s →
  rmatch r k (MState (rev (js "tier(" ++ quoted label ++ js ", ") ++ pre) s (cap_add i label cs)) = Some x →
  rmatch (tier_re i r) k (MState pre (js "tier(" ++ quoted label ++ js ", " ++ s) cs) = Some x.
Proof.
  intros Hl Hs Hk. rewrite follow_label, rmatch_seq by done.
  apply follow_star_end; [by apply Forall_singleton|done|]. by rewrite label_prefix.
Qed.

Lemma tier_call_text label tier : tier_call label tier = (js "tier(" ++ quoted label ++ js ", ") ++ buildTierBodyExpr tier ++ js ")".
Proof. unfold tier_call. by rewrite <- !app_assoc. Qed.

Lemma body_head tier : ∃ t, buildTierBodyExpr tier = 112 :: t.
Proof. rewrite body_text. by eexists. Qed.

Lemma rejects_body i r : rejects is_ws (body_re i r).
Proof. apply rejects_seq. by apply rejects_lits. Qed.

(** A printed tier, from its name to its closing parenthesis. *)
Lemma follow_call label tier i r k pre rest cs y :
  Forall (λ c, not_quote c = true) label → costs_ok tier →
  rmatch r k (MState (rev (js "tier(" ++ quoted label ++ js ", " ++ buildTierBodyExpr tier) ++ pre) (c_rpar :: rest)
    (body_caps (S i) tier (cap_add i label cs))) = Some y →
  rmatch (tier_re i (body_re (S i) r)) k (MState pre (tier_call label tier ++ rest) cs) = Some y.
Proof.
  intros Hl Hc Hk. rewrite tier_call_text, <- !app_assoc. change (js ")" ++ rest) with (c_rpar :: rest).
  rewrite follow_tier; [|done| |apply rejects_body].
  - apply follow_body; [done|]. same_pre Hk.
  - destruct (body_head tier) as [t ->]. by apply stops_cons.
Qed.
End tier.

(** ** Conditions *)

(** The bound is a number that is printed without a minus sign. *)
Definition condition_ok (c : TierConditionInput) : bool :=
  match ci_value c with NumValue x => reads_back bound_class x | TextValue _ => false end.

Lemma condition_ok_spec c :
  condition_ok c = true →
  ∃ x, ci_value c = NumValue x ∧ value_text (ci_value c) ≠ []
    ∧ Forall (λ c, bound_class c = true) (value_text (ci_value c)) ∧ number_of_string (value_text (ci_value c)) = x.
Proof.
  unfold condition_ok. destruct (ci_value c) as [x|]; [|done]. intros (H1 & H2 & H3)%reads_back_spec.
  exists x. by repeat split.
Qed.

Lemma bound_class_chars c : bound_class c = true → is_ws c = false ∧ c ≠ 61 ∧ c ≠ 38.
Proof.
  intros H. assert (Hc : c = 61 ∨ c = 38 ∨ is_ws c = true → False).
  { intros [->|[->|Hw]]; [done|done|]. by rewrite bound_class_ws in H. }
  destruct (is_ws c); [tauto|]. split; [done|]. split; intros ->; tauto.
Qed.

Section conditions.
Context {R : Type}.
Implicit Types k : mstate → option R.

Lemma rejects_op P : P 60 = false → P 62 = false → rejects P op_re.
Proof. intros H1 H2. by repeat apply rejects_alt; apply rejects_lits. Qed.

(** The shorter operator does not match the longer one. *)
Lemma fail_short_op r k pre s cs :
  rejects (λ c, c =? 61) r → rmatch (sp ⋅ r) k (MState pre (61 :: s) cs) = None.
Proof.
  intros Hr. unfold sp. rewrite rmatch_seq, rmatch_rstar. cbn [greedy_span]. by apply Hr.
Qed.

Lemma strip_other a w s : nonempty a && nonempty w && negb (bool_decide (head a = head w)) = true → strip_prefix a (w ++ s) = None.
Proof.
  destruct a as [|c a], w as [|d w]; try done. cbn [nonempty andb head]. intros H%negb_true_iff%bool_decide_eq_false.
  apply strip_head_ne. congruence.
Qed.

Lemma follow_var v r k pre s cs :
  rmatch (var_re ⋅ r) k (MState pre (var_name v ++ s) cs) = rmatch r k (MState (rev (var_name v) ++ pre) s cs).
Proof.
  unfold var_re. cbn [rmatch]. unfold lit. rewrite !rmatch_rlits.
  destruct v; cbn [var_name]; rewrite strip_prefix_app, !strip_other by done; cbn [or_else]; by rewrite ?or_else_r.
Qed.

Lemma follow_op o r k pre s cs x :
  rejects (λ c, c =? 61) r →
  rmatch (sp ⋅ r) k (MState (rev (op_name o) ++ pre) s cs) = Some x →
  rmatch (op_re ⋅ sp ⋅ r) k (MState pre (op_name o ++ s) cs) = Some x.
Proof.
  intros Hr Hk. unfold op_re. rewrite rmatch_seq. cbn [rmatch]. unfold lit.
  assert (Hf : ∀ pre s cs, rmatch (sp ⋅ r) k (MState pre (61 :: s) cs) = None).
  { intros. by apply fail_short_op. }
  rewrite rmatch_seq in Hk. setoid_rewrite rmatch_seq in Hf. rewrite !rmatch_rlits.
  destruct o; cbn [op_name] in *; rewrite ?strip_prefix_app.
  - by rewrite Hk.
  - change (strip_prefix (js "<") (js "<=" ++ s)) with (Some (61 :: s)). cbn iota. by rewrite Hf, Hk.
  - rewrite (strip_other (js "<")), (strip_other (js "<=")) by done. cbn [or_else]. cbn iota. by rewrite Hk.
  - rewrite (strip_other (js "<")), (strip_other (js "<=")) by done. cbn [or_else].
    change (strip_prefix (js ">") (js ">=" ++ s)) with (Some (61 :: s)). cbn iota. by rewrite Hf, Hk.
Qed.

Lemma condition_text_split c s :
  condition_text c ++ s = var_name (ci_var c) ++ [32] ++ op_name (ci_op c) ++ [32] ++ value_text (ci_value c) ++ s.
Proof. unfold condition_text. by rewrite js_sp, <- !app_assoc. Qed.

Lemma op_stops o s : stops is_ws (op_name o ++ s).
Proof. by destruct o; apply stops_cons. Qed.

Lemma rejects_sp_plus (P p : Z → bool) r :
  (∀ c, P c = true → is_ws c = false) → (∀ c, P c = true → p c = false) → rejects P (sp ⋅ rplus p ⋅ r).
Proof.
  intros H1 H2 R' k' pre c s cs Hc. unfold sp. rewrite rmatch_seq, rmatch_rstar. cbn [greedy_span].
  rewrite H1 by done. rewrite rmatch_seq. unfold rplus. cbn [rmatch m_rest]. by rewrite H2.
Qed.

(** From the operator on: shared by the two patterns with comparisons. *)
Lemma follow_bound c r k pre s cs x :
  condition_ok c = true → rejects is_ws r → rejects (λ c, c =? 61) r →
  rmatch r k (MState (rev (op_name (ci_op c) ++ [32]) ++ pre) (value_text (ci_value c) ++ s) cs) = Some x →
  rmatch (op_re ⋅ sp ⋅ r) k (MState pre (op_name (ci_op c) ++ [32] ++ value_text (ci_value c) ++ s) cs) = Some x.
Proof.
  intros (y & _ & Hne & Hb & _)%condition_ok_spec Hws Heq Hk. apply follow_op; [done|].
  rewrite follow_sp; [same_pre Hk|by apply Forall_singleton| |done].
  eapply class_stops; [done|exact Hb|]. intros d Hd. by apply bound_class_chars.
Qed.

Lemma rejects_bound_plus P : (∀ c, P c = true → bound_class c = false) → rejects P (rplus bound_class).
Proof. apply rejects_plus. Qed.

Lemma follow_comparison c k pre s cs x :
  condition_ok c = true → stops bound_class s →
  k (MState (rev (condition_text c) ++ pre) s cs) = Some x →
  rmatch comparison_re k (MState pre (condition_text c ++ s) cs) = Some x.
Proof.
  intros Hc Hs Hk. unfold comparison_re. rewrite condition_text_split, follow_var.
  rewrite follow_sp; [|by apply Forall_singleton|apply op_stops|by apply rejects_seq, rejects_op].
  apply follow_bound; [done| | |].
  - apply rejects_bound_plus, bound_class_ws.
  - apply rejects_bound_plus. by intros d ->%Z.eqb_eq.
  - destruct (condition_ok_spec c Hc) as (y & _ & Hne & Hb & _). apply follow_plus; [done..|].
    unfold condition_text in Hk. rewrite js_sp in Hk. same_pre Hk.
Qed.

(** A further comparison, as it is printed. *)
Definition and_text (c : TierConditionInput) : jstr := js " && " ++ condition_text c.

Lemma and_text_split c s : and_text c ++ s = 32 :: (38 :: [38]) ++ [32] ++ condition_text c ++ s.
Proof. unfold and_text. by rewrite js_and, <- !app_assoc. Qed.

Definition AND_STEP : re := sp ⋅ lit "&&" ⋅ sp ⋅ comparison_re.

Lemma fail_and {A} r (k' : mstate → option A) pre u d s cs :
  Forall (λ c, is_ws c = true) u → is_ws d = false → d ≠ 38 →
  rmatch (sp ⋅ lit "&&" ⋅ r) k' (MState pre (u ++ d :: s) cs) = None.
Proof.
  intros Hu Hd Hne. change (lit "&&") with (rlits (38 :: [38])).
  apply fail_blank_lit; [done|done|by apply stops_cons|by apply strip_head_ne].
Qed.

Lemma condition_head c s : ∃ d t, condition_text c ++ s = d :: t ∧ is_ws d = false ∧ d ≠ 38.
Proof. rewrite condition_text_split. by destruct (ci_var c); eexists _, _. Qed.

Lemma rejects_var P : P 112 = false → P 99 = false → P 108 = false → rejects P var_re.
Proof. intros H1 H2 H3. by repeat apply rejects_alt; apply rejects_lits. Qed.

(** The run of further comparisons, up to the question mark. *)
Lemma follow_and_run cs0 k fuel pre l s x :
  forallb condition_ok l = true → (length (concat (map and_text l)) < fuel)%nat →
  (∃ d t, s = 32 :: d :: t ∧ is_ws d = false ∧ d ≠ 38) →
  k (MState (rev (concat (map and_text l)) ++ pre) s cs0) = Some x →
  star_loop true (λ k' st', rmatch AND_STEP k' (MState (m_pre st') (m_rest st') (drop_caps (groups AND_STEP) (m_caps st'))))
    k fuel (MState pre (concat (map and_text l) ++ s) cs0) = Some x.
Proof.
  intros Hl Hf (d & t & -> & Hd & Hne). revert fuel pre Hf; induction l as [|c l IH]; intros fuel pre Hf Hk.
  - cbn [map concat app] in *. destruct fuel as [|f]; [exact Hk|]. cbn [star_loop m_pre m_rest m_caps].
    unfold AND_STEP at 1. rewrite (fail_and _ _ pre [32] d t); [exact Hk|by apply Forall_singleton|done|done].
  - cbn [map concat] in *. cbn [forallb] in Hl. apply andb_true_iff in Hl as [Hc Hl].
    destruct fuel as [|f]; [lia|]. cbn [star_loop m_pre m_rest m_caps].
    set (again := rmatch AND_STEP _ _). assert (again = Some x) as ->; [|done]. unfold again, AND_STEP at 1.
    change (groups AND_STEP) with (@nil nat). rewrite drop_caps_nil, <- app_assoc, and_text_split.
    change (lit "&&") with (rlits (38 :: [38])).
    set (rest := concat _ ++ 32 :: d :: t).
    rewrite (follow_blank_lit 38 [38]) by done.
    rewrite follow_sp; [|by apply Forall_singleton| |].
    + apply follow_comparison; [done| |].
      * unfold rest. destruct l; [by apply stops_cons|]. cbn [map concat]. rewrite <- app_assoc, and_text_split. by apply stops_cons.
      * cbn [m_rest]. rewrite (proj2 (Nat.ltb_lt _ _)).
        -- unfold rest. apply IH; [done| |].
           ++ rewrite length_app in Hf. unfold and_text in Hf at 1. rewrite length_app in Hf.
              change (length (js " && ")) with 4%nat in Hf. lia.
           ++ unfold and_text in Hk at 1. rewrite js_and in Hk. same_pre Hk.
        -- cbn [length]. rewrite !length_app. cbn. lia.
    + destruct (condition_head c rest) as (e & u & -> & He & _). by apply stops_cons.
    + apply rejects_seq. by apply rejects_var.
Qed.
End conditions.

Lemma conditions_text c l :
  forallb condition_ok (c :: l) = true → buildConditionStr (c :: l) = condition_text c ++ concat (map and_text l).
Proof.
  intros H. unfold buildConditionStr.
  assert (Hf : filterb has_value (c :: l) = c :: l).
  { apply filterb_id. rewrite forallb_forall in H. apply Forall_forall. intros d Hd%list_elem_of_In%H.
    unfold has_value. unfold condition_ok in Hd. by destruct (ci_value d). }
  rewrite Hf. cbn [map]. rewrite join_concat. f_equal. f_equal. by rewrite map_map.
Qed.

(** The conditions in front of a tier, up to the question mark. *)
Lemma follow_conditions {R} c l (k : mstate → option R) pre s cs x :
  forallb condition_ok (c :: l) = true →
  k (MState (rev (buildConditionStr (c :: l)) ++ pre) (js " ? " ++ s) cs) = Some x →
  rmatch (comparison_re ⋅ RStar true AND_STEP) k (MState pre (buildConditionStr (c :: l) ++ js " ? " ++ s) cs) = Some x.
Proof.
  intros Hc Hk. rewrite (conditions_text c l Hc), <- app_assoc in *. cbn [forallb] in Hc.
  apply andb_true_iff in Hc as [Hcc Hcl]. rewrite rmatch_seq. apply follow_comparison; [done| |].
  - destruct l; cbn [map concat app]; [rewrite js_ask; by apply stops_cons|].
    rewrite <- app_assoc, and_text_split. by apply stops_cons.
  - cbn [rmatch m_rest]. apply follow_and_run; [done| | |same_pre Hk].
    + rewrite length_app. lia.
    + eexists 63, _. split; [rewrite js_ask; cbn; reflexivity|done].
Qed.

(** ** Reading conditions *)

Section read_condition.
Context {R : Type}.
Implicit Types k : mstate → option R.

Lemma follow_group_op i o r k pre s cs x :
  rejects (λ c, c =? 61) r →
  rmatch (sp ⋅ r) k (MState (rev (op_name o) ++ pre) s (cap_add i (op_name o) cs)) = Some x →
  rmatch (RGroup i op_re ⋅ sp ⋅ r) k (MState pre (op_name o ++ s) cs) = Some x.
Proof.
  intros Hr Hk. unfold op_re. rewrite rmatch_seq, !rmatch_group_alt, !rmatch_group_lit.
  assert (Hf : ∀ pre s cs, rmatch (sp ⋅ r) k (MState pre (61 :: s) cs) = None).
  { intros. by apply fail_short_op. }
  destruct o; cbn [op_name] in *; rewrite ?strip_prefix_app.
  - by rewrite Hk.
  - change (strip_prefix (js "<") (js "<=" ++ s)) with (Some (61 :: s)). cbn iota. by rewrite Hf, Hk.
  - rewrite (strip_other (js "<")), (strip_other (js "<=")) by done. cbn [or_else]. cbn iota. by rewrite Hk.
  - rewrite (strip_other (js "<")), (strip_other (js "<=")) by done. cbn [or_else].
    change (strip_prefix (js ">") (js ">=" ++ s)) with (Some (61 :: s)). cbn iota. by rewrite Hf, Hk.
Qed.
End read_condition.

Lemma match_condition c :
  condition_ok c = true →
  match_caps CONDITION_RE (condition_text c) =
  Some (cap_add 3 (value_text (ci_value c)) (cap_add 2 (op_name (ci_op c)) (cap_add 1 (var_name (ci_var c)) []))).
Proof.
  intros Hc. destruct (condition_ok_spec c Hc) as (y & _ & Hne & Hb & _). unfold CONDITION_RE. rewrite match_caps_bol.
  rewrite <- (app_nil_r (condition_text c)), condition_text_split.
  match goal with |- m_caps <$> ?m = Some ?cs => assert (E : m = Some (MState (rev (condition_text c)) [] cs)); [|by rewrite E] end.
  rewrite rmatch_seq. apply follow_group.
  - intros k' Hk'. etrans; [|exact Hk']. exact (follow_var (ci_var c) REps k' _ _ _).
  - rewrite follow_sp; [|by apply Forall_singleton|apply op_stops|by apply rejects_seq, rejects_group, rejects_op].
    apply follow_group_op.
    + apply rejects_seq, rejects_group, rejects_bound_plus. by intros d ->%Z.eqb_eq.
    + rewrite follow_sp; [|by apply Forall_singleton| |by apply rejects_seq, rejects_group, rejects_bound_plus, bound_class_ws].
      * apply follow_group_plus; [done..|]. cbn [rmatch m_rest]. do 2 f_equal.
        unfold condition_text. by rewrite js_sp, !rev_app_distr, <- !app_assoc, app_nil_r.
      * eapply class_stops; [done|exact Hb|]. intros d Hd. by apply bound_class_chars.
Qed.

(** A printed comparison ends in a unit that is no blank and has no ampersand. *)
Lemma condition_edges c :
  condition_ok c = true →
  no_edge_ws (condition_text c) ∧ Forall (λ d, d ≠ 38) (condition_text c)
  ∧ ∃ w d, condition_text c = w ++ [d] ∧ is_ws d = false.
Proof.
  intros (y & _ & Hne & Hb & _)%condition_ok_spec.
  assert (Hend : ∃ w d, condition_text c = w ++ [d] ∧ is_ws d = false).
  { destruct (exists_last Hne) as (v & d & Hv).
    exists (var_name (ci_var c) ++ [32] ++ op_name (ci_op c) ++ [32] ++ v), d. split.
    - unfold condition_text. rewrite js_sp, Hv. by rewrite <- !app_assoc.
    - rewrite Hv in Hb. apply Forall_app in Hb as [_ [Hd _]%Forall_cons]. by apply bound_class_chars. }
  split; [|split; [|done]].
  - destruct Hend as (w & d & Hw & Hd). destruct (condition_head c []) as (e & t & He & Hwe & _).
    rewrite app_nil_r in He. split.
    + intros b. rewrite He. cbn [head]. by intros [= <-].
    + intros b. rewrite Hw, last_snoc. by intros [= <-].
  - unfold condition_text. rewrite js_sp. repeat (apply Forall_app; split); try by repeat constructor.
    + destruct (ci_var c); by apply (bool_decide_unpack _); by_eval.
    + destruct (ci_op c); by apply (bool_decide_unpack _); by_eval.
    + eapply Forall_impl; [exact Hb|]. intros d Hd. by apply bound_class_chars.
Qed.

(** No separator starts inside a comparison. *)
Lemma no_and_inside c a b s pre :
  condition_ok c = true → condition_text c = a ++ b → b ≠ [] →
  rmatch AND_RE Some (MState pre (b ++ s) []) = None.
Proof.
  intros Hc E Hb. destruct (condition_edges c Hc) as (_ & Hamp & w & d & Hw & Hd).
  destruct (drop_while_suffix is_ws b) as (u & Hu & Fu).
  destruct (drop_while is_ws b) as [|e t] eqn:Ed.
  - exfalso. rewrite app_nil_r in Hu. destruct (exists_last Hb) as (b' & d' & Hb'). rewrite Hw, Hb', app_assoc in E.
    apply app_inj_tail in E as [_ <-]. rewrite Hu in Hb'. rewrite Hb' in Fu.
    apply Forall_app in Fu as [_ [Hd' _]%Forall_cons]. by rewrite Hd' in Hd.
  - rewrite Hu, <- app_assoc. apply fail_and; [done|by eapply drop_while_head|].
    rewrite E, Hu in Hamp. apply Forall_app in Hamp as [_ Hamp]. apply Forall_app in Hamp as [_ Hamp].
    by apply Forall_cons in Hamp as [? _].
Qed.

Lemma split_piece r a pre cur s fuel :
  (∀ pre a' b, a = a' ++ b → b ≠ [] → rmatch r Some (MState pre (b ++ s) []) = None) →
  (length a ≤ fuel)%nat →
  split_loop fuel r pre cur (a ++ s) = split_loop (fuel - length a) r (rev a ++ pre) (rev a ++ cur) s.
Proof.
  revert pre cur fuel; induction a as [|c a IH]; intros pre cur fuel Hno Hf; [by rewrite Nat.sub_0_r|].
  cbn [length] in Hf. destruct fuel as [|f]; [lia|]. cbn [app split_loop length Nat.sub].
  pose proof (Hno pre [] (c :: a) eq_refl ltac:(done)) as Hhere. cbn [app] in Hhere. rewrite Hhere. rewrite IH.
  - cbn [rev]. by rewrite <- !app_assoc.
  - intros pre' a' b -> Hb. by apply (Hno pre' (c :: a') b).
  - lia.
Qed.

Lemma match_and c s pre :
  rmatch AND_RE Some (MState pre (and_text c ++ s) []) =
  Some (MState ([32] ++ rev (38 :: [38]) ++ [32] ++ pre) (condition_text c ++ s) []).
Proof.
  rewrite and_text_split. unfold AND_RE. change (lit "&&") with (rlits (38 :: [38])).
  rewrite (follow_blank_lit 38 [38]) by done. apply follow_star_end; [by apply Forall_singleton| |done].
  destruct (condition_head c s) as (d & t & -> & Hd & _). by apply stops_cons.
Qed.

Lemma split_conditions l c fuel pre :
  forallb condition_ok (c :: l) = true → (length (condition_text c ++ concat (map and_text l)) ≤ fuel)%nat →
  split_loop fuel AND_RE pre [] (condition_text c ++ concat (map and_text l)) = map condition_text (c :: l).
Proof.
  revert c fuel pre; induction l as [|c' l IH]; intros c fuel pre Hok Hf; cbn [forallb] in Hok;
    apply andb_true_iff in Hok as [Hc Hl]; rewrite length_app in Hf;
    (rewrite split_piece; [|by intros; eapply no_and_inside|lia]); rewrite app_nil_r.
  - cbn [map concat]. destruct (fuel - _)%nat; cbn [split_loop]; by rewrite rev_involutive.
  - cbn [map concat] in *. set (n := (fuel - length (condition_text c))%nat).
    assert (Hn : (length (and_text c' ++ concat (map and_text l)) ≤ n)%nat) by (unfold n; lia).
    assert (Hlen : length (and_text c' ++ concat (map and_text l)) = (4 + length (condition_text c' ++ concat (map and_text l)))%nat).
    { unfold and_text at 1. rewrite !length_app. change (length (js " && ")) with 4%nat. lia. }
    destruct n as [|f]; [lia|]. pose proof (match_and c' (concat (map and_text l)) (rev (condition_text c) ++ pre)) as Hm.
    rewrite and_text_split in *. cbn [split_loop]. rewrite Hm. cbn [m_rest m_pre].
    rewrite (proj2 (Nat.eqb_neq _ _)), andb_false_r.
    + rewrite rev_involutive. f_equal. apply IH; [done|]. cbn [length app] in *. lia.
    + cbn [length app] in *. lia.
Qed.

(** Printed conditions are read back. *)
Lemma parse_conditions_text l : forallb condition_ok l = true → parse_conditions (default [] (match l with [] => None | _ => Some (buildConditionStr l) end)) = l.
Proof.
  intros Hok. destruct l as [|c l]; [done|]. cbn [from_option id]. unfold parse_conditions.
  rewrite conditions_text by done. destruct (condition_head c (concat (map and_text l))) as (d & t & E & _).
  rewrite E. rewrite <- E. clear d t E. unfold re_split. rewrite split_conditions by done.
  rewrite forallb_forall in Hok. assert (H : ∀ l', (∀ x, In x l' → condition_ok x = true) →
    omap (λ cp, cm ← match_caps CONDITION_RE (trim cp);
      Some {| ci_var := var_of (group 1 cm); ci_op := op_of (group 2 cm);
              ci_value := NumValue (number_of_string (group 3 cm)) |}) (map condition_text l') = l'); [|by apply H].
  clear Hok c l. intros l. induction l as [|c l IH]; intros Hok; [done|]. cbn [map omap list_omap].
  pose proof (Hok c (or_introl eq_refl)) as Hc. destruct (condition_edges c Hc) as (He & _).
  rewrite trim_no_edge, match_condition by done. cbn [mbind option_bind].
  destruct (condition_ok_spec c Hc) as (y & Hy & _ & _ & Hn). unfold group.
  repeat (rewrite cap_add_eq || rewrite cap_add_ne by lia). cbn [from_option id]. rewrite Hn.
  rewrite <- IH at 2 by (intros; apply Hok; by right). f_equal.
  destruct c as [v o val]. cbn [ci_var ci_op ci_value] in *. rewrite <- Hy.
  destruct v, o; reflexivity.
Qed.

(** ** Tiers one after another *)

(** A tier as it stands in an expression: the conditions shown, the label
    shown, and the tier. *)
Record item := { i_conditions : list TierConditionInput; i_label : jstr; i_tier : VisualTier }.

Definition prefix_text (conditions : list TierConditionInput) : jstr :=
  match conditions with [] => [] | _ => buildConditionStr conditions ++ js " ? " end.

Definition item_text (i : item) : jstr := prefix_text (i_conditions i) ++ tier_call (i_label i) (i_tier i).

Definition item_ok (i : item) : Prop :=
  forallb condition_ok (i_conditions i) = true ∧ Forall (λ c, not_quote c = true) (i_label i) ∧ costs_ok (i_tier i).

Definition prefix_caps (conditions : list TierConditionInput) : caps :=
  match conditions with [] => [] | _ => cap_add 1 (buildConditionStr conditions) [] end.

(** The pattern of a tier with [r] for what its parentheses enclose. *)
Definition item_re (r : re) : re := cond_prefix_re ⋅ tier_re 2 r.

Lemma rejects_item P r :
  P 112 = false → P 99 = false → P 108 = false → P 116 = false → rejects P (item_re r).
Proof.
  intros H1 H2 H3 H4. apply rejects_opt.
  - by apply rejects_seq, rejects_group, rejects_seq, rejects_seq, rejects_var.
  - apply rejects_seq. by apply (rejects_lits P 116 (js "ier(")).
Qed.

Section items.
(** What encloses a body matches it and the parenthesis after it. *)
Context (r : re) (f : VisualTier → caps → caps).
Hypothesis r_body : ∀ (tier : VisualTier) (k : mstate → option mstate) pre rest cs y,
  costs_ok tier →
  k (MState (rev (buildTierBodyExpr tier ++ js ")") ++ pre) rest (f tier cs)) = Some y →
  rmatch r k (MState pre (buildTierBodyExpr tier ++ js ")" ++ rest) cs) = Some y.

Definition item_caps (i : item) : caps := f (i_tier i) (cap_add 2 (i_label i) (prefix_caps (i_conditions i))).

Lemma tier_call_stops P label tier s : P 116 = false → stops P (tier_call label tier ++ s).
Proof. intros H. unfold tier_call. change (js "tier(") with (116 :: js "ier("). by apply stops_cons. Qed.

Lemma match_call (k : mstate → option mstate) label tier pre rest cs y :
  Forall (λ c, not_quote c = true) label → costs_ok tier →
  k (MState (rev (tier_call label tier) ++ pre) rest (f tier (cap_add 2 label cs))) = Some y →
  rmatch (tier_re 2 r) k (MState pre (tier_call label tier ++ rest) cs) = Some y.
Proof.
  intros Hl Hc Hk. rewrite tier_call_text in *. rewrite <- !app_assoc.
  apply follow_tier_some; [done| |].
  - destruct (body_head tier) as [t ->]. by apply stops_cons.
  - apply r_body; [done|]. same_pre Hk.
Qed.

Lemma match_item i pre rest :
  item_ok i →
  rmatch (item_re r) Some (MState pre (item_text i ++ rest) []) =
  Some (MState (rev (item_text i) ++ pre) rest (item_caps i)).
Proof.
  intros (Hc & Hl & Ht). unfold item_re, item_text, item_caps, prefix_text, prefix_caps.
  destruct (i_conditions i) as [|c l].
  - cbn [app]. rewrite (skip_opt (cond_group_re 1 ⋅ sp ⋅ lit "?" ⋅ sp)).
    + by apply match_call.
    + change (tier_call (i_label i) (i_tier i)) with (116 :: (js "ier(" ++ quoted (i_label i) ++ js ", " ++ buildTierBodyExpr (i_tier i) ++ js ")")).
      assert (H : rejects (λ c, c =? 116) (cond_group_re 1 ⋅ sp ⋅ lit "?" ⋅ sp)); [|by apply H].
      by apply rejects_seq, rejects_group, rejects_seq, rejects_seq, rejects_var.
  - apply follow_opt. set (conds := buildConditionStr (c :: l)). rewrite <- !app_assoc.
    rewrite !rmatch_seq. apply follow_group; [by intros k' Hk'; apply follow_conditions|].
      rewrite js_ask, <- !app_assoc. cbn [app].
      match goal with |- rmatch _ _ ?st = ?y => change (rmatch (sp ⋅ rlits (63 :: []) ⋅ sp ⋅ tier_re 2 r) Some st = y) end.
      set (call := tier_call (i_label i) (i_tier i) ++ rest).
      change (js "?" ++ 32 :: call) with ((63 :: []) ++ [32] ++ call).
      rewrite (follow_blank_lit 63 []) by done.
      rewrite follow_sp; [|by apply Forall_singleton|by apply tier_call_stops|].
      * apply match_call; [done..|]. do 2 f_equal.
        change (conds ++ 32 :: js "?" ++ 32 :: tier_call (i_label i) (i_tier i))
          with (conds ++ [32] ++ (63 :: []) ++ [32] ++ tier_call (i_label i) (i_tier i)).
        by rewrite !rev_app_distr, <- !app_assoc.
      * apply rejects_seq. by apply (rejects_lits is_ws 116 (js "ier(")).
Qed.

Definition chain (l : list item) : jstr := concat (map (λ i, js " : " ++ item_text i) l).

Definition between (c : Z) : bool := (c =? 32) || (c =? 58).

Lemma exec_chain l fuel pre tail :
  Forall item_ok l → (length l < fuel)%nat → (∀ pre, search (item_re r) pre tail = None) →
  exec_loop fuel (item_re r) pre (chain l ++ tail) = map item_caps l.
Proof.
  intros Hl Hf Ht. revert fuel pre Hf; induction Hl as [|i l Hi Hl IH]; intros fuel pre Hf;
    (destruct fuel as [|n]; [cbn in Hf; lia|]); cbn [exec_loop].
  - by rewrite Ht.
  - unfold chain. cbn [map concat]. rewrite <- !app_assoc, (search_skip between).
    + rewrite (search_here _ _ _ _ (match_item i _ _ Hi)). cbn [m_caps m_pre m_rest map]. f_equal.
      apply IH. cbn in Hf. lia.
    + by apply rejects_item.
    + rewrite js_colon. by repeat constructor.
Qed.

Lemma exec_items i l tail :
  Forall item_ok (i :: l) → (∀ pre, search (item_re r) pre tail = None) →
  exec_all (item_re r) (item_text i ++ chain l ++ tail) = map item_caps (i :: l).
Proof.
  intros [Hi Hl]%Forall_cons Ht. unfold exec_all. cbn [exec_loop].
  rewrite (search_here _ _ _ _ (match_item i _ _ Hi)). cbn [m_caps m_pre m_rest map]. f_equal.
  apply exec_chain; [done| |done]. rewrite !length_app.
  assert (H : (length l ≤ length (chain l))%nat).
  { unfold chain. clear. induction l as [|i l IH]; [done|]. cbn [map concat length]. rewrite !length_app.
    change (length (js " : ")) with 3%nat. lia. }
  assert (0 < length (item_text i))%nat; [|lia].
  unfold item_text, tier_call. rewrite !length_app. change (length (js "tier(")) with 5%nat. lia.
Qed.
End items.
