(* ===== verification/TierExprProps.v ===== *)
(** * Billing expressions: tiers read back

    What the visual editor prints is what it and the price displays read. *)

From Stdlib Require Import String.
From S2P Require Import JsExec JsJson BillingExpr TierExpr TierExprFacts.

#[local] Opaque js string_of_number number_of_string.

(** ** The two patterns on printed tiers *)

Lemma visual_body (tier : VisualTier) (k : mstate → option mstate) pre rest cs y :
  costs_ok tier →
  k (MState (rev (buildTierBodyExpr tier ++ js ")") ++ pre) rest (body_caps 3 tier cs)) = Some y →
  rmatch (body_re 3 (lit ")")) k (MState pre (buildTierBodyExpr tier ++ js ")" ++ rest) cs) = Some y.
Proof.
  intros Hc Hk. change (js ")" ++ rest) with (c_rpar :: rest). apply follow_body; [done|].
  change (c_rpar :: rest) with (js ")" ++ rest). rewrite rmatch_lit_app. same_pre Hk.
Qed.

(** ** What the captures say *)

Lemma or_zero_idemp x : or_zero (Some (or_zero x)) = or_zero x.
Proof. by destruct x as [[]|]. Qed.

Lemma nonzero_false x : nonzero (or_zero x) = false → or_zero x = S754_zero false.
Proof. by destruct x as [[]|]. Qed.

Lemma cap_extra tier n j m cs : (n < j)%nat → cap n (extra_caps tier j m cs) = cap n cs.
Proof.
  revert j cs; induction m as [|e m IH]; intros j cs Hn; [done|]. cbn [extra_caps]. rewrite IH by lia.
  destruct (nonzero _); [|done]. apply cap_add_ne. lia.
Qed.

(** The nonzero costs among the fields of [m]. *)
Definition shown_costs (tier : VisualTier) (m : list (jstr * jstr)) : list (jstr * jsnum) :=
  omap (λ e : jstr * jstr, let v := cost (t_costs tier) e.1 in if nonzero v then Some (e.1, v) else None) m.

Lemma captured_extra tier j m cs :
  (∀ n, (j ≤ n)%nat → cap n cs = None) →
  Forall (λ e, nonzero (cost (t_costs tier) e.1) = true → reads_back num_class (cost (t_costs tier) e.1) = true) m →
  captured_costs j m (extra_caps tier j m cs) = shown_costs tier m.
Proof.
  intros Hcs Hok. revert j cs Hcs; induction Hok as [|e m He _ IH]; intros j cs Hcs; [done|].
  destruct e as [field var]. cbn [captured_costs extra_caps fst] in *.
  rewrite cap_extra by lia. unfold shown_costs. cbn [omap list_omap fst].
  destruct (nonzero (cost (t_costs tier) field)) eqn:Hz.
  - rewrite cap_add_eq. destruct (reads_back_spec _ _ (He eq_refl)) as (_ & _ & ->). f_equal. apply IH.
    intros n Hn. rewrite cap_add_ne by lia. apply Hcs. lia.
  - rewrite Hcs by lia. apply IH. intros n Hn. apply Hcs. lia.
Qed.

Lemma shown_cost tier m field :
  field ∈ map fst m → NoDup (map fst m) → cost (shown_costs tier m) field = cost (t_costs tier) field.
Proof.
  assert (Hnone : ∀ m, field ∉ map fst m → map_get (shown_costs tier m) field = None).
  { induction m0 as [|[f v] m0 IH]; [done|]. cbn [map fst]. intros [Hf Hn]%not_elem_of_cons.
    unfold shown_costs. cbn [omap list_omap fst]. destruct (nonzero _); [|by apply IH].
    cbn [map_get]. rewrite decide_False by congruence. by apply IH. }
  unfold cost at 1. induction m as [|[f v] m IH]; [by intros ?%elem_of_nil|]. cbn [map fst].
  intros [->|Hin]%elem_of_cons [Hf Hnd]%NoDup_cons; unfold shown_costs; cbn [omap list_omap fst].
  - destruct (nonzero _) eqn:Hz; cbn [map_get].
    + rewrite decide_True by done. unfold cost. by rewrite or_zero_idemp.
    + fold (shown_costs tier m). rewrite Hnone by done. unfold cost in *. by rewrite (nonzero_false _ Hz).
  - destruct (nonzero _); [|by apply IH]. cbn [map_get]. rewrite decide_False by (intros ->; done). by apply IH.
Qed.

(** ** Regular tiers *)

(** A tier as the editor holds it: normalised, with a label without quotes
    and numbers that are read back. *)
Definition regular_tier (t : VisualTier) : bool :=
  nonempty (t_label t) && forallb not_quote (t_label t) && forallb condition_ok (t_conditions t)
  && bool_decide (t_costs (normalizeVisualTier (as_partial t)) = t_costs t)
  && reads_back num_class (t_input t) && bool_decide (or_zero (Some (t_input t)) = t_input t)
  && reads_back num_class (t_output t) && bool_decide (or_zero (Some (t_output t)) = t_output t)
  && forallb (λ e : jstr * jstr, negb (nonzero (cost (t_costs t) e.1)) || reads_back num_class (cost (t_costs t) e.1))
       BILLING_CACHE_VAR_MAP.

(** What is read back: all but the cache mode, which follows the 1h cost. *)
Definition reread (t : VisualTier) : VisualTier :=
  {| t_label := t_label t; t_conditions := t_conditions t; t_input := t_input t; t_output := t_output t;
     t_cache_mode := if positive (cost (t_costs t) (js "cache_create_1h_unit_cost")) then CACHE_MODE_TIMED
                     else CACHE_MODE_GENERIC;
     t_costs := t_costs t |}.

Record regular (t : VisualTier) : Prop := {
  reg_label : t_label t ≠ [];
  reg_quotes : Forall (λ c, not_quote c = true) (t_label t);
  reg_conditions : forallb condition_ok (t_conditions t) = true;
  reg_costs : t_costs (normalizeVisualTier (as_partial t)) = t_costs t;
  reg_input : or_zero (Some (t_input t)) = t_input t ∧ number_of_string (string_of_number (t_input t)) = t_input t;
  reg_output : or_zero (Some (t_output t)) = t_output t ∧ number_of_string (string_of_number (t_output t)) = t_output t;
  reg_ok : costs_ok t;
}.

Lemma regular_tier_ok t : regular_tier t = true → regular t.
Proof.
  unfold regular_tier. rewrite !andb_true_iff. intros [[[[[[[[H1 H2] H3] H4] H5] H6] H7] H8] H9].
  apply bool_decide_eq_true in H4, H6, H8. pose proof (reads_back_spec _ _ H5) as (_ & _ & Hi).
  pose proof (reads_back_spec _ _ H7) as (_ & _ & Ho). split; try done.
  - by apply nonempty_true.
  - rewrite forallb_forall in H2. apply Forall_forall. intros c Hc. by apply H2, list_elem_of_In.
  - split; [by rewrite H6|]. split; [by rewrite H8|]. rewrite forallb_forall in H9. apply Forall_forall.
    intros e He%list_elem_of_In%H9 Hz. by rewrite Hz in He.
Qed.

Lemma cache_fields_NoDup : NoDup (map fst BILLING_CACHE_VAR_MAP).
Proof. apply (bool_decide_unpack _). by_eval. Qed.

Lemma normalized_costs costs t :
  (∀ field, field ∈ map fst BILLING_CACHE_VAR_MAP → cost costs field = cost (t_costs t) field) →
  ∀ l c i o m, t_costs (normalizeVisualTier {| p_label := l; p_conditions := c; p_input := i; p_output := o;
                           p_cache_mode := m; p_costs := costs |})
  = t_costs (normalizeVisualTier (as_partial t)).
Proof.
  intros H l c i o m. cbn [normalizeVisualTier t_costs p_costs as_partial]. apply map_ext_in. intros f Hf.
  f_equal. apply H.
  assert (Hall : Forall (λ f, js f ∈ map fst BILLING_CACHE_VAR_MAP) ["cache_read_unit_cost"; "cache_create_unit_cost";
    "cache_create_1h_unit_cost"; "image_unit_cost"; "image_output_unit_cost"; "audio_input_unit_cost";
    "audio_output_unit_cost"]%string) by (apply (bool_decide_unpack _); by_eval).
  rewrite Forall_forall in Hall. by apply Hall, list_elem_of_In.
Qed.

(** The tier of a match of a printed regular tier. *)
Lemma captured_regular t conditions i label cs :
  regular t → (∀ n, (i < n)%nat → cap n cs = None) →
  captured_tier conditions i (body_caps (S i) t (cap_add i label cs)) =
  {| t_label := label; t_conditions := conditions; t_input := t_input t; t_output := t_output t;
     t_cache_mode := t_cache_mode (reread t); t_costs := t_costs t |}.
Proof.
  intros [_ _ _ Hc [Hi1 Hi2] [Ho1 Ho2] (_ & _ & Hok)] Hcs. unfold captured_tier, body_caps, group.
  rewrite Hi1, Ho1.
  rewrite (captured_extra t) by (try done; intros n Hn; rewrite !cap_add_ne by lia; apply Hcs; lia).
  rewrite !cap_extra by lia. rewrite (cap_add_ne i (S (S i))), (cap_add_ne i (S i)), cap_add_eq by lia.
  rewrite (cap_add_ne (S i) (S (S i))), cap_add_eq by lia. rewrite cap_add_eq. cbn [from_option id].
  assert (Hcost : ∀ field, field ∈ map fst BILLING_CACHE_VAR_MAP →
    cost (shown_costs t BILLING_CACHE_VAR_MAP) field = cost (t_costs t) field).
  { intros field Hf. apply shown_cost; [done|apply cache_fields_NoDup]. }
  pose proof (normalized_costs _ t Hcost (Some label) (Some conditions) (Some (t_input t)) (Some (t_output t)) None) as Hn.
  rewrite Hc in Hn. rewrite Hi2, Ho2. unfold normalizeVisualTier in *. cbn in Hn |- *. rewrite Hn.
  f_equal. unfold getTierCacheMode. cbn [p_cache_mode p_costs]. rewrite Hcost; [done|].
  apply (bool_decide_unpack _). by_eval.
Qed.

(** ** Texts that are no single tier *)

Lemma re_over_lits P w : Forall (λ c, P c = true) w → re_over P (rlits w).
Proof. induction 1 as [|c w Hc _ IH]; [done|]. split; [|done]. unfold is_chr. by intros d ->%Z.eqb_eq. Qed.

Ltac lits_ok := apply re_over_lits, (bool_decide_unpack _); by_eval.

Lemma re_over_sp : re_over not_quote sp.
Proof. intros c Hc. unfold not_quote. apply negb_true_iff, Z.eqb_neq. intros ->. done. Qed.

Lemma re_over_product v i r :
  Forall (λ c, not_quote c = true) v → re_over not_quote r → re_over not_quote (product_re v i r).
Proof.
  intros Hv Hr. unfold product_re.
  assert (Hn : re_over not_quote (RGroup i (rplus num_class))).
  { cbn. assert (H : ∀ c, num_class c = true → not_quote c = true).
    { intros c Hc. unfold not_quote. apply negb_true_iff, Z.eqb_neq. intros ->. done. }
    by split. }
  split; [by apply re_over_lits|]. split; [apply re_over_sp|]. split; [lits_ok|].
  split; [apply re_over_sp|]. by split.
Qed.

Lemma re_over_extra vs i r :
  Forall (Forall (λ c, not_quote c = true)) vs → re_over not_quote r → re_over not_quote (extra_re vs i r).
Proof.
  intros Hvs Hr. revert i; induction Hvs as [|v vs Hv _ IH]; intros i; [done|]. cbn [extra_re].
  split; [|apply IH]. split; [|done]. split; [apply re_over_sp|]. split; [lits_ok|].
  split; [apply re_over_sp|]. by apply re_over_product.
Qed.

Lemma re_over_body : re_over not_quote (body_re 2 (lit ")")).
Proof.
  apply re_over_product; [apply (bool_decide_unpack _); by_eval|]. split; [apply re_over_sp|].
  split; [lits_ok|]. split; [apply re_over_sp|].
  apply re_over_product; [apply (bool_decide_unpack _); by_eval|]. apply re_over_extra; [|lits_ok].
  apply (bool_decide_unpack _). by_eval.
Qed.

(** A second label is a second quote. *)
Lemma single_none_quotes label tier s :
  Forall (λ c, not_quote c = true) label → c_quote ∈ s → match_caps SINGLE_RE (tier_call label tier ++ s) = None.
Proof.
  intros Hl Hs. unfold SINGLE_RE. rewrite match_caps_bol, tier_call_text, <- !app_assoc.
  rewrite follow_tier; [|done| |apply rejects_body].
  2:{ destruct (body_head tier) as [t ->]. by apply stops_cons. }
  match goal with |- m_caps <$> ?m = None => destruct m as [st|] eqn:E; [|done] end. exfalso.
  match type of E with rmatch _ _ ?st0 = _ => change (rmatch (body_re 2 (lit ")")) (rmatch REol Some) st0 = Some st) in E end.
  destruct (rmatch_over not_quote _ re_over_body _ _ _ E) as (st' & (u & Hu & Fu) & Hk). cbn [rmatch] in Hk.
  destruct (m_rest st'); [|done]. cbn [m_rest] in Hu. rewrite app_nil_r in Hu. rewrite <- Hu in Fu. rename Fu into F.
  apply Forall_app in F as [_ F]. apply Forall_app in F as [_ F]. rewrite Forall_forall in F. by apply F in Hs.
Qed.

Lemma single_none_head s : match head s with Some c => negb (c =? 116) | None => false end = true → match_caps SINGLE_RE s = None.
Proof.
  destruct s as [|c s]; [done|]. cbn [head]. intros H%negb_true_iff%Z.eqb_neq. unfold SINGLE_RE. rewrite match_caps_bol.
  unfold tier_re. change (lit "tier(") with (rlits (116 :: js "ier(")). rewrite fail_lits; [done|]. by apply strip_head_ne.
Qed.

Lemma single_some t label :
  costs_ok t → Forall (λ c, not_quote c = true) label →
  match_caps SINGLE_RE (tier_call label t) = Some (body_caps 2 t (cap_add 1 label [])).
Proof.
  intros Ht Hl. unfold SINGLE_RE. rewrite match_caps_bol, <- (app_nil_r (tier_call label t)).
  erewrite follow_call; [|done|done|].
  2:{ rewrite rmatch_seq. change [c_rpar] with (js ")" ++ []). rewrite rmatch_lit_app. reflexivity. }
  done.
Qed.

(** No printed expression has a version prefix. *)
Lemma no_version s : match head s with Some c => negb (c =? 118) | None => true end = true → strip_version s = s.
Proof.
  intros H. unfold strip_version, VERSION_RE. rewrite match_caps_bol.
  change (lit "v") with (rlits (118 :: [])). rewrite fail_lits; [done|].
  destruct s as [|c s]; [done|]. cbn [head] in H. apply negb_true_iff, Z.eqb_neq in H. by apply strip_head_ne.
Qed.

(** ** Printed expressions *)

Definition item_of (t : VisualTier) : item :=
  {| i_conditions := t_conditions t; i_label := t_label t; i_tier := t |}.

Lemma item_of_ok t : regular t → item_ok (item_of t).
Proof. intros [_ H1 H2 _ _ _ H3]. by split. Qed.

Lemma conditions_shown l : forallb condition_ok l = true → nonempty (buildConditionStr l) = nonempty l.
Proof.
  intros H. destruct l as [|c l]; [done|]. rewrite conditions_text by done.
  destruct (condition_head c (concat (map and_text l))) as (d & t & -> & _). done.
Qed.

Lemma shown_label d t : regular t → label_or d t = t_label t.
Proof. intros [H _ _ _ _ _ _]. unfold label_or. by destruct (t_label t). Qed.

Lemma item_text_some t :
  regular t → t_conditions t ≠ [] →
  item_text (item_of t) = buildConditionStr (t_conditions t) ++ js " ? " ++ tier_call (t_label t) t.
Proof. intros _ H. unfold item_text, prefix_text. cbn [i_conditions i_label i_tier item_of]. destruct (t_conditions t); [done|]. by rewrite <- app_assoc. Qed.

Lemma item_text_none t : t_conditions t = [] → item_text (item_of t) = tier_call (t_label t) t.
Proof. intros H. unfold item_text, prefix_text. cbn [i_conditions i_label i_tier item_of]. by rewrite H. Qed.

Lemma tier_parts_items i l t :
  Forall regular (l ++ [t]) → t_conditions t = [] →
  tier_parts i (l ++ [t]) = map (λ t, item_text (item_of t)) (l ++ [t]).
Proof.
  intros Hr Ht. revert i; induction l as [|t' l IH]; intros i.
  - cbn [app tier_parts map nonempty andb]. apply Forall_cons in Hr as [Hr _].
    by rewrite shown_label, item_text_none.
  - cbn [app] in *. apply Forall_cons in Hr as [Hr' Hr]. cbn [tier_parts map].
    rewrite IH, conditions_shown, shown_label by (done || apply Hr'). f_equal.
    assert (Hne : nonempty (l ++ [t]) = true) by by destruct l. rewrite Hne. cbn [andb].
    destruct (t_conditions t') eqn:E; [by rewrite item_text_none|]. cbn [nonempty].
    rewrite item_text_some by (done || by rewrite E). by rewrite E.
Qed.

(** A configuration of the editor: regular tiers, the last of several being
    the fallback without conditions. *)
Definition regular_config (cfg : list VisualTier) : bool :=
  nonempty cfg && forallb regular_tier cfg
  && ((length cfg =? 1)%nat || match last cfg with Some t => negb (nonempty (t_conditions t)) | None => false end).

Definition no_tail (tail : jstr) : Prop := ∀ r pre, search (item_re r) pre tail = None.

Lemma no_tail_nil : no_tail [].
Proof. intros r pre. vm_compute. reflexivity. Qed.

Lemma no_tail_default : no_tail (js " : p * 0 + c * 0").
Proof. intros r pre. vm_compute. reflexivity. Qed.

Lemma regular_config_tiers cfg : regular_config cfg = true → cfg ≠ [] ∧ Forall regular cfg.
Proof.
  intros [[Hne%nonempty_true H]%andb_true_iff _]%andb_true_iff. split; [done|].
  rewrite forallb_forall in H. apply Forall_forall. intros t Ht. by apply regular_tier_ok, H, list_elem_of_In.
Qed.

(** A printed configuration is its tiers one after another. *)
Lemma printed_config cfg :
  regular_config cfg = true →
  ∃ t l tail, cfg = t :: l ∧ no_tail tail
    ∧ generateExprFromVisualConfig (Some cfg) = item_text (item_of t) ++ chain (map item_of l) ++ tail
    ∧ (l ≠ [] ∨ t_conditions t = [] → tail = []).
Proof.
  intros H. destruct (regular_config_tiers cfg H) as [Hne Hr].
  apply andb_true_iff in H as [_ Hlast]. destruct cfg as [|t [|t2 l]]; [done| |].
  - apply Forall_cons in Hr as [Ht _]. exists t, [].
    cbn [generateExprFromVisualConfig]. rewrite conditions_shown, shown_label by apply Ht.
    destruct (t_conditions t) eqn:E; cbn [nonempty].
    + exists []. split; [done|]. split; [apply no_tail_nil|]. split; [|done]. rewrite item_text_none by done.
      unfold chain. cbn. by rewrite app_nil_r.
    + exists (js " : p * 0 + c * 0"). split; [done|]. split; [apply no_tail_default|]. split; [|by intros [?|?]].
      rewrite item_text_some by (done || by rewrite E). rewrite E. unfold chain. cbn [map concat app].
      by rewrite <- !app_assoc.
  - cbn [length Nat.eqb orb] in Hlast. exists t, (t2 :: l), [].
    split; [done|]. split; [apply no_tail_nil|]. split; [|done].
    destruct (exists_last (l := t :: t2 :: l) ltac:(done)) as (front & z & E).
    assert (Hz : t_conditions z = []).
    { rewrite E, last_snoc in Hlast. by destruct (t_conditions z). }
    change (generateExprFromVisualConfig (Some (t :: t2 :: l))) with (join (js " : ") (tier_parts 0 (t :: t2 :: l))).
    rewrite E in Hr |- *. rewrite tier_parts_items by done. rewrite <- E. cbn [map]. rewrite join_concat, app_nil_r.
    f_equal. unfold chain. cbn [map concat]. by rewrite !map_map.
Qed.

Lemma tryParse_unfold s :
  s ≠ [] → strip_version s = s →
  tryParseVisualConfig s =
  match match_caps SINGLE_RE s with
  | Some cs => Some (normalizeVisualConfig (Some [as_partial (captured_tier [] 1 cs)]))
  | None =>
      match map (λ cs, captured_tier (parse_conditions (default [] (cap 1 cs))) 2 cs) (exec_all TIER_RE s) with
      | [] => None
      | tiers =>
          let cfg := normalizeVisualConfig (Some (map as_partial tiers)) in
          if bool_decide (without_spaces (generateExprFromVisualConfig (Some cfg)) = without_spaces s)
          then Some cfg else None
      end
  end.
Proof. intros Hs Hv. unfold tryParseVisualConfig. rewrite Hv. by destruct s. Qed.

Lemma item_head t s :
  regular t →
  ∃ c u, item_text (item_of t) ++ s = c :: u ∧ c ≠ 118 ∧ (t_conditions t ≠ [] → c ≠ 116).
Proof.
  intros Hr. destruct (t_conditions t) as [|c l] eqn:E.
  - rewrite item_text_none by done. unfold tier_call. change (js "tier(") with (116 :: js "ier(").
    eexists 116, _. by split.
  - rewrite item_text_some by (done || by rewrite E). pose proof (reg_conditions t Hr) as Hc. rewrite E in Hc |- *.
    rewrite conditions_text by done. rewrite <- !app_assoc, condition_text_split.
    destruct (ci_var c); [change (js "p") with [112]|change (js "c") with [99]|change (js "len") with [108; 101; 110]];
      cbn [app var_name]; [exists 112|exists 99|exists 108]; eexists; by split.
Qed.

Lemma prefix_cap t : cap 1 (item_caps (body_caps 3) (item_of t)) = match t_conditions t with [] => None | _ => Some (buildConditionStr (t_conditions t)) end.
Proof.
  unfold item_caps, body_caps. cbn [i_tier i_label i_conditions item_of]. rewrite cap_extra, !cap_add_ne by lia.
  unfold prefix_caps. destruct (t_conditions t); [done|]. by rewrite cap_add_eq.
Qed.

Lemma prefix_caps_later l n : (1 < n)%nat → cap n (prefix_caps l) = None.
Proof. intros Hn. destruct l; [done|]. cbn [prefix_caps]. by rewrite cap_add_ne by lia. Qed.

(** The tier read from the match of a printed tier. *)
Lemma read_item t :
  regular t →
  captured_tier (parse_conditions (default [] (cap 1 (item_caps (body_caps 3) (item_of t))))) 2
    (item_caps (body_caps 3) (item_of t)) = reread t.
Proof.
  intros Hr. rewrite prefix_cap, parse_conditions_text by apply (reg_conditions t Hr).
  unfold item_caps. cbn [i_tier i_label i_conditions item_of]. rewrite captured_regular; [done|done|].
  intros n Hn. apply prefix_caps_later. lia.
Qed.

Lemma reread_normal t : regular t → normalizeVisualTier (as_partial (reread t)) = reread t.
Proof.
  intros Hr. pose proof (reg_costs t Hr) as Hc. unfold normalizeVisualTier, as_partial in *. cbn in Hc |- *.
  rewrite Hc. done.
Qed.

Lemma reread_config l :
  l ≠ [] → Forall regular l → normalizeVisualConfig (Some (map as_partial (map reread l))) = map reread l.
Proof.
  intros Hne Hr. destruct l as [|t l]; [done|]. cbn [normalizeVisualConfig map].
  apply Forall_cons in Hr as [Ht Hr]. rewrite reread_normal by done. f_equal.
  rewrite !map_map. apply map_ext_in. intros x Hx%list_elem_of_In. rewrite Forall_forall in Hr.
  by apply reread_normal, Hr.
Qed.

(** Printing does not look at the cache mode. *)
Lemma generate_reread l : generateExprFromVisualConfig (Some (map reread l)) = generateExprFromVisualConfig (Some l).
Proof.
  assert (Hp : ∀ i l, tier_parts i (map reread l) = tier_parts i l).
  { intros i l'. revert i; induction l' as [|t l' IH]; intros i; [done|]. cbn [map tier_parts].
    rewrite IH. by destruct l'. }
  destruct l as [|t [|t2 l]]; [done|done|]. cbn [map generateExprFromVisualConfig].
  exact (f_equal (join (js " : ")) (Hp 0 (t :: t2 :: l))).
Qed.

(** A second tier has a label of its own. *)
Lemma chain_quote t l tail : c_quote ∈ chain (map item_of (t :: l)) ++ tail.
Proof.
  apply elem_of_app. left. unfold chain. cbn [map concat]. apply elem_of_app. left. apply elem_of_app. right.
  unfold item_text, tier_call, quoted. apply elem_of_app. right. apply elem_of_app. right. by left.
Qed.

Lemma read_printed cfg :
  regular_config cfg = true → tryParseVisualConfig (generateExprFromVisualConfig (Some cfg)) = Some (map reread cfg).
Proof.
  intros H. destruct (regular_config_tiers cfg H) as [Hne Hr].
  destruct (printed_config cfg H) as (t & l & tail & -> & Htail & E & Hlone).
  set (text := generateExprFromVisualConfig _) in *. pose proof Hr as Hr'. apply Forall_cons in Hr' as [Ht Hl].
  destruct (item_head t (chain (map item_of l) ++ tail) Ht) as (c & u & Ehd & Hv & Htt).
  rewrite tryParse_unfold.
  2:{ rewrite E, Ehd. done. }
  2:{ apply no_version. rewrite E, Ehd. cbn [head]. by apply negb_true_iff, Z.eqb_neq. }
  assert (Hcase : (l = [] ∧ t_conditions t = []) ∨ match_caps SINGLE_RE text = None).
  { destruct (t_conditions t) as [|c0 cs0] eqn:Ec.
    - destruct l as [|t2 l]; [by left|]. right. rewrite E, item_text_none by done.
      apply single_none_quotes; [apply (reg_quotes t Ht)|apply chain_quote].
    - right. apply single_none_head. rewrite E, Ehd. cbn [head]. by apply negb_true_iff, Z.eqb_neq, Htt. }
  destruct Hcase as [[-> Hc]|Hnone].
  - rewrite E, (Hlone (or_intror Hc)), item_text_none by done. unfold chain. cbn [map concat app]. rewrite app_nil_r.
    rewrite single_some by (apply Ht || apply (reg_quotes t Ht)).
    rewrite captured_regular by done. rewrite <- Hc at 1.
    change {| t_label := t_label t; t_conditions := t_conditions t |} with (reread t).
    f_equal. apply (reread_config [t]); [done|by constructor].
  - rewrite Hnone. change TIER_RE with (item_re (body_re 3 (lit ")"))). rewrite E.
    rewrite (exec_items _ (body_caps 3) visual_body).
    + rewrite <- E.
      assert (Hmap : map (λ cs, captured_tier (parse_conditions (default [] (cap 1 cs))) 2 cs)
        (map (item_caps (body_caps 3)) (map item_of (t :: l))) = map reread (t :: l)).
      { rewrite !map_map. apply map_ext_in. intros x Hx%list_elem_of_In. rewrite Forall_forall in Hr.
        by apply read_item, Hr. }
      change (item_of t :: map item_of l) with (map item_of (t :: l)). rewrite Hmap.
      destruct (map reread (t :: l)) as [|x xs] eqn:Ers; [done|]. cbv zeta. rewrite <- Ers, reread_config by done.
      rewrite generate_reread, bool_decide_eq_true_2 by done. done.
    + change (item_of t :: map item_of l) with (map item_of (t :: l)). apply Forall_map.
      eapply Forall_impl; [exact Hr|]. intros x Hx. by apply item_of_ok.
    + apply Htail.
Qed.
