(* ===== verification/TierDisplayProps.v ===== *)
(** * Billing expressions: the tiers the price displays show

    The price displays read a stored expression with a parser of their own;
    on what the visual editor prints they show the tiers of the editor. A
    stored expression splits into its tiers and its rules. *)

From Stdlib Require Import String.
From S2P Require Import JsExec JsJson BillingExpr BillingExprFacts BillingExprProps TierExpr TierExprFacts TierExprProps.

#[local] Opaque js string_of_number number_of_string.

(** ** The body is captured *)

(** The literal pieces of a body. *)
Definition body_lits : jstr := js "p" ++ js " + " ++ js "c" ++ js " * " ++ concat cacheVarNames.

Section body_over.
(** What numbers and the literal pieces consist of. *)
Context (P : Z → bool) (P_num : ∀ c, num_class c = true → P c = true).
Context (P_lits : Forall (λ c, P c = true) body_lits).

Lemma product_over v x :
  reads_back num_class x = true → Forall (λ c, P c = true) v → Forall (λ c, P c = true) (product v x).
Proof.
  intros (_ & Hn & _)%reads_back_spec Hv. unfold body_lits in P_lits. rewrite !Forall_app in P_lits.
  unfold product. apply Forall_app. split; [done|]. apply Forall_app. split; [tauto|].
  eapply Forall_impl; [exact Hn|done].
Qed.

Lemma extra_over tier m :
  Forall (λ e, nonzero (cost (t_costs tier) e.1) = true → reads_back num_class (cost (t_costs tier) e.1) = true) m →
  Forall (λ e : jstr * jstr, Forall (λ c, P c = true) e.2) m →
  Forall (λ c, P c = true) (extra_text tier m).
Proof.
  induction 1 as [|e m He _ IH]; intros Hv; [apply Forall_nil_2|]. apply Forall_cons in Hv as [Hve Hv].
  rewrite extra_text_cons. apply Forall_app. split; [|by apply IH].
  destruct (nonzero _) eqn:Hz; [|apply Forall_nil_2]. apply Forall_app.
  split; [unfold body_lits in P_lits; rewrite !Forall_app in P_lits; tauto|]. apply product_over; [by apply He|done].
Qed.

Lemma body_over tier : costs_ok tier → Forall (λ c, P c = true) (buildTierBodyExpr tier).
Proof.
  intros (Hi & Ho & He). pose proof P_lits as Hl. unfold body_lits in Hl. rewrite !Forall_app in Hl.
  destruct Hl as (Hp & Hplus & Hc & _ & Hvars). rewrite body_text, !Forall_app.
  split; [by apply product_over|]. split; [done|]. split; [by apply product_over|].
  apply extra_over; [done|]. unfold cacheVarNames in Hvars. clear He.
  induction BILLING_CACHE_VAR_MAP as [|e m IH]; [apply Forall_nil_2|].
  cbn [map concat] in Hvars. apply Forall_app in Hvars as [He Hm]. by constructor; [|apply IH].
Qed.
End body_over.

Lemma body_no_rpar tier : costs_ok tier → Forall (λ c, not_rpar c = true) (buildTierBodyExpr tier).
Proof.
  apply body_over; [|apply (bool_decide_unpack _); by_eval].
  intros c Hc. unfold not_rpar. apply negb_true_iff, Z.eqb_neq. by intros ->.
Qed.

Definition shown_re : re := RGroup 3 (rplus not_rpar) ⋅ lit ")".
Definition shown_caps (tier : VisualTier) (cs : caps) : caps := cap_add 3 (buildTierBodyExpr tier) cs.

Lemma shown_body (tier : VisualTier) (k : mstate → option mstate) pre rest cs y :
  costs_ok tier →
  k (MState (rev (buildTierBodyExpr tier ++ js ")") ++ pre) rest (shown_caps tier cs)) = Some y →
  rmatch shown_re k (MState pre (buildTierBodyExpr tier ++ js ")" ++ rest) cs) = Some y.
Proof.
  intros Hc Hk. unfold shown_re. apply follow_group_plus.
  - by apply body_no_rpar.
  - by destruct (body_head tier) as [t ->].
  - by apply stops_cons.
  - rewrite rmatch_lit_app. same_pre Hk.
Qed.


(** ** The products of a body *)

(** The variables with a cost of their own, by field. *)
Definition cost_products (t : VisualTier) (m : list (jstr * jstr)) : list (jstr * jsnum) :=
  omap (λ e : jstr * jstr, let v := cost (t_costs t) e.1 in if nonzero v then Some (e.2, v) else None) m.

Lemma cost_products_cons t e m :
  cost_products t (e :: m) =
  (if nonzero (cost (t_costs t) e.1) then [(e.2, cost (t_costs t) e.1)] else []) ++ cost_products t m.
Proof. unfold cost_products. cbn [omap list_omap]. by destruct (nonzero _). Qed.

(** The variables of a body with their costs, as they are printed. *)
Definition body_products (t : VisualTier) : list (jstr * jsnum) :=
  (js "p", or_zero (Some (t_input t))) :: (js "c", or_zero (Some (t_output t))) :: cost_products t BILLING_CACHE_VAR_MAP.

Definition products_text (l : list (jstr * jsnum)) : jstr :=
  concat (map (λ e : jstr * jsnum, js " + " ++ product e.1 e.2) l).

Lemma extra_text_products t m : extra_text t m = products_text (cost_products t m).
Proof.
  induction m as [|e m IH]; [done|]. rewrite extra_text_cons, cost_products_cons, IH.
  destruct (nonzero _); [|done]. unfold products_text. cbn [map app concat fst snd]. done.
Qed.

Lemma body_products_text t :
  buildTierBodyExpr t = product (js "p") (or_zero (Some (t_input t))) ++ products_text (tail (body_products t)).
Proof.
  rewrite body_text, extra_text_products. unfold body_products, products_text. cbn [tail map concat fst snd].
  by rewrite <- !app_assoc.
Qed.

Definition product_ok (e : jstr * jsnum) : Prop :=
  e.1 ∈ map bv_key BILLING_PRICING_VARS ∧ reads_back num_class e.2 = true.

Lemma pricing_vars_ok : Forall is_var (map bv_key BILLING_PRICING_VARS) ∧ NoDup (map bv_key BILLING_PRICING_VARS).
Proof.
  split; [|apply (bool_decide_unpack _); by_eval]. destruct cache_vars_ok as [H _].
  change (map bv_key BILLING_PRICING_VARS) with (js "p" :: js "c" :: map snd BILLING_CACHE_VAR_MAP).
  assert (Hv : ∀ c, is_word c = true → is_var [c]) by (intros c Hc; split; [done|by apply Forall_singleton]).
  apply Forall_cons. split; [by apply (Hv 112)|]. apply Forall_cons. split; [by apply (Hv 99)|done].
Qed.

Lemma cost_products_keys t m : map fst (cost_products t m) `sublist_of` map snd m.
Proof.
  induction m as [|e m IH]; [done|]. rewrite cost_products_cons. destruct (nonzero _); cbn [app map]; by constructor.
Qed.

Lemma cost_products_ok t m :
  Forall (λ e, nonzero (cost (t_costs t) e.1) = true → reads_back num_class (cost (t_costs t) e.1) = true) m →
  Forall (λ v, v ∈ map bv_key BILLING_PRICING_VARS) (map snd m) → Forall product_ok (cost_products t m).
Proof.
  induction 1 as [|e m He _ IH]; intros Hm; [apply Forall_nil_2|]. apply Forall_cons in Hm as [Hv Hm].
  rewrite cost_products_cons. apply Forall_app. split; [|by apply IH].
  destruct (nonzero _) eqn:Hz; [|apply Forall_nil_2]. apply Forall_singleton. split; [done|by apply He].
Qed.

Lemma pricing_keys : map bv_key BILLING_PRICING_VARS = js "p" :: js "c" :: map snd BILLING_CACHE_VAR_MAP.
Proof. done. Qed.

Lemma body_products_ok t : costs_ok t → Forall product_ok (body_products t) ∧ NoDup (map fst (body_products t)).
Proof.
  intros (Hi & Ho & He). split.
  - assert (Hin : Forall (λ v, v ∈ map bv_key BILLING_PRICING_VARS) (js "p" :: js "c" :: map snd BILLING_CACHE_VAR_MAP)).
    { rewrite <- pricing_keys. apply Forall_forall. by intros v Hv. }
    apply Forall_cons in Hin as [Hp [Hc Hm]%Forall_cons]. unfold body_products.
    do 2 (apply Forall_cons; split; [by split|]). by apply cost_products_ok.
  - eapply sublist_NoDup; [apply (proj2 pricing_vars_ok)|]. rewrite pricing_keys.
    unfold body_products. cbn [map fst]. do 2 constructor. apply cost_products_keys.
Qed.

(** ** Every product is found *)

Definition product_caps (e : jstr * jsnum) : caps := cap_add 2 (string_of_number e.2) (cap_add 1 e.1 []).

Lemma match_product e pre s :
  product_ok e → word_at pre = false → stops num_class s →
  rmatch BILLING_VAR_REGEX Some (MState pre (product e.1 e.2 ++ s) []) =
  Some (MState (rev (product e.1 e.2) ++ pre) s (product_caps e)).
Proof.
  destruct e as [v x]. intros [Hv Hx] Hpre Hs. cbn [fst snd] in *. destruct pricing_vars_ok as [Hvars _].
  assert (Hw : is_var v) by (rewrite Forall_forall in Hvars; by apply Hvars).
  destruct (reads_back_spec _ _ Hx) as (Hne & Hn & _).
  unfold BILLING_VAR_REGEX. rewrite rmatch_seq. cbn [rmatch m_pre m_rest]. rewrite Hpre.
  assert (word_at (product v x ++ s) = true) as ->.
  { destruct Hw as [Hvn Hvw]. unfold product. destruct v as [|c v]; [done|]. by apply Forall_cons in Hvw as [Hc _]. }
  cbn [xorb]. unfold product. rewrite <- !app_assoc.
  match goal with |- ?a = ?y => change (rmatch (RGroup 1 (word_of (map bv_key BILLING_PRICING_VARS)) ⋅ sp ⋅ lit "*"
    ⋅ sp ⋅ RGroup 2 (rplus num_class)) Some (MState pre (v ++ js " * " ++ string_of_number x ++ s) []) = y) end.
  apply follow_word; [done|done|]. rewrite js_times, <- !app_assoc. cbn [app]. change (lit "*") with (rlits (42 :: [])).
  change (js "*" ++ 32 :: string_of_number x ++ s) with ((42 :: []) ++ [32] ++ string_of_number x ++ s).
  rewrite (follow_blank_lit 42 []) by done.
  rewrite follow_sp; [|by apply Forall_singleton| |].
  - eapply rmatch_group_plus_longest; [exact Hn|done| |].
    + intros pre' cs' [|d t1] t2 -> Ht1 Hp; [done|]. apply Forall_cons in Hp as [Hd _].
      by rewrite (Hs d (t1 ++ t2) eq_refl) in Hd.
    + unfold product_caps. cbn [fst snd]. do 2 f_equal.
      change (32 :: js "*" ++ 32 :: string_of_number x) with ([32] ++ [42] ++ [32] ++ string_of_number x).
      by rewrite !rev_app_distr, <- !app_assoc.
  - eapply class_stops; [done|exact Hn|]. intros c Hc. destruct (is_ws c) eqn:E; [|done]. by rewrite num_class_ws in Hc.
  - apply rejects_group, rejects_plus, num_class_ws.
Qed.

Lemma rmatch_boundary {R} (k : mstate → option R) st :
  rmatch RWordBoundary k st = if xorb (word_at (m_pre st)) (word_at (m_rest st)) then k st else None.
Proof. done. Qed.

Lemma word_fails vs i r (k : mstate → option mstate) pre cs :
  Forall is_var vs → rmatch (RGroup i (word_of vs) ⋅ r) k (MState pre [] cs) = None.
Proof.
  induction 1 as [|v vs [Hv _] _ IH]; [done|]. unfold word_of. cbn [foldr]. fold (word_of vs).
  rewrite rmatch_seq, rmatch_group_alt, <- !rmatch_seq, IH. destruct v as [|c v]; [done|]. done.
Qed.

Lemma search_products_end pre : search BILLING_VAR_REGEX pre [] = None.
Proof.
  cbn [search]. unfold BILLING_VAR_REGEX. rewrite rmatch_seq, rmatch_boundary, word_fails by apply pricing_vars_ok.
  by destruct (xorb _ _).
Qed.

Definition plus_sign (c : Z) : bool := (c =? 32) || (c =? 43).

Lemma rejects_word vs P : Forall is_var vs → (∀ c, P c = true → is_word c = false) → rejects P (word_of vs).
Proof.
  intros Hvs HP. induction Hvs as [|v vs [Hne Hv] _ IH]; [by apply rejects_char|]. unfold word_of. cbn [foldr].
  apply rejects_alt; [|exact IH]. destruct v as [|c v]; [done|]. apply Forall_cons in Hv as [Hc _].
  apply rejects_lits. destruct (P c) eqn:E; [|done]. by rewrite (HP c E) in Hc.
Qed.

Lemma rejects_products : rejects plus_sign BILLING_VAR_REGEX.
Proof.
  apply rejects_boundary, rejects_seq, rejects_group, rejects_word; [apply pricing_vars_ok|].
  intros c [->%Z.eqb_eq| ->%Z.eqb_eq]%orb_true_iff; done.
Qed.

Lemma products_text_stops l : stops num_class (products_text l).
Proof. destruct l; [by intros c s|]. unfold products_text. cbn [map concat]. rewrite js_plus. by apply stops_cons. Qed.

Lemma exec_products l fuel pre :
  Forall product_ok l → (length l < fuel)%nat → exec_loop fuel BILLING_VAR_REGEX pre (products_text l) = map product_caps l.
Proof.
  intros Hl. revert fuel pre; induction Hl as [|e l He Hl IH]; intros fuel pre Hf; (destruct fuel as [|n]; [cbn in Hf; lia|]);
    cbn [exec_loop].
  - unfold products_text. cbn [map concat]. by rewrite search_products_end.
  - unfold products_text. cbn [map concat]. fold (products_text l). rewrite <- !app_assoc, (search_skip plus_sign).
    + change (rev (js " + ") ++ pre) with (32 :: 43 :: 32 :: pre).
      rewrite (search_here _ _ _ _ (match_product e (32 :: 43 :: 32 :: pre) _ He eq_refl (products_text_stops l))).
      cbn [m_caps m_pre m_rest map]. f_equal. apply IH. cbn in Hf. lia.
    + apply rejects_products.
    + rewrite js_plus. by repeat constructor.
Qed.

Lemma exec_body t : costs_ok t → exec_all BILLING_VAR_REGEX (buildTierBodyExpr t) = map product_caps (body_products t).
Proof.
  intros Ht. destruct (body_products_ok t Ht) as [Hall _]. rewrite body_products_text. unfold exec_all.
  unfold body_products in *. cbn [tail]. apply Forall_cons in Hall as [Hp Hl].
  set (l := _ :: cost_products _ _) in *. cbn [exec_loop].
  pose proof (match_product _ [] _ Hp eq_refl (products_text_stops l)) as Hm. cbn [fst snd] in Hm.
  rewrite (search_here _ _ _ _ Hm).
  cbn [m_caps m_pre m_rest map]. f_equal. apply exec_products; [done|]. rewrite length_app.
  assert (H : (length l ≤ length (products_text l))%nat).
  { clear. unfold products_text. induction l as [|e l IH]; [done|]. cbn [map concat length]. rewrite !length_app.
    change (length (js " + ")) with 3%nat. lia. }
  assert (0 < length (product (js "p") (or_zero (Some (t_input t)))))%nat; [|cbn [fst snd]; lia].
  unfold product. rewrite !length_app. change (length (js "p")) with 1%nat. lia.
Qed.

(** ** The coefficients *)

Lemma add_coeffs l acc :
  Forall product_ok l → NoDup (map fst l) → (∀ e, e ∈ l → e.1 ∉ map fst acc) →
  foldl add_coeff acc (map product_caps l) = acc ++ l.
Proof.
  intros Hl. revert acc; induction Hl as [|[v x] l [_ Hx] _ IH]; intros acc Hnd Hacc; [by rewrite app_nil_r|].
  cbn [map fst] in Hnd. apply NoDup_cons in Hnd as [Hn Hnd]. cbn [map foldl].
  assert (Hstep : add_coeff acc (product_caps (v, x)) = acc ++ [(v, x)]).
  { pose proof (Hacc (v, x) ltac:(by left)) as Hv. cbn [fst snd] in *.
    unfold add_coeff, product_caps, group. cbn [fst snd]. rewrite cap_add_eq, cap_add_ne, cap_add_eq by lia.
    cbn [from_option id]. destruct (reads_back_spec _ _ Hx) as (_ & _ & ->).
    unfold map_has. rewrite (proj2 (map_get_None acc v) Hv). by apply map_set_fresh. }
  rewrite Hstep, IH; [by rewrite <- app_assoc|done|].
  intros e He Hin. rewrite map_app, elem_of_app in Hin. destruct Hin as [Hin|Hin].
  - by apply (Hacc e); [by right|].
  - apply list_elem_of_singleton in Hin. cbn in Hin. apply Hn. rewrite <- Hin. apply list_elem_of_fmap. by exists e.
Qed.

Lemma get_cost_product t m f k :
  (f, k) ∈ m → NoDup (map snd m) → or_zero (map_get (cost_products t m) k) = cost (t_costs t) f.
Proof.
  induction m as [|[f' k'] m IH]; [by intros ?%elem_of_nil|]. cbn [map snd].
  intros Hin [Hn Hnd]%NoDup_cons. rewrite cost_products_cons. cbn [fst snd].
  apply elem_of_cons in Hin as [[= <- <-]|Hin].
  - destruct (nonzero _) eqn:Hz; cbn [app map_get].
    + rewrite decide_True by done. unfold cost. by rewrite or_zero_idemp.
    + rewrite (proj2 (map_get_None _ _)).
      * unfold cost in *. by rewrite (nonzero_false _ Hz).
      * intros Hin. apply Hn. eapply sublist_subseteq; [apply cost_products_keys|exact Hin].
  - assert (k' ≠ k). { intros ->. apply Hn. apply list_elem_of_fmap. by exists (f, k). }
    destruct (nonzero _); cbn [app map_get]; [rewrite decide_False by done|]; by apply IH.
Qed.

(** The unit cost of a variable. *)
Definition unit_cost (t : VisualTier) (v : BillingVar) : jsnum :=
  if bool_decide (bv_key v = js "p") then t_input t
  else if bool_decide (bv_key v = js "c") then t_output t
  else cost (t_costs t) (default [] (bv_tierField v)).

Lemma pricing_vars_split :
  ∃ vp vc, BILLING_PRICING_VARS = vp :: vc :: BILLING_EXTRA_VARS ∧ bv_key vp = js "p" ∧ bv_key vc = js "c".
Proof. by eexists _, _. Qed.

Lemma get_unit_cost t v :
  regular t → v ∈ BILLING_PRICING_VARS → or_zero (map_get (body_products t) (bv_key v)) = unit_cost t v.
Proof.
  intros Hr Hv. destruct pricing_vars_split as (vp & vc & E & Ep & Ec).
  pose proof (proj2 pricing_vars_ok) as Hnd. rewrite pricing_keys in Hnd.
  apply NoDup_cons in Hnd as [Hp [Hc Hnd]%NoDup_cons]. unfold unit_cost, body_products. cbn [map_get].
  rewrite E in Hv. apply elem_of_cons in Hv as [->|[->|Hv]%elem_of_cons].
  - rewrite Ep, decide_True, bool_decide_eq_true_2 by done. rewrite or_zero_idemp. apply (reg_input t Hr).
  - rewrite Ec, bool_decide_eq_false_2, bool_decide_eq_true_2 by done. rewrite decide_False, decide_True by done.
    rewrite or_zero_idemp. apply (reg_output t Hr).
  - assert (Hin : (default [] (bv_tierField v), bv_key v) ∈ BILLING_CACHE_VAR_MAP).
    { unfold BILLING_CACHE_VAR_MAP. apply list_elem_of_fmap. by exists v. }
    assert (Hk : bv_key v ∈ map snd BILLING_CACHE_VAR_MAP).
    { apply list_elem_of_fmap. by exists (default [] (bv_tierField v), bv_key v). }
    assert (Hne : js "p" ≠ bv_key v ∧ js "c" ≠ bv_key v).
    { split; intros E'; rewrite <- E' in Hk; [apply Hp; by right|by apply Hc]. }
    rewrite !bool_decide_eq_false_2, !decide_False by naive_solver. by apply get_cost_product.
Qed.

(** ** The tiers shown *)

(** What the price displays show of a tier. *)
Definition displayed (t : VisualTier) : ParsedTier :=
  {| pt_label := t_label t; pt_conditions := t_conditions t;
     pt_prices := map (λ v, (default [] (bv_field v), unit_cost t v)) BILLING_PRICING_VARS |}.

Lemma parse_body t :
  regular t → parseTierBody (buildTierBodyExpr t) = pt_prices (displayed t).
Proof.
  intros Hr. pose proof (reg_ok t Hr) as Hc. destruct (body_products_ok t Hc) as [Hall Hnd].
  unfold parseTierBody. rewrite exec_body by done.
  rewrite (add_coeffs _ []) by (try done; intros e _ Hin; by apply not_elem_of_nil in Hin).
  unfold BILLING_VAR_KEY_TO_FIELD. rewrite map_map. apply map_ext_in. intros v Hv%list_elem_of_In.
  cbn [app fst snd]. by rewrite get_unit_cost.
Qed.

Lemma shown_item t :
  regular t → parsed_tier (item_caps shown_caps (item_of t)) = displayed t.
Proof.
  intros Hr. unfold parsed_tier, group, item_caps, shown_caps. cbn [i_tier i_label i_conditions item_of].
  rewrite !cap_add_ne, !cap_add_eq by lia. cbn [from_option id]. rewrite parse_body by done.
  assert (E : cap 1 (prefix_caps (t_conditions t)) = match t_conditions t with [] => None | _ => Some (buildConditionStr (t_conditions t)) end).
  { unfold prefix_caps. destruct (t_conditions t); [done|]. by rewrite cap_add_eq. }
  rewrite (cap_add_ne 1 3), (cap_add_ne 1 2), E, parse_conditions_text by (lia || apply (reg_conditions t Hr)). done.
Qed.

Lemma parse_printed cfg :
  regular_config cfg = true → parseTiersFromExpr (generateExprFromVisualConfig (Some cfg)) = map displayed cfg.
Proof.
  intros H. destruct (regular_config_tiers cfg H) as [Hne Hr].
  destruct (printed_config cfg H) as (t & l & tail & -> & Htail & E & _).
  set (text := generateExprFromVisualConfig _) in *. pose proof Hr as Hr'. apply Forall_cons in Hr' as [Ht Hl].
  destruct (item_head t (chain (map item_of l) ++ tail) Ht) as (c & u & Ehd & Hv & _).
  assert (Hstrip : (stripExprVersion text).2 = text).
  { assert (Hs : strip_version text = text).
    { apply no_version. rewrite E, Ehd. cbn [head]. by apply negb_true_iff, Z.eqb_neq. }
    unfold strip_version, stripExprVersion in *. by destruct (match_caps VERSION_RE text). }
  unfold parseTiersFromExpr. rewrite Hstrip. rewrite E at 1. rewrite Ehd. rewrite E.
  change PARSED_TIER_RE with (item_re shown_re).
  rewrite (exec_items _ shown_caps shown_body).
  - change (item_of t :: map item_of l) with (map item_of (t :: l)). rewrite !map_map. apply map_ext_in.
    intros x Hx%list_elem_of_In. rewrite Forall_forall in Hr. by apply shown_item, Hr.
  - change (item_of t :: map item_of l) with (map item_of (t :: l)). apply Forall_map.
    eapply Forall_impl; [exact Hr|]. intros x Hx. by apply item_of_ok.
  - apply Htail.
Qed.

(** ** Printed tiers inside a stored expression

    A printed configuration can be combined with request rules and split off
    again: it is trimmed, balanced, has no multiplication outside of
    parentheses, and is no rule factor itself. *)

(** ** No multiplication at the top level *)

Definition top_plain (s : jstr) : Prop :=
  balanced s ∧ ∀ u c v, s = u ++ c :: v → depth_from 0 u = 0 → c ≠ 42.

Definition flat (c : Z) : bool := no_paren c && negb (c =? 42).

Lemma top_plain_flat s : forallb flat s = true → top_plain s.
Proof.
  intros H. split.
  - apply balanced_no_paren. rewrite forallb_forall in *. intros c Hc. by apply H, andb_true_iff in Hc as [? _].
  - intros u c v -> _. rewrite forallb_app in H. cbn [forallb] in H. intros ->. by rewrite andb_false_r in H.
Qed.

Lemma top_plain_app s t : top_plain s → top_plain t → top_plain (s ++ t).
Proof.
  intros [Hs Ps] [Ht Pt]. split; [by apply balanced_app|]. intros u c v E Hd.
  apply app_eq_app in E as (w & [[-> E]|[-> E]]).
  - destruct w as [|d w]; [cbn in E; by apply (Pt [] c v)|]. injection E as -> ->. by apply (Ps u d w).
  - apply (Pt w c v); [done|]. rewrite depth_from_app in Hd. destruct Hs as [H0 _]. by rewrite H0 in Hd.
Qed.

Lemma top_plain_paren s : balanced s → top_plain (c_lpar :: s ++ [c_rpar]).
Proof.
  intros Hs. split; [by apply balanced_paren|]. destruct Hs as [Hd Hp]. intros u c v E Hu ->.
  destruct u as [|d u]; [by injection E|]. injection E as <- E. change (depth_from 1 u = 0) in Hu.
  rewrite depth_from_shift in Hu. change (42 :: v) with ([42] ++ v) in E.
  apply app_eq_app in E as (w & [[Es E]|[Eu E]]).
  - pose proof (Hp u w Es). lia.
  - subst u. destruct w as [|d w]; [done|]. injection E as _ E. by destruct w.
Qed.

Lemma split_top_plain s : top_plain s → trim s = s → s ≠ [] → splitTopLevelMultiply s = [s].
Proof.
  intros [[Hd _] Hp] Ht Hne. unfold splitTopLevelMultiply. change (js " * ") with (32 :: js "* ").
  change s with (join (32 :: js "* ") [s]) at 1. rewrite split_parts; [|done|done|].
  - cbn [filterb]. by destruct s.
  - apply Forall_singleton. split; [done|]. split; [done|]. intros t u c v E Hu.
    destruct (starts_with _ _) eqn:Hs; [exfalso|done].
    apply starts_with_true in Hs as [w Hw]. change (32 :: js "* ") with [32; 42; 32] in Hw.
    destruct v as [|d v].
    + destruct t; cbn in Hw; [|discriminate]. discriminate.
    + injection Hw as -> -> _. apply (Hp (u ++ [32]) 42 v); [by rewrite E, <- app_assoc|done|done].
Qed.

(** ** A printed configuration *)

Lemma forallb_Forall {A} (p : A → bool) l : Forall (λ x, p x = true) l → forallb p l = true.
Proof. intros H. apply forallb_forall. intros x Hx%list_elem_of_In. rewrite Forall_forall in H. by apply H. Qed.

Lemma bound_flat c : bound_class c = true → flat c = true.
Proof.
  unfold bound_class, flat, no_paren, is_digit, c_lpar, c_rpar. intros H.
  rewrite !orb_true_iff, andb_true_iff, !Z.leb_le, !Z.eqb_eq in H.
  by rewrite !(proj2 (Z.eqb_neq c _)) by lia.
Qed.

Lemma condition_flat c : condition_ok c = true → forallb flat (condition_text c) = true.
Proof.
  intros (y & _ & _ & Hb & _)%condition_ok_spec. unfold condition_text. rewrite !forallb_app.
  assert (Hv : forallb flat (var_name (ci_var c)) = true) by by destruct (ci_var c).
  assert (Ho : forallb flat (op_name (ci_op c)) = true) by by destruct (ci_op c).
  rewrite Hv, Ho, (forallb_Forall _ (value_text (ci_value c))); [done|].
  eapply Forall_impl; [exact Hb|]. intros d. apply bound_flat.
Qed.

Lemma conditions_flat l : forallb condition_ok l = true → forallb flat (prefix_text l) = true.
Proof.
  intros H. destruct l as [|c l]; [done|]. unfold prefix_text. rewrite conditions_text, !forallb_app by done.
  cbn [forallb] in H. apply andb_true_iff in H as [Hc Hl]. rewrite condition_flat by done.
  assert (Hm : forallb flat (concat (map and_text l)) = true); [|by rewrite Hm].
  induction l as [|d l IH]; [done|]. cbn [forallb map concat] in *. apply andb_true_iff in Hl as [Hd Hl].
  rewrite forallb_app, IH by done. unfold and_text. by rewrite forallb_app, condition_flat.
Qed.

Lemma body_balanced tier : costs_ok tier → forallb no_paren (buildTierBodyExpr tier) = true.
Proof.
  intros H. apply forallb_Forall. revert H. apply body_over; [|apply (bool_decide_unpack _); by_eval].
  intros c Hc. by apply num_class_facts.
Qed.

(** The label brings no parenthesis into the expression. *)
Definition plain_label (t : VisualTier) : bool := forallb no_paren (t_label t).

Lemma item_plain t : regular t → plain_label t = true → top_plain (item_text (item_of t)).
Proof.
  intros Hr Hl. unfold item_text. apply top_plain_app; [by apply top_plain_flat, conditions_flat, (reg_conditions t Hr)|].
  cbn [i_label i_tier item_of]. unfold tier_call.
  change (js "tier(") with (js "tier" ++ [c_lpar]). change (js ")") with [c_rpar]. rewrite <- app_assoc.
  apply top_plain_app; [by apply top_plain_flat|].
  replace ([c_lpar] ++ quoted (t_label t) ++ js ", " ++ buildTierBodyExpr t ++ [c_rpar])
    with (c_lpar :: (quoted (t_label t) ++ js ", " ++ buildTierBodyExpr t) ++ [c_rpar])
    by (cbn [app]; by rewrite <- !app_assoc).
  apply top_plain_paren, balanced_no_paren. unfold quoted. rewrite !forallb_app. cbn [forallb].
  unfold plain_label in Hl. rewrite forallb_app, Hl, body_balanced by apply (reg_ok t Hr). done.
Qed.

Lemma item_snoc t : ∃ u, item_text (item_of t) = u ++ [c_rpar].
Proof. unfold item_text, tier_call. change (js ")") with [c_rpar]. eexists. by rewrite !app_assoc. Qed.

(** A fallback closes the list of tiers. *)
Definition has_fallback (cfg : list VisualTier) : bool :=
  match last cfg with Some t => negb (nonempty (t_conditions t)) | None => false end.

(** What a stored expression can be made from. *)
Definition storable (cfg : list VisualTier) : bool :=
  regular_config cfg && has_fallback cfg && forallb plain_label cfg.

Lemma printed_shape cfg :
  storable cfg = true →
  let s := generateExprFromVisualConfig (Some cfg) in
  top_plain s ∧ (∃ c u, s = c :: u ∧ is_ws c = false ∧ c ≠ c_lpar) ∧ (∃ u, s = u ++ [c_rpar]).
Proof.
  intros [[H Hf]%andb_true_iff Hp]%andb_true_iff s. destruct (regular_config_tiers cfg H) as [_ Hr].
  destruct (printed_config cfg H) as (t & l & tail & -> & _ & E & Hlone). fold s in E.
  assert (Htail : tail = []).
  { apply Hlone. destruct l; [right|by left]. unfold has_fallback in Hf. cbn in Hf. by destruct (t_conditions t). }
  rewrite Htail, app_nil_r in E. rewrite E. cbn [forallb] in Hp. apply andb_true_iff in Hp as [Hpt Hpl].
  apply Forall_cons in Hr as [Ht Hl]. clear Htail Hlone H Hf s E. split; [|split].
  - apply top_plain_app; [by apply item_plain|]. unfold chain.
    induction l as [|t' l IH]; [by apply top_plain_flat|]. cbn [map concat forallb] in *.
    apply andb_true_iff in Hpl as [Hp' Hpl]. apply Forall_cons in Hl as [Ht' Hl].
    rewrite <- app_assoc. apply top_plain_app; [by apply top_plain_flat|].
    apply top_plain_app; [by apply item_plain|by apply IH].
  - destruct (t_conditions t) as [|c0 cs0] eqn:Ec.
    + rewrite item_text_none by done. unfold tier_call. change (js "tier(") with (116 :: js "ier("). by eexists 116, _.
    + rewrite item_text_some by (done || by rewrite Ec). pose proof (reg_conditions t Ht) as Hc. rewrite Ec in Hc |- *.
      rewrite conditions_text by done. rewrite <- !app_assoc, condition_text_split.
      destruct (ci_var c0); [change (js "p") with [112]|change (js "c") with [99]|change (js "len") with [108; 101; 110]];
        cbn [app var_name]; [exists 112|exists 99|exists 108]; eexists; by split.
  - clear. unfold chain. destruct (exists_last (l := t :: l) ltac:(done)) as (front & z & E).
    destruct (item_snoc z) as [u Hu]. destruct front as [|t0 front]; injection E as -> ->.
    + exists u. by rewrite Hu, app_nil_r.
    + rewrite !map_app, concat_app. cbn [map concat]. rewrite Hu. eexists. by rewrite app_nil_r, !app_assoc.
Qed.

(** ** No rule factor *)

Lemma rmatch_consumes {R} r (k : mstate → option R) st x :
  re_over any_char r → rmatch r k st = Some x → ∃ u st', m_rest st = u ++ m_rest st' ∧ k st' = Some x.
Proof.
  intros Hr Hm. destruct (rmatch_over any_char r Hr k st x Hm) as (st' & (u & Hu & _) & Hk). by exists u, st'.
Qed.

Lemma rule_factor_end s cs : match_caps RULE_FACTOR_RE s = Some cs → ∃ u, s = u ++ js " : 1)".
Proof.
  unfold RULE_FACTOR_RE. rewrite match_caps_bol.
  set (r := lit "(" ⋅ RGroup 1 (rplus any_char) ⋅ lit " ? " ⋅ RGroup 2 (rplus num_class)).
  change (lit "(" ⋅ RGroup 1 (rplus any_char) ⋅ lit " ? " ⋅ RGroup 2 (rplus num_class) ⋅ lit " : 1)" ⋅ REol) with
    (lit "(" ⋅ RGroup 1 (rplus any_char) ⋅ lit " ? " ⋅ RGroup 2 (rplus num_class) ⋅ (lit " : 1)" ⋅ REol)).
  destruct (rmatch _ _ _) as [st|] eqn:E; [|done]. intros _.
  assert (E' : rmatch r (rmatch (lit " : 1)" ⋅ REol) Some) (MState [] s []) = Some st) by exact E. clear E.
  apply rmatch_consumes in E' as (u & st' & Hs & Hk); [|by repeat split].
  destruct st' as [pre rest cs']. rewrite rmatch_seq, rmatch_lit in Hk. cbn [m_rest] in Hs.
  destruct (strip_prefix (js " : 1)") rest) as [t|] eqn:Et; [|done]. apply strip_prefix_Some in Et as ->.
  cbn [rmatch m_rest] in Hk. destruct t; [|done]. exists u. by rewrite app_nil_r in Hs.
Qed.

(** The expression in parentheses, as it is combined, is no rule. *)
Lemma wrapped_no_rule s :
  balanced s → (∃ u, s = u ++ [c_rpar]) → tryParseRequestRuleExpr (js "(" ++ s ++ js ")") = Ret None.
Proof.
  intros Hb (u & Hu). change (js "(" ++ s ++ js ")") with (c_lpar :: s ++ [c_rpar]).
  assert (Ht : trim (c_lpar :: s ++ [c_rpar]) = c_lpar :: s ++ [c_rpar]).
  { apply trim_no_edge. by apply no_edge_ws_app_between. }
  unfold tryParseRequestRuleExpr. rewrite Ht. cbn [nonempty].
  rewrite split_top_plain by (done || by apply top_plain_paren). cbn [traverse_o].
  unfold tryParseRuleGroupFactor. destruct (match_caps _ _) as [cs|] eqn:E; [exfalso|done].
  apply rule_factor_end in E as (v & E). change (js " : 1)") with ([32; 58; 32] ++ [49] ++ [c_rpar]) in E.
  rewrite Hu in E. change (c_lpar :: (u ++ [c_rpar]) ++ [c_rpar]) with ((c_lpar :: u ++ [c_rpar]) ++ [c_rpar]) in E.
  rewrite !app_assoc in E. apply app_inj_tail in E as [E _].
  change (c_lpar :: u ++ [c_rpar]) with ((c_lpar :: u) ++ [c_rpar]) in E. apply app_inj_tail in E as [_ E]. done.
Qed.

Lemma not_wrapped c s : c ≠ c_lpar → trim (c :: s) = c :: s → unwrapOuterParens (c :: s) = c :: s.
Proof.
  intros Hc Ht. unfold unwrapOuterParens. rewrite Ht. cbn [length unwrap_loop].
  assert (hasFullOuterParens (c :: s) = false) as ->; [|done]. unfold hasFullOuterParens.
  assert (starts_with (js "(") (c :: s) = false) as ->; [|done].
  destruct (starts_with _ _) eqn:E; [|done]. apply starts_with_true in E as [w Hw].
  change (js "(") with [c_lpar] in Hw. by injection Hw as ->.
Qed.

(** Storing a printed configuration with its rules, and splitting it again. *)
Lemma split_store cfg gs :
  storable cfg = true → forallb canonical_group gs = true →
  splitBillingExprAndRequestRules (combineBillingExpr (generateExprFromVisualConfig (Some cfg)) (buildRequestRuleExpr gs))
  = Ret {| billingExpr := generateExprFromVisualConfig (Some cfg); requestRuleExpr := buildRequestRuleExpr gs |}.
Proof.
  intros Hs Hg. destruct (printed_shape cfg Hs) as (Hp & (c & u & Eh & Hws & Hc) & He).
  set (s := generateExprFromVisualConfig _) in *.
  assert (Ht : trim s = s).
  { apply trim_no_edge. destruct He as (v & Ev). split; intros b.
    - rewrite Eh. cbn [head]. by intros [= <-].
    - rewrite Ev, last_snoc. by intros [= <-]. }
  assert (Hne : s ≠ []) by by rewrite Eh.
  destruct gs as [|g gs].
  - pose proof (proj2 (nonempty_true s) Hne) as Hn.
    assert (combineBillingExpr s (buildRequestRuleExpr []) = s) as ->.
    { unfold combineBillingExpr. rewrite Ht, Hn. done. }
    unfold splitBillingExprAndRequestRules. rewrite Ht, Hn, split_top_plain by done. done.
  - rewrite split_combined; [|done|done|apply Hp|by apply wrapped_no_rule; [apply Hp|]|done|done].
    do 2 f_equal. rewrite Eh in Ht |- *. by apply not_wrapped.
Qed.
