(* ===== verification/TieredEditor.v ===== *)
(** * The tiered pricing editor

    Model of [web/default/src/features/system-settings/models/
    tiered-pricing-editor.tsx]: the number inputs, the handlers of the tier
    cards and of the rule groups, and the editor itself, which keeps the
    visual tiers, the rule groups and the raw text apart and brings them and
    the expressions of its parent into agreement by effects. A flush runs
    the effects of one render: they see the values of that render, and what
    they set is seen by the next one. *)

From Stdlib Require Import String.
From S2P Require Import JsMap JsJson BillingExpr TierExpr.

(** ** Number inputs *)

Definition formatNumberDraft (value : cond_value) : jstr :=
  match value with
  | TextValue s => s
  | NumValue x => if is_finite x then string_of_number x else js "0"
  end.

Definition parseNumberDraft (value : jstr) : jsnum :=
  match trim value with
  | [] => num_of_Z 0
  | _ => let next := number_of_string value in if is_finite next then next else num_of_Z 0
  end.

Definition isZeroDraft (value : jstr) : bool :=
  nonempty (trim value) && num_eq (parseNumberDraft value) (num_of_Z 0).

(** [DraftNumberInput]: each handler gives its next state and the number it
    reports. *)
Record DraftNumberInput := { di_draft : jstr; di_focused : bool }.

Definition draft_init (value : cond_value) : DraftNumberInput :=
  {| di_draft := formatNumberDraft value; di_focused := false |}.

(** The effect on [focused] and [value]. *)
Definition draft_sync (value : cond_value) (d : DraftNumberInput) : DraftNumberInput :=
  if di_focused d then d else {| di_draft := formatNumberDraft value; di_focused := false |}.

Definition draft_change (nextDraft : jstr) (d : DraftNumberInput) : DraftNumberInput * jsnum :=
  ({| di_draft := nextDraft; di_focused := di_focused d |}, parseNumberDraft nextDraft).

Definition draft_focus (d : DraftNumberInput) : DraftNumberInput :=
  {| di_draft := di_draft d; di_focused := true |}.

Definition draft_blur (d : DraftNumberInput) : DraftNumberInput * jsnum :=
  let normalized := parseNumberDraft (di_draft d) in
  ({| di_draft := string_of_number normalized; di_focused := false |}, normalized).

(** [unitCostToPrice] and [priceToUnitCost] *)
Definition priceToUnitCost (price : jsnum) : jsnum := or_zero (Some price).

(** ** A tier card: each handler gives the tier it hands on *)

Definition with_conditions (tier : VisualTier) (conditions : list TierConditionInput) : VisualTier :=
  {| t_label := t_label tier; t_conditions := conditions; t_input := t_input tier; t_output := t_output tier;
     t_cache_mode := t_cache_mode tier; t_costs := t_costs tier |}.

(** [l.filter((_, i) => i !== index)] *)
Definition without {A} (index : nat) (l : list A) : list A := take index l ++ drop (S index) l.

(** The index is the place of a condition that is shown. *)
Definition handleConditionChange (tier : VisualTier) (index : nat) (next : TierConditionInput) : VisualTier :=
  with_conditions tier (<[index := next]> (t_conditions tier)).

Definition handleConditionRemove (tier : VisualTier) (index : nat) : VisualTier :=
  with_conditions tier (without index (t_conditions tier)).

Definition handleLabelChange (tier : VisualTier) (label : jstr) : VisualTier :=
  {| t_label := label; t_conditions := t_conditions tier; t_input := t_input tier; t_output := t_output tier;
     t_cache_mode := t_cache_mode tier; t_costs := t_costs tier |}.

Definition with_costs (tier : VisualTier) (mode : CacheMode) (costs : list (jstr * jsnum)) : VisualTier :=
  {| t_label := t_label tier; t_conditions := t_conditions tier; t_input := t_input tier; t_output := t_output tier;
     t_cache_mode := mode; t_costs := costs |}.

(** The price fields of a tier. *)
Inductive PriceFieldName := InputCost | OutputCost | ExtraCost (field : jstr).

Definition handlePriceChange (tier : VisualTier) (field : PriceFieldName) (value : jsnum) : VisualTier :=
  match field with
  | InputCost =>
      {| t_label := t_label tier; t_conditions := t_conditions tier; t_input := value; t_output := t_output tier;
         t_cache_mode := t_cache_mode tier; t_costs := t_costs tier |}
  | OutputCost =>
      {| t_label := t_label tier; t_conditions := t_conditions tier; t_input := t_input tier; t_output := value;
         t_cache_mode := t_cache_mode tier; t_costs := t_costs tier |}
  | ExtraCost f => with_costs tier (t_cache_mode tier) (map_set (t_costs tier) f value)
  end.

Definition CACHE_1H : jstr := js "cache_create_1h_unit_cost".

Definition handleCacheModeChange (tier : VisualTier) (mode : CacheMode) : VisualTier :=
  with_costs tier mode
    (map_set (t_costs tier) CACHE_1H
       (match mode with
        | CACHE_MODE_TIMED => default (num_of_Z 0) (map_get (t_costs tier) CACHE_1H)
        | CACHE_MODE_GENERIC => num_of_Z 0
        end)).

(** ** The list of tiers: each handler gives the configuration it hands on *)

Definition handleTierChange (tiers : list VisualTier) (index : nat) (next : VisualTier) : list VisualTier :=
  <[index := normalizeVisualTier (as_partial next)]> tiers.

Definition bound_200000 (v : TierVar) : TierConditionInput :=
  {| ci_var := v; ci_op := Op_lt; ci_value := NumValue (num_of_Z 200000) |}.

Definition new_tier (n : Z) : VisualTier :=
  normalizeVisualTier
    {| p_label := Some (js "tier_" ++ string_of_Z n); p_conditions := Some []; p_input := Some (num_of_Z 0);
       p_output := Some (num_of_Z 0); p_cache_mode := None; p_costs := [] |}.

(** A catch-all that is no longer last gets an upper bound. *)
Definition bound_last (tiers : list VisualTier) : list VisualTier :=
  match last tiers with
  | Some t =>
      match t_conditions t with
      | [] => <[(length tiers - 1)%nat :=
                 normalizeVisualTier (as_partial (with_conditions t [bound_200000 Var_len]))]> tiers
      | _ => tiers
      end
  | None => tiers
  end.

Definition handleAddTier (tiers : list VisualTier) : list VisualTier :=
  bound_last tiers ++ [new_tier (Z.of_nat (length tiers) + 1)].

Definition handleRemoveTier (tiers : list VisualTier) (index : nat) : list VisualTier :=
  match without index tiers with [] => tiers | l => l end.

(** [None] where the handler returns early. *)
Definition handleAddCondition (tiers : list VisualTier) (index : nat) : option (list VisualTier) :=
  tier ← tiers !! index;
  if (2 <=? length (t_conditions tier))%nat then None
  else
    let nextVar := if existsb (λ c, bool_decide (ci_var c = Var_len)) (t_conditions tier) then Var_c else Var_len in
    Some (<[index := with_conditions tier (t_conditions tier ++ [bound_200000 nextVar])]> tiers).

(** ** Rule groups: each handler gives the value it hands on *)

Inductive SourceChoice := ChooseTime | ChoosePH (source : PHSource).

Definition handleSourceChange (source : SourceChoice) : RequestCondition :=
  match source with
  | ChooseTime => TimeCond createEmptyTimeCondition
  | ChoosePH s =>
      PHCond {| ph_source := s; ph_path := ph_path createEmptyCondition; ph_mode := ph_mode createEmptyCondition;
                ph_value := ph_value createEmptyCondition |}
  end.

(** [{ ...condition, mode }] *)
Definition handleMatchModeChange (condition : RequestCondition) (mode : jstr) : RequestCondition :=
  match condition with
  | TimeCond c =>
      TimeCond {| tc_timeFunc := tc_timeFunc c; tc_timezone := tc_timezone c; tc_mode := mode; tc_value := tc_value c;
                  tc_rangeStart := tc_rangeStart c; tc_rangeEnd := tc_rangeEnd c |}
  | PHCond c =>
      PHCond {| ph_source := ph_source c; ph_path := ph_path c; ph_mode := mode; ph_value := ph_value c |}
  end.

Definition group_condition_change (group : RequestRuleGroup) (index : nat) (next : RequestCondition) : RequestRuleGroup :=
  {| rg_conditions := <[index := next]> (rg_conditions group); rg_multiplier := rg_multiplier group |}.

Definition group_condition_add (group : RequestRuleGroup) (timeMode : bool) : RequestRuleGroup :=
  {| rg_conditions := rg_conditions group
       ++ [if timeMode then TimeCond createEmptyTimeCondition else PHCond createEmptyCondition];
     rg_multiplier := rg_multiplier group |}.

Definition group_condition_remove (group : RequestRuleGroup) (index : nat) : RequestRuleGroup :=
  {| rg_conditions := without index (rg_conditions group); rg_multiplier := rg_multiplier group |}.

Definition group_multiplier_change (group : RequestRuleGroup) (value : jsnum) : RequestRuleGroup :=
  {| rg_conditions := rg_conditions group; rg_multiplier := string_of_number value |}.

Definition rule_group_change (groups : list RequestRuleGroup) (index : nat) (next : RequestRuleGroup) : list RequestRuleGroup :=
  <[index := next]> groups.

Definition rule_group_remove (groups : list RequestRuleGroup) (index : nat) : list RequestRuleGroup := without index groups.

Definition rule_group_add (groups : list RequestRuleGroup) : list RequestRuleGroup := groups ++ [createEmptyRuleGroup].

(** ** The presets *)

Record Preset := { pr_key : jstr; pr_label : jstr; pr_expr : jstr; pr_requestRules : list RequestRuleGroup }.

Definition preset (key label expr : string) (rules : list RequestRuleGroup) : Preset :=
  {| pr_key := js key; pr_label := js label; pr_expr := unq expr; pr_requestRules := rules |}.

Definition preset_ph (src : PHSource) (path mode value multiplier : string) : RequestRuleGroup :=
  {| rg_conditions := [ph src (js path) (js mode) (js value)]; rg_multiplier := js multiplier |}.

Definition preset_time (f : TimeFunc) (mode value rangeStart rangeEnd multiplier : string) : RequestRuleGroup :=
  {| rg_conditions := [TimeCond {| tc_timeFunc := f; tc_timezone := js "Asia/Shanghai"; tc_mode := js mode;
       tc_value := js value; tc_rangeStart := js rangeStart; tc_rangeEnd := js rangeEnd |}];
     rg_multiplier := js multiplier |}.

Definition PRESET_GROUPS : list (jstr * list Preset) :=
  [(js "Fixed price",
    [preset "flat" "Flat" "tier('base', p * 2 + c * 4)" [];
     preset "claude-opus" "Claude Opus 4.6" "tier('base', p * 5 + c * 25 + cr * 0.5 + cc * 6.25 + cc1h * 10)" [];
     preset "gpt-5.4" "GPT-5.4"
       "len <= 272000 ? tier('standard', p * 2.5 + c * 15 + cr * 0.25) : tier('long_context', p * 5 + c * 22.5 + cr * 0.5)" []]);
   (js "Tiered",
    [preset "claude-sonnet" "Claude Sonnet 4.5"
       "len <= 200000 ? tier('standard', p * 3 + c * 15 + cr * 0.3 + cc * 3.75 + cc1h * 6) : tier('long_context', p * 6 + c * 22.5 + cr * 0.6 + cc * 7.5 + cc1h * 12)" [];
     preset "qwen3-max" "Qwen3 Max"
       "len <= 32000 ? tier('short', p * 1.2 + c * 6 + cr * 0.24 + cc * 1.5) : len <= 128000 ? tier('mid', p * 2.4 + c * 12 + cr * 0.48 + cc * 3) : tier('long', p * 3 + c * 15 + cr * 0.6 + cc * 3.75)" [];
     preset "glm-4.5-air" "GLM-4.5 Air"
       "len < 32000 && c < 200 ? tier('short_output', p * 0.8 + c * 2 + cr * 0.16) : len < 32000 && c >= 200 ? tier('long_output', p * 0.8 + c * 6 + cr * 0.16) : tier('mid_context', p * 1.2 + c * 8 + cr * 0.24)" [];
     preset "doubao-seed-1.8" "Doubao Seed 1.8"
       "len <= 32000 && c <= 200 ? tier('discount', p * 0.8 + c * 2 + cr * 0.16 + cc * 0.17) : len <= 32000 ? tier('short', p * 0.8 + c * 8 + cr * 0.16 + cc * 0.17) : len <= 128000 ? tier('mid', p * 1.2 + c * 16 + cr * 0.16 + cc * 0.17) : tier('long', p * 2.4 + c * 24 + cr * 0.16 + cc * 0.17)" []]);
   (js "Multimodal",
    [preset "gpt-image-1-mini" "GPT Image 1 Mini" "tier('base', p * 2 + c * 8 + img * 2.5)" [];
     preset "gemini-2.5-flash" "Gemini 2.5 Flash" "tier('base', p * 0.3 + c * 2.5 + cr * 0.03 + ai * 1.0)" [];
     preset "gemini-3-pro-image" "Gemini 3 Pro Image" "tier('base', p * 2 + c * 12 + img_o * 120)" [];
     preset "qwen3-omni-flash" "Qwen3 Omni Flash" "tier('base', p * 0.43 + c * 3.06 + img * 0.78 + ai * 3.81 + ao * 15.11)" []]);
   (js "Request rule",
    [preset "claude-opus-fast" "Claude Opus 4.6 Fast" "tier('base', p * 5 + c * 25 + cr * 0.5 + cc * 6.25 + cc1h * 10)"
       [preset_ph SOURCE_HEADER "anthropic-beta" "contains" "fast-mode-2026-02-01" "6"];
     preset "gpt-5.4-tiers" "GPT-5.4 Priority/Flex"
       "len <= 272000 ? tier('standard', p * 2.5 + c * 15 + cr * 0.25) : tier('long_context', p * 5 + c * 22.5 + cr * 0.5)"
       [preset_ph SOURCE_PARAM "service_tier" "eq" "priority" "2"; preset_ph SOURCE_PARAM "service_tier" "eq" "flex" "0.5"]]);
   (js "Time-based",
    [preset "night-discount" "Night discount (50%)" "tier('base', p * 3 + c * 15)"
       [preset_time TF_hour "range" "" "21" "6" "0.5"];
     preset "weekend-discount" "Weekend discount (80%)" "tier('base', p * 3 + c * 15)"
       [preset_time TF_weekday "eq" "0" "" "" "0.8"; preset_time TF_weekday "eq" "6" "" "" "0.8"]])].

(** ** The editor *)

Inductive EditorMode := VisualMode | RawMode.

#[export] Instance EditorMode_eq_dec : EqDecision EditorMode.
Proof. solve_decision. Defined.
#[export] Instance cond_value_eq_dec : EqDecision cond_value.
Proof. solve_decision. Defined.
#[export] Instance TierConditionInput_eq_dec : EqDecision TierConditionInput.
Proof. solve_decision. Defined.
#[export] Instance VisualTier_eq_dec : EqDecision VisualTier.
Proof. solve_decision. Defined.

(** The properties it is given, its states, and its ref; then the values the
    two effects with a memory last ran with. *)
Record TieredPricingEditor := {
  te_modelName : jstr;
  te_billing : jstr;         (* [billingExpr], a state of the parent *)
  te_rules : jstr;           (* [requestRuleExpr], a state of the parent *)
  te_mode : EditorMode;
  te_visual : option (list VisualTier);
  te_raw : jstr;
  te_groups : list RequestRuleGroup;
  te_init : bool;            (* [initRef.current] *)
  te_seen : option (jstr * jstr);
  te_seenName : option jstr;
}.

#[export] Instance TieredPricingEditor_eq_dec : EqDecision TieredPricingEditor.
Proof. solve_decision. Defined.

Definition set_props (billing rules : jstr) (ed : TieredPricingEditor) : TieredPricingEditor :=
  {| te_modelName := te_modelName ed; te_billing := billing; te_rules := rules; te_mode := te_mode ed;
     te_visual := te_visual ed; te_raw := te_raw ed; te_groups := te_groups ed; te_init := te_init ed;
     te_seen := te_seen ed; te_seenName := te_seenName ed |}.

Definition set_state (mode : EditorMode) (visual : option (list VisualTier)) (raw : jstr) (groups : list RequestRuleGroup)
    (ed : TieredPricingEditor) : TieredPricingEditor :=
  {| te_modelName := te_modelName ed; te_billing := te_billing ed; te_rules := te_rules ed; te_mode := mode;
     te_visual := visual; te_raw := raw; te_groups := groups; te_init := te_init ed;
     te_seen := te_seen ed; te_seenName := te_seenName ed |}.

Definition set_init (init : bool) (ed : TieredPricingEditor) : TieredPricingEditor :=
  {| te_modelName := te_modelName ed; te_billing := te_billing ed; te_rules := te_rules ed; te_mode := te_mode ed;
     te_visual := te_visual ed; te_raw := te_raw ed; te_groups := te_groups ed; te_init := init;
     te_seen := te_seen ed; te_seenName := te_seenName ed |}.

Definition set_seen (billing rules modelName : jstr) (ed : TieredPricingEditor) : TieredPricingEditor :=
  {| te_modelName := te_modelName ed; te_billing := te_billing ed; te_rules := te_rules ed; te_mode := te_mode ed;
     te_visual := te_visual ed; te_raw := te_raw ed; te_groups := te_groups ed; te_init := te_init ed;
     te_seen := Some (billing, rules); te_seenName := Some modelName |}.

(** [tryParseRequestRuleExpr(expr) || []] *)
Definition groups_or_none (expr : jstr) : outcome (list RequestRuleGroup) :=
  default [] <$> tryParseRequestRuleExpr expr.

(** The states at the first render. *)
Definition mount (modelName billing rules : jstr) : outcome TieredPricingEditor :=
  groups ← groups_or_none rules;
  Ret {| te_modelName := modelName; te_billing := billing; te_rules := rules; te_mode := VisualMode;
         te_visual := tryParseVisualConfig billing; te_raw := combineBillingExpr billing rules; te_groups := groups;
         te_init := false; te_seen := None; te_seenName := None |}.

(** *** Values of a render *)

Definition canUseVisualRules (ed : TieredPricingEditor) : outcome bool :=
  match te_rules ed with
  | [] => Ret true
  | _ => parsed ← tryParseRequestRuleExpr (te_rules ed); Ret (match parsed with Some _ => true | None => false end)
  end.

Definition effectiveExpr (ed : TieredPricingEditor) : outcome jstr :=
  match te_mode ed with
  | VisualMode => Ret (generateExprFromVisualConfig (te_visual ed))
  | RawMode => billingExpr <$> splitBillingExprAndRequestRules (te_raw ed)
  end.

(** *** Effects *)

(** On the expressions of the parent, guarded by the ref. *)
Definition initialise (ed : TieredPricingEditor) : outcome TieredPricingEditor :=
  if te_init ed then Ret ed
  else
    groups ← groups_or_none (te_rules ed);
    let raw := combineBillingExpr (te_billing ed) (te_rules ed) in
    Ret (set_init true
      (match tryParseVisualConfig (te_billing ed) with
       | Some parsedConfig => set_state VisualMode (Some parsedConfig) raw groups ed
       | None =>
           match te_billing ed with
           | [] => set_state (te_mode ed) (Some createDefaultVisualConfig) raw groups ed
           | _ => set_state RawMode None raw groups ed
           end
       end)).

(** The effects of one render, in their order. The last two act on the
    values of the render; where their dependencies did not change, their
    guards do not hold either. *)
Definition flush (ed : TieredPricingEditor) : outcome TieredPricingEditor :=
  _ ← canUseVisualRules ed;
  effective ← effectiveExpr ed;
  ed1 ← (if decide (te_seen ed = Some (te_billing ed, te_rules ed)) then Ret ed else initialise ed);
  let ed2 := if decide (te_seenName ed = Some (te_modelName ed)) then ed1 else set_init false ed1 in
  let billing := if decide (effective = te_billing ed) then te_billing ed else effective in
  let ruleExpr := buildRequestRuleExpr (te_groups ed) in
  let rules := match te_mode ed with
               | VisualMode => if decide (ruleExpr = te_rules ed) then te_rules ed else ruleExpr
               | RawMode => te_rules ed
               end in
  Ret (set_props billing rules (set_seen (te_billing ed) (te_rules ed) (te_modelName ed) ed2)).

(** Renders follow each other until one sets nothing. *)
Fixpoint flushes (n : nat) (ed : TieredPricingEditor) : outcome TieredPricingEditor :=
  match n with O => Ret ed | S m => ed' ← flush ed; flushes m ed' end.

Definition settled (ed : TieredPricingEditor) : Prop := flush ed = Ret ed.

(** *** Events *)

Definition handleVisualChange (next : list VisualTier) (ed : TieredPricingEditor) : TieredPricingEditor :=
  set_state (te_mode ed) (Some next) (te_raw ed) (te_groups ed) ed.

Definition handleRawChange (value : jstr) (ed : TieredPricingEditor) : outcome TieredPricingEditor :=
  split ← splitBillingExprAndRequestRules value;
  Ret (set_props (te_billing ed) (requestRuleExpr split)
         (set_state (te_mode ed) (te_visual ed) value (te_groups ed) ed)).

Definition handleModeChange (next : EditorMode) (ed : TieredPricingEditor) : outcome TieredPricingEditor :=
  match next with
  | VisualMode =>
      split ← splitBillingExprAndRequestRules (te_raw ed);
      let visual := match tryParseVisualConfig (billingExpr split) with
                    | Some parsed => parsed
                    | None => createDefaultVisualConfig
                    end in
      groups ← groups_or_none (requestRuleExpr split);
      Ret (set_props (te_billing ed) (requestRuleExpr split) (set_state VisualMode (Some visual) (te_raw ed) groups ed))
  | RawMode =>
      let expr := generateExprFromVisualConfig (te_visual ed) in
      let raw := match combineBillingExpr expr (buildRequestRuleExpr (te_groups ed)) with [] => expr | r => r end in
      Ret (set_state RawMode (te_visual ed) raw (te_groups ed) ed)
  end.

Definition applyPreset (p : Preset) (ed : TieredPricingEditor) : TieredPricingEditor :=
  let ruleExpr := buildRequestRuleExpr (pr_requestRules p) in
  let combined := match combineBillingExpr (pr_expr p) ruleExpr with [] => pr_expr p | r => r end in
  let '(mode, visual) := match tryParseVisualConfig (pr_expr p) with
                         | Some parsed => (VisualMode, Some parsed)
                         | None => (RawMode, None)
                         end in
  set_props (te_billing ed) ruleExpr (set_state mode visual combined (pr_requestRules p) ed).

Definition handleRuleGroupsChange (next : list RequestRuleGroup) (ed : TieredPricingEditor) : TieredPricingEditor :=
  set_state (te_mode ed) (te_visual ed) (te_raw ed) next ed.

(** *** Loading and saving a model's expression *)

(** A row of the table, from the stored map, and what a save stores. *)
Definition open_expression (modelName fullExpr : jstr) : outcome TieredPricingEditor :=
  split ← splitBillingExprAndRequestRules fullExpr;
  mount modelName (billingExpr split) (requestRuleExpr split).

Definition saved_expression (ed : TieredPricingEditor) : jstr := combineBillingExpr (te_billing ed) (te_rules ed).

(** ** Evaluations *)

Definition run (n : nat) (o : outcome TieredPricingEditor) : option (jstr * jstr * EditorMode) :=
  match o ≫= flushes n with Ret ed => Some (te_billing ed, te_rules ed, te_mode ed) | Throw => None end.

Example open_saved :
  run 1 (mount (js "m") (unq "tier('base', p * 2 + c * 4)") (unq "(param('x') == 'y' ? 2 : 1)"))
  = Some (unq "tier('base', p * 2 + c * 4)", unq "(param('x') == 'y' ? 2 : 1)", VisualMode).
Proof. by_eval. Qed.

Example open_raw : run 4 (mount (js "m") (js "p * 2 + c * 4") []) = Some (js "p * 0 + c * 0", [], RawMode).
Proof. by_eval. Qed.

Example open_unreadable_rules :
  run 2 (mount (js "m") (unq "tier('base', p * 2 + c * 4)") (unq "(param('x') == 'y' ? max(1, 2) : 1)"))
  = Some (unq "tier('base', p * 2 + c * 4)", [], VisualMode).
Proof. by_eval. Qed.
