(* ===== verification/TieredEditorProps.v ===== *)
(** * The tiered pricing editor: opening, settling and saving

    Which effects run on an opened price, and the invariant of the tier cards. *)

From Stdlib Require Import String.
From S2P Require Import JsExec JsMap JsJson BillingExpr BillingExprFacts BillingExprProps TierExpr TierExprFacts TierExprProps.
From S2P Require Import TierDisplayProps TieredEditor.

#[local] Opaque js string_of_number number_of_string.
#[local] Opaque tryParseVisualConfig generateExprFromVisualConfig tryParseRequestRuleExpr buildRequestRuleExpr
  splitBillingExprAndRequestRules combineBillingExpr.

(** ** One flush *)

Definition name_seen (ed : TieredPricingEditor) : Prop := te_seenName ed = Some (te_modelName ed).
Definition props_seen (ed : TieredPricingEditor) : Prop := te_seen ed = Some (te_billing ed, te_rules ed).

Lemma rest_eq ed :
  props_seen ed → name_seen ed →
  set_props (te_billing ed) (te_rules ed) (set_seen (te_billing ed) (te_rules ed) (te_modelName ed) ed) = ed.
Proof. unfold props_seen, name_seen. destruct ed. cbn. by intros -> ->. Qed.

(** The tiers and groups the expressions of the parent are read as. *)
Definition initialised (ed : TieredPricingEditor) (groups : list RequestRuleGroup) : TieredPricingEditor :=
  let raw := combineBillingExpr (te_billing ed) (te_rules ed) in
  set_init true
    (match tryParseVisualConfig (te_billing ed) with
     | Some parsed => set_state VisualMode (Some parsed) raw groups ed
     | None =>
         match te_billing ed with
         | [] => set_state (te_mode ed) (Some createDefaultVisualConfig) raw groups ed
         | _ => set_state RawMode None raw groups ed
         end
     end).

Lemma initialise_spec ed ed1 :
  initialise ed = Ret ed1 → (te_init ed = true ∧ ed1 = ed) ∨
  (te_init ed = false ∧ ∃ groups, groups_or_none (te_rules ed) = Ret groups ∧ ed1 = initialised ed groups).
Proof.
  unfold initialise. destruct (te_init ed); [intros H; left; split; [done|]; symmetry; by apply Ret_inj|].
  destruct (groups_or_none _) as [groups|]; [|done]. intros H%Ret_inj. right. split; [done|]. by exists groups.
Qed.

Lemma initialise_ret ed gs :
  te_init ed = false → groups_or_none (te_rules ed) = Ret gs → initialise ed = Ret (initialised ed gs).
Proof. intros Hi Hg. unfold initialise. by rewrite Hi, Hg. Qed.

Lemma initialised_unread ed gs :
  te_billing ed ≠ [] → tryParseVisualConfig (te_billing ed) = None →
  initialised ed gs = set_init true (set_state RawMode None (combineBillingExpr (te_billing ed) (te_rules ed)) gs ed).
Proof. intros Hb Hx. unfold initialised. rewrite Hx. by destruct (te_billing ed). Qed.

(** What a flush leaves in the expressions of the parent. *)
Definition rules_out (ed : TieredPricingEditor) : jstr :=
  match te_mode ed with VisualMode => buildRequestRuleExpr (te_groups ed) | RawMode => te_rules ed end.

Lemma flush_spec ed ed' :
  flush ed = Ret ed' ↔
  ∃ b effective ed1,
    canUseVisualRules ed = Ret b ∧ effectiveExpr ed = Ret effective
    ∧ (if decide (te_seen ed = Some (te_billing ed, te_rules ed)) then ed1 = ed else initialise ed = Ret ed1)
    ∧ ed' = set_props effective (rules_out ed) (set_seen (te_billing ed) (te_rules ed) (te_modelName ed)
        (if decide (te_seenName ed = Some (te_modelName ed)) then ed1 else set_init false ed1)).
Proof.
  unfold flush, rules_out.
  assert (Hb : ∀ e, (if decide (e = te_billing ed) then te_billing ed else e) = e) by (intros e; by case_decide).
  assert (Hr : match te_mode ed with
    | VisualMode => if decide (buildRequestRuleExpr (te_groups ed) = te_rules ed) then te_rules ed
                    else buildRequestRuleExpr (te_groups ed)
    | RawMode => te_rules ed end = rules_out ed).
  { unfold rules_out. destruct (te_mode ed); [|done]. by case_decide. }
  rewrite Hr. unfold rules_out. destruct (canUseVisualRules ed) as [b|]; cbn [mbind outcome_bind]; [|naive_solver].
  destruct (effectiveExpr ed) as [e|]; cbn [mbind outcome_bind]; [|naive_solver]. rewrite Hb.
  destruct (decide (te_seen ed = _)) as [Hseen|Hseen].
  - cbn [mbind outcome_bind]. split; [|naive_solver]. intros H%Ret_inj. by exists b, e, ed.
  - destruct (initialise ed) as [ed1|]; cbn [mbind outcome_bind]; [|naive_solver].
    split; [|naive_solver]. intros H%Ret_inj. by exists b, e, ed1.
Qed.

(** ** Opening what was saved *)

Lemma groups_or_none_read gs :
  forallb canonical_group gs = true → groups_or_none (buildRequestRuleExpr gs) = Ret gs.
Proof.
  intros (fs & -> & Hall)%build_groups. unfold groups_or_none. by rewrite (parse_product _ _ Hall).
Qed.

Lemma canUse_read gs ed :
  forallb canonical_group gs = true → te_rules ed = buildRequestRuleExpr gs → canUseVisualRules ed = Ret true.
Proof.
  intros (fs & E & Hall)%build_groups Hr. unfold canUseVisualRules. rewrite Hr, E, (parse_product _ _ Hall).
  by destruct (join _ _).
Qed.

(** The editor shows [cfg] and [gs], and its parent holds their expressions. *)
Definition shows (cfg : list VisualTier) (gs : list RequestRuleGroup) (ed : TieredPricingEditor) : Prop :=
  te_mode ed = VisualMode ∧ te_visual ed = Some (map reread cfg) ∧ te_groups ed = gs
  ∧ te_billing ed = generateExprFromVisualConfig (Some cfg) ∧ te_rules ed = buildRequestRuleExpr gs.

Lemma shows_flush cfg gs ed :
  regular_config cfg = true → forallb canonical_group gs = true → shows cfg gs ed →
  ∃ ed', flush ed = Ret ed' ∧ shows cfg gs ed'
    ∧ te_seen ed' = Some (te_billing ed', te_rules ed') ∧ te_seenName ed' = Some (te_modelName ed').
Proof.
  intros Hc Hg (Hm & Hv & Hgs & Hb & Hr).
  assert (Heff : effectiveExpr ed = Ret (te_billing ed)).
  { unfold effectiveExpr. by rewrite Hm, Hv, generate_reread, Hb. }
  assert (Hout : rules_out ed = te_rules ed) by (unfold rules_out; by rewrite Hm, Hgs, Hr).
  set (ed1 := if decide (te_seen ed = Some (te_billing ed, te_rules ed)) then ed
              else if te_init ed then ed else initialised ed gs).
  assert (Hinit : if decide (te_seen ed = Some (te_billing ed, te_rules ed)) then ed1 = ed else initialise ed = Ret ed1).
  { unfold ed1. case_decide; [done|]. unfold initialise. destruct (te_init ed); [done|].
    by rewrite Hr, groups_or_none_read, <- Hr by done. }
  assert (H1 : shows cfg gs ed1 ∧ te_modelName ed1 = te_modelName ed).
  { unfold ed1. case_decide; [by split|]. destruct (te_init ed); [by split|]. unfold initialised.
    rewrite Hb, read_printed by done. by split. }
  eexists. split; [apply flush_spec; exists true, (te_billing ed), ed1; split; [by apply (canUse_read gs)|]; by split|].
  rewrite Hout. destruct H1 as [(Hm1 & Hv1 & Hg1 & Hb1 & Hr1) Hn1].
  clear Hinit. clearbody ed1. destruct (decide (te_seenName ed = _)); repeat split; cbn; try done; by rewrite Hn1.
Qed.

(** Once its effects ran with the values it has, such an editor is at rest. *)
Lemma shows_settled cfg gs ed :
  regular_config cfg = true → forallb canonical_group gs = true → shows cfg gs ed →
  te_seen ed = Some (te_billing ed, te_rules ed) → te_seenName ed = Some (te_modelName ed) → settled ed.
Proof.
  intros Hc Hg (Hm & Hv & Hgs & Hb & Hr) Hseen Hname. unfold settled. apply flush_spec.
  exists true, (te_billing ed), ed. split; [by apply (canUse_read gs)|].
  split; [unfold effectiveExpr; by rewrite Hm, Hv, generate_reread, Hb|].
  rewrite Hseen, Hname, !decide_True by done. split; [done|].
  assert (rules_out ed = te_rules ed) as -> by (unfold rules_out; by rewrite Hm, Hgs, Hr).
  symmetry. by apply rest_eq.
Qed.

Lemma open_shows name cfg gs :
  storable cfg = true → forallb canonical_group gs = true →
  ∃ ed, open_expression name (combineBillingExpr (generateExprFromVisualConfig (Some cfg)) (buildRequestRuleExpr gs)) = Ret ed
    ∧ shows cfg gs ed.
Proof.
  intros Hs Hg. unfold open_expression. rewrite split_store by done. cbn [mbind outcome_bind billingExpr requestRuleExpr].
  unfold mount. rewrite groups_or_none_read by done. cbn [mbind outcome_bind]. eexists. split; [done|].
  apply andb_true_iff in Hs as [[Hc _]%andb_true_iff _]. repeat split; cbn. by apply read_printed.
Qed.

(** ** Settling *)

Lemma flushes_add n m ed : flushes (n + m) ed = flushes n ed ≫= flushes m.
Proof.
  revert ed; induction n as [|n IH]; intros ed; [done|]. cbn [flushes Nat.add].
  destruct (flush ed) as [e|]; cbn [mbind outcome_bind]; [apply IH|done].
Qed.

Lemma settled_flushes n ed : settled ed → flushes n ed = Ret ed.
Proof. intros H. induction n as [|n IH]; [done|]. cbn [flushes]. unfold settled in H. rewrite H. exact IH. Qed.

(** After [n] flushes the editor is at rest, unless one of them threw. *)
Definition settles (n : nat) (ed : TieredPricingEditor) : Prop :=
  match flushes n ed with Ret ed' => settled ed' | Throw => True end.

Lemma settles_more n m ed : settles n ed → settles (n + m) ed.
Proof.
  unfold settles. rewrite flushes_add. destruct (flushes n ed) as [e|]; cbn [mbind outcome_bind]; [|done].
  intros H. by rewrite settled_flushes.
Qed.

Lemma settles_step n ed : (∀ e, flush ed = Ret e → settles n e) → settles (S n) ed.
Proof. unfold settles. cbn [flushes]. destruct (flush ed) as [e|]; cbn [mbind outcome_bind]; [|done]. intros H. by apply H. Qed.

(** The states that are not the parent's. *)
Definition same_inner (ed ed' : TieredPricingEditor) : Prop :=
  te_modelName ed' = te_modelName ed ∧ te_mode ed' = te_mode ed ∧ te_visual ed' = te_visual ed
  ∧ te_raw ed' = te_raw ed ∧ te_groups ed' = te_groups ed ∧ te_init ed' = te_init ed.

Lemma editor_eq ed e :
  same_inner ed e → te_billing e = te_billing ed → te_rules e = te_rules ed → te_seen e = te_seen ed →
  te_seenName e = te_seenName ed → e = ed.
Proof. destruct e, ed. cbn. unfold same_inner. cbn. intros (-> & -> & -> & -> & -> & ->). by intros -> -> -> ->. Qed.

Lemma same_inner_effective ed ed' : same_inner ed ed' → effectiveExpr ed' = effectiveExpr ed.
Proof. intros (_ & Hm & Hv & Hr & _). unfold effectiveExpr. by rewrite Hm, Hv, Hr. Qed.

(** A flush that does not initialise only writes to the parent. *)
Lemma flush_writes ed ed' :
  name_seen ed → te_init ed = true ∨ props_seen ed → flush ed = Ret ed' →
  same_inner ed ed' ∧ effectiveExpr ed = Ret (te_billing ed') ∧ te_rules ed' = rules_out ed
  ∧ te_seen ed' = Some (te_billing ed, te_rules ed) ∧ te_seenName ed' = Some (te_modelName ed).
Proof.
  intros Hn Hi (b & e & ed1 & _ & He & H1 & ->)%flush_spec. rewrite (decide_True (P := te_seenName ed = _)) by done.
  assert (ed1 = ed) as ->.
  { destruct (decide _) as [|Hs]; [done|]. destruct Hi as [Hi|]; [|done]. unfold initialise in H1. rewrite Hi in H1.
    symmetry. by apply Ret_inj. }
  by repeat split.
Qed.

Lemma flush_keeps_name ed ed' : flush ed = Ret ed' → name_seen ed'.
Proof.
  intros (b & e & ed1 & _ & _ & H1 & ->)%flush_spec. unfold name_seen. cbn.
  assert (te_modelName ed1 = te_modelName ed).
  { destruct (decide (te_seen ed = _)); [by subst|]. apply initialise_spec in H1 as [[_ ->]|(_ & gs & _ & ->)]; [done|].
    unfold initialised. by destruct (tryParseVisualConfig _), (te_billing ed). }
  destruct (decide (te_seenName ed = _)); cbn; congruence.
Qed.

(** An initialising flush sets the ref. *)
Lemma flush_initialises ed ed' :
  name_seen ed → te_init ed = false → ¬ props_seen ed → flush ed = Ret ed' → te_init ed' = true.
Proof.
  intros Hn Hi Hs (b & e & ed1 & _ & _ & H1 & ->)%flush_spec. rewrite (decide_True (P := te_seenName ed = _)) by done.
  rewrite decide_False in H1 by done. apply initialise_spec in H1 as [[? _]|(_ & gs & _ & ->)]; [congruence|]. done.
Qed.

Lemma frozen_settles ed : name_seen ed → te_init ed = true → settles 2 ed.
Proof.
  intros Hn Hi. apply settles_step. intros e1 H1. pose proof (flush_keeps_name _ _ H1) as Hn1.
  destruct (flush_writes ed e1 Hn (or_introl Hi) H1) as (Hin & He & Hr & Hs & _).
  assert (Hi1 : te_init e1 = true) by (destruct Hin as (_ & _ & _ & _ & _ & E); congruence).
  apply settles_step. intros e2 H2. pose proof (flush_keeps_name _ _ H2) as Hn2.
  destruct (flush_writes e1 e2 Hn1 (or_introl Hi1) H2) as (Hin2 & He2 & Hr2 & Hs2 & _).
  unfold settles. cbn [flushes].
  assert (Hro : ∀ a b, same_inner a b → te_rules b = rules_out a → rules_out b = rules_out a).
  { intros a b (_ & Hm & _ & _ & Hg & _) Hrb. unfold rules_out in *. rewrite Hm, Hg, Hrb. by destruct (te_mode a). }
  assert (Hb : te_billing e2 = te_billing e1).
  { rewrite (same_inner_effective _ _ Hin), He in He2. by injection He2. }
  assert (Hrr : te_rules e2 = te_rules e1) by (rewrite Hr2, Hr; by apply Hro).
  apply flush_spec in H2 as (b & e & ed1 & Hc & _ & _ & _). unfold settled. apply flush_spec.
  exists b, (te_billing e2), e2. split; [unfold canUseVisualRules in *; by rewrite Hrr|].
  split; [by rewrite (same_inner_effective _ _ Hin2)|].
  rewrite Hs2, Hb, Hrr, decide_True, (decide_True (P := te_seenName e2 = _)) by done. split; [done|].
  rewrite (Hro _ _ Hin2 Hr2), <- Hr2, <- Hb, <- Hrr. symmetry. apply rest_eq; [|done]. unfold props_seen. by rewrite Hb, Hrr.
Qed.

Lemma due_settles ed : name_seen ed → te_init ed = false → ¬ props_seen ed → settles 3 ed.
Proof.
  intros Hn Hi Hs. apply settles_step. intros e H. apply frozen_settles; [by eapply flush_keeps_name|].
  by apply (flush_initialises ed).
Qed.

Lemma named_settles ed : name_seen ed → settles 4 ed.
Proof.
  intros Hn. destruct (te_init ed) eqn:Hi; [by apply (settles_more 2 2), frozen_settles|].
  destruct (decide (props_seen ed)) as [Hp|Hp]; [|by apply (settles_more 3 1), due_settles].
  apply settles_step. intros e H. pose proof (flush_keeps_name _ _ H) as Hne.
  destruct (flush_writes ed e Hn (or_intror Hp) H) as (Hin & He & Hr & Hs & _).
  destruct (decide (props_seen e)) as [Hpe|Hpe].
  - apply (settles_more 0 3). unfold settles. cbn [flushes]. unfold props_seen in *. rewrite Hs in Hpe.
    injection Hpe as Hb Hrr. assert (e = ed) as ->; [|exact H]. pose proof Hin as (Hname & _).
    unfold name_seen in *. apply (editor_eq ed e Hin); congruence.
  - apply due_settles; [done| |done]. destruct Hin as (_ & _ & _ & _ & _ & E). congruence.
Qed.

Lemma any_settles ed : settles 5 ed.
Proof. apply settles_step. intros e H. by eapply named_settles, flush_keeps_name. Qed.

Lemma settled_seen ed : settled ed → props_seen ed ∧ name_seen ed.
Proof.
  intros (b & e & ed1 & _ & _ & _ & E)%flush_spec.
  split; [exact (f_equal te_seen E)|exact (f_equal te_seenName E)].
Qed.

(** ** The tier cards

    The steps a user can take on the list of tiers, what they keep, and what
    removing the fallback does to the printed price. *)

(** ** Steps *)

Definition extra_fields : list jstr := map fst BILLING_CACHE_VAR_MAP.

(** The price inputs a card renders: the 1h one only for a timed cache. *)
Definition field_shown (t : VisualTier) (field : PriceFieldName) : Prop :=
  match field with
  | InputCost | OutputCost => True
  | ExtraCost f => f ∈ extra_fields ∧ (f = CACHE_1H → t_cache_mode t = CACHE_MODE_TIMED)
  end.

Inductive card_step (t : VisualTier) : VisualTier → Prop :=
| label_step label : card_step t (handleLabelChange t label)
| condition_step i next : (i < length (t_conditions t))%nat → card_step t (handleConditionChange t i next)
| condition_remove_step i : card_step t (handleConditionRemove t i)
| price_step field text : field_shown t field → card_step t (handlePriceChange t field (priceToUnitCost (parseNumberDraft text)))
| cache_mode_step mode : card_step t (handleCacheModeChange t mode).

Inductive tiers_step (tiers : list VisualTier) : list VisualTier → Prop :=
| on_card_step i t t' : tiers !! i = Some t → card_step t t' → tiers_step tiers (handleTierChange tiers i t')
| add_tier_step : tiers_step tiers (handleAddTier tiers)
| remove_tier_step i : tiers_step tiers (handleRemoveTier tiers i)
| add_condition_step i tiers' : handleAddCondition tiers i = Some tiers' → tiers_step tiers tiers'.

(** ** Normalised tiers *)

Lemma map_get_table {A B} `{!EqDecision A} (g : A → B) (l : list A) a :
  a ∈ l → map_get (map (λ x, (x, g x)) l) a = Some (g a).
Proof.
  induction l as [|b l IH]; [by intros ?%elem_of_nil|]. intros Hin. cbn [map map_get].
  destruct (decide (b = a)) as [->|Hne]; [done|]. apply IH. by apply elem_of_cons in Hin as [->|].
Qed.

Lemma normalized_table p :
  t_costs (normalizeVisualTier p) = map (λ f, (f, cost (p_costs p) f)) extra_fields.
Proof. done. Qed.

Lemma cost_normalized p f : f ∈ extra_fields → cost (t_costs (normalizeVisualTier p)) f = cost (p_costs p) f.
Proof.
  intros Hf. rewrite normalized_table. unfold cost at 1. rewrite map_get_table by done.
  unfold cost. by rewrite or_zero_idemp.
Qed.

Lemma cache_1h_field : CACHE_1H ∈ extra_fields.
Proof. apply (bool_decide_unpack _). by_eval. Qed.

Record tier_ok (t : VisualTier) : Prop := {
  ok_conditions : (length (t_conditions t) ≤ 2)%nat;
  ok_costs : t_costs (normalizeVisualTier (as_partial t)) = t_costs t;
  ok_mode : t_cache_mode t = CACHE_MODE_GENERIC → positive (cost (t_costs t) CACHE_1H) = false;
}.

Definition tiers_ok (tiers : list VisualTier) : Prop := tiers ≠ [] ∧ Forall tier_ok tiers.

(** What a card hands on need not be normalised yet. *)
Definition draft_ok (t : VisualTier) : Prop :=
  (length (t_conditions t) ≤ 2)%nat
  ∧ (t_cache_mode t = CACHE_MODE_GENERIC → positive (cost (t_costs t) CACHE_1H) = false).

Lemma normalized_ok t : draft_ok t → tier_ok (normalizeVisualTier (as_partial t)).
Proof.
  intros [Hc Hm]. split.
  - done.
  - rewrite !normalized_table. cbn [as_partial p_costs]. apply map_ext_in. intros f Hf%list_elem_of_In.
    f_equal. by apply cost_normalized.
  - intros Hg. rewrite cost_normalized by apply cache_1h_field. by apply Hm.
Qed.

Lemma tier_draft t : tier_ok t → draft_ok t.
Proof. by intros []. Qed.

Lemma without_length {A} i (l : list A) : (length (without i l) ≤ length l)%nat.
Proof. unfold without. rewrite length_app, length_take, length_drop. lia. Qed.

Lemma cost_set_ne costs f g v : f ≠ g → cost (map_set costs f v) g = cost costs g.
Proof. intros H. unfold cost. by rewrite map_get_set_ne. Qed.

Lemma cost_set_eq costs f v : cost (map_set costs f v) f = or_zero (Some v).
Proof. unfold cost. by rewrite map_get_set_eq. Qed.

(** Every step on a card keeps the bounds. *)
Lemma card_step_ok t t' : tier_ok t → card_step t t' → draft_ok t'.
Proof.
  intros [Hc Hn Hm] Hs. destruct Hs as [label|i next Hi|i|field text Hf|mode].
  - by split.
  - split; [|done]. cbn. by rewrite length_insert.
  - split; [|done]. cbn. pose proof (without_length i (t_conditions t)). lia.
  - destruct field as [| |f]; [by split..|]. split; [done|]. cbn. intros Hg.
    destruct Hf as [_ Hf]. rewrite cost_set_ne; [by apply Hm|]. intros ->. rewrite Hf in Hg by done. done.
  - split; [done|]. cbn. intros ->. rewrite cost_set_eq. by_eval.
Qed.

Lemma without_Forall {A} (P : A → Prop) i l : Forall P l → Forall P (without i l).
Proof. intros H. unfold without. apply Forall_app. split; [by apply Forall_take|by apply Forall_drop]. Qed.

Lemma insert_not_nil {A} i (x : A) l : l ≠ [] → <[i:=x]> l ≠ [].
Proof. destruct l, i; done. Qed.

Lemma new_tier_ok n : tier_ok (new_tier n).
Proof. split; [cbn; lia|by_eval|intros _; by_eval]. Qed.

Lemma bound_last_ok tiers : tiers_ok tiers → tiers_ok (bound_last tiers).
Proof.
  intros [Hne Hall]. unfold bound_last. destruct (last tiers) as [t|] eqn:El; [|done].
  destruct (t_conditions t) eqn:Ec; [|done]. split.
  - by apply insert_not_nil.
  - apply Forall_insert; [done|]. apply normalized_ok. apply last_Some_elem_of in El. rewrite Forall_forall in Hall.
    destruct (Hall t El) as [_ _ Hm]. split; [cbn; lia|exact Hm].
Qed.

Lemma tiers_step_ok tiers tiers' : tiers_ok tiers → tiers_step tiers tiers' → tiers_ok tiers'.
Proof.
  intros [Hne Hall] Hs. destruct Hs as [i t t' Hi Hcard| |i|i tiers' Hadd].
  - assert (Ht : tier_ok t) by (rewrite Forall_lookup in Hall; by eapply Hall). split.
    + by apply insert_not_nil.
    + apply Forall_insert; [done|]. by apply normalized_ok, (card_step_ok t).
  - destruct (bound_last_ok tiers (conj Hne Hall)) as [_ Hb]. split.
    { unfold handleAddTier. by destruct (bound_last tiers). }
    apply Forall_app. split; [done|]. apply Forall_singleton, new_tier_ok.
  - unfold handleRemoveTier. pose proof (without_Forall tier_ok i tiers Hall) as Hw.
    destruct (without i tiers) as [|t l] eqn:E; [done|]. by split.
  - unfold handleAddCondition in Hadd. destruct (tiers !! i) as [t|] eqn:Ei; [|done]. cbn [mbind option_bind] in Hadd.
    destruct (2 <=? _)%nat eqn:El; [done|]. apply Nat.leb_gt in El. injection Hadd as <-.
    assert (Ht : tier_ok t) by (rewrite Forall_lookup in Hall; by eapply Hall). destruct Ht as [Hc Hn Hm]. split.
    + by apply insert_not_nil.
    + apply Forall_insert; [done|]. split; [cbn; rewrite length_app; cbn; lia|exact Hn|exact Hm].
Qed.

(** Invariant of the visual editor: from tiers that satisfy it, whatever
    cards are edited and whatever tiers and conditions are added or removed,
    there is always a tier, every tier has at most two conditions and
    normalised costs, and a tier with a generic cache has no 1h price. *)
Theorem visual_tiers_invariant (tiers tiers' : list VisualTier) :
  tiers_ok tiers → rtc tiers_step tiers tiers' → tiers_ok tiers'.
Proof. intros Hok Hs. induction Hs as [|a b c Hab _ IH]; [done|]. by eapply IH, tiers_step_ok. Qed.

Lemma visual_tiers_invariant_witness :
  rtc tiers_step createDefaultVisualConfig (handleRemoveTier (handleAddTier createDefaultVisualConfig) 1)
  ∧ tiers_ok (handleRemoveTier (handleAddTier createDefaultVisualConfig) 1).
Proof.
  assert (Hs : rtc tiers_step createDefaultVisualConfig (handleRemoveTier (handleAddTier createDefaultVisualConfig) 1)).
  { eapply rtc_l; [apply add_tier_step|]. eapply rtc_l; [apply (remove_tier_step _ 1)|]. apply rtc_refl. }
  split; [exact Hs|]. apply (visual_tiers_invariant createDefaultVisualConfig); [|exact Hs].
  split; [discriminate|]. apply Forall_singleton. split; [apply Nat.le_0_l|vm_compute; reflexivity|intros _; vm_compute; reflexivity].
Defined.

(** ** The last tier *)

Lemma tier_parts_last i l t :
  tier_parts i (l ++ [t]) = tier_parts i (l ++ [with_conditions t []]).
Proof.
  revert i; induction l as [|x l IH]; intros i; [done|]. cbn [app tier_parts]. rewrite IH.
  by destruct l.
Qed.

(** Removing the fallback changes whom the tiers before it apply to: of
    several tiers that remain, the last one is printed without the conditions
    its card still shows, so it becomes the fallback; a single tier that
    remains keeps them and everything outside of them is free. *)
Theorem removed_fallback (l : list VisualTier) (t f : VisualTier) :
  let tiers := handleRemoveTier (l ++ [t; f]) (S (length l)) in
  tiers = l ++ [t]
  ∧ (l ≠ [] → generateExprFromVisualConfig (Some tiers) = generateExprFromVisualConfig (Some (l ++ [with_conditions t []])))
  ∧ (l = [] → buildConditionStr (t_conditions t) ≠ [] →
      generateExprFromVisualConfig (Some tiers)
      = buildConditionStr (t_conditions t) ++ js " ? " ++ tier_call (label_or (js "default") t) t ++ js " : p * 0 + c * 0").
Proof.
  intros tiers. assert (E : tiers = l ++ [t]).
  { unfold tiers, handleRemoveTier, without.
    replace (l ++ [t; f]) with ((l ++ [t]) ++ [f]) by by rewrite <- app_assoc.
    replace (S (length l)) with (length (l ++ [t])) by (rewrite length_app; cbn; lia).
    rewrite take_app_length, drop_ge by (rewrite !length_app; cbn; lia). rewrite app_nil_r. by destruct (l ++ [t]) eqn:El; [destruct l|]. }
  split; [done|]. rewrite E. split.
  - intros Hl. destruct l as [|x l]; [done|]. pose proof (tier_parts_last 0 (x :: l) t) as H.
    destruct l as [|y l]; cbn [app generateExprFromVisualConfig] in *; by rewrite H.
  - intros -> Hc. cbn [app generateExprFromVisualConfig]. apply nonempty_true in Hc. by rewrite Hc.
Qed.

Lemma removed_fallback_witness :
  let t := with_conditions (new_tier 1) [bound_200000 Var_len] in
  buildConditionStr (t_conditions t) ≠ []
  ∧ generateExprFromVisualConfig (Some (handleRemoveTier ([] ++ [t; new_tier 2]) 1))
    = buildConditionStr (t_conditions t) ++ js " ? " ++ tier_call (label_or (js "default") t) t ++ js " : p * 0 + c * 0".
Proof.
  intros t. assert (H : buildConditionStr (t_conditions t) ≠ []) by (vm_compute; discriminate).
  split; [exact H|]. destruct (removed_fallback [] t (new_tier 2)) as (_ & _ & H2). exact (H2 eq_refl H).
Defined.
