(* ===== verification/TieredEditorClaims.v ===== *)
(** * The tiered pricing editor: its properties

    What is printed is read back, a saved price opens and is saved unchanged,
    the effects come to rest, and which expressions and rules the editor
    replaces when it cannot read them. *)

From Stdlib Require Import String.
From S2P Require Import JsExec JsMap JsJson BillingExpr BillingExprFacts BillingExprProps.
From S2P Require Import TierExpr TierExprFacts TierExprProps TierDisplayProps TieredEditor TieredEditorProps.

#[local] Opaque js string_of_number number_of_string.

(** ** A sample *)

Definition sample_tier (label : string) (conditions : list TierConditionInput) (input output read : Z) : VisualTier :=
  normalizeVisualTier
    {| p_label := Some (js label); p_conditions := Some conditions; p_input := Some (num_of_Z input);
       p_output := Some (num_of_Z output); p_cache_mode := None;
       p_costs := [(js "cache_read_unit_cost", num_of_Z read)] |}.

(** Two conditional tiers and a fallback. *)
Definition sample_config : list VisualTier :=
  [sample_tier "short" [bound_200000 Var_len; {| ci_var := Var_c; ci_op := Op_ge; ci_value := NumValue (num_of_Z 5) |}] 2 4 1;
   sample_tier "mid" [{| ci_var := Var_p; ci_op := Op_le; ci_value := NumValue (num_of_Z 900) |}] 3 6 0;
   sample_tier "long" [] 5 25 2].

(** ** Tiers *)

(** C7. Round trip of the visual tiers: a configuration of the visual editor
    (normalised tiers whose labels have no quotes and whose numbers print and
    read back, the last of several without conditions) is read from the
    expression printed for it as the very same tiers, all but the cache mode,
    which follows the 1h cost. *)
Theorem visual_config_roundtrip (cfg : list VisualTier) :
  regular_config cfg = true →
  tryParseVisualConfig (generateExprFromVisualConfig (Some cfg)) = Some (map reread cfg).
Proof. apply read_printed. Qed.

Lemma visual_config_roundtrip_witness :
  tryParseVisualConfig (generateExprFromVisualConfig (Some sample_config)) = Some (map reread sample_config).
Proof. apply (visual_config_roundtrip sample_config). vm_compute. reflexivity. Defined.

(** The price displays agree with the editor: their own parser finds, in
    the expression printed for a configuration, the tiers in order with
    their labels and conditions, and for every billing variable its unit cost
    as the price, zero where the tier has none. *)
Theorem displayed_tiers_agree (cfg : list VisualTier) :
  regular_config cfg = true →
  parseTiersFromExpr (generateExprFromVisualConfig (Some cfg)) = map displayed cfg.
Proof. apply parse_printed. Qed.

Lemma displayed_tiers_agree_witness :
  parseTiersFromExpr (generateExprFromVisualConfig (Some sample_config)) = map displayed sample_config.
Proof. apply (displayed_tiers_agree sample_config). vm_compute. reflexivity. Defined.

(** ** Opening and saving *)

(** C2. Opening a saved price: the stored text of a configuration with
    a fallback and canonical rules opens in the visual editor with those
    tiers and those rules, the editor is at rest after one round of effects,
    and saving it again stores the very same text. *)
Theorem saved_price_reopens (modelName : jstr) (cfg : list VisualTier) (gs : list RequestRuleGroup) :
  storable cfg = true → forallb canonical_group gs = true →
  let text := combineBillingExpr (generateExprFromVisualConfig (Some cfg)) (buildRequestRuleExpr gs) in
  ∃ ed, open_expression modelName text ≫= flush = Ret ed ∧ settled ed
    ∧ te_mode ed = VisualMode ∧ te_visual ed = Some (map reread cfg) ∧ te_groups ed = gs
    ∧ saved_expression ed = text.
Proof.
  intros Hs Hg text. unfold text. destruct (open_shows modelName cfg gs Hs Hg) as (ed0 & -> & H0). cbn [mbind outcome_bind].
  apply andb_true_iff in Hs as [[Hc _]%andb_true_iff _].
  destruct (shows_flush cfg gs ed0 Hc Hg H0) as (ed & -> & H & Hseen & Hname). exists ed. split; [done|].
  split; [by apply (shows_settled cfg gs)|]. destruct H as (Hm & Hv & Hgs & Hb & Hr). split_and!; try done.
  unfold saved_expression. by rewrite Hb, Hr.
Qed.

Lemma saved_price_reopens_witness :
  ∃ ed, open_expression (js "m") (combineBillingExpr (generateExprFromVisualConfig (Some sample_config))
          (buildRequestRuleExpr sample_groups)) ≫= flush = Ret ed ∧ settled ed
    ∧ te_mode ed = VisualMode ∧ te_visual ed = Some (map reread sample_config) ∧ te_groups ed = sample_groups
    ∧ saved_expression ed
      = combineBillingExpr (generateExprFromVisualConfig (Some sample_config)) (buildRequestRuleExpr sample_groups).
Proof. apply (saved_price_reopens (js "m") sample_config sample_groups); vm_compute; reflexivity. Defined.

(** C31. The effects come to rest: whatever states and properties the editor
    has, after at most five rounds of effects a further round changes nothing,
    unless reading one of the expressions threw on the way. *)
Theorem editor_settles (ed : TieredPricingEditor) :
  (∃ ed', flushes 5 ed = Ret ed' ∧ flush ed' = Ret ed') ∨ flushes 5 ed = Throw.
Proof.
  pose proof (any_settles ed) as H. unfold settles in H. destruct (flushes 5 ed) as [ed'|]; [left|by right].
  by exists ed'.
Qed.

(** ** Expressions the editor cannot read *)

Definition zero_price : jstr := js "p * 0 + c * 0".

(** The states of an editor over [X] that is in text mode. *)
Definition text_editor (name billing raw : jstr) (init : bool) (seen : jstr) : TieredPricingEditor :=
  {| te_modelName := name; te_billing := billing; te_rules := []; te_mode := RawMode; te_visual := None; te_raw := raw;
     te_groups := []; te_init := init; te_seen := Some (seen, []); te_seenName := Some name |}.

Lemma no_rules_read : groups_or_none [] = Ret [].
Proof. done. Qed.

Lemma zero_split : splitBillingExprAndRequestRules (combineBillingExpr zero_price []) = Ret {| billingExpr := zero_price; requestRuleExpr := [] |}.
Proof. vm_compute. reflexivity. Qed.

Lemma zero_unreadable : tryParseVisualConfig zero_price = None.
Proof. vm_compute. reflexivity. Qed.

Lemma split_trimmed s : splitBillingExprAndRequestRules (combineBillingExpr s []) = splitBillingExprAndRequestRules s.
Proof.
  unfold combineBillingExpr. change (trim []) with (@nil Z). cbn [nonempty negb].
  unfold splitBillingExprAndRequestRules. destruct (trim s) as [|c t] eqn:E; [done|]. cbn [nonempty negb].
  rewrite <- E, trim_idemp, E. done.
Qed.

#[local] Opaque tryParseVisualConfig generateExprFromVisualConfig tryParseRequestRuleExpr buildRequestRuleExpr
  splitBillingExprAndRequestRules combineBillingExpr.

Section unreadable.
(** An expression without rules that the visual editor cannot read. *)
Context (name X : jstr).
Hypothesis X_split : splitBillingExprAndRequestRules X = Ret {| billingExpr := X; requestRuleExpr := [] |}.
Hypothesis X_some : X ≠ [].
Hypothesis X_unread : tryParseVisualConfig X = None.
Hypothesis X_priced : X ≠ zero_price.

Lemma unreadable_round1 :
  (open_expression name X ≫= flush) = Ret (text_editor name zero_price (combineBillingExpr X []) false X).
Proof.
  unfold open_expression. rewrite X_split. cbn [mbind outcome_bind billingExpr requestRuleExpr]. unfold mount.
  rewrite no_rules_read. cbn [mbind outcome_bind]. rewrite X_unread. apply flush_spec.
  exists true, zero_price. eexists (initialised _ []). split; [done|]. split; [done|]. rewrite decide_False by done.
  split; [by apply initialise_ret|]. rewrite decide_False by done. by rewrite initialised_unread.
Qed.

(** A round of an editor in text mode that does not initialise. *)
Lemma text_round billing raw init seen e :
  billingExpr <$> splitBillingExprAndRequestRules raw = Ret e → init = true →
  flush (text_editor name billing raw init seen) = Ret (text_editor name e raw init billing).
Proof.
  intros He ->. apply flush_spec. exists true, e, (text_editor name billing raw true seen). split; [done|]. split; [done|].
  split; [case_decide; [done|by unfold initialise]|]. by rewrite decide_True.
Qed.

Lemma unreadable_round2 :
  flush (text_editor name zero_price (combineBillingExpr X []) false X)
  = Ret (text_editor name X (combineBillingExpr zero_price []) true zero_price).
Proof.
  apply flush_spec. exists true, X. eexists (initialised _ []). split; [done|].
  split; [unfold effectiveExpr; cbn [te_mode te_raw text_editor]; by rewrite split_trimmed, X_split|].
  rewrite decide_False by (cbn; congruence). split; [by apply initialise_ret|].
  rewrite decide_True by done. by rewrite initialised_unread by (done || apply zero_unreadable).
Qed.

Lemma unreadable_rounds :
  open_expression name X ≫= flushes 5 = Ret (text_editor name zero_price (combineBillingExpr zero_price []) true zero_price).
Proof.
  change (flushes 5) with (λ ed, flush ed ≫= flushes 4). pose proof unreadable_round1 as H.
  destruct (open_expression name X) as [ed|]; [|done]. cbn [mbind outcome_bind] in *. rewrite H. cbn [mbind outcome_bind flushes].
  rewrite unreadable_round2. cbn [mbind outcome_bind]. assert (Hz : billingExpr <$> splitBillingExprAndRequestRules (combineBillingExpr zero_price []) = Ret zero_price) by by rewrite zero_split.
  by do 3 (rewrite (text_round _ _ _ _ zero_price Hz eq_refl); cbn [mbind outcome_bind]).
Qed.
End unreadable.

(** Opening an expression without rules that the visual editor cannot
    read replaces it: once the effects came to rest the editor is in
    text mode, and what it shows and what a save stores is the zero price. *)
Theorem unreadable_price_replaced (modelName X : jstr) :
  splitBillingExprAndRequestRules X = Ret {| billingExpr := X; requestRuleExpr := [] |} →
  X ≠ [] → tryParseVisualConfig X = None → X ≠ zero_price →
  ∃ ed, open_expression modelName X ≫= flushes 5 = Ret ed ∧ settled ed
    ∧ te_mode ed = RawMode ∧ te_raw ed = zero_price ∧ saved_expression ed = zero_price.
Proof.
  intros H1 H2 H3 H4. eexists. split; [by apply unreadable_rounds|]. split; [by apply text_round; [rewrite zero_split|]|].
  split; [done|]. split; by vm_compute.
Qed.

Lemma unreadable_price_replaced_witness :
  ∃ ed, open_expression (js "m") (js "p * 2 + c * 4") ≫= flushes 5 = Ret ed ∧ settled ed
    ∧ te_mode ed = RawMode ∧ te_raw ed = zero_price ∧ saved_expression ed = zero_price.
Proof. apply (unreadable_price_replaced (js "m") (js "p * 2 + c * 4")); [vm_compute; reflexivity|done|vm_compute; reflexivity|done]. Defined.

(** ** Rules the editor cannot read *)

(** An editor in visual mode over the tiers [cfg]; the rules of its parent
    need not be those of its groups. *)
Definition visual_editor (name : jstr) (cfg : list VisualTier) (rules : jstr) (raw : jstr) (gs : list RequestRuleGroup)
    (init : bool) (seen : option (jstr * jstr)) (seenName : option jstr) : TieredPricingEditor :=
  {| te_modelName := name; te_billing := generateExprFromVisualConfig (Some cfg); te_rules := rules;
     te_mode := VisualMode; te_visual := Some (map reread cfg); te_raw := raw; te_groups := gs; te_init := init;
     te_seen := seen; te_seenName := seenName |}.

Section rules_rounds.
Context (name : jstr) (cfg : list VisualTier).
Hypothesis cfg_regular : regular_config cfg = true.
Let B := generateExprFromVisualConfig (Some cfg).

Lemma read_groups R o : tryParseRequestRuleExpr R = Ret o → groups_or_none R = Ret (default [] o).
Proof. intros H. unfold groups_or_none. by rewrite H. Qed.

Lemma canUse_ret R o ed : te_rules ed = R → tryParseRequestRuleExpr R = Ret o → ∃ b, canUseVisualRules ed = Ret b.
Proof. intros <- H. unfold canUseVisualRules. rewrite H. destruct (te_rules ed); by eexists. Qed.

(** Initialising reads the tiers again. *)
Lemma initialised_rules rules raw gs gs' init seen seenName :
  initialised (visual_editor name cfg rules raw gs init seen seenName) gs'
  = visual_editor name cfg rules (combineBillingExpr B rules) gs' true seen seenName.
Proof. unfold initialised. cbn [te_billing visual_editor]. by rewrite read_printed. Qed.

Lemma visual_effective rules raw gs init seen seenName :
  effectiveExpr (visual_editor name cfg rules raw gs init seen seenName) = Ret B.
Proof. unfold effectiveExpr. cbn. by rewrite generate_reread. Qed.

(** A round that initialises: the groups become what the rules are read as. *)
Lemma reading_round R o raw gs seen seenName :
  tryParseRequestRuleExpr R = Ret o → seen ≠ Some (B, R) →
  flush (visual_editor name cfg R raw gs false seen seenName) =
  Ret (visual_editor name cfg (buildRequestRuleExpr gs) (combineBillingExpr B R) (default [] o)
         (if decide (seenName = Some name) then true else false) (Some (B, R)) (Some name)).
Proof.
  intros HR Hs. set (ed := visual_editor _ _ _ _ _ _ _ _). destruct (canUse_ret R o ed eq_refl HR) as [b Hb].
  apply flush_spec. exists b, B, (visual_editor name cfg R (combineBillingExpr B R) (default [] o) true seen seenName).
  split; [done|]. split; [apply visual_effective|]. unfold ed. cbn [te_seen te_billing te_rules te_seenName te_modelName visual_editor].
  fold B. rewrite decide_False by done. split; [|by case_decide].
  by rewrite (initialise_ret _ (default [] o)); [rewrite initialised_rules| |apply read_groups].
Qed.

(** A round that only writes the rules of the groups. *)
Lemma writing_round R o raw gs init seen :
  tryParseRequestRuleExpr R = Ret o → seen = Some (B, R) ∨ init = true →
  flush (visual_editor name cfg R raw gs init seen (Some name)) =
  Ret (visual_editor name cfg (buildRequestRuleExpr gs) raw gs init (Some (B, R)) (Some name)).
Proof.
  intros HR Hi. set (ed := visual_editor _ _ _ _ _ _ _ _). destruct (canUse_ret R o ed eq_refl HR) as [b Hb].
  apply flush_spec. exists b, B, ed. split; [done|]. split; [apply visual_effective|].
  unfold ed. cbn [te_seen te_billing te_rules te_seenName te_modelName visual_editor]. fold B.
  split; [|by rewrite decide_True]. case_decide; [done|]. destruct Hi as [|Hi]; [done|]. by rewrite Hi.
Qed.
End rules_rounds.

(** Opening a price whose tiers are readable and whose rules are not
    deletes the rules: at rest the editor has no rule groups, and a save
    stores the tiers alone. *)
Theorem unreadable_rules_dropped (modelName : jstr) (cfg : list VisualTier) (R : jstr) :
  regular_config cfg = true → tryParseRequestRuleExpr R = Ret None → R ≠ [] →
  ∃ ed, mount modelName (generateExprFromVisualConfig (Some cfg)) R ≫= flushes 2 = Ret ed ∧ settled ed
    ∧ te_visual ed = Some (map reread cfg) ∧ te_groups ed = [] ∧ te_rules ed = []
    ∧ saved_expression ed = combineBillingExpr (generateExprFromVisualConfig (Some cfg)) [].
Proof.
  intros Hc HR Hne. set (B := generateExprFromVisualConfig (Some cfg)).
  assert (Hm : mount modelName B R = Ret (visual_editor modelName cfg R (combineBillingExpr B R) [] false None None)).
  { unfold mount. rewrite (read_groups _ _ HR). cbn [mbind outcome_bind from_option id]. unfold B. by rewrite read_printed. }
  rewrite Hm. cbn [mbind outcome_bind flushes]. rewrite (reading_round _ _ Hc R None) by done. cbn [mbind outcome_bind].
  set (ed1 := visual_editor _ _ _ _ _ _ _ _). assert (H1 : shows cfg [] ed1) by by repeat split.
  destruct (shows_flush cfg [] ed1 Hc eq_refl H1) as (ed & -> & H & Hseen & Hname). exists ed. split; [done|].
  split; [by apply (shows_settled cfg [])|]. destruct H as (Hmode & Hv & Hgs & Hb & Hr).
  split_and!; try done. unfold saved_expression. by rewrite Hb, Hr.
Qed.

Lemma unreadable_rules_dropped_witness :
  ∃ ed, mount (js "m") (generateExprFromVisualConfig (Some sample_config)) (unq "(param('x') == 'y' ? max(1, 2) : 1)")
          ≫= flushes 2 = Ret ed ∧ settled ed
    ∧ te_visual ed = Some (map reread sample_config) ∧ te_groups ed = [] ∧ te_rules ed = []
    ∧ saved_expression ed = combineBillingExpr (generateExprFromVisualConfig (Some sample_config)) [].
Proof.
  apply (unreadable_rules_dropped (js "m") sample_config (unq "(param('x') == 'y' ? max(1, 2) : 1)"));
    [vm_compute; reflexivity|vm_compute; reflexivity|discriminate].
Defined.

(** The first edit after a price was opened, if it makes the rules
    unreadable (a parameter comparison or substring test does), deletes all
    the rules: at rest there is no group and no rule text, though the tiers
    are untouched. *)
Theorem unreadable_edit_wipes_rules (modelName : jstr) (cfg : list VisualTier) (gs gs' : list RequestRuleGroup) :
  storable cfg = true → forallb canonical_group gs = true →
  tryParseRequestRuleExpr (buildRequestRuleExpr gs') = Ret None → buildRequestRuleExpr gs' ≠ [] →
  ∃ opened ed,
    open_expression modelName (combineBillingExpr (generateExprFromVisualConfig (Some cfg)) (buildRequestRuleExpr gs))
      ≫= flush = Ret opened
    ∧ flushes 4 (handleRuleGroupsChange gs' opened) = Ret ed ∧ settled ed
    ∧ te_visual ed = Some (map reread cfg) ∧ te_groups ed = [] ∧ te_rules ed = [].
Proof.
  intros Hs Hg HR Hne.
  assert (Hread : tryParseRequestRuleExpr (buildRequestRuleExpr gs) = Ret (Some gs)).
  { apply build_groups in Hg as (fs & -> & Hall). by apply parse_product. }
  pose proof Hs as [[Hc _]%andb_true_iff _]%andb_true_iff.
  unfold open_expression. rewrite split_store by done. cbn [mbind outcome_bind billingExpr requestRuleExpr].
  set (B := generateExprFromVisualConfig (Some cfg)).
  set (R0 := buildRequestRuleExpr gs) in *. set (R' := buildRequestRuleExpr gs') in *.
  assert (Hm : mount modelName B R0 = Ret (visual_editor modelName cfg R0 (combineBillingExpr B R0) gs false None None)).
  { unfold mount. rewrite (read_groups _ _ Hread). cbn [mbind outcome_bind from_option id]. unfold B. by rewrite read_printed. }
  rewrite Hm. cbn [mbind outcome_bind]. rewrite (reading_round _ _ Hc R0 (Some gs)) by done. eexists _, _. split; [done|].
  rewrite decide_False by done. cbn [from_option id]. fold R0 B.
  set (raw := combineBillingExpr B R0).
  change (handleRuleGroupsChange gs' _) with (visual_editor modelName cfg R0 raw gs' false (Some (B, R0)) (Some modelName)).
  assert (HR' : Some (B, R0) ≠ Some (B, R')). { intros E. injection E as E. rewrite <- E in HR. congruence. }
  assert (Hnil : tryParseRequestRuleExpr [] = Ret (Some [])) by done.
  cbn [flushes]. rewrite (writing_round _ cfg R0 (Some gs)) by (done || by left). fold R'. cbn [mbind outcome_bind].
  rewrite (reading_round _ _ Hc R' None) by done. fold R' B. rewrite decide_True by done. cbn [mbind outcome_bind from_option id].
  rewrite (writing_round _ cfg R' None) by (done || by right). change (buildRequestRuleExpr []) with (@nil Z). cbn [mbind outcome_bind].
  rewrite (writing_round _ cfg [] (Some [])) by (done || by right). split; [reflexivity|].
  split; [|done]. unfold settled. by rewrite (writing_round _ cfg [] (Some [])) by (done || by right).
Qed.

(** The service tier rule with its comparison changed to a substring test. *)
Definition edited_groups : list RequestRuleGroup :=
  [{| rg_conditions := [ph SOURCE_PARAM (js "service_tier") MATCH_CONTAINS (js "flex")]; rg_multiplier := js "2" |}].

Lemma unreadable_edit_wipes_rules_witness :
  ∃ opened ed,
    open_expression (js "m") (combineBillingExpr (generateExprFromVisualConfig (Some sample_config)) (buildRequestRuleExpr sample_groups))
      ≫= flush = Ret opened
    ∧ flushes 4 (handleRuleGroupsChange edited_groups opened) = Ret ed ∧ settled ed
    ∧ te_visual ed = Some (map reread sample_config) ∧ te_groups ed = [] ∧ te_rules ed = [].
Proof.
  apply (unreadable_edit_wipes_rules (js "m") sample_config sample_groups edited_groups);
    [vm_compute; reflexivity|vm_compute; reflexivity|vm_compute; reflexivity|discriminate].
Defined.

(** ** Switching between the two editors *)

(** Switching an editor that shows a storable price to the text and back
    loses nothing: the text shown is the saved one, the effects leave
    everything as it is, and back in the visual editor there are the same
    tiers, groups and expressions. *)
Theorem mode_switch_roundtrip (cfg : list VisualTier) (gs : list RequestRuleGroup) (ed : TieredPricingEditor) :
  storable cfg = true → forallb canonical_group gs = true → shows cfg gs ed → settled ed →
  ∃ text_ed ed', handleModeChange RawMode ed = Ret text_ed
    ∧ te_raw text_ed = saved_expression ed ∧ settled text_ed ∧ saved_expression text_ed = saved_expression ed
    ∧ handleModeChange VisualMode text_ed = Ret ed' ∧ shows cfg gs ed' ∧ saved_expression ed' = saved_expression ed.
Proof.
  intros Hs Hg (Hm & Hv & Hgs & Hb & Hr) Hrest. pose proof Hs as [[Hc _]%andb_true_iff _]%andb_true_iff.
  pose proof (split_store cfg gs Hs Hg) as Hsplit.
  set (text := combineBillingExpr (generateExprFromVisualConfig (Some cfg)) (buildRequestRuleExpr gs)) in *.
  assert (Hsaved : saved_expression ed = text) by (unfold saved_expression; by rewrite Hb, Hr).
  assert (Htext : text ≠ []).
  { intros E. rewrite E in Hsplit. change (splitBillingExprAndRequestRules []) with (Ret (A := SplitExpr) {| billingExpr := []; requestRuleExpr := [] |}) in Hsplit.
    apply Ret_inj in Hsplit. injection Hsplit as Hsplit _. destruct (printed_shape cfg Hs) as (_ & (c & u & E' & _) & _).
    rewrite E' in Hsplit. done. }
  set (text_ed := set_state RawMode (te_visual ed) text (te_groups ed) ed).
  assert (H1 : handleModeChange RawMode ed = Ret text_ed).
  { unfold handleModeChange. rewrite Hv, Hgs, generate_reread. fold text. unfold text_ed. rewrite Hv, Hgs. by destruct text. }
  assert (Hsame : set_props (te_billing ed) (te_rules ed) (set_seen (te_billing ed) (te_rules ed) (te_modelName ed) text_ed) = text_ed).
  { destruct (settled_seen ed Hrest) as [Hps Hns]. by apply (rest_eq text_ed). }
  destruct (settled_seen ed Hrest) as [Hps Hns].
  exists text_ed, (set_state VisualMode (Some (map reread cfg)) text gs text_ed). split; [done|]. split; [done|]. split.
  { unfold settled. apply flush_spec. exists true, (te_billing ed), text_ed.
    split; [by apply (canUse_read gs)|]. split; [unfold effectiveExpr; cbn; by rewrite Hsplit, Hb|].
    rewrite !decide_True by done. split; [done|]. by rewrite <- Hsame at 1. }
  split; [done|]. split; [|split; [by repeat split|done]].
  unfold handleModeChange. cbn [te_raw text_ed set_state]. rewrite Hsplit. cbn [mbind outcome_bind billingExpr requestRuleExpr].
  rewrite read_printed, groups_or_none_read by done. cbn [mbind outcome_bind]. rewrite <- Hr. unfold text_ed.
  by destruct ed.
Qed.

(** The sample price, open and at rest. *)
Definition sample_editor : TieredPricingEditor :=
  let B := generateExprFromVisualConfig (Some sample_config) in
  let R := buildRequestRuleExpr sample_groups in
  visual_editor (js "m") sample_config R (combineBillingExpr B R) sample_groups false (Some (B, R)) (Some (js "m")).

Lemma mode_switch_roundtrip_witness :
  ∃ text_ed ed', handleModeChange RawMode sample_editor = Ret text_ed
    ∧ te_raw text_ed = saved_expression sample_editor ∧ settled text_ed
    ∧ saved_expression text_ed = saved_expression sample_editor
    ∧ handleModeChange VisualMode text_ed = Ret ed' ∧ shows sample_config sample_groups ed'
    ∧ saved_expression ed' = saved_expression sample_editor.
Proof.
  apply (mode_switch_roundtrip sample_config sample_groups sample_editor); [vm_compute; reflexivity|vm_compute; reflexivity| |].
  - repeat split.
  - unfold settled. vm_compute. reflexivity.
Defined.

(** ** Evaluations *)

Definition rounds (n : nat) (o : outcome TieredPricingEditor) : outcome TieredPricingEditor := o ≫= flushes n.

(** The first change of the text of an opened price ends in the visual editor;
    when it changes the rules too, the change of the tiers is undone. *)
Example text_edit_leaves_text_mode :
  (λ ed, (te_mode ed, te_billing ed)) <$>
    rounds 5 (handleModeChange RawMode sample_editor
      ≫= handleRawChange (combineBillingExpr (unq "tier('base', p * 9 + c * 4)") (te_rules sample_editor)))
  = Ret (VisualMode, unq "tier('base', p * 9 + c * 4)")
  ∧ (λ ed, (te_mode ed, te_rules ed, bool_decide (te_billing ed = te_billing sample_editor))) <$>
    rounds 5 (handleModeChange RawMode sample_editor ≫= handleRawChange (unq "tier('base', p * 9 + c * 4)"))
  = Ret (VisualMode, [], true).
Proof. split; by_eval. Qed.

(** A malformed number in a lone tier is read as no number and saved as zero. *)
Example malformed_number_zeroed :
  saved_expression <$> rounds 5 (open_expression (js "m") (unq "tier('base', p * 1.5.2 + c * 4)"))
  = Ret (unq "tier('base', p * 0 + c * 4)").
Proof. by_eval. Qed.

(** Every preset is readable, and its rules are read back as they are. *)
Example presets_readable :
  forallb (λ p, match tryParseVisualConfig (pr_expr p), tryParseRequestRuleExpr (buildRequestRuleExpr (pr_requestRules p)) with
                | Some _, Ret (Some gs) => bool_decide (gs = pr_requestRules p)
                | _, _ => false
                end) (concat (map snd PRESET_GROUPS)) = true.
Proof. by_eval. Qed.
