(* ===== verification/ModelPricing.v ===== *)
(** * Model prices: the editor panel

    Model of [features/system-settings/models/pricing-format.ts],
    [video-token-price.ts] and of the panel of [model-pricing-sheet.tsx], in
    which an operator types the prices of a model and which keeps the ratios
    the server bills with. Fields that may be absent are read as the empty
    text, as every use of them does. A record over a fixed set of keys is a
    function of the key. *)

From Stdlib Require Import String.
From stdpp Require Import functions.
From S2P Require Import JsArith JsRegex JsExec JsObject BillingExpr.

(** ** Numbers in drafts, [pricing-format.ts] *)

Definition hasValue (value : jstr) : bool := nonempty value.

Definition finite_or_null (num : jsnum) : option jsnum := if is_finite num then Some num else None.

Definition toNumberOrNull (value : jstr) : option jsnum :=
  if hasValue value then finite_or_null (number_of_string value) else None.

Definition roundToDecimals (value : jsnum) (decimals : Z) : jsnum :=
  let factor := num_of_Z (10 ^ decimals) in
  num_div (math_round (num_mul value factor)) factor.

Definition SNAP_EPSILON : jsnum := num_of_decimal false 1 (-12).
Definition NUMBER_EPSILON : jsnum := num_div (num_of_Z 1) (num_of_Z (2 ^ 52)).

(** The loop over the numbers of decimals, in their order. *)
Fixpoint snap_loop (value tolerance : jsnum) (decimals : list Z) : jsnum :=
  match decimals with
  | [] => value
  | d :: rest =>
      let rounded := roundToDecimals value d in
      if num_le (num_abs (num_sub value rounded)) tolerance then rounded else snap_loop value tolerance rest
  end.

Definition snapFloatDrift (value : jsnum) : jsnum :=
  let tolerance := num_max SNAP_EPSILON (num_mul (num_mul (num_abs value) NUMBER_EPSILON) (num_of_Z 8)) in
  snap_loop value tolerance [0; 1; 2; 3; 4; 5; 6; 7; 8].

Definition formatPricingNumber (value : jsnum) : jstr :=
  match finite_or_null value with
  | None => []
  | Some num => string_of_number (parse_float (to_fixed 12 (snapFloatDrift num)))
  end.

(** A draft: digits with an optional fraction, a fraction alone, or nothing. *)
Definition numericDraftRegex : re :=
  RBol ⋅ ropt (RGroup 1 ((rplus is_digit ⋅ ropt (RGroup 2 (lit "." ⋅ rstar is_digit))) ⊕ (lit "." ⋅ rstar is_digit))) ⋅ REol.

Definition is_numeric_draft (value : jstr) : bool := re_test numericDraftRegex value.

(** ** Video prices, [video-token-price.ts] *)

Inductive VideoTokenTierKey := Vt_default | Vt_480p | Vt_720p | Vt_1080p | Vt_4k.

#[export] Instance VideoTokenTierKey_eq_dec : EqDecision VideoTokenTierKey.
Proof. solve_decision. Defined.

Definition VIDEO_TOKEN_TIER_KEYS : list VideoTokenTierKey := [Vt_default; Vt_480p; Vt_720p; Vt_1080p; Vt_4k].

Definition video_key_name (k : VideoTokenTierKey) : string :=
  match k with
  | Vt_default => "default" | Vt_480p => "480p" | Vt_720p => "720p" | Vt_1080p => "1080p" | Vt_4k => "4k"
  end.

Record VideoTokenTierPrice := { base : jstr; with_video : jstr }.

Definition VideoTokenModelPrice : Type := VideoTokenTierKey → VideoTokenTierPrice.

Definition emptyVideoTokenModelPrice : VideoTokenModelPrice := λ _, {| base := []; with_video := [] |}.

Definition PRO_CARD (k : VideoTokenTierKey) : Z * Z :=
  match k with Vt_1080p => (51, 31) | Vt_4k => (26, 16) | _ => (46, 28) end.

Definition FAST_CARD (k : VideoTokenTierKey) : Z * Z := (37, 22).

Definition formatPrice (n : jsnum) : jstr :=
  if is_finite n
  then string_of_number (num_div (math_round (num_mul n (num_of_Z 10000))) (num_of_Z 10000))
  else [].

Section lower_case.
Context (toLowerCase : jstr → jstr).

Definition isSeedanceVideoModel (modelName : jstr) : bool :=
  let n := toLowerCase (trim modelName) in
  includes (js "seedance") n
  && (starts_with (js "dreamina-") n || starts_with (js "doubao-") n)
  && (includes (js "seedance-2") n || includes (js "seedance2") n).

Definition isFastTierModel (modelName : jstr) : bool :=
  let n := toLowerCase modelName in includes (js "fast") n || includes (js "mini") n.

Definition seedVideoTokenModelPrice (modelName : jstr) (inputUsdPerM : jsnum) : VideoTokenModelPrice :=
  let card := if isFastTierModel modelName then FAST_CARD else PRO_CARD in
  let baseOfficial := (card Vt_default).1 in
  let scale := if 0 <? baseOfficial then num_div inputUsdPerM (num_of_Z baseOfficial) else num_of_Z 1 in
  λ key, {| base := formatPrice (num_mul (num_of_Z (card key).1) scale);
            with_video := formatPrice (num_mul (num_of_Z (card key).2) scale) |}.
End lower_case.

(** [a ?? b], and the text of a price that may be missing *)
Definition first_price (a b : option json) : option json :=
  match a with None | Some JNull => b | _ => a end.

Definition price_text (v : option json) : jstr :=
  match v with None | Some JNull => [] | Some x => string_of_json x end.

Definition parse_video_tier (tier : option json) : VideoTokenTierPrice :=
  match tier with
  | Some (JObj t) =>
      {| base := price_text (first_price (fld t "base") (fld t "no_video"));
         with_video := price_text (first_price (fld t "with_video") (fld t "withVideo")) |}
  | _ => {| base := []; with_video := [] |}
  end.

Definition parseVideoTokenModelPrice (raw : option json) : option VideoTokenModelPrice :=
  match raw with
  | Some (JObj src) =>
      let result : VideoTokenModelPrice := λ key, parse_video_tier (fld src (video_key_name key)) in
      if existsb (λ key, nonempty (base (result key)) || nonempty (with_video (result key))) VIDEO_TOKEN_TIER_KEYS
      then Some result else None
  | _ => None
  end.

(** A price that counts: finite and above zero. *)
Definition video_price (text : jstr) : option jsnum :=
  let x := parse_float text in
  if is_finite x && num_lt (S754_zero false) x then Some x else None.

Definition serialize_tier (price : VideoTokenModelPrice) (key : VideoTokenTierKey) : option (jstr * json) :=
  let b := video_price (base (price key)) in
  let w := video_price (with_video (price key)) in
  match b, w with
  | None, None => None
  | _, _ => Some (js (video_key_name key),
                  JObj [entry "base" (JNum (default (num_of_Z 0) b)); entry "with_video" (JNum (default (num_of_Z 0) w))])
  end.

Definition serializeVideoTokenModelPrice (price : VideoTokenModelPrice) : option object :=
  match omap (serialize_tier price) VIDEO_TOKEN_TIER_KEYS with [] => None | out => Some out end.

(** A cell of the table of video prices. *)
Definition updateCell (tier : VideoTokenTierKey) (field_base : bool) (raw : jstr) (value : VideoTokenModelPrice)
    : VideoTokenModelPrice :=
  if is_numeric_draft raw
  then <[tier := if field_base then {| base := raw; with_video := with_video (value tier) |}
                 else {| base := base (value tier); with_video := raw |}]> value
  else value.

(** ** The panel, [model-pricing-sheet.tsx] *)

Inductive PricingMode := PerToken | PerRequest | TieredExpr.
Inductive LaneKey := Completion | Cache | CreateCache | Image | AudioInput | AudioOutput.
Inductive FormField :=
| F_name | F_price | F_ratio | F_cacheRatio | F_createCacheRatio | F_completionRatio
| F_imageRatio | F_audioRatio | F_audioCompletionRatio.

#[export] Instance PricingMode_eq_dec : EqDecision PricingMode.
Proof. solve_decision. Defined.
#[export] Instance LaneKey_eq_dec : EqDecision LaneKey.
Proof. solve_decision. Defined.
#[export] Instance FormField_eq_dec : EqDecision FormField.
Proof. solve_decision. Defined.

(** The keys of [laneConfigs], in order. *)
Definition laneConfigs : list LaneKey := [Completion; Cache; CreateCache; Image; AudioInput; AudioOutput].

Definition ratioFieldByLane (lane : LaneKey) : FormField :=
  match lane with
  | Completion => F_completionRatio | Cache => F_cacheRatio | CreateCache => F_createCacheRatio
  | Image => F_imageRatio | AudioInput => F_audioRatio | AudioOutput => F_audioCompletionRatio
  end.

Definition ModelPricingFormValues : Type := FormField → jstr.

Record ModelRatioData := {
  d_fields : ModelPricingFormValues;
  d_videoTokenPrice : option VideoTokenModelPrice;
  d_billingMode : PricingMode;
  d_billingExpr : jstr;
  d_requestRuleExpr : jstr;
}.

Definition ratioToBasePrice (ratio : jstr) : jstr :=
  match toNumberOrNull ratio with
  | None => []
  | Some num => formatPricingNumber (num_mul num (num_of_Z 2))
  end.

Definition deriveLanePrice (ratio denominator : jstr) : jstr :=
  match toNumberOrNull ratio, toNumberOrNull denominator with
  | Some ratioNumber, Some denominatorNumber => formatPricingNumber (num_mul ratioNumber denominatorNumber)
  | _, _ => []
  end.

Record LaneState := {
  ls_promptPrice : jstr;
  ls_prices : LaneKey → jstr;
  ls_enabled : LaneKey → bool;
}.

Definition createInitialLaneState (data : option ModelRatioData) : LaneState :=
  match data with
  | None => {| ls_promptPrice := []; ls_prices := λ _, []; ls_enabled := λ _, false |}
  | Some d =>
      let promptPrice := ratioToBasePrice (d_fields d F_ratio) in
      let audioInputPrice := deriveLanePrice (d_fields d F_audioRatio) promptPrice in
      {| ls_promptPrice := promptPrice;
         ls_prices := λ lane,
           match lane with
           | AudioInput => audioInputPrice
           | AudioOutput => deriveLanePrice (d_fields d F_audioCompletionRatio) audioInputPrice
           | _ => deriveLanePrice (d_fields d (ratioFieldByLane lane)) promptPrice
           end;
         ls_enabled := λ lane, hasValue (d_fields d (ratioFieldByLane lane)) |}
  end.

Record PricingPanel := {
  pp_editData : option ModelRatioData;
  pp_pricingMode : PricingMode;
  pp_promptPrice : jstr;
  pp_lanePrices : LaneKey → jstr;
  pp_laneEnabled : LaneKey → bool;
  pp_videoTokenTiers : VideoTokenModelPrice;
  pp_billingExpr : jstr;
  pp_requestRuleExpr : jstr;
  pp_form : ModelPricingFormValues;
}.

Definition set_form (form : ModelPricingFormValues) (p : PricingPanel) : PricingPanel :=
  {| pp_editData := pp_editData p; pp_pricingMode := pp_pricingMode p; pp_promptPrice := pp_promptPrice p;
     pp_lanePrices := pp_lanePrices p; pp_laneEnabled := pp_laneEnabled p;
     pp_videoTokenTiers := pp_videoTokenTiers p; pp_billingExpr := pp_billingExpr p;
     pp_requestRuleExpr := pp_requestRuleExpr p; pp_form := form |}.

Definition set_prices (promptPrice : jstr) (prices : LaneKey → jstr) (enabled : LaneKey → bool)
    (form : ModelPricingFormValues) (p : PricingPanel) : PricingPanel :=
  {| pp_editData := pp_editData p; pp_pricingMode := pp_pricingMode p; pp_promptPrice := promptPrice;
     pp_lanePrices := prices; pp_laneEnabled := enabled;
     pp_videoTokenTiers := pp_videoTokenTiers p; pp_billingExpr := pp_billingExpr p;
     pp_requestRuleExpr := pp_requestRuleExpr p; pp_form := form |}.

Definition set_exprs (mode : PricingMode) (tiers : VideoTokenModelPrice) (billingExpr requestRuleExpr : jstr)
    (p : PricingPanel) : PricingPanel :=
  {| pp_editData := pp_editData p; pp_pricingMode := mode; pp_promptPrice := pp_promptPrice p;
     pp_lanePrices := pp_lanePrices p; pp_laneEnabled := pp_laneEnabled p;
     pp_videoTokenTiers := tiers; pp_billingExpr := billingExpr;
     pp_requestRuleExpr := requestRuleExpr; pp_form := pp_form p |}.

(** *** Ratios of the prices *)

Definition deriveLaneRatio (lane : LaneKey) (price promptPrice : jstr) (lanePrices : LaneKey → jstr) : jstr :=
  match toNumberOrNull price with
  | None => []
  | Some priceNumber =>
      let denominator := match lane with AudioOutput => lanePrices AudioInput | _ => promptPrice end in
      match toNumberOrNull denominator with
      | None => []
      | Some d => if num_eq d (num_of_Z 0) then [] else formatPricingNumber (num_div priceNumber d)
      end
  end.

Definition inputRatio (promptPrice : jstr) : jstr :=
  match toNumberOrNull promptPrice with
  | Some inputPrice => formatPricingNumber (num_div inputPrice (num_of_Z 2))
  | None => []
  end.

Definition laneRatio (lane : LaneKey) (promptPrice : jstr) (prices : LaneKey → jstr) (enabled : LaneKey → bool) : jstr :=
  if enabled lane then deriveLaneRatio lane (prices lane) promptPrice prices else [].

Definition syncLaneRatios (promptPrice : jstr) (prices : LaneKey → jstr) (enabled : LaneKey → bool)
    (form : ModelPricingFormValues) : ModelPricingFormValues :=
  foldl (λ form lane, <[ratioFieldByLane lane := laneRatio lane promptPrice prices enabled]> form)
    (<[F_ratio := inputRatio promptPrice]> form) laneConfigs.

(** *** Events *)

Definition handlePromptPriceChange (value : jstr) (p : PricingPanel) : PricingPanel :=
  if is_numeric_draft value
  then set_prices value (pp_lanePrices p) (pp_laneEnabled p)
         (syncLaneRatios value (pp_lanePrices p) (pp_laneEnabled p) (pp_form p)) p
  else p.

Definition handleLanePriceChange (lane : LaneKey) (value : jstr) (p : PricingPanel) : PricingPanel :=
  if is_numeric_draft value
  then
    let nextLanePrices := <[lane := value]> (pp_lanePrices p) in
    let form1 := if pp_laneEnabled p lane
                 then <[ratioFieldByLane lane := deriveLaneRatio lane value (pp_promptPrice p) nextLanePrices]> (pp_form p)
                 else pp_form p in
    let form2 := if decide (lane = AudioInput)
                 then if pp_laneEnabled p AudioOutput
                      then <[F_audioCompletionRatio :=
                               deriveLaneRatio AudioOutput (nextLanePrices AudioOutput) (pp_promptPrice p) nextLanePrices]> form1
                      else form1
                 else form1 in
    set_prices (pp_promptPrice p) nextLanePrices (pp_laneEnabled p) form2 p
  else p.

Definition handleLaneToggle (lane : LaneKey) (checked : bool) (p : PricingPanel) : PricingPanel :=
  let nextEnabled := <[lane := checked]> (pp_laneEnabled p) in
  if checked
  then
    set_prices (pp_promptPrice p) (pp_lanePrices p) nextEnabled
      (<[ratioFieldByLane lane :=
           deriveLaneRatio lane (pp_lanePrices p lane) (pp_promptPrice p) (pp_lanePrices p)]> (pp_form p)) p
  else
    let nextPrices := <[lane := []]> (pp_lanePrices p) in
    let form1 := <[ratioFieldByLane lane := []]> (pp_form p) in
    if decide (lane = AudioInput)
    then set_prices (pp_promptPrice p) (<[AudioOutput := []]> nextPrices) (<[AudioOutput := false]> nextEnabled)
           (<[F_audioCompletionRatio := []]> form1) p
    else set_prices (pp_promptPrice p) nextPrices nextEnabled form1 p.

Definition handlePricingModeChange (nextMode : PricingMode) (p : PricingPanel) : PricingPanel :=
  let expr := match nextMode, pp_billingExpr p with
              | TieredExpr, [] => js "tier(" ++ c_quote :: js "base" ++ c_quote :: js ", p * 0 + c * 0)"
              | _, e => e
              end in
  set_exprs nextMode (pp_videoTokenTiers p) expr (pp_requestRuleExpr p) p.

Definition handleFixedPriceChange (value : jstr) (p : PricingPanel) : PricingPanel :=
  if is_numeric_draft value then set_form (<[F_price := value]> (pp_form p)) p else p.

(** The switch of a lane, and its price, cannot be used. *)
Definition lane_disabled (lane : LaneKey) (p : PricingPanel) : bool :=
  bool_decide (lane = AudioOutput) && (negb (pp_laneEnabled p AudioInput) || negb (hasValue (pp_lanePrices p AudioInput))).

(** Lanes with a price while the input price is no number. *)
Definition missing_input_price (p : PricingPanel) : bool :=
  bool_decide (pp_pricingMode p = PerToken)
  && match toNumberOrNull (pp_promptPrice p) with None => true | Some _ => false end
  && existsb (λ lane, pp_laneEnabled p lane && hasValue (pp_lanePrices p lane)) laneConfigs.

Definition missing_audio_price (p : PricingPanel) : bool :=
  bool_decide (pp_pricingMode p = PerToken) && pp_laneEnabled p AudioOutput && negb (hasValue (pp_lanePrices p AudioInput)).

Definition hasConflict (p : PricingPanel) : bool :=
  match pp_editData p with
  | None => false
  | Some d => hasValue (d_fields d F_price)
              && existsb (λ f, hasValue (d_fields d f))
                   [F_ratio; F_completionRatio; F_cacheRatio; F_createCacheRatio; F_imageRatio; F_audioRatio; F_audioCompletionRatio]
  end.

Definition warnings (p : PricingPanel) : list jstr :=
  (if hasConflict p
   then [js "This model has both fixed-price and token-price settings. Saving the current mode will rewrite the conflicting fields."]
   else [])
  ++ (if missing_input_price p then [js "Input price is required before saving dependent prices."] else [])
  ++ (if missing_audio_price p then [js "Audio output price requires an audio input price."] else []).

Inductive submission := Refused (field : FormField) | Submitted (data : ModelRatioData).

Section panel.
Context (toLowerCase : jstr → jstr).

(** The effect that fills the panel for a model, or for a new one. *)
Definition open_panel (editData : option ModelRatioData) : PricingPanel :=
  let lanes := createInitialLaneState editData in
  {| pp_editData := editData;
     pp_pricingMode :=
       match editData with
       | None => PerToken
       | Some d => if decide (d_billingMode d = TieredExpr) then TieredExpr
                   else if hasValue (d_fields d F_price) then PerRequest else PerToken
       end;
     pp_promptPrice := ls_promptPrice lanes;
     pp_lanePrices := ls_prices lanes;
     pp_laneEnabled := ls_enabled lanes;
     pp_videoTokenTiers :=
       match editData with
       | None => emptyVideoTokenModelPrice
       | Some d => if isSeedanceVideoModel toLowerCase (d_fields d F_name)
                   then default emptyVideoTokenModelPrice (d_videoTokenPrice d) else emptyVideoTokenModelPrice
       end;
     pp_billingExpr := match editData with None => [] | Some d => d_billingExpr d end;
     pp_requestRuleExpr := match editData with None => [] | Some d => d_requestRuleExpr d end;
     pp_form := match editData with None => λ _, [] | Some d => d_fields d end |}.

(** What a submit saves, after the form's own check that there is a name. *)
Definition handleSubmit (p : PricingPanel) : submission :=
  if missing_input_price p then Refused F_ratio
  else if missing_audio_price p then Refused F_audioRatio
  else
    let name := trim (pp_form p F_name) in
    let tiered := bool_decide (pp_pricingMode p = TieredExpr) in
    Submitted
      {| d_fields := <[F_name := name]> (pp_form p);
         d_videoTokenPrice := if isSeedanceVideoModel toLowerCase name then Some (pp_videoTokenTiers p) else None;
         d_billingMode := pp_pricingMode p;
         d_billingExpr := if tiered then pp_billingExpr p else [];
         d_requestRuleExpr := if tiered then pp_requestRuleExpr p else [] |}.

Definition submit (p : PricingPanel) : submission :=
  if nonempty (pp_form p F_name) then handleSubmit p else Refused F_name.
End panel.

(** What the operator can do in the panel. *)
Inductive panel_step : PricingPanel → PricingPanel → Prop :=
| step_prompt_price value p : panel_step p (handlePromptPriceChange value p)
| step_lane_price lane value p :
    lane_disabled lane p = false → pp_laneEnabled p lane = true → panel_step p (handleLanePriceChange lane value p)
| step_lane_toggle lane checked p : lane_disabled lane p = false → panel_step p (handleLaneToggle lane checked p)
| step_mode mode p : panel_step p (handlePricingModeChange mode p)
| step_fixed_price value p : panel_step p (handleFixedPriceChange value p)
| step_name value p : pp_editData p = None → panel_step p (set_form (<[F_name := value]> (pp_form p)) p)
| step_exprs tiers billing rules p : panel_step p (set_exprs (pp_pricingMode p) tiers billing rules p).
