(* ===== verification/ModelPricingTable.v ===== *)
(** * Model prices: the table and the stored settings

    Model of [features/system-settings/models/model-ratio-visual-editor.tsx].
    The server keeps a price as entries of eleven JSON objects, each a setting
    with the model names as keys. The table shows a row per name; saving and
    deleting rewrite the settings. A setting's text is a JSON object, or is
    unreadable and counts as the empty one; texts of other JSON values are
    outside the model ([read_setting] is [None]), and so are model names that
    are members of every object. *)

From Stdlib Require Import String.
From stdpp Require Import functions.
From S2P Require Import JsArith JsonText JsObject BillingExpr ModelPricing.

(** ** The settings *)

Inductive Setting :=
| ModelPrice | ModelRatio | CacheRatio | CreateCacheRatio | CompletionRatio | ImageRatio
| AudioRatio | AudioCompletionRatio | VideoTokenPrice | BillingMode | BillingExpr.

#[export] Instance Setting_eq_dec : EqDecision Setting.
Proof. solve_decision. Defined.

Definition SETTINGS : list Setting :=
  [ModelPrice; ModelRatio; CacheRatio; CreateCacheRatio; CompletionRatio; ImageRatio;
   AudioRatio; AudioCompletionRatio; VideoTokenPrice; BillingMode; BillingExpr].

Definition Settings : Type := Setting → object.

(** [safeJsonParse(value, {fallback: {}})] *)
Definition read_setting (value : jstr) : option object :=
  match trim value with
  | [] => Some []
  | t => match json_parse t with
         | None => Some []
         | Some (JObj o) => Some o
         | Some _ => None
         end
  end.

Definition stringify_settings (maps : Settings) : Setting → jstr := λ s, json_stringify_2 (JObj (maps s)).

(** The settings that hold a number, with the field of the form they hold. *)
Definition ratio_settings : list (Setting * FormField) :=
  [(ModelRatio, F_ratio); (CacheRatio, F_cacheRatio); (CreateCacheRatio, F_createCacheRatio);
   (CompletionRatio, F_completionRatio); (ImageRatio, F_imageRatio); (AudioRatio, F_audioRatio);
   (AudioCompletionRatio, F_audioCompletionRatio)].

(** ** Rows *)

Record ModelRow := {
  r_fields : ModelPricingFormValues;
  r_videoTokenPrice : option VideoTokenModelPrice;
  r_billingMode : PricingMode;
  r_billingExpr : jstr;
  r_requestRuleExpr : jstr;
  r_hasConflict : bool;
}.

(** The names with an entry, in the order of the settings. *)
Definition model_names (maps : Settings) : list jstr := js_set (concat (map (λ s, own_keys (maps s)) SETTINGS)).

(** [map[name]?.toString() || ''] *)
Definition number_text (o : object) (name : jstr) : jstr := price_text (obj_get o name).

Definition row_fields (maps : Settings) (name : jstr) : ModelPricingFormValues := λ f,
  match f with
  | F_name => name
  | F_price => number_text (maps ModelPrice) name
  | F_ratio => number_text (maps ModelRatio) name
  | F_cacheRatio => number_text (maps CacheRatio) name
  | F_createCacheRatio => number_text (maps CreateCacheRatio) name
  | F_completionRatio => number_text (maps CompletionRatio) name
  | F_imageRatio => number_text (maps ImageRatio) name
  | F_audioRatio => number_text (maps AudioRatio) name
  | F_audioCompletionRatio => number_text (maps AudioCompletionRatio) name
  end.

(** [billingExprMap[name] || '']; splitting a value that is no text throws. *)
Definition full_expr (o : object) (name : jstr) : outcome jstr :=
  match or_ (obj_get o name) (JStr []) with JStr e => Ret e | _ => Throw end.

Definition model_row (maps : Settings) (name : jstr) : outcome ModelRow :=
  let fields := row_fields maps name in
  let video := parseVideoTokenModelPrice (obj_get (maps VideoTokenPrice) name) in
  if is_str (obj_get (maps BillingMode) name) (js "tiered_expr")
  then
    e ← full_expr (maps BillingExpr) name;
    split ← splitBillingExprAndRequestRules e;
    Ret {| r_fields := fields; r_videoTokenPrice := video; r_billingMode := TieredExpr;
           r_billingExpr := billingExpr split; r_requestRuleExpr := requestRuleExpr split; r_hasConflict := false |}
  else
    let priced := nonempty (fields F_price) in
    Ret {| r_fields := fields; r_videoTokenPrice := video;
           r_billingMode := if priced then PerRequest else PerToken;
           r_billingExpr := []; r_requestRuleExpr := [];
           r_hasConflict := priced && existsb (λ e, nonempty (fields e.2)) ratio_settings |}.

Fixpoint model_rows_of (maps : Settings) (names : list jstr) : outcome (list ModelRow) :=
  match names with
  | [] => Ret []
  | name :: rest => row ← model_row maps name; rows ← model_rows_of maps rest; Ret (row :: rows)
  end.

(** The rows by name, [localeCompare] being the locale's. *)
Definition models (localeCompare : jstr → jstr → Z) (maps : Settings) : outcome (list ModelRow) :=
  rows ← model_rows_of maps (model_names maps);
  Ret (stable_sort (λ a b, localeCompare (r_fields a F_name) (r_fields b F_name) <=? 0) rows).

(** How many rows each filter option counts. *)
Definition modeCounts (rows : list ModelRow) (mode : PricingMode) : Z :=
  Z.of_nat (length (filterb (λ r, bool_decide (r_billingMode r = mode)) rows)).

Definition handleEdit (row : ModelRow) : ModelRatioData :=
  {| d_fields := r_fields row; d_videoTokenPrice := r_videoTokenPrice row;
     d_billingMode := if decide (r_billingMode row = TieredExpr) then TieredExpr
                      else if nonempty (r_fields row F_price) then PerRequest else PerToken;
     d_billingExpr := r_billingExpr row; d_requestRuleExpr := r_requestRuleExpr row |}.

(** ** Saving and deleting *)

Definition delete_model (name : jstr) (maps : Settings) : Settings := λ s, obj_delete (maps s) name.

Definition handleDelete (name : jstr) (maps : Settings) : Settings := delete_model name maps.

Definition setIfPresent (target : object) (name value : jstr) : object :=
  if nonempty value
  then let parsed := parse_float value in
       if is_finite parsed then obj_set target name (JNum parsed) else target
  else target.

Definition set_number (data : ModelRatioData) (name : jstr) (maps : Settings) (e : Setting * FormField) : Settings :=
  <[e.1 := setIfPresent (maps e.1) name (d_fields data e.2)]> maps.

Definition set_expression (data : ModelRatioData) (name : jstr) (maps : Settings) : Settings :=
  match combineBillingExpr (d_billingExpr data) (d_requestRuleExpr data) with
  | [] => maps
  | combined => <[BillingExpr := obj_set (maps BillingExpr) name (JStr combined)]>
                  (<[BillingMode := obj_set (maps BillingMode) name (str "tiered_expr")]> maps)
  end.

Definition set_video (data : ModelRatioData) (name : jstr) (maps : Settings) : Settings :=
  match d_videoTokenPrice data ≫= serializeVideoTokenModelPrice with
  | None => maps
  | Some out => <[VideoTokenPrice := obj_set (maps VideoTokenPrice) name (JObj out)]> maps
  end.

(** One target of a save. *)
Definition persist_target (data : ModelRatioData) (maps : Settings) (name : jstr) : Settings :=
  let maps := delete_model name maps in
  let maps :=
    match d_billingMode data with
    | TieredExpr => foldl (set_number data name) (set_expression data name maps) ((ModelPrice, F_price) :: ratio_settings)
    | _ => if nonempty (d_fields data F_price)
           then set_number data name maps (ModelPrice, F_price)
           else foldl (set_number data name) maps ratio_settings
    end in
  set_video data name maps.

Definition persistPricingData (data : ModelRatioData) (targetNames : list jstr) (maps : Settings) : Settings :=
  foldl (persist_target data) maps targetNames.

(** ** The editor: its texts, and the model that is open in the panel *)

Record VisualEditor := {
  ve_texts : Setting → jstr;
  ve_editData : option ModelRatioData;
  ve_editorOpen : bool;
}.

(** The texts of the settings as objects; [None] outside the model. *)
Definition read_settings (texts : Setting → jstr) : option Settings :=
  if forallb (λ s, bool_decide (is_Some (read_setting (texts s)))) SETTINGS
  then Some (λ s, default [] (read_setting (texts s))) else None.

Definition rewrite_settings (f : Settings → Settings) (texts : Setting → jstr) : option (Setting → jstr) :=
  maps ← read_settings texts; Some (stringify_settings (f maps)).

Definition handleAdd (ve : VisualEditor) : VisualEditor :=
  {| ve_texts := ve_texts ve; ve_editData := None; ve_editorOpen := true |}.

Definition handleCancel (ve : VisualEditor) : VisualEditor :=
  {| ve_texts := ve_texts ve; ve_editData := None; ve_editorOpen := false |}.

Definition handleRowEdit (row : ModelRow) (ve : VisualEditor) : VisualEditor :=
  {| ve_texts := ve_texts ve; ve_editData := Some (handleEdit row); ve_editorOpen := true |}.

(** Saving from the panel, which then resets its form and cancels. *)
Definition handleSave (data : ModelRatioData) (ve : VisualEditor) : option VisualEditor :=
  texts ← rewrite_settings (persistPricingData data [d_fields data F_name]) (ve_texts ve);
  Some (handleCancel {| ve_texts := texts; ve_editData := Some data; ve_editorOpen := true |}).

Definition handleRowDelete (name : jstr) (ve : VisualEditor) : option VisualEditor :=
  texts ← rewrite_settings (handleDelete name) (ve_texts ve);
  Some {| ve_texts := texts; ve_editData := ve_editData ve; ve_editorOpen := ve_editorOpen ve |}.

(** Copying the open model's prices to the selected rows. *)
Definition handleBatchCopy (selected : list jstr) (ve : VisualEditor) : option VisualEditor :=
  match ve_editData ve, selected with
  | Some data, _ :: _ =>
      texts ← rewrite_settings (persistPricingData data selected) (ve_texts ve);
      Some {| ve_texts := texts; ve_editData := ve_editData ve; ve_editorOpen := ve_editorOpen ve |}
  | _, _ => Some ve
  end.
