(* ===== verification/ModelPricingTableProps.v ===== *)
(** * Model prices: what is stored, and what a stored price opens as

    Lookups in the settings after a save, the settings as texts, the row
    and the panel of a model whose prices were saved, and the invariant of the panel. *)

From Stdlib Require Import String.
From stdpp Require Import functions.
From S2P Require Import JsonText JsObject JsArith BillingExpr ModelPricing ModelPricingTable.

#[local] Opaque js string_of_number number_of_string parse_float formatPricingNumber.

(** ** The entries of a save *)

(** The number a field is stored as, and the entry of each setting. *)
Definition stored_number (value : jstr) : option json :=
  if nonempty value
  then let x := parse_float value in if is_finite x then Some (JNum x) else None
  else None.

(** The field a setting holds the number of. *)
Definition number_field (s : Setting) : option FormField :=
  match s with
  | ModelPrice => Some F_price | ModelRatio => Some F_ratio | CacheRatio => Some F_cacheRatio
  | CreateCacheRatio => Some F_createCacheRatio | CompletionRatio => Some F_completionRatio
  | ImageRatio => Some F_imageRatio | AudioRatio => Some F_audioRatio
  | AudioCompletionRatio => Some F_audioCompletionRatio
  | VideoTokenPrice | BillingMode | BillingExpr => None
  end.

(** A price per request leaves no ratios. *)
Definition keeps_ratios (d : ModelRatioData) : bool :=
  bool_decide (d_billingMode d = TieredExpr) || negb (nonempty (d_fields d F_price)).

Definition stored_entry (d : ModelRatioData) (s : Setting) : option json :=
  let combined := combineBillingExpr (d_billingExpr d) (d_requestRuleExpr d) in
  let tiered := bool_decide (d_billingMode d = TieredExpr) && nonempty combined in
  match s with
  | ModelPrice => stored_number (d_fields d F_price)
  | VideoTokenPrice => JObj <$> (d_videoTokenPrice d ≫= serializeVideoTokenModelPrice)
  | BillingMode => if tiered then Some (str "tiered_expr") else None
  | BillingExpr => if tiered then Some (JStr combined) else None
  | _ => if keeps_ratios d then number_field s ≫= λ f, stored_number (d_fields d f) else None
  end.

Definition set_entry (o : object) (name : jstr) (v : option json) : object :=
  match v with Some x => obj_set o name x | None => o end.

Lemma setIfPresent_entry o name value : setIfPresent o name value = set_entry o name (stored_number value).
Proof. unfold setIfPresent, stored_number. destruct (nonempty value); [|done]. cbv zeta. by case_match. Qed.

Lemma set_video_at d name maps s :
  set_video d name maps s =
  if decide (s = VideoTokenPrice) then set_entry (maps s) name (stored_entry d VideoTokenPrice) else maps s.
Proof.
  unfold set_video, stored_entry. cbv zeta. destruct (d_videoTokenPrice d ≫= _) as [out|]; cbn [fmap option_fmap option_map set_entry].
  - by destruct s.
  - by destruct (decide _).
Qed.

Lemma persist_target_at d maps name s :
  persist_target d maps name s = set_entry (obj_delete (maps s) name) name (stored_entry d s).
Proof.
  unfold persist_target. rewrite set_video_at. unfold delete_model.
  destruct (d_billingMode d) eqn:Hm.
  1,2: unfold stored_entry, keeps_ratios; rewrite Hm, bool_decide_eq_false_2 by done; cbn [andb orb];
       destruct (nonempty (d_fields d F_price)) eqn:Hp; cbn [negb foldl ratio_settings];
       destruct s; cbn [number_field mbind option_bind]; try done; try apply setIfPresent_entry;
       unfold stored_number; by rewrite Hp.
  unfold set_expression, stored_entry, keeps_ratios. rewrite Hm, bool_decide_eq_true_2 by done. cbn [andb orb].
  destruct (combineBillingExpr _ _) as [|c u]; cbn [nonempty foldl ratio_settings];
    destruct s; cbn [number_field mbind option_bind]; try done; apply setIfPresent_entry.
Qed.

Lemma get_set_entry o name v n :
  obj_get (set_entry (obj_delete o name) name v) n = if decide (n = name) then v else obj_get o n.
Proof.
  destruct (decide (n = name)) as [->|Hne].
  - destruct v; cbn; [apply map_get_set_eq|apply map_get_delete_eq].
  - destruct v; cbn; [rewrite map_get_set_ne by done|]; by apply map_get_delete_ne.
Qed.

(** Saving to targets: every target gets the entries of the data, and every
    other model keeps its own. *)
Lemma get_persist d targets maps s n :
  obj_get (persistPricingData d targets maps s) n =
  if decide (n ∈ targets) then stored_entry d s else obj_get (maps s) n.
Proof.
  unfold persistPricingData. revert maps; induction targets as [|t targets IH]; intros maps; cbn [foldl].
  - by rewrite decide_False by by intros ?%not_elem_of_nil.
  - rewrite IH, persist_target_at, get_set_entry.
    destruct (decide (n ∈ targets)) as [Hin|Hn]; [by rewrite decide_True by by right|].
    destruct (decide (n = t)) as [->|Hne]; [by rewrite decide_True by by left|].
    rewrite decide_False; [done|]. by intros [?|?]%elem_of_cons.
Qed.

Lemma get_delete name maps s n : obj_get (handleDelete name maps s) n = if decide (n = name) then None else obj_get (maps s) n.
Proof.
  unfold handleDelete, delete_model. rewrite map_get_delete. destruct (decide (name = n)) as [->|]; [by rewrite decide_True|].
  by rewrite decide_False by done.
Qed.

(** ** The settings as texts *)

Definition settings_safe (maps : Settings) : Prop := ∀ s, json_safeb (JObj (maps s)) = true.

Definition plain_name (n : jstr) : bool := negb (is_index_key n) && forallb code_unitb n.

Definition data_safe (d : ModelRatioData) : bool :=
  forallb (λ s, match stored_entry d s with Some v => json_safeb v | None => true end) SETTINGS.

Lemma elem_of_SETTINGS s : s ∈ SETTINGS.
Proof. apply (bool_decide_unpack _). by destruct s. Qed.

Lemma data_safe_entry d s v : data_safe d = true → stored_entry d s = Some v → json_safeb v = true.
Proof.
  unfold data_safe. rewrite forallb_forall. intros H E. specialize (H s (proj1 (list_elem_of_In _ _) (elem_of_SETTINGS s))).
  cbn in H. by rewrite E in H.
Qed.

Lemma safe_delete o name : json_safeb (JObj o) = true → json_safeb (JObj (obj_delete o name)) = true.
Proof.
  cbn. rewrite !andb_true_iff, !bool_decide_eq_true, !forallb_forall. intros [Hnd Ha]. split.
  - by apply (map_delete_well_keyed o name).
  - intros e He. apply Ha. unfold obj_delete, map_delete, filterb in He. by apply filter_In in He as [He _].
Qed.

Lemma safe_set_entry o name v :
  json_safeb (JObj o) = true → plain_name name = true → (∀ x, v = Some x → json_safeb x = true) →
  json_safeb (JObj (set_entry (obj_delete o name) name v)) = true.
Proof.
  intros Ho%(safe_delete o name) Hn Hv. destruct v as [x|]; cbn [set_entry]; [|done].
  rewrite map_set_fresh by by apply map_get_None, map_get_delete_eq.
  cbn in Ho |- *. apply andb_true_iff in Ho as [Hnd Ha].
  rewrite bool_decide_eq_true in Hnd. unfold plain_name in Hn. rewrite forallb_app, Ha. cbn [forallb fst snd].
  rewrite Hn, (Hv x) by done. rewrite andb_true_r. apply bool_decide_eq_true.
  rewrite map_app. cbn. apply NoDup_app. split; [done|]. split; [|apply NoDup_singleton].
  intros k Hk ->%list_elem_of_singleton. revert Hk. apply map_get_None, map_get_delete_eq.
Qed.

Lemma safe_persist d targets maps :
  settings_safe maps → data_safe d = true → Forall (λ n, plain_name n = true) targets →
  settings_safe (persistPricingData d targets maps).
Proof.
  intros Hm Hd Ht. unfold persistPricingData. revert maps Hm. induction Ht as [|n targets Hn _ IH]; intros maps Hm; [done|].
  cbn [foldl]. apply IH. intros s. rewrite persist_target_at. apply safe_set_entry; [apply Hm|done|].
  intros x. by apply data_safe_entry.
Qed.

Lemma read_stringify maps s : settings_safe maps → read_setting (stringify_settings maps s) = Some (maps s).
Proof.
  intros Hm. pose proof (json_safeb_ok _ (Hm s)) as Hs. unfold read_setting, stringify_settings, json_stringify_2.
  rewrite trim_no_edge by by apply json_print_edges. pose proof (json_parse_print 2 _ Hs) as Hp.
  destruct (json_print 2 0 (JObj (maps s))); [by rewrite json_parse_nil in Hp|]. by rewrite Hp.
Qed.

Lemma read_stringify_all maps :
  settings_safe maps → ∃ maps', read_settings (stringify_settings maps) = Some maps' ∧ ∀ s, maps' s = maps s.
Proof.
  intros Hm. unfold read_settings.
  assert (forallb (λ s, bool_decide (is_Some (read_setting (stringify_settings maps s)))) SETTINGS = true) as ->.
  { apply forallb_forall. intros s _. apply bool_decide_eq_true. exists (maps s). by apply read_stringify. }
  eexists. split; [done|]. intros s. cbv beta. by rewrite (read_stringify maps s Hm).
Qed.

(** ** Properties of the panel

    The invariant that ties the ratios of the form to the prices shown, as the
    operator edits, and what a submit makes of the form. *)

#[local] Opaque js string_of_number number_of_string formatPricingNumber.

(** ** Ratios and prices *)

Lemma ratioFieldByLane_inj a b : ratioFieldByLane a = ratioFieldByLane b → a = b.
Proof. by destruct a, b. Qed.

Lemma ratioFieldByLane_ratio lane : ratioFieldByLane lane ≠ F_ratio.
Proof. by destruct lane. Qed.

(** Fields that were set, on the type of forms. *)
Lemma form_set (form : ModelPricingFormValues) f t : <[f := t]> form f = t.
Proof. apply fn_lookup_insert. Qed.

Lemma form_set_ne (form : ModelPricingFormValues) f f' t : f ≠ f' → <[f := t]> form f' = form f'.
Proof. apply fn_lookup_insert_ne. Qed.

(** The lane with its ratio: what the form is to hold for it. *)
Definition derived (p : PricingPanel) (lane : LaneKey) : jstr :=
  laneRatio lane (pp_promptPrice p) (pp_lanePrices p) (pp_laneEnabled p).

(** Every ratio of the form is the one of the prices shown. *)
Definition synced (p : PricingPanel) : Prop :=
  pp_form p F_ratio = inputRatio (pp_promptPrice p) ∧ ∀ lane, pp_form p (ratioFieldByLane lane) = derived p lane.

(** Every ratio of the form is so, or is one of [form]. *)
Definition synced_or (form : ModelPricingFormValues) (p : PricingPanel) : Prop :=
  (pp_form p F_ratio = form F_ratio ∨ pp_form p F_ratio = inputRatio (pp_promptPrice p))
  ∧ ∀ lane, pp_form p (ratioFieldByLane lane) = form (ratioFieldByLane lane) ∨ pp_form p (ratioFieldByLane lane) = derived p lane.

(** A switched-off lane has no price. *)
Definition tidy (p : PricingPanel) : Prop := ∀ lane, pp_laneEnabled p lane = false → pp_lanePrices p lane = [].

(** Audio output is not on without audio input. *)
Definition audio_ok (p : PricingPanel) : Prop := pp_laneEnabled p AudioOutput = true → pp_laneEnabled p AudioInput = true.

Lemma sync_ratio prompt prices enabled form : syncLaneRatios prompt prices enabled form F_ratio = inputRatio prompt.
Proof. done. Qed.

Lemma sync_lane prompt prices enabled form lane :
  syncLaneRatios prompt prices enabled form (ratioFieldByLane lane) = laneRatio lane prompt prices enabled.
Proof. by destruct lane. Qed.

Lemma prompt_synced value p : is_numeric_draft value = true → synced (handlePromptPriceChange value p).
Proof. intros Hv. unfold handlePromptPriceChange. rewrite Hv. split; [done|]. intros lane. apply sync_lane. Qed.

(** The ratio of a lane after a price changed. *)
Lemma laneRatio_price lane l value prompt prices enabled :
  lane ≠ l → (l = AudioInput → lane = AudioOutput → enabled AudioOutput = false) →
  laneRatio lane prompt (<[l := value]> prices) enabled = laneRatio lane prompt prices enabled.
Proof.
  intros Hne Ha. unfold laneRatio. destruct (enabled lane) eqn:He; [|done].
  rewrite fn_lookup_insert_ne by done. unfold deriveLaneRatio.
  destruct (toNumberOrNull (prices lane)); [|done]. destruct lane; try done.
  rewrite fn_lookup_insert_ne; [done|]. intros ->. specialize (Ha eq_refl eq_refl). congruence.
Qed.

Lemma laneRatio_enabled lane l b prompt prices enabled :
  lane ≠ l → laneRatio lane prompt prices (<[l := b]> enabled) = laneRatio lane prompt prices enabled.
Proof. intros Hne. unfold laneRatio. by rewrite fn_lookup_insert_ne. Qed.

Lemma lane_field_ne lane l t (form : ModelPricingFormValues) :
  lane ≠ l → <[ratioFieldByLane l := t]> form (ratioFieldByLane lane) = form (ratioFieldByLane lane).
Proof. intros Hne. apply form_set_ne. by intros ?%ratioFieldByLane_inj. Qed.

(** *** One event *)

(** Every event keeps what holds of each field that was derived already; the
    fields it does write are derived. *)
Definition keeps (p q : PricingPanel) : Prop :=
  (pp_form q F_ratio = pp_form p F_ratio ∧ inputRatio (pp_promptPrice q) = inputRatio (pp_promptPrice p)
   ∨ pp_form q F_ratio = inputRatio (pp_promptPrice q))
  ∧ ∀ lane, pp_form q (ratioFieldByLane lane) = pp_form p (ratioFieldByLane lane) ∧ derived q lane = derived p lane
            ∨ pp_form q (ratioFieldByLane lane) = derived q lane.

Lemma keeps_prompt value p : keeps p (handlePromptPriceChange value p).
Proof.
  destruct (is_numeric_draft value) eqn:Hv.
  - destruct (prompt_synced value p Hv) as [H1 H2]. split; [by right|]. intros lane. right. apply H2.
  - unfold handlePromptPriceChange. rewrite Hv. split; [by left|]. intros lane. by left.
Qed.

Lemma keeps_lane_price l value p : keeps p (handleLanePriceChange l value p).
Proof.
  unfold handleLanePriceChange. destruct (is_numeric_draft value); [|by split; [left|intros lane; left]].
  set (prices := <[l := value]> (pp_lanePrices p)).
  set (form1 := if pp_laneEnabled p l then _ else _).
  assert (Hl : form1 (ratioFieldByLane l) = laneRatio l (pp_promptPrice p) prices (pp_laneEnabled p)
               ∨ form1 = pp_form p ∧ pp_laneEnabled p l = false).
  { unfold form1, laneRatio, prices. destruct (pp_laneEnabled p l); [left|by right].
    by rewrite form_set, fn_lookup_insert. }
  assert (Ho : ∀ lane, lane ≠ l → form1 (ratioFieldByLane lane) = pp_form p (ratioFieldByLane lane)).
  { intros lane Hne. unfold form1. destruct (pp_laneEnabled p l); [by apply lane_field_ne|done]. }
  split.
  - left. split; [|done]. cbn. assert (form1 F_ratio = pp_form p F_ratio) as <-.
    { unfold form1. destruct (pp_laneEnabled p l); [|done]. apply form_set_ne, ratioFieldByLane_ratio. }
    destruct (decide (l = AudioInput)); [|done]. by destruct (pp_laneEnabled p AudioOutput).
  - intros lane. unfold derived. cbn [pp_form pp_promptPrice pp_lanePrices pp_laneEnabled set_prices].
    destruct (decide (lane = AudioOutput ∧ l = AudioInput)) as [[-> ->]|Hne].
    + rewrite decide_True by done. destruct (pp_laneEnabled p AudioOutput) eqn:He.
      * right. unfold laneRatio. rewrite He. apply form_set.
      * left. split; [by apply Ho|]. unfold laneRatio. by rewrite He.
    + assert (E : (if decide (l = AudioInput) then if pp_laneEnabled p AudioOutput
                   then <[F_audioCompletionRatio := deriveLaneRatio AudioOutput (prices AudioOutput) (pp_promptPrice p) prices]> form1
                   else form1 else form1) (ratioFieldByLane lane) = form1 (ratioFieldByLane lane)).
      { destruct (decide (l = AudioInput)) as [->|]; [|done]. destruct (pp_laneEnabled p AudioOutput); [|done].
        apply (lane_field_ne lane AudioOutput). intros ->. by apply Hne. }
      rewrite E. destruct (decide (lane = l)) as [->|Hl'].
      * destruct Hl as [Hl|[Hl He]]; [by right|]. left. split; [by rewrite Hl|]. unfold laneRatio. by rewrite He.
      * left. split; [by apply Ho|]. unfold prices. apply laneRatio_price; [done|]. intros -> ->. exfalso. by apply Hne.
Qed.

Lemma keeps_toggle l checked p : keeps p (handleLaneToggle l checked p).
Proof.
  unfold handleLaneToggle. destruct checked.
  - split; cbn; [left; split; [apply form_set_ne, ratioFieldByLane_ratio|done]|].
    intros lane. unfold derived. cbn [pp_form pp_promptPrice pp_lanePrices pp_laneEnabled set_prices].
    destruct (decide (lane = l)) as [->|Hne].
    + right. unfold laneRatio. by rewrite form_set, !fn_lookup_insert.
    + left. split; [by apply lane_field_ne|by apply laneRatio_enabled].
  - destruct (decide (l = AudioInput)) as [->|Ha].
    + split; [by left|]. intros lane. unfold derived.
      cbn [pp_form pp_promptPrice pp_lanePrices pp_laneEnabled set_prices]. destruct lane; try (left; by split); by right.
    + split; cbn; [left; split; [apply form_set_ne, ratioFieldByLane_ratio|done]|].
      intros lane. unfold derived. cbn [pp_form pp_promptPrice pp_lanePrices pp_laneEnabled set_prices].
      destruct (decide (lane = l)) as [->|Hne].
      * right. unfold laneRatio. by rewrite form_set, !fn_lookup_insert.
      * left. split; [by apply lane_field_ne|]. rewrite laneRatio_enabled by done. by apply laneRatio_price.
Qed.

Lemma keeps_fixed_price value p : keeps p (handleFixedPriceChange value p).
Proof. unfold handleFixedPriceChange. destruct (is_numeric_draft value); split; try (by left); intros []; by left. Qed.

Lemma keeps_step p q : panel_step p q → keeps p q.
Proof.
  destruct 1; auto using keeps_prompt, keeps_lane_price, keeps_toggle, keeps_fixed_price;
    (split; [by left|intros []; by left]).
Qed.

Lemma keeps_synced p q : keeps p q → synced p → synced q.
Proof.
  intros [K1 K2] [H1 H2]. split; [destruct K1 as [[-> ->]|]; done|].
  intros lane. destruct (K2 lane) as [[-> ->]|]; done.
Qed.

Lemma keeps_synced_or form p q : keeps p q → synced_or form p → synced_or form q.
Proof.
  intros [K1 K2] [H1 H2]. split; [destruct K1 as [[-> ->]|]; auto|].
  intros lane. destruct (K2 lane) as [[-> ->]|]; auto.
Qed.

Lemma steps_synced p q : rtc panel_step p q → synced p → synced q.
Proof. induction 1; eauto using keeps_synced, keeps_step. Qed.

Lemma steps_synced_or form p q : rtc panel_step p q → synced_or form p → synced_or form q.
Proof. induction 1; eauto using keeps_synced_or, keeps_step. Qed.

(** *** Switches *)

Lemma tidy_step p q : panel_step p q → tidy p → tidy q.
Proof.
  destruct 1 as [v p|l v p _ Hen|l checked p _| | | |]; intros Ht lane; try apply Ht.
  - unfold handlePromptPriceChange. destruct (is_numeric_draft v); apply Ht.
  - unfold handleLanePriceChange. destruct (is_numeric_draft v); [|apply Ht]. cbn. intros Hl.
    rewrite fn_lookup_insert_ne by congruence. by apply Ht.
  - unfold handleLaneToggle. destruct checked; cbn.
    + destruct (decide (l = lane)) as [->|Hne]; [by rewrite fn_lookup_insert|].
      rewrite fn_lookup_insert_ne by done. apply Ht.
    + destruct (decide (l = AudioInput)) as [->|Ha]; cbn.
      * destruct (decide (AudioOutput = lane)) as [<-|Hne]; [by rewrite !fn_lookup_insert|].
        rewrite !(fn_lookup_insert_ne _ AudioOutput) by done.
        destruct (decide (AudioInput = lane)) as [<-|Hne']; [by rewrite !fn_lookup_insert|].
        rewrite !fn_lookup_insert_ne by done. apply Ht.
      * destruct (decide (l = lane)) as [->|Hne]; [by rewrite !fn_lookup_insert|].
        rewrite !fn_lookup_insert_ne by done. apply Ht.
  - unfold handleFixedPriceChange. destruct (is_numeric_draft value); apply Ht.
Qed.

Lemma audio_step p q : panel_step p q → audio_ok p → audio_ok q.
Proof.
  destruct 1 as [v p|l v p _ Hen|l checked p Hd| | | |]; intros Ha; try exact Ha; unfold audio_ok.
  - unfold handlePromptPriceChange. destruct (is_numeric_draft v); exact Ha.
  - unfold handleLanePriceChange. destruct (is_numeric_draft v); exact Ha.
  - unfold handleLaneToggle. destruct checked; cbn.
    + destruct l; try exact Ha; [done|]. intros _. unfold lane_disabled in Hd.
      rewrite bool_decide_eq_true_2 in Hd by done. cbn in Hd.
      apply orb_false_iff in Hd as [Hd _]. by apply negb_false_iff.
    + destruct (decide (l = AudioInput)) as [->|Hne]; cbn; [done|]. by destruct l.
  - unfold handleFixedPriceChange. destruct (is_numeric_draft value); exact Ha.
Qed.

Lemma open_tidy lower data : tidy (open_panel lower data).
Proof.
  destruct data as [d|]; intros lane; cbn; [|done]. destruct lane; cbn; unfold deriveLanePrice, toNumberOrNull, hasValue;
    intros H; by rewrite H.
Qed.
