(* ===== verification/ModelPricingClaims.v ===== *)
(** * Model prices: what holds of saving and opening

    The invariant of the panel, what a save stores for which models, the round
    trip from the panel over the stored texts to the panel, and the prices
    that are lost or change on the way. *)

From Stdlib Require Import String.
From stdpp Require Import functions.
From S2P Require Import JsArith JsonText JsObject BillingExpr ModelPricing ModelPricingTableProps ModelPricingTable.

#[local] Opaque js string_of_number number_of_string parse_float formatPricingNumber.

(** ** Rows of saved entries *)

(** The field prints and reads as the number it is stored as. *)
Definition canonical_field (value : jstr) : bool :=
  negb (nonempty value)
  || number_safe (parse_float value) && bool_decide (string_of_number (parse_float value) = value).

Lemma canonical_text value : canonical_field value = true → price_text (stored_number value) = value.
Proof.
  unfold canonical_field, stored_number. destruct (nonempty value) eqn:Hn; cbn [negb orb].
  - intros [Hs%number_safe_finite Ht%bool_decide_eq_true]%andb_true_iff. cbv zeta. by rewrite Hs.
  - by destruct value.
Qed.

(** The fields of one way of pricing only, and an expression that splits into
    what it was combined from. *)
Definition one_mode (d : ModelRatioData) : Prop :=
  match d_billingMode d with
  | PerToken => d_fields d F_price = [] ∧ d_billingExpr d = [] ∧ d_requestRuleExpr d = []
  | PerRequest => d_fields d F_price ≠ [] ∧ d_billingExpr d = [] ∧ d_requestRuleExpr d = []
                  ∧ Forall (λ e : Setting * FormField, d_fields d e.2 = []) ratio_settings
  | TieredExpr =>
      let combined := combineBillingExpr (d_billingExpr d) (d_requestRuleExpr d) in
      combined ≠ [] ∧ splitBillingExprAndRequestRules combined
                      = Ret {| billingExpr := d_billingExpr d; requestRuleExpr := d_requestRuleExpr d |}
  end.

Definition shows_data (d : ModelRatioData) (row : ModelRow) : Prop :=
  (∀ f, r_fields row f = d_fields d f)
  ∧ r_billingMode row = d_billingMode d
  ∧ r_billingExpr row = d_billingExpr d ∧ r_requestRuleExpr row = d_requestRuleExpr d
  ∧ r_videoTokenPrice row = parseVideoTokenModelPrice (stored_entry d VideoTokenPrice).

Lemma ratio_settings_elem s f : number_field s = Some f → s ≠ ModelPrice → (s, f) ∈ ratio_settings.
Proof. destruct s; intros [= <-] Hne; try done; apply (bool_decide_unpack _); by_eval. Qed.

Lemma ratio_field_mode d s f :
  one_mode d → number_field s = Some f → s ≠ ModelPrice → canonical_field (d_fields d f) = true →
  price_text (stored_entry d s) = d_fields d f.
Proof.
  intros Hm Hs Hne Hc.
  assert (E : stored_entry d s = if keeps_ratios d then stored_number (d_fields d f) else None).
  { by destruct s; try done; injection Hs as <-. }
  rewrite E. unfold one_mode, keeps_ratios in *. destruct (d_billingMode d).
  - destruct Hm as [-> _]. cbn. by apply canonical_text.
  - destruct Hm as (Hp & _ & _ & Hr). apply nonempty_true in Hp as ->. cbn.
    rewrite Forall_forall in Hr. symmetry. apply (Hr (s, f)). by apply ratio_settings_elem.
  - cbn. by apply canonical_text.
Qed.

Lemma saved_fields d maps f :
  (∀ s, obj_get (maps s) (d_fields d F_name) = stored_entry d s) → one_mode d →
  (∀ f, f ≠ F_name → canonical_field (d_fields d f) = true) →
  row_fields maps (d_fields d F_name) f = d_fields d f.
Proof.
  intros Hs Hm Hc. destruct f; cbn [row_fields]; [done|..]; unfold number_text; rewrite Hs;
    [by apply canonical_text, Hc|..]; apply ratio_field_mode; try done; by apply Hc.
Qed.

Lemma saved_row d maps :
  (∀ s, obj_get (maps s) (d_fields d F_name) = stored_entry d s) → one_mode d →
  (∀ f, f ≠ F_name → canonical_field (d_fields d f) = true) →
  ∃ row, model_row maps (d_fields d F_name) = Ret row ∧ shows_data d row.
Proof.
  intros Hs Hm Hc. pose proof (λ f, saved_fields d maps f Hs Hm Hc) as Hf.
  unfold model_row, full_expr. rewrite (Hs BillingMode), (Hs BillingExpr), (Hs VideoTokenPrice).
  pose proof Hm as Hm'. unfold one_mode in Hm. destruct (d_billingMode d) eqn:Hmode.
  - destruct Hm as (Hp & He & Hr). cbn [stored_entry]. rewrite Hmode. cbn [bool_decide decide andb is_str].
    eexists. split; [done|]. unfold shows_data. cbn [r_fields r_billingMode r_billingExpr r_requestRuleExpr r_videoTokenPrice].
    rewrite Hf, Hp, Hmode, He, Hr. done.
  - destruct Hm as (Hp & He & Hr & _). cbn [stored_entry]. rewrite Hmode. cbn [bool_decide decide andb is_str].
    eexists. split; [done|]. unfold shows_data. cbn [r_fields r_billingMode r_billingExpr r_requestRuleExpr r_videoTokenPrice].
    rewrite Hf, Hmode, He, Hr. by apply nonempty_true in Hp as ->.
  - destruct Hm as [Hn Hsplit]. apply nonempty_true in Hn as Hn'. cbn [stored_entry]. rewrite Hmode, Hn'.
    rewrite bool_decide_eq_true_2 by done. cbn [andb]. unfold is_str, str.
    rewrite bool_decide_eq_true_2 by done. unfold or_. cbn [truthy].
    destruct (combineBillingExpr _ _) as [|c u] eqn:Ec; [done|]. cbn [nonempty negb mbind outcome_bind].
    rewrite Hsplit. cbn [mbind outcome_bind]. eexists. split; [done|]. unfold shows_data.
    cbn [r_fields r_billingMode r_billingExpr r_requestRuleExpr r_videoTokenPrice]. by rewrite Hmode.
Qed.

(** *** Video prices *)

(** A cell is empty or a positive price that prints and reads back; a row has
    both cells or none. *)
Definition priced_cell (value : jstr) : bool :=
  nonempty value && canonical_field value && num_lt (S754_zero false) (parse_float value).

Definition canonical_video (v : VideoTokenModelPrice) : bool :=
  forallb (λ k, negb (nonempty (base (v k))) && negb (nonempty (with_video (v k)))
                || priced_cell (base (v k)) && priced_cell (with_video (v k))) VIDEO_TOKEN_TIER_KEYS.

Lemma elem_of_video_keys k : k ∈ VIDEO_TOKEN_TIER_KEYS.
Proof. apply (bool_decide_unpack _). by destruct k. Qed.

Lemma video_key_name_inj a b : js (video_key_name a) = js (video_key_name b) → a = b.
Proof. destruct a, b; try done; intros H; exfalso; revert H; vm_compute; done. Qed.

Lemma priced_cell_price value :
  priced_cell value = true → ∃ x, video_price value = Some x ∧ string_of_number x = value.
Proof.
  unfold priced_cell, canonical_field, video_price. intros [[Hn Hc]%andb_true_iff Hpos]%andb_true_iff.
  rewrite Hn in Hc. cbn [negb orb] in Hc. apply andb_true_iff in Hc as [Hs%number_safe_finite Ht%bool_decide_eq_true].
  cbv zeta. rewrite Hs, Hpos. by eexists.
Qed.

(** [parseFloat] of the empty text is [NaN]. *)
Lemma video_price_empty : video_price [] = None.
Proof. by_eval. Qed.

Lemma serialize_tier_name v j e : serialize_tier v j = Some e → e.1 = js (video_key_name j).
Proof. unfold serialize_tier. cbv zeta. destruct (video_price _), (video_price _); by intros [= <-]. Qed.

Lemma get_serialized v ks k :
  NoDup ks →
  map_get (omap (serialize_tier v) ks) (js (video_key_name k))
  = if decide (k ∈ ks) then snd <$> serialize_tier v k else None.
Proof.
  induction 1 as [|j ks Hj Hnd IH]; [by rewrite decide_False by by intros ?%not_elem_of_nil|].
  cbn [omap list_omap]. destruct (decide (k = j)) as [->|Hne].
  - rewrite decide_True by by left. destruct (serialize_tier v j) as [[n x]|] eqn:E; cbn [map_get fmap option_fmap option_map snd].
    + apply serialize_tier_name in E as E'. cbn in E'. subst n. by rewrite decide_True.
    + rewrite IH. by rewrite decide_False.
  - assert (E : (if decide (k ∈ j :: ks) then snd <$> serialize_tier v k else None)
              = if decide (k ∈ ks) then snd <$> serialize_tier v k else None).
    { destruct (decide (k ∈ ks)) as [Hk|Hk]; [by rewrite decide_True by by right|].
      rewrite decide_False; [done|]. by intros [?|?]%elem_of_cons. }
    rewrite E. destruct (serialize_tier v j) as [[n x]|] eqn:Es; cbn [map_get]; [|done].
    apply serialize_tier_name in Es. cbn in Es. subst n. rewrite decide_False; [done|]. by intros ?%video_key_name_inj.
Qed.

(** The row of one key, stored and read again. *)
Lemma reread_tier v k :
  canonical_video v = true → parse_video_tier (snd <$> serialize_tier v k) = v k.
Proof.
  unfold canonical_video. rewrite forallb_forall. intros H.
  specialize (H k (proj1 (list_elem_of_In _ _) (elem_of_video_keys k))). unfold serialize_tier.
  destruct (v k) as [b w]. cbn [base with_video] in H |- *. cbv zeta. apply orb_true_iff in H as [H|H].
  - apply andb_true_iff in H as [Hb Hw]. by destruct b, w.
  - apply andb_true_iff in H as [(x & Hx & Ex)%priced_cell_price (y & Hy & Ey)%priced_cell_price].
    rewrite Hx, Hy. cbn [fmap option_fmap option_map snd default]. unfold parse_video_tier.
    look. cbn [first_price price_text string_of_json id]. by rewrite Ex, Ey.
Qed.

Lemma reread_video v k :
  canonical_video v = true →
  default emptyVideoTokenModelPrice
    (parseVideoTokenModelPrice (JObj <$> serializeVideoTokenModelPrice v)) k = v k.
Proof.
  intros Hv. assert (Hnd : NoDup VIDEO_TOKEN_TIER_KEYS) by (apply (bool_decide_unpack _); by_eval).
  assert (Hk : ∀ j, parse_video_tier (fld (omap (serialize_tier v) VIDEO_TOKEN_TIER_KEYS) (video_key_name j)) = v j).
  { intros j. unfold fld, obj_get. rewrite get_serialized by done. rewrite decide_True by apply elem_of_video_keys.
    by apply reread_tier. }
  unfold serializeVideoTokenModelPrice. destruct (omap _ _) as [|e out] eqn:Eo; cbn [fmap option_fmap option_map parseVideoTokenModelPrice default].
  - rewrite <- Hk. done.
  - destruct (existsb _ _) eqn:Ex; cbn [default]; [apply Hk|]. rewrite <- (Hk k).
    destruct (parse_video_tier _) as [b w] eqn:Et. unfold emptyVideoTokenModelPrice.
    assert (E : nonempty b || nonempty w = false); [|by destruct b, w].
    destruct (nonempty b || nonempty w) eqn:E; [|done]. rewrite <- Ex. symmetry. apply existsb_exists. exists k.
    split; [apply list_elem_of_In, elem_of_video_keys|]. by rewrite Et.
Qed.

(** ** Sessions of the panel *)

(** A panel for a new model, or one in which the input price was typed, and
    what the operator makes of it. *)
Inductive edited (lower : jstr → jstr) : PricingPanel → Prop :=
| edited_new : edited lower (open_panel lower None)
| edited_prompt value p : is_numeric_draft value = true → edited lower (handlePromptPriceChange value p)
| edited_step p q : edited lower p → panel_step p q → edited lower q.

Lemma edited_synced lower p : edited lower p → synced p.
Proof.
  induction 1 as [|value p Hv|p q _ IH Hs].
  - split; [done|]. intros []; done.
  - by apply prompt_synced.
  - exact (keeps_synced _ _ (keeps_step _ _ Hs) IH).
Qed.

(** C9. What the panel shows and what it will save agree. However the operator
    edits: a lane that is switched off shows no price; audio output is on only
    while audio input is, if it was so in the model; every ratio is the one
    the model was opened with or the one of the prices shown; and all of them
    are those of the prices shown in a new model, and once an input price was
    typed. *)
Theorem panel_invariant (lower : jstr → jstr) (data : option ModelRatioData) (p : PricingPanel) :
  rtc panel_step (open_panel lower data) p →
  tidy p
  ∧ (audio_ok (open_panel lower data) → audio_ok p)
  ∧ synced_or (pp_form (open_panel lower data)) p
  ∧ (data = None → synced p)
  ∧ (∀ value q, is_numeric_draft value = true → rtc panel_step (handlePromptPriceChange value p) q → synced q).
Proof.
  intros Hr. split_and!.
  - exact (rtc_keeps _ _ tidy_step _ _ Hr (open_tidy lower data)).
  - exact (rtc_keeps _ _ audio_step _ _ Hr).
  - apply (steps_synced_or _ _ _ Hr). split; [by left|by intros lane; left].
  - intros ->. apply (steps_synced _ _ Hr). apply (edited_synced lower), edited_new.
  - intros value q Hv Hq. by apply (steps_synced _ _ Hq), prompt_synced.
Qed.

(** *** A session as a sample *)

Definition no_change (s : jstr) : jstr := s.

Definition typed (prompt output : string) : PricingPanel :=
  handleLanePriceChange Completion (js output)
    (handleLaneToggle Completion true
      (handlePromptPriceChange (js prompt)
        (set_form (<[F_name := js "m"]> (pp_form (open_panel no_change None))) (open_panel no_change None)))).

Lemma typed_steps prompt output : rtc panel_step (open_panel no_change None) (typed prompt output).
Proof.
  unfold typed. eapply rtc_l; [by apply step_name|]. eapply rtc_l; [apply step_prompt_price|].
  eapply rtc_l; [by apply (step_lane_toggle Completion true)|].
  apply rtc_once. apply step_lane_price; [done|]. 
  unfold handleLaneToggle. cbn [pp_laneEnabled set_prices]. apply fn_lookup_insert.
Qed.

Lemma panel_invariant_witness :
  tidy (typed "3" "15") ∧ synced_or (pp_form (open_panel no_change None)) (typed "3" "15") ∧ synced (typed "3" "15")
  ∧ pp_form (typed "3" "15") F_ratio = js "1.5" ∧ pp_form (typed "3" "15") F_completionRatio = js "5".
Proof.
  destruct (panel_invariant no_change None (typed "3" "15") (typed_steps "3" "15")) as (H1 & _ & H3 & H4 & _).
  split; [exact H1|]. split; [exact H3|]. split; [exact (H4 eq_refl)|]. split; vm_compute; reflexivity.
Defined.

(** ** Saving *)

Lemma submit_data lower p d :
  submit lower p = Submitted d →
  d = {| d_fields := <[F_name := trim (pp_form p F_name)]> (pp_form p);
         d_videoTokenPrice := if isSeedanceVideoModel lower (trim (pp_form p F_name)) then Some (pp_videoTokenTiers p) else None;
         d_billingMode := pp_pricingMode p;
         d_billingExpr := if bool_decide (pp_pricingMode p = TieredExpr) then pp_billingExpr p else [];
         d_requestRuleExpr := if bool_decide (pp_pricingMode p = TieredExpr) then pp_requestRuleExpr p else [] |}.
Proof.
  unfold submit, handleSubmit. destruct (nonempty _); [|done].
  destruct (missing_input_price p), (missing_audio_price p); try done. by intros [= <-].
Qed.

Lemma submit_fields lower p d f : submit lower p = Submitted d → f ≠ F_name → d_fields d f = pp_form p f.
Proof. intros ->%submit_data Hf. cbn. by apply form_set_ne. Qed.

Lemma submit_mode lower p d : submit lower p = Submitted d → d_billingMode d = pp_pricingMode p.
Proof. by intros ->%submit_data. Qed.

(** The setting a lane's ratio is stored in. *)
Definition lane_setting (lane : LaneKey) : Setting :=
  match lane with
  | Completion => CompletionRatio | Cache => CacheRatio | CreateCache => CreateCacheRatio
  | Image => ImageRatio | AudioInput => AudioRatio | AudioOutput => AudioCompletionRatio
  end.

Lemma ratio_entry d s f :
  number_field s = Some f → s ≠ ModelPrice →
  stored_entry d s = if keeps_ratios d then stored_number (d_fields d f) else None.
Proof. intros Hs Hne. by destruct s; try done; injection Hs as <-. Qed.

(** C13. Prices typed are prices stored. In a session for a new model, or one
    in which the input price was typed, without a price per request: saving
    stores for the model half the input price as its ratio, and for every lane
    that is on its price over the input price (over the audio input price, for
    audio output), nothing for the others, no request price and no expression;
    the entries of all other models stay as they were. *)
Theorem typed_prices_stored (lower : jstr → jstr) (p : PricingPanel) (d : ModelRatioData) (maps : Settings) :
  edited lower p → pp_pricingMode p = PerToken → pp_form p F_price = [] → submit lower p = Submitted d →
  let name := trim (pp_form p F_name) in
  let maps' := persistPricingData d [name] maps in
  obj_get (maps' ModelRatio) name = stored_number (inputRatio (pp_promptPrice p))
  ∧ (∀ lane, obj_get (maps' (lane_setting lane)) name
             = stored_number (laneRatio lane (pp_promptPrice p) (pp_lanePrices p) (pp_laneEnabled p)))
  ∧ obj_get (maps' ModelPrice) name = None
  ∧ obj_get (maps' BillingMode) name = None ∧ obj_get (maps' BillingExpr) name = None
  ∧ (∀ s other, other ≠ name → obj_get (maps' s) other = obj_get (maps s) other).
Proof.
  intros [Hin Hlane]%edited_synced Hmode Hprice Hsub. cbv zeta.
  assert (Hget : ∀ s, obj_get (persistPricingData d [trim (pp_form p F_name)] maps s) (trim (pp_form p F_name)) = stored_entry d s).
  { intros s. rewrite get_persist. by rewrite decide_True by by left. }
  pose proof (submit_mode _ _ _ Hsub) as Hm. rewrite Hmode in Hm.
  assert (Hk : keeps_ratios d = true).
  { unfold keeps_ratios. rewrite (submit_fields _ _ _ F_price Hsub) by done. rewrite Hprice. apply orb_true_r. }
  split_and!.
  - rewrite Hget, (ratio_entry d ModelRatio F_ratio), Hk, (submit_fields _ _ _ _ Hsub) by done. by rewrite Hin.
  - intros lane. rewrite Hget, (ratio_entry d (lane_setting lane) (ratioFieldByLane lane)), Hk by by destruct lane.
    rewrite (submit_fields _ _ _ _ Hsub) by by destruct lane. by rewrite Hlane.
  - rewrite Hget. cbn. by rewrite (submit_fields _ _ _ _ Hsub), Hprice by done.
  - rewrite Hget. cbn. by rewrite Hm.
  - rewrite Hget. cbn. by rewrite Hm.
  - intros s other Hne. rewrite get_persist. rewrite decide_False; [done|]. by intros ?%list_elem_of_singleton.
Qed.

Definition no_data : ModelRatioData :=
  {| d_fields := λ _, []; d_videoTokenPrice := None; d_billingMode := PerToken; d_billingExpr := []; d_requestRuleExpr := [] |}.

Definition submitted (p : PricingPanel) : ModelRatioData :=
  match submit no_change p with Submitted d => d | Refused _ => no_data end.

Definition no_settings : Settings := λ _, [].

Lemma edited_typed prompt output : edited no_change (typed prompt output).
Proof. apply (rtc_keeps _ _ (λ x y Hxy Hx, edited_step _ x y Hx Hxy) _ _ (typed_steps prompt output)), edited_new. Qed.

Lemma typed_prices_stored_witness :
  let maps' := persistPricingData (submitted (typed "3" "15")) [js "m"] no_settings in
  obj_get (maps' ModelRatio) (js "m") = stored_number (js "1.5")
  ∧ obj_get (maps' CompletionRatio) (js "m") = stored_number (js "5").
Proof.
  assert (Hsub : submit no_change (typed "3" "15") = Submitted (submitted (typed "3" "15"))) by reflexivity.
  destruct (typed_prices_stored no_change (typed "3" "15") (submitted (typed "3" "15")) no_settings (edited_typed "3" "15")
              eq_refl eq_refl Hsub) as (H1 & H2 & _).
  split; [exact H1|exact (H2 Completion)].
Defined.

(** *** Saved prices open again *)

Lemma stored_settings d targets ve maps texts :
  read_settings (ve_texts ve) = Some maps → settings_safe maps → data_safe d = true →
  Forall (λ n, plain_name n = true) targets →
  rewrite_settings (persistPricingData d targets) (ve_texts ve) = Some texts →
  ∃ maps', read_settings texts = Some maps'
    ∧ ∀ s n, obj_get (maps' s) n = if decide (n ∈ targets) then stored_entry d s else obj_get (maps s) n.
Proof.
  intros Hr Hm Hd Ht. unfold rewrite_settings. rewrite Hr. cbn [mbind option_bind]. intros [= <-].
  destruct (read_stringify_all (persistPricingData d targets maps)) as (maps' & E & Hs); [by apply safe_persist|].
  exists maps'. split; [done|]. intros s n. rewrite Hs. apply get_persist.
Qed.

Definition reopened_video (lower : jstr → jstr) (p q : PricingPanel) : Prop :=
  isSeedanceVideoModel lower (trim (pp_form p F_name)) = true → canonical_video (pp_videoTokenTiers p) = true →
  ∀ k, pp_videoTokenTiers q k = pp_videoTokenTiers p k.

(** C5. Round trip of a save: when the panel saves a model (its fields are
    numbers as printed, it has one way of pricing, its expression splits into
    what it was combined from), the rewritten texts of the settings read back,
    the model has a row, and opening that row gives a panel with the same
    fields, mode, expression and video prices; every other entry of the
    settings is unchanged, and the editor is closed. *)
Theorem saved_prices_reopen (lower : jstr → jstr) (p : PricingPanel) (d : ModelRatioData) (ve ve' : VisualEditor) (maps : Settings) :
  read_settings (ve_texts ve) = Some maps → settings_safe maps →
  submit lower p = Submitted d → one_mode d → data_safe d = true → plain_name (d_fields d F_name) = true →
  (∀ f, f ≠ F_name → canonical_field (pp_form p f) = true) →
  handleSave d ve = Some ve' →
  ∃ maps' row, read_settings (ve_texts ve') = Some maps' ∧ model_row maps' (d_fields d F_name) = Ret row
    ∧ (let q := open_panel lower (Some (handleEdit row)) in
       pp_form q F_name = trim (pp_form p F_name) ∧ (∀ f, f ≠ F_name → pp_form q f = pp_form p f)
       ∧ pp_pricingMode q = pp_pricingMode p
       ∧ (pp_pricingMode p = TieredExpr → pp_billingExpr q = pp_billingExpr p ∧ pp_requestRuleExpr q = pp_requestRuleExpr p)
       ∧ reopened_video lower p q)
    ∧ (∀ s n, n ≠ d_fields d F_name → obj_get (maps' s) n = obj_get (maps s) n)
    ∧ ve_editData ve' = None ∧ ve_editorOpen ve' = false.
Proof.
  intros Hr Hsafe Hsub Hone Hd Hname Hc. unfold handleSave. destruct (rewrite_settings _ _) as [texts|] eqn:Et; [|done].
  intros [= <-]. destruct (stored_settings d [d_fields d F_name] ve maps texts) as (maps' & Em & Hget); try done.
  { by apply Forall_singleton. }
  exists maps'. destruct (saved_row d maps') as (row & Erow & Hshow); [|done| |].
  { intros s. rewrite Hget. by rewrite decide_True by by left. }
  { intros f Hf. rewrite (submit_fields _ _ _ _ Hsub Hf). by apply Hc. }
  exists row. destruct Hshow as (Hf & Hm & He & Hq & Hv).
  assert (Hn : d_fields d F_name = trim (pp_form p F_name)) by by rewrite (submit_data _ _ _ Hsub).
  assert (Hmode : pp_pricingMode (open_panel lower (Some (handleEdit row))) = pp_pricingMode p).
  { rewrite <- (submit_mode _ _ _ Hsub). cbn [open_panel pp_pricingMode handleEdit d_billingMode d_fields].
    unfold hasValue. rewrite Hm, Hf. unfold one_mode in Hone.
    destruct (d_billingMode d); cbn [decide PricingMode_eq_dec]; [by destruct Hone as [-> _]| |done].
    by destruct Hone as [->%nonempty_true _]. }
  split; [done|]. split; [done|]. split; [|split; [|done]].
  - cbn [open_panel pp_form pp_billingExpr pp_requestRuleExpr handleEdit d_fields d_billingExpr d_requestRuleExpr].
    split_and!; [by rewrite Hf| |exact Hmode| |].
    + intros f Hne. rewrite Hf. by apply (submit_fields lower).
    + rewrite He, Hq, (submit_data _ _ _ Hsub). cbn. intros ->. done.
    + intros Hsee Hcan k. cbn [open_panel pp_videoTokenTiers handleEdit d_fields d_videoTokenPrice].
      rewrite Hf, Hn, Hsee, Hv. unfold stored_entry. rewrite (submit_data _ _ _ Hsub). cbn [d_videoTokenPrice].
      rewrite Hsee. cbn [mbind option_bind]. by apply reread_video.
  - intros s n Hne. rewrite Hget. rewrite decide_False; [done|]. by intros ?%list_elem_of_singleton.
Qed.

(** Settings in which another model has a ratio. *)
Definition sample_maps : Settings := λ s, if decide (s = ModelRatio) then [entry "other" (num 2)] else [].

Definition sample_editor : VisualEditor :=
  {| ve_texts := stringify_settings sample_maps; ve_editData := None; ve_editorOpen := true |}.

Definition sample_read : Settings := default no_settings (read_settings (ve_texts sample_editor)).

Lemma sample_read_ok : read_settings (ve_texts sample_editor) = Some sample_read.
Proof.
  unfold sample_read. destruct (read_settings _) eqn:E; [done|]. exfalso. revert E. unfold read_settings.
  replace (forallb _ _) with true by by_eval. done.
Qed.

Lemma sample_read_safe : settings_safe sample_read.
Proof. intros s. destruct s; vm_compute; reflexivity. Qed.

Lemma saved_prices_reopen_witness :
  ∃ ve' maps' row, handleSave (submitted (typed "3" "15")) sample_editor = Some ve'
    ∧ read_settings (ve_texts ve') = Some maps' ∧ model_row maps' (js "m") = Ret row
    ∧ obj_get (maps' ModelRatio) (js "other") = Some (num 2)
    ∧ pp_form (open_panel no_change (Some (handleEdit row))) F_completionRatio = js "5".
Proof.
  destruct (handleSave (submitted (typed "3" "15")) sample_editor) as [ve'|] eqn:E.
  - destruct (saved_prices_reopen no_change (typed "3" "15") (submitted (typed "3" "15")) sample_editor ve' sample_read
                sample_read_ok sample_read_safe) as (maps' & row & H1 & H2 & H3 & H4 & _).
    + reflexivity.
    + split; [|split]; reflexivity.
    + vm_compute; reflexivity.
    + vm_compute; reflexivity.
    + intros f Hf. destruct f; [by destruct Hf|vm_compute; reflexivity..].
    + exact E.
    + exists ve', maps', row. split; [reflexivity|]. split; [exact H1|]. split; [exact H2|]. split.
      * rewrite H4; [vm_compute; reflexivity|]. apply (bool_decide_unpack _). vm_compute. exact I.
      * destruct H3 as (_ & H3 & _). rewrite H3; [vm_compute; reflexivity|discriminate].
  - exfalso. revert E. unfold handleSave, rewrite_settings. rewrite sample_read_ok. discriminate.
Defined.

(** Copying the open model's prices to the selected models: every one of
    them gets the entries of the copied model in every setting, and none of
    the others; all other models keep theirs. *)
Theorem copied_prices (d : ModelRatioData) (selected : list jstr) (ve ve' : VisualEditor) (maps : Settings) :
  ve_editData ve = Some d → selected ≠ [] →
  read_settings (ve_texts ve) = Some maps → settings_safe maps → data_safe d = true →
  Forall (λ n, plain_name n = true) selected →
  handleBatchCopy selected ve = Some ve' →
  ∃ maps', read_settings (ve_texts ve') = Some maps' ∧ ve_editData ve' = Some d
    ∧ ∀ s n, obj_get (maps' s) n = if decide (n ∈ selected) then stored_entry d s else obj_get (maps s) n.
Proof.
  intros He Hs Hr Hm Hd Ht. unfold handleBatchCopy. rewrite He. destruct selected as [|n selected]; [done|].
  destruct (rewrite_settings _ _) as [texts|] eqn:Et; [|done]. intros [= <-].
  destruct (stored_settings d (n :: selected) ve maps texts) as (maps' & E & Hget); try done. by exists maps'.
Qed.

Definition copy_editor : VisualEditor :=
  {| ve_texts := stringify_settings sample_maps; ve_editData := Some (submitted (typed "3" "15")); ve_editorOpen := true |}.

Lemma copied_prices_witness :
  ∃ ve' maps', handleBatchCopy [js "other"; js "third"] copy_editor = Some ve' ∧ read_settings (ve_texts ve') = Some maps'
    ∧ obj_get (maps' CompletionRatio) (js "other") = Some (num 5) ∧ obj_get (maps' CompletionRatio) (js "m") = None.
Proof.
  destruct (handleBatchCopy [js "other"; js "third"] copy_editor) as [ve'|] eqn:E.
  - destruct (copied_prices (submitted (typed "3" "15")) [js "other"; js "third"] copy_editor ve' sample_read eq_refl
                ltac:(discriminate) sample_read_ok sample_read_safe) as (maps' & H1 & _ & H2).
    + vm_compute; reflexivity.
    + apply (bool_decide_unpack _). vm_compute. exact I.
    + exact E.
    + exists ve', maps'. split; [reflexivity|]. split; [exact H1|]. split; rewrite H2; vm_compute; reflexivity.
  - exfalso. revert E. unfold handleBatchCopy, rewrite_settings. cbn [copy_editor ve_editData ve_texts].
    change (stringify_settings sample_maps) with (ve_texts sample_editor). rewrite sample_read_ok. discriminate.
Defined.

(** ** Prices that are lost or change *)

(** A price per request that was left in the form wins over the mode the
    operator saves in: the panel saves in per-token mode without objection,
    and what is stored is the price per request and none of the ratios; the
    model opens in per-request mode again. *)
Theorem leftover_price_wins (lower : jstr → jstr) (p : PricingPanel) (d : ModelRatioData) (maps : Settings) :
  pp_pricingMode p = PerToken → submit lower p = Submitted d →
  pp_form p F_price ≠ [] → canonical_field (pp_form p F_price) = true →
  let name := d_fields d F_name in
  let maps' := persistPricingData d [name] maps in
  price_text (obj_get (maps' ModelPrice) name) = pp_form p F_price
  ∧ Forall (λ e : Setting * FormField, obj_get (maps' e.1) name = None) ratio_settings
  ∧ ∃ row, model_row maps' name = Ret row ∧ pp_pricingMode (open_panel lower (Some (handleEdit row))) = PerRequest.
Proof.
  intros Hmode Hsub Hp%nonempty_true Hc. cbv zeta.
  assert (Hget : ∀ s, obj_get (persistPricingData d [d_fields d F_name] maps s) (d_fields d F_name) = stored_entry d s).
  { intros s. rewrite get_persist. by rewrite decide_True by by left. }
  pose proof (submit_fields _ _ _ F_price Hsub ltac:(done)) as Hf.
  assert (Hm : d_billingMode d = PerToken) by by rewrite (submit_mode _ _ _ Hsub).
  assert (Hk : keeps_ratios d = false) by (unfold keeps_ratios; by rewrite Hm, Hf, Hp).
  assert (Hprice : price_text (stored_entry d ModelPrice) = pp_form p F_price) by (cbn [stored_entry]; by rewrite Hf, canonical_text).
  split; [by rewrite Hget|]. split.
  - apply Forall_forall. intros [s f] He. rewrite Hget. cbn [fst].
    rewrite (ratio_entry d s f), Hk; [done|..]; revert He; unfold ratio_settings;
      rewrite !elem_of_cons, elem_of_nil; naive_solver.
  - unfold model_row. rewrite Hget. cbn [stored_entry]. rewrite Hm. cbn [bool_decide decide andb is_str].
    assert (Hrow : row_fields (persistPricingData d [d_fields d F_name] maps) (d_fields d F_name) F_price = pp_form p F_price).
    { cbn [row_fields]. unfold number_text. by rewrite Hget. }
    eexists. split; [done|]. cbn [open_panel pp_pricingMode handleEdit d_billingMode d_fields r_fields r_billingMode].
    unfold hasValue. by rewrite Hrow, Hp.
Qed.

(** A model with a price per request, switched to prices per token. *)
Definition request_model : ModelRatioData :=
  {| d_fields := <[F_price := js "0.5"]> (<[F_name := js "m"]> (λ _, [])); d_videoTokenPrice := None;
     d_billingMode := PerRequest; d_billingExpr := []; d_requestRuleExpr := [] |}.

Definition switched : PricingPanel :=
  handleLanePriceChange Completion (js "15")
    (handleLaneToggle Completion true
      (handlePromptPriceChange (js "3")
        (handlePricingModeChange PerToken (open_panel no_change (Some request_model))))).

Lemma leftover_price_wins_witness :
  let maps' := persistPricingData (submitted switched) [js "m"] no_settings in
  pp_form switched F_ratio = js "1.5" ∧ pp_form switched F_completionRatio = js "5"
  ∧ price_text (obj_get (maps' ModelPrice) (js "m")) = js "0.5"
  ∧ obj_get (maps' ModelRatio) (js "m") = None.
Proof.
  assert (Hsub : submit no_change switched = Submitted (submitted switched)) by reflexivity.
  destruct (leftover_price_wins no_change switched (submitted switched) no_settings eq_refl Hsub ltac:(discriminate)
              ltac:(vm_compute; reflexivity)) as (H1 & H2 & _).
  split; [vm_compute; reflexivity|]. split; [vm_compute; reflexivity|]. split; [exact H1|].
  exact (Forall_inv H2).
Defined.

(** Lane prices are lost over an input price of zero: the check before
    saving only asks for some input price, so the panel saves, and of the
    prices of the lanes (audio output apart) none is stored. *)
Theorem zero_input_price_drops_lanes (lower : jstr → jstr) (p : PricingPanel) (d : ModelRatioData) (maps : Settings) :
  edited lower p → pp_pricingMode p = PerToken → pp_form p F_price = [] → pp_promptPrice p = js "0" →
  missing_input_price p = false
  ∧ (submit lower p = Submitted d →
     ∀ lane, lane ≠ AudioOutput →
       obj_get (persistPricingData d [d_fields d F_name] maps (lane_setting lane)) (d_fields d F_name) = None).
Proof.
  intros [_ Hlane]%edited_synced Hmode Hprice Hzero.
  assert (Hnum : toNumberOrNull (js "0") = Some (S754_zero false)) by by_eval. split.
  - unfold missing_input_price. rewrite Hzero, Hnum. by rewrite andb_false_r.
  - intros Hsub lane Hne. rewrite get_persist. rewrite decide_True by by left.
    rewrite (ratio_entry d (lane_setting lane) (ratioFieldByLane lane)) by by destruct lane.
    destruct (keeps_ratios d); [|done]. rewrite (submit_fields _ _ _ _ Hsub) by by destruct lane.
    rewrite Hlane. unfold derived, laneRatio. destruct (pp_laneEnabled p lane); [|done].
    unfold deriveLaneRatio. rewrite Hzero. destruct (toNumberOrNull (pp_lanePrices p lane)); [|done].
    destruct lane; try done; rewrite Hnum; done.
Qed.

Lemma zero_input_price_drops_lanes_witness :
  pp_lanePrices (typed "0" "15") Completion = js "15" ∧ missing_input_price (typed "0" "15") = false
  ∧ obj_get (persistPricingData (submitted (typed "0" "15")) [js "m"] no_settings CompletionRatio) (js "m") = None.
Proof.
  assert (Hsub : submit no_change (typed "0" "15") = Submitted (submitted (typed "0" "15"))) by reflexivity.
  destruct (zero_input_price_drops_lanes no_change (typed "0" "15") (submitted (typed "0" "15")) no_settings
              (edited_typed "0" "15") eq_refl eq_refl eq_refl) as [H1 H2].
  split; [reflexivity|]. split; [exact H1|]. exact (H2 Hsub Completion ltac:(discriminate)).
Defined.

(** The panel of the model a panel saved. *)
Definition reopened (p : PricingPanel) : outcome PricingPanel :=
  row ← model_row (persistPricingData (submitted p) [js "m"] no_settings) (js "m");
  Ret (open_panel no_change (Some (handleEdit row))).

Definition shown_price (lane : LaneKey) (o : outcome PricingPanel) : option jstr :=
  match o with Ret p => Some (pp_lanePrices p lane) | Throw => None end.

(** Prices are not shown as they were typed: ratios are stored with twelve
    decimals, so an output price of 25 over an input price of 15 opens as
    25.000000000005, and one of 10 over 30 as 9.99999999999, while 15 over 3
    opens as 15. *)
Theorem reopened_price_drifts :
  shown_price Completion (reopened (typed "15" "25")) = Some (js "25.000000000005")
  ∧ shown_price Completion (reopened (typed "30" "10")) = Some (js "9.99999999999")
  ∧ shown_price Completion (reopened (typed "3" "15")) = Some (js "15").
Proof. split_and!; by_eval. Qed.
