(* ===== verification/RatioSync.v ===== *)
(** * Prices taken from upstream channels

    Model of [features/system-settings/models/upstream-ratio-sync.tsx] with
    [upstream-ratio-sync-helpers.ts], the bulk selection of
    [upstream-ratio-sync-table.tsx] and the cells of
    [upstream-ratio-sync-columns.tsx]. The server compares the prices of the
    upstreams with the local ones; the operator picks, per model and field, the
    values to take; a sync rewrites the settings. The answer's inner objects
    are shared by reference and deleted from in place, so they live in a store.
    The settings are texts of JSON objects, or unreadable and then empty; model
    and channel names that are members of every object are outside the model. *)

From Stdlib Require Import String.
From stdpp Require Import functions.
From S2P Require Import JsArith JsonText JsObject BillingExpr ModelPricing ModelPricingTable.

(** ** Fields *)

Inductive RatioType :=
| model_ratio | completion_ratio | cache_ratio | create_cache_ratio | image_ratio | audio_ratio
| audio_completion_ratio | model_price | billing_mode | billing_expr.

#[export] Instance RatioType_eq_dec : EqDecision RatioType.
Proof. solve_decision. Defined.

Definition ratio_type_name (t : RatioType) : jstr :=
  js match t with
     | model_ratio => "model_ratio" | completion_ratio => "completion_ratio" | cache_ratio => "cache_ratio"
     | create_cache_ratio => "create_cache_ratio" | image_ratio => "image_ratio" | audio_ratio => "audio_ratio"
     | audio_completion_ratio => "audio_completion_ratio" | model_price => "model_price"
     | billing_mode => "billing_mode" | billing_expr => "billing_expr"
     end.

Definition RATIO_SYNC_FIELDS : list RatioType :=
  [model_ratio; completion_ratio; cache_ratio; create_cache_ratio; image_ratio; audio_ratio; audio_completion_ratio].

Definition SYNC_FIELD_ORDER : list RatioType := RATIO_SYNC_FIELDS ++ [model_price; billing_mode; billing_expr].

Definition NUMERIC_SYNC_FIELDS : list RatioType := RATIO_SYNC_FIELDS ++ [model_price].

(** A value of a field: [null], a number or a text. *)
Inductive SyncValue := VNull | VNum (x : jsnum) | VStr (s : jstr).

#[export] Instance SyncValue_eq_dec : EqDecision SyncValue.
Proof. solve_decision. Defined.

(** [a === b], of values that may be [undefined] *)
Definition same_value (a b : option SyncValue) : bool :=
  match a, b with
  | None, None => true
  | Some VNull, Some VNull => true
  | Some (VNum x), Some (VNum y) => num_eq x y
  | Some (VStr s), Some (VStr t) => bool_decide (s = t)
  | _, _ => false
  end.

Record RatioDifferenceEntry := {
  current : SyncValue;
  upstreams : list (jstr * SyncValue);
  confidence : list (jstr * bool);
}.

(** The fields of a model that differ, and the models that have some. *)
Abbreviation RatioTypes := (list (RatioType * RatioDifferenceEntry)).
Definition DifferencesMap : Type := list (jstr * RatioTypes).

Definition Resolution : Type := list (RatioType * SyncValue).
Definition ResolutionsMap : Type := list (jstr * Resolution).

(** ** Helpers *)

(** [ratioTypes[t]?.upstreams?.[sourceName]] *)
Definition upstream_value (ratioTypes : RatioTypes) (t : RatioType) (sourceName : jstr) : option SyncValue :=
  e ← map_get ratioTypes t; map_get (upstreams e) sourceName.

Definition isSelectableUpstreamValue (value : option SyncValue) : bool :=
  match value with
  | None | Some VNull => false
  | Some (VStr s) => negb (bool_decide (s = js "same"))
  | Some (VNum _) => true
  end.

(** The filter by field; [None] is no filter or all fields. *)
Definition getOrderedRatioTypes (ratioTypes : RatioTypes) (filter : option RatioType) : list RatioType :=
  let keys := map fst ratioTypes in
  let ordered :=
    filterb (λ f, bool_decide (f ∈ keys)) SYNC_FIELD_ORDER
    ++ filterb (λ f, negb (bool_decide (f ∈ SYNC_FIELD_ORDER))) keys in
  match filter with None => ordered | Some t => filterb (λ f, bool_decide (f = t)) ordered end.

Definition getPreferredSyncField (ratioTypes : RatioTypes) (ratioType : RatioType) (sourceName : jstr) : RatioType :=
  if negb (bool_decide (ratioType = billing_expr))
     && isSelectableUpstreamValue (upstream_value ratioTypes billing_expr sourceName)
  then billing_expr else ratioType.

Inductive Category := CatPrice | CatRatio | CatTiered.

#[export] Instance Category_eq_dec : EqDecision Category.
Proof. solve_decision. Defined.

Definition getBillingCategory (t : RatioType) : Category :=
  match t with model_price => CatPrice | billing_mode | billing_expr => CatTiered | _ => CatRatio end.

(** [word.charAt(0).toUpperCase() + word.slice(1)], of an ASCII word *)
Definition capitalize (word : jstr) : jstr :=
  match word with
  | [] => []
  | c :: rest => (if (97 <=? c) && (c <=? 122) then c - 32 else c) :: rest
  end.

Definition optionKeyBySyncField (t : RatioType) : jstr :=
  match t with
  | billing_mode => js "billing_setting.billing_mode"
  | billing_expr => js "billing_setting.billing_expr"
  | _ => concat (map capitalize (split_char 95 (ratio_type_name t)))
  end.

(** The options a sync writes, in the order it writes them. *)
Definition sync_options : list (string * Setting) :=
  [("ModelRatio", ModelRatio); ("CompletionRatio", CompletionRatio); ("CacheRatio", CacheRatio);
   ("CreateCacheRatio", CreateCacheRatio); ("ImageRatio", ImageRatio); ("AudioRatio", AudioRatio);
   ("AudioCompletionRatio", AudioCompletionRatio); ("ModelPrice", ModelPrice);
   ("billing_setting.billing_mode", BillingMode); ("billing_setting.billing_expr", BillingExpr)]%string.

Definition option_setting (key : jstr) : option Setting :=
  snd <$> find (λ e : string * Setting, bool_decide (js e.1 = key)) sync_options.

(** [JSON.parse(raw || '{}')]; [None] outside the model *)
Definition parseJsonRecord (raw : jstr) : option object :=
  match raw with
  | [] => Some []
  | _ => match json_parse raw with
         | None => Some []
         | Some (JObj o) => Some o
         | Some _ => None
         end
  end.

Definition parsedRatios (texts : Setting → jstr) : option Settings :=
  if forallb (λ e : string * Setting, bool_decide (is_Some (parseJsonRecord (texts e.2)))) sync_options
  then Some (λ s, default [] (parseJsonRecord (texts s))) else None.

Definition deleteResolutionField (res : ResolutionsMap) (model : jstr) (t : RatioType) : ResolutionsMap :=
  match map_get res model with
  | None => res
  | Some own =>
      let own := map_delete own t in
      let own := if decide (t = billing_expr) then map_delete own billing_mode else own in
      let own := if decide (t = billing_mode) then map_delete own billing_expr else own in
      if nonempty own then map_set res model own else map_delete res model
  end.

(** ** Selecting values *)

(** Prices and ratios exclude each other; tiered fields go with both. *)
Definition conflicts_with (c : Category) (t : RatioType) : bool :=
  negb (bool_decide (c = CatTiered)) && negb (bool_decide (getBillingCategory t = CatTiered))
  && negb (bool_decide (getBillingCategory t = c)).

Definition clear_conflicts (c : Category) (own : Resolution) : Resolution :=
  filterb (λ e : RatioType * SyncValue, negb (conflicts_with c e.1)) own.

(** Take the mode and the expression of the same source along. *)
Definition pair_tiered (modelDiffs : RatioTypes) (sourceName : jstr) (finalType : RatioType) (own : Resolution) : Resolution :=
  let own :=
    match upstream_value modelDiffs billing_mode sourceName with
    | Some v => if isSelectableUpstreamValue (Some v) then map_set own billing_mode v
                else if decide (finalType = billing_expr) then map_set own billing_mode (VStr (js "tiered_expr")) else own
    | None => if decide (finalType = billing_expr) then map_set own billing_mode (VStr (js "tiered_expr")) else own
    end in
  match upstream_value modelDiffs billing_expr sourceName with
  | Some v => if isSelectableUpstreamValue (Some v) then map_set own billing_expr v else own
  | None => own
  end.

Definition select_field (modelDiffs : option RatioTypes) (finalType : RatioType) (finalValue : SyncValue)
    (sourceName : jstr) (own : Resolution) : Resolution :=
  let category := getBillingCategory finalType in
  let own := map_set (clear_conflicts category own) finalType finalValue in
  match modelDiffs with
  | Some d => if bool_decide (category = CatTiered) && nonempty sourceName
              then pair_tiered d sourceName finalType own else own
  | None => own
  end.

Definition handleSelectValue (differences : DifferencesMap) (model : jstr) (ratioType : RatioType) (value : SyncValue)
    (sourceName : jstr) (prev : ResolutionsMap) : ResolutionsMap :=
  let modelDiffs := map_get differences model in
  let preferredType :=
    if nonempty sourceName then getPreferredSyncField (default [] modelDiffs) ratioType sourceName else ratioType in
  let preferredValue :=
    if decide (preferredType = ratioType) then value
    else match (modelDiffs ≫= λ d, upstream_value d preferredType sourceName) with
         | None | Some VNull => value
         | Some v => v
         end in
  map_set prev model (select_field modelDiffs preferredType preferredValue sourceName (default [] (map_get prev model))).

Definition handleUnselectValue (model : jstr) (ratioType : RatioType) (prev : ResolutionsMap) : ResolutionsMap :=
  deleteResolutionField prev model ratioType.

(** ** The table *)

Record SyncRow := { row_model : jstr; row_ratioTypes : RatioTypes; row_billingConflict : bool }.

Definition dataSource (differences : DifferencesMap) : list SyncRow :=
  map (λ e : jstr * RatioTypes,
    {| row_model := e.1; row_ratioTypes := e.2;
       row_billingConflict := map_has e.2 model_price && existsb (map_has e.2) RATIO_SYNC_FIELDS |})
    (own_entries differences).

Definition filteredData (toLowerCase : jstr → jstr) (search : jstr) (filter : option RatioType)
    (rows : list SyncRow) : list SyncRow :=
  let rows :=
    if nonempty (trim search)
    then filterb (λ r, includes (toLowerCase search) (toLowerCase (row_model r))) rows else rows in
  match filter with Some t => filterb (λ r, map_has (row_ratioTypes r) t) rows | None => rows end.

Definition upstreamNames (filter : option RatioType) (rows : list SyncRow) : list jstr :=
  js_set (concat (map (λ r,
    concat (map (λ t, match map_get (row_ratioTypes r) t with Some e => own_keys (upstreams e) | None => [] end)
              (getOrderedRatioTypes (row_ratioTypes r) filter))) rows)).

(** The fields of a row that can be selected under an upstream. *)
Definition selectable_field (row : SyncRow) (upstream : jstr) (t : RatioType) : bool :=
  bool_decide (getPreferredSyncField (row_ratioTypes row) t upstream = t)
  && isSelectableUpstreamValue (upstream_value (row_ratioTypes row) t upstream).

Definition bulk_select_row (differences : DifferencesMap) (filter : option RatioType) (upstream : jstr)
    (prev : ResolutionsMap) (row : SyncRow) : ResolutionsMap :=
  foldl (λ res t,
    match upstream_value (row_ratioTypes row) t upstream with
    | Some v => if selectable_field row upstream t
                then handleSelectValue differences (row_model row) t v upstream res else res
    | None => res
    end) prev (getOrderedRatioTypes (row_ratioTypes row) filter).

Definition handleBulkSelect (differences : DifferencesMap) (filter : option RatioType) (upstream : jstr)
    (rows : list SyncRow) (prev : ResolutionsMap) : ResolutionsMap :=
  foldl (bulk_select_row differences filter upstream) prev rows.

Definition bulk_unselect_row (filter : option RatioType) (upstream : jstr) (prev : ResolutionsMap) (row : SyncRow) :
    ResolutionsMap :=
  foldl (λ res t,
    match upstream_value (row_ratioTypes row) t upstream with
    | Some _ => handleUnselectValue (row_model row) t res
    | None => res
    end) prev (getOrderedRatioTypes (row_ratioTypes row) filter).

Definition handleBulkUnselect (filter : option RatioType) (upstream : jstr) (rows : list SyncRow) (prev : ResolutionsMap) :
    ResolutionsMap :=
  foldl (bulk_unselect_row filter upstream) prev rows.

(** The fields a header's checkbox counts, as pairs of a row and a field. *)
Definition selectable_cells (filter : option RatioType) (upstream : jstr) (rows : list SyncRow) : list (SyncRow * RatioType) :=
  concat (map (λ r, map (pair r) (filterb (selectable_field r upstream) (getOrderedRatioTypes (row_ratioTypes r) filter))) rows).

(** [resolutions[model]?.[ratioType] === upstreamVal] *)
Definition isSelected (res : ResolutionsMap) (upstream : jstr) (row : SyncRow) (t : RatioType) : bool :=
  same_value (map_get res (row_model row) ≫= λ own, map_get own t) (upstream_value (row_ratioTypes row) t upstream).

Record HeaderState := { selectableCount : nat; selectedCount : nat; allSelected : bool; someSelected : bool }.

Definition column_header (res : ResolutionsMap) (filter : option RatioType) (upstream : jstr) (rows : list SyncRow) : HeaderState :=
  let cells := selectable_cells filter upstream rows in
  let selectable := length cells in
  let selected := length (filterb (λ c : SyncRow * RatioType, isSelected res upstream c.1 c.2) cells) in
  {| selectableCount := selectable; selectedCount := selected;
     allSelected := (0 <? selectable)%nat && (selected =? selectable)%nat;
     someSelected := (0 <? selected)%nat && (selected <? selectable)%nat |}.

(** A cell of the table: what it shows of each field. *)
Inductive CellValue := NotSet | SameAsLocal | Offered (checked confident : bool) (value : SyncValue).

Definition renderUpstreamValue (value : option SyncValue) (confident selected : bool) : CellValue :=
  match value with
  | None | Some VNull => NotSet
  | Some v => if isSelectableUpstreamValue (Some v) then Offered selected confident v else SameAsLocal
  end.

Definition upstream_cell (res : ResolutionsMap) (filter : option RatioType) (upstream : jstr) (row : SyncRow) :
    list (RatioType * CellValue) :=
  map (λ t,
    let confident := match (e ← map_get (row_ratioTypes row) t; map_get (confidence e) upstream) with Some false => false | _ => true end in
    (t, renderUpstreamValue (upstream_value (row_ratioTypes row) t upstream) confident (isSelected res upstream row t)))
    (filterb (λ t, bool_decide (getPreferredSyncField (row_ratioTypes row) t upstream = t))
      (getOrderedRatioTypes (row_ratioTypes row) filter)).

(** ** Writing the settings *)

Definition delete_entries (name : jstr) (l : list Setting) (maps : Settings) : Settings :=
  foldl (λ m s, <[s := obj_delete (m s) name]> m) maps l.

Definition ratio_options : list Setting :=
  [ModelRatio; CompletionRatio; CacheRatio; CreateCacheRatio; ImageRatio; AudioRatio; AudioCompletionRatio].

(** [NUMERIC_SYNC_FIELDS.has(t) ? Number(value) : value] *)
Definition synced_value (t : RatioType) (v : SyncValue) : json :=
  let numeric := bool_decide (t ∈ NUMERIC_SYNC_FIELDS) in
  match v with
  | VNull => if numeric then num 0 else JNull
  | VNum x => JNum x
  | VStr s => if numeric then JNum (number_of_string s) else JStr s
  end.

(** [finalRatios[optionKey][model] = value]; no such option throws. *)
Definition write_resolution (name : jstr) (maps : Settings) (e : RatioType * SyncValue) : outcome Settings :=
  match option_setting (optionKeyBySyncField e.1) with
  | Some s => Ret (<[s := obj_set (maps s) name (synced_value e.1 e.2)]> maps)
  | None => Throw
  end.

Fixpoint write_resolutions (name : jstr) (maps : Settings) (l : Resolution) : outcome Settings :=
  match l with
  | [] => Ret maps
  | e :: l => maps ← write_resolution name maps e; write_resolutions name maps l
  end.

Definition has_price (own : Resolution) : bool := map_has own model_price.
Definition has_ratio (own : Resolution) : bool := existsb (map_has own) RATIO_SYNC_FIELDS.

(** The categories a resolution replaces, then its values. *)
Definition sync_model (maps : Settings) (e : jstr * Resolution) : outcome Settings :=
  let maps := if has_price e.2 then delete_entries e.1 ratio_options maps else maps in
  let maps := if has_ratio e.2 then delete_entries e.1 [ModelPrice] maps else maps in
  write_resolutions e.1 maps e.2.

Fixpoint sync_models (maps : Settings) (l : list (jstr * Resolution)) : outcome Settings :=
  match l with
  | [] => Ret maps
  | e :: l => maps ← sync_model maps e; sync_models maps l
  end.

(** What [performSync] sends: the text of every option. *)
Definition performSync (resolutions : ResolutionsMap) (maps : Settings) : outcome (list (Setting * jstr)) :=
  finalRatios ← sync_models maps (own_entries resolutions);
  Ret (map (λ e : string * Setting, (e.2, json_stringify_2 (JObj (finalRatios e.2)))) sync_options).

(** The server's answer to an update: stored, refused with [success: false],
    or an error, after which it may or may not be stored. *)
Inductive Answer := Stored | Refused | Failed (stored : bool).

(** [mutationFn], by the answer each option's update gets: the options on the
    server, and whether it returned. *)
Fixpoint send_updates (answer : Setting → Answer) (texts : Setting → jstr) (updates : list (Setting * jstr)) :
    (Setting → jstr) * bool :=
  match updates with
  | [] => (texts, true)
  | (s, v) :: updates =>
      match answer s with
      | Stored => send_updates answer (<[s := v]> texts) updates
      | Refused => send_updates answer texts updates
      | Failed stored => (if stored then <[s := v]> texts else texts, false)
      end
  end.

(** ** Conflicts *)

Definition findSourceChannel (differences : DifferencesMap) (model : jstr) (t : RatioType) (value : SyncValue) : jstr :=
  match (d ← map_get differences model; map_get d t) with
  | None => js "Unknown"
  | Some e => match find (λ u : jstr * SyncValue, same_value (Some u.2) (Some value)) (own_entries (upstreams e)) with
              | Some u => u.1
              | None => js "Unknown"
              end
  end.

Definition getLocalBillingCategory (model : jstr) (maps : Settings) : option Category :=
  if map_has (maps ModelPrice) model then Some CatPrice
  else if existsb (λ s, map_has (maps s) model) ratio_options then Some CatRatio else None.

Definition new_category (own : Resolution) : Category :=
  if has_price own then CatPrice else if has_ratio own then CatRatio else CatTiered.

Record ConflictItem := { cf_channel : jstr; cf_model : jstr; cf_current : jstr; cf_newVal : jstr }.

Definition value_text (v : SyncValue) : jstr :=
  match v with VNull => js "null" | VNum x => string_of_number x | VStr s => s end.

Section conflicts.
Context (t : string → jstr).

Definition or_dash (v : option json) : jstr := string_of_json (nullish_or v (str "-")).

Definition resolution_or_dash (own : Resolution) (f : RatioType) : jstr :=
  match map_get own f with None | Some VNull => js "-" | Some v => value_text v end.

Definition two_lines (model_value completion_value : jstr) : jstr :=
  t "Model ratio" ++ js ": " ++ model_value ++ [c_nl] ++ t "Completion ratio" ++ js ": " ++ completion_value.

Definition current_description (local : Category) (model : jstr) (maps : Settings) : jstr :=
  match local with
  | CatPrice => t "Fixed price" ++ js ": " ++ default (js "undefined") (string_of_json <$> obj_get (maps ModelPrice) model)
  | _ => two_lines (or_dash (obj_get (maps ModelRatio) model)) (or_dash (obj_get (maps CompletionRatio) model))
  end.

Definition new_description (c : Category) (own : Resolution) : jstr :=
  match c with
  | CatPrice => t "Fixed price" ++ js ": " ++ default (js "undefined") (value_text <$> map_get own model_price)
  | _ => two_lines (resolution_or_dash own model_ratio) (resolution_or_dash own completion_ratio)
  end.

Definition model_conflict (differences : DifferencesMap) (maps : Settings) (e : jstr * Resolution) : list ConflictItem :=
  let newCat := new_category e.2 in
  match getLocalBillingCategory e.1 maps with
  | Some localCat =>
      if negb (bool_decide (newCat = CatTiered)) && negb (bool_decide (localCat = newCat))
      then [{| cf_channel := join (js ", ") (js_set (map (λ r : RatioType * SyncValue, findSourceChannel differences e.1 r.1 r.2) e.2));
               cf_model := e.1; cf_current := current_description localCat e.1 maps;
               cf_newVal := new_description newCat e.2 |}]
      else []
  | None => []
  end.

Definition conflicts (differences : DifferencesMap) (resolutions : ResolutionsMap) (maps : Settings) : list ConflictItem :=
  concat (map (model_conflict differences maps) (own_entries resolutions)).
End conflicts.

(** ** Channels *)

Record UpstreamChannel := { ch_id : Z; ch_name : jstr; ch_base_url : jstr; ch_type : option Z }.
Record UpstreamConfig := { up_id : Z; up_name : jstr; up_base_url : jstr; up_endpoint : jstr }.

Definition DEFAULT_ENDPOINT : jstr := js "/api/pricing".
Definition OFFICIAL_CHANNEL_ID : Z := -100.
Definition OFFICIAL_CHANNEL_ENDPOINT : jstr := js "/llm-metadata/api/newapi/ratio_config-v1-base.json".
Definition MODELS_DEV_PRESET_ID : Z := -101.
Definition MODELS_DEV_PRESET_ENDPOINT : jstr := js "https://models.dev/api.json".
Definition OPENROUTER_ENDPOINT : jstr := js "openrouter".
Definition OPENROUTER_CHANNEL_TYPE : Z := 20.

Definition getDefaultEndpointForChannel (channel : UpstreamChannel) : jstr :=
  if decide (ch_id channel = MODELS_DEV_PRESET_ID) then MODELS_DEV_PRESET_ENDPOINT
  else if decide (ch_id channel = OFFICIAL_CHANNEL_ID) then OFFICIAL_CHANNEL_ENDPOINT
  else if decide (ch_type channel = Some OPENROUTER_CHANNEL_TYPE) then OPENROUTER_ENDPOINT
  else DEFAULT_ENDPOINT.

(** [o[id] || d] *)
Definition endpoint_or (endpoints : list (Z * jstr)) (id : Z) (d : jstr) : jstr :=
  match map_get endpoints id with Some (c :: u) => c :: u | _ => d end.

(** The effect that gives the listed channels their endpoints. *)
Definition fill_endpoints (channels : list UpstreamChannel) (prev : list (Z * jstr)) : list (Z * jstr) :=
  foldl (λ next ch, map_set next (ch_id ch) (endpoint_or next (ch_id ch) (getDefaultEndpointForChannel ch))) prev channels.

(** The request, or none and a warning. *)
Definition handleConfirmChannelSelection (channels : list UpstreamChannel) (endpoints : list (Z * jstr)) (selectedIds : list Z) :
    option (list UpstreamConfig) :=
  match filterb (λ ch, bool_decide (ch_id ch ∈ selectedIds)) channels with
  | [] => None
  | selected => Some (map (λ ch, {| up_id := ch_id ch; up_name := ch_name ch; up_base_url := ch_base_url ch;
                                   up_endpoint := endpoint_or endpoints (ch_id ch) DEFAULT_ENDPOINT |}) selected)
  end.

(** ** The store of the fetched answer *)

Abbreviation Store := (list RatioTypes).
Abbreviation References := (list (jstr * nat)).

Definition read_differences (store : Store) (refs : References) : DifferencesMap :=
  map (λ e : jstr * nat, (e.1, default [] (store !! e.2))) refs.

(** A parsed answer is new objects. *)
Definition allocate (store : Store) (data : DifferencesMap) : Store * References :=
  (store ++ map snd data, zip (map fst data) (seq (length store) (length data))).

(** [delete newDiffs[model][ratioType]], and the model with its last field *)
Definition drop_field (model : jstr) (st : Store * References) (t : RatioType) : Store * References :=
  match map_get st.2 model with
  | None => st
  | Some l =>
      match st.1 !! l with
      | None => st
      | Some d =>
          if map_has d t
          then let d := map_delete d t in
               (<[l := d]> st.1, if nonempty d then st.2 else map_delete st.2 model)
          else st
      end
  end.

Definition drop_fields (st : Store * References) (e : jstr * Resolution) : Store * References :=
  foldl (drop_field e.1) st (map fst e.2).

(** The updater of the differences after a sync. *)
Definition drop_resolved (resolutions : ResolutionsMap) (st : Store * References) : Store * References :=
  foldl drop_fields st (own_entries resolutions).

(** ** The page *)

(** What the page waits for. *)
Inductive Phase := Idle | Fetching | Syncing (updates : list (Setting * jstr)).

Record RatioSync := {
  rs_store : Store;
  rs_differences : References;
  rs_resolutions : ResolutionsMap;
  rs_conflictItems : list ConflictItem;
  rs_conflictDialogOpen : bool;
  rs_phase : Phase;
  rs_server : Setting → jstr;
  rs_modelRatios : Setting → jstr;
}.

Definition differences (rs : RatioSync) : DifferencesMap := read_differences (rs_store rs) (rs_differences rs).

Definition opened (texts : Setting → jstr) : RatioSync :=
  {| rs_store := []; rs_differences := []; rs_resolutions := []; rs_conflictItems := []; rs_conflictDialogOpen := false;
     rs_phase := Idle; rs_server := texts; rs_modelRatios := texts |}.

Definition set_phase (p : Phase) (rs : RatioSync) : RatioSync :=
  {| rs_store := rs_store rs; rs_differences := rs_differences rs; rs_resolutions := rs_resolutions rs;
     rs_conflictItems := rs_conflictItems rs; rs_conflictDialogOpen := rs_conflictDialogOpen rs; rs_phase := p;
     rs_server := rs_server rs; rs_modelRatios := rs_modelRatios rs |}.

Definition set_resolutions (res : ResolutionsMap) (rs : RatioSync) : RatioSync :=
  {| rs_store := rs_store rs; rs_differences := rs_differences rs; rs_resolutions := res;
     rs_conflictItems := rs_conflictItems rs; rs_conflictDialogOpen := rs_conflictDialogOpen rs; rs_phase := rs_phase rs;
     rs_server := rs_server rs; rs_modelRatios := rs_modelRatios rs |}.

Definition set_dialog (items : list ConflictItem) (open : bool) (rs : RatioSync) : RatioSync :=
  {| rs_store := rs_store rs; rs_differences := rs_differences rs; rs_resolutions := rs_resolutions rs;
     rs_conflictItems := items; rs_conflictDialogOpen := open; rs_phase := rs_phase rs;
     rs_server := rs_server rs; rs_modelRatios := rs_modelRatios rs |}.

Definition set_differences (st : Store * References) (rs : RatioSync) : RatioSync :=
  {| rs_store := st.1; rs_differences := st.2; rs_resolutions := rs_resolutions rs;
     rs_conflictItems := rs_conflictItems rs; rs_conflictDialogOpen := rs_conflictDialogOpen rs; rs_phase := rs_phase rs;
     rs_server := rs_server rs; rs_modelRatios := rs_modelRatios rs |}.

Definition set_texts (server props : Setting → jstr) (rs : RatioSync) : RatioSync :=
  {| rs_store := rs_store rs; rs_differences := rs_differences rs; rs_resolutions := rs_resolutions rs;
     rs_conflictItems := rs_conflictItems rs; rs_conflictDialogOpen := rs_conflictDialogOpen rs; rs_phase := rs_phase rs;
     rs_server := server; rs_modelRatios := props |}.

(** The fetched answer replaces the differences and the resolutions. *)
Definition fetched (data : DifferencesMap) (rs : RatioSync) : RatioSync :=
  set_phase Idle (set_resolutions [] (set_differences (allocate (rs_store rs) data) rs)).

(** Start a sync; [None] when a setting is outside the model or writing throws. *)
Definition start_sync (rs : RatioSync) : option RatioSync :=
  maps ← parsedRatios (rs_modelRatios rs);
  match performSync (rs_resolutions rs) maps with
  | Ret updates => Some (set_phase (Syncing updates) rs)
  | Throw => None
  end.

Definition handleApplySync (t : string → jstr) (rs : RatioSync) : option RatioSync :=
  maps ← parsedRatios (rs_modelRatios rs);
  match conflicts t (differences rs) (rs_resolutions rs) maps with
  | [] => start_sync rs
  | items => Some (set_dialog items true rs)
  end.

(** The server has answered; the dialog, when open, closes on success. *)
Definition finish_sync (answer : Setting → Answer) (rs : RatioSync) : RatioSync :=
  match rs_phase rs with
  | Syncing updates =>
      let '(server, ok) := send_updates answer (rs_server rs) updates in
      let rs := set_phase Idle (set_texts server (rs_modelRatios rs) rs) in
      if ok
      then set_dialog (rs_conflictItems rs) false (set_resolutions []
             (set_differences (drop_resolved (rs_resolutions rs) (rs_store rs, rs_differences rs)) rs))
      else rs
  | _ => rs
  end.

(** A parsed answer: unique keys, channels with names, no [NaN]. *)
Definition entry_ok (e : RatioDifferenceEntry) : Prop :=
  well_keyed (upstreams e) ∧ ([] ∉ map fst (upstreams e))
  ∧ Forall (λ u : jstr * SyncValue, same_value (Some u.2) (Some u.2) = true) (upstreams e).
Definition answer_ok (data : DifferencesMap) : Prop :=
  well_keyed data ∧ Forall (λ e, well_keyed e.2 ∧ Forall (λ f, entry_ok f.2) e.2) data.

(** What can happen to the page; its controls are disabled while it waits. *)
Inductive sync_step (t : string → jstr) (toLowerCase : jstr → jstr) : RatioSync → RatioSync → Prop :=
| step_fetch rs : rs_phase rs = Idle → sync_step t toLowerCase rs (set_phase Fetching rs)
| step_fetched rs data :
    rs_phase rs = Fetching → answer_ok data → sync_step t toLowerCase rs (fetched data rs)
| step_fetch_failed rs : rs_phase rs = Fetching → sync_step t toLowerCase rs (set_phase Idle rs)
| step_select rs row f upstream v :
    rs_phase rs = Idle → row ∈ dataSource (differences rs) → selectable_field row upstream f = true →
    upstream_value (row_ratioTypes row) f upstream = Some v →
    sync_step t toLowerCase rs
      (set_resolutions (handleSelectValue (differences rs) (row_model row) f v upstream (rs_resolutions rs)) rs)
| step_unselect rs model f :
    rs_phase rs = Idle →
    sync_step t toLowerCase rs (set_resolutions (handleUnselectValue model f (rs_resolutions rs)) rs)
| step_bulk_select rs search filter upstream :
    rs_phase rs = Idle →
    sync_step t toLowerCase rs
      (set_resolutions (handleBulkSelect (differences rs) filter upstream
         (filteredData toLowerCase search filter (dataSource (differences rs))) (rs_resolutions rs)) rs)
| step_bulk_unselect rs search filter upstream :
    rs_phase rs = Idle →
    sync_step t toLowerCase rs
      (set_resolutions (handleBulkUnselect filter upstream
         (filteredData toLowerCase search filter (dataSource (differences rs))) (rs_resolutions rs)) rs)
| step_apply rs rs' :
    rs_phase rs = Idle → rs_conflictDialogOpen rs = false → rs_resolutions rs ≠ [] → handleApplySync t rs = Some rs' → sync_step t toLowerCase rs rs'
| step_confirm rs rs' :
    rs_phase rs = Idle → rs_conflictDialogOpen rs = true → start_sync rs = Some rs' → sync_step t toLowerCase rs rs'
| step_cancel rs : sync_step t toLowerCase rs (set_dialog (rs_conflictItems rs) false rs)
| step_synced rs answer updates :
    rs_phase rs = Syncing updates → sync_step t toLowerCase rs (finish_sync answer rs)
| step_refreshed rs : sync_step t toLowerCase rs (set_texts (rs_server rs) (rs_server rs) rs).
