(* ===== verification/RatioSyncProps.v ===== *)
(** * Prices taken from upstream channels: what a sync writes *)

From Stdlib Require Import String.
From stdpp Require Import functions.
From S2P Require Import JsArith JsonText JsObject BillingExpr ModelPricing ModelPricingTable ModelPricingTableProps RatioSync.

#[local] Opaque js string_of_number number_of_string json_stringify_2.

(** ** Maps *)

Section maps.
Context {K V : Type} `{!EqDecision K}.
Implicit Types (m : list (K * V)).

Lemma Forall_map_set (P : K * V → Prop) m k v : Forall P m → P (k, v) → Forall P (map_set m k v).
Proof.
  intros Hm Hv. induction Hm as [|[k' w] m Hk Hm IH]; cbn [map_set]; [by repeat constructor|].
  destruct (decide (k' = k)) as [->|]; by constructor.
Qed.

Lemma Forall_map_delete (P : K * V → Prop) m k : Forall P m → Forall P (map_delete m k).
Proof. rewrite !Forall_forall. unfold map_delete. intros Hm e [He _]%elem_of_filterb. auto. Qed.

Lemma Forall_map_get (P : K * V → Prop) m k v : Forall P m → map_get m k = Some v → P (k, v).
Proof. rewrite Forall_forall. intros Hm Hg. by apply Hm, map_get_Some_elem. Qed.

Lemma map_get_Permutation m m' k : well_keyed m → m ≡ₚ m' → map_get m' k = map_get m k.
Proof.
  intros Hm Hp. assert (Hm' : well_keyed m') by (unfold well_keyed in *; by rewrite <- Hp).
  destruct (map_get m k) as [v|] eqn:E.
  - apply map_get_elem; [done|]. rewrite <- Hp. by apply map_get_Some_elem.
  - apply map_get_None. rewrite <- Hp. by apply map_get_None.
Qed.

Lemma map_has_set m k v k' : map_has (map_set m k v) k' = bool_decide (k = k') || map_has m k'.
Proof. unfold map_has. rewrite map_get_set. by destruct (decide (k = k')); [rewrite bool_decide_eq_true_2|rewrite bool_decide_eq_false_2]. Qed.

Lemma map_has_delete m k k' : map_has (map_delete m k) k' = negb (bool_decide (k = k')) && map_has m k'.
Proof. unfold map_has. rewrite map_get_delete. by destruct (decide (k = k')); [rewrite bool_decide_eq_true_2|rewrite bool_decide_eq_false_2]. Qed.

Lemma map_get_filterb (p : K → bool) m k :
  map_get (filterb (λ e, p e.1) m) k = if p k then map_get m k else None.
Proof.
  induction m as [|[k' v] m IH]; cbn; [by destruct (p k)|]. destruct (p k') eqn:Ep; cbn.
  - destruct (decide (k' = k)) as [->|]; [by rewrite Ep|done].
  - change (List.filter _ m) with (filterb (λ e : K * V, p e.1) m). rewrite IH.
    destruct (decide (k' = k)) as [->|]; [by rewrite Ep|done].
Qed.

Lemma filterb_well_keyed (p : K * V → bool) m : well_keyed m → well_keyed (filterb p m).
Proof.
  unfold well_keyed. induction m as [|e m IH]; [done|]. cbn [map]. intros [Hn Hm]%NoDup_cons. unfold filterb. cbn [List.filter].
  destruct (p e); [|by apply IH]. cbn [map]. apply NoDup_cons. split; [|by apply IH].
  intros (e' & Ee & [He' _]%elem_of_filterb)%list_elem_of_fmap. apply Hn, list_elem_of_fmap. eauto.
Qed.
End maps.

Lemma map_get_own_entries {V} (o : list (jstr * V)) k : well_keyed o → map_get (own_entries o) k = map_get o k.
Proof. intros Ho. apply map_get_Permutation; [done|]. by rewrite own_entries_Permutation. Qed.

Lemma own_entries_well_keyed {V} (o : list (jstr * V)) : well_keyed o → well_keyed (own_entries o).
Proof. unfold well_keyed. by rewrite own_entries_Permutation. Qed.

(** ** The setting of a field *)

Definition field_setting (t : RatioType) : Setting :=
  match t with
  | model_ratio => ModelRatio | completion_ratio => CompletionRatio | cache_ratio => CacheRatio
  | create_cache_ratio => CreateCacheRatio | image_ratio => ImageRatio | audio_ratio => AudioRatio
  | audio_completion_ratio => AudioCompletionRatio | model_price => ModelPrice
  | billing_mode => BillingMode | billing_expr => BillingExpr
  end.

Definition setting_field (s : Setting) : option RatioType :=
  match s with
  | ModelRatio => Some model_ratio | CompletionRatio => Some completion_ratio | CacheRatio => Some cache_ratio
  | CreateCacheRatio => Some create_cache_ratio | ImageRatio => Some image_ratio | AudioRatio => Some audio_ratio
  | AudioCompletionRatio => Some audio_completion_ratio | ModelPrice => Some model_price
  | BillingMode => Some billing_mode | BillingExpr => Some billing_expr | VideoTokenPrice => None
  end.

Lemma option_of_field t : option_setting (optionKeyBySyncField t) = Some (field_setting t).
Proof. destruct t; by_eval. Qed.

Lemma setting_field_setting s t : setting_field s = Some t ↔ field_setting t = s.
Proof. destruct s, t; cbn; split; congruence. Qed.

(** The entry a resolution puts into a setting. *)
Definition written (own : Resolution) (s : Setting) : option json :=
  t ← setting_field s; synced_value t <$> map_get own t.

(** What a sync leaves of a model in a setting: the value taken, nothing when
    the model moves to the other way of billing, else what was there. *)
Definition moves_away (own : Resolution) (s : Setting) : bool :=
  (has_price own && bool_decide (s ∈ ratio_options)) || (has_ratio own && bool_decide (s = ModelPrice)).

Definition synced_entry (maps : Settings) (own : Resolution) (name : jstr) (s : Setting) : option json :=
  match written own s with
  | Some v => Some v
  | None => if moves_away own s then None else obj_get (maps s) name
  end.

Lemma setting_insert (maps : Settings) s o : (<[s := o]> maps : Settings) s = o.
Proof. apply (fn_lookup_insert (A := Setting)). Qed.

Lemma setting_insert_ne (maps : Settings) s s' o : s ≠ s' → (<[s := o]> maps : Settings) s' = maps s'.
Proof. apply (fn_lookup_insert_ne (A := Setting)). Qed.

Lemma delete_entries_at name l maps s n :
  obj_get (delete_entries name l maps s) n = if decide (n = name ∧ s ∈ l) then None else obj_get (maps s) n.
Proof.
  unfold delete_entries. revert maps; induction l as [|s' l IH]; intros maps; cbn [foldl].
  - rewrite decide_False by (intros [_ H]; by apply elem_of_nil in H). done.
  - rewrite IH. destruct (decide (s' = s)) as [->|Hs].
    + rewrite setting_insert, map_get_delete. destruct (decide (n = name)) as [->|Hn].
      * rewrite (decide_True (P := name = name ∧ s ∈ s :: l)) by (split; [done|by left]).
        destruct (decide (name = name ∧ s ∈ l)); [done|]. by rewrite decide_True.
      * rewrite !(decide_False (P := n = name ∧ _)) by (by intros [? _]). by rewrite decide_False by congruence.
    + rewrite setting_insert_ne by done. apply decide_ext. rewrite elem_of_cons. naive_solver.
Qed.

Lemma write_resolutions_at name l maps :
  well_keyed l →
  ∃ maps', write_resolutions name maps l = Ret maps'
    ∧ ∀ s n, obj_get (maps' s) n =
        if decide (n = name) then match written l s with Some v => Some v | None => obj_get (maps s) n end
        else obj_get (maps s) n.
Proof.
  revert maps; induction l as [|[t v] l IH]; intros maps Hl.
  { exists maps. split; [done|]. intros s n. unfold written. destruct (setting_field s); cbn; by destruct (decide _). }
  apply NoDup_cons in Hl as [Ht Hl]. cbn [fst snd] in Ht. cbn [write_resolutions]. unfold write_resolution. cbn [fst snd].
  rewrite option_of_field. cbn [mbind outcome_bind].
  destruct (IH (<[field_setting t := obj_set (maps (field_setting t)) name (synced_value t v)]> maps) Hl) as (maps' & E & Hm).
  exists maps'. split; [done|]. intros s n. rewrite Hm. unfold written. destruct (decide (field_setting t = s)) as [<-|Hs].
  - rewrite (proj2 (setting_field_setting (field_setting t) t)) by done. cbn [mbind option_bind map_get].
    rewrite (decide_True (P := t = t)), setting_insert by done. rewrite (proj2 (map_get_None l t)) by done. cbn.
    destruct (decide (n = name)) as [->|Hn]; [by rewrite map_get_set_eq|by rewrite map_get_set_ne].
  - rewrite setting_insert_ne by done. destruct (setting_field s) as [t'|] eqn:Es; [|done]. cbn [mbind option_bind map_get].
    rewrite (decide_False (P := t = t')); [done|]. intros ->. apply Hs. by apply setting_field_setting.
Qed.

Lemma sync_model_at maps e :
  well_keyed e.2 →
  ∃ maps', sync_model maps e = Ret maps'
    ∧ ∀ s n, obj_get (maps' s) n = if decide (n = e.1) then synced_entry maps e.2 n s else obj_get (maps s) n.
Proof.
  destruct e as [name own]. cbn [fst snd]. intros Ho. unfold sync_model. cbn [fst snd]. cbv zeta.
  match goal with |- context [write_resolutions name ?m own] => set (cleared := m) end.
  destruct (write_resolutions_at name own cleared Ho) as (maps' & E & Hm). exists maps'. split; [done|].
  intros s n. rewrite Hm. unfold synced_entry, moves_away.
  assert (Hc : obj_get (cleared s) n =
    if decide (n = name) then
      if (has_price own && bool_decide (s ∈ ratio_options)) || (has_ratio own && bool_decide (s = ModelPrice)) then None
      else obj_get (maps s) n
    else obj_get (maps s) n).
  { unfold cleared. destruct (decide (n = name)) as [->|Hn].
    - destruct (has_price own), (has_ratio own); cbn [andb orb]; rewrite ?delete_entries_at;
        repeat case_decide; repeat case_bool_decide; cbn [orb]; set_solver.
    - destruct (has_price own), (has_ratio own); rewrite ?delete_entries_at; repeat case_decide; naive_solver. }
  rewrite Hc. by destruct (decide (n = name)).
Qed.

Lemma sync_models_at l maps :
  well_keyed l → Forall (λ e, well_keyed e.2) l →
  ∃ maps', sync_models maps l = Ret maps'
    ∧ ∀ s n, obj_get (maps' s) n =
        match map_get l n with Some own => synced_entry maps own n s | None => obj_get (maps s) n end.
Proof.
  revert maps; induction l as [|[name own] l IH]; intros maps Hl Ho; [by exists maps|].
  apply NoDup_cons in Hl as [Hn Hl]. apply Forall_cons in Ho as [Hown Ho]. cbn [fst snd] in *. cbn [sync_models map_get].
  destruct (sync_model_at maps (name, own) Hown) as (m1 & E1 & H1). cbn [fst snd] in H1.
  destruct (IH m1 Hl Ho) as (m2 & E2 & H2). exists m2. rewrite E1. split; [done|]. intros s n. rewrite H2.
  destruct (decide (name = n)) as [->|Hne].
  - rewrite (proj2 (map_get_None l n)) by done. rewrite H1. by rewrite decide_True.
  - rewrite H1. rewrite decide_False by congruence. destruct (map_get l n); [|done].
    unfold synced_entry. rewrite H1. by rewrite decide_False by congruence.
Qed.
