(* ===== verification/RatioSyncInv.v ===== *)
(** * Prices taken from upstream channels: the selections

    The invariant of the selections, which every event keeps, the bulk
    selection, and the answer whose objects the page and its updaters share. *)

From Stdlib Require Import String.
From stdpp Require Import functions.
From S2P Require Import JsonText JsObject JsArith BillingExpr ModelPricing ModelPricingTable RatioSync RatioSyncProps.

#[local] Opaque js string_of_number number_of_string json_stringify_2.

(** ** The invariant of a model's selection *)

(** A value some upstream offers for the field, or the mode that goes with an
    expression. *)
Definition offered (d : option RatioTypes) (e : RatioType * SyncValue) : Prop :=
  (∃ s, (d ≫= λ d, upstream_value d e.1 s) = Some e.2 ∧ isSelectableUpstreamValue (Some e.2) = true)
  ∨ e = (billing_mode, VStr (js "tiered_expr")).

(** A price and ratios are not selected together, and an expression comes with
    a mode. *)
Record selection_ok (d : option RatioTypes) (own : Resolution) : Prop := {
  so_keyed : well_keyed own;
  so_one_category : has_price own && has_ratio own = false;
  so_mode : map_has own billing_expr = true → map_has own billing_mode = true;
  so_offered : Forall (offered d) own;
}.

Definition selections_ok (diffs : DifferencesMap) (res : ResolutionsMap) : Prop :=
  well_keyed res ∧ Forall (λ e, selection_ok (map_get diffs e.1) e.2 ∧ e.2 ≠ []) res.

Lemma selection_ok_nil d : selection_ok d [].
Proof. split; [apply NoDup_nil_2|done|done|constructor]. Qed.

Lemma selections_ok_nil diffs : selections_ok diffs [].
Proof. split; [apply NoDup_nil_2|constructor]. Qed.

Lemma selections_ok_own diffs res m own : selections_ok diffs res → map_get res m = Some own → selection_ok (map_get diffs m) own.
Proof. intros [_ Hf] Hg. by destruct (Forall_map_get _ _ _ _ Hf Hg) as [H _]. Qed.

Lemma selections_ok_get diffs res m : selections_ok diffs res → selection_ok (map_get diffs m) (default [] (map_get res m)).
Proof.
  intros Hres. destruct (map_get res m) as [own|] eqn:E; [by eapply selections_ok_own|apply selection_ok_nil].
Qed.

Lemma selections_ok_set diffs res m own :
  selections_ok diffs res → selection_ok (map_get diffs m) own → own ≠ [] → selections_ok diffs (map_set res m own).
Proof. intros [Hk Hf] Ho Hn. split; [by apply map_set_well_keyed|]. by apply Forall_map_set. Qed.

(** Membership of fields under filters. *)
Lemma has_ratio_iff own : has_ratio own = true ↔ ∃ f, f ∈ RATIO_SYNC_FIELDS ∧ map_has own f = true.
Proof.
  unfold has_ratio. rewrite existsb_exists. split; intros (f & Hf & Ho); exists f; (split; [|done]);
    by apply list_elem_of_In.
Qed.

Lemma category_of_ratio f : f ∈ RATIO_SYNC_FIELDS ↔ getBillingCategory f = CatRatio.
Proof. destruct f; cbn; split; intros H; try done; try (by apply (bool_decide_unpack _)); by apply (bool_decide_pack _) in H. Qed.

(** ** Unselecting keeps it *)

Lemma selection_ok_delete d own f :
  f ≠ billing_mode → selection_ok d own → selection_ok d (map_delete own f).
Proof.
  intros Hf [Hk Hc Hm Ho]. split; [by apply map_delete_well_keyed| | |by apply Forall_map_delete].
  - apply not_true_iff_false. rewrite andb_true_iff, has_ratio_iff. unfold has_price.
    intros (Hp & g & Hg & Hr). rewrite map_has_delete in Hp, Hr. apply andb_true_iff in Hp as [_ Hp], Hr as [_ Hr].
    apply not_true_iff_false in Hc. apply Hc. rewrite andb_true_iff, has_ratio_iff. eauto.
  - rewrite !map_has_delete. intros [_ H]%andb_true_iff. rewrite (Hm H). by rewrite bool_decide_eq_false_2.
Qed.

Lemma selection_ok_delete_tiered d own :
  selection_ok d own → selection_ok d (map_delete (map_delete own billing_expr) billing_mode).
Proof.
  intros Hown. pose proof (selection_ok_delete d own billing_expr ltac:(done) Hown) as [Hk Hc Hm Ho].
  split; [by apply map_delete_well_keyed| | |by apply Forall_map_delete].
  - apply not_true_iff_false. rewrite andb_true_iff, has_ratio_iff. unfold has_price.
    intros (Hp & g & Hg & Hr). rewrite map_has_delete in Hp, Hr. apply andb_true_iff in Hp as [_ Hp], Hr as [_ Hr].
    apply not_true_iff_false in Hc. apply Hc. rewrite andb_true_iff, has_ratio_iff. eauto.
  - rewrite !map_has_delete. cbn. done.
Qed.

Lemma map_delete_comm {K V} `{!EqDecision K} (m : list (K * V)) a b : map_delete (map_delete m a) b = map_delete (map_delete m b) a.
Proof. unfold map_delete. rewrite !filterb_filterb. apply filterb_ext. intros x. apply andb_comm. Qed.

Lemma selections_ok_unselect diffs res m f : selections_ok diffs res → selections_ok diffs (handleUnselectValue m f res).
Proof.
  intros Hres. unfold handleUnselectValue, deleteResolutionField. destruct (map_get res m) as [own|] eqn:E; [|done]. cbv zeta.
  pose proof (selections_ok_own _ _ _ _ Hres E) as Hown.
  match goal with |- context [nonempty ?o] => set (left_over := o) end.
  assert (Hl : selection_ok (map_get diffs m) left_over).
  { unfold left_over. destruct (decide (f = billing_expr)) as [->|He]; [by apply selection_ok_delete_tiered|].
    destruct (decide (f = billing_mode)) as [->|Hm]; [|by apply selection_ok_delete].
    rewrite map_delete_comm. by apply selection_ok_delete_tiered. }
  destruct left_over as [|e l]; cbn [nonempty]; [|by apply selections_ok_set].
  destruct Hres as [Hk Hf]. split; [by apply map_delete_well_keyed|by apply Forall_map_delete].
Qed.

(** ** Selecting keeps it *)

Lemma clear_conflicts_get c own f :
  map_get (clear_conflicts c own) f =
  if bool_decide (c = CatTiered) || bool_decide (getBillingCategory f = CatTiered) || bool_decide (getBillingCategory f = c)
  then map_get own f else None.
Proof.
  unfold clear_conflicts. etrans; [apply (map_get_filterb (λ g, negb (conflicts_with c g)))|].
  unfold conflicts_with. by rewrite !negb_andb, !negb_involutive.
Qed.

Lemma has_of_get {K V} `{!EqDecision K} (m m' : list (K * V)) k : map_get m k = map_get m' k → map_has m k = map_has m' k.
Proof. unfold map_has. by intros ->. Qed.

Lemma selection_ok_cleared d own f v :
  f ≠ billing_expr ∨ map_has own billing_mode = true →
  selection_ok d own → offered d (f, v) → selection_ok d (map_set (clear_conflicts (getBillingCategory f) own) f v).
Proof.
  intros Hf [Hk Hc Hm Ho] Hv. split.
  - by apply map_set_well_keyed, filterb_well_keyed.
  - apply not_true_iff_false. rewrite andb_true_iff, has_ratio_iff. unfold has_price.
    intros (Hp & g & Hg & Hr). rewrite map_has_set in Hp, Hr.
    unfold map_has in Hp at 1. unfold map_has in Hr at 1. rewrite clear_conflicts_get in Hp, Hr.
    apply category_of_ratio in Hg as Hg'. rewrite Hg' in Hr. cbn [getBillingCategory] in Hp.
    apply not_true_iff_false in Hc.
    destruct (getBillingCategory f) eqn:Ef; cbn in Hp, Hr.
    + rewrite orb_false_r in Hr. apply bool_decide_eq_true in Hr as ->. congruence.
    + rewrite orb_false_r in Hp. apply bool_decide_eq_true in Hp as ->. done.
    + apply Hc. rewrite andb_true_iff, has_ratio_iff. split.
      * apply orb_true_iff in Hp as [->%bool_decide_eq_true|Hp]; [done|exact Hp].
      * exists g. split; [done|]. apply orb_true_iff in Hr as [->%bool_decide_eq_true|Hr]; [congruence|exact Hr].
  - rewrite !map_has_set. unfold map_has at 1 2. rewrite !clear_conflicts_get. cbn [getBillingCategory].
    rewrite !(bool_decide_eq_true_2 (CatTiered = CatTiered)) by done. rewrite !orb_true_r. cbn [orb].
    destruct Hf as [Hf|Hf]; [rewrite (bool_decide_eq_false_2 (f = billing_expr)) by done; cbn [orb]; intros H|intros _];
      apply orb_true_iff; right; [by apply Hm|done].
  - apply Forall_map_set; [|done]. revert Ho. rewrite !Forall_forall. unfold clear_conflicts. intros Ho e [He _]%elem_of_filterb. auto.
Qed.

(** The invariant short of [so_mode], which tiered fields keep. *)
Definition selection_pre (d : option RatioTypes) (own : Resolution) : Prop :=
  well_keyed own ∧ has_price own && has_ratio own = false ∧ Forall (offered d) own.

Lemma selection_ok_pre d own : selection_ok d own → selection_pre d own.
Proof. by intros [? ? _ ?]. Qed.

Lemma selection_pre_mode d own : selection_pre d own → map_has own billing_mode = true → selection_ok d own.
Proof. intros (? & ? & ?) Hm. by split. Qed.

Lemma selection_pre_tiered d own f v :
  getBillingCategory f = CatTiered → offered d (f, v) → selection_pre d own → selection_pre d (map_set own f v).
Proof.
  intros Hf Hv (Hk & Hc & Ho). split; [by apply map_set_well_keyed|]. split; [|by apply Forall_map_set].
  rewrite <- Hc. unfold has_price, has_ratio, RATIO_SYNC_FIELDS. cbn [existsb]. rewrite !map_has_set.
  by destruct f.
Qed.

(** What a tiered field takes along. *)
Lemma pair_tiered_ok d s f own v :
  getBillingCategory f = CatTiered → upstream_value d f s = Some v → isSelectableUpstreamValue (Some v) = true →
  selection_pre (Some d) own → selection_ok (Some d) (pair_tiered d s f (map_set own f v)).
Proof.
  intros Hf Hv Hsel Hown.
  assert (Hoff : ∀ g w, upstream_value d g s = Some w → isSelectableUpstreamValue (Some w) = true → offered (Some d) (g, w))
    by (intros g w Hg Hw; left; by exists s).
  assert (Hpre : selection_pre (Some d) (map_set own f v)) by (apply selection_pre_tiered; auto).
  unfold pair_tiered. cbv zeta.
  match goal with |- context [match upstream_value d billing_expr s with _ => _ end] => idtac end.
  set (paired := match upstream_value d billing_mode s with Some _ => _ | None => _ end).
  assert (Hp : selection_pre (Some d) paired ∧ map_has paired billing_mode = true).
  { unfold paired. destruct (upstream_value d billing_mode s) as [w|] eqn:Ew;
      [destruct (isSelectableUpstreamValue (Some w)) eqn:Es|].
    - split; [by apply selection_pre_tiered; auto|]. by rewrite map_has_set, bool_decide_eq_true_2.
    - destruct (decide (f = billing_expr)) as [->|Hne].
      + split; [apply selection_pre_tiered; [done|by right|done]|]. by rewrite map_has_set, bool_decide_eq_true_2.
      + destruct f; try done. congruence.
    - destruct (decide (f = billing_expr)) as [->|Hne].
      + split; [apply selection_pre_tiered; [done|by right|done]|]. by rewrite map_has_set, bool_decide_eq_true_2.
      + destruct f; try done. congruence. }
  clearbody paired. destruct Hp as [Hp Hm]. destruct (upstream_value d billing_expr s) as [w|] eqn:Ew;
    [|by apply selection_pre_mode]. destruct (isSelectableUpstreamValue (Some w)) eqn:Es; [|by apply selection_pre_mode].
  apply selection_pre_mode; [apply selection_pre_tiered; auto|]. rewrite map_has_set, Hm. by rewrite orb_true_r.
Qed.

Lemma clear_conflicts_tiered own : clear_conflicts CatTiered own = own.
Proof. unfold clear_conflicts. apply filterb_id, Forall_forall. intros e _. done. Qed.

Lemma select_field_ok d f v s own :
  upstream_value d f s = Some v → isSelectableUpstreamValue (Some v) = true → s ≠ [] →
  selection_ok (Some d) own → selection_ok (Some d) (select_field (Some d) f v s own).
Proof.
  intros Hv Hsel Hs Hown. unfold select_field. cbv zeta. rewrite (proj2 (nonempty_true s) Hs), andb_true_r.
  destruct (bool_decide (getBillingCategory f = CatTiered)) eqn:Hf.
  - apply bool_decide_eq_true in Hf. rewrite Hf, clear_conflicts_tiered. apply pair_tiered_ok; [done..|by apply selection_ok_pre].
  - apply bool_decide_eq_false in Hf. apply selection_ok_cleared; [|done|left; by exists s].
    left. by intros ->.
Qed.

(** ** The rows of the table *)

(** The differences as the page keeps them. *)
Definition differences_ok (diffs : DifferencesMap) : Prop :=
  well_keyed diffs ∧ Forall (λ e, well_keyed e.2 ∧ Forall (λ f, entry_ok f.2) e.2) diffs.

Lemma row_differences diffs row :
  differences_ok diffs → row ∈ dataSource diffs → map_get diffs (row_model row) = Some (row_ratioTypes row).
Proof.
  intros [Hk _] ([m d] & -> & Hin)%list_elem_of_fmap. cbn. apply map_get_elem; [done|]. by apply elem_of_own_entries.
Qed.

(** An offered value comes from a channel with a name. *)
Lemma upstream_named diffs m d f s v :
  differences_ok diffs → map_get diffs m = Some d → upstream_value d f s = Some v → s ≠ [].
Proof.
  intros [_ Hd] Hm Hv ->. destruct (Forall_map_get _ _ _ _ Hd Hm) as [_ Hes]. cbn in Hes.
  unfold upstream_value in Hv. destruct (map_get d f) as [e|] eqn:Ef; [|done]. cbn in Hv.
  destruct (Forall_map_get _ _ _ _ Hes Ef) as (_ & Hn & _). apply Hn. cbn.
  apply list_elem_of_fmap. exists ([], v). split; [done|]. by apply map_get_Some_elem.
Qed.

Lemma selectable_field_true row s f v :
  selectable_field row s f = true → upstream_value (row_ratioTypes row) f s = Some v →
  getPreferredSyncField (row_ratioTypes row) f s = f ∧ isSelectableUpstreamValue (Some v) = true.
Proof. unfold selectable_field. intros [->%bool_decide_eq_true ?]%andb_true_iff Hv. by rewrite Hv in *. Qed.

(** Selecting a cell of the table. *)
Lemma select_cell diffs row f s v prev :
  differences_ok diffs → row ∈ dataSource diffs → selectable_field row s f = true →
  upstream_value (row_ratioTypes row) f s = Some v →
  handleSelectValue diffs (row_model row) f v s prev
  = map_set prev (row_model row)
      (select_field (Some (row_ratioTypes row)) f v s (default [] (map_get prev (row_model row)))).
Proof.
  intros Hd Hrow Hf Hv. pose proof (row_differences _ _ Hd Hrow) as Hm. pose proof (upstream_named _ _ _ _ _ _ Hd Hm Hv) as Hs.
  destruct (selectable_field_true _ _ _ _ Hf Hv) as [Hpref _].
  unfold handleSelectValue. cbv zeta. rewrite Hm, (proj2 (nonempty_true s) Hs). cbn [default from_option id].
  rewrite Hpref. by rewrite decide_True.
Qed.

Lemma map_set_nonempty {K V} `{!EqDecision K} (m : list (K * V)) k v : map_set m k v ≠ [].
Proof. destruct m as [|[k' w] m]; cbn; [done|]. by destruct (decide _). Qed.

Lemma select_field_nonempty d f v s own : select_field d f v s own ≠ [].
Proof.
  unfold select_field, pair_tiered. cbv zeta. repeat case_match; apply map_set_nonempty.
Qed.

Lemma selections_ok_select diffs row f s v prev :
  differences_ok diffs → row ∈ dataSource diffs → selectable_field row s f = true →
  upstream_value (row_ratioTypes row) f s = Some v →
  selections_ok diffs prev → selections_ok diffs (handleSelectValue diffs (row_model row) f v s prev).
Proof.
  intros Hd Hrow Hf Hv Hprev. rewrite (select_cell _ _ _ _ _ _ Hd Hrow Hf Hv). pose proof (row_differences _ _ Hd Hrow) as Hm.
  apply selections_ok_set; [done| |apply select_field_nonempty]. rewrite Hm.
  destruct (selectable_field_true _ _ _ _ Hf Hv) as [_ Hsel].
  apply select_field_ok; [done..|by eapply upstream_named|]. rewrite <- Hm. by apply selections_ok_get.
Qed.

(** ** Bulk events *)

Lemma foldl_keeps {A B} (P : A → Prop) (f : A → B → A) l a :
  P a → (∀ a b, b ∈ l → P a → P (f a b)) → P (foldl f a l).
Proof.
  revert a; induction l as [|b l IH]; intros a Ha Hf; [done|]. cbn. apply IH.
  - apply Hf; [by left|done].
  - intros a' b' Hb. apply Hf. by right.
Qed.

Lemma filteredData_rows toLowerCase search filter rows row :
  row ∈ filteredData toLowerCase search filter rows → row ∈ rows.
Proof.
  unfold filteredData. cbv zeta. destruct filter; [intros [H _]%elem_of_filterb; revert H|];
    destruct (nonempty (trim search)); try done; by intros [? _]%elem_of_filterb.
Qed.

Lemma selections_ok_bulk_select diffs filter s rows prev :
  differences_ok diffs → (∀ row, row ∈ rows → row ∈ dataSource diffs) →
  selections_ok diffs prev → selections_ok diffs (handleBulkSelect diffs filter s rows prev).
Proof.
  intros Hd Hrows Hprev. unfold handleBulkSelect. apply foldl_keeps; [done|]. intros res row Hrow Hres.
  unfold bulk_select_row. apply foldl_keeps; [done|]. intros res' f _ Hres'. destruct (upstream_value _ _ _) as [v|] eqn:Hv; [|done].
  destruct (selectable_field row s f) eqn:Hf; [|done]. by apply selections_ok_select; auto.
Qed.

Lemma selections_ok_bulk_unselect diffs filter s rows prev :
  selections_ok diffs prev → selections_ok diffs (handleBulkUnselect filter s rows prev).
Proof.
  intros Hprev. unfold handleBulkUnselect. apply foldl_keeps; [done|]. intros res row _ Hres.
  unfold bulk_unselect_row. apply foldl_keeps; [done|]. intros res' f _ Hres'. destruct (upstream_value _ _ _); [|done].
  by apply selections_ok_unselect.
Qed.

(** ** Which cells a bulk selection checks *)

Lemma upstream_value_same diffs m d f s v :
  differences_ok diffs → map_get diffs m = Some d → upstream_value d f s = Some v → same_value (Some v) (Some v) = true.
Proof.
  intros [_ Hd] Hm Hv. destruct (Forall_map_get _ _ _ _ Hd Hm) as [_ Hes]. cbn in Hes.
  unfold upstream_value in Hv. destruct (map_get d f) as [e|] eqn:Ef; [|done]. cbn in Hv.
  destruct (Forall_map_get _ _ _ _ Hes Ef) as (_ & _ & Hn). by apply (Forall_map_get _ _ _ _ Hn Hv).
Qed.

(** The price and a ratio: no two such fields are selected together. *)
Definition excludes (f g : RatioType) : bool := conflicts_with (getBillingCategory f) g.

(** The field holds what the upstream offers. *)
Definition holds (d : RatioTypes) (s : jstr) (f : RatioType) (own : Resolution) : Prop :=
  ∃ v, upstream_value d f s = Some v ∧ map_get own f = Some v.

Lemma holds_set d s f g v own :
  (g = f → upstream_value d f s = Some v) → holds d s f own → holds d s f (map_set own g v).
Proof.
  intros Hg (w & Hw & Ho). exists w. split; [done|]. rewrite map_get_set. destruct (decide (g = f)) as [->|]; [|done].
  rewrite (Hg eq_refl) in Hw. by injection Hw as ->.
Qed.

Lemma holds_pair_tiered d s f g own :
  isSelectableUpstreamValue (upstream_value d f s) = true →
  holds d s f own → holds d s f (pair_tiered d s g own).
Proof.
  intros Hsel Ho. unfold pair_tiered. cbv zeta.
  assert (Hm : ∀ own', holds d s f own' → isSelectableUpstreamValue (upstream_value d billing_mode s) = false →
                       holds d s f (map_set own' billing_mode (VStr (js "tiered_expr")))).
  { intros own' Ho' Hn. apply holds_set; [|done]. intros <-. congruence. }
  set (paired := match upstream_value d billing_mode s with Some _ => _ | None => _ end).
  assert (Hp : holds d s f paired).
  { unfold paired. destruct (upstream_value d billing_mode s) as [w|] eqn:Ew;
      [destruct (isSelectableUpstreamValue (Some w)) eqn:Es|].
    - apply holds_set; [|done]. by intros <-.
    - destruct (decide _); [by apply Hm|done].
    - destruct (decide _); [by apply Hm|done]. }
  clearbody paired. destruct (upstream_value d billing_expr s) as [w|] eqn:Ew; [|done].
  destruct (isSelectableUpstreamValue (Some w)); [|done]. apply holds_set; [|done]. by intros <-.
Qed.

(** Selecting a field sets it, and keeps what it does not exclude. *)
Lemma select_field_holds d s f g v own :
  upstream_value d g s = Some v → isSelectableUpstreamValue (upstream_value d f s) = true →
  f = g ∨ (holds d s f own ∧ excludes g f = false) →
  holds d s f (select_field (Some d) g v s own).
Proof.
  intros Hv Hsel Hf. unfold select_field. cbv zeta.
  set (base := map_set (clear_conflicts (getBillingCategory g) own) g v).
  assert (Hb : holds d s f base).
  { destruct Hf as [->|[(w & Hw & Ho) He]].
    - exists v. split; [done|]. apply map_get_set_eq.
    - apply holds_set; [by intros ->|]. exists w. split; [done|]. rewrite clear_conflicts_get. unfold excludes, conflicts_with in He.
      apply (f_equal negb) in He. rewrite !negb_andb, !negb_involutive in He. by rewrite He. }
  destruct (bool_decide _ && nonempty s); [by apply holds_pair_tiered|done].
Qed.

(** A cell is selected in a map of selections. *)
Definition cell_holds (s : jstr) (res : ResolutionsMap) (c : SyncRow * RatioType) : Prop :=
  holds (row_ratioTypes c.1) s c.2 (default [] (map_get res (row_model c.1))).

Definition select_one (diffs : DifferencesMap) (s : jstr) (res : ResolutionsMap) (c : SyncRow * RatioType) : ResolutionsMap :=
  match upstream_value (row_ratioTypes c.1) c.2 s with
  | Some v => handleSelectValue diffs (row_model c.1) c.2 v s res
  | None => res
  end.

Lemma foldl_filterb {A B} (f : A → B → A) (p : B → bool) l a :
  (∀ a b, p b = false → f a b = a) → foldl f a l = foldl f a (filterb p l).
Proof.
  intros Hf. revert a; induction l as [|b l IH]; intros a; [done|]. unfold filterb. cbn [foldl List.filter].
  destruct (p b) eqn:Eb; [apply IH|]. rewrite Hf by done. apply IH.
Qed.

Lemma foldl_map {A B C} (f : A → C → A) (g : B → C) l a : foldl f a (map g l) = foldl (λ a b, f a (g b)) a l.
Proof. revert a; induction l as [|b l IH]; intros a; [done|]. apply IH. Qed.

Lemma foldl_ext_all {A B} (f g : A → B → A) l a : (∀ a b, f a b = g a b) → foldl f a l = foldl g a l.
Proof. intros Hfg. revert a; induction l as [|b l IH]; intros a; [done|]. cbn. by rewrite Hfg, IH. Qed.

(** A bulk selection selects the cells the header counts, one by one. *)
Lemma bulk_select_cells diffs filter s rows prev :
  handleBulkSelect diffs filter s rows prev = foldl (select_one diffs s) prev (selectable_cells filter s rows).
Proof.
  unfold handleBulkSelect, selectable_cells. revert prev; induction rows as [|row rows IH]; intros prev; [done|].
  cbn [foldl map concat]. rewrite foldl_app, IH. f_equal. unfold bulk_select_row. rewrite foldl_map.
  rewrite (foldl_filterb _ (selectable_field row s)).
  - generalize (getOrderedRatioTypes (row_ratioTypes row) filter). intros l. revert prev.
    induction l as [|f l IHl]; intros prev; [done|]. unfold filterb in *. cbn [List.filter].
    destruct (selectable_field row s f) eqn:Ef; [|apply IHl]. cbn [foldl]. rewrite Ef. apply IHl.
  - intros res f Hf. rewrite Hf. by destruct (upstream_value _ _ _).
Qed.

Lemma selectable_cell filter s rows c :
  c ∈ selectable_cells filter s rows → c.1 ∈ rows ∧ selectable_field c.1 s c.2 = true.
Proof.
  unfold selectable_cells. rewrite list_elem_of_In, in_concat. intros (l & (row & <- & Hrow)%in_map_iff & Hc).
  apply in_map_iff in Hc as (f & <- & [_ Hf]%list_elem_of_In%elem_of_filterb). cbn. by rewrite list_elem_of_In.
Qed.

Lemma foldl_establishes {A B} (P : A → B → Prop) (f : A → B → A) l a :
  (∀ a b, b ∈ l → P (f a b) b) → (∀ a b b', b ∈ l → b' ∈ l → P a b → P (f a b') b) →
  Forall (P (foldl f a l)) l.
Proof.
  intros Hset Hkeep. apply Forall_forall. intros b Hb.
  assert (Hgo : ∀ k a, (∀ x, x ∈ k → x ∈ l) → P a b → P (foldl f a k) b).
  { induction k as [|b' k IH]; intros a' Hk Ha; [done|]. cbn. apply IH; [intros x Hx; apply Hk; by right|].
    apply Hkeep; [done| |done]. apply Hk. by left. }
  apply list_elem_of_split in Hb as (l1 & l2 & ->). rewrite foldl_app. cbn [foldl]. apply Hgo.
  - set_solver.
  - apply Hset. set_solver.
Qed.

(** ** The shared answer

    The inner objects of the fetched answer live in a store, and the updater
    that runs after a sync deletes from them in place. What the new state sees,
    and what the old one sees. *)

#[local] Opaque js.

Definition fields_ok (d : RatioTypes) : Prop := well_keyed d ∧ Forall (λ f, entry_ok f.2) d.

(** Distinct references into the store, whose objects have unique keys. *)
Definition store_ok (st : Store * References) : Prop :=
  well_keyed st.2 ∧ NoDup (map snd st.2) ∧ Forall fields_ok st.1 ∧ Forall (λ e : jstr * nat, is_Some (st.1 !! e.2)) st.2.

(** The object of a model, as references see it. *)
Definition object_at (store : Store) (refs : References) (m : jstr) : option RatioTypes :=
  l ← map_get refs m; store !! l.

Lemma read_differences_at st m :
  store_ok st → map_get (read_differences st.1 st.2) m = object_at st.1 st.2 m.
Proof.
  intros (_ & _ & _ & Hl). unfold read_differences, object_at. destruct st as [store refs]. cbn [fst snd] in *.
  induction Hl as [|[m' l] refs [d Hd] Hl IH]; [done|]. cbn [map map_get fst snd]. destruct (decide (m' = m)); [|done].
  cbn [snd] in Hd. cbn [mbind option_bind]. by rewrite Hd.
Qed.

Lemma differences_ok_store st : store_ok st → differences_ok (read_differences st.1 st.2).
Proof.
  intros (Hk & _ & Hs & Hl). unfold read_differences. split.
  - unfold well_keyed in *. rewrite map_map. cbn. exact Hk.
  - rewrite Forall_map. apply (Forall_impl _ _ _ Hl). intros [m l] [d Hd]. cbn [fst snd] in *. rewrite Hd. cbn [default from_option id].
    by eapply Forall_lookup_1 in Hs.
Qed.

(** ** A parsed answer *)

Lemma store_ok_allocate store data : Forall fields_ok store → answer_ok data → store_ok (allocate store data).
Proof.
  intros Hs [Hk Hd]. unfold allocate. split; [|split; [|split]]; cbn [fst snd].
  - unfold well_keyed. replace (map fst (zip (map fst data) (seq (length store) (length data)))) with (map fst data); [done|].
    symmetry. apply fst_zip. by rewrite length_map, length_seq.
  - replace (map snd (zip (map fst data) (seq (length store) (length data)))) with (seq (length store) (length data));
      [apply NoDup_seq|]. symmetry. apply snd_zip. by rewrite length_map, length_seq.
  - apply Forall_app. split; [done|]. rewrite Forall_map. done.
  - rewrite Forall_forall. intros [m l] Hin. cbn. apply elem_of_zip_r, elem_of_seq in Hin. apply lookup_lt_is_Some.
    rewrite length_app, length_map. lia.
Qed.

(** ** Deleting one field *)

Lemma map_delete_absent {K V} `{!EqDecision K} (m : list (K * V)) k : map_has m k = false → map_delete m k = m.
Proof.
  unfold map_has. intros Hk. apply filterb_id, Forall_forall. intros e He. apply negb_true_iff, bool_decide_eq_false.
  intros <-. destruct (map_get m e.1) eqn:E; [done|]. apply map_get_None in E. apply E, list_elem_of_fmap. eauto.
Qed.

Lemma fields_ok_delete d t : fields_ok d → fields_ok (map_delete d t).
Proof. intros [? ?]. split; [by apply map_delete_well_keyed|by apply Forall_map_delete]. Qed.

Lemma store_ok_drop_field m st t : store_ok st → store_ok (drop_field m st t).
Proof.
  intros Hst. unfold drop_field. destruct (map_get st.2 m) as [l|]; [|done]. destruct (st.1 !! l) as [d|] eqn:Ed; [|done].
  destruct (map_has d t); [|done]. cbv zeta. destruct Hst as (Hk & Hn & Hs & Hl).
  assert (Hd : fields_ok (map_delete d t)) by (apply fields_ok_delete; by eapply Forall_lookup_1 in Hs).
  assert (Hl' : Forall (λ e : jstr * nat, is_Some (<[l := map_delete d t]> st.1 !! e.2)) st.2).
  { apply (Forall_impl _ _ _ Hl). intros e. rewrite !lookup_lt_is_Some, length_insert. done. }
  destruct (nonempty (map_delete d t)); (split; [|split; [|split]]); cbn [fst snd]; try done.
  1,4: by apply Forall_insert.
  - by apply map_delete_well_keyed.
  - unfold map_delete. clear -Hn. induction st.2 as [|e r IH]; [done|]. cbn in Hn |- *. apply NoDup_cons in Hn as [He Hn].
    destruct (negb _); [|by apply IH]. cbn. apply NoDup_cons. split; [|by apply IH].
    intros (e' & Ee & [He' _]%elem_of_filterb)%list_elem_of_fmap. apply He, list_elem_of_fmap. eauto.
  - by apply Forall_map_delete.
Qed.

(** What remains of an object without some fields. *)
Definition without (ts : list RatioType) (d : RatioTypes) : RatioTypes :=
  filterb (λ e : RatioType * RatioDifferenceEntry, negb (bool_decide (e.1 ∈ ts))) d.

Lemma without_cons t ts d : without (t :: ts) d = without ts (map_delete d t).
Proof.
  unfold without, map_delete. rewrite filterb_filterb. apply filterb_ext. intros e.
  destruct (decide (e.1 = t)) as [E|E].
  - rewrite (bool_decide_eq_true_2 (e.1 ∈ t :: ts)), (bool_decide_eq_true_2 (e.1 = t)); [done|done|rewrite E; by left].
  - rewrite (bool_decide_eq_false_2 (e.1 = t)) by done. cbn [negb andb]. f_equal. apply bool_decide_ext.
    rewrite elem_of_cons. naive_solver.
Qed.

(** Deleting fields of one model through references that may be fewer than
    those the store is looked at with. *)
Section drop.
Context (refs0 : References) (Hrefs0 : NoDup (map snd refs0)).

Definition part_of (st : Store * References) : Prop :=
  Forall (λ e : jstr * nat, is_Some (st.1 !! e.2)) refs0 ∧ ∀ m l, map_get st.2 m = Some l → map_get refs0 m = Some l.

Lemma refs0_inj m m' l : map_get refs0 m = Some l → map_get refs0 m' = Some l → m = m'.
Proof.
  clear -Hrefs0. induction refs0 as [|[k l'] r IH]; [done|]. cbn in Hrefs0 |- *. apply NoDup_cons in Hrefs0 as [Hn Hr].
  assert (Hin : ∀ x, map_get r x = Some l' → False)
    by (intros x Hx%map_get_Some_elem; apply Hn, list_elem_of_fmap; by exists (x, l')).
  repeat case_decide; subst; intros; simplify_eq; try done; try (exfalso; eauto; fail). by apply IH.
Qed.

Lemma drop_field_frame m st t m' :
  part_of st → m' ≠ m →
  object_at (drop_field m st t).1 refs0 m' = object_at st.1 refs0 m' ∧ map_get (drop_field m st t).2 m' = map_get st.2 m'.
Proof.
  intros [_ Hp] Hm. unfold drop_field. destruct (map_get st.2 m) as [l|] eqn:El; [|done]. destruct (st.1 !! l) as [d|]; [|done].
  destruct (map_has d t); [|done]. cbn [fst snd]. split.
  - unfold object_at. destruct (map_get refs0 m') as [l'|] eqn:El'; [|done]. cbn [mbind option_bind].
    apply list_lookup_insert_ne. intros <-. apply Hm. eapply refs0_inj; [done|]. by apply Hp.
  - destruct (nonempty _); [done|]. by rewrite map_get_delete_ne.
Qed.

Lemma drop_field_at m st t l d :
  part_of st → map_get st.2 m = Some l → object_at st.1 refs0 m = Some d →
  object_at (drop_field m st t).1 refs0 m = Some (map_delete d t)
  ∧ map_get (drop_field m st t).2 m = if map_has d t && negb (nonempty (map_delete d t)) then None else Some l.
Proof.
  intros [_ Hp] Hl Hd. pose proof (Hp _ _ Hl) as Hl0. unfold object_at in Hd |- *. rewrite Hl0 in *.
  cbn [mbind option_bind] in Hd |- *. unfold drop_field. rewrite Hl, Hd. destruct (map_has d t) eqn:Ht.
  - cbv zeta. cbn [fst snd]. split; [apply list_lookup_insert_eq; by eapply lookup_lt_Some|].
    destruct (nonempty (map_delete d t)); [done|apply map_get_delete_eq].
  - by rewrite map_delete_absent.
Qed.

Lemma part_of_drop_field m st t : part_of st → part_of (drop_field m st t).
Proof.
  intros [Hs Hp]. unfold drop_field. destruct (map_get st.2 m) as [l|]; [|done]. destruct (st.1 !! l) as [d|]; [|done].
  destruct (map_has d t); [|done]. split; cbn [fst snd].
  - apply (Forall_impl _ _ _ Hs). intros e. rewrite !lookup_lt_is_Some, length_insert. done.
  - intros m' l'. destruct (nonempty _); [apply Hp|]. intros H%map_get_delete_Some. by apply Hp.
Qed.

(** The fields of one model, one after the other. *)
Lemma drop_list_gone m st ts : map_get st.2 m = None → foldl (drop_field m) st ts = st.
Proof. intros Hm. induction ts as [|t ts IH]; [done|]. cbn [foldl]. unfold drop_field at 2. by rewrite Hm. Qed.

Lemma drop_list_at m st ts l d :
  part_of st → map_get st.2 m = Some l → object_at st.1 refs0 m = Some d → d ≠ [] →
  object_at (foldl (drop_field m) st ts).1 refs0 m = Some (without ts d)
  ∧ map_get (foldl (drop_field m) st ts).2 m = if nonempty (without ts d) then Some l else None.
Proof.
  revert st d; induction ts as [|t ts IH]; intros st d Hst Hl Hd Hne.
  { cbn [foldl]. unfold without. rewrite filterb_true by (intros e; by rewrite bool_decide_eq_false_2; [|apply not_elem_of_nil]).
    by rewrite (proj2 (nonempty_true d) Hne). }
  cbn [foldl]. destruct (drop_field_at m st t l d Hst Hl Hd) as [Ho Hr]. rewrite without_cons.
  destruct (nonempty (map_delete d t)) eqn:Hd'.
  - rewrite andb_false_r in Hr. apply IH; [by apply part_of_drop_field|done..|]. by apply nonempty_true.
  - destruct (map_has d t) eqn:Ht; [|by rewrite map_delete_absent, (proj2 (nonempty_true d) Hne) in Hd'].
    cbn [andb negb] in Hr. rewrite (drop_list_gone _ _ ts Hr). rewrite Ho, Hr.
    destruct (map_delete d t); [done|done].
Qed.

Lemma drop_list_frame m st ts m' :
  part_of st → m' ≠ m →
  part_of (foldl (drop_field m) st ts)
  ∧ object_at (foldl (drop_field m) st ts).1 refs0 m' = object_at st.1 refs0 m'
  ∧ map_get (foldl (drop_field m) st ts).2 m' = map_get st.2 m'.
Proof.
  intros Hst Hm. revert st Hst; induction ts as [|t ts IH]; intros st Hst; [done|]. cbn [foldl].
  destruct (IH _ (part_of_drop_field m st t Hst)) as (Hp & Ho & Hr). destruct (drop_field_frame m st t m' Hst Hm) as [Ho' Hr'].
  by rewrite Ho, Hr.
Qed.

Lemma part_of_drop_list m st ts : part_of st → part_of (foldl (drop_field m) st ts).
Proof. revert st; induction ts as [|t ts IH]; intros st Hst; [done|]. cbn. by apply IH, part_of_drop_field. Qed.

(** The fields of all models. *)
Lemma drop_all_at (l : list (jstr * Resolution)) st m d n :
  well_keyed l → part_of st → map_get st.2 m = Some n → object_at st.1 refs0 m = Some d → d ≠ [] →
  let fields := match map_get l m with Some own => map fst own | None => [] end in
  object_at (foldl drop_fields st l).1 refs0 m = Some (without fields d)
  ∧ map_get (foldl drop_fields st l).2 m = if nonempty (without fields d) then Some n else None.
Proof.
  cbv zeta. intros Hl Hst Hn Hd Hne.
  assert (Hw : without [] d = d)
    by (unfold without; apply filterb_true; intros e; by rewrite bool_decide_eq_false_2; [|apply not_elem_of_nil]).
  revert st Hst Hn Hd; induction l as [|[k own] l IH]; intros st Hst Hn Hd; cbn [foldl map_get].
  { by rewrite Hw, (proj2 (nonempty_true d) Hne). }
  apply NoDup_cons in Hl as [Hk Hl]. cbn [fst] in Hk. unfold drop_fields at 2 4. cbn [fst snd].
  destruct (decide (k = m)) as [->|Hkm].
  - destruct (drop_list_at m st (map fst own) n d Hst Hn Hd Hne) as [Ho Hr].
    assert (Hrest : ∀ l' st', m ∉ map fst l' → part_of st' →
      object_at (foldl drop_fields st' l').1 refs0 m = object_at st'.1 refs0 m
      ∧ map_get (foldl drop_fields st' l').2 m = map_get st'.2 m).
    { clear -Hrefs0. induction l' as [|[k' own'] l' IH]; intros st' Hm Hst'; [done|]. cbn [map fst] in Hm.
      apply not_elem_of_cons in Hm as [Hk Hm]. cbn [foldl]. unfold drop_fields at 2 4. cbn [fst snd].
      destruct (drop_list_frame k' st' (map fst own') m Hst' Hk) as (Hp & Ho & Hr).
      destruct (IH _ Hm Hp) as [-> ->]. done. }
    destruct (Hrest l _ Hk (part_of_drop_list m st (map fst own) Hst)) as [-> ->]. done.
  - destruct (drop_list_frame k st (map fst own) m Hst (not_eq_sym Hkm)) as (Hp & Ho & Hr).
    apply (IH Hl); [done|by rewrite Hr|by rewrite Ho].
Qed.

Lemma part_of_drop_all (l : list (jstr * Resolution)) st : part_of st → part_of (foldl drop_fields st l).
Proof. revert st; induction l as [|e l IH]; intros st Hst; [done|]. cbn. by apply IH, part_of_drop_list. Qed.
End drop.
