(* ===== verification/RatioSyncClaims.v ===== *)
(** * Prices taken from upstream channels: the properties of the page *)

From Stdlib Require Import String.
From stdpp Require Import functions.
From S2P Require Import JsArith JsonText JsObject BillingExpr ModelPricing ModelPricingTable ModelPricingTableProps.
From S2P Require Import RatioSync RatioSyncProps RatioSyncInv.

#[local] Opaque js string_of_number number_of_string json_stringify_2.

(** ** Concrete answers *)

Definition offer (l : list (string * SyncValue)) : RatioDifferenceEntry :=
  {| current := VNull; upstreams := map (λ e : string * SyncValue, (js e.1, e.2)) l; confidence := [] |}.

Definition price_of (n : Z) : SyncValue := VNum (num_of_Z n).
Definition text_of (t : string) : SyncValue := VStr (js t).

(** Two models and two upstreams; one model has both a price and a ratio, and
    an expression from the second upstream. *)
Definition sample_answer : DifferencesMap :=
  [(js "model-a", [(model_ratio, offer [("up"%string, price_of 2)]); (model_price, offer [("up"%string, price_of 3)]);
                   (billing_expr, offer [("other"%string, text_of "p * 2")])]);
   (js "model-b", [(completion_ratio, offer [("up"%string, price_of 4)])])].

Definition entry_okb (e : RatioDifferenceEntry) : bool :=
  bool_decide (NoDup (map fst (upstreams e))) && negb (bool_decide ([] ∈ map fst (upstreams e)))
  && forallb (λ u : jstr * SyncValue, same_value (Some u.2) (Some u.2)) (upstreams e).

Definition answer_okb (data : DifferencesMap) : bool :=
  bool_decide (NoDup (map fst data))
  && forallb (λ e : jstr * RatioTypes, bool_decide (NoDup (map fst e.2)) && forallb (λ f : RatioType * RatioDifferenceEntry, entry_okb f.2) e.2) data.

Lemma entry_okb_ok e : entry_okb e = true → entry_ok e.
Proof.
  unfold entry_okb. intros [[Hk%bool_decide_eq_true Hn]%andb_true_iff Hs]%andb_true_iff.
  split; [exact Hk|]. split; [by apply negb_true_iff, bool_decide_eq_false in Hn|].
  rewrite Forall_forall. rewrite forallb_forall in Hs. intros u Hu. by apply Hs, list_elem_of_In.
Qed.

Lemma answer_okb_ok data : answer_okb data = true → answer_ok data.
Proof.
  unfold answer_okb. intros [Hk%bool_decide_eq_true Hd]%andb_true_iff. split; [exact Hk|].
  rewrite forallb_forall in Hd. apply Forall_forall. intros e He. apply list_elem_of_In, Hd, andb_true_iff in He as [He Hf].
  split; [by apply bool_decide_eq_true in He|]. rewrite forallb_forall in Hf. apply Forall_forall.
  intros f Hin. by apply entry_okb_ok, Hf, list_elem_of_In.
Qed.

(** ** The page *)

Record sync_inv (rs : RatioSync) : Prop := {
  si_store : store_ok (rs_store rs, rs_differences rs);
  si_selections : selections_ok (differences rs) (rs_resolutions rs);
  si_sending : ∀ updates, rs_phase rs = Syncing updates → ∃ maps, performSync (rs_resolutions rs) maps = Ret updates;
}.

Lemma sync_inv_opened texts : sync_inv (opened texts).
Proof.
  split; [|apply selections_ok_nil|done]. split; [apply NoDup_nil_2|]. split; [apply NoDup_nil_2|]. split; constructor.
Qed.

Lemma sync_inv_start rs rs' : sync_inv rs → start_sync rs = Some rs' → sync_inv rs'.
Proof.
  intros [Hs Hr _]. unfold start_sync. destruct (parsedRatios _) as [maps|]; [|done]. cbn [mbind option_bind].
  destruct (performSync _ _) as [updates|] eqn:E; [|done]. intros [= <-]. split; [done..|]. cbn. intros u [= <-]. eauto.
Qed.

Lemma store_ok_drop_resolved res st : store_ok st → store_ok (drop_resolved res st).
Proof.
  intros Hst. unfold drop_resolved. apply foldl_keeps; [done|]. intros st' e _ Hst'. unfold drop_fields.
  apply foldl_keeps; [done|]. intros st'' t _. apply store_ok_drop_field.
Qed.

Lemma sync_inv_finish answer rs : sync_inv rs → sync_inv (finish_sync answer rs).
Proof.
  intros Hinv. unfold finish_sync. destruct (rs_phase rs) as [| |updates]; [done..|].
  destruct (send_updates answer (rs_server rs) updates) as [server ok]. destruct Hinv as [Hs Hr _].
  destruct ok; (split; [|try apply selections_ok_nil; exact Hr|done]); cbn; [|done].
  rewrite <- surjective_pairing. by apply store_ok_drop_resolved.
Qed.

Lemma sync_inv_step t toLowerCase rs rs' : sync_step t toLowerCase rs rs' → sync_inv rs → sync_inv rs'.
Proof.
  intros Hstep Hinv. pose proof Hinv as [Hs Hr Hu].
  assert (Hd : differences_ok (differences rs)) by by apply (differences_ok_store (_, _)).
  destruct Hstep.
  - by split.
  - split; [|apply selections_ok_nil|done]. cbn. apply store_ok_allocate; [apply Hs|done].
  - by split.
  - split; [done| |cbn; congruence]. cbn. by apply selections_ok_select.
  - split; [done| |cbn; congruence]. by apply selections_ok_unselect.
  - split; [done| |cbn; congruence]. apply selections_ok_bulk_select; [done| |done]. intros row. apply filteredData_rows.
  - split; [done| |cbn; congruence]. by apply selections_ok_bulk_unselect.
  - match goal with H : handleApplySync _ _ = _ |- _ => unfold handleApplySync in H; revert H end.
    destruct (parsedRatios _) as [maps|]; [|done]. cbn [mbind option_bind]. destruct (conflicts _ _ _ _); [by apply sync_inv_start|].
    intros [= <-]. split; [done..|]. cbn. congruence.
  - by eapply sync_inv_start.
  - by split.
  - by apply sync_inv_finish.
  - by split.
Qed.

(** C10. The invariant of the page. In every state the operator, the server and
    the answers can bring it to: the differences are distinct objects of the
    answer; per model at most one of price and ratios is selected, an
    expression comes with a mode, and every selected value is one an upstream
    offers for that field (or the mode that goes with an expression); and what
    is being sent is what is selected. *)
Theorem ratio_sync_invariant (t : string → jstr) (toLowerCase : jstr → jstr) (texts : Setting → jstr) (rs : RatioSync) :
  rtc (sync_step t toLowerCase) (opened texts) rs →
  store_ok (rs_store rs, rs_differences rs)
  ∧ selections_ok (differences rs) (rs_resolutions rs)
  ∧ ∀ updates, rs_phase rs = Syncing updates → ∃ maps, performSync (rs_resolutions rs) maps = Ret updates.
Proof.
  intros Hrtc. assert (Hinv : sync_inv rs).
  { eapply rtc_keeps; [|exact Hrtc|apply sync_inv_opened]. intros; by eapply sync_inv_step. }
  destruct Hinv. auto.
Qed.

Definition no_texts : Setting → jstr := λ _, [].
Definition compared : RatioSync := fetched sample_answer (set_phase Fetching (opened no_texts)).

Lemma compared_reached : rtc (sync_step js id) (opened no_texts) compared.
Proof.
  eapply rtc_l; [by apply step_fetch|]. eapply rtc_l; [|apply rtc_refl].
  apply step_fetched; [done|]. by apply answer_okb_ok; by_eval.
Qed.

Definition row_of (m : string) (diffs : DifferencesMap) : SyncRow :=
  default {| row_model := []; row_ratioTypes := []; row_billingConflict := false |}
    (find (λ r, bool_decide (row_model r = js m)) (dataSource diffs)).

Lemma ratio_sync_invariant_witness :
  ∃ rs, rtc (sync_step js id) (opened no_texts) rs ∧ length (rs_resolutions rs) = 1%nat
    ∧ selections_ok (differences rs) (rs_resolutions rs).
Proof.
  set (rs := set_resolutions (handleSelectValue (differences compared) (row_model (row_of "model-a" (differences compared)))
               model_price (price_of 3) (js "up") (rs_resolutions compared)) compared).
  assert (H : rtc (sync_step js id) (opened no_texts) rs).
  { eapply rtc_r; [apply compared_reached|]. apply step_select; [done| |by_eval|by_eval].
    apply list_elem_of_In. vm_compute. by left. }
  exists rs. split; [exact H|]. split; [by_eval|]. exact (proj1 (proj2 (ratio_sync_invariant js id no_texts rs H))).
Defined.

(** ** What a sync writes *)

Definition own_well_keyed (res : ResolutionsMap) : Prop := Forall (λ e, well_keyed e.2) res.

Lemma selections_ok_keyed diffs res : selections_ok diffs res → well_keyed res ∧ own_well_keyed res.
Proof. intros [Hk Hf]. split; [done|]. apply (Forall_impl _ _ _ Hf). by intros e [[] _]. Qed.

Lemma synced_at diffs res maps :
  selections_ok diffs res →
  ∃ final, sync_models maps (own_entries res) = Ret final
    ∧ ∀ s n, obj_get (final s) n =
        match map_get res n with Some own => synced_entry maps own n s | None => obj_get (maps s) n end.
Proof.
  intros Hres. destruct (selections_ok_keyed _ _ Hres) as [Hk Ho].
  destruct (sync_models_at (own_entries res) maps) as (final & E & Hf).
  - by apply own_entries_well_keyed.
  - unfold own_well_keyed in Ho. by rewrite own_entries_Permutation.
  - exists final. split; [done|]. intros s n. by rewrite Hf, map_get_own_entries.
Qed.

(** Selected fields are stored. *)
Lemma written_field own f : written own (field_setting f) = synced_value f <$> map_get own f.
Proof. unfold written. by rewrite (proj2 (setting_field_setting _ f)). Qed.

Lemma ratio_setting_field s : s ∈ ratio_options → ∃ f, f ∈ RATIO_SYNC_FIELDS ∧ setting_field s = Some f.
Proof.
  unfold ratio_options. rewrite !elem_of_cons, elem_of_nil. intros Hs.
  destruct Hs as [->|[->|[->|[->|[->|[->|[->|[]]]]]]]]; eexists; (split; [|done]); by apply (bool_decide_unpack _).
Qed.

Lemma no_ratio_written d own s : selection_ok d own → has_price own = true → s ∈ ratio_options → written own s = None.
Proof.
  intros [_ Hc _ _] Hp (f & Hf & Es)%ratio_setting_field. unfold written. rewrite Es. cbn [mbind option_bind].
  destruct (map_get own f) eqn:Ef; [|done]. exfalso. rewrite Hp in Hc. apply not_true_iff_false in Hc. apply Hc. cbn.
  apply has_ratio_iff. exists f. split; [done|]. unfold map_has. by rewrite Ef.
Qed.

Lemma no_price_written d own : selection_ok d own → has_ratio own = true → written own ModelPrice = None.
Proof.
  intros [_ Hc _ _] Hr. unfold written. cbn [setting_field mbind option_bind]. rewrite Hr, andb_true_r in Hc.
  unfold has_price, map_has in Hc. by destruct (map_get own model_price).
Qed.

(** C11. What a sync sends. With the selections of the page it never throws; it
    sends each of the ten options once, in a fixed order, as the text of an
    object in which: a model with nothing selected keeps its entries; a
    selected field has the value selected; a model with a price selected has no
    ratio of any kind, one with a ratio selected has no price, and otherwise
    the fields not selected keep their entries. *)
Theorem performSync_spec (diffs : DifferencesMap) (res : ResolutionsMap) (maps : Settings) :
  selections_ok diffs res →
  ∃ final : Settings,
    performSync res maps = Ret (map (λ e : string * Setting, (e.2, json_stringify_2 (JObj (final e.2)))) sync_options)
    ∧ (∀ n, map_get res n = None → ∀ s, obj_get (final s) n = obj_get (maps s) n)
    ∧ ∀ n own, map_get res n = Some own →
        (∀ f v, map_get own f = Some v → obj_get (final (field_setting f)) n = Some (synced_value f v))
        ∧ (has_price own = true → ∀ s, s ∈ ratio_options → obj_get (final s) n = None)
        ∧ (has_ratio own = true → obj_get (final ModelPrice) n = None)
        ∧ ∀ f, map_get own f = None → moves_away own (field_setting f) = false →
            obj_get (final (field_setting f)) n = obj_get (maps (field_setting f)) n.
Proof.
  intros Hres. destruct (synced_at diffs res maps Hres) as (final & E & Hf). exists final.
  unfold performSync. rewrite E. split; [done|]. split; [intros n Hn s; by rewrite Hf, Hn|].
  intros n own Hown. pose proof (selections_ok_own _ _ _ _ Hres Hown) as Hok.
  assert (Hs : ∀ s, obj_get (final s) n = synced_entry maps own n s) by (intros s; by rewrite Hf, Hown).
  unfold synced_entry in Hs. split; [|split; [|split]].
  - intros f v Hv. by rewrite Hs, written_field, Hv.
  - intros Hp s Hin. rewrite Hs, (no_ratio_written _ _ _ Hok Hp Hin). unfold moves_away.
    by rewrite Hp, bool_decide_eq_true_2.
  - intros Hr. rewrite Hs, (no_price_written _ _ Hok Hr). unfold moves_away.
    rewrite Hr, (bool_decide_eq_true_2 (ModelPrice = ModelPrice)) by done. by rewrite orb_true_r.
  - intros f Hn Hm. by rewrite Hs, written_field, Hn, Hm.
Qed.

(** The model's ratios, then a price for it. *)
Definition priced_resolution : ResolutionsMap := [(js "model-a", [(model_price, price_of 3)])].

Lemma priced_resolution_ok : selections_ok sample_answer priced_resolution.
Proof.
  split; [apply NoDup_singleton|]. constructor; [|constructor]. split; [|done]. split; [apply NoDup_singleton|by_eval|done|].
  constructor; [|constructor]. left. exists (js "up"). split; by_eval.
Qed.

Definition ratio_priced : Settings := λ s,
  match s with ModelRatio => [(js "model-a", num 7)] | BillingMode => [(js "model-a", str "tiered_expr")] | _ => [] end.

Lemma performSync_spec_witness :
  ∃ final : Settings, obj_get (final ModelPrice) (js "model-a") = Some (num 3) ∧ obj_get (final ModelRatio) (js "model-a") = None.
Proof.
  destruct (performSync_spec sample_answer priced_resolution ratio_priced priced_resolution_ok) as (final & _ & _ & H).
  destruct (H (js "model-a") [(model_price, price_of 3)] eq_refl) as (Hf & Hp & _).
  exists final. split; [exact (Hf model_price (price_of 3) eq_refl)|]. apply Hp; [reflexivity|by apply (bool_decide_unpack _)].
Defined.

(** ** The table after a sync *)

Lemma number_text_None o n : obj_get o n = None → number_text o n = [].
Proof. unfold number_text. by intros ->. Qed.

(** The table of prices after a sync. A model for which a price or a ratio
    was selected is never shown as having both, and with a ratio selected it is
    billed per token; unless its mode is that of an expression, which selecting
    a price or ratios leaves: then it is billed by the expression. *)
Theorem synced_rows (diffs : DifferencesMap) (res : ResolutionsMap) (maps final : Settings) (n : jstr) (own : Resolution) (row : ModelPricingTable.ModelRow) :
  selections_ok diffs res → map_get res n = Some own → has_price own || has_ratio own = true →
  sync_models maps (own_entries res) = Ret final → model_row final n = Ret row →
  r_hasConflict row = false
  ∧ (is_str (obj_get (final BillingMode) n) (js "tiered_expr") = false → has_ratio own = true → r_billingMode row = PerToken)
  ∧ (is_str (obj_get (final BillingMode) n) (js "tiered_expr") = true → r_billingMode row = TieredExpr).
Proof.
  intros Hres Hown Hsel E Hrow. destruct (synced_at diffs res maps Hres) as (final' & E' & Hf).
  rewrite E' in E. apply Ret_inj in E as ->. pose proof (selections_ok_own _ _ _ _ Hres Hown) as Hok.
  assert (Hs : ∀ s, obj_get (final s) n = synced_entry maps own n s) by (intros s; by rewrite Hf, Hown).
  unfold synced_entry, moves_away in Hs. unfold model_row in Hrow. cbv zeta in Hrow.
  destruct (is_str _ _) eqn:Em.
  { destruct (full_expr _ _) as [e|]; [|done]. cbn [mbind outcome_bind] in Hrow.
    destruct (splitBillingExprAndRequestRules e) as [sp|]; [|done]. cbn [mbind outcome_bind] in Hrow.
    apply Ret_inj in Hrow as <-. done. }
  apply Ret_inj in Hrow as <-. cbn [r_hasConflict r_billingMode]. destruct (has_ratio own) eqn:Hr.
  - assert (Hp : obj_get (final ModelPrice) n = None).
    { rewrite Hs, (no_price_written _ _ Hok Hr), (bool_decide_eq_true_2 (ModelPrice = ModelPrice)) by done. by rewrite orb_true_r. }
    cbn [row_fields]. by rewrite (number_text_None _ _ Hp).
  - rewrite orb_false_r in Hsel. split; [|done].
    assert (Hno : ∀ s, s ∈ ratio_options → obj_get (final s) n = None).
    { intros s Hin. by rewrite Hs, (no_ratio_written _ _ _ Hok Hsel Hin), Hsel, bool_decide_eq_true_2. }
    apply andb_false_iff. right. unfold ratio_settings. cbn [existsb snd row_fields].
    rewrite !number_text_None; [done|apply Hno; by apply (bool_decide_unpack _)..].
Qed.

Definition sample_final : Settings :=
  match sync_models ratio_priced (own_entries priced_resolution) with Ret m => m | Throw => ratio_priced end.

Lemma synced_rows_witness :
  ∃ row, model_row sample_final (js "model-a") = Ret row ∧ r_hasConflict row = false ∧ r_billingMode row = TieredExpr.
Proof.
  assert (E : sync_models ratio_priced (own_entries priced_resolution) = Ret sample_final) by (unfold sample_final; by vm_compute).
  destruct (model_row sample_final (js "model-a")) as [row|] eqn:Hrow; [|vm_compute in Hrow; discriminate].
  exists row. split; [reflexivity|].
  destruct (synced_rows sample_answer priced_resolution ratio_priced sample_final (js "model-a") [(model_price, price_of 3)] row
              priced_resolution_ok eq_refl eq_refl E Hrow) as (Hc & _ & Ht).
  split; [exact Hc|]. apply Ht. by_eval.
Defined.

(** The mode of an expression survives the selection of a price or of ratios. *)
Lemma synced_price_ignored diffs res maps final n own :
  selections_ok diffs res → map_get res n = Some own → map_get own billing_mode = None →
  sync_models maps (own_entries res) = Ret final →
  obj_get (final BillingMode) n = obj_get (maps BillingMode) n.
Proof.
  intros Hres Hown Hm E. destruct (synced_at diffs res maps Hres) as (final' & E' & Hf).
  rewrite E' in E. apply Ret_inj in E as ->. rewrite Hf, Hown. unfold synced_entry, written, moves_away.
  cbn [setting_field mbind option_bind]. rewrite Hm. cbn [fmap option_fmap option_map].
  rewrite (bool_decide_eq_false_2 (BillingMode ∈ ratio_options)), (bool_decide_eq_false_2 (BillingMode = ModelPrice)); [by rewrite !andb_false_r|done|].
  by apply (bool_decide_unpack _).
Qed.

(** ** The differences after a sync *)

Lemma foldl_fixed {A B} (f : A → B → A) l a : (∀ b, b ∈ l → f a b = a) → foldl f a l = a.
Proof.
  induction l as [|b l IH]; intros Hf; [done|]. cbn. rewrite Hf by by left. apply IH. intros b' Hb. apply Hf. by right.
Qed.

Lemma without_has ts d t : t ∈ ts → map_has (without ts d) t = false.
Proof.
  intros Ht. unfold map_has. rewrite (proj2 (map_get_None (without ts d) t)); [done|].
  intros (e & -> & [_ He]%elem_of_filterb)%list_elem_of_fmap. by rewrite bool_decide_eq_true_2 in He.
Qed.

Lemma part_of_self store refs : store_ok (store, refs) → part_of refs (store, refs).
Proof. by intros (_ & _ & _ & Hl). Qed.

Lemma drop_resolved_at res store refs m n d :
  store_ok (store, refs) → well_keyed res → map_get refs m = Some n → store !! n = Some d → d ≠ [] →
  object_at (drop_resolved res (store, refs)).1 refs m = Some (without (map fst (default [] (map_get res m))) d)
  ∧ map_get (drop_resolved res (store, refs)).2 m
    = if nonempty (without (map fst (default [] (map_get res m))) d) then Some n else None.
Proof.
  intros Hst Hres Hn Hd Hne. assert (Ho : object_at store refs m = Some d) by (unfold object_at; by rewrite Hn).
  pose proof (drop_all_at refs (proj1 (proj2 Hst)) (own_entries res) (store, refs) m d n (own_entries_well_keyed _ Hres)
    (part_of_self _ _ Hst) Hn Ho Hne) as H. cbv zeta in H. rewrite map_get_own_entries in H by done.
  unfold drop_resolved. by destruct (map_get res m).
Qed.

Lemma drop_again res store refs store' refs' :
  store_ok (store, refs) → well_keyed res → Forall (λ e : jstr * nat, default [] (store !! e.2) ≠ []) refs →
  drop_resolved res (store, refs) = (store', refs') → drop_resolved res (store', refs) = (store', refs).
Proof.
  intros Hst Hres Hne E. apply foldl_fixed. intros [k own] Hin. unfold drop_fields. cbn [fst snd].
  destruct (map_get refs k) as [n|] eqn:Hn; [|by apply drop_list_gone].
  pose proof (Forall_map_get _ _ _ _ Hne Hn) as Hd. cbn [snd] in Hd. destruct (store !! n) as [d|] eqn:Ed; [|done].
  destruct (drop_resolved_at res store refs k n d Hst Hres Hn Ed Hd) as [Ho _]. rewrite E in Ho. cbn [fst] in Ho.
  assert (Hown : map_get res k = Some own) by (apply map_get_elem; [done|]; by apply elem_of_own_entries).
  rewrite Hown in Ho. cbn [default from_option id] in Ho. unfold object_at in Ho. rewrite Hn in Ho. cbn [mbind option_bind] in Ho.
  apply foldl_fixed. intros t Ht. unfold drop_field. cbn [fst snd]. rewrite Hn, Ho. by rewrite without_has.
Qed.

(** The updater of the differences after a sync, in the store it shares with
    the state it is given. Run once, it takes the selected fields from every
    model and drops the models left with none. But it takes them from the old
    state's objects too, so the old state shows them gone without dropping a
    model, and run again on that state it changes nothing: React in strict mode
    runs an updater twice and keeps the second result, whose fully synced
    models stay as rows without fields. *)
Theorem drop_resolved_spec (store store' : Store) (refs refs' : References) (res : ResolutionsMap) (m : jstr) (d : RatioTypes) :
  store_ok (store, refs) → well_keyed res →
  map_get (read_differences store refs) m = Some d → d ≠ [] →
  drop_resolved res (store, refs) = (store', refs') →
  let remaining := without (map fst (default [] (map_get res m))) d in
  map_get (read_differences store' refs') m = (if nonempty remaining then Some remaining else None)
  ∧ map_get (read_differences store' refs) m = Some remaining
  ∧ (Forall (λ e : jstr * nat, default [] (store !! e.2) ≠ []) refs → drop_resolved res (store', refs) = (store', refs)).
Proof.
  intros Hst Hres Hd Hne E. cbv zeta. rewrite (read_differences_at (store, refs)) in Hd by done. unfold object_at in Hd. cbn [fst snd] in Hd.
  destruct (map_get refs m) as [n|] eqn:Hn; [|done]. cbn [mbind option_bind] in Hd.
  destruct (drop_resolved_at res store refs m n d Hst Hres Hn Hd Hne) as [Ho Hr]. rewrite E in Ho, Hr. cbn [fst snd] in Ho, Hr.
  pose proof (store_ok_drop_resolved res _ Hst) as Hst'. rewrite E in Hst'.
  assert (Hst'' : store_ok (store', refs)).
  { pose proof Hst as Hst0. destruct Hst as (Hk & Hnd & _ & _), Hst' as (_ & _ & Hf & _). split; [done|]. split; [done|]. split; [done|].
    pose proof (part_of_drop_all refs (own_entries res) _ (part_of_self store refs Hst0)) as [Hp _].
    unfold drop_resolved in E. rewrite E in Hp. exact Hp. }
  split; [|split; [|intros Hall; exact (drop_again _ _ _ _ _ Hst Hres Hall E)]].
  - rewrite (read_differences_at (store', refs')) by done. unfold object_at in Ho |- *. cbn [fst snd]. rewrite Hr. rewrite Hn in Ho.
    by destruct (nonempty _).
  - by rewrite (read_differences_at (store', refs)).
Qed.

Definition synced_store : Store * References := allocate [] sample_answer.

Definition all_of_b : ResolutionsMap := [(js "model-b", [(completion_ratio, price_of 4)])].

Lemma drop_resolved_spec_witness :
  let st := drop_resolved all_of_b synced_store in
  map_get (read_differences st.1 st.2) (js "model-b") = None
  ∧ map_get (read_differences (drop_resolved all_of_b (st.1, synced_store.2)).1 (drop_resolved all_of_b (st.1, synced_store.2)).2)
      (js "model-b") = Some [].
Proof.
  cbv zeta. set (st := drop_resolved all_of_b synced_store).
  destruct (drop_resolved_spec synced_store.1 st.1 synced_store.2 st.2 all_of_b (js "model-b")
              [(completion_ratio, offer [("up"%string, price_of 4)])]) as (H1 & H2 & H3).
  - apply store_ok_allocate; [constructor|]. apply answer_okb_ok. by_eval.
  - apply NoDup_singleton.
  - by_eval.
  - done.
  - by_eval.
  - rewrite H3 by (apply Forall_cons; split; [by vm_compute|]; apply Forall_cons; split; [by vm_compute|apply Forall_nil_2]). cbn [fst snd]. split; [rewrite H1; by_eval|rewrite H2; by_eval].
Defined.

(** ** Bulk selection *)

Lemma select_one_other diffs s res c m :
  differences_ok diffs → c.1 ∈ dataSource diffs → selectable_field c.1 s c.2 = true → row_model c.1 ≠ m →
  map_get (select_one diffs s res c) m = map_get res m.
Proof.
  intros Hd Hc Hsel Hm. unfold select_one. destruct (upstream_value _ _ s) as [v|] eqn:Hv; [|done].
  rewrite (select_cell _ _ _ _ _ _ Hd Hc Hsel Hv). by rewrite map_get_set_ne.
Qed.

Lemma select_one_own diffs s res c :
  differences_ok diffs → c.1 ∈ dataSource diffs → selectable_field c.1 s c.2 = true →
  ∃ v, upstream_value (row_ratioTypes c.1) c.2 s = Some v
    ∧ map_get (select_one diffs s res c) (row_model c.1)
      = Some (select_field (Some (row_ratioTypes c.1)) c.2 v s (default [] (map_get res (row_model c.1)))).
Proof.
  intros Hd Hc Hsel. unfold select_one. destruct (upstream_value _ _ s) as [v|] eqn:Hv.
  - exists v. split; [done|]. rewrite (select_cell _ _ _ _ _ _ Hd Hc Hsel Hv). apply map_get_set_eq.
  - unfold selectable_field in Hsel. rewrite Hv in Hsel. by rewrite andb_false_r in Hsel.
Qed.

(** A row under which both the price and a ratio can be selected. *)
Definition both_selectable (s : jstr) (filter : option RatioType) (row : SyncRow) : bool :=
  let cells := filterb (selectable_field row s) (getOrderedRatioTypes (row_ratioTypes row) filter) in
  existsb (λ f, bool_decide (getBillingCategory f = CatPrice)) cells
  && existsb (λ f, bool_decide (getBillingCategory f = CatRatio)) cells.

Lemma cells_of_row filter s rows c :
  c ∈ selectable_cells filter s rows →
  c.2 ∈ filterb (selectable_field c.1 s) (getOrderedRatioTypes (row_ratioTypes c.1) filter).
Proof.
  unfold selectable_cells. rewrite list_elem_of_In, in_concat. intros (l & (row & <- & Hrow)%in_map_iff & Hc).
  apply in_map_iff in Hc as (f & <- & Hf). cbn. by apply list_elem_of_In.
Qed.

Lemma excludes_categories f g :
  excludes f g = true →
  (getBillingCategory f = CatPrice ∧ getBillingCategory g = CatRatio) ∨ (getBillingCategory f = CatRatio ∧ getBillingCategory g = CatPrice).
Proof.
  unfold excludes, conflicts_with. rewrite !andb_true_iff, !negb_true_iff, !bool_decide_eq_false.
  destruct (getBillingCategory f), (getBillingCategory g); naive_solver.
Qed.

Lemma no_exclusion filter s rows c c' :
  Forall (λ row, both_selectable s filter row = false) rows →
  c ∈ selectable_cells filter s rows → c' ∈ selectable_cells filter s rows → c.1 = c'.1 → excludes c'.2 c.2 = false.
Proof.
  intros Hrows Hc Hc' Heq. apply not_true_iff_false. intros He. apply excludes_categories in He.
  rewrite Forall_forall in Hrows. specialize (Hrows _ (proj1 (selectable_cell _ _ _ _ Hc))).
  apply not_true_iff_false in Hrows. apply Hrows. apply cells_of_row in Hc, Hc'. rewrite <- Heq in Hc'.
  unfold both_selectable. cbv zeta. rewrite andb_true_iff, !existsb_exists. setoid_rewrite <- list_elem_of_In.
  setoid_rewrite bool_decide_eq_true. naive_solver.
Qed.

Lemma row_unique diffs row row' :
  differences_ok diffs → row ∈ dataSource diffs → row' ∈ dataSource diffs → row_model row = row_model row' → row = row'.
Proof.
  intros Hd ([m d] & -> & Hin)%list_elem_of_fmap ([m' d'] & -> & Hin')%list_elem_of_fmap. cbn. intros <-.
  rewrite elem_of_own_entries in Hin, Hin'. destruct Hd as [Hk _].
  apply (map_get_elem _ _ _ Hk) in Hin, Hin'. rewrite Hin in Hin'. by injection Hin' as ->.
Qed.

Lemma bulk_select_holds diffs filter s rows prev :
  differences_ok diffs → (∀ row, row ∈ rows → row ∈ dataSource diffs) →
  Forall (λ row, both_selectable s filter row = false) rows →
  Forall (cell_holds s (handleBulkSelect diffs filter s rows prev)) (selectable_cells filter s rows).
Proof.
  intros Hd Hin Hno. rewrite bulk_select_cells. apply (foldl_establishes (cell_holds s)).
  - intros res c Hc. destruct (selectable_cell _ _ _ _ Hc) as [Hrow Hsel].
    destruct (select_one_own diffs s res c Hd (Hin _ Hrow) Hsel) as (v & Hv & E). unfold cell_holds. rewrite E. cbn [default from_option id].
    apply select_field_holds; [done| |by left]. unfold selectable_field in Hsel. by apply andb_true_iff in Hsel as [_ ?].
  - intros res c c' Hc Hc' Hh. destruct (selectable_cell _ _ _ _ Hc) as [Hrow Hsel]. destruct (selectable_cell _ _ _ _ Hc') as [Hrow' Hsel'].
    unfold cell_holds in Hh |- *. destruct (decide (row_model c'.1 = row_model c.1)) as [Em|Hm].
    + destruct (select_one_own diffs s res c' Hd (Hin _ Hrow') Hsel') as (v & Hv & E). rewrite Em in E.
      pose proof (row_unique _ _ _ Hd (Hin _ Hrow) (Hin _ Hrow') (eq_sym Em)) as Er. rewrite <- Er in *. rewrite E.
      cbn [default from_option id]. apply select_field_holds; [done| |].
      * unfold selectable_field in Hsel. by apply andb_true_iff in Hsel as [_ ?].
      * right. split; [done|]. by eapply no_exclusion.
    + by rewrite select_one_other by auto.
Qed.

(** No selection has both a price and a ratio, so such a row keeps the header
    of its upstream from being checked. *)
Lemma both_never_selected diffs filter s rows res row :
  selections_ok diffs res → row ∈ rows → both_selectable s filter row = true →
  allSelected (column_header res filter s rows) = false.
Proof.
  intros Hres Hrow. unfold both_selectable. cbv zeta.
  intros [(f & Hf & Ef%bool_decide_eq_true)%existsb_exists (g & Hg & Eg%bool_decide_eq_true)%existsb_exists]%andb_true_iff.
  assert (Hcell : ∀ x, In x (filterb (selectable_field row s) (getOrderedRatioTypes (row_ratioTypes row) filter)) →
                       (row, x) ∈ selectable_cells filter s rows).
  { intros x Hx. unfold selectable_cells. rewrite list_elem_of_In, in_concat. eexists. split;
      [apply in_map_iff; exists row; split; [done|by apply list_elem_of_In]|]. apply in_map_iff. eauto. }
  unfold column_header. cbv zeta. cbn [allSelected]. apply andb_false_iff. right. apply Nat.eqb_neq. intros Hlen.
  assert (Hall : ∀ c, c ∈ selectable_cells filter s rows → isSelected res s c.1 c.2 = true).
  { intros c Hc. apply not_false_iff_true. intros Hn. revert Hlen. apply Nat.lt_neq.
    apply list_elem_of_split in Hc as (l1 & l2 & ->). rewrite filterb_app. unfold filterb at 2. cbn [List.filter]. rewrite Hn.
    rewrite !length_app. cbn [length]. pose proof (filter_length_le (λ c : SyncRow * RatioType, isSelected res s c.1 c.2) l1).
    pose proof (filter_length_le (λ c : SyncRow * RatioType, isSelected res s c.1 c.2) l2). unfold filterb. lia. }
  pose proof (Hall _ (Hcell _ Hf)) as Hp. pose proof (Hall _ (Hcell _ Hg)) as Hr.
  apply list_elem_of_In, elem_of_filterb in Hf as [_ Hf], Hg as [_ Hg]. unfold isSelected, selectable_field in *. cbn [fst snd] in *.
  apply andb_true_iff in Hf as [_ Hf], Hg as [_ Hg].
  destruct (map_get res (row_model row)) as [own|] eqn:Eo; cbn [mbind option_bind] in Hp, Hr;
    [|by destruct (upstream_value _ f s)].
  pose proof (so_one_category _ _ (selections_ok_own _ _ _ _ Hres Eo)) as Hc. apply not_true_iff_false in Hc. apply Hc.
  rewrite andb_true_iff, has_ratio_iff. split.
  - unfold has_price, map_has. destruct f; try done. by destruct (map_get own model_price), (upstream_value _ _ s).
  - exists g. split; [by apply category_of_ratio|]. unfold map_has. by destruct (map_get own g), (upstream_value _ g s).
Qed.

(** The bulk selection of an upstream's column, from any selection the page
    can have. The checkbox in the header is checked afterwards exactly when
    something can be selected and no row offers both a price and a ratio: with
    such a row the header never shows as checked, so the column cannot be
    unselected from it. *)
Theorem bulk_select_checks_column (toLowerCase : jstr → jstr) (diffs : DifferencesMap) (search : jstr)
    (filter : option RatioType) (s : jstr) (prev : ResolutionsMap) :
  differences_ok diffs → selections_ok diffs prev →
  let rows := filteredData toLowerCase search filter (dataSource diffs) in
  let header := column_header (handleBulkSelect diffs filter s rows prev) filter s rows in
  allSelected header = true
  ↔ (0 < selectableCount header)%nat ∧ Forall (λ row, both_selectable s filter row = false) rows.
Proof.
  intros Hd Hprev. cbv zeta. set (rows := filteredData _ _ _ _).
  assert (Hin : ∀ row, row ∈ rows → row ∈ dataSource diffs) by (intros row; apply filteredData_rows).
  set (res := handleBulkSelect _ _ _ _ _).
  assert (Hres : selections_ok diffs res) by by apply selections_ok_bulk_select.
  split.
  - intros Hall. split; [by apply andb_true_iff in Hall as [Hc%Nat.ltb_lt _]|].
    apply Forall_forall. intros row Hrow. apply not_true_iff_false. intros Hb.
    by rewrite (both_never_selected diffs filter s rows res row Hres Hrow Hb) in Hall.
  - intros [Hc Hno]. unfold column_header in *. cbv zeta in *. cbn [allSelected selectableCount] in *.
    apply andb_true_iff. split; [by apply Nat.ltb_lt|]. apply Nat.eqb_eq. f_equal. apply filterb_id.
    pose proof (bulk_select_holds diffs filter s rows prev Hd Hin Hno) as Hh. fold res in Hh. revert Hh. rewrite !Forall_forall. intros Hh c Hcell.
    destruct (Hh c Hcell) as (v & Hv & Ho). destruct (selectable_cell _ _ _ _ Hcell) as [Hrow _].
    pose proof (upstream_value_same _ _ _ _ _ _ Hd (row_differences _ _ Hd (Hin _ Hrow)) Hv) as Hs.
    unfold isSelected. rewrite Hv. destruct (map_get res (row_model c.1)) as [own|]; [|discriminate Ho].
    cbn [default from_option id] in Ho. cbn [mbind option_bind]. by rewrite Ho.
Qed.

Lemma bulk_select_checks_column_witness :
  differences_ok sample_answer
  ∧ allSelected (column_header (handleBulkSelect sample_answer None (js "up") (filteredData id [] None (dataSource sample_answer)) [])
                  None (js "up") (filteredData id [] None (dataSource sample_answer))) = false
  ∧ allSelected (column_header (handleBulkSelect sample_answer None (js "other") (filteredData id [] None (dataSource sample_answer)) [])
                  None (js "other") (filteredData id [] None (dataSource sample_answer))) = true.
Proof.
  assert (Hd : differences_ok sample_answer) by (apply answer_okb_ok; by_eval).
  split; [exact Hd|]. split.
  - apply not_true_iff_false. intros H.
    apply (bulk_select_checks_column id sample_answer [] None (js "up") [] Hd (selections_ok_nil _)) in H as [_ H].
    apply Forall_cons in H as [H _]. vm_compute in H. discriminate.
  - apply (bulk_select_checks_column id sample_answer [] None (js "other") [] Hd (selections_ok_nil _)). split; [vm_compute; lia|].
    repeat (apply Forall_cons; split; [by_eval|]). apply Forall_nil_2.
Defined.

(** ** Refused updates *)

Lemma send_refused answer texts updates :
  (∀ s, answer s = Refused) → send_updates answer texts updates = (texts, true).
Proof. intros Ha. induction updates as [|[s v] us IH]; [done|]. cbn. by rewrite Ha. Qed.

Lemma send_stored answer texts updates :
  (∀ s, answer s = Stored) → (send_updates answer texts updates).2 = true.
Proof. intros Ha. revert texts; induction updates as [|[s v] us IH]; intros texts; [done|]. cbn. by rewrite Ha. Qed.

(** Updates the server refuses. An answer that is no error counts as a
    success: when the server refuses every update it keeps its options, but the
    page ends in the same differences and selections as if all had been
    stored. *)
Theorem refused_sync_counts (answer answer' : Setting → Answer) (updates : list (Setting * jstr)) (rs : RatioSync) :
  rs_phase rs = Syncing updates → (∀ s, answer s = Refused) → (∀ s, answer' s = Stored) →
  let refused := finish_sync answer rs in
  let stored := finish_sync answer' rs in
  rs_server refused = rs_server rs
  ∧ rs_resolutions refused = [] ∧ rs_conflictDialogOpen refused = false
  ∧ differences refused = differences stored ∧ rs_resolutions refused = rs_resolutions stored.
Proof.
  intros Hp Ha Ha'. cbv zeta. unfold finish_sync. rewrite Hp, (send_refused _ _ _ Ha).
  pose proof (send_stored answer' (rs_server rs) updates Ha') as Hs. by destruct (send_updates answer' _ _) as [texts ok]; cbn in Hs; subst ok.
Qed.

Lemma refused_sync_counts_witness :
  let rs := set_phase (Syncing [(ModelPrice, js "{}")]) (set_resolutions all_of_b compared) in
  rs_server (finish_sync (λ _, Refused) rs) = no_texts
  ∧ map_get (differences (finish_sync (λ _, Refused) rs)) (js "model-b") = None.
Proof.
  cbv zeta. set (rs := set_phase _ _).
  destruct (refused_sync_counts (λ _, Refused) (λ _, Stored) [(ModelPrice, js "{}")] rs eq_refl (λ _, eq_refl) (λ _, eq_refl))
    as (Hs & _ & _ & Hd & _).
  split; [exact Hs|]. rewrite Hd. by_eval.
Defined.

(** An error ends the sync: what was answered before it is stored. *)
Lemma send_failed answer texts updates s v rest stored :
  Forall (λ u : Setting * jstr, answer u.1 = Stored) updates → answer s = Failed stored →
  send_updates answer texts (updates ++ (s, v) :: rest)
  = (let kept := foldl (λ (t : Setting → jstr) (u : Setting * jstr), <[u.1 := u.2]> t) texts updates in
     if stored then <[s := v]> kept else kept, false).
Proof.
  intros Hu Hs. revert texts; induction Hu as [|[s' v'] us Ha Hu IH]; intros texts; cbn [app send_updates foldl fst snd].
  - by rewrite Hs.
  - cbn [fst] in Ha. rewrite Ha. apply IH.
Qed.
