(* ===== verification/Currency.v ===== *)
(** * Amounts of money

    Model of [lib/currency.ts] and of the currency defaults of
    [stores/system-config-store.ts]: how amounts of the system's dollars are
    converted and shown under the display the administrator configured.
    [Intl.NumberFormat] in the browser's locale and [Math.pow(10, n)], which
    the language leaves to the implementation, are parameters. *)

From Stdlib Require Import String.
From S2P Require Import JsArith JsExec.

(** ** The configuration *)

Record CurrencyConfig := {
  displayInCurrency : bool;
  quotaDisplayType : jstr;
  quotaPerUnit : jsnum;
  usdExchangeRate : jsnum;
  customCurrencySymbol : jstr;
  customCurrencyExchangeRate : jsnum;
}.

Definition DEFAULT_CURRENCY_CONFIG : CurrencyConfig :=
  {| displayInCurrency := true; quotaDisplayType := js "USD"; quotaPerUnit := num_of_Z 500000;
     usdExchangeRate := num_of_Z 1; customCurrencySymbol := js "¤"; customCurrencyExchangeRate := num_of_Z 1 |}.

(** What the store holds: it is restored from the browser, where fields may
    be missing. *)
Record StoredCurrency := {
  st_displayInCurrency : option bool;
  st_quotaDisplayType : option jstr;
  st_quotaPerUnit : option jsnum;
  st_usdExchangeRate : option jsnum;
  st_customCurrencySymbol : option jstr;
  st_customCurrencyExchangeRate : option jsnum;
}.

Definition DISPLAY_TYPE_VALUES : list jstr := map js ["USD"; "CNY"; "TOKENS"; "CUSTOM"]%string.

Definition isCurrencyDisplayType (value : json) : bool :=
  match value with JStr s => bool_decide (s ∈ DISPLAY_TYPE_VALUES) | _ => false end.

Definition parseCurrencyDisplayType (value : json) (fallback : jstr) : jstr :=
  match value with JStr s => if isCurrencyDisplayType value then s else fallback | _ => fallback end.

(** [x && x > 0 ? x : d] *)
Definition positive_or (d : jsnum) (x : option jsnum) : jsnum :=
  match x with Some n => if num_lt (S754_zero false) n then n else d | None => d end.

Definition getConfig (stored : option StoredCurrency) : CurrencyConfig :=
  let d := DEFAULT_CURRENCY_CONFIG in
  match stored with
  | None => {| displayInCurrency := displayInCurrency d; quotaDisplayType := quotaDisplayType d;
               quotaPerUnit := quotaPerUnit d; usdExchangeRate := usdExchangeRate d;
               customCurrencySymbol := trim (customCurrencySymbol d);
               customCurrencyExchangeRate := customCurrencyExchangeRate d |}
  | Some c =>
      {| displayInCurrency := default (displayInCurrency d) (st_displayInCurrency c);
         quotaDisplayType := default (quotaDisplayType d) (st_quotaDisplayType c);
         quotaPerUnit := positive_or (quotaPerUnit d) (st_quotaPerUnit c);
         usdExchangeRate := positive_or (usdExchangeRate d) (st_usdExchangeRate c);
         customCurrencySymbol := match trim (default [] (st_customCurrencySymbol c)) with
                                 | [] => customCurrencySymbol d | s => s end;
         customCurrencyExchangeRate := positive_or (customCurrencyExchangeRate d) (st_customCurrencyExchangeRate c) |}
  end.

(** ** How amounts are shown *)

Inductive DisplayMeta :=
| MetaCurrency (symbol currencyCode : jstr) (exchangeRate : jsnum)
| MetaCustom (symbol : jstr) (exchangeRate : jsnum)
| MetaTokens (quotaPerUnit : jsnum).

Definition usd_meta : DisplayMeta := MetaCurrency (js "$") (js "USD") (num_of_Z 1).
Definition cny_meta (rate : jsnum) : DisplayMeta := MetaCurrency (js "¥") (js "CNY") rate.

Definition is_type (config : CurrencyConfig) (t : string) : bool := bool_decide (quotaDisplayType config = js t).

Definition getDisplayMeta (config : CurrencyConfig) : DisplayMeta :=
  if is_type config "CNY" then cny_meta (usdExchangeRate config)
  else if is_type config "CUSTOM" then MetaCustom (customCurrencySymbol config) (customCurrencyExchangeRate config)
  else if is_type config "TOKENS" then MetaTokens (quotaPerUnit config)
  else usd_meta.

Definition getBillingDisplayMeta (config : CurrencyConfig) : DisplayMeta :=
  match getDisplayMeta config with MetaTokens _ => usd_meta | meta => meta end.

Record FormatOptions := {
  digitsLarge : Z;
  digitsSmall : Z;
  abbreviate : bool;
  minimumNonZero : jsnum;
}.

(** The options a caller gives; the defaults stand for the others. *)
Record CurrencyFormatOptions := {
  o_digitsLarge : option Z;
  o_digitsSmall : option Z;
  o_abbreviate : option bool;
  o_minimumNonZero : option jsnum;
}.

Definition DEFAULT_FORMAT_OPTIONS : FormatOptions :=
  {| digitsLarge := 2; digitsSmall := 4; abbreviate := true; minimumNonZero := num_of_Z 0 |}.

Definition mergeOptions (options : option CurrencyFormatOptions) : FormatOptions :=
  let d := DEFAULT_FORMAT_OPTIONS in
  match options with
  | None => d
  | Some o => {| digitsLarge := default (digitsLarge d) (o_digitsLarge o);
                 digitsSmall := default (digitsSmall d) (o_digitsSmall o);
                 abbreviate := default (abbreviate d) (o_abbreviate o);
                 minimumNonZero := default (minimumNonZero d) (o_minimumNonZero o) |}
  end.

(** A point, some digits, as few as possible, and zeros to the end. *)
Definition FRACTION_ZEROS_RE : re :=
  RGroup 1 (lit "." ⋅ RStar false (RChar is_digit)) ⋅ rplus (is_chr 48) ⋅ REol.

Definition removeTrailingZeros (s : jstr) : jstr :=
  if includes (js ".") s
  then replace_first (lit "." ⋅ REol) (λ _, []) (replace_first FRACTION_ZEROS_RE (λ cs, default [] (cap 1 cs)) s)
  else s.

Definition formatNumberWithSuffix (value : jsnum) (digitsLarge digitsSmall : Z) (abbreviate : bool) : jstr :=
  let abs := num_abs value in
  if abbreviate && num_le (num_of_Z 1000) abs
  then removeTrailingZeros (to_fixed 1 (num_div value (num_of_Z 1000))) ++ js "k"
  else
    let digits := if num_le (num_of_Z 1) abs then digitsLarge else digitsSmall in
    removeTrailingZeros (to_fixed digits value).

Section formatting.
Context (pow10 : Z → jsnum).
(** [Intl.NumberFormat] for a currency code, and for plain decimals, with the
    greatest number of fraction digits. *)
Context (intl_currency : jstr → Z → jsnum → jstr) (intl_decimal : Z → jsnum → jstr).

Definition adjustForMinimum (value : jsnum) (digits : Z) (minimumNonZero : jsnum) : jsnum :=
  if num_eq value (num_of_Z 0) then value
  else
    let threshold := if num_lt (num_of_Z 0) minimumNonZero then minimumNonZero else pow10 (- digits) in
    let abs := num_abs value in
    if num_lt (num_of_Z 0) abs && num_lt abs threshold
    then if num_lt (num_of_Z 0) value then threshold else SFopp threshold
    else value.

Definition value_digits (value : jsnum) (options : FormatOptions) : Z :=
  if num_le (num_of_Z 1) (num_abs value) then digitsLarge options else digitsSmall options.

Definition formatCurrencyValue (value : jsnum) (options : FormatOptions) (meta : DisplayMeta) : jstr :=
  let digits := value_digits value options in
  let adjustedValue := adjustForMinimum value digits (minimumNonZero options) in
  match meta with
  | MetaTokens _ => formatNumberWithSuffix value (digitsLarge options) (digitsSmall options) (abbreviate options)
  | MetaCurrency _ currencyCode _ => intl_currency currencyCode digits adjustedValue
  | MetaCustom symbol _ => symbol ++ intl_decimal digits adjustedValue
  end.

(** Amounts are numbers, [null] or [undefined]; the latter two are [None]. *)
Definition amount_of (amount : option jsnum) : option jsnum :=
  match amount with None | Some S754_nan => None | Some x => Some x end.

Context (stored : option StoredCurrency).

Definition formatCurrencyFromUSD (amountUSD : option jsnum) (options : option CurrencyFormatOptions) : jstr :=
  match amount_of amountUSD with
  | None => js "-"
  | Some amount =>
      let config := getConfig stored in
      let meta := getDisplayMeta config in
      let merged := mergeOptions options in
      match meta with
      | MetaTokens _ =>
          formatNumberWithSuffix (num_mul amount (quotaPerUnit config)) 0 (digitsSmall merged) (abbreviate merged)
      | MetaCurrency _ _ rate | MetaCustom _ rate => formatCurrencyValue (num_mul amount rate) merged meta
      end
  end.

Definition formatBillingCurrencyFromUSD (amountUSD : option jsnum) (options : option CurrencyFormatOptions) : jstr :=
  match amount_of amountUSD with
  | None => js "-"
  | Some amount =>
      let meta := getBillingDisplayMeta (getConfig stored) in
      let merged := mergeOptions options in
      let value := match meta with MetaCurrency _ _ rate | MetaCustom _ rate => num_mul amount rate | MetaTokens _ => amount end in
      formatCurrencyValue value merged meta
  end.

Definition formatQuotaWithCurrency (quota : option jsnum) (options : option CurrencyFormatOptions) : jstr :=
  match amount_of quota with
  | None => js "-"
  | Some q => formatCurrencyFromUSD (Some (num_div q (quotaPerUnit (getConfig stored)))) options
  end.

Definition getCurrencyLabel : jstr :=
  let config := getConfig stored in
  match getDisplayMeta config with
  | MetaTokens _ => js "Tokens"
  | meta =>
      if is_type config "CNY" then js "CNY"
      else if is_type config "CUSTOM" then match meta with MetaCustom symbol _ => symbol | _ => js "Custom" end
      else js "USD"
  end.

Definition isCurrencyDisplayEnabled : bool :=
  match getDisplayMeta (getConfig stored) with MetaTokens _ => false | _ => true end.

Definition formatLocalCurrencyAmount (amount : option jsnum) (options : option CurrencyFormatOptions) : jstr :=
  match amount_of amount with
  | None => js "-"
  | Some a => formatCurrencyValue a (mergeOptions options) (getBillingDisplayMeta (getConfig stored))
  end.

(** *** Payment gateways *)

Context (toLowerCase : jstr → jstr).

Definition getStripeSettlementDisplayMeta (stripeCurrency : option jstr) : DisplayMeta :=
  let code := toLowerCase (match stripeCurrency with None | Some [] => js "usd" | Some c => c end) in
  if bool_decide (code = js "cny") then cny_meta (num_of_Z 1)
  else if bool_decide (code = js "hkd") then MetaCurrency (js "HK$") (js "HKD") (num_of_Z 1)
  else usd_meta.

Definition getPaymentGatewayDisplayMeta (config : CurrencyConfig) (paymentType stripeCurrency : option jstr) : DisplayMeta :=
  if bool_decide (paymentType = Some (js "stripe")) then getStripeSettlementDisplayMeta stripeCurrency
  else if is_type config "CUSTOM" then MetaCustom (customCurrencySymbol config) (num_of_Z 1)
  else cny_meta (num_of_Z 1).

Definition formatPaymentGatewayAmount (amount : option jsnum) (paymentType stripeCurrency : option jstr)
    (options : option CurrencyFormatOptions) : jstr :=
  match amount_of amount with
  | None => js "-"
  | Some a => formatCurrencyValue a (mergeOptions options)
                (getPaymentGatewayDisplayMeta (getConfig stored) paymentType stripeCurrency)
  end.

Definition getPaymentGatewayCurrencyLabel (paymentType stripeCurrency : option jstr) : jstr :=
  if bool_decide (paymentType = Some (js "stripe"))
  then match getStripeSettlementDisplayMeta stripeCurrency with MetaCurrency _ code _ => code | _ => js "USD" end
  else if bool_decide (paymentType = Some (js "usdt")) then js "USDT"
  else match getPaymentGatewayDisplayMeta (getConfig stored) paymentType None with
       | MetaCurrency _ code _ => code
       | MetaCustom symbol _ => symbol
       | MetaTokens _ => js "CNY"
       end.
End formatting.

(** ** Evaluations *)

Example removed_zeros :
  map (λ t, removeTrailingZeros (js t)) ["1.500"; "2.00"; "100"; "0.0"; "1.05"; "10.010"]%string
  = map js ["1.5"; "2"; "100"; "0"; "1.05"; "10.01"]%string.
Proof. by_eval. Qed.
