(* ===== verification/PriceDisplay.v ===== *)
(** * Model prices: the price displays

    Model of [features/pricing/lib/price.ts], [special-price.ts],
    [dynamic-price.ts] and [model-helpers.ts]: the prices of a model as its
    users see them, by token, by request, by tier of a special model, and
    from a price expression. Prices are shown through [Currency]. *)

From Stdlib Require Import String.
From S2P Require Import JsArith JsExec JsMap JsJson BillingExpr TierExpr Currency.

(** ** The data *)

Inductive TokenUnit := UnitM | UnitK.
Inductive PriceType := P_input | P_output | P_cache | P_create_cache | P_image | P_audio_input | P_audio_output.

Record VideoTierPrice := { vt_base : jsnum; vt_with_video : jsnum }.

(** The fields the functions read; numbers that are [null] or missing, and
    lists that are no arrays, are [None]. *)
Record PricingModel := {
  model_name : option jstr;
  description : option jstr;
  vendor_name : option jstr;
  tags : option jstr;
  quota_type : Z;
  model_ratio : jsnum;
  completion_ratio : jsnum;
  model_price : option jsnum;
  cache_ratio : option jsnum;
  create_cache_ratio : option jsnum;
  image_ratio : option jsnum;
  audio_ratio : option jsnum;
  audio_completion_ratio : option jsnum;
  enable_groups : option (list jstr);
  supported_endpoint_types : option (list jstr);
  group_ratio : option (list (jstr * jsnum));
  billing_mode : option jstr;
  billing_expr : option jstr;
  gpt_image_price : option (list (jstr * jsnum));
  video_token_price : option (list (jstr * VideoTierPrice));
}.

Definition QUOTA_TOKEN : Z := 0.
Definition QUOTA_REQUEST : Z := 1.
Definition EXCLUDED_GROUPS : list jstr := map js [""; "auto"]%string.

Definition TOKEN_UNIT_DIVISORS (u : TokenUnit) : jsnum := num_of_Z (match u with UnitM => 1 | UnitK => 1000 end).

Definition isTokenBasedModel (model : PricingModel) : bool := quota_type model =? QUOTA_TOKEN.

Definition enabled_groups (model : PricingModel) : list jstr := default [] (enable_groups model).
Definition group_ratios (model : PricingModel) : list (jstr * jsnum) := default [] (group_ratio model).

Definition getAvailableGroups {V} (model : PricingModel) (usableGroup : list (jstr * V)) : list jstr :=
  filterb (λ g, bool_decide (g ∈ enabled_groups model))
    (filterb (λ g, negb (bool_decide (g ∈ EXCLUDED_GROUPS))) (own_keys usableGroup)).

(** [path.replace(/\{model\}/g, modelName)], for names without [$]. *)
Definition replaceModelInPath (path modelName : jstr) : jstr := re_replace (lit "{model}") modelName path.

(** ** Group ratios *)

(** The loop for the least ratio, from [Infinity]. *)
Definition least_ratio (groups : list jstr) (ratios : list (jstr * jsnum)) : jsnum :=
  foldl (λ minRatio group, match map_get ratios group with
                           | Some ratio => if num_lt ratio minRatio then ratio else minRatio
                           | None => minRatio
                           end) (S754_infinity false) groups.

(** [minRatio === Infinity ? 1 : minRatio] *)
Definition or_one (minRatio : jsnum) : jsnum :=
  if decide (minRatio = S754_infinity false) then num_of_Z 1 else minRatio.

Definition getMinGroupRatio (enableGroups : list jstr) (groupRatio : list (jstr * jsnum)) : jsnum :=
  match enableGroups with
  | [] => num_of_Z 1
  | _ => or_one (least_ratio enableGroups groupRatio)
  end.

Definition getModelMinGroupRatio (model : PricingModel) : jsnum := getMinGroupRatio (enabled_groups model) (group_ratios model).

(** ** Prices by token and by request *)

Definition hasRatio (value : option jsnum) : option jsnum :=
  match value with Some x => if is_finite x then Some x else None | None => None end.

Definition times_ratio (base : jsnum) (value : option jsnum) : jsnum :=
  match hasRatio value with Some r => num_mul base r | None => S754_nan end.

Definition calculateTokenPrice (model : PricingModel) (type : PriceType) (ratio : jsnum) : jsnum :=
  let base := num_mul (num_mul (model_ratio model) (num_of_Z 2)) ratio in
  match type with
  | P_input => base
  | P_output => num_mul base (completion_ratio model)
  | P_cache => times_ratio base (cache_ratio model)
  | P_create_cache => times_ratio base (create_cache_ratio model)
  | P_image => times_ratio base (image_ratio model)
  | P_audio_input => times_ratio base (audio_ratio model)
  | P_audio_output =>
      match hasRatio (audio_ratio model), hasRatio (audio_completion_ratio model) with
      | Some a, Some c => num_mul (num_mul base a) c
      | _, _ => S754_nan
      end
  end.

Definition applyRechargeRate (price : jsnum) (showWithRecharge : bool) (priceRate usdExchangeRate : jsnum) : jsnum :=
  if showWithRecharge then num_div (num_mul price priceRate) usdExchangeRate else price.

(** [x || d] of a number that may be missing *)
Definition truthy_or (d : jsnum) (x : option jsnum) : jsnum :=
  match x with None | Some S754_nan | Some (S754_zero _) => d | Some n => n end.

(** How recharge prices are shown. *)
Record Recharge := { showWithRecharge : bool; priceRate : jsnum; exchangeRate : jsnum }.

Definition recharged (r : Recharge) (price : jsnum) : jsnum :=
  applyRechargeRate price (showWithRecharge r) (priceRate r) (exchangeRate r).

Definition format_options (large small : Z) : option CurrencyFormatOptions :=
  Some {| o_digitsLarge := Some large; o_digitsSmall := Some small; o_abbreviate := Some false; o_minimumNonZero := None |}.

(** A price with its symbol and a suffix [k]. *)
Definition not_digit_minus (c : Z) : bool := negb (is_digit c) && negb (c =? c_minus).
Definition number_class (c : Z) : bool := is_digit c || (c =? c_minus) || (c =? c_comma).

Definition PRICE_RE : re :=
  RBol ⋅ RGroup 1 (rstar not_digit_minus) ⋅ RGroup 2 (rplus number_class ⋅ ropt (lit ".") ⋅ rstar is_digit)
    ⋅ RGroup 3 (ropt (lit "k")) ⋅ REol.

Definition stripTrailingZeros (formatted : jstr) : jstr :=
  match match_caps PRICE_RE formatted with
  | None => formatted
  | Some cs =>
      let parsed := parse_float (filterb (λ c, negb (c =? c_comma)) (group 2 cs)) in
      match parsed with
      | S754_nan => formatted
      | _ =>
          let result := string_of_number parsed in
          let result := if includes (js "e") result
                        then replace_first (ropt (lit ".") ⋅ rplus (is_chr 48) ⋅ REol) (λ _, []) (to_fixed 20 parsed)
                        else result in
          group 1 cs ++ result ++ group 3 cs
      end
  end.

(** ** Special models *)

Definition GPT_IMAGE_TIERS : list jstr := map js ["1k"; "2k"; "4k"]%string.
Definition VIDEO_TIER_ORDER : list jstr := map js ["default"; "480p"; "720p"; "1080p"; "4k"]%string.

Inductive SpecialPricingKind := GptImage | VideoToken.

Definition getSpecialPricingKind (model : PricingModel) : option SpecialPricingKind :=
  if nonempty (default [] (gpt_image_price model)) then Some GptImage
  else if nonempty (default [] (video_token_price model)) then Some VideoToken else None.

Definition getSpecialPricingTypeLabel (model : PricingModel) : option jstr :=
  (λ kind, match kind with GptImage => js "Image tiers" | VideoToken => js "Video tiers" end) <$> getSpecialPricingKind model.

Definition getSpecialDisplayRatio (model : PricingModel) (explicitRatio : option jsnum) : jsnum :=
  default (getModelMinGroupRatio model) explicitRatio.

(** Known tiers in their order, then the others by code units. *)
Definition getVideoPricingTiers (model : PricingModel) : list (jstr * VideoTierPrice) :=
  let prices := default [] (video_token_price model) in
  let entry key := (λ p, (key, p)) <$> map_get prices key in
  omap entry VIDEO_TIER_ORDER
  ++ omap entry (stable_sort units_le (filterb (λ key, negb (bool_decide (key ∈ VIDEO_TIER_ORDER))) (own_keys prices))).

(** ** Price expressions *)

Definition isDynamicPricingModel (model : PricingModel) : bool :=
  bool_decide (billing_mode model = Some (js "tiered_expr")) && nonempty (default [] (billing_expr model)).

Definition getDynamicDisplayGroupRatio (model : PricingModel) : jsnum :=
  match enabled_groups model with
  | [] => num_of_Z 1
  | groups => or_one (least_ratio groups (group_ratios model))
  end.

Definition getDynamicPricingTiers (model : PricingModel) : outcome (list ParsedTier) :=
  if isDynamicPricingModel model
  then split ← splitBillingExprAndRequestRules (default [] (billing_expr model));
       Ret (parseTiersFromExpr (billingExpr split))
  else Ret [].

Definition hasDynamicRequestRules (model : PricingModel) : outcome bool :=
  if isDynamicPricingModel model
  then split ← splitBillingExprAndRequestRules (default [] (billing_expr model));
       parsed ← tryParseRequestRuleExpr (requestRuleExpr split);
       Ret (nonempty (default [] parsed))
  else Ret false.

Record DynamicPriceEntry := { de_variable : BillingVar; de_value : jsnum; de_formatted : jstr }.

Definition PRIMARY_DYNAMIC_FIELDS : list jstr := map js ["inputPrice"; "outputPrice"]%string.

Definition entry_field (e : DynamicPriceEntry) : jstr := default [] (bv_field (de_variable e)).
Definition is_primary (e : DynamicPriceEntry) : bool := bool_decide (entry_field e ∈ PRIMARY_DYNAMIC_FIELDS).

(** Primary entries come first, others keep their order. *)
Definition entry_le (a b : DynamicPriceEntry) : bool := is_primary a || negb (is_primary b).

Record DynamicPriceOptions := {
  do_tokenUnit : TokenUnit;
  do_recharge : Recharge;
  do_groupRatioMultiplier : jsnum;
}.

Record DynamicPricingSummary := {
  ds_tiers : list ParsedTier;
  ds_tier : option ParsedTier;
  ds_tierCount : Z;
  ds_hasRequestRules : bool;
  ds_isSpecialExpression : bool;
  ds_rawExpression : jstr;
  ds_entries : list DynamicPriceEntry;
  ds_primaryEntries : list DynamicPriceEntry;
  ds_secondaryEntries : list DynamicPriceEntry;
}.

Section formatting.
Context (pow10 : Z → jsnum) (intl_currency : jstr → Z → jsnum → jstr) (intl_decimal : Z → jsnum → jstr).
Context (stored : option StoredCurrency).

Definition format_usd (large small : Z) (price : jsnum) : jstr :=
  formatCurrencyFromUSD pow10 intl_currency intl_decimal stored (Some price) (format_options large small).

Definition formatDirectPrice (priceInUSD groupRatio : jsnum) (tokenUnit : option TokenUnit) (r : Recharge) : jstr :=
  let adjusted := recharged r (num_mul priceInUSD groupRatio) in
  format_usd 4 6 (match tokenUnit with Some u => num_div adjusted (TOKEN_UNIT_DIVISORS u) | None => adjusted end).

Definition token_price (model : PricingModel) (type : PriceType) (ratio : jsnum) (tokenUnit : TokenUnit) (r : Recharge) : jstr :=
  format_usd 4 6 (num_div (recharged r (calculateTokenPrice model type ratio)) (TOKEN_UNIT_DIVISORS tokenUnit)).

Definition formatPrice (model : PricingModel) (type : PriceType) (tokenUnit : TokenUnit) (r : Recharge) : jstr :=
  if quota_type model =? QUOTA_REQUEST then js "-"
  else token_price model type (getMinGroupRatio (enabled_groups model) (group_ratios model)) tokenUnit r.

Definition formatGroupPrice (model : PricingModel) (group : jstr) (type : PriceType) (tokenUnit : TokenUnit) (r : Recharge)
    (groupRatio : list (jstr * jsnum)) : jstr :=
  if quota_type model =? QUOTA_REQUEST then js "-"
  else token_price model type (truthy_or (num_of_Z 1) (map_get groupRatio group)) tokenUnit r.

Definition request_price (model : PricingModel) (ratio : jsnum) (r : Recharge) : jstr :=
  format_usd 4 4 (recharged r (num_mul (truthy_or (num_of_Z 0) (model_price model)) ratio)).

Definition formatFixedPrice (model : PricingModel) (group : jstr) (r : Recharge) (groupRatio : list (jstr * jsnum)) : jstr :=
  if quota_type model =? QUOTA_REQUEST
  then request_price model (truthy_or (num_of_Z 1) (map_get groupRatio group)) r
  else js "-".

Definition formatRequestPrice (model : PricingModel) (r : Recharge) : jstr :=
  if quota_type model =? QUOTA_REQUEST
  then request_price model (getMinGroupRatio (enabled_groups model) (group_ratios model)) r
  else js "-".

Definition formatGPTImageTierPrice (model : PricingModel) (tier : jstr) (ratio : option jsnum) (r : Recharge) : jstr :=
  match hasRatio (map_get (default [] (gpt_image_price model)) tier) with
  | None => js "-"
  | Some price => formatDirectPrice price (getSpecialDisplayRatio model ratio) None r
  end.

Definition formatVideoTierPrice (model : PricingModel) (price : jsnum) (ratio : option jsnum) (unit : TokenUnit) (r : Recharge) : jstr :=
  if is_finite price && num_lt (num_of_Z 0) price
  then formatDirectPrice price (getSpecialDisplayRatio model ratio) (Some unit) r
  else js "-".

Definition num_min_of (x : jsnum) (l : list jsnum) : jsnum := foldl (λ m y, if num_lt y m then y else m) x l.
Definition num_max_of (x : jsnum) (l : list jsnum) : jsnum := foldl (λ m y, if num_lt m y then y else m) x l.

Definition getVideoPriceRange (model : PricingModel) (field : VideoTierPrice → jsnum) (ratio : option jsnum) (unit : TokenUnit)
    (r : Recharge) : option jstr :=
  match filterb (λ price, is_finite price && num_lt (num_of_Z 0) price) (map (λ e, field e.2) (getVideoPricingTiers model)) with
  | [] => None
  | p :: rest =>
      let lo := num_min_of p rest in
      let hi := num_max_of p rest in
      let minFormatted := formatVideoTierPrice model lo ratio unit r in
      if num_eq lo hi then Some minFormatted
      else Some (minFormatted ++ js " – " ++ formatVideoTierPrice model hi ratio unit r)
  end.

Definition formatDynamicUnitPrice (valuePerMillionTokens : jsnum) (options : DynamicPriceOptions) : jstr :=
  let priceUSD := num_div (num_mul valuePerMillionTokens (do_groupRatioMultiplier options)) (TOKEN_UNIT_DIVISORS (do_tokenUnit options)) in
  formatBillingCurrencyFromUSD pow10 intl_currency intl_decimal stored
    (Some (recharged (do_recharge options) priceUSD)) (format_options 4 6).

Definition price_entry (tier : ParsedTier) (options : DynamicPriceOptions) (v : BillingVar) : option DynamicPriceEntry :=
  match bv_field v ≫= map_get (pt_prices tier) with
  | Some value =>
      if is_finite value && num_lt (num_of_Z 0) value
      then Some {| de_variable := v; de_value := value; de_formatted := formatDynamicUnitPrice value options |}
      else None
  | None => None
  end.

Definition getDynamicPriceEntries (tier : option ParsedTier) (options : DynamicPriceOptions) : list DynamicPriceEntry :=
  match tier with
  | None => []
  | Some t => stable_sort entry_le (omap (price_entry t options) BILLING_PRICING_VARS)
  end.

Definition getDynamicPricingSummary (model : PricingModel) (options : DynamicPriceOptions) : outcome (option DynamicPricingSummary) :=
  if isDynamicPricingModel model
  then
    tiers ← getDynamicPricingTiers model;
    rules ← hasDynamicRequestRules model;
    let entries := getDynamicPriceEntries (head tiers) options in
    let rawExpression := default [] (billing_expr model) in
    Ret (Some {| ds_tiers := tiers; ds_tier := head tiers; ds_tierCount := Z.of_nat (length tiers);
                 ds_hasRequestRules := rules;
                 ds_isSpecialExpression := nonempty (trim rawExpression) && negb (nonempty tiers);
                 ds_rawExpression := rawExpression; ds_entries := entries;
                 ds_primaryEntries := filterb is_primary entries;
                 ds_secondaryEntries := filterb (λ e, negb (is_primary e)) entries |})
  else Ret None.
End formatting.

(** ** Evaluations *)

Example stripped_prices :
  map (λ t, stripTrailingZeros (js t)) ["$1.500"; "$1,234.50"; "12.0k"; "$0.0000001"; "free"; "¥3.00"]%string
  = map js ["$1.5"; "$1234.5"; "12k"; "$0.0000001"; "free"; "¥3"]%string.
Proof. by_eval. Qed.
