(* ===== verification/PriceDisplayProps.v ===== *)
(** * Model prices: what the displays show

    The tiers and entries shown for a stored price expression, the least ratio
    of the groups of a model, amounts that must not be shown as zero, and the
    prices that are shown wrong. *)

From Stdlib Require Import String.
From S2P Require Import JsArith JsExec JsMap JsJson BillingExpr BillingExprFacts BillingExprProps.
From S2P Require Import TierExpr TierExprFacts TierExprProps TierDisplayProps Currency PriceDisplay.

#[local] Opaque js string_of_number number_of_string.

(** ** Entries of a price expression *)

Lemma insert_entry x (ps ss : list DynamicPriceEntry) :
  Forall (λ e, is_primary e = true) ps → Forall (λ e, is_primary e = false) ss →
  sort_insert entry_le x (ps ++ ss) = if is_primary x then x :: ps ++ ss else ps ++ x :: ss.
Proof.
  intros Hp Hs. destruct (is_primary x) eqn:Hx.
  - destruct (ps ++ ss); cbn; [done|]. unfold entry_le. by rewrite Hx.
  - induction Hp as [|p ps Hp _ IH]; cbn.
    + destruct Hs as [|s ss Hs _]; cbn; [done|]. unfold entry_le. by rewrite Hx, Hs.
    + unfold entry_le at 1. rewrite Hx, Hp. cbn. by rewrite IH.
Qed.

(** The order of the entries: primary ones first, otherwise as they were. *)
Lemma sorted_entries es :
  stable_sort entry_le es = filterb is_primary es ++ filterb (λ e, negb (is_primary e)) es.
Proof.
  induction es as [|e es IH]; [done|]. unfold stable_sort in *. cbn [foldr]. rewrite IH, insert_entry.
  - unfold filterb. cbn. by destruct (is_primary e).
  - apply Forall_forall. by intros x [_ Hx]%elem_of_filterb.
  - apply Forall_forall. intros x [_ Hx]%elem_of_filterb. by apply negb_true_iff.
Qed.

Lemma primary_of_sorted es : filterb is_primary (stable_sort entry_le es) = filterb is_primary es.
Proof.
  rewrite sorted_entries, filterb_app, filterb_twice.
  rewrite (filterb_empty is_primary (filterb _ es)); [apply app_nil_r|].
  apply Forall_forall. intros x [_ Hx]%elem_of_filterb. by apply negb_true_iff.
Qed.

Lemma secondary_of_sorted es :
  filterb (λ e, negb (is_primary e)) (stable_sort entry_le es) = filterb (λ e, negb (is_primary e)) es.
Proof.
  rewrite sorted_entries, filterb_app, filterb_twice. rewrite (filterb_empty _ (filterb is_primary es)); [done|].
  apply Forall_forall. intros x [_ Hx]%elem_of_filterb. by rewrite Hx.
Qed.

Definition pricing_field (v : BillingVar) : jstr := default [] (bv_field v).

Lemma pricing_fields_ok :
  NoDup (map pricing_field BILLING_PRICING_VARS) ∧ Forall (λ v, bv_field v = Some (pricing_field v)) BILLING_PRICING_VARS.
Proof. split; apply (bool_decide_unpack _); by_eval. Qed.

Lemma get_displayed t v :
  v ∈ BILLING_PRICING_VARS → bv_field v ≫= map_get (pt_prices (displayed t)) = Some (unit_cost t v).
Proof.
  intros Hv. destruct pricing_fields_ok as [Hnd Hf]. rewrite Forall_forall in Hf. rewrite (Hf v Hv). cbn [mbind option_bind].
  apply map_get_elem.
  - unfold well_keyed, displayed. cbn [pt_prices]. rewrite map_map. exact Hnd.
  - unfold displayed. cbn [pt_prices]. apply list_elem_of_fmap. by exists v.
Qed.

(** A unit cost that is shown: finite and above zero. *)
Definition shown_cost (t : VisualTier) (v : BillingVar) : bool :=
  is_finite (unit_cost t v) && num_lt (num_of_Z 0) (unit_cost t v).

Section displays.
Context (pow10 : Z → jsnum) (intl_currency : jstr → Z → jsnum → jstr) (intl_decimal : Z → jsnum → jstr).
Context (stored : option StoredCurrency).

Definition entries_of (t : VisualTier) (options : DynamicPriceOptions) : list DynamicPriceEntry :=
  map (λ v, {| de_variable := v; de_value := unit_cost t v;
               de_formatted := formatDynamicUnitPrice pow10 intl_currency intl_decimal stored (unit_cost t v) options |})
    (filterb (shown_cost t) BILLING_PRICING_VARS).

Lemma displayed_entries t options vs :
  (∀ v, v ∈ vs → v ∈ BILLING_PRICING_VARS) →
  omap (price_entry pow10 intl_currency intl_decimal stored (displayed t) options) vs
  = map (λ v, {| de_variable := v; de_value := unit_cost t v;
                 de_formatted := formatDynamicUnitPrice pow10 intl_currency intl_decimal stored (unit_cost t v) options |})
      (filterb (shown_cost t) vs).
Proof.
  induction vs as [|v vs IH]; intros Hvs; [done|]. unfold filterb in *. cbn [omap list_omap List.filter].
  unfold price_entry at 1. rewrite get_displayed by (apply Hvs; by left). fold (shown_cost t v).
  rewrite IH by (intros w Hw; apply Hvs; by right). by destruct (shown_cost t v).
Qed.

Lemma entries_displayed t options :
  getDynamicPriceEntries pow10 intl_currency intl_decimal stored (Some (displayed t)) options
  = stable_sort entry_le (entries_of t options).
Proof. unfold getDynamicPriceEntries. by rewrite displayed_entries. Qed.
End displays.

Lemma rules_read gs :
  forallb canonical_group gs = true → tryParseRequestRuleExpr (buildRequestRuleExpr gs) = Ret (Some gs).
Proof. intros (fs & -> & Hall)%build_groups. by apply parse_product. Qed.

(** A model with a price expression. *)
Definition expression_model (expr : jstr) : PricingModel :=
  {| model_name := Some (js "m"); description := None; vendor_name := None; tags := None; quota_type := 0;
     model_ratio := num_of_Z 0; completion_ratio := num_of_Z 0; model_price := None; cache_ratio := None;
     create_cache_ratio := None; image_ratio := None; audio_ratio := None; audio_completion_ratio := None;
     enable_groups := None; supported_endpoint_types := None; group_ratio := None;
     billing_mode := Some (js "tiered_expr"); billing_expr := Some expr; gpt_image_price := None; video_token_price := None |}.

(** ** The summary of a stored price *)

(** C15. A stored price is shown as it was built. For a model whose price
    expression is the stored text of a configuration and of rules, the summary
    the price displays use exists; its tiers are the tiers of the configuration
    with their labels, conditions and unit costs; it has request rules exactly
    if there are rules and is no special expression; and its entries are the
    positive unit costs of the first tier under the billing variables' labels,
    input and output first, each formatted for the display. *)
Theorem saved_price_displayed (pow10 : Z → jsnum) (intl_currency : jstr → Z → jsnum → jstr) (intl_decimal : Z → jsnum → jstr)
    (stored : option StoredCurrency) (options : DynamicPriceOptions)
    (t : VisualTier) (rest : list VisualTier) (gs : list RequestRuleGroup) :
  storable (t :: rest) = true → forallb canonical_group gs = true →
  let text := combineBillingExpr (generateExprFromVisualConfig (Some (t :: rest))) (buildRequestRuleExpr gs) in
  let entries := entries_of pow10 intl_currency intl_decimal stored t options in
  getDynamicPricingSummary pow10 intl_currency intl_decimal stored (expression_model text) options
  = Ret (Some
      {| ds_tiers := map displayed (t :: rest); ds_tier := Some (displayed t);
         ds_tierCount := Z.of_nat (length (t :: rest)); ds_hasRequestRules := nonempty gs;
         ds_isSpecialExpression := false; ds_rawExpression := text;
         ds_entries := filterb is_primary entries ++ filterb (λ e, negb (is_primary e)) entries;
         ds_primaryEntries := filterb is_primary entries;
         ds_secondaryEntries := filterb (λ e, negb (is_primary e)) entries |}).
Proof.
  intros Hs Hg text entries. pose proof (split_store _ _ Hs Hg) as Hsplit. fold text in Hsplit.
  pose proof Hs as Hreg. apply andb_true_iff in Hreg as [[Hreg _]%andb_true_iff _].
  assert (Hne : nonempty text = true).
  { destruct text eqn:E; [|done]. exfalso. destruct (printed_shape _ Hs) as (_ & (c & u & Eh & _) & _).
    assert (E0 : splitBillingExprAndRequestRules [] = Ret {| billingExpr := []; requestRuleExpr := [] |}) by by_eval.
    rewrite E0 in Hsplit. apply Ret_inj, (f_equal billingExpr) in Hsplit. cbn [billingExpr] in Hsplit.
    by rewrite Eh in Hsplit. }
  unfold getDynamicPricingSummary, getDynamicPricingTiers, hasDynamicRequestRules.
  assert (isDynamicPricingModel (expression_model text) = true) as ->.
  { unfold isDynamicPricingModel. cbn [expression_model billing_mode billing_expr default from_option id]. by rewrite bool_decide_eq_true_2. }
  cbn [expression_model billing_expr default from_option id]. rewrite Hsplit. cbn [mbind outcome_bind billingExpr requestRuleExpr].
  rewrite rules_read by done. cbn [mbind outcome_bind default from_option id]. rewrite parse_printed by done.
  cbn [map head nonempty negb length]. rewrite andb_false_r, entries_displayed.
  fold entries. rewrite primary_of_sorted, secondary_of_sorted, sorted_entries. by rewrite length_map.
Qed.

(** Numbers shown by hand: the code and the digits of the shortest form. *)
Definition plain_intl (code : jstr) (digits : Z) (x : jsnum) : jstr := code ++ js " " ++ string_of_number x.
Definition plain_decimal (digits : Z) (x : jsnum) : jstr := string_of_number x.
Definition plain_pow10 (n : Z) : jsnum := num_of_decimal false 1 n.

Definition plain_recharge : Recharge := {| showWithRecharge := false; priceRate := num_of_Z 1; exchangeRate := num_of_Z 1 |}.
Definition plain_options : DynamicPriceOptions :=
  {| do_tokenUnit := UnitM; do_recharge := plain_recharge; do_groupRatioMultiplier := num_of_Z 1 |}.

Definition shown_tier (input output : Z) : VisualTier :=
  normalizeVisualTier
    {| p_label := Some (js "base"); p_conditions := Some []; p_input := Some (num_of_Z input);
       p_output := Some (num_of_Z output); p_cache_mode := None; p_costs := [(js "cache_read_unit_cost", num_of_Z 1)] |}.

Lemma saved_price_displayed_witness :
  let text := combineBillingExpr (generateExprFromVisualConfig (Some [shown_tier 2 8])) (buildRequestRuleExpr sample_groups) in
  ∃ s, getDynamicPricingSummary plain_pow10 plain_intl plain_decimal None (expression_model text) plain_options = Ret (Some s)
    ∧ ds_hasRequestRules s = true
    ∧ map de_formatted (ds_primaryEntries s) = map js ["USD 2"; "USD 8"]%string
    ∧ map de_formatted (ds_secondaryEntries s) = [js "USD 1"].
Proof.
  eexists. split; [apply (saved_price_displayed plain_pow10 plain_intl plain_decimal None plain_options (shown_tier 2 8) [] sample_groups);
                   vm_compute; reflexivity|].
  split; [reflexivity|]. split; vm_compute; reflexivity.
Defined.

(** ** The least ratio of the groups *)

Definition ratio_step (ratios : list (jstr * jsnum)) (minRatio : jsnum) (group : jstr) : jsnum :=
  match map_get ratios group with
  | Some ratio => if num_lt ratio minRatio then ratio else minRatio
  | None => minRatio
  end.

Lemma least_ratio_from ratios groups m :
  let r := foldl (ratio_step ratios) m groups in
  (r = m ∨ ∃ g, g ∈ groups ∧ map_get ratios g = Some r ∧ num_lt r m = true)
  ∧ ∀ g x, g ∈ groups → map_get ratios g = Some x → num_lt x r = false.
Proof.
  revert m; induction groups as [|g groups IH]; intros m; cbn [foldl]; [split; [by left|]|].
  { intros ? ? []%not_elem_of_nil. }
  destruct (IH (ratio_step ratios m g)) as [H1 H2]. set (r := foldl _ _ groups) in *.
  assert (Hstep : (ratio_step ratios m g = m ∧ ∀ x, map_get ratios g = Some x → num_lt x m = false)
                  ∨ (map_get ratios g = Some (ratio_step ratios m g) ∧ num_lt (ratio_step ratios m g) m = true)).
  { unfold ratio_step. destruct (map_get ratios g) as [x|]; [|left; by split].
    destruct (num_lt x m) eqn:Hx; [by right|left; split; [done|]]. by intros ? [= <-]. }
  split.
  - destruct H1 as [H1|(g' & Hin & Hg & Hlt)].
    + destruct Hstep as [[E _]|[E Hlt]]; rewrite H1; [by left|]. right. exists g. split; [by left|done].
    + right. exists g'. split; [by right|]. split; [done|].
      destruct Hstep as [[E _]|[_ E]]; [by rewrite <- E|]. by apply (num_lt_trans _ (ratio_step ratios m g)).
  - intros g' x Hin Hx. apply elem_of_cons in Hin as [->|Hin]; [|by apply (H2 g')].
    destruct (num_lt x r) eqn:Hlt; [exfalso|done].
    assert (Hstep' : num_lt x (ratio_step ratios m g) = false).
    { destruct Hstep as [[-> Hn]|[E _]]; [by apply Hn|]. rewrite E in Hx. injection Hx as ->. apply num_lt_irrefl. }
    destruct H1 as [H1|(_ & _ & _ & Hlt')]; [by rewrite H1, Hstep' in Hlt|].
    by rewrite (num_lt_trans _ _ _ Hlt Hlt') in Hstep'.
Qed.

(** The ratio prices are shown with: it is 1 where no enabled group has a
    ratio below infinity; otherwise it is the ratio of an enabled group, and no
    enabled group has a smaller one. Both displays, of token prices and of
    price expressions, use the same ratio. *)
Theorem getModelMinGroupRatio_spec (model : PricingModel) :
  let r := getModelMinGroupRatio model in
  let ratio_of g := map_get (group_ratios model) g in
  getDynamicDisplayGroupRatio model = r
  ∧ (r = num_of_Z 1 ∧ (∀ g x, g ∈ enabled_groups model → ratio_of g = Some x → num_lt x (S754_infinity false) = false)
     ∨ (∃ g, g ∈ enabled_groups model ∧ ratio_of g = Some r)
       ∧ ∀ g x, g ∈ enabled_groups model → ratio_of g = Some x → num_lt x r = false).
Proof.
  cbv zeta. split.
  - unfold getDynamicDisplayGroupRatio, getModelMinGroupRatio, getMinGroupRatio. by destruct (enabled_groups model).
  - unfold getModelMinGroupRatio, getMinGroupRatio. destruct (enabled_groups model) as [|g0 groups0] eqn:Eg.
    { left. split; [done|]. intros ? ? []%not_elem_of_nil. }
    cbv beta iota. rewrite <- Eg. clear Eg g0 groups0. destruct (least_ratio_from (group_ratios model) (enabled_groups model) (S754_infinity false)) as [H1 H2].
    change (foldl (ratio_step (group_ratios model)) (S754_infinity false) (enabled_groups model))
      with (least_ratio (enabled_groups model) (group_ratios model)) in *.
    set (r := least_ratio _ _) in *. destruct H1 as [H1|(g & Hin & Hg & Hlt)].
    + rewrite H1 in *. by left.
    + right. unfold or_one. rewrite decide_False; [split; [by exists g|done]|].
      intros E. rewrite E, num_lt_irrefl in Hlt. done.
Qed.

(** ** Amounts *)

Definition threshold (pow10 : Z → jsnum) (digits : Z) (minimumNonZero : jsnum) : jsnum :=
  if num_lt (num_of_Z 0) minimumNonZero then minimumNonZero else pow10 (- digits).

(** No amount is rounded to nothing: for a finite amount other than zero,
    the number handed to the locale's formatter under a currency or a custom
    symbol has the amount's sign, is not zero, is at least the least amount
    the digits can show (or the caller's minimum), and is the amount itself
    where that is not below the least amount. *)
Theorem amount_shown_nonzero (pow10 : Z → jsnum) (value : jsnum) (options : FormatOptions) :
  (∀ n, num_lt (num_of_Z 0) (pow10 n) = true) →
  is_finite value = true → num_eq value (num_of_Z 0) = false →
  let digits := value_digits value options in
  let least := threshold pow10 digits (minimumNonZero options) in
  ∃ shown,
    (∀ intl_currency intl_decimal symbol code rate,
       formatCurrencyValue pow10 intl_currency intl_decimal value options (MetaCurrency symbol code rate) = intl_currency code digits shown
       ∧ formatCurrencyValue pow10 intl_currency intl_decimal value options (MetaCustom symbol rate) = symbol ++ intl_decimal digits shown)
    ∧ num_eq shown (num_of_Z 0) = false ∧ is_negative shown = is_negative value
    ∧ num_lt (num_abs shown) least = false
    ∧ (num_lt (num_abs value) least = false → shown = value).
Proof.
  intros Hpow Hfin Hnz digits least. exists (adjustForMinimum pow10 value digits (minimumNonZero options)).
  split; [done|]. assert (Hleast : num_lt (num_of_Z 0) least = true).
  { unfold least, threshold. destruct (num_lt _ (minimumNonZero options)) eqn:E; [done|apply Hpow]. }
  unfold adjustForMinimum. rewrite Hnz. fold (threshold pow10 digits (minimumNonZero options)). fold least.
  destruct value as [s|s| |s m e]; try done. change (num_of_Z 0) with (S754_zero false) in *.
  cbn [num_abs SFabs].
  assert (num_lt (S754_zero false) (S754_finite false m e) = true) as -> by done. cbn [andb].
  destruct (num_lt (S754_finite false m e) least) eqn:Hlt; [|by destruct s].
  assert (Habs : num_abs least = least ∧ is_negative least = false) by by destruct least as [[]|[]| |[] ? ?].
  destruct Habs as [Habs Hneg].
  assert (Hnot : num_eq least (S754_zero false) = false ∧ num_eq (SFopp least) (S754_zero false) = false)
    by by destruct least as [[]|[]| |[] ? ?].
  assert (Hopp : is_negative (SFopp least) = true ∧ num_abs (SFopp least) = least) by by destruct least as [[]|[]| |[] ? ?].
  destruct s; cbn [num_lt SFltb SFcompare is_negative].
  - destruct Hopp as [-> ->]. split; [by apply Hnot|]. split; [done|]. split; [apply num_lt_irrefl|done].
  - rewrite Habs, Hneg. split; [by apply Hnot|]. split; [done|]. split; [apply num_lt_irrefl|done].
Qed.

Definition tiny : jsnum := num_of_decimal false 3 (-9).
Definition six_digits : FormatOptions := mergeOptions (format_options 4 6).

(** The one power these options need. *)
Definition micro (n : Z) : jsnum := num_of_decimal false 1 (-6).

Lemma amount_shown_nonzero_witness :
  ∃ shown, formatCurrencyValue micro plain_intl plain_decimal tiny six_digits usd_meta = plain_intl (js "USD") 6 shown
    ∧ num_eq shown (num_of_Z 0) = false ∧ is_negative shown = false ∧ num_lt (num_abs shown) (micro (-6)) = false.
Proof.
  destruct (amount_shown_nonzero micro tiny six_digits (λ n, eq_refl) eq_refl eq_refl) as (shown & H1 & H2 & H3 & H4 & _).
  exists shown. split; [exact (proj1 (H1 plain_intl plain_decimal (js "$") (js "USD") (num_of_Z 1)))|].
  split; [exact H2|]. split; [exact H3|exact H4].
Defined.

(** ** Prices that are shown wrong *)

(** A group that pays nothing is shown the full price: with a ratio of
    zero the price for the group is formatted as with a ratio of one, while
    the model's least group ratio, and with it the list of models, is zero. *)
Theorem free_group_full_price (pow10 : Z → jsnum) (intl_currency : jstr → Z → jsnum → jstr) (intl_decimal : Z → jsnum → jstr)
    (stored : option StoredCurrency) (model : PricingModel) (group : jstr) (type : PriceType) (tokenUnit : TokenUnit) (r : Recharge)
    (ratios : list (jstr * jsnum)) (s : bool) :
  map_get ratios group = Some (S754_zero s) →
  formatGroupPrice pow10 intl_currency intl_decimal stored model group type tokenUnit r ratios
  = formatGroupPrice pow10 intl_currency intl_decimal stored model group type tokenUnit r [(group, num_of_Z 1)]
  ∧ formatFixedPrice pow10 intl_currency intl_decimal stored model group r ratios
    = formatFixedPrice pow10 intl_currency intl_decimal stored model group r [(group, num_of_Z 1)]
  ∧ getMinGroupRatio [group] ratios = S754_zero s.
Proof.
  intros Hg. unfold formatGroupPrice, formatFixedPrice, getMinGroupRatio, least_ratio. cbn [map_get foldl].
  rewrite Hg. rewrite decide_True by done. by split_and!.
Qed.

Definition token_model : PricingModel :=
  {| model_name := Some (js "m"); description := None; vendor_name := None; tags := None; quota_type := 0;
     model_ratio := num_of_Z 5; completion_ratio := num_of_Z 3; model_price := None; cache_ratio := None;
     create_cache_ratio := None; image_ratio := None; audio_ratio := None; audio_completion_ratio := None;
     enable_groups := Some [js "free"]; supported_endpoint_types := None;
     group_ratio := Some [(js "free", num_of_Z 0)];
     billing_mode := None; billing_expr := None; gpt_image_price := None; video_token_price := None |}.

Lemma free_group_full_price_witness :
  formatGroupPrice micro plain_intl plain_decimal None token_model (js "free") P_output UnitM plain_recharge [(js "free", num_of_Z 0)]
  = js "USD 30"
  ∧ formatPrice micro plain_intl plain_decimal None token_model P_output UnitM plain_recharge = js "USD 0".
Proof.
  destruct (free_group_full_price micro plain_intl plain_decimal None token_model (js "free") P_output UnitM plain_recharge
              [(js "free", num_of_Z 0)] false eq_refl) as [H _].
  split; [rewrite H; vm_compute; reflexivity|vm_compute; reflexivity].
Defined.

Definition custom_euro : StoredCurrency :=
  {| st_displayInCurrency := None; st_quotaDisplayType := Some (js "CUSTOM"); st_quotaPerUnit := None; st_usdExchangeRate := None;
     st_customCurrencySymbol := Some (js "€"); st_customCurrencyExchangeRate := Some (num_of_Z 1) |}.

Definition one_and_half : jsnum := num_of_decimal false 15 (-1).

(** A decimal comma is taken for a thousands separator: in a locale whose
    formatter writes one and a half with a comma, a price of 1.5 under a custom
    symbol is shown as fifteen once its trailing zeros are stripped. *)
Theorem decimal_comma_lost (pow10 : Z → jsnum) (intl_currency : jstr → Z → jsnum → jstr) (intl_decimal : Z → jsnum → jstr) :
  pow10 (-4) = num_of_decimal false 1 (-4) → intl_decimal 4 one_and_half = js "1,5" →
  stripTrailingZeros (format_usd pow10 intl_currency intl_decimal (Some custom_euro) 4 6 one_and_half) = js "€15".
Proof.
  intros Hpow Hloc.
  assert (E : format_usd pow10 intl_currency intl_decimal (Some custom_euro) 4 6 one_and_half
              = js "€" ++ intl_decimal 4 (adjustForMinimum pow10 one_and_half 4 (num_of_Z 0))) by by_eval.
  rewrite E. unfold adjustForMinimum. change (- (4)) with (-4). rewrite Hpow.
  assert ((if num_lt (num_of_Z 0) (num_of_Z 0) then num_of_Z 0 else num_of_decimal false 1 (-4)) = num_of_decimal false 1 (-4)) as -> by done.
  replace (if num_eq one_and_half (num_of_Z 0) then _ else _) with one_and_half by by_eval. rewrite Hloc. by_eval.
Qed.

Lemma decimal_comma_lost_witness :
  stripTrailingZeros (format_usd plain_pow10 plain_intl (λ _ x, map (λ c, if c =? 46 then c_comma else c) (string_of_number x))
                        (Some custom_euro) 4 6 one_and_half) = js "€15".
Proof.
  apply (decimal_comma_lost plain_pow10 plain_intl (λ _ x, map (λ c, if c =? 46 then c_comma else c) (string_of_number x)));
    vm_compute; reflexivity.
Defined.

Definition tokens_display : StoredCurrency :=
  {| st_displayInCurrency := None; st_quotaDisplayType := Some (js "TOKENS"); st_quotaPerUnit := Some (num_of_Z 500000);
     st_usdExchangeRate := None; st_customCurrencySymbol := None; st_customCurrencyExchangeRate := None |}.

(** Ten dollars as tokens are abbreviated, without separators. *)
Example tokens_abbreviated pow10 intl_currency intl_decimal :
  formatCurrencyFromUSD pow10 intl_currency intl_decimal (Some tokens_display) (Some (num_of_Z 10)) None = js "5000k".
Proof. by_eval. Qed.
