(* ===== verification/PricingFilter.v ===== *)
(** * The list of models: filters and order

    Model of [features/pricing/lib/filters.ts], with what holds of it: the
    list shown is the models that pass every filter, each as often as it is
    among the models; by price, no model is cheaper (or dearer) than one before
    it, and models that are equal in the order keep theirs. [toLowerCase] and
    [localeCompare] are the language's and the locale's. *)

From Stdlib Require Import String.
From S2P Require Import JsArith JsExec JsMap JsJson PriceDisplay.

Definition FILTER_ALL : jstr := js "all".
Definition SORT_NAME : jstr := js "name".
Definition SORT_PRICE_LOW : jstr := js "price-low".
Definition SORT_PRICE_HIGH : jstr := js "price-high".

Record PricingFilters := {
  f_search : jstr; f_vendor : jstr; f_group : jstr; f_quotaType : jstr; f_endpointType : jstr; f_tag : jstr; f_sortBy : jstr;
}.

(** Commas, semicolons, bars and blanks separate tags. *)
Definition TAG_SEPARATOR_RE : re :=
  rplus (λ c, (c =? c_comma) || (c =? 59) || (c =? 124) || is_ws c).

Definition parseTags (tagsString : option jstr) : list jstr :=
  match tagsString with
  | None | Some [] => []
  | Some s => filterb nonempty (map trim (re_split TAG_SEPARATOR_RE s))
  end.

(** The numbers a price is compared by. *)
Definition finite_prices (l : list jsnum) : list jsnum := filterb is_finite l.
Definition positive_prices (l : list jsnum) : list jsnum := filterb (λ p, is_finite p && num_lt (num_of_Z 0) p) l.

Definition getModelPrice (model : PricingModel) : jsnum :=
  match finite_prices (own_values (default [] (gpt_image_price model))) with
  | p :: rest => num_min_of p rest
  | [] =>
      match positive_prices (concat (map (λ t, [vt_base t; vt_with_video t]) (own_values (default [] (video_token_price model))))) with
      | p :: rest => num_min_of p rest
      | [] => if quota_type model =? 0 then model_ratio model else truthy_or (num_of_Z 0) (model_price model)
      end
  end.

(** A comparator's result is below or equal zero, or [NaN]. *)
Definition not_after (c : jsnum) : bool := negb (num_lt (num_of_Z 0) c).

(** *** The sign of a difference *)

Lemma round_negative m e : num_lt (num_of_Z 0) (binary_round prec64 emax64 true m e) = false.
Proof.
  unfold binary_round. destruct (shl_align m e _) as [mz ez]. unfold binary_round_aux.
  destruct (shr_fexp prec64 emax64 (Zpos mz) ez loc_Exact) as [r1 e1]. destruct (shr_fexp _ _ _ e1 _) as [r2 e2].
  destruct (shr_m r2); try done. by destruct (e2 <=? emax64 - prec64).
Qed.

Lemma normalize_negative z e : z ≤ 0 → num_lt (num_of_Z 0) (binary_normalize prec64 emax64 z e false) = false.
Proof. intros Hz. destruct z; [done|lia|]. apply round_negative. Qed.

(** The signed mantissa a subtraction works with. *)
Definition aligned (s : bool) (m : positive) (e ez : Z) : Z := cond_Zopp s (Zpos (fst (shl_align m e ez))).

Lemma sub_finite sx mx ex sy my ey :
  num_sub (S754_finite sx mx ex) (S754_finite sy my ey)
  = binary_normalize prec64 emax64 (aligned sx mx ex (Z.min ex ey) - aligned sy my ey (Z.min ex ey)) (Z.min ex ey) false.
Proof. done. Qed.

Lemma not_after_total x y : not_after (num_sub x y) = true ∨ not_after (num_sub y x) = true.
Proof.
  unfold not_after. destruct x as [sx|sx| |sx mx ex], y as [sy|sy| |sy my ey];
    try (destruct sx); try (destruct sy); try (by left); try (by right).
  all: rewrite !sub_finite, (Z.min_comm ey ex);
    set (a := aligned _ mx ex _); set (b := aligned _ my ey _);
    destruct (Z_le_gt_dec (a - b) 0); [left|right]; rewrite normalize_negative; [done|lia|done|lia].
Qed.

Abbreviation binary64 := (valid_binary prec64 emax64).

Lemma shr_fexp_positive x e l :
  0 < x → -1074 ≤ e → 0 < shr_m (shr_fexp prec64 emax64 x e l).1 ∧ -1074 ≤ (shr_fexp prec64 emax64 x e l).2.
Proof.
  intros Hx He. unfold shr_fexp, fexp, emin, prec64, emax64. destruct x as [|p|p]; [lia| |lia]. cbn [Zdigits2].
  pose proof (Rounding.digits2_bounds p) as Hb. set (d := Zpos (digits2_pos p)) in *.
  destruct (Z.max _ _ - e) as [|n|n] eqn:En; cbn [shr fst snd]; rewrite ?Rounding.record_m; [lia| |lia].
  rewrite Rounding.shr_iter_m, Rounding.record_m by (rewrite Rounding.record_m; lia). split; [|lia].
  assert (Hn : Zpos n = d - 53) by lia. apply Z.div_str_pos. split; [lia|]. rewrite Hn.
  eapply Z.le_trans; [|exact (proj1 Hb)]. apply Z.pow_le_mono_r; lia.
Qed.

(** A positive number is not rounded to zero. *)
Lemma round_positive p e : -1074 ≤ e → num_lt (num_of_Z 0) (binary_round prec64 emax64 false p e) = true.
Proof.
  intros He. unfold binary_round.
  assert (Ha : ∃ q e', shl_align p e (fexp prec64 emax64 (Zpos (digits2_pos p) + e)) = (q, e') ∧ -1074 ≤ e').
  { unfold shl_align, fexp, emin, prec64, emax64. destruct (_ - e); eexists _, _; split; try done; lia. }
  destruct Ha as (q & e' & -> & He'). unfold binary_round_aux.
  pose proof (shr_fexp_positive (Zpos q) e' loc_Exact eq_refl He') as [H1 H2].
  destruct (shr_fexp _ _ _ e' _) as [r1 e1]. cbn [fst snd] in H1, H2.
  assert (Hr : 0 < round_nearest_even (shr_m r1) (loc_of_shr_record r1)).
  { destruct (Rounding.nearest_step (shr_m r1) (loc_of_shr_record r1)) as [-> | ->]; lia. }
  pose proof (shr_fexp_positive _ e1 loc_Exact Hr H2) as [H3 _]. destruct (shr_fexp _ _ _ e1 _) as [r2 e2]. cbn [fst] in H3.
  destruct (shr_m r2); [lia| |lia]. by destruct (e2 <=? _).
Qed.

Lemma aligned_value s m e ez : ez ≤ e → aligned s m e ez = cond_Zopp s (Zpos m * 2 ^ (e - ez)).
Proof.
  intros He. unfold aligned, shl_align. destruct (ez - e) as [|k|k] eqn:E; [|lia|].
  - replace (e - ez) with 0 by lia. by rewrite Z.mul_1_r.
  - cbn [fst]. rewrite Rounding.shl_pos. by replace (e - ez) with (Zpos k) by lia.
Qed.

(** Of two numbers in their shortest form, the order of the exponents decides. *)
Lemma smaller_magnitude mx ex my ey ez :
  bounded prec64 emax64 mx ex = true → bounded prec64 emax64 my ey = true → ez = Z.min ex ey →
  ey < ex ∨ ey = ex ∧ (my < mx)%positive → Zpos my * 2 ^ (ey - ez) < Zpos mx * 2 ^ (ex - ez).
Proof.
  intros Hx Hy -> H. unfold bounded, canonical_mantissa in Hx, Hy. apply andb_true_iff in Hx as [Hx _], Hy as [Hy _].
  apply Z.eqb_eq in Hx, Hy. unfold fexp, emin, prec64, emax64 in Hx, Hy. destruct H as [H|[-> H]].
  - pose proof (Rounding.digits2_bounds mx) as Bx. pose proof (Rounding.digits2_bounds my) as By.
    assert (Ex : Zpos (digits2_pos mx) = 53) by lia. rewrite Ex in Bx.
    assert (Hm : Zpos my < 2 ^ 53) by (eapply Z.lt_le_trans; [exact (proj2 By)|apply Z.pow_le_mono_r; lia]).
    rewrite Z.min_r by lia. replace (ey - ey) with 0 by lia. rewrite Z.mul_1_r.
    assert (2 ^ 1 ≤ 2 ^ (ex - ey)) by (apply Z.pow_le_mono_r; lia). change (2 ^ (53 - 1)) with (2 ^ 52) in Bx. nia.
  - rewrite Z.min_id. replace (ex - ex) with 0 by lia. lia.
Qed.

Lemma ordered_cases e1 e2 m1 m2 :
  (match e1 ?= e2 with Lt => Lt | Gt => Gt | Eq => Pos.compare_cont Eq m1 m2 end) = Lt → e1 < e2 ∨ e1 = e2 ∧ (m1 < m2)%positive.
Proof. destruct (Z.compare_spec e1 e2); [|by left|done]. intros H1. right. by split. Qed.

Lemma reversed_cases e1 e2 m1 m2 :
  (match e1 ?= e2 with Lt => Gt | Gt => Lt | Eq => CompOpp (Pos.compare_cont Eq m1 m2) end) = Lt → e2 < e1 ∨ e2 = e1 ∧ (m2 < m1)%positive.
Proof.
  destruct (Z.compare_spec e1 e2); [|done|by left]. intros H1. right. split; [done|].
  fold (Pos.compare m1 m2) in H1. by destruct (Pos.compare_spec m1 m2).
Qed.

(** The difference of two numbers is above zero where the second one is less. *)
Lemma sub_positive x y :
  binary64 x = true → binary64 y = true → is_finite x = true → is_finite y = true →
  num_lt y x = true → num_lt (num_of_Z 0) (num_sub x y) = true.
Proof.
  intros Hx Hy Fx Fy Hlt. unfold num_lt, SFltb in Hlt. destruct (SFcompare y x) as [[]|] eqn:Hc; try done. clear Hlt.
  destruct x as [sx|sx| |sx mx ex], y as [sy|sy| |sy my ey]; try done; [by destruct sy|by destruct sx|].
  rewrite sub_finite, !aligned_value by lia. set (ez := Z.min ex ey). cbn in Hx, Hy.
  assert (Hd : 0 < cond_Zopp sx (Zpos mx * 2 ^ (ex - ez)) - cond_Zopp sy (Zpos my * 2 ^ (ey - ez))).
  { cbn in Hc. apply (inj Some) in Hc. assert (0 < 2 ^ (ex - ez)) by (apply Z.pow_pos_nonneg; lia).
    assert (0 < 2 ^ (ey - ez)) by (apply Z.pow_pos_nonneg; lia). destruct sx, sy; cbn [cond_Zopp]; [| |nia|]; try done.
    - apply reversed_cases in Hc. pose proof (smaller_magnitude my ey mx ex ez Hy Hx (Z.min_comm _ _) Hc). lia.
    - apply ordered_cases in Hc. pose proof (smaller_magnitude mx ex my ey ez Hx Hy eq_refl Hc). lia. }
  destruct (_ - cond_Zopp _ _) as [|p|p]; [lia| |lia]. apply round_positive.
  unfold bounded, canonical_mantissa, fexp, emin, prec64, emax64 in Hx, Hy. lia.
Qed.

Lemma not_after_le x y :
  binary64 x = true → binary64 y = true → is_finite x = true → is_finite y = true →
  not_after (num_sub x y) = true → num_lt y x = false.
Proof.
  intros Hx Hy Fx Fy H. destruct (num_lt y x) eqn:E; [|done]. unfold not_after in H. by rewrite (sub_positive x y) in H.
Qed.

Lemma num_eq_same x y : num_eq x y = true → x = y ∨ ∃ s t, x = S754_zero s ∧ y = S754_zero t.
Proof.
  unfold num_eq, SFeqb. destruct x as [sx|sx| |sx mx ex], y as [sy|sy| |sy my ey]; cbn; try done; try (by destruct sx); try (by destruct sy).
  - intros _. right. eauto.
  - destruct sx, sy; try done; by left.
  - destruct sx, sy; try done; destruct (Z.compare_spec ex ey) as [->| |]; try done; fold (Pos.compare mx my);
      destruct (Pos.compare_spec mx my) as [->| |]; try done; by left.
Qed.

Lemma sub_same x : num_lt (num_of_Z 0) (num_sub x x) = false.
Proof.
  destruct x as [[]|[]| |s m e]; try done. rewrite sub_finite. by rewrite Z.sub_diag.
Qed.

Lemma equal_not_after x y z : num_eq x z = true → num_eq y z = true → not_after (num_sub x y) = true.
Proof.
  intros Hx%num_eq_same Hy%num_eq_same. unfold not_after. destruct Hx as [->|(s & t & -> & ->)], Hy as [->|(s' & t' & -> & E)].
  - by rewrite sub_same.
  - subst. by destruct s', t'.
  - by destruct s, t.
  - by destruct s, s'.
Qed.

(** *** The order of finite numbers *)

Lemma num_trichotomy x y : is_finite x = true → is_finite y = true →
  num_lt x y = true ∨ num_eq x y = true ∨ num_lt y x = true.
Proof.
  intros Fx Fy. unfold num_lt, num_eq, SFltb, SFeqb. destruct x as [sx|sx| |sx mx ex], y as [sy|sy| |sy my ey]; try done; cbn.
  - by right; left.
  - destruct sy; auto.
  - destruct sx; auto.
  - destruct sx, sy; auto; rewrite (Z.compare_antisym ex ey); destruct (Z.compare_spec ex ey); cbn; auto;
      fold (Pos.compare mx my) (Pos.compare my mx); rewrite (Pos.compare_antisym mx my); destruct (Pos.compare_spec mx my); auto.
Qed.

Section filters.
Context (toLowerCase : jstr → jstr) (localeCompare : jstr → jstr → Z).

Definition contains_lower (query : jstr) (text : option jstr) : bool :=
  match text with Some t => includes query (toLowerCase t) | None => false end.

Definition filterBySearch (query : jstr) (models : list PricingModel) : list PricingModel :=
  if nonempty query
  then let q := toLowerCase query in
       filterb (λ m, contains_lower q (model_name m) || contains_lower q (description m)
                     || contains_lower q (tags m) || contains_lower q (vendor_name m)) models
  else models.

Definition filterByVendor (vendor : jstr) (models : list PricingModel) : list PricingModel :=
  if decide (vendor = FILTER_ALL) then models else filterb (λ m, bool_decide (vendor_name m = Some vendor)) models.

Definition filterByGroup (group : jstr) (models : list PricingModel) : list PricingModel :=
  if decide (group = FILTER_ALL) then models else filterb (λ m, bool_decide (group ∈ default [] (enable_groups m))) models.

Definition filterByQuotaType (quotaType : jstr) (models : list PricingModel) : list PricingModel :=
  if decide (quotaType = FILTER_ALL) then models
  else let targetType := if decide (quotaType = js "token") then QUOTA_TOKEN else QUOTA_REQUEST in
       filterb (λ m, quota_type m =? targetType) models.

Definition filterByEndpointType (endpointType : jstr) (models : list PricingModel) : list PricingModel :=
  if decide (endpointType = FILTER_ALL) then models
  else filterb (λ m, bool_decide (endpointType ∈ default [] (supported_endpoint_types m))) models.

Definition filterByTag (tag : jstr) (models : list PricingModel) : list PricingModel :=
  if decide (tag = FILTER_ALL) then models
  else let tagLower := toLowerCase tag in
       filterb (λ m, bool_decide (tagLower ∈ map toLowerCase (parseTags (tags m)))) models.

Definition name_le (a b : PricingModel) : bool := localeCompare (default [] (model_name a)) (default [] (model_name b)) <=? 0.
Definition price_low_le (a b : PricingModel) : bool := not_after (num_sub (getModelPrice a) (getModelPrice b)).
Definition price_high_le (a b : PricingModel) : bool := not_after (num_sub (getModelPrice b) (getModelPrice a)).

Definition sort_order (sortBy : jstr) : option (PricingModel → PricingModel → bool) :=
  if decide (sortBy = SORT_NAME) then Some name_le
  else if decide (sortBy = SORT_PRICE_LOW) then Some price_low_le
  else if decide (sortBy = SORT_PRICE_HIGH) then Some price_high_le else None.

Definition sortModels (sortBy : jstr) (models : list PricingModel) : list PricingModel :=
  match sort_order sortBy with Some le => stable_sort le models | None => models end.

Definition filterAndSortModels (f : PricingFilters) (models : list PricingModel) : list PricingModel :=
  let result := filterBySearch (f_search f) models in
  let result := filterByVendor (f_vendor f) result in
  let result := filterByGroup (f_group f) result in
  let result := filterByQuotaType (f_quotaType f) result in
  let result := filterByEndpointType (f_endpointType f) result in
  let result := filterByTag (f_tag f) result in
  sortModels (f_sortBy f) result.

Definition extractAllTags (models : list PricingModel) : list jstr :=
  stable_sort (λ a b, localeCompare a b <=? 0) (js_set (concat (map (λ m, map toLowerCase (parseTags (tags m))) models))).

(** ** The reference: one predicate *)

(** A filter on [all] lets everything pass. *)
Definition unless_all (value : jstr) (b : bool) : bool := bool_decide (value = FILTER_ALL) || b.

Definition passes (f : PricingFilters) (m : PricingModel) : bool :=
  (negb (nonempty (f_search f))
   || existsb (contains_lower (toLowerCase (f_search f))) [model_name m; description m; tags m; vendor_name m])
  && unless_all (f_vendor f) (bool_decide (vendor_name m = Some (f_vendor f)))
  && unless_all (f_group f) (bool_decide (f_group f ∈ default [] (enable_groups m)))
  && unless_all (f_quotaType f) (quota_type m =? (if decide (f_quotaType f = js "token") then QUOTA_TOKEN else QUOTA_REQUEST))
  && unless_all (f_endpointType f) (bool_decide (f_endpointType f ∈ default [] (supported_endpoint_types m)))
  && unless_all (f_tag f) (bool_decide (toLowerCase (f_tag f) ∈ map toLowerCase (parseTags (tags m)))).

(** A filter that is off is the filter that lets everything pass. *)
Lemma filter_unless_all (value : jstr) (p : PricingModel → bool) models :
  (if decide (value = FILTER_ALL) then models else filterb p models) = filterb (λ m, unless_all value (p m)) models.
Proof.
  unfold unless_all. destruct (decide (value = FILTER_ALL)) as [E|E].
  - symmetry. apply filterb_true. intros m. by rewrite bool_decide_eq_true_2.
  - apply filterb_ext. intros m. by rewrite bool_decide_eq_false_2.
Qed.

Lemma filters_pass f models :
  filterAndSortModels f models = sortModels (f_sortBy f) (filterb (passes f) models).
Proof.
  unfold filterAndSortModels. f_equal.
  unfold filterByTag, filterByEndpointType, filterByQuotaType, filterByGroup, filterByVendor. cbv zeta.
  rewrite !filter_unless_all.
  assert (E : filterBySearch (f_search f) models
              = filterb (λ m, negb (nonempty (f_search f))
                  || existsb (contains_lower (toLowerCase (f_search f))) [model_name m; description m; tags m; vendor_name m]) models).
  { unfold filterBySearch. destruct (nonempty (f_search f)); cbn [negb orb].
    - apply filterb_ext. intros m. cbn. by rewrite orb_false_r, !orb_assoc.
    - symmetry. by apply filterb_true. }
  rewrite E, !filterb_filterb. apply filterb_ext. intros m. unfold passes. by rewrite !andb_assoc.
Qed.

(** ** The reference: prices *)

Definition least_of (P : jsnum → Prop) (p : jsnum) : Prop := P p ∧ ∀ q, P q → num_lt q p = false.

(** The prices of images, and of videos, a model has. *)
Definition image_price (m : PricingModel) (p : jsnum) : Prop :=
  (∃ size, (size, p) ∈ default [] (gpt_image_price m)) ∧ is_finite p = true.
Definition video_price (m : PricingModel) (p : jsnum) : Prop :=
  (∃ tier t, (tier, t) ∈ default [] (video_token_price m) ∧ (p = vt_base t ∨ p = vt_with_video t))
  ∧ is_finite p = true ∧ num_lt (num_of_Z 0) p = true.

(** The price of a model is its cheapest image, or else its cheapest video that
    costs anything, or else its ratio or its price per request, by how it is
    billed. *)
Inductive priced (m : PricingModel) : jsnum → Prop :=
| priced_image p : least_of (image_price m) p → priced m p
| priced_video p : (∀ q, ¬ image_price m q) → least_of (video_price m) p → priced m p
| priced_token : (∀ q, ¬ image_price m q) → (∀ q, ¬ video_price m q) → quota_type m = QUOTA_TOKEN → priced m (model_ratio m)
| priced_request : (∀ q, ¬ image_price m q) → (∀ q, ¬ video_price m q) → quota_type m ≠ QUOTA_TOKEN →
    priced m (truthy_or (num_of_Z 0) (model_price m)).

Lemma min_of_least p l : num_min_of p l ∈ p :: l ∧ ∀ q, q ∈ p :: l → num_lt q (num_min_of p l) = false.
Proof.
  unfold num_min_of. assert (H : ∀ l m seen, m ∈ seen → (∀ q, q ∈ seen → num_lt q m = false) →
    let r := foldl (λ m y, if num_lt y m then y else m) m l in r ∈ seen ++ l ∧ ∀ q, q ∈ seen ++ l → num_lt q r = false).
  { clear. induction l as [|y l IH]; intros m seen Hm Hs; cbn; [by rewrite app_nil_r|].
    rewrite cons_middle, app_assoc. apply IH.
    - destruct (num_lt y m); set_solver.
    - intros q [Hq| ->%list_elem_of_singleton]%elem_of_app; destruct (num_lt y m) eqn:E; auto using num_lt_irrefl.
      destruct (num_lt q y) eqn:Eq; [|done]. by rewrite <- (Hs q Hq), (num_lt_trans q y m). }
  apply (H l p [p]); [left|]. intros q ->%list_elem_of_singleton. apply num_lt_irrefl.
Qed.

(** The least of the elements of a list. *)
Lemma min_of_spec (P : jsnum → Prop) p l : (∀ q, q ∈ p :: l ↔ P q) → least_of P (num_min_of p l).
Proof. intros H. destruct (min_of_least p l) as [H1 H2]. split; [by apply H|]. intros q Hq. apply H2. by apply H. Qed.

Lemma elem_of_images m q : q ∈ finite_prices (own_values (default [] (gpt_image_price m))) ↔ image_price m q.
Proof.
  unfold finite_prices, image_price, own_values. rewrite elem_of_filterb, own_entries_Permutation, list_elem_of_fmap.
  split; [intros [([k x] & -> & Hin) Hf]|intros [[k Hin] Hf]]; (split; [|done]); [by exists k|by exists (k, q)].
Qed.

Lemma elem_of_videos m q :
  q ∈ positive_prices (concat (map (λ t, [vt_base t; vt_with_video t]) (own_values (default [] (video_token_price m))))) ↔ video_price m q.
Proof.
  unfold positive_prices, video_price, own_values. rewrite elem_of_filterb, andb_true_iff, map_map, (list_elem_of_In _ q), in_concat. split.
  - intros [(l & ([k t] & <- & Hin)%in_map_iff & Hq) Hf]. split; [|done]. exists k, t.
    rewrite <- list_elem_of_In, own_entries_Permutation in Hin. split; [done|]. cbn in Hq. intuition done.
  - intros [(k & t & Hin & Hq) Hf]. split; [|done]. exists [vt_base t; vt_with_video t]. split.
    + apply in_map_iff. exists (k, t). split; [done|]. by rewrite <- list_elem_of_In, own_entries_Permutation.
    + cbn. intuition done.
Qed.

Lemma getModelPrice_priced m : priced m (getModelPrice m).
Proof.
  unfold getModelPrice. pose proof (elem_of_images m) as Hi. pose proof (elem_of_videos m) as Hv.
  destruct (finite_prices _) as [|p l]; [|by apply priced_image, min_of_spec].
  assert (Hni : ∀ q, ¬ image_price m q) by (intros q Hq%Hi; by apply elem_of_nil in Hq).
  destruct (positive_prices _) as [|p l]; [|by apply priced_video, min_of_spec].
  assert (Hnv : ∀ q, ¬ video_price m q) by (intros q Hq%Hv; by apply elem_of_nil in Hq).
  destruct (Z.eqb_spec (quota_type m) 0); [by apply priced_token|by apply priced_request].
Qed.

(** Numbers as the language has them; ratios and prices are finite. *)
Record numbers_ok (m : PricingModel) : Prop := {
  ok_media : ∀ p, image_price m p ∨ video_price m p → binary64 p = true;
  ok_ratio : is_finite (model_ratio m) = true ∧ binary64 (model_ratio m) = true;
  ok_price : ∀ p, model_price m = Some p → is_finite p = true ∧ binary64 p = true;
}.

Lemma price_number m : numbers_ok m → is_finite (getModelPrice m) = true ∧ binary64 (getModelPrice m) = true.
Proof.
  intros Hm. destruct (getModelPrice_priced m) as [p [Hp _]|p _ [Hp _]| |_ _ _].
  - split; [apply Hp|]. apply (ok_media m Hm). by left.
  - split; [apply Hp|]. apply (ok_media m Hm). by right.
  - apply (ok_ratio m Hm).
  - destruct (model_price m) as [[]|] eqn:E; try done; by apply (ok_price m Hm).
Qed.

(** ** The reference: filters *)

Definition occurs_in (query : jstr) (text : option jstr) : Prop := ∃ t u v, text = Some t ∧ toLowerCase t = u ++ query ++ v.

Record wanted (f : PricingFilters) (m : PricingModel) : Prop := {
  wanted_search : f_search f = []
    ∨ Exists (occurs_in (toLowerCase (f_search f))) [model_name m; description m; tags m; vendor_name m];
  wanted_vendor : f_vendor f = FILTER_ALL ∨ vendor_name m = Some (f_vendor f);
  wanted_group : f_group f = FILTER_ALL ∨ ∃ groups, enable_groups m = Some groups ∧ f_group f ∈ groups;
  wanted_quota : f_quotaType f = FILTER_ALL
    ∨ (f_quotaType f = js "token" ∧ quota_type m = 0 ∨ f_quotaType f ≠ js "token" ∧ quota_type m = 1);
  wanted_endpoint : f_endpointType f = FILTER_ALL
    ∨ ∃ types, supported_endpoint_types m = Some types ∧ f_endpointType f ∈ types;
  wanted_tag : f_tag f = FILTER_ALL ∨ ∃ t, t ∈ parseTags (tags m) ∧ toLowerCase t = toLowerCase (f_tag f);
}.

Lemma unless_all_spec value b (P : Prop) : (b = true ↔ P) → unless_all value b = true ↔ value = FILTER_ALL ∨ P.
Proof. intros H. unfold unless_all. by rewrite orb_true_iff, bool_decide_eq_true, H. Qed.

Lemma member_spec (x : jstr) (o : option (list jstr)) : bool_decide (x ∈ default [] o) = true ↔ ∃ l, o = Some l ∧ x ∈ l.
Proof.
  rewrite bool_decide_eq_true. destruct o as [l|]; cbn; [|split; [by intros ?%elem_of_nil|by intros (? & ? & _)]].
  split; [eauto|by intros (? & [= <-] & ?)].
Qed.

Lemma contains_lower_spec q t : contains_lower q t = true ↔ occurs_in q t.
Proof.
  unfold contains_lower, occurs_in. destruct t as [t|]; [|split; [done|by intros (? & ? & ? & ? & _)]].
  rewrite includes_true. split; [intros (u & v & E); eauto 6|]. intros (? & u & v & [= <-] & E). eauto.
Qed.

Lemma passes_wanted f m : passes f m = true ↔ wanted f m.
Proof.
  assert (Hs : negb (nonempty (f_search f)) || existsb (contains_lower (toLowerCase (f_search f))) [model_name m; description m; tags m; vendor_name m] = true
    ↔ f_search f = [] ∨ Exists (occurs_in (toLowerCase (f_search f))) [model_name m; description m; tags m; vendor_name m]).
  { rewrite orb_true_iff, existsb_exists, Exists_exists. setoid_rewrite <- contains_lower_spec. setoid_rewrite list_elem_of_In.
    destruct (f_search f); cbn [nonempty negb]; intuition done. }
  unfold passes. rewrite !andb_true_iff, Hs, !(unless_all_spec _ _ _ (member_spec _ _)), (unless_all_spec _ _ _ (bool_decide_eq_true _)).
  rewrite (unless_all_spec (f_quotaType f) _ (f_quotaType f = js "token" ∧ quota_type m = 0 ∨ f_quotaType f ≠ js "token" ∧ quota_type m = 1)),
    (unless_all_spec (f_tag f) _ (∃ t, t ∈ parseTags (tags m) ∧ toLowerCase t = toLowerCase (f_tag f))).
  - split; [by intros (((((? & ?) & ?) & ?) & ?) & ?)|by intros [? ? ? ? ? ?]].
  - rewrite bool_decide_eq_true, list_elem_of_fmap. split; intros (t & H1 & H2); eauto.
  - unfold QUOTA_TOKEN, QUOTA_REQUEST. destruct (decide (f_quotaType f = js "token")); rewrite Z.eqb_eq; tauto.
Qed.

(** ** The order *)

Lemma sort_insert_stable {A} (le : A → A → bool) (p : A → bool) x l :
  (∀ a b, p a = true → p b = true → le a b = true) → filterb p (sort_insert le x l) = filterb p (x :: l).
Proof.
  intros Hp. induction l as [|y l IH]; [done|]. cbn [sort_insert]. destruct (le x y) eqn:E; [done|].
  change (filterb p (y :: sort_insert le x l)) with (if p y then y :: filterb p (sort_insert le x l) else filterb p (sort_insert le x l)).
  rewrite IH. cbn. destruct (p y) eqn:Ey, (p x) eqn:Ex; try done. by rewrite Hp in E.
Qed.

Lemma stable_sort_stable {A} (le : A → A → bool) (p : A → bool) l :
  (∀ a b, p a = true → p b = true → le a b = true) → filterb p (stable_sort le l) = filterb p l.
Proof.
  intros Hp. induction l as [|x l IH]; [done|]. change (stable_sort le (x :: l)) with (sort_insert le x (stable_sort le l)).
  rewrite sort_insert_stable by done. cbn. fold (filterb p (stable_sort le l)) (filterb p l). by rewrite IH.
Qed.

Lemma sorted_strongly {A} (P : A → Prop) (R S : A → A → Prop) l :
  Forall P l → Sorted R l → (∀ a b, P a → P b → R a b → S a b) →
  (∀ a b c, P a → P b → P c → S a b → S b c → S a c) → StronglySorted S l.
Proof.
  intros Hl Hs HR HS. induction Hs as [|x l Hs IH Hh]; [constructor|]. apply Forall_cons in Hl as [Hx Hl]. specialize (IH Hl).
  constructor; [done|]. destruct Hh as [|y l Hxy]; [constructor|]. apply Forall_cons in Hl as [Hy Hl]. apply StronglySorted_inv in IH as [_ IH].
  apply Forall_cons. split; [by apply HR|]. rewrite Forall_forall in Hl, IH |- *. intros z Hz. eapply (HS x y z); eauto.
Qed.

Lemma not_less_trans x y z : is_finite x = true → is_finite y = true →
  num_lt y x = false → num_lt z y = false → num_lt z x = false.
Proof.
  intros Fx Fy Hyx Hzy. destruct (num_lt z x) eqn:E; [|done]. destruct (num_trichotomy x y Fx Fy) as [H|[H|H]]; [|..|congruence].
  - assert (num_lt z y = true) by by apply (num_lt_trans z x y). congruence.
  - destruct (num_eq_same x y H) as [->|(s & t & -> & ->)]; [congruence|]. by destruct z as [|[]| |[]].
Qed.

Definition price_of_equal (z : jsnum) (m : PricingModel) : bool := num_eq (getModelPrice m) z.

(** The list [result] is [passing] in the order chosen: by name, none comes
    after the next in the locale; by price, none is dearer (or cheaper) than any
    one after it; and models of one name, or of one price, keep their order. *)
Definition ordered (sortBy : jstr) (passing result : list PricingModel) : Prop :=
  if decide (sortBy = SORT_NAME) then
    Sorted (λ a b, localeCompare (default [] (model_name a)) (default [] (model_name b)) ≤ 0) result
    ∧ ∀ name, filterb (λ m, bool_decide (model_name m = name)) result = filterb (λ m, bool_decide (model_name m = name)) passing
  else if decide (sortBy = SORT_PRICE_LOW) then
    StronglySorted (λ a b, num_lt (getModelPrice b) (getModelPrice a) = false) result
    ∧ ∀ z, filterb (price_of_equal z) result = filterb (price_of_equal z) passing
  else if decide (sortBy = SORT_PRICE_HIGH) then
    StronglySorted (λ a b, num_lt (getModelPrice a) (getModelPrice b) = false) result
    ∧ ∀ z, filterb (price_of_equal z) result = filterb (price_of_equal z) passing
  else result = passing.

Lemma sorted_ordered sortBy passing :
  (∀ a b, localeCompare a b ≤ 0 ∨ localeCompare b a ≤ 0) → Forall numbers_ok passing →
  ordered sortBy passing (sortModels sortBy passing).
Proof.
  intros Hloc Hok. assert (Hn : ∀ le, Forall numbers_ok (stable_sort le passing)) by (intros le; by rewrite stable_sort_Permutation).
  unfold ordered, sortModels, sort_order. destruct (decide (sortBy = SORT_NAME)); [|destruct (decide (sortBy = SORT_PRICE_LOW));
    [|destruct (decide (sortBy = SORT_PRICE_HIGH)); [|done]]].
  - split.
    + eapply Sorted_ind; [constructor| |apply (stable_sort_sorted name_le)].
      * intros a l _ Hs Hh. constructor; [done|]. destruct Hh as [|b l Hab]; constructor. by apply Z.leb_le.
      * intros a b. unfold name_le. rewrite !Z.leb_le. apply Hloc.
    + intros name. apply stable_sort_stable. intros a b Ha%bool_decide_eq_true Hb%bool_decide_eq_true.
      unfold name_le. rewrite Ha, Hb. apply Z.leb_le.
      by destruct (Hloc (default [] name) (default [] name)).
  - split.
    + apply (sorted_strongly numbers_ok (λ a b, price_low_le a b = true)); [done| | |].
      * apply stable_sort_sorted. intros a b. apply not_after_total.
      * intros a b [Fa Va]%price_number [Fb Vb]%price_number. by apply not_after_le.
      * intros a b c [Fa _]%price_number [Fb _]%price_number _. by apply not_less_trans.
    + intros z. apply stable_sort_stable. intros a b. apply equal_not_after.
  - split.
    + apply (sorted_strongly numbers_ok (λ a b, price_high_le a b = true)); [done| | |].
      * apply stable_sort_sorted. intros a b. unfold price_high_le. apply not_after_total.
      * intros a b [Fa Va]%price_number [Fb Vb]%price_number. by apply not_after_le.
      * intros a b c _ [Fb _]%price_number [Fc _]%price_number H1 H2. by apply (not_less_trans _ (getModelPrice b)).
    + intros z. apply stable_sort_stable. intros a b Ha Hb. by apply (equal_not_after _ _ z).
Qed.

(** C37. The list of models. It holds the models that every filter wants, each as
    often as it is among the models: the text searched for occurs, in any case
    of letters, in the name, the description, the tags or the vendor; the vendor,
    a group, the billing, an endpoint and a tag are the ones chosen. By price,
    no model is dearer than one after it (or cheaper, in the reverse order),
    where the price of a model is that of its cheapest image, else that of its
    cheapest video that is not free, else its ratio if it is billed by tokens and
    its price per request if not; by name, none comes after the next in the
    locale. Models of one price, or of one name, keep their order, and so do all
    if no order is chosen. Ratios and prices are finite numbers. *)
Theorem filterAndSortModels_spec (f : PricingFilters) (models : list PricingModel) :
  (∀ a b, localeCompare a b ≤ 0 ∨ localeCompare b a ≤ 0) → Forall numbers_ok models →
  let passing := filterb (passes f) models in
  let result := filterAndSortModels f models in
  result ≡ₚ passing ∧ (∀ m, passes f m = true ↔ wanted f m) ∧ (∀ m, priced m (getModelPrice m)) ∧ ordered (f_sortBy f) passing result.
Proof.
  intros Hloc Hok. cbv zeta. rewrite filters_pass. split_and!.
  - unfold sortModels. destruct (sort_order _); [apply stable_sort_Permutation|done].
  - intros m. apply passes_wanted.
  - apply getModelPrice_priced.
  - apply sorted_ordered; [done|]. rewrite Forall_forall in Hok |- *. intros m [Hm _]%elem_of_filterb. by apply Hok.
Qed.
End filters.

Definition no_filters (sortBy : jstr) : PricingFilters :=
  {| f_search := []; f_vendor := FILTER_ALL; f_group := FILTER_ALL; f_quotaType := FILTER_ALL; f_endpointType := FILTER_ALL;
     f_tag := FILTER_ALL; f_sortBy := sortBy |}.

Definition listed (name : string) (ratio : Z) : PricingModel :=
  {| model_name := Some (js name); description := None; vendor_name := None; tags := None; quota_type := 0;
     model_ratio := num_of_Z ratio; completion_ratio := num_of_Z 1; model_price := None; cache_ratio := None;
     create_cache_ratio := None; image_ratio := None; audio_ratio := None; audio_completion_ratio := None;
     enable_groups := None; supported_endpoint_types := None; group_ratio := None;
     billing_mode := None; billing_expr := None; gpt_image_price := None; video_token_price := None |}.

Definition sample_models : list PricingModel := [listed "b" 7; listed "a" 2; listed "c" 2].

Lemma filterAndSortModels_spec_witness :
  let result := filterAndSortModels (λ s, s) units_compare (no_filters SORT_PRICE_LOW) sample_models in
  map model_name result = map (λ n, Some (js n)) ["a"; "c"; "b"]%string
  ∧ StronglySorted (λ a b, num_lt (getModelPrice b) (getModelPrice a) = false) result.
Proof.
  destruct (filterAndSortModels_spec (λ s, s) units_compare (no_filters SORT_PRICE_LOW) sample_models units_compare_total) as (_ & _ & _ & H & _).
  - repeat constructor; try (vm_compute; reflexivity); try discriminate; intros p [[[size Hin] _]|[(tier & t & Hin & _) _]]; by apply elem_of_nil in Hin.
  - split; [vm_compute; reflexivity|exact H].
Defined.

Example tags_parsed : parseTags (Some (js "chat, vision;;fast|new")) = map js ["chat"; "vision"; "fast"; "new"]%string.
Proof. by_eval. Qed.
