(* ===== verification/StatusCodeRules.v ===== *)
(** * HTTP status code rules

    Model of [web/default/src/lib/http-status-code-rules.ts] (the list of
    status codes and ranges an administrator types for automatic disabling
    and retries) and of
    [web/default/src/features/channels/lib/status-code-risk-guard.ts] (the
    check of a channel's status code mapping). Codes are integers: a digit
    string that [Number.parseInt] would round is far above 599 before and
    after rounding, so the range test gives the same verdict. *)

From Stdlib Require Import String.
From S2P Require Import JsJson.

(** ** The data *)

Record StatusCodeRange := { sr_start : Z; sr_end : Z }.

Record ParsedHttpStatusCodeRules := {
  ok : bool;
  ranges : list StatusCodeRange;
  tokens : list jstr;
  normalized : jstr;
  invalidTokens : list jstr;
}.

#[export] Instance StatusCodeRange_eq_dec : EqDecision StatusCodeRange.
Proof. solve_decision. Defined.

(** ** One token *)

(** [/^\d+$/] *)
Definition isNumber (s : jstr) : bool := all_digits s.

(** [Number.parseInt(s, 10)] of a digit string *)
Definition parseInt (s : jstr) : Z := digits_value s.

Definition isValidCode (code : Z) : bool := (100 <=? code) && (code <=? 599).

(** [s.replace(/\s/g, '')] *)
Definition strip_ws (s : jstr) : jstr := filterb (λ c, negb (is_ws c)) s.

Definition parseToken (token : jstr) : option StatusCodeRange :=
  let cleaned := strip_ws (trim token) in
  if negb (nonempty cleaned) then None
  else if includes (js "-") cleaned then
    match split_char c_minus cleaned with
    | a :: b :: _ =>
        if negb (isNumber a) || negb (isNumber b) then None
        else
          let st := parseInt a in
          let en := parseInt b in
          if negb (isValidCode st) || negb (isValidCode en) || (en <? st) then None
          else Some {| sr_start := st; sr_end := en |}
    | _ => None
    end
  else if negb (isNumber cleaned) then None
  else
    let code := parseInt cleaned in
    if negb (isValidCode code) then None
    else Some {| sr_start := code; sr_end := code |}.

(** ** Merging *)

(** [compare(a, b) <= 0] for the comparison by start, then by end *)
Definition range_le (a b : StatusCodeRange) : bool :=
  if negb (sr_start a =? sr_start b) then sr_start a - sr_start b <=? 0
  else sr_end a - sr_end b <=? 0.

(** One round of the [reduce]: push a copy, or widen the last range in place. *)
Definition merge_step (merged : list StatusCodeRange) (current : StatusCodeRange)
    : list StatusCodeRange :=
  match last merged with
  | None => merged ++ [current]
  | Some l =>
      if sr_end l + 1 <? sr_start current then merged ++ [current]
      else removelast merged
           ++ [{| sr_start := sr_start l; sr_end := Z.max (sr_end l) (sr_end current) |}]
  end.

Definition mergeRanges (rs : list StatusCodeRange) : list StatusCodeRange :=
  foldl merge_step [] (stable_sort range_le rs).

(** ** The whole text *)

Definition range_token (r : StatusCodeRange) : jstr :=
  if sr_start r =? sr_end r then string_of_Z (sr_start r)
  else string_of_Z (sr_start r) ++ js "-" ++ string_of_Z (sr_end r).

(** [s.replace(/[，]/g, ',')] *)
Definition sanitize (s : jstr) : jstr := map (λ c, if c =? chr "，" then c_comma else c) s.

Definition segments_of (raw : jstr) : list jstr :=
  filterb nonempty (map trim (split_char c_comma (sanitize raw))).

(** [(input ?? '').toString()]; [None] is [undefined]. *)
Definition input_text (input : option json) : jstr :=
  match input with
  | None | Some JNull => []
  | Some v => string_of_json v
  end.

Fixpoint classify (segments : list jstr) : list StatusCodeRange * list jstr :=
  match segments with
  | [] => ([], [])
  | segment :: segments' =>
      let '(rs, bad) := classify segments' in
      match parseToken segment with
      | None => (rs, segment :: bad)
      | Some r => (r :: rs, bad)
      end
  end.

Definition parseHttpStatusCodeRules (input : option json) : ParsedHttpStatusCodeRules :=
  let raw := trim (input_text input) in
  if negb (nonempty raw) then
    {| ok := true; ranges := []; tokens := []; normalized := []; invalidTokens := [] |}
  else
    let '(rs, bad) := classify (segments_of raw) in
    if nonempty bad then
      {| ok := false; ranges := []; tokens := []; normalized := raw; invalidTokens := bad |}
    else
      let merged := mergeRanges rs in
      let toks := map range_token merged in
      {| ok := true; ranges := merged; tokens := toks; normalized := join (js ",") toks;
         invalidTokens := [] |}.

(** ** Redirected status codes *)

Definition NON_REDIRECTABLE_STATUS_CODES : list Z := [504; 524].

(** [/^[1-5]\d{2}$/] *)
Definition three_digit_code (s : jstr) : bool :=
  match s with
  | [a; b; c] => (49 <=? a) && (a <=? 53) && is_digit b && is_digit c
  | _ => false
  end.

Definition parseStatusCodeKey (rawKey : jstr) : option Z :=
  let key := trim rawKey in
  if negb (three_digit_code key) then None else Some (parseInt key).

Definition parseStatusCodeMappingTarget (rawValue : json) : option Z :=
  match rawValue with
  | JNum x =>
      match num_integer x with
      | Some n => if (100 <=? n) && (n <=? 599) then Some n else None
      | None => None
      end
  | JStr s =>
      let text := trim s in
      if negb (three_digit_code text) then None
      else let code := parseInt text in
           if (100 <=? code) && (code <=? 599) then Some code else None
  | _ => None
  end.

(** The mapping as an object; [None] where the guards return early. *)
Definition parse_mapping (text : jstr) : option (list (jstr * json)) :=
  if negb (nonempty (trim text)) then None
  else v ← json_parse text; as_object v.

Definition collectInvalidStatusCodeEntries (text : jstr) : list jstr :=
  match parse_mapping text with
  | None => []
  | Some o =>
      flat_map (λ e : jstr * json,
        match parseStatusCodeKey e.1, parseStatusCodeMappingTarget e.2 with
        | Some _, Some _ => []
        | _, _ => [e.1 ++ js " → " ++ string_of_json e.2]
        end) (own_entries o)
  end.

Definition redirect_text (from to : Z) : jstr :=
  string_of_Z from ++ js " -> " ++ string_of_Z to.

Definition risky_entry (e : jstr * json) : list jstr :=
  match parseStatusCodeKey e.1, parseStatusCodeMappingTarget e.2 with
  | Some from, Some to =>
      if negb (bool_decide (from ∈ NON_REDIRECTABLE_STATUS_CODES)) then []
      else if from =? to then []
      else [redirect_text from to]
  | _, _ => []
  end.

Definition collectDisallowedStatusCodeRedirects (text : jstr) : list jstr :=
  match parse_mapping text with
  | None => []
  | Some o => stable_sort units_le (js_set (flat_map risky_entry (own_entries o)))
  end.

Definition collectNewDisallowedStatusCodeRedirects (originalStr currentStr : jstr) : list jstr :=
  let currentRisky := collectDisallowedStatusCodeRedirects currentStr in
  if negb (nonempty currentRisky) then []
  else
    let originalRisky := js_set (collectDisallowedStatusCodeRedirects originalStr) in
    filterb (λ m, negb (bool_decide (m ∈ originalRisky))) currentRisky.

(** ** Evaluations *)

Example parse_rules_sample :
  let p := parseHttpStatusCodeRules (Some (JStr (js " 500-503，404, 501-505 ,429, 506"))) in
  ok p = true ∧ normalized p = js "404,429,500-506".
Proof. split; by_eval. Qed.

Example parse_rules_bad :
  invalidTokens (parseHttpStatusCodeRules (Some (JStr (js "404,abc,600,500-400")))) =
  map js ["abc"; "600"; "500-400"]%string.
Proof. by_eval. Qed.
