(* ===== verification/StatusCodeRulesProps.v ===== *)
(** * HTTP status code rules: properties

    The rule list denotes a set of status codes; parsing computes the unique
    normal form of that set, prints it so that it parses back, and reports
    exactly the unreadable tokens. *)

From Stdlib Require Import String.
From S2P Require Import JsJson StatusCodeRules.

(** ** The specification: the set of codes a list of ranges denotes *)

Definition covers (rs : list StatusCodeRange) (n : Z) : Prop :=
  ∃ r, r ∈ rs ∧ sr_start r ≤ n ≤ sr_end r.

Definition proper (r : StatusCodeRange) : Prop := sr_start r ≤ sr_end r.

(** [a] ends at least two below the start of [b]: they cannot be merged. *)
Definition gap (a b : StatusCodeRange) : Prop := sr_end a + 1 < sr_start b.

(** The normal form: ranges in order, separated by gaps. *)
Fixpoint separated (rs : list StatusCodeRange) : Prop :=
  match rs with
  | [] => True
  | r :: rs' => proper r ∧ Forall (gap r) rs' ∧ separated rs'
  end.

Lemma covers_nil n : ¬ covers [] n.
Proof. intros (r & Hr & _). by apply elem_of_nil in Hr. Qed.

Lemma covers_app rs1 rs2 n : covers (rs1 ++ rs2) n ↔ covers rs1 n ∨ covers rs2 n.
Proof. unfold covers. setoid_rewrite elem_of_app. naive_solver. Qed.

Lemma covers_single r n : covers [r] n ↔ sr_start r ≤ n ≤ sr_end r.
Proof.
  unfold covers. split; [intros (s & Hs & Hn); by apply list_elem_of_singleton in Hs as ->|].
  intros Hn. exists r. split; [by apply list_elem_of_singleton|done].
Qed.

Lemma covers_cons r rs n : covers (r :: rs) n ↔ sr_start r ≤ n ≤ sr_end r ∨ covers rs n.
Proof. rewrite (covers_app [r] rs), covers_single. done. Qed.

Lemma covers_Permutation rs1 rs2 n : rs1 ≡ₚ rs2 → covers rs1 n ↔ covers rs2 n.
Proof. intros Hp. unfold covers. by setoid_rewrite Hp. Qed.

(** ** Separated lists are determined by the codes they cover *)

Lemma separated_above r rs n : separated (r :: rs) → covers rs n → sr_end r + 1 < n.
Proof.
  intros (_ & Hg & _) (s & Hs & Hn). rewrite Forall_forall in Hg. specialize (Hg s Hs).
  unfold gap in Hg. lia.
Qed.

Lemma separated_unique rs1 rs2 :
  separated rs1 → separated rs2 → (∀ n, covers rs1 n ↔ covers rs2 n) → rs1 = rs2.
Proof.
  revert rs2; induction rs1 as [|r1 rs1 IH]; intros [|r2 rs2] H1 H2 Hc; [done|..].
  - exfalso. apply (covers_nil (sr_start r2)). apply Hc, covers_cons. left.
    destruct H2 as [Hp _]. unfold proper in Hp. lia.
  - exfalso. apply (covers_nil (sr_start r1)). apply Hc, covers_cons. left.
    destruct H1 as [Hp _]. unfold proper in Hp. lia.
  - pose proof H1 as (Hp1 & _ & Hs1). pose proof H2 as (Hp2 & _ & Hs2). unfold proper in *.
    assert (Hin1 : ∀ n, covers (r1 :: rs1) n ↔ sr_start r1 ≤ n ≤ sr_end r1 ∨ covers rs1 n)
      by (intros; apply covers_cons).
    assert (Hin2 : ∀ n, covers (r2 :: rs2) n ↔ sr_start r2 ≤ n ≤ sr_end r2 ∨ covers rs2 n)
      by (intros; apply covers_cons).
    assert (Hab1 : ∀ n, covers rs1 n → sr_end r1 + 1 < n) by (intros; by eapply separated_above).
    assert (Hab2 : ∀ n, covers rs2 n → sr_end r2 + 1 < n) by (intros; by eapply separated_above).
    assert (Hhead : r1 = r2).
    { assert (sr_start r1 = sr_start r2) as Hst.
      { pose proof (proj1 (Hc (sr_start r1))) as Ha. pose proof (proj2 (Hc (sr_start r2))) as Hb.
        rewrite Hin1, Hin2 in Ha, Hb.
        destruct (Ha ltac:(lia)) as [?|?%Hab2], (Hb ltac:(lia)) as [?|?%Hab1]; lia. }
      assert (sr_end r1 = sr_end r2) as Hen.
      { destruct (Z.lt_total (sr_end r1) (sr_end r2)) as [Hlt|[Heq|Hlt]]; [|done|].
        - pose proof (proj2 (Hc (sr_end r1 + 1))) as Ha. rewrite Hin1, Hin2 in Ha.
          destruct (Ha ltac:(lia)) as [?|?%Hab1]; lia.
        - pose proof (proj1 (Hc (sr_end r2 + 1))) as Ha. rewrite Hin1, Hin2 in Ha.
          destruct (Ha ltac:(lia)) as [?|?%Hab2]; lia. }
      destruct r1, r2; simpl in *; congruence. }
    subst r2. f_equal. apply IH; [done|done|]. intros n. specialize (Hc n).
    rewrite Hin1, Hin2 in Hc. specialize (Hab1 n). specialize (Hab2 n).
    split; intros H; [specialize (Hab1 H)|specialize (Hab2 H)]; destruct Hc as [Hc1 Hc2];
      [destruct (Hc1 (or_intror H))|destruct (Hc2 (or_intror H))]; done || lia.
Qed.

(** ** Merging keeps the codes and reaches the normal form *)

Lemma separated_snoc rs r :
  separated (rs ++ [r]) ↔ separated rs ∧ proper r ∧ Forall (λ s, gap s r) rs.
Proof.
  induction rs as [|s rs IH]; simpl.
  - split; [intros (? & _ & _)|intros (_ & ? & _)]; auto.
  - rewrite IH, Forall_app, Forall_singleton, Forall_cons. naive_solver.
Qed.

Lemma snoc_cases {A} (l : list A) : l = [] ∨ ∃ l' x, l = l' ++ [x].
Proof. induction l using rev_ind; eauto. Qed.

Lemma removelast_snoc {A} (l : list A) x : removelast (l ++ [x]) = l.
Proof. apply removelast_last. Qed.

Lemma merge_step_snoc rs l r :
  merge_step (rs ++ [l]) r =
  if sr_end l + 1 <? sr_start r then (rs ++ [l]) ++ [r]
  else rs ++ [{| sr_start := sr_start l; sr_end := Z.max (sr_end l) (sr_end r) |}].
Proof. unfold merge_step. by rewrite last_snoc, removelast_snoc. Qed.

(** One round, on a range that does not start before the last one. *)
Lemma merge_step_inv rs r :
  separated rs → proper r → (∀ l, last rs = Some l → sr_start l ≤ sr_start r) →
  separated (merge_step rs r) ∧ (∀ n, covers (merge_step rs r) n ↔ covers rs n ∨ covers [r] n) ∧
  (∀ l, last (merge_step rs r) = Some l → sr_start l ≤ sr_start r).
Proof.
  intros Hs Hp Hl. destruct (snoc_cases rs) as [->|(rs' & l & ->)].
  - split; [|split]; simpl.
    + by repeat split.
    + intros n. split; [by right|]. by intros [?%covers_nil|?].
    + intros l [= <-]. done.
  - specialize (Hl l (last_snoc _ _)). rewrite merge_step_snoc.
    apply separated_snoc in Hs as (Hs & Hpl & Hg). unfold proper in Hp, Hpl.
    destruct (Z.ltb_spec (sr_end l + 1) (sr_start r)) as [Hlt|Hge]; (split; [|split]).
    + apply separated_snoc. split; [by apply separated_snoc|]. split; [done|].
      apply Forall_app; split; [|by repeat constructor].
      eapply Forall_impl; [exact Hg|]. unfold gap. intros; simpl in *; lia.
    + intros n. by rewrite covers_app.
    + intros l'. rewrite last_snoc. intros [= <-]. done.
    + apply separated_snoc. split; [done|]. split; [unfold proper; simpl; lia|].
      eapply Forall_impl; [exact Hg|]. unfold gap; simpl. lia.
    + intros n. rewrite !covers_app, !covers_single. simpl. intuition lia.
    + intros l'. rewrite last_snoc. intros [= <-]. done.
Qed.

Lemma range_le_total a b : range_le a b = true ∨ range_le b a = true.
Proof. unfold range_le. repeat case_match; lia. Qed.

Lemma range_le_start a b : range_le a b = true → sr_start a ≤ sr_start b.
Proof. unfold range_le. case_match; lia. Qed.

Lemma merge_fold rs acc :
  Sorted (λ a b, range_le a b = true) rs → Forall proper rs → separated acc →
  (∀ l r, last acc = Some l → head rs = Some r → sr_start l ≤ sr_start r) →
  separated (foldl merge_step acc rs) ∧
  ∀ n, covers (foldl merge_step acc rs) n ↔ covers acc n ∨ covers rs n.
Proof.
  intros Hsort. revert acc; induction Hsort as [|r rs Hsort IH Hhd]; intros acc Hp Hs Hl; simpl.
  - split; [done|]. intros n. split; [by left|]. by intros [?|?%covers_nil].
  - inversion_clear Hp as [|? ? Hr Hrs].
    destruct (merge_step_inv acc r Hs Hr) as (Hs' & Hc' & Hl'); [eauto|].
    destruct (IH (merge_step acc r) Hrs Hs') as [Hsep Hcov].
    { intros l r2 Hlast Hhead. specialize (Hl' l Hlast). destruct Hhd as [|s rs Hrs2]; [done|].
      injection Hhead as <-. apply range_le_start in Hrs2. lia. }
    split; [done|]. intros n. rewrite Hcov, Hc', (covers_cons r rs), covers_single. tauto.
Qed.

Lemma mergeRanges_spec rs :
  Forall proper rs →
  separated (mergeRanges rs) ∧ ∀ n, covers (mergeRanges rs) n ↔ covers rs n.
Proof.
  intros Hp. destruct (merge_fold (stable_sort range_le rs) []) as [Hs Hc]; try done.
  - apply stable_sort_sorted, range_le_total.
  - by rewrite stable_sort_Permutation.
  - split; [done|]. intros n. unfold mergeRanges. rewrite Hc.
    rewrite (covers_Permutation _ _ n (stable_sort_Permutation range_le rs)).
    split; [by intros [?%covers_nil|?]|by right].
Qed.

Lemma separated_proper rs : separated rs → Forall proper rs.
Proof. induction rs as [|r rs IH]; simpl; [constructor|]. intros (Hp & _ & Hs). auto. Qed.

(** A list in normal form is its own merge. *)
Lemma mergeRanges_separated rs : separated rs → mergeRanges rs = rs.
Proof.
  intros Hs. destruct (mergeRanges_spec rs (separated_proper rs Hs)) as [Hs' Hc].
  by apply separated_unique.
Qed.

(** ** Tokens *)

Definition valid_range (r : StatusCodeRange) : Prop :=
  100 ≤ sr_start r ∧ sr_start r ≤ sr_end r ∧ sr_end r ≤ 599.

Lemma parseToken_valid s r : parseToken s = Some r → valid_range r.
Proof.
  unfold parseToken, isValidCode. intros H.
  repeat case_match; simplify_eq; unfold valid_range; simpl; lia.
Qed.

(** Texts of digits and dashes, such as the printed tokens. *)
Definition token_unit (c : Z) : bool := is_digit c || (c =? c_minus).

Lemma token_unit_not_ws c : token_unit c = true → is_ws c = false.
Proof.
  unfold token_unit. intros [H|H]%orb_true_iff; [by apply is_digit_not_ws|].
  by apply Z.eqb_eq in H as ->.
Qed.

Lemma token_no_edge s : Forall (λ c, token_unit c = true) s → no_edge_ws s.
Proof.
  intros Hs. rewrite Forall_forall in Hs. split; intros c Hc; apply token_unit_not_ws, Hs.
  - destruct s; simplify_eq/=. by left.
  - by apply last_Some_elem_of.
Qed.

Lemma token_clean s : Forall (λ c, token_unit c = true) s → strip_ws (trim s) = s.
Proof.
  intros Hs. rewrite trim_no_edge by by apply token_no_edge. apply filterb_id.
  eapply Forall_impl; [exact Hs|]. intros c Hc. by rewrite token_unit_not_ws.
Qed.

Lemma digits_token s : Forall (λ c, is_digit c = true) s → Forall (λ c, token_unit c = true) s.
Proof. intros Hs. eapply Forall_impl; [exact Hs|]. unfold token_unit. intros c ->. done. Qed.

Lemma digits_no_minus s : Forall (λ c, is_digit c = true) s → c_minus ∉ s.
Proof. rewrite Forall_forall. intros Hs Hm. by specialize (Hs _ Hm). Qed.

Lemma string_of_Z_digits n :
  0 ≤ n → string_of_Z n ≠ [] ∧ Forall (λ c, is_digit c = true) (string_of_Z n).
Proof. intros Hn. by apply all_digits_spec, string_of_Z_nonneg. Qed.

Lemma range_token_units r :
  valid_range r → Forall (λ c, token_unit c = true) (range_token r) ∧ range_token r ≠ [].
Proof.
  intros (H1 & H2 & H3). unfold range_token.
  destruct (string_of_Z_digits (sr_start r)) as [Hn1 Hd1]; [lia|].
  destruct (string_of_Z_digits (sr_end r)) as [Hn2 Hd2]; [lia|].
  case_match; [by auto using digits_token|]. split.
  - apply Forall_app; split; [by apply digits_token|]. constructor; [done|by apply digits_token].
  - by destruct (string_of_Z (sr_start r)).
Qed.

Lemma isValidCode_true n : 100 ≤ n ≤ 599 → isValidCode n = true.
Proof. unfold isValidCode. lia. Qed.

(** A printed range reads back. *)
Lemma parseToken_range_token r : valid_range r → parseToken (range_token r) = Some r.
Proof.
  intros Hv. pose proof Hv as (H1 & H2 & H3).
  destruct (range_token_units r Hv) as [Hu Hne].
  unfold parseToken. rewrite (token_clean _ Hu). apply nonempty_true in Hne. rewrite Hne. simpl.
  destruct (string_of_Z_nonneg (sr_start r)) as [Hv1 Hd1]; [lia|].
  destruct (string_of_Z_nonneg (sr_end r)) as [Hv2 Hd2]; [lia|].
  pose proof (proj2 (all_digits_spec _ Hd1)) as Hf1. pose proof (proj2 (all_digits_spec _ Hd2)) as Hf2.
  clear Hu Hne. unfold range_token, isNumber, parseInt.
  destruct r as [st en]; simpl in *. destruct (Z.eqb_spec st en) as [->|Hne].
  - destruct (includes (js "-") (string_of_Z en)) eqn:Hi.
    { apply includes_single in Hi. by apply digits_no_minus in Hi. }
    by rewrite Hd2, Hv2, isValidCode_true by lia.
  - change (js "-") with [c_minus]. cbn [app].
    rewrite (proj2 (includes_single c_minus _)) by set_solver.
    rewrite split_char_app, split_char_no_sep by by apply digits_no_minus.
    rewrite Hd1, Hd2, Hv1, Hv2, !isValidCode_true by lia. cbn [negb orb].
    by replace (en <? st) with false by lia.
Qed.

(** ** The segments of a text *)

Lemma classify_spec segs :
  classify segs = (omap parseToken segs, filterb (λ s, bool_decide (parseToken s = None)) segs).
Proof.
  induction segs as [|s segs IH]; simpl; [done|]. rewrite IH.
  destruct (parseToken s) eqn:E; [by rewrite bool_decide_eq_false_2|by rewrite bool_decide_eq_true_2].
Qed.

Lemma elem_of_ranges (segs : list jstr) r : r ∈ omap parseToken segs ↔ ∃ s, s ∈ segs ∧ parseToken s = Some r.
Proof. rewrite list_elem_of_omap. naive_solver. Qed.

Lemma ranges_valid (segs : list jstr) : Forall valid_range (omap parseToken segs).
Proof. apply Forall_forall. intros r (s & _ & Hs)%elem_of_ranges. by eapply parseToken_valid. Qed.

Lemma valid_proper rs : Forall valid_range rs → Forall proper rs.
Proof. intros H. eapply Forall_impl; [exact H|]. unfold valid_range, proper. lia. Qed.

Definition rule_segments (input : option json) : list jstr := segments_of (trim (input_text input)).

Definition is_bad (s : jstr) : bool := bool_decide (parseToken s = None).

(** What the parser returns, in terms of the segments; the test for an empty
    text is subsumed by its having no segment. *)
Lemma parse_unfold input :
  parseHttpStatusCodeRules input =
  let segs := rule_segments input in
  if nonempty (filterb is_bad segs) then
    {| ok := false; ranges := []; tokens := []; normalized := trim (input_text input);
       invalidTokens := filterb is_bad segs |}
  else
    {| ok := true; ranges := mergeRanges (omap parseToken segs);
       tokens := map range_token (mergeRanges (omap parseToken segs));
       normalized := join (js ",") (map range_token (mergeRanges (omap parseToken segs)));
       invalidTokens := [] |}.
Proof.
  unfold parseHttpStatusCodeRules, rule_segments.
  destruct (trim (input_text input)) as [|c s]; [done|]. cbn [nonempty negb].
  rewrite classify_spec. done.
Qed.

(** The codes the readable segments of the text name. *)
Definition denotes (input : option json) (n : Z) : Prop :=
  ∃ s r, s ∈ rule_segments input ∧ parseToken s = Some r ∧ sr_start r ≤ n ≤ sr_end r.

Lemma denotes_covers input n : denotes input n ↔ covers (omap parseToken (rule_segments input)) n.
Proof. unfold denotes, covers. setoid_rewrite elem_of_ranges. naive_solver. Qed.

Lemma parse_ok input :
  ok (parseHttpStatusCodeRules input) = true →
  let rs := mergeRanges (omap parseToken (rule_segments input)) in
  parseHttpStatusCodeRules input =
    {| ok := true; ranges := rs; tokens := map range_token rs;
       normalized := join (js ",") (map range_token rs); invalidTokens := [] |}
  ∧ separated rs ∧ (∀ n, covers rs n ↔ denotes input n).
Proof.
  rewrite parse_unfold. simpl. case_match; [done|]. intros _. split; [done|].
  destruct (mergeRanges_spec (omap parseToken (rule_segments input))) as [Hs Hc].
  { apply valid_proper, ranges_valid. }
  split; [done|]. intros n. by rewrite Hc, denotes_covers.
Qed.

Lemma denotes_valid input n : denotes input n → 100 ≤ n ≤ 599.
Proof. intros (s & r & _ & Hr%parseToken_valid & Hn). unfold valid_range in Hr. lia. Qed.

Lemma covered_valid rs :
  separated rs → (∀ n, covers rs n → 100 ≤ n ≤ 599) → Forall valid_range rs.
Proof.
  intros Hs Hc. apply Forall_forall. intros r Hr.
  pose proof (separated_proper rs Hs) as Hp. rewrite Forall_forall in Hp. specialize (Hp r Hr).
  unfold proper, valid_range in *.
  assert (covers rs (sr_start r)) as ?%Hc by (exists r; split; [done|lia]).
  assert (covers rs (sr_end r)) as ?%Hc by (exists r; split; [done|lia]). lia.
Qed.

(** ** Reading the printed normal form *)

Lemma trim_join_tokens toks :
  Forall (λ t, Forall (λ c, token_unit c = true) t) toks →
  no_edge_ws (join [c_comma] toks).
Proof.
  intros Ht.
  assert (Hc : Forall (λ c, token_unit c || (c =? c_comma) = true) (join [c_comma] toks)).
  { induction Ht as [|t toks Ht Hts IH]; [constructor|].
    assert (Ht' : Forall (λ c, token_unit c || (c =? c_comma) = true) t)
      by (eapply Forall_impl; [exact Ht|]; intros ? ->; done).
    destruct toks as [|t2 toks]; [done|]. cbn [join app].
    apply Forall_app; split; [done|]. by constructor. }
  rewrite Forall_forall in Hc.
  assert (Hws : ∀ c, token_unit c || (c =? c_comma) = true → is_ws c = false).
  { intros c [Hu|Hu]%orb_true_iff; [by apply token_unit_not_ws|]. by apply Z.eqb_eq in Hu as ->. }
  split; intros c He; apply Hws, Hc.
  - destruct (join [c_comma] toks); simplify_eq/=. by left.
  - by apply last_Some_elem_of.
Qed.

Lemma sanitize_tokens toks :
  Forall (λ t, Forall (λ c, token_unit c = true) t) toks →
  sanitize (join [c_comma] toks) = join [c_comma] toks.
Proof.
  assert (Hs : ∀ t, Forall (λ c, token_unit c = true) t → sanitize t = t).
  { intros t. induction 1 as [|c t Hc _ IH]; [done|]. unfold sanitize in *; cbn [map]. f_equal; [|done].
    change (chr "，") with 65292. unfold token_unit, is_digit, c_minus in Hc.
    destruct (Z.eqb_spec c 65292); [lia|done]. }
  induction 1 as [|t toks Ht Hts IH]; [done|].
  destruct toks as [|t2 toks]; [by apply Hs|]. cbn [join app] in *.
  unfold sanitize in *. rewrite map_app. cbn [map]. rewrite IH. by rewrite Hs.
Qed.

Lemma segments_of_tokens toks :
  Forall (λ t, Forall (λ c, token_unit c = true) t ∧ t ≠ []) toks →
  segments_of (trim (join (js ",") toks)) = toks.
Proof.
  intros [Ht Hne]%Forall_and. change (js ",") with [c_comma].
  rewrite trim_no_edge by by apply trim_join_tokens.
  unfold segments_of. rewrite sanitize_tokens by done. destruct toks as [|t toks]; [done|].
  rewrite split_char_join; [|done|].
  - replace (map trim (t :: toks)) with (t :: toks).
    + apply filterb_id. eapply Forall_impl; [exact Hne|]. intros ? ?. by apply nonempty_true.
    + symmetry. rewrite <- (map_id (t :: toks)) at 2. apply map_ext_in. intros u Hu.
      apply trim_no_edge, token_no_edge. rewrite Forall_forall in Ht. by apply Ht, list_elem_of_In.
  - eapply Forall_impl; [exact Ht|]. intros u Hu Hc. rewrite Forall_forall in Hu.
    by specialize (Hu _ Hc).
Qed.

Lemma omap_parseToken_printed rs :
  Forall valid_range rs → omap parseToken (map range_token rs) = rs.
Proof.
  induction 1 as [|r rs Hr _ IH]; [done|]. cbn [map omap list_omap].
  rewrite parseToken_range_token by done. f_equal. exact IH.
Qed.

Lemma no_bad_printed rs : Forall valid_range rs → filterb is_bad (map range_token rs) = [].
Proof.
  induction 1 as [|r rs Hr _ IH]; [done|]. cbn [map filterb List.filter]. unfold is_bad at 1.
  by rewrite parseToken_range_token.
Qed.

(** ** The properties of the rule parser *)

(** An accepted rule list is turned into the normal form of the set of
    codes it names: the resulting ranges cover exactly the codes named by the
    comma separated segments of the text, all of them in 100..599, in
    ascending order, non-empty, and with at least one code missing between
    two neighbours; and any other normal form covering the same codes is the
    same list. *)
Theorem parseHttpStatusCodeRules_normal_form input :
  ok (parseHttpStatusCodeRules input) = true →
  let rs := ranges (parseHttpStatusCodeRules input) in
  separated rs
  ∧ (∀ n, covers rs n ↔ denotes input n)
  ∧ (∀ n, covers rs n → 100 ≤ n ≤ 599)
  ∧ (∀ rs', separated rs' → (∀ n, covers rs' n ↔ denotes input n) → rs' = rs).
Proof.
  intros Hok. destruct (parse_ok input Hok) as (-> & Hs & Hc). simpl.
  split; [done|]. split; [done|]. split.
  - intros n Hn. by eapply denotes_valid, Hc.
  - intros rs' Hs' Hc'. apply separated_unique; [done..|]. intros n. by rewrite Hc, Hc'.
Qed.

Lemma parseHttpStatusCodeRules_normal_form_witness :
  separated (ranges (parseHttpStatusCodeRules (Some (JStr (js "500-503, 404，501-505"))))).
Proof.
  refine (proj1 (parseHttpStatusCodeRules_normal_form (Some (JStr (js "500-503, 404，501-505"))) _)).
  by_eval.
Defined.

(** The normalised text is a fixed point: saving what the form displays
    and reading it again yields the very same result, ranges, tokens and
    text, with nothing rejected. *)
Theorem parseHttpStatusCodeRules_reparse input :
  ok (parseHttpStatusCodeRules input) = true →
  parseHttpStatusCodeRules (Some (JStr (normalized (parseHttpStatusCodeRules input))))
  = parseHttpStatusCodeRules input.
Proof.
  intros Hok. destruct (parse_ok input Hok) as (-> & Hs & Hc). cbn [normalized].
  set (rs := mergeRanges _) in *.
  assert (Hv : Forall valid_range rs).
  { apply covered_valid; [done|]. intros n Hn. by eapply denotes_valid, Hc. }
  assert (Hseg : rule_segments (Some (JStr (join (js ",") (map range_token rs)))) = map range_token rs).
  { unfold rule_segments. cbn [input_text string_of_json]. apply segments_of_tokens.
    apply Forall_map. eapply Forall_impl; [exact Hv|]. intros r. apply range_token_units. }
  rewrite parse_unfold. cbn zeta. rewrite Hseg, no_bad_printed, omap_parseToken_printed by done.
  cbn [nonempty]. by rewrite mergeRanges_separated.
Qed.

Lemma parseHttpStatusCodeRules_reparse_witness :
  parseHttpStatusCodeRules (Some (JStr (normalized
    (parseHttpStatusCodeRules (Some (JStr (js "505, 429,500 - 504"))))))) =
  parseHttpStatusCodeRules (Some (JStr (js "505, 429,500 - 504"))).
Proof. apply parseHttpStatusCodeRules_reparse. by_eval. Defined.

(** Two rule lists that name the same codes are stored alike, however
    they are written: same ranges, same tokens, same normalised text. *)
Theorem parseHttpStatusCodeRules_canonical input1 input2 :
  ok (parseHttpStatusCodeRules input1) = true →
  ok (parseHttpStatusCodeRules input2) = true →
  (∀ n, denotes input1 n ↔ denotes input2 n) →
  parseHttpStatusCodeRules input1 = parseHttpStatusCodeRules input2.
Proof.
  intros H1 H2 Hd. destruct (parse_ok input1 H1) as (-> & Hs1 & Hc1).
  destruct (parse_ok input2 H2) as (-> & Hs2 & Hc2).
  rewrite (separated_unique _ _ Hs1 Hs2); [done|]. intros n. by rewrite Hc1, Hc2.
Qed.

Lemma parseHttpStatusCodeRules_canonical_witness :
  parseHttpStatusCodeRules (Some (JStr (js "404,405"))) =
  parseHttpStatusCodeRules (Some (JStr (js "405，404-404"))).
Proof.
  apply parseHttpStatusCodeRules_canonical; [by_eval|by_eval|].
  assert (H1 : omap parseToken (rule_segments (Some (JStr (js "404,405")))) =
    [{| sr_start := 404; sr_end := 404 |}; {| sr_start := 405; sr_end := 405 |}]) by by_eval.
  assert (H2 : omap parseToken (rule_segments (Some (JStr (js "405，404-404")))) =
    [{| sr_start := 405; sr_end := 405 |}; {| sr_start := 404; sr_end := 404 |}]) by by_eval.
  intros n. rewrite !denotes_covers, H1, H2, !covers_cons. tauto.
Defined.

(** A rule list is rejected exactly when some segment is unreadable; the
    report then lists exactly the unreadable segments, in the order typed,
    keeps the trimmed text for the user to correct, and yields no range. *)
Theorem parseHttpStatusCodeRules_errors input :
  let p := parseHttpStatusCodeRules input in
  invalidTokens p = filterb is_bad (rule_segments input)
  ∧ (ok p = false ↔ ∃ s, s ∈ rule_segments input ∧ parseToken s = None)
  ∧ (ok p = false → ranges p = [] ∧ tokens p = [] ∧ normalized p = trim (input_text input)).
Proof.
  rewrite parse_unfold. cbn zeta.
  assert (Hbad : ∀ s, s ∈ filterb is_bad (rule_segments input)
    ↔ s ∈ rule_segments input ∧ parseToken s = None).
  { intros s. rewrite elem_of_filterb. unfold is_bad. by rewrite bool_decide_eq_true. }
  destruct (filterb is_bad (rule_segments input)) as [|s bad]; cbn [nonempty].
  - split; [done|]. split; [|done]. split; [done|]. intros (s & Hs%Hbad). by apply elem_of_nil in Hs.
  - split; [done|]. split; [|done]. split; [|done]. intros _. exists s. apply Hbad. by left.
Qed.

(** A range with further dashes is read as its first two numbers. *)
Example parseToken_trailing_garbage :
  parseToken (js "500-503-abc") = Some {| sr_start := 500; sr_end := 503 |}.
Proof. by_eval. Qed.

(** ** Redirects the guard reports *)

(** [m] announces a redirect of a protected code that the mapping makes. *)
Definition risky (text m : jstr) : Prop :=
  ∃ o k v from to, parse_mapping text = Some o ∧ (k, v) ∈ o ∧
    parseStatusCodeKey k = Some from ∧ parseStatusCodeMappingTarget v = Some to ∧
    from ∈ NON_REDIRECTABLE_STATUS_CODES ∧ from ≠ to ∧ m = redirect_text from to.

Lemma elem_of_risky_entry e m :
  m ∈ risky_entry e ↔ ∃ from to, parseStatusCodeKey e.1 = Some from ∧
    parseStatusCodeMappingTarget e.2 = Some to ∧ from ∈ NON_REDIRECTABLE_STATUS_CODES ∧
    from ≠ to ∧ m = redirect_text from to.
Proof.
  unfold risky_entry. destruct (parseStatusCodeKey e.1) as [from|]; [|set_solver].
  destruct (parseStatusCodeMappingTarget e.2) as [to|]; [|set_solver].
  destruct (bool_decide _) eqn:Hb; reflect_bools; cbn [negb]; [|set_solver].
  destruct (Z.eqb_spec from to); [set_solver|]. rewrite list_elem_of_singleton. naive_solver.
Qed.

Lemma elem_of_collectDisallowed text m :
  m ∈ collectDisallowedStatusCodeRedirects text ↔ risky text m.
Proof.
  unfold collectDisallowedStatusCodeRedirects, risky. destruct (parse_mapping text) as [o|].
  - rewrite elem_of_stable_sort, elem_of_js_set, list_elem_of_In, in_flat_map.
    setoid_rewrite <- list_elem_of_In. setoid_rewrite elem_of_risky_entry.
    setoid_rewrite elem_of_own_entries. split.
    + intros ([k v] & Hin & from & to & H). exists o, k, v, from, to. naive_solver.
    + intros (o' & k & v & from & to & [= <-] & Hin & H). exists (k, v). eauto.
  - split; [set_solver|]. by intros (o & ? & ? & ? & ? & ? & _).
Qed.

Lemma NoDup_collectDisallowed text : NoDup (collectDisallowedStatusCodeRedirects text).
Proof.
  unfold collectDisallowedStatusCodeRedirects. case_match; [|apply NoDup_nil_2].
  rewrite stable_sort_Permutation. apply NoDup_js_set.
Qed.

Lemma Sorted_collectDisallowed text :
  Sorted (λ a b, units_le a b = true) (collectDisallowedStatusCodeRedirects text).
Proof.
  unfold collectDisallowedStatusCodeRedirects. case_match; [|constructor].
  apply stable_sort_sorted, units_le_total.
Qed.

(** The guard asks for confirmation exactly about the redirects of 504
    and 524 to another code that the edited mapping makes and the saved one
    does not, each of them once. *)
Theorem collectNewDisallowedStatusCodeRedirects_spec originalStr currentStr :
  let new := collectNewDisallowedStatusCodeRedirects originalStr currentStr in
  NoDup new ∧ ∀ m, m ∈ new ↔ risky currentStr m ∧ ¬ risky originalStr m.
Proof.
  unfold collectNewDisallowedStatusCodeRedirects. cbn zeta.
  assert (He : ∀ m, m ∈ collectDisallowedStatusCodeRedirects currentStr ↔ risky currentStr m)
    by (intros; apply elem_of_collectDisallowed).
  pose proof (NoDup_collectDisallowed currentStr) as Hnd.
  destruct (collectDisallowedStatusCodeRedirects currentStr) as [|x l] eqn:E; cbn [nonempty negb].
  { split; [apply NoDup_nil_2|]. intros m. rewrite He. split; [by intros ?%He%elem_of_nil|].
    intros [?%He _]. by apply elem_of_nil in H. }
  split; [by apply NoDup_filterb|]. intros m.
  rewrite elem_of_filterb, negb_true_iff, bool_decide_eq_false, elem_of_js_set.
  by rewrite elem_of_collectDisallowed, He.
Qed.
