(* ===== verification/ModelMapping.v ===== *)
(** * Model lists and model mappings of a channel

    Model of [web/default/src/features/channels/lib/model-mapping-validation.ts]:
    the comma separated model list, the JSON object that remaps client models
    to upstream models, and the checks that compare the two. The arguments
    are typed [string], so the [typeof] guards are the identity here. *)

From Stdlib Require Import String.
From S2P Require Import JsJson.

(** ** Model lists *)

Definition parseModelsString (modelsStr : jstr) : list jstr :=
  if nonempty modelsStr then trimmed_parts c_comma modelsStr else [].

Definition formatModelsArray (models : list jstr) : jstr := join (js ",") (js_set models).

Definition normalizeModelName (model : jstr) : jstr := trim model.

(** ** Mappings *)

Definition extractMappingSourceModels (modelMapping : jstr) : list jstr :=
  let trimmed := trim modelMapping in
  if negb (nonempty trimmed) then []
  else match json_parse trimmed with
       | Some (JObj parsed) => js_set (filterb nonempty (map trim (own_keys parsed)))
       | _ => []
       end.

(** [typeof value === 'string' ? value.trim() : undefined] *)
Definition trimmed_string (value : json) : option jstr :=
  match value with JStr s => Some (trim s) | _ => None end.

Definition extractRedirectModels (modelMapping : jstr) : list jstr :=
  let trimmed := trim modelMapping in
  if negb (nonempty trimmed) then []
  else match json_parse trimmed with
       | Some (JObj parsed) =>
           js_set (filterb nonempty (omap trimmed_string (own_values parsed)))
       | _ => []
       end.

(** The loop over the indices; the lengths are equal when it runs. *)
Fixpoint some_differs (current initial : list jstr) : bool :=
  match current, initial with
  | c :: current', i :: initial' =>
      if negb (bool_decide (c = i)) then true else some_differs current' initial'
  | _, _ => false
  end.

Definition hasModelConfigChanged (currentModels : list jstr) (currentModelMapping : jstr)
    (initialModels : list jstr) (initialModelMapping : jstr) : bool :=
  if (length initialModels =? 0)%nat && negb (nonempty initialModelMapping) then true
  else if negb (length currentModels =? length initialModels)%nat then true
  else if some_differs currentModels initialModels then true
  else negb (bool_decide (trim currentModelMapping = trim initialModelMapping)).

Definition findMissingModelsInMapping (modelMapping : jstr) (currentModels : list jstr)
    : list jstr :=
  if negb (nonempty modelMapping) || negb (nonempty (trim modelMapping)) then []
  else match json_parse modelMapping with
       | Some (JObj parsedMapping) =>
           let modelSet := js_set (map normalizeModelName currentModels) in
           js_set (filterb (λ key, nonempty key && negb (bool_decide (key ∈ modelSet)))
                     (map normalizeModelName (own_keys parsedMapping)))
       | _ => []
       end.

Record MappingVerdict := { valid : bool; error : option jstr }.

Definition validateModelMappingJson (modelMapping : jstr) : MappingVerdict :=
  if negb (nonempty modelMapping) || negb (nonempty (trim modelMapping)) then
    {| valid := true; error := None |}
  else match json_parse modelMapping with
       | Some (JObj _) => {| valid := true; error := None |}
       | Some _ =>
           {| valid := false; error := Some (js "Model mapping must be a valid JSON object") |}
       | None =>
           {| valid := false; error := Some (js "Model mapping must be valid JSON format") |}
       end.

Definition findExposedTargetModels (modelMapping : jstr) (currentModels : list jstr)
    : list jstr :=
  let redirectModels := extractRedirectModels modelMapping in
  if (length redirectModels =? 0)%nat then []
  else
    let modelSet := js_set (map normalizeModelName currentModels) in
    filterb (λ model, bool_decide (normalizeModelName model ∈ modelSet)) redirectModels.

Record ModelCategories := {
  normalizedCurrentModels : list jstr;
  normalizedRedirectModels : list jstr;
  classificationSet : list jstr;
  redirectOnlySet : list jstr;
}.

Definition categorizeModelsWithRedirect (currentModels redirectModels : list jstr)
    : ModelCategories :=
  let current := js_set (filterb nonempty (map normalizeModelName currentModels)) in
  let redirect := js_set (filterb nonempty (map normalizeModelName redirectModels)) in
  {| normalizedCurrentModels := current;
     normalizedRedirectModels := redirect;
     classificationSet := js_set (current ++ redirect);
     redirectOnlySet := js_set (filterb (λ m, negb (bool_decide (m ∈ current))) redirect) |}.

(** ** Evaluations *)

Example mapping_sample :
  let m := map (λ c, if c =? 39 then c_quote else c)
             (js "{'gpt-4':' up-4 ',' gpt-3 ':'up-3','x':7}") in
  extractMappingSourceModels m = map js ["gpt-4"; "gpt-3"; "x"]%string
  ∧ extractRedirectModels m = map js ["up-4"; "up-3"]%string
  ∧ findMissingModelsInMapping m (map js ["gpt-4 "]%string) = map js ["gpt-3"; "x"]%string
  ∧ findExposedTargetModels m (map js ["up-3"; "z"]%string) = [js "up-3"].
Proof. split_and!; by_eval. Qed.

(** ** Model lists: round trips *)

Lemma parseModelsString_parts s : parseModelsString s = trimmed_parts c_comma s.
Proof. by destruct s. Qed.

(** The model list a form stores is read back without loss: printing the
    models read from any text and reading the result gives those models once
    each, in the order of first occurrence; and a list of models that is
    already in that shape is stored and read back unchanged. *)
Theorem model_list_roundtrip :
  (∀ s, parseModelsString (formatModelsArray (parseModelsString s)) = js_set (parseModelsString s))
  ∧ (∀ models, Forall (clean_part c_comma) models → NoDup models →
       parseModelsString (formatModelsArray models) = models).
Proof.
  assert (H : ∀ l, Forall (clean_part c_comma) l → parseModelsString (formatModelsArray l) = js_set l).
  { intros l Hl. rewrite parseModelsString_parts. by apply trimmed_parts_join, Forall_js_set. }
  split.
  - intros s. apply H. rewrite parseModelsString_parts. apply trimmed_parts_clean.
  - intros models Hc Hnd. rewrite H by done. by apply js_set_NoDup.
Qed.

Lemma model_list_roundtrip_witness :
  parseModelsString (formatModelsArray (map js ["gpt-4"; "o3"]%string)) = map js ["gpt-4"; "o3"]%string.
Proof.
  apply (proj2 model_list_roundtrip).
  - repeat constructor; try done; apply (bool_decide_unpack _); by_eval.
  - apply (bool_decide_unpack _). by_eval.
Defined.

(** ** Mappings against model lists *)

(** The client models a mapping remaps: its trimmed, non-empty keys. *)
Definition mapped_source (text k : jstr) : Prop :=
  k ≠ [] ∧ ∃ o k' v, json_parse text = Some (JObj o) ∧ (k', v) ∈ o ∧ k = trim k'.

Lemma elem_of_own_keys {V} (o : list (jstr * V)) k : k ∈ own_keys o ↔ ∃ v, (k, v) ∈ o.
Proof.
  rewrite own_keys_Permutation, list_elem_of_fmap. split.
  - intros ([k' v] & -> & H). eauto.
  - intros (v & H). by exists (k, v).
Qed.

Lemma json_parse_blank s : trim s = [] → ∀ o, json_parse (trim s) = Some (JObj o) → False.
Proof. intros -> o. by rewrite json_parse_nil. Qed.

Lemma elem_of_findMissing text models k :
  trim text = text →
  k ∈ findMissingModelsInMapping text models ↔ mapped_source text k ∧ k ∉ map trim models.
Proof.
  intros Ht. unfold findMissingModelsInMapping, mapped_source. rewrite Ht.
  destruct text as [|c text']; cbn [nonempty negb orb].
  { rewrite json_parse_nil. split; [set_solver|]. naive_solver. }
  set (text := c :: text'). destruct (json_parse text) as [[]|] eqn:E;
    try (split; [set_solver|naive_solver]).
  rewrite elem_of_js_set, elem_of_filterb, andb_true_iff, nonempty_true, negb_true_iff.
  rewrite bool_decide_eq_false, elem_of_js_set, list_elem_of_fmap.
  setoid_rewrite elem_of_own_keys. unfold normalizeModelName. split.
  - intros ((k' & -> & v & Hin) & Hne & Hm). split; [|done]. split; [done|]. eauto 10.
  - intros ((Hne & o' & k' & v & [= <-] & Hin & ->) & Hm). split; [|done]. eauto.
Qed.

(** The save-time check reports exactly the remapped client models that
    are not in the model list, each once; once they are added, nothing is
    missing any more. *)
Theorem findMissingModelsInMapping_spec text models :
  trim text = text →
  let missing := findMissingModelsInMapping text models in
  NoDup missing
  ∧ (∀ k, k ∈ missing ↔ mapped_source text k ∧ k ∉ map trim models)
  ∧ findMissingModelsInMapping text (models ++ missing) = [].
Proof.
  intros Ht. cbn zeta. split; [|split].
  - unfold findMissingModelsInMapping. repeat case_match; try apply NoDup_nil_2.
    apply NoDup_js_set.
  - intros k. by apply elem_of_findMissing.
  - apply elem_of_nil_inv. intros k [Hm Hk]%elem_of_findMissing; [|done]. apply Hk.
    rewrite map_app, elem_of_app.
    destruct (decide (k ∈ map trim models)) as [|Hn]; [by left|right].
    apply list_elem_of_fmap. exists k. destruct Hm as (Hne & o & k' & v & Ho & Hin & ->).
    split; [by rewrite trim_idemp|]. apply elem_of_findMissing; [done|]. split; [|done].
    split; [done|]. eauto 10.
Qed.

Lemma findMissingModelsInMapping_spec_witness :
  let text := map (λ c, if c =? 39 then c_quote else c) (js "{'a':'b','c':'d'}") in
  trim text = text ∧
  findMissingModelsInMapping text ([js "a"] ++ findMissingModelsInMapping text [js "a"]) = [].
Proof.
  split; [by_eval|]. apply findMissingModelsInMapping_spec. by_eval.
Defined.

(** The channel form asks for confirmation of the model configuration
    exactly when the channel is new (no model and no mapping before), or the
    model list differs, or the mapping differs up to surrounding blanks. *)
Theorem hasModelConfigChanged_spec currentModels currentMapping initialModels initialMapping :
  hasModelConfigChanged currentModels currentMapping initialModels initialMapping = false ↔
  ¬ (initialModels = [] ∧ initialMapping = [])
  ∧ currentModels = initialModels ∧ trim currentMapping = trim initialMapping.
Proof.
  assert (Hd : ∀ a b : list jstr, length a = length b → some_differs a b = false ↔ a = b).
  { induction a as [|x a IH]; intros [|y b] Hl; simplify_eq/=; [done|].
    destruct (decide (x = y)) as [->|Hn].
    - rewrite bool_decide_eq_true_2 by done. cbn [negb]. rewrite IH by done. naive_solver.
    - rewrite bool_decide_eq_false_2 by done. cbn [negb]. naive_solver. }
  unfold hasModelConfigChanged.
  destruct ((length initialModels =? 0)%nat && negb (nonempty initialMapping)) eqn:E1.
  { split; [done|]. intros [[] _]. apply andb_true_iff in E1 as [E1 E2].
    by destruct initialModels, initialMapping. }
  assert (Hnew : ¬ (initialModels = [] ∧ initialMapping = [])) by by intros [-> ->].
  destruct (Nat.eqb_spec (length currentModels) (length initialModels)) as [Hl|Hl]; cbn [negb].
  2: { split; [done|]. intros (_ & -> & _). done. }
  destruct (some_differs currentModels initialModels) eqn:E2.
  - split; [done|]. intros (_ & H%Hd & _); [congruence|done].
  - apply Hd in E2; [|done]. rewrite negb_false_iff, bool_decide_eq_true. naive_solver.
Qed.

(** The classification shown beside fetched models: the categories are
    sets of trimmed, non-empty names; the models offered are those configured
    or redirected to; and the redirect-only ones are the offered models that
    are not configured, so that the two parts are disjoint and exhaustive. *)
Theorem categorizeModelsWithRedirect_partition currentModels redirectModels :
  let c := categorizeModelsWithRedirect currentModels redirectModels in
  (NoDup (classificationSet c) ∧ NoDup (redirectOnlySet c))
  ∧ (∀ m, m ∈ normalizedCurrentModels c ↔ m ≠ [] ∧ m ∈ map trim currentModels)
  ∧ (∀ m, m ∈ classificationSet c ↔ m ≠ [] ∧ (m ∈ map trim currentModels ∨ m ∈ map trim redirectModels))
  ∧ (∀ m, m ∈ classificationSet c ↔ m ∈ normalizedCurrentModels c ∨ m ∈ redirectOnlySet c)
  ∧ (∀ m, m ∈ normalizedCurrentModels c → m ∈ redirectOnlySet c → False).
Proof.
  assert (Hn : ∀ l m, m ∈ js_set (filterb nonempty (map normalizeModelName l))
                      ↔ m ≠ [] ∧ m ∈ map trim l).
  { intros l m. rewrite elem_of_js_set, elem_of_filterb, nonempty_true. unfold normalizeModelName.
    tauto. }
  cbn. set (current := js_set (filterb nonempty (map normalizeModelName currentModels))) in *.
  set (redirect := js_set (filterb nonempty (map normalizeModelName redirectModels))) in *.
  assert (Hc : ∀ m, m ∈ js_set (current ++ redirect) ↔ m ∈ current ∨ m ∈ redirect)
    by (intros; by rewrite elem_of_js_set, elem_of_app).
  assert (Ho : ∀ m, m ∈ js_set (filterb (λ m, negb (bool_decide (m ∈ current))) redirect)
                    ↔ m ∈ redirect ∧ m ∉ current).
  { intros m. by rewrite elem_of_js_set, elem_of_filterb, negb_true_iff, bool_decide_eq_false. }
  split; [auto with starnexus|]. split; [intros; apply Hn|]. split; [|split].
  - intros m. rewrite Hc. unfold current, redirect. rewrite !Hn. tauto.
  - intros m. rewrite Hc, Ho. destruct (decide (m ∈ current)); tauto.
  - intros m. rewrite Ho. tauto.
Qed.

(** ** The verdict and the extractors *)

(** The upstream models a mapping redirects to: its trimmed string values. *)
Definition redirect_target (text m : jstr) : Prop :=
  m ≠ [] ∧ ∃ o k s, json_parse text = Some (JObj o) ∧ (k, JStr s) ∈ o ∧ m = trim s.

Lemma elem_of_own_values {V} (o : list (jstr * V)) v : v ∈ own_values o ↔ ∃ k, (k, v) ∈ o.
Proof.
  unfold own_values. rewrite list_elem_of_fmap. setoid_rewrite elem_of_own_entries. split.
  - intros ([k v'] & -> & H). eauto.
  - intros (k & H). by exists (k, v).
Qed.

Lemma elem_of_extractMappingSourceModels text k :
  trim text = text → k ∈ extractMappingSourceModels text ↔ mapped_source text k.
Proof.
  intros Ht. unfold extractMappingSourceModels, mapped_source. rewrite Ht.
  destruct text as [|c text']; cbn [nonempty negb].
  { rewrite json_parse_nil. split; [set_solver|naive_solver]. }
  set (text := c :: text'). destruct (json_parse text) as [[]|] eqn:E;
    try (split; [set_solver|naive_solver]).
  rewrite elem_of_js_set, elem_of_filterb, nonempty_true, list_elem_of_fmap.
  setoid_rewrite elem_of_own_keys. naive_solver.
Qed.

Lemma elem_of_extractRedirectModels text m :
  trim text = text → m ∈ extractRedirectModels text ↔ redirect_target text m.
Proof.
  intros Ht. unfold extractRedirectModels, redirect_target. rewrite Ht.
  destruct text as [|c text']; cbn [nonempty negb].
  { rewrite json_parse_nil. split; [set_solver|naive_solver]. }
  set (text := c :: text'). destruct (json_parse text) as [[]|] eqn:E;
    try (split; [set_solver|naive_solver]).
  rewrite elem_of_js_set, elem_of_filterb, nonempty_true, list_elem_of_omap.
  setoid_rewrite elem_of_own_values. split.
  - intros ((v & (k & Hk) & Hv) & Hne). destruct v; simplify_eq/=. eauto 10.
  - intros (Hne & o' & k & s & [= <-] & Hin & ->). split; [|done]. exists (JStr s). eauto.
Qed.

Lemma elem_of_findExposedTargetModels text models m :
  trim text = text →
  m ∈ findExposedTargetModels text models ↔ redirect_target text m ∧ m ∈ map trim models.
Proof.
  intros Ht. rewrite <- elem_of_extractRedirectModels by done. unfold findExposedTargetModels.
  assert (Htr : ∀ x, x ∈ extractRedirectModels text → trim x = x).
  { intros x Hx. apply elem_of_extractRedirectModels in Hx; [|done].
    destruct Hx as (_ & o & k & s & _ & _ & ->). apply trim_idemp. }
  destruct (Nat.eqb_spec (length (extractRedirectModels text)) 0) as [Hl|Hl].
  { apply nil_length_inv in Hl as ->. set_solver. }
  rewrite elem_of_filterb, bool_decide_eq_true, elem_of_js_set. unfold normalizeModelName.
  split; intros [Hm Hin]; (split; [done|]); [rewrite <- (Htr m Hm)|rewrite (Htr m Hm)]; done.
Qed.

(** The verdict on a mapping and the lists drawn from it agree: a
    mapping is refused exactly when it is not blank and does not parse as a
    JSON object, an error message is then given and no model is reported
    missing or exposed; an accepted one yields exactly its remapped models
    and, as exposed, exactly its targets that are also in the model list. *)
Theorem mapping_checks_agree text models :
  trim text = text →
  (valid (validateModelMappingJson text) = false ↔
     text ≠ [] ∧ ∀ o, json_parse text ≠ Some (JObj o))
  ∧ (valid (validateModelMappingJson text) = false →
       error (validateModelMappingJson text) ≠ None
       ∧ findMissingModelsInMapping text models = [] ∧ findExposedTargetModels text models = [])
  ∧ (∀ k, k ∈ extractMappingSourceModels text ↔ mapped_source text k)
  ∧ (∀ m, m ∈ findExposedTargetModels text models ↔ redirect_target text m ∧ m ∈ map trim models).
Proof.
  intros Ht.
  assert (Hv : valid (validateModelMappingJson text) = false ↔
    text ≠ [] ∧ ∀ o, json_parse text ≠ Some (JObj o)).
  { unfold validateModelMappingJson. rewrite Ht.
    destruct text as [|c text']; cbn [nonempty negb orb]; [naive_solver|].
    destruct (json_parse (c :: text')) as [[]|]; naive_solver. }
  split; [done|]. split; [|split].
  - intros Hf. split; [|split].
    + revert Hf. unfold validateModelMappingJson. repeat case_match; done.
    + apply elem_of_nil_inv. intros k [(_ & o & k' & v & Ho & _) _]%elem_of_findMissing; [|done].
      apply Hv in Hf as [_ Hf]. by apply (Hf o).
    + apply elem_of_nil_inv. intros m [(_ & o & k & s & Ho & _) _]%elem_of_findExposedTargetModels;
        [|done]. apply Hv in Hf as [_ Hf]. by apply (Hf o).
  - intros k. by apply elem_of_extractMappingSourceModels.
  - intros m. by apply elem_of_findExposedTargetModels.
Qed.

Lemma mapping_checks_agree_witness :
  let text := map (λ c, if c =? 39 then c_quote else c) (js "{'a':'b','c':'d'}") in
  js "b" ∈ findExposedTargetModels text [js "b"] ↔
  redirect_target text (js "b") ∧ js "b" ∈ map trim [js "b"].
Proof.
  cbv zeta. apply mapping_checks_agree. by_eval.
Defined.
