(* ===== verification/CursorPages.v ===== *)
(** * Keyset cursors of the usage log pages

    Model of [web/default/src/features/usage-logs/lib/cursor-pages.ts], the
    class [LogCursorPages]: one window of cursors per user, page size and
    filter, kept in a [Map]; the windows are shared objects, compared by
    identity when a response comes back. Numbers (identities, pages,
    timestamps) are integers. [String.prototype.localeCompare] is the
    parameter [localeCompare]. *)

From Stdlib Require Import String.
From S2P Require Import JsJson JsMap.

(** ** The data *)

(** A query parameter of [GetLogsParams]. *)
Inductive pval :=
| PNum (n : Z)
| PStr (s : jstr)
| PBool (b : bool).

#[export] Instance pval_eq_dec : EqDecision pval.
Proof. solve_decision. Defined.

(** A parameter object; [None] is a property whose value is [undefined]. *)
Definition GetLogsParams : Type := list (jstr * option pval).

Record CursorWindow := {
  cursors : list (Z * Z);
  start : Z;
  end_ : Z;
  expires : Z;
}.

(** The object: the [Map] of window references, and the store of the window
    objects created so far, at the addresses below [next]. *)
Record LogCursorPages := {
  windows : list (jstr * nat);
  store : gmap nat CursorWindow;
  next : nat;
}.

Definition new_pages : LogCursorPages := {| windows := []; store := ∅; next := 0 |}.

Record Request := {
  req_key : jstr;
  req_window : nat;
  req_page : Z;
  req_params : GetLogsParams;
}.

(** ** Reading the parameters *)

Definition param (params : GetLogsParams) (name : jstr) : option pval :=
  match map_get params name with Some (Some v) => Some v | _ => None end.

(** [params.name || d] for a numeric parameter *)
Definition num_or (params : GetLogsParams) (name : jstr) (d : Z) : Z :=
  match param params name with
  | Some (PNum n) => if n =? 0 then d else n
  | _ => d
  end.

Definition before_id (params : GetLogsParams) : option Z :=
  match param params (js "before_id") with Some (PNum n) => Some n | _ => None end.

(** ** The window key *)

(** [JSON.stringify] of a parameter value *)
Definition stringify_pval (v : pval) : jstr :=
  match v with
  | PNum n => string_of_Z n
  | PStr s => json_quote s
  | PBool true => js "true"
  | PBool false => js "false"
  end.

Definition stringify_entry (e : jstr * pval) : jstr :=
  js "[" ++ json_quote e.1 ++ js "," ++ stringify_pval e.2 ++ js "]".

(** [JSON.stringify([identity, size, entries])] *)
Definition stringify_key (identity size : Z) (entries : list (jstr * pval)) : jstr :=
  js "[" ++ string_of_Z identity ++ js "," ++ string_of_Z size ++ js ",["
  ++ join (js ",") (map stringify_entry entries) ++ js "]]".

(** The own entries other than [p] and [before_id] whose value is defined. *)
Definition filters_of (params : GetLogsParams) : list (jstr * pval) :=
  omap (λ e : jstr * option pval,
          match e.2 with
          | Some v => if bool_decide (e.1 = js "p") || bool_decide (e.1 = js "before_id") then None
                      else Some (e.1, v)
          | None => None
          end) params.

Section pages.
Context (localeCompare : jstr → jstr → Z).

Definition entry_le (a b : jstr * pval) : bool := localeCompare a.1 b.1 <=? 0.

Definition page_of (params : GetLogsParams) : Z := num_or params (js "p") 1.
Definition size_of (params : GetLogsParams) : Z := num_or params (js "page_size") 20.

Definition window_key (identity : Z) (params : GetLogsParams) : jstr :=
  stringify_key identity (size_of params) (stable_sort entry_le (filters_of params)).

(** ** [prepare] *)

Definition new_window (params : GetLogsParams) (now : Z) : CursorWindow :=
  let en := num_or params (js "end_timestamp") (now / 1000) in
  {| cursors := [];
     start := num_or params (js "start_timestamp") (en - 45 * 86400);
     end_ := en;
     expires := now + 30 * 60 * 1000 |}.

(** The window [this.windows.get(key)] when it may be used. *)
Definition live_window (s : LogCursorPages) (key : jstr) (page now : Z)
    : option (nat * CursorWindow) :=
  match map_get (windows s) key with
  | None => None
  | Some ref =>
      match store s !! ref with
      | None => None
      | Some w => if (expires w <=? now) || (page =? 1) then None else Some (ref, w)
      end
  end.

Definition open_window (s : LogCursorPages) (key : jstr) (w : CursorWindow) : LogCursorPages :=
  let ws := if (64 <=? length (windows s))%nat then evict_oldest (windows s) else windows s in
  {| windows := map_set ws key (next s);
     store := <[next s := w]> (store s);
     next := S (next s) |}.

(** [params.before_id ?? window.cursors.get(page)] *)
Definition cursor_for (params : GetLogsParams) (w : CursorWindow) (page : Z) : option Z :=
  match before_id params with Some c => Some c | None => map_get (cursors w) page end.

Definition request_params (params : GetLogsParams) (w : CursorWindow) (page size : Z)
    : GetLogsParams :=
  map_set (map_set (map_set (map_set (map_set params
    (js "p") (Some (PNum page)))
    (js "page_size") (Some (PNum size)))
    (js "start_timestamp") (Some (PNum (start w))))
    (js "end_timestamp") (Some (PNum (end_ w))))
    (js "before_id") (PNum <$> cursor_for params w page).

Definition prepare (s : LogCursorPages) (identity : Z) (params : GetLogsParams) (now : Z)
    : LogCursorPages * Request :=
  let page := page_of params in
  let size := size_of params in
  let key := window_key identity params in
  let '(s', ref, w) :=
    match live_window s key page now with
    | Some (ref, w) => (s, ref, w)
    | None => let w := new_window params now in (open_window s key w, next s, w)
    end in
  (s', {| req_key := key; req_window := ref; req_page := page;
          req_params := request_params params w page size |}).

(** ** [remember] *)

Definition add_cursor (w : CursorWindow) (page cursor : Z) : CursorWindow :=
  let cs := if (2048 <=? length (cursors w))%nat then evict_oldest (cursors w) else cursors w in
  {| cursors := map_set cs page cursor; start := start w; end_ := end_ w; expires := expires w |}.

Definition remember (s : LogCursorPages) (request : Request) (nextCursor : Z) : LogCursorPages :=
  if negb (bool_decide (map_get (windows s) (req_key request) = Some (req_window request)))
     || (nextCursor <=? 0)
  then s
  else match store s !! req_window request with
       | None => s
       | Some w =>
           {| windows := windows s;
              store := <[req_window request := add_cursor w (req_page request + 1) nextCursor]>
                         (store s);
              next := next s |}
       end.

(** ** Runs

    The object is used by [getAllLogs]: requests are prepared at any time,
    and a response is remembered for any request prepared before. The
    history records what was prepared and what was remembered, latest
    first. *)

Inductive event :=
| Prepared (identity : Z) (params : GetLogsParams) (now : Z) (r : Request)
| Remembered (r : Request) (nextCursor : Z).
End pages.
