(* ===== verification/CursorPagesProps.v ===== *)
(** * Keyset cursors: properties

    The window key determines its user, page size and filters; the reachable
    states of the cursor pages satisfy an invariant that bounds the store and
    traces every cursor to the response that delivered it. *)

From Stdlib Require Import String.
From S2P Require Import JsJson JsMap CursorPages.

(** ** The window key is uniquely decodable *)

Definition stops (r : jstr) : Prop := ∀ c, head r = Some c → is_digit c = false.

Lemma digit_span_unique a b r r' :
  Forall (λ c, is_digit c = true) a → Forall (λ c, is_digit c = true) b →
  stops r → stops r' → a ++ r = b ++ r' → a = b ∧ r = r'.
Proof.
  intros Ha. revert b; induction Ha as [|x a Hx Ha IH]; intros b Hb Hr Hr' Heq.
  - destruct Hb as [|y b Hy Hb]; [done|]. cbn in Heq. subst r.
    rewrite (Hr y) in Hy; done.
  - destruct Hb as [|y b Hy Hb]; cbn in Heq.
    + subst r'. rewrite (Hr' x) in Hx; done.
    + injection Heq as -> Heq. destruct (IH b Hb Hr Hr' Heq) as [-> ->]. done.
Qed.

Lemma string_of_Z_neg n : n < 0 → string_of_Z n = c_minus :: string_of_Z (- n).
Proof.
  intros Hn. unfold string_of_Z. replace (n <? 0) with true by lia.
  by replace (- n <? 0) with false by lia.
Qed.

Lemma string_of_Z_head n :
  ∃ c t, string_of_Z n = c :: t ∧ (c = c_minus ∧ n < 0 ∨ is_digit c = true ∧ 0 ≤ n).
Proof.
  destruct (Z.lt_ge_cases n 0) as [Hn|Hn]; [rewrite string_of_Z_neg by done; eauto 10|].
  destruct (string_of_Z_nonneg n Hn) as [_ Hd]. apply all_digits_spec in Hd as [Hne Hf].
  destruct (string_of_Z n) as [|c t]; [done|]. inversion Hf; subst. eauto 10.
Qed.

Lemma string_of_nonneg_prefix n m r r' :
  0 ≤ n → 0 ≤ m → stops r → stops r' → string_of_Z n ++ r = string_of_Z m ++ r' → n = m ∧ r = r'.
Proof.
  intros Hn Hm Hr Hr' Heq.
  destruct (string_of_Z_nonneg n Hn) as [Hvn Hdn]. destruct (string_of_Z_nonneg m Hm) as [Hvm Hdm].
  apply all_digits_spec in Hdn as [_ Hdn]. apply all_digits_spec in Hdm as [_ Hdm].
  destruct (digit_span_unique _ _ r r' Hdn Hdm Hr Hr' Heq) as [Hs ->].
  split; [|done]. by rewrite <- Hvn, <- Hvm, Hs.
Qed.

Lemma string_of_Z_prefix n m r r' :
  stops r → stops r' → string_of_Z n ++ r = string_of_Z m ++ r' → n = m ∧ r = r'.
Proof.
  intros Hr Hr' Heq.
  destruct (string_of_Z_head n) as (c & t & Hc & Hcn), (string_of_Z_head m) as (d & u & Hd & Hdm).
  assert (c = d) as ->.
  { rewrite Hc, Hd in Heq. cbn in Heq. congruence. }
  destruct Hcn as [[-> Hn]|[Hn1 Hn]], Hdm as [[Heqd Hm]|[Hm1 Hm]]; try (by subst).
  - rewrite (string_of_Z_neg n), (string_of_Z_neg m) in Heq by done. injection Heq as Heq.
    apply string_of_nonneg_prefix in Heq as [??]; [|lia|lia|done..]. split; [lia|done].
  - by apply string_of_nonneg_prefix.
Qed.

Lemma json_quote_prefix s s' r r' :
  Forall code_unit s → Forall code_unit s' →
  json_quote s ++ r = json_quote s' ++ r' → s = s' ∧ r = r'.
Proof.
  intros Hs Hs' Heq. unfold json_quote in Heq. cbn in Heq. injection Heq as Heq.
  rewrite <- !app_assoc in Heq. cbn in Heq. pose proof (parse_escape s r Hs) as H1.
  pose proof (parse_escape s' r' Hs') as H2. rewrite Heq, H2 in H1. by simplify_eq.
Qed.

Definition wf_pval (v : pval) : Prop :=
  match v with PStr s => Forall code_unit s | _ => True end.

Definition wf_entry (e : jstr * pval) : Prop := Forall code_unit e.1 ∧ wf_pval e.2.

Lemma num_not_other n r v r' :
  string_of_Z n ++ r = stringify_pval v ++ r' → ∃ m, v = PNum m.
Proof.
  destruct (string_of_Z_head n) as (c & t & -> & Hc). intros [= Heq].
  assert (Hv : c = c_minus ∨ is_digit c = true) by naive_solver. clear Hc.
  destruct v as [m|s|[]]; [eauto|exfalso..]; revert Heq; cbn; intros [= -> _];
    destruct Hv as [Hv|Hv]; vm_compute in Hv; done.
Qed.

Lemma stringify_pval_prefix v v' r r' :
  wf_pval v → wf_pval v' → stops r → stops r' →
  stringify_pval v ++ r = stringify_pval v' ++ r' → v = v' ∧ r = r'.
Proof.
  intros Hv Hv' Hr Hr' Heq.
  destruct v as [n|s|b].
  - destruct (num_not_other n r v' r' Heq) as [m ->]. cbn in Heq.
    apply string_of_Z_prefix in Heq as [-> ->]; done.
  - destruct v' as [m|s'|b']; cbn [stringify_pval] in Heq.
    + symmetry in Heq. by destruct (num_not_other m r' (PStr s) r Heq).
    + apply json_quote_prefix in Heq as [-> ->]; done.
    + by destruct b'.
  - destruct v' as [m|s'|b']; cbn [stringify_pval] in Heq.
    + symmetry in Heq. by destruct (num_not_other m r' (PBool b) r Heq).
    + by destruct b.
    + destruct b, b'; by simplify_eq/=.
Qed.

Lemma stringify_entry_prefix e e' r r' :
  wf_entry e → wf_entry e' →
  stringify_entry e ++ r = stringify_entry e' ++ r' → e = e' ∧ r = r'.
Proof.
  intros [Hk Hv] [Hk' Hv'] Heq. unfold stringify_entry in Heq. rewrite <- !app_assoc in Heq.
  apply (app_inv_head (js "[")) in Heq. apply json_quote_prefix in Heq as [Hkk Heq]; [|done..].
  apply (app_inv_head (js ",")) in Heq.
  apply stringify_pval_prefix in Heq as [Hvv Heq]; [|done|done|by intros ? [= <-]|by intros ? [= <-]].
  apply (app_inv_head (js "]")) in Heq. split; [|done].
  destruct e, e'; cbn in *; congruence.
Qed.

Lemma entries_inj es es' :
  Forall wf_entry es → Forall wf_entry es' →
  join (js ",") (map stringify_entry es) ++ js "]]" =
  join (js ",") (map stringify_entry es') ++ js "]]" → es = es'.
Proof.
  intros Hes. revert es'; induction Hes as [|e es He Hes IH]; intros es' Hes' Heq.
  - destruct es' as [|e' [|e2 es']]; done.
  - destruct Hes' as [|e' es' He' Hes']; [by destruct es|].
    destruct es as [|e2 es], es' as [|e2' es']; cbn [map join] in Heq; rewrite <- ?app_assoc in Heq;
      apply stringify_entry_prefix in Heq as [-> Heq]; try done.
    f_equal. apply IH; [done|]. by apply (app_inv_head (js ",")) in Heq.
Qed.

Lemma stringify_key_inj i sz es i' sz' es' :
  Forall wf_entry es → Forall wf_entry es' →
  stringify_key i sz es = stringify_key i' sz' es' → i = i' ∧ sz = sz' ∧ es = es'.
Proof.
  intros He He' Heq. unfold stringify_key in Heq. apply (app_inv_head (js "[")) in Heq.
  apply string_of_Z_prefix in Heq as [Hi Heq]; [|by intros ? [= <-]..].
  apply (app_inv_head (js ",")) in Heq.
  apply string_of_Z_prefix in Heq as [Hs Heq]; [|by intros ? [= <-]..].
  apply (app_inv_head (js ",[")) in Heq. split; [done|]. split; [done|].
  by apply entries_inj.
Qed.

Definition wf_params (params : GetLogsParams) : Prop :=
  Forall wf_entry (filters_of params) ∧ NoDup (map fst params).

Lemma window_key_inj lc i p i' p' :
  wf_params p → wf_params p' → window_key lc i p = window_key lc i' p' →
  i = i' ∧ size_of p = size_of p' ∧ filters_of p ≡ₚ filters_of p'.
Proof.
  intros [Hp _] [Hp' _] Heq.
  apply stringify_key_inj in Heq as (-> & -> & Hf); [|by rewrite stable_sort_Permutation..].
  split; [done|]. split; [done|].
  by rewrite <- (stable_sort_Permutation (entry_le lc) (filters_of p)), Hf, stable_sort_Permutation.
Qed.

(** ** The invariant of the runs *)

Section invariant.
Context (lc : jstr → jstr → Z).

(** Runs whose parameter objects are well-formed: distinct field names, and
    strings made of 16-bit code units. *)
Inductive step : LogCursorPages * list event → LogCursorPages * list event → Prop :=
| step_prepare s h i p now s' r :
    wf_params p → prepare lc s i p now = (s', r) → step (s, h) (s', Prepared i p now r :: h)
| step_remember s h i p now r c :
    Prepared i p now r ∈ h → step (s, h) (remember s r c, Remembered r c :: h).

Definition run (x : LogCursorPages * list event) : Prop := rtc step (new_pages, []) x.

Definition served (w : CursorWindow) (r : Request) : Prop :=
  param (req_params r) (js "start_timestamp") = Some (PNum (start w)) ∧
  param (req_params r) (js "end_timestamp") = Some (PNum (end_ w)).

Record inv (s : LogCursorPages) (h : list event) : Prop := {
  inv_keyed : well_keyed (windows s);
  inv_size : (length (windows s) ≤ 64)%nat;
  inv_live : ∀ k ref, map_get (windows s) k = Some ref → is_Some (store s !! ref);
  inv_fresh : ∀ ref w, store s !! ref = Some w → (ref < next s)%nat;
  inv_cursors : ∀ ref w, store s !! ref = Some w →
    well_keyed (cursors w) ∧ (length (cursors w) ≤ 2048)%nat;
  (** the window of a prepared request, for its key and with its range *)
  inv_prepared : ∀ i p now r, Prepared i p now r ∈ h →
    wf_params p ∧ req_key r = window_key lc i p ∧ req_page r = page_of p ∧
    ∃ w, store s !! req_window r = Some w ∧ served w r;
  inv_owner : ∀ k ref i p now r, map_get (windows s) k = Some ref →
    Prepared i p now r ∈ h → req_window r = ref → req_key r = k;
  inv_one_key : ∀ i p now r i' p' now' r', Prepared i p now r ∈ h → Prepared i' p' now' r' ∈ h →
    req_window r = req_window r' → req_key r = req_key r';
  inv_distinct : ∀ k k' ref, map_get (windows s) k = Some ref →
    map_get (windows s) k' = Some ref → k = k';
  (** every cursor was delivered for the previous page of its window *)
  inv_delivered : ∀ ref w page c, store s !! ref = Some w → map_get (cursors w) page = Some c →
    0 < c ∧ ∃ i p now r, Prepared i p now r ∈ h ∧ Remembered r c ∈ h ∧
      req_window r = ref ∧ req_page r + 1 = page;
}.

Lemma param_request params w page size :
  let q := request_params params w page size in
  param q (js "start_timestamp") = Some (PNum (start w))
  ∧ param q (js "end_timestamp") = Some (PNum (end_ w))
  ∧ param q (js "before_id") = PNum <$> cursor_for params w page
  ∧ param q (js "p") = Some (PNum page).
Proof.
  cbn zeta. unfold param, request_params.
  split; [|split; [|split]]; rewrite ?map_get_set_eq;
    repeat (rewrite map_get_set_ne by (vm_compute; congruence); rewrite ?map_get_set_eq); try done.
  by destruct (cursor_for params w page).
Qed.

(** What [prepare] does, as one of two cases. *)
Lemma prepare_cases s i p now s' r :
  prepare lc s i p now = (s', r) →
  let key := window_key lc i p in
  req_key r = key ∧ req_page r = page_of p ∧
  ∃ w, req_params r = request_params p w (page_of p) (size_of p) ∧
    ((s' = s ∧ map_get (windows s) key = Some (req_window r) ∧
      store s !! req_window r = Some w ∧ now < expires w ∧ page_of p ≠ 1)
     ∨ (s' = open_window s key w ∧ req_window r = next s ∧ w = new_window p now)).
Proof.
  unfold prepare, live_window. cbn zeta.
  destruct (map_get (windows s) (window_key lc i p)) as [ref|] eqn:Eg.
  - destruct (store s !! ref) as [w|] eqn:Es.
    + destruct ((expires w <=? now) || (page_of p =? 1)) eqn:Eb.
      * intros [= <- <-]. cbn. eauto 10.
      * apply orb_false_iff in Eb as [E1 E2]. reflect_bools.
        intros [= <- <-]. cbn. eauto 15.
    + intros [= <- <-]. cbn. eauto 10.
  - intros [= <- <-]. cbn. eauto 10.
Qed.

Lemma map_get_open s key w k ref :
  map_get (windows (open_window s key w)) k = Some ref →
  (k = key ∧ ref = next s) ∨ (k ≠ key ∧ map_get (windows s) k = Some ref).
Proof.
  unfold open_window; cbn [windows]. rewrite map_get_set. case_decide as Hk; subst.
  - intros [= <-]. by left.
  - intros Hg. right. split; [done|]. case_match; [by apply map_get_evict_Some|done].
Qed.

Lemma map_get_open_eq s key w : map_get (windows (open_window s key w)) key = Some (next s).
Proof. cbn. by rewrite map_get_set_eq. Qed.

Lemma open_window_size s key w :
  well_keyed (windows s) → (length (windows s) ≤ 64)%nat →
  well_keyed (windows (open_window s key w)) ∧ (length (windows (open_window s key w)) ≤ 64)%nat.
Proof.
  intros Hk Hs. unfold open_window; cbn [windows]. split.
  - apply map_set_well_keyed. case_match; auto with starnexus.
  - etrans; [apply map_set_length|]. destruct (Nat.leb_spec 64 (length (windows s))); [|lia].
    rewrite evict_oldest_length by done. lia.
Qed.

Lemma inv_init : inv new_pages [].
Proof.
  split; cbn; try (intros; set_solver); try done; try lia.
  apply NoDup_nil_2.
Qed.

Lemma live_lt s h k ref : inv s h → map_get (windows s) k = Some ref → (ref < next s)%nat.
Proof. intros Hi Hg. destruct (inv_live _ _ Hi k ref Hg) as [w Hw]. by eapply inv_fresh. Qed.

Lemma prepared_lt s h i p now r : inv s h → Prepared i p now r ∈ h → (req_window r < next s)%nat.
Proof.
  intros Hi Hp. destruct (inv_prepared _ _ Hi _ _ _ _ Hp) as (_ & _ & _ & w & Hw & _).
  by eapply inv_fresh.
Qed.

(** A prepared request of a live window. *)
Lemma inv_prepare_reuse s h i p now r w :
  inv s h → wf_params p → req_key r = window_key lc i p → req_page r = page_of p →
  map_get (windows s) (window_key lc i p) = Some (req_window r) →
  store s !! req_window r = Some w → served w r →
  inv s (Prepared i p now r :: h).
Proof.
  intros Hi Hwf Hk Hp Hg Hs Hsv. pose proof Hi as [? ? ? ? ? Hprep Hown Hone Hdist Hdel].
  split; try done.
  - intros i' p' now' r' [[= -> -> -> ->]|Hin]%elem_of_cons; [|eauto].
    split; [done|]. split; [done|]. split; [done|]. eauto.
  - intros k ref i' p' now' r' Hk' [[= -> -> -> ->]|Hin]%elem_of_cons Hr; [|eauto].
    rewrite Hk. eapply Hdist; [exact Hg|]. by rewrite Hr.
  - intros i1 p1 n1 r1 i2 p2 n2 r2 [[= -> -> -> ->]|H1]%elem_of_cons [[= -> -> -> ->]|H2]%elem_of_cons Hr.
    + done.
    + rewrite Hk. symmetry. by eapply (Hown _ _ _ _ _ r2).
    + rewrite Hk. by eapply (Hown _ _ _ _ _ r1).
    + by eapply Hone.
  - intros ref w' page c H1 H2. destruct (Hdel ref w' page c H1 H2) as (Hc & i' & p' & n' & r' & Ha & Hb & Hr).
    split; [done|]. exists i', p', n', r'. split; [by right|]. split; [by right|done].
Qed.

(** A prepared request that opens a window. *)
Lemma inv_prepare_open s h i p now r w :
  inv s h → wf_params p → req_key r = window_key lc i p → req_page r = page_of p →
  req_window r = next s → cursors w = [] → served w r →
  inv (open_window s (window_key lc i p) w) (Prepared i p now r :: h).
Proof.
  intros Hi Hwf Hk Hp Hr Hw Hsv. pose proof Hi as [Hkey Hsz Hlive Hfresh Hcur Hprep Hown Hone Hdist Hdel].
  assert (Hgl : ∀ k, map_get (windows s) k ≠ Some (next s)).
  { intros k Hg. apply (live_lt _ _ _ _ Hi) in Hg. lia. }
  assert (Hpl : ∀ i p now r', Prepared i p now r' ∈ h → req_window r' ≠ next s).
  { intros i' p' n' r' Hin. apply (prepared_lt _ _ _ _ _ _ Hi) in Hin. lia. }
  set (key := window_key lc i p) in *.
  split; try apply (open_window_size s key w Hkey Hsz).
  - intros k ref [[-> ->]|[_ Hg]]%map_get_open; cbn [store open_window].
    + rewrite lookup_insert_eq. eauto.
    + apply lookup_insert_is_Some'. right. eauto.
  - intros ref w'. cbn [store next open_window]. rewrite lookup_insert_Some.
    intros [[<- _]|[_ Hl%Hfresh]]; lia.
  - intros ref w'. cbn [store open_window]. rewrite lookup_insert_Some.
    intros [[_ <-]|[_ Hl]]; [|by eapply Hcur]. rewrite Hw. split; [apply NoDup_nil_2|simpl; lia].
  - intros i' p' n' r' [[= -> -> -> ->]|Hin]%elem_of_cons; cbn [store open_window].
    + rewrite Hr, lookup_insert_eq. split; [done|]. split; [done|]. split; [done|]. eauto.
    + destruct (Hprep _ _ _ _ Hin) as (H1 & H2 & H3 & w' & H4 & H5).
      rewrite lookup_insert_ne by (specialize (Hpl _ _ _ _ Hin); congruence). eauto 10.
  - intros k ref i' p' n' r' [[-> ->]|[Hne Hg]]%map_get_open [[= -> -> -> ->]|Hin]%elem_of_cons Hw'.
    + done.
    + by specialize (Hpl _ _ _ _ Hin).
    + rewrite <- Hw', Hr in Hg. by apply Hgl in Hg.
    + by eapply Hown.
  - intros i1 p1 n1 r1 i2 p2 n2 r2 [[= -> -> -> ->]|H1]%elem_of_cons [[= -> -> -> ->]|H2]%elem_of_cons Hrr.
    + done.
    + specialize (Hpl _ _ _ _ H2). congruence.
    + specialize (Hpl _ _ _ _ H1). congruence.
    + by eapply Hone.
  - intros k k' ref [[-> ->]|[_ H1]]%map_get_open [[-> H2]|[_ H2]]%map_get_open; try done.
    + by apply Hgl in H2.
    + subst ref. by apply Hgl in H1.
    + by eapply Hdist.
  - intros ref w' page c. cbn [store open_window]. rewrite lookup_insert_Some.
    intros [[_ <-]|[_ Hl]] Hc; [by rewrite Hw in Hc|].
    destruct (Hdel _ _ _ _ Hl Hc) as (Hpos & i' & p' & n' & r' & Ha & Hb & Hr').
    split; [done|]. exists i', p', n', r'. split; [by right|]. split; [by right|done].
Qed.

Lemma add_cursor_ok w page c :
  well_keyed (cursors w) → (length (cursors w) ≤ 2048)%nat →
  well_keyed (cursors (add_cursor w page c)) ∧ (length (cursors (add_cursor w page c)) ≤ 2048)%nat.
Proof.
  intros Hk Hs. unfold add_cursor; cbn [cursors]. split.
  - apply map_set_well_keyed. case_match; auto with starnexus.
  - etrans; [apply map_set_length|]. destruct (Nat.leb_spec 2048 (length (cursors w))); [|lia].
    rewrite evict_oldest_length by done. lia.
Qed.

Lemma map_get_add_cursor w page c page' c' :
  map_get (cursors (add_cursor w page c)) page' = Some c' →
  (page' = page ∧ c' = c) ∨ map_get (cursors w) page' = Some c'.
Proof.
  unfold add_cursor; cbn [cursors]. rewrite map_get_set. case_decide as Hp; subst.
  - intros [= <-]. by left.
  - intros Hg. right. case_match; [by apply map_get_evict_Some|done].
Qed.

(** Either the response is ignored, or its window gains one cursor. *)
Lemma remember_cases s r c :
  remember s r c = s ∨
  ∃ w, store s !! req_window r = Some w ∧ 0 < c ∧
    map_get (windows s) (req_key r) = Some (req_window r) ∧
    remember s r c = {| windows := windows s;
      store := <[req_window r := add_cursor w (req_page r + 1) c]> (store s); next := next s |}.
Proof.
  unfold remember. destruct (negb _ || _) eqn:E; [by left|].
  apply orb_false_iff in E as [E1 E2]. reflect_bools.
  destruct (store s !! req_window r) as [w|]; [|by left]. right. eauto 10.
Qed.

Lemma inv_remember s h i p now r c :
  inv s h → Prepared i p now r ∈ h → inv (remember s r c) (Remembered r c :: h).
Proof.
  intros Hi Hr. pose proof Hi as [Hkey Hsz Hlive Hfresh Hcur Hprep Hown Hone Hdist Hdel].
  assert (Hin : ∀ i p now r', Prepared i p now r' ∈ Remembered r c :: h → Prepared i p now r' ∈ h)
    by (intros ? ? ? ? [?|?]%elem_of_cons; done).
  assert (Hkeep : ∀ ref w page c', store s !! ref = Some w → map_get (cursors w) page = Some c' →
    0 < c' ∧ ∃ i p now r', Prepared i p now r' ∈ Remembered r c :: h ∧
      Remembered r' c' ∈ Remembered r c :: h ∧ req_window r' = ref ∧ req_page r' + 1 = page).
  { intros ref w page c' H1 H2. destruct (Hdel _ _ _ _ H1 H2) as (Hc & i' & p' & n' & r' & Ha & Hb & Hd).
    split; [done|]. exists i', p', n', r'. split; [by right|]. split; [by right|done]. }
  destruct (remember_cases s r c) as [->|(w & Hw & Hc & Hg & ->)].
  { split; try done; intros; eauto using Hin. }
  split; cbn; try done.
  - intros k ref Hk. apply lookup_insert_is_Some'. right. eauto.
  - intros ref w'. rewrite lookup_insert_Some. intros [[<- _]|[_ Hl]]; eauto.
  - intros ref w'. rewrite lookup_insert_Some. intros [[<- <-]|[_ Hl]]; [|by eapply Hcur].
    by apply add_cursor_ok; eapply Hcur.
  - intros i' p' n' r' H%Hin. destruct (Hprep _ _ _ _ H) as (H1 & H2 & H3 & w' & H4 & H5).
    split; [done|]. split; [done|]. split; [done|].
    destruct (decide (req_window r' = req_window r)) as [He|Hne].
    + rewrite He, lookup_insert_eq. eexists. split; [done|]. rewrite He, Hw in H4. by simplify_eq.
    + rewrite lookup_insert_ne by done. eauto.
  - intros k ref i' p' n' r' Hk H%Hin Hrw. by eapply Hown.
  - intros i1 p1 n1 r1 i2 p2 n2 r2 H1%Hin H2%Hin. by eapply Hone.
  - intros ref w' page c'. rewrite lookup_insert_Some.
    intros [[<- <-]|[_ Hl]] Hpc; [|by eapply Hkeep].
    apply map_get_add_cursor in Hpc as [[-> ->]|Hpc]; [|by eapply Hkeep].
    split; [done|]. exists i, p, now, r. split; [by right|]. split; [by left|done].
Qed.

Lemma inv_step s h s' h' : inv s h → step (s, h) (s', h') → inv s' h'.
Proof.
  intros Hi Hs. inversion Hs as [? ? i p now ? r Hwf Hp|]; subst; [|by eapply inv_remember].
  destruct (prepare_cases _ _ _ _ _ _ Hp) as (Hk & Hpg & w & Hq & Hcase).
  destruct (param_request p w (page_of p) (size_of p)) as (H1 & H2 & _).
  rewrite <- Hq in H1, H2.
  destruct Hcase as [(-> & Hg & Hw & _ & _)|(-> & Hr & ->)].
  - by eapply inv_prepare_reuse.
  - by apply inv_prepare_open.
Qed.

Lemma run_inv s h : run (s, h) → inv s h.
Proof.
  intros Hr. change (inv (s, h).1 (s, h).2). revert Hr. generalize (s, h).
  apply (rtc_ind_r (λ x, inv x.1 x.2)); [apply inv_init|].
  intros [s1 h1] [s2 h2] _ Hs Hi. by eapply inv_step.
Qed.
End invariant.

(** ** The properties of the cursor pages *)

(** C38. Memory stays bounded whatever is requested: after any run there are
    at most 64 windows with distinct keys, and every window object, live or
    replaced, holds at most 2048 positive cursors, one per page. *)
Theorem cursor_pages_bounded lc s h :
  run lc (s, h) →
  (length (windows s) ≤ 64)%nat ∧ NoDup (map fst (windows s)) ∧
  ∀ ref w, store s !! ref = Some w →
    (length (cursors w) ≤ 2048)%nat ∧ NoDup (map fst (cursors w)) ∧
    ∀ page c, (page, c) ∈ cursors w → 0 < c.
Proof.
  intros Hi%run_inv. split; [by eapply inv_size|]. split; [by eapply inv_keyed|].
  intros ref w Hw. destruct (inv_cursors _ _ _ Hi _ _ Hw) as [Hk Hl].
  split; [done|]. split; [done|]. intros page c Hin.
  apply map_get_elem in Hin; [|done]. by eapply inv_delivered in Hin as [Hc _].
Qed.

Definition no_params : GetLogsParams := [].

Lemma no_params_wf : wf_params no_params.
Proof. split; [constructor|apply NoDup_nil_2]. Qed.

Lemma cursor_pages_bounded_witness :
  let x := prepare (λ _ _, 0) new_pages 1 no_params 1000 in
  run (λ _ _, 0) (x.1, [Prepared 1 no_params 1000 x.2]) ∧ (length (windows x.1) ≤ 64)%nat.
Proof.
  assert (Hr : run (λ _ _, 0) ((prepare (λ _ _, 0) new_pages 1 no_params 1000).1,
     [Prepared 1 no_params 1000 (prepare (λ _ _, 0) new_pages 1 no_params 1000).2])).
  { apply rtc_once. constructor; [apply no_params_wf|]. done. }
  split; [exact Hr|]. exact (proj1 (cursor_pages_bounded _ _ _ Hr)).
Defined.

(** C8. A cursor is only ever used where it belongs: when a request without
    a cursor of its own is sent with one, that cursor is positive and was
    delivered by the response to an earlier request of the same user, with
    the same page size and the same filters, for the page before, over the
    same time range. *)
Theorem cursor_provenance lc s h i p now s' r c :
  run lc (s, h) → wf_params p →
  prepare lc s i p now = (s', r) → before_id p = None →
  param (req_params r) (js "before_id") = Some (PNum c) →
  0 < c ∧ ∃ p0 now0 r0,
    Prepared i p0 now0 r0 ∈ h ∧ Remembered r0 c ∈ h
    ∧ page_of p0 + 1 = page_of p
    ∧ size_of p0 = size_of p ∧ filters_of p0 ≡ₚ filters_of p
    ∧ param (req_params r0) (js "start_timestamp") = param (req_params r) (js "start_timestamp")
    ∧ param (req_params r0) (js "end_timestamp") = param (req_params r) (js "end_timestamp").
Proof.
  intros Hi%run_inv Hwf Hp Hb Hc.
  destruct (prepare_cases _ _ _ _ _ _ _ Hp) as (Hk & Hpg & w & Hq & Hcase).
  destruct (param_request p w (page_of p) (size_of p)) as (Hst & Hen & Hbid & _).
  rewrite <- Hq in Hst, Hen, Hbid. rewrite Hbid in Hc. unfold cursor_for in Hc. rewrite Hb in Hc.
  destruct (map_get (cursors w) (page_of p)) as [c'|] eqn:Hg; simplify_eq/=.
  destruct Hcase as [(-> & Hlive & Hw & _ & _)|(_ & _ & ->)]; [|done].
  destruct (inv_delivered _ _ _ Hi _ _ _ _ Hw Hg) as (Hpos & i0 & p0 & n0 & r0 & Hp0 & Hr0 & Hwin & Hpage).
  split; [done|]. destruct (inv_prepared _ _ _ Hi _ _ _ _ Hp0) as (Hwf0 & Hk0 & Hpg0 & w0 & Hw0 & Hs0 & He0).
  pose proof (inv_owner _ _ _ Hi _ _ _ _ _ _ Hlive Hp0 Hwin) as Hown. rewrite Hk0 in Hown.
  apply window_key_inj in Hown as (-> & Hsz & Hf); [|done..].
  rewrite Hwin, Hw in Hw0. simplify_eq. exists p0, n0, r0.
  rewrite <- Hpg0, Hpage, Hs0, He0, Hst, Hen. done.
Qed.

(** Reopening a window makes the earlier requests for its key stale, for good. *)
Lemma stale_forever lc s h r s' h' i p now :
  inv lc s h → Prepared i p now r ∈ h → map_get (windows s) (req_key r) ≠ Some (req_window r) →
  rtc (step lc) (s, h) (s', h') →
  inv lc s' h' ∧ map_get (windows s') (req_key r) ≠ Some (req_window r).
Proof.
  intros Hi Hr Hn Hsteps. remember (s, h) as x eqn:Hx. remember (s', h') as y eqn:Hy.
  revert s h Hx Hi Hr Hn. induction Hsteps as [|x [s1 h1] y Hst Hrest IH]; intros s h -> Hi Hr Hn.
  - by simplify_eq.
  - apply (IH Hy s1 h1); [done|by eapply inv_step| |].
    + inversion Hst; subst; by right.
    + inversion Hst as [? ? i1 p1 n1 ? r1 Hwf1 Hp1|]; subst.
      * destruct (prepare_cases _ _ _ _ _ _ _ Hp1) as (_ & _ & w & _ & [(-> & _)|(-> & _)]); [done|].
        intros [[_ Hw]|[_ Hg]]%map_get_open; [|done].
        apply (prepared_lt _ _ _ _ _ _ _ Hi) in Hr. lia.
      * destruct (remember_cases s r0 c) as [->|(? & _ & _ & _ & ->)]; done.
Qed.

Lemma remember_stale s r c :
  map_get (windows s) (req_key r) ≠ Some (req_window r) → remember s r c = s.
Proof. intros Hn. unfold remember. by rewrite bool_decide_eq_false_2. Qed.

(** Late responses are ignored: once page one of a query has been
    requested again, the responses to all its earlier requests leave the
    object unchanged, however many requests and responses come between. *)
Theorem late_response_ignored lc s h i p now r i1 p1 now1 s1 r1 s2 h2 c :
  run lc (s, h) → Prepared i p now r ∈ h → wf_params p1 →
  prepare lc s i1 p1 now1 = (s1, r1) → window_key lc i1 p1 = req_key r → page_of p1 = 1 →
  rtc (step lc) (s1, Prepared i1 p1 now1 r1 :: h) (s2, h2) →
  remember s2 r c = s2.
Proof.
  intros Hi%run_inv Hr Hwf Hp Hkey Hpage Hsteps. apply remember_stale.
  assert (Hi1 : inv lc s1 (Prepared i1 p1 now1 r1 :: h)).
  { eapply inv_step; [exact Hi|by constructor]. }
  eapply (stale_forever lc s1 _ r s2 h2 i p now); [done|by right| |done].
  destruct (prepare_cases _ _ _ _ _ _ _ Hp) as (_ & _ & w & _ & [(_ & _ & _ & _ & Hn)|(-> & _)]); [done|].
  rewrite <- Hkey, map_get_open_eq. intros [= Hw].
  apply (prepared_lt _ _ _ _ _ _ _ Hi) in Hr. lia.
Qed.

(** Paging forward works: after the response to a page delivers a
    cursor, the request for the next page of the same query, made before the
    window expires, is sent with that cursor and with the time range of the
    first request, and opens no window. *)
Theorem next_page_uses_cursor lc s h i p now s1 r c i' p' now' :
  run lc (s, h) → wf_params p → prepare lc s i p now = (s1, r) → 0 < c →
  window_key lc i' p' = window_key lc i p → page_of p' = page_of p + 1 → page_of p' ≠ 1 →
  before_id p' = None → (∀ w, store s1 !! req_window r = Some w → now' < expires w) →
  let s2 := remember s1 r c in
  let x := prepare lc s2 i' p' now' in
  x.1 = s2
  ∧ param (req_params x.2) (js "before_id") = Some (PNum c)
  ∧ param (req_params x.2) (js "start_timestamp") = param (req_params r) (js "start_timestamp")
  ∧ param (req_params x.2) (js "end_timestamp") = param (req_params r) (js "end_timestamp").
Proof.
  intros Hi%run_inv Hwf Hp Hc Hkey Hpage Hp1 Hb Hexp. cbn zeta.
  assert (Hi1 : inv lc s1 (Prepared i p now r :: h)).
  { eapply inv_step; [exact Hi|by constructor]. }
  destruct (inv_prepared _ _ _ Hi1 i p now r) as (_ & Hk & Hpg & w & Hw & Hst & Hen); [by left|].
  assert (Hg : map_get (windows s1) (req_key r) = Some (req_window r)).
  { destruct (prepare_cases _ _ _ _ _ _ _ Hp) as (-> & _ & w' & _ & [(-> & Hg & _)|(-> & -> & _)]).
    - done.
    - apply map_get_open_eq. }
  specialize (Hexp w Hw).
  unfold remember. rewrite Hg, bool_decide_eq_true_2, Hw by done. replace (c <=? 0) with false by lia.
  cbn [negb orb]. unfold prepare, live_window. cbn [windows store]. rewrite Hkey, <- Hk, Hg.
  rewrite lookup_insert_eq. change (expires (add_cursor w (req_page r + 1) c)) with (expires w).
  replace ((expires w <=? now') || (page_of p' =? 1)) with false by lia. cbn [fst snd req_params].
  split; [done|]. set (w' := add_cursor w (req_page r + 1) c).
  destruct (param_request p' w' (page_of p') (size_of p')) as (Hst' & Hen' & Hbid & _).
  rewrite Hst', Hen', Hbid, Hst, Hen. split; [|done]. unfold cursor_for. rewrite Hb. unfold w', add_cursor; cbn [cursors].
  by rewrite Hpage, Hpg, map_get_set_eq.
Qed.

(** ** A concrete run: page one, its response, page two *)

Definition sample_params (page : Z) : GetLogsParams :=
  [(js "p", Some (PNum page)); (js "page_size", Some (PNum 50));
   (js "model_name", Some (PStr (js "gpt-4"))); (js "username", None)].

Lemma sample_params_wf page : wf_params (sample_params page).
Proof.
  split; [|apply (bool_decide_unpack _); by_eval].
  assert (Hf : filters_of (sample_params page) =
    [(js "page_size", PNum 50); (js "model_name", PStr (js "gpt-4"))]) by by_eval.
  rewrite Hf. repeat (constructor; [split; cbn [wf_pval fst snd]|]); try done;
    apply Forall_forall; intros c Hc; repeat (apply elem_of_cons in Hc as [->|Hc];
      [unfold code_unit; vm_compute; intuition congruence|]); by apply elem_of_nil in Hc.
Qed.

Definition page1 := prepare units_compare new_pages 7 (sample_params 1) 1700000000000.
Definition after1 : LogCursorPages := remember page1.1 page1.2 4242.
Definition history1 : list event :=
  [Remembered page1.2 4242; Prepared 7 (sample_params 1) 1700000000000 page1.2].

Lemma sample_run0 : run units_compare (page1.1, [Prepared 7 (sample_params 1) 1700000000000 page1.2]).
Proof. apply rtc_once, step_prepare; [apply sample_params_wf|apply surjective_pairing]. Qed.

Lemma sample_run1 : run units_compare (after1, history1).
Proof.
  eapply rtc_r; [apply sample_run0|]. eapply step_remember. by left.
Qed.

Lemma cursor_provenance_witness :
  let x := prepare units_compare after1 7 (sample_params 2) 1700000060000 in
  param (req_params x.2) (js "before_id") = Some (PNum 4242) ∧
  ∃ p0 now0 r0, Prepared 7 p0 now0 r0 ∈ history1 ∧ page_of p0 + 1 = 2.
Proof.
  assert (Hb : param (req_params (prepare units_compare after1 7 (sample_params 2) 1700000060000).2)
    (js "before_id") = Some (PNum 4242)) by by_eval.
  split; [exact Hb|].
  destruct (cursor_provenance units_compare after1 history1 7 (sample_params 2) 1700000060000
    _ _ 4242 sample_run1 (sample_params_wf 2) (surjective_pairing _) eq_refl Hb)
    as (_ & p0 & now0 & r0 & Hp & _ & Hpage & _).
  exists p0, now0, r0. split; [exact Hp|exact Hpage].
Defined.

Lemma late_response_ignored_witness :
  let x := prepare units_compare after1 7 (sample_params 1) 1700000060000 in
  remember x.1 page1.2 99 = x.1.
Proof.
  eapply (late_response_ignored units_compare after1 history1 7 (sample_params 1) 1700000000000 page1.2
    7 (sample_params 1) 1700000060000 _ _ _ _ 99 sample_run1).
  - right. left.
  - apply sample_params_wf.
  - apply surjective_pairing.
  - by_eval.
  - by_eval.
  - apply rtc_refl.
Defined.

Lemma next_page_uses_cursor_witness :
  let x := prepare units_compare (remember page1.1 page1.2 4242) 7 (sample_params 2) 1700000060000 in
  param (req_params x.2) (js "before_id") = Some (PNum 4242).
Proof.
  refine (proj1 (proj2 (next_page_uses_cursor units_compare new_pages [] 7 (sample_params 1) 1700000000000
    page1.1 page1.2 4242 7 (sample_params 2) 1700000060000 (rtc_refl _ _) (sample_params_wf 1)
    (surjective_pairing _) _ _ _ _ _ _))); try by_eval; try done.
  assert (Hs : store page1.1 !! req_window page1.2 =
    Some {| cursors := []; start := 1696112000; end_ := 1700000000; expires := 1700001800000 |}) by by_eval.
  intros w. rewrite Hs. intros [= <-]. by_eval.
Defined.

(** ** The key does not depend on the order of the fields *)

Section key_order.
(** Documented behaviour of [localeCompare]: its sign orders the strings. *)
Context (lc : jstr → jstr → Z).
Hypothesis lc_total : ∀ a b, lc a b ≤ 0 ∨ lc b a ≤ 0.
Hypothesis lc_trans : ∀ a b c, lc a b ≤ 0 → lc b c ≤ 0 → lc a c ≤ 0.

Lemma filters_of_names p e : e ∈ filters_of p → e.1 ∈ map fst p.
Proof.
  unfold filters_of. rewrite list_elem_of_omap. intros ([k [v|]] & Hin & He); [|done].
  cbn in He. case_match; simplify_eq/=. apply list_elem_of_fmap. by exists (k, Some v).
Qed.

Lemma filters_of_functional p k v w :
  NoDup (map fst p) → (k, v) ∈ filters_of p → (k, w) ∈ filters_of p → v = w.
Proof.
  intros Hnd. unfold filters_of. rewrite !list_elem_of_omap.
  intros ([k1 [v1|]] & H1 & E1) ([k2 [v2|]] & H2 & E2); try done.
  cbn in E1, E2. repeat case_match; simplify_eq/=.
  pose proof (map_get_elem p _ _ Hnd H1) as G1. pose proof (map_get_elem p _ _ Hnd H2) as G2.
  congruence.
Qed.

(** Two parameter objects with the same page size and the same defined
    filters, in whatever order and with whatever undefined fields, share
    their window, as long as [localeCompare] tells their field names apart. *)
Theorem window_key_order_independent i p1 p2 :
  NoDup (map fst p1) →
  (∀ a b, a ∈ map fst p1 → b ∈ map fst p1 → lc a b ≤ 0 → lc b a ≤ 0 → a = b) →
  size_of p1 = size_of p2 → filters_of p1 ≡ₚ filters_of p2 →
  window_key lc i p1 = window_key lc i p2.
Proof.
  intros Hnd Hanti Hsz Hf. unfold window_key. rewrite Hsz. f_equal.
  assert (Htr : Transitive (λ a b, entry_le lc a b = true)).
  { intros a b c. unfold entry_le. rewrite !Z.leb_le. apply lc_trans. }
  assert (Htot : ∀ a b, entry_le lc a b = true ∨ entry_le lc b a = true).
  { intros a b. unfold entry_le. rewrite !Z.leb_le. apply lc_total. }
  apply (StronglySorted_unique_strong (λ a b, entry_le lc a b = true)).
  - intros [k1 v1] [k2 v2] H1%elem_of_stable_sort H2%elem_of_stable_sort Ha Hb.
    unfold entry_le in Ha, Hb. apply Z.leb_le in Ha, Hb. rewrite <- Hf in H2.
    assert (k1 = k2) as ->.
    { apply Hanti; [by apply (filters_of_names p1 (k1, v1))|
                    by apply (filters_of_names p1 (k2, v2))|done|done]. }
    f_equal. by eapply filters_of_functional.
  - by apply Sorted_StronglySorted, stable_sort_sorted.
  - by apply Sorted_StronglySorted, stable_sort_sorted.
  - by rewrite !stable_sort_Permutation.
Qed.
End key_order.

Lemma window_key_order_independent_witness :
  window_key units_compare 7 (sample_params 1) = window_key units_compare 7 (rev (sample_params 3)).
Proof.
  apply (window_key_order_independent units_compare units_compare_total units_compare_trans).
  - apply (sample_params_wf 1).
  - intros a b _ _. apply units_compare_antisym.
  - by_eval.
  - assert (H1 : filters_of (sample_params 1) =
      [(js "page_size", PNum 50); (js "model_name", PStr (js "gpt-4"))]) by by_eval.
    assert (H3 : filters_of (rev (sample_params 3)) =
      [(js "model_name", PStr (js "gpt-4")); (js "page_size", PNum 50)]) by by_eval.
    rewrite H1, H3. apply Permutation_swap.
Defined.
