(* ===== verification/ChannelUtils.v ===== *)
(** * Channel utilities

    Model of [web/default/src/features/channels/lib/channel-utils.ts]: masking
    and counting keys, model and group lists, the attention flags, the
    aggregation of channels by tag and the removal of duplicate keys. The
    arithmetic is an interface with binary64 as the program's instance;
    [localeCompare] is a parameter. *)

From Stdlib Require Import String SpecFloat.
From S2P Require Import JsJson JsMap.

(** ** Arithmetic *)

Class Arith (N : Type) := {
  n_of_Z : Z → N;
  n_add : N → N → N;
  n_mul : N → N → N;
  n_div : N → N → N;
  n_ltb : N → N → bool;
}.

(** The program's numbers. *)
#[export] Instance binary64 : Arith jsnum := {|
  n_of_Z := num_of_Z;
  n_add := SFadd prec64 emax64;
  n_mul := SFmul prec64 emax64;
  n_div := SFdiv prec64 emax64;
  n_ltb := num_lt;
|}.

(** ** The data *)

(** A [number | null | undefined] field. *)
Inductive nullish := Num (n : Z) | Null | Undefined.

#[export] Instance nullish_eq_dec : EqDecision nullish.
Proof. solve_decision. Defined.

Record ChannelInfo := {
  is_multi_key : bool;
  multi_key_size : Z;
  multi_key_status_list : option (list (jstr * Z));
}.

(** The fields the functions read; [rest] stands for the others, which are
    only copied. *)
Record Channel {N : Type} := {
  id : Z;
  type : Z;
  key : jstr;
  status : Z;
  name : jstr;
  weight : nullish;
  created_time : Z;
  test_time : Z;
  response_time : N;
  balance : N;
  balance_updated_time : Z;
  models : jstr;
  group : jstr;
  used_quota : N;
  priority : nullish;
  tag : option jstr;
  channel_info : option ChannelInfo;
  rest : list (jstr * json);
}.
Arguments Channel N : clear implicits.

(** ** Keys *)

Definition isChannelEnabled {N} (channel : Channel N) : bool := status channel =? 1.

Definition isMultiKeyChannel {N} (channel : Channel N) : bool :=
  match channel_info channel with Some i => is_multi_key i | None => false end.

(** [key.split('\n').filter((k) => k.trim())] *)
Definition key_lines (k : jstr) : list jstr :=
  filterb (λ l, nonempty (trim l)) (split_char c_nl k).

Definition formatChannelKey (k : jstr) (isMultiKey : bool) : jstr :=
  if negb (nonempty k) then []
  else if isMultiKey then string_of_Z (Z.of_nat (length (key_lines k))) ++ js " keys"
  else if (length k <=? 16)%nat then slice 0 4 k ++ js "..." ++ slice_last 4 k
  else slice 0 8 k ++ js "..." ++ slice_last 8 k.

Definition formatKeyPreview (k : jstr) (maxLength : nat) : jstr :=
  if negb (nonempty k) then []
  else if (length k <=? maxLength)%nat then k
  else slice 0 maxLength k ++ js "...".

Definition countKeys (k : jstr) : Z :=
  if negb (nonempty k) then 0 else Z.of_nat (length (key_lines k)).

(** ** Lists *)

Definition parseModelsList (ms : jstr) : list jstr :=
  if negb (nonempty ms) then [] else trimmed_parts c_comma ms.

Definition formatModelsString (ms : list jstr) : jstr := join (js ",") ms.
Definition formatGroupsString (gs : list jstr) : jstr := join (js ",") gs.

Section groups.
Context (localeCompare : jstr → jstr → Z).

(** [compare(a, b) <= 0] *)
Definition group_le (a b : jstr) : bool :=
  if bool_decide (a = js "default") then true
  else if bool_decide (b = js "default") then false
  else localeCompare a b <=? 0.

Definition parseGroupsList (gs : jstr) : list jstr :=
  if negb (nonempty gs) then [] else stable_sort group_le (trimmed_parts c_comma gs).

Definition validateGroups (gs : jstr) : bool := (0 <? length (parseGroupsList gs))%nat.
End groups.

Definition validateChannelName (n : jstr) : bool := (0 <? length (trim n))%nat.
Definition validateApiKey (k : jstr) : bool := (0 <? length (trim k))%nat.
Definition validateModels (ms : jstr) : bool := (0 <? length (parseModelsList ms))%nat.

(** ** Settings *)

(** [None] stands for [null] and [undefined]. *)
Definition parseChannelSettings (settingStr : option jstr) : json :=
  match settingStr with
  | None | Some [] => JObj []
  | Some s => default (JObj []) (json_parse s)
  end.

Definition parseChannelOtherSettings (settingsStr : option jstr) : json :=
  match settingsStr with
  | None | Some [] => JObj []
  | Some s => if bool_decide (s = js "{}") then JObj [] else default (JObj []) (json_parse s)
  end.

Definition validateChannelSettings (settings : jstr) : bool :=
  if negb (nonempty settings) || negb (nonempty (trim settings)) then true
  else match json_parse settings with Some _ => true | None => false end.

(** ** Attention *)

Section attention.
Context {N : Type} `{!Arith N}.

Definition low_balance (channel : Channel N) : bool :=
  n_ltb (n_of_Z 0) (balance channel) && n_ltb (balance channel) (n_of_Z 1).

Definition all_keys_disabled (channel : Channel N) : bool :=
  match channel_info channel with
  | Some i =>
      is_multi_key i &&
      match multi_key_status_list i with
      | Some l => multi_key_size i <=? Z.of_nat (length (own_keys l))
      | None => false
      end
  | None => false
  end.

Definition channelNeedsAttention (channel : Channel N) : bool :=
  if status channel =? 3 then true
  else if low_balance channel then true
  else if all_keys_disabled channel then true
  else false.

Definition getAttentionReason (channel : Channel N) : option jstr :=
  if status channel =? 3 then Some (js "Auto-disabled")
  else if low_balance channel then Some (js "Low balance")
  else if all_keys_disabled channel then Some (js "All keys disabled")
  else None.
End attention.

(** ** Aggregation by tag *)

(** A tag row: the fields of the aggregate, those copied from the first
    channel of the tag, and the channels. The row's [id], [key], [tag] and
    [name] are the tag. *)
Record TagRow {N : Type} := {
  row_tag : jstr;
  row_type : Z;
  row_status : option Z;
  row_group : jstr;
  row_used_quota : N;
  row_response_time : N;
  row_priority : nullish;
  row_weight : nullish;
  row_balance : N;
  row_test_time : Z;
  row_created_time : Z;
  row_balance_updated_time : Z;
  row_models : jstr;
  row_channel_info : option ChannelInfo;
  row_rest : list (jstr * json);
  children : list (Channel N);
}.
Arguments TagRow N : clear implicits.

Section tags.
Context {N : Type} `{!Arith N}.

Definition new_tag_row (t : jstr) (channel : Channel N) : TagRow N :=
  {| row_tag := t; row_type := 0; row_status := None; row_group := [];
     row_used_quota := n_of_Z 0; row_response_time := n_of_Z 0;
     row_priority := Num (-1); row_weight := Num (-1);
     row_balance := n_of_Z 0; row_test_time := 0; row_created_time := 0;
     row_balance_updated_time := 0; row_models := [];
     row_channel_info := channel_info channel; row_rest := rest channel;
     children := [] |}.

(** The shared value, [null] once two differ; [-1] means not set yet. *)
Definition merge_value (acc v : nullish) : nullish :=
  if bool_decide (acc = Num (-1)) then v
  else if negb (bool_decide (acc = v)) then Null
  else acc.

(** [s.split(',').filter(Boolean)] *)
Definition comma_items (s : jstr) : list jstr := filterb nonempty (split_char c_comma s).

Definition merge_group (acc g : jstr) : jstr :=
  match acc with
  | [] => g
  | _ =>
      let existingGroups := js_set (comma_items acc) in
      foldl (λ a x, if bool_decide (x ∈ existingGroups) then a else a ++ js "," ++ x)
            acc (comma_items g)
  end.

Definition merge_status (acc : option Z) (s : Z) : option Z :=
  if s =? 1 then Some 1 else match acc with None => Some s | Some _ => acc end.

(** The body of the loop on the row of the channel's tag. *)
Definition add_child (r : TagRow N) (channel : Channel N) : TagRow N :=
  let cs := children r ++ [channel] in
  let childCount := Z.of_nat (length cs) in
  {| row_tag := row_tag r; row_type := row_type r;
     row_status := merge_status (row_status r) (status channel);
     row_group := merge_group (row_group r) (group channel);
     row_used_quota := n_add (row_used_quota r) (used_quota channel);
     row_response_time :=
       n_div (n_add (n_mul (row_response_time r) (n_of_Z (childCount - 1))) (response_time channel))
             (n_of_Z childCount);
     row_priority := merge_value (row_priority r) (priority channel);
     row_weight := merge_value (row_weight r) (weight channel);
     row_balance := row_balance r; row_test_time := row_test_time r;
     row_created_time := row_created_time r;
     row_balance_updated_time := row_balance_updated_time r;
     row_models := row_models r; row_channel_info := row_channel_info r;
     row_rest := row_rest r; children := cs |}.

(** [channel.tag || ''] *)
Definition tag_of (channel : Channel N) : jstr := default [] (tag channel).

(** One round; the rows live in [tagMap], and [result] holds the same
    objects in the order of their creation, the order of the map. *)
Definition tag_step (tagMap : list (jstr * TagRow N)) (channel : Channel N)
    : list (jstr * TagRow N) :=
  let t := tag_of channel in
  let r := match map_get tagMap t with Some r => r | None => new_tag_row t channel end in
  map_set tagMap t (add_child r channel).

Definition aggregateChannelsByTag (channels : list (Channel N)) : list (TagRow N) :=
  map snd (foldl tag_step [] channels).
End tags.

(** ** Duplicate keys *)

Record DedupResult := {
  deduplicatedText : jstr;
  beforeCount : Z;
  afterCount : Z;
  removedCount : Z;
}.

(** The loop over the lines; the set and the array hold the same strings. *)
Definition dedup_step (acc : list jstr) (line : jstr) : list jstr :=
  let trimmedLine := trim line in
  if nonempty trimmedLine && negb (bool_decide (trimmedLine ∈ acc)) then acc ++ [trimmedLine]
  else acc.

Definition deduplicateKeys (keysText : jstr) : DedupResult :=
  if negb (nonempty keysText) || negb (nonempty (trim keysText)) then
    {| deduplicatedText := []; beforeCount := 0; afterCount := 0; removedCount := 0 |}
  else
    let keyLines := split_char c_nl keysText in
    let ks := foldl dedup_step [] keyLines in
    {| deduplicatedText := join [c_nl] ks;
       beforeCount := Z.of_nat (length keyLines);
       afterCount := Z.of_nat (length ks);
       removedCount := Z.of_nat (length keyLines) - Z.of_nat (length ks) |}.
