(* ===== verification/ChannelUtilsProps.v ===== *)
(** * Channel utilities: properties

    The rows of the tag view partition the channels and summarise them; the
    key and group helpers keep what they promise. *)

From Stdlib Require Import String QArith Qcanon.
From S2P Require Import JsJson JsMap ChannelUtils.
#[local] Open Scope Z_scope.

(** ** The tag rows as functions of the channels of a tag *)

Section rows.
Context {N : Type} `{!Arith N}.
Implicit Types (c : Channel N) (cs channels : list (Channel N)) (r : TagRow N).

Definition tagged (t : jstr) cs : list (Channel N) :=
  filterb (λ c, bool_decide (tag_of c = t)) cs.

Definition row_for (t : jstr) cs : option (TagRow N) :=
  match cs with
  | [] => None
  | c :: _ => Some (foldl add_child (new_tag_row t c) cs)
  end.

Lemma row_for_snoc t cs c :
  row_for t (cs ++ [c]) = Some (add_child (default (new_tag_row t c) (row_for t cs)) c).
Proof. destruct cs as [|c0 cs]; [done|]. cbn. by rewrite foldl_app. Qed.

Lemma tagged_snoc t cs c :
  tagged t (cs ++ [c]) = if decide (tag_of c = t) then tagged t cs ++ [c] else tagged t cs.
Proof.
  unfold tagged, filterb. rewrite List.filter_app. cbn. case_decide as Ht.
  - by rewrite bool_decide_eq_true_2.
  - by rewrite bool_decide_eq_false_2, app_nil_r.
Qed.

Lemma tag_rows_get channels t :
  map_get (foldl tag_step [] channels) t = row_for t (tagged t channels).
Proof.
  induction channels as [|c channels IH] using rev_ind; [done|].
  rewrite foldl_snoc, tagged_snoc. unfold tag_step at 1. rewrite map_get_set.
  case_decide as Ht; [|exact IH]. subst t. rewrite row_for_snoc, <- IH. by destruct (map_get _ _).
Qed.

Lemma tag_rows_keys channels : map fst (foldl tag_step [] channels) = js_set (map tag_of channels).
Proof.
  unfold js_set, js_set_from.
  induction channels as [|c channels IH] using rev_ind; [done|].
  rewrite foldl_snoc, map_app, foldl_app. cbn [map foldl]. unfold tag_step at 1.
  by rewrite map_set_keys, IH.
Qed.

Lemma tag_rows_well_keyed channels : well_keyed (foldl tag_step [] channels).
Proof. unfold well_keyed. rewrite tag_rows_keys. apply NoDup_js_set. Qed.

Lemma row_tag_foldl r cs : row_tag (foldl add_child r cs) = row_tag r.
Proof. revert r; induction cs as [|c cs IH]; intros r; [done|]. cbn. by rewrite IH. Qed.

Lemma children_foldl r cs : children (foldl add_child r cs) = children r ++ cs.
Proof.
  revert r; induction cs as [|c cs IH]; intros r; cbn; [by rewrite app_nil_r|].
  rewrite IH. cbn. by rewrite <- app_assoc.
Qed.

(** A row of the result is the row of its tag. *)
Lemma aggregate_row channels r :
  r ∈ aggregateChannelsByTag channels ↔
  ∃ t c cs, tagged t channels = c :: cs ∧ r = foldl add_child (new_tag_row t c) (c :: cs).
Proof.
  unfold aggregateChannelsByTag. rewrite list_elem_of_fmap. split.
  - intros ([t r'] & -> & Hin). apply map_get_elem in Hin; [|apply tag_rows_well_keyed].
    rewrite tag_rows_get in Hin. destruct (tagged t channels) as [|c cs] eqn:E; simplify_eq/=.
    exists t, c, cs. done.
  - intros (t & c & cs & E & ->). exists (t, foldl add_child (new_tag_row t c) (c :: cs)).
    split; [done|]. apply map_get_Some_elem. by rewrite tag_rows_get, E.
Qed.

Lemma aggregate_tags channels :
  map row_tag (aggregateChannelsByTag channels) = js_set (map tag_of channels).
Proof.
  rewrite <- tag_rows_keys. unfold aggregateChannelsByTag. rewrite map_map.
  apply map_ext_in. intros [t r] Hin%list_elem_of_In.
  apply map_get_elem in Hin; [|apply tag_rows_well_keyed]. rewrite tag_rows_get in Hin.
  destruct (tagged t channels); simplify_eq/=. by rewrite row_tag_foldl.
Qed.

Lemma aggregate_row_children channels r :
  r ∈ aggregateChannelsByTag channels →
  children r = tagged (row_tag r) channels ∧ children r ≠ [] ∧
  ∃ c cs, children r = c :: cs ∧ r = foldl add_child (new_tag_row (row_tag r) c) (children r).
Proof.
  intros (t & c & cs & E & ->)%aggregate_row.
  rewrite children_foldl, row_tag_foldl. cbn [children row_tag new_tag_row app].
  rewrite E. eauto 10.
Qed.
End rows.

(** The tag view loses and invents nothing: there is one row per tag
    (untagged channels share the empty tag), in the order in which the tags
    first occur, and the channels of a row are exactly the channels with its
    tag, in their order. *)
Theorem aggregateChannelsByTag_partition {N} `{!Arith N} (channels : list (Channel N)) :
  let rows := aggregateChannelsByTag channels in
  map row_tag rows = js_set (map tag_of channels)
  ∧ (∀ r, r ∈ rows → children r ≠ [] ∧ children r = tagged (row_tag r) channels)
  ∧ (∀ c, c ∈ channels → ∃ r, r ∈ rows ∧ row_tag r = tag_of c ∧ c ∈ children r).
Proof.
  cbn zeta. split; [apply aggregate_tags|]. split.
  - intros r (H1 & H2 & _)%aggregate_row_children. done.
  - intros c Hc. assert (Ht : tag_of c ∈ map row_tag (aggregateChannelsByTag channels)).
    { rewrite aggregate_tags, elem_of_js_set. apply list_elem_of_fmap. eauto. }
    apply list_elem_of_fmap in Ht as (r & Hr & Hin). exists r. split; [done|]. split; [done|].
    destruct (aggregate_row_children _ _ Hin) as (-> & _). apply elem_of_filterb.
    split; [done|]. apply bool_decide_eq_true. congruence.
Qed.

(** ** What the rows display *)

Section summaries.
Context {N : Type} `{!Arith N}.
Implicit Types (c : Channel N) (cs : list (Channel N)) (r : TagRow N).

Lemma row_used_quota_foldl r cs :
  row_used_quota (foldl add_child r cs) = foldl n_add (row_used_quota r) (map used_quota cs).
Proof. revert r; induction cs as [|c cs IH]; intros r; [done|]. cbn. by rewrite IH. Qed.

Lemma row_status_foldl r cs :
  row_status (foldl add_child r cs) = foldl merge_status (row_status r) (map status cs).
Proof. revert r; induction cs as [|c cs IH]; intros r; [done|]. cbn. by rewrite IH. Qed.

Lemma row_priority_foldl r cs :
  row_priority (foldl add_child r cs) = foldl merge_value (row_priority r) (map priority cs).
Proof. revert r; induction cs as [|c cs IH]; intros r; [done|]. cbn. by rewrite IH. Qed.

Lemma row_weight_foldl r cs :
  row_weight (foldl add_child r cs) = foldl merge_value (row_weight r) (map weight cs).
Proof. revert r; induction cs as [|c cs IH]; intros r; [done|]. cbn. by rewrite IH. Qed.

Lemma row_group_foldl r cs :
  row_group (foldl add_child r cs) = foldl merge_group (row_group r) (map group cs).
Proof. revert r; induction cs as [|c cs IH]; intros r; [done|]. cbn. by rewrite IH. Qed.
End summaries.

(** Enabled as soon as one is; otherwise the first status. *)
Lemma merge_status_enabled s ss : 1 ∈ ss → foldl merge_status s ss = Some 1.
Proof.
  assert (H1 : ∀ ss, foldl merge_status (Some 1) ss = Some 1).
  { induction ss0 as [|x l IH]; [done|]. cbn. unfold merge_status at 2. by case_match. }
  revert s; induction ss as [|x ss IH]; intros s Hin; [set_solver|]. cbn.
  apply elem_of_cons in Hin as [<-|Hin]; [apply H1|by apply IH].
Qed.

Lemma merge_status_first x ss : 1 ∉ x :: ss → foldl merge_status None (x :: ss) = Some x.
Proof.
  intros Hn. cbn. assert (Hx : merge_status None x = Some x).
  { unfold merge_status. case_match; [|done]. set_solver by lia. }
  rewrite Hx. assert (Hss : 1 ∉ ss) by set_solver. clear Hn Hx.
  induction ss as [|y ss IH]; [done|]. cbn. unfold merge_status at 2.
  destruct (Z.eqb_spec y 1) as [->|]; [set_solver|]. apply IH. set_solver.
Qed.

(** The value all agree on, else [null]; values [-1] before the first other
    one do not count. *)
Fixpoint agreed_value (vs : list nullish) : nullish :=
  match vs with
  | [] => Num (-1)
  | v :: vs' =>
      if bool_decide (v = Num (-1)) then agreed_value vs'
      else if bool_decide (Forall (eq v) vs') then v else Null
  end.

Lemma merge_value_set v vs :
  v ≠ Num (-1) → foldl merge_value v vs = if bool_decide (Forall (eq v) vs) then v else Null.
Proof.
  assert (Hnull : ∀ vs, foldl merge_value Null vs = Null).
  { induction vs0 as [|x l IH]; [done|]. cbn. unfold merge_value at 2. by repeat case_match. }
  intros Hv. induction vs as [|x vs IH]; [done|]. cbn. unfold merge_value at 2.
  rewrite (bool_decide_eq_false_2 (v = Num (-1))) by done.
  destruct (decide (v = x)) as [<-|Hne].
  - rewrite bool_decide_eq_true_2 by done. cbn. rewrite IH.
    apply f_equal with (f := λ b : bool, if b then v else Null), bool_decide_ext. rewrite Forall_cons. tauto.
  - rewrite bool_decide_eq_false_2 by done. cbn. rewrite Hnull.
    rewrite bool_decide_eq_false_2; [done|]. rewrite Forall_cons. tauto.
Qed.

Lemma merge_value_agreed vs : foldl merge_value (Num (-1)) vs = agreed_value vs.
Proof.
  induction vs as [|v vs IH]; [done|]. cbn. replace (merge_value (Num (-1)) v) with v by done.
  destruct (decide (v = Num (-1))) as [->|Hv].
  - by rewrite bool_decide_eq_true_2.
  - rewrite bool_decide_eq_false_2 by done. by apply merge_value_set.
Qed.

(** ** Groups of a row *)

Lemma comma_items_snoc acc x :
  c_comma ∉ x → x ≠ [] → comma_items (acc ++ js "," ++ x) = comma_items acc ++ [x].
Proof.
  intros Hx Hne. unfold comma_items. change (js "," ++ x) with (c_comma :: x).
  rewrite split_char_app_sep, (split_char_no_sep _ x) by done. unfold filterb.
  rewrite List.filter_app. cbn. by destruct x.
Qed.

Lemma comma_items_pieces s x : x ∈ comma_items s → (c_comma ∉ x) ∧ x ≠ [].
Proof.
  intros [Hx Hne]%elem_of_filterb. apply nonempty_true in Hne. split; [|done].
  pose proof (split_char_pieces c_comma s) as Hp. rewrite Forall_forall in Hp. by apply Hp.
Qed.

Lemma merge_group_items acc g x :
  x ∈ comma_items (merge_group acc g) ↔ x ∈ comma_items acc ∨ x ∈ comma_items g.
Proof.
  unfold merge_group. destruct acc as [|c acc']; [set_solver|]. set (acc := c :: acc').
  assert (Hex : ∀ y, y ∈ js_set (comma_items acc) ↔ y ∈ comma_items acc) by (intros; apply elem_of_js_set).
  set (existing := js_set (comma_items acc)) in *.
  assert (Hg : ∀ l a, Forall (λ y, (c_comma ∉ y) ∧ y ≠ []) l →
    (∀ y, y ∈ comma_items acc → y ∈ comma_items a) →
    x ∈ comma_items (foldl (λ a y, if bool_decide (y ∈ existing) then a else a ++ js "," ++ y) a l)
    ↔ x ∈ comma_items a ∨ x ∈ l).
  { intros l a Hl. revert a; induction Hl as [|y l [Hc Hne] Hl IH]; intros a Ha; cbn [foldl]; [set_solver|].
    destruct (bool_decide (y ∈ existing)) eqn:Hb; reflect_bools.
    - rewrite IH by done. apply Hex, Ha in Hb. set_solver.
    - rewrite IH; rewrite comma_items_snoc by done; set_solver. }
  apply Hg; [|done]. apply Forall_forall. intros y. apply comma_items_pieces.
Qed.

Lemma merge_groups_items acc gs x :
  x ∈ comma_items (foldl merge_group acc gs) ↔
  x ∈ comma_items acc ∨ ∃ g, g ∈ gs ∧ x ∈ comma_items g.
Proof.
  revert acc; induction gs as [|g gs IH]; intros acc; cbn [foldl].
  - set_solver.
  - rewrite IH, merge_group_items. setoid_rewrite elem_of_cons. naive_solver.
Qed.

(** What a tag row shows is determined by its channels: the sum of the
    used quotas, enabled exactly when a channel is enabled and otherwise the
    status of the first channel, the union of the groups, and the priority
    and weight its channels agree on. *)
Theorem aggregateChannelsByTag_summary {N} `{!Arith N} (channels : list (Channel N)) r :
  r ∈ aggregateChannelsByTag channels →
  row_used_quota r = foldl n_add (n_of_Z 0) (map used_quota (children r))
  ∧ (row_status r = Some 1 ↔ ∃ c, c ∈ children r ∧ status c = 1)
  ∧ ((∀ c, c ∈ children r → status c ≠ 1) → row_status r = head (map status (children r)))
  ∧ (∀ g, g ∈ comma_items (row_group r) ↔ ∃ c, c ∈ children r ∧ g ∈ comma_items (group c))
  ∧ row_priority r = agreed_value (map priority (children r))
  ∧ row_weight r = agreed_value (map weight (children r)).
Proof.
  intros (_ & _ & c0 & cs & Hch & Hr)%aggregate_row_children.
  assert (Hs : row_status r = foldl merge_status None (map status (children r)))
    by by rewrite Hr at 1; rewrite row_status_foldl.
  assert (Hin : 1 ∈ map status (children r) ↔ ∃ c, c ∈ children r ∧ status c = 1)
    by (rewrite list_elem_of_fmap; naive_solver).
  assert (Hno : 1 ∉ map status (children r) → row_status r = head (map status (children r))).
  { intros Hn. rewrite Hs. rewrite Hch in *. by apply merge_status_first. }
  split; [by rewrite Hr at 1; rewrite row_used_quota_foldl|].
  split; [|split; [|split; [|split]]].
  - rewrite <- Hin. split; [|rewrite Hs; apply merge_status_enabled].
    intros H1. destruct (decide (1 ∈ map status (children r))) as [|Hn]; [done|].
    rewrite Hno, Hch in H1 by done. injection H1 as H1. rewrite Hch, <- H1. by left.
  - intros Hall. apply Hno. rewrite Hin. naive_solver.
  - intros g. rewrite Hr at 1. rewrite row_group_foldl, merge_groups_items. cbn [row_group new_tag_row].
    setoid_rewrite list_elem_of_fmap. split; [|naive_solver].
    intros [H|H]; [by apply elem_of_nil in H|naive_solver].
  - rewrite Hr at 1. by rewrite row_priority_foldl, merge_value_agreed.
  - rewrite Hr at 1. by rewrite row_weight_foldl, merge_value_agreed.
Qed.

Definition sample_channel (i : Z) (t g : jstr) (s p rt : Z) : Channel jsnum :=
  {| id := i; type := 1; key := []; status := s; name := js "c"; weight := Null; created_time := 0;
     test_time := 0; response_time := num_of_Z rt; balance := num_of_Z 0; balance_updated_time := 0;
     models := []; group := g; used_quota := num_of_Z (10 * i); priority := Num p; tag := Some t;
     channel_info := None; rest := [] |}.

Definition sample_channels : list (Channel jsnum) :=
  [sample_channel 1 (js "a") (js "default,vip") 2 5 100;
   sample_channel 2 (js "b") (js "vip") 1 5 200;
   sample_channel 3 (js "a") (js "vip,svip") 1 5 300].

Lemma aggregateChannelsByTag_summary_witness :
  ∃ r, head (aggregateChannelsByTag sample_channels) = Some r ∧ row_group r = js "default,vip,svip" ∧
    row_priority r = agreed_value (map priority (children r)).
Proof.
  destruct (aggregateChannelsByTag sample_channels) as [|r rows] eqn:E; [by vm_compute in E|].
  exists r. split; [reflexivity|]. split.
  - assert (Hr : head (aggregateChannelsByTag sample_channels) = Some r) by (rewrite E; reflexivity).
    vm_compute in Hr. injection Hr as <-. by_eval.
  - apply (aggregateChannelsByTag_summary sample_channels r). rewrite E. by left.
Defined.

(** A channel of priority -1 is not taken into account by a later one. *)
Example priority_minus_one_ignored :
  agreed_value [Num (-1); Num 5] = Num 5 ∧ agreed_value [Num 5; Num (-1)] = Null.
Proof. split; by_eval. Qed.

(** Groups repeated inside one channel are not removed from its row. *)
Example group_duplicates_kept :
  map row_group (aggregateChannelsByTag [sample_channel 1 (js "a") (js "x,x") 1 0 0;
                                         sample_channel 2 (js "a") (js "y,y") 1 0 0]) = [js "x,x,y,y"].
Proof. by_eval. Qed.

(** ** The mean response time *)

(** Arithmetic without rounding. *)
Class ExactArith (N : Type) `{!Arith N} : Prop := {
  div_mul : ∀ (a : N) k, 1 ≤ k → n_mul (n_div a (n_of_Z k)) (n_of_Z k) = a;
  mul_zero : n_mul (n_of_Z (N := N) 0) (n_of_Z 0) = n_of_Z 0;
}.

#[export] Instance rationals : Arith Qc := {|
  n_of_Z z := Q2Qc (inject_Z z);
  n_add := Qcplus;
  n_mul := Qcmult;
  n_div := Qcdiv;
  n_ltb a b := Qle_bool (this a) (this b) && negb (Qeq_bool (this a) (this b));
|}.

#[export] Instance rationals_exact : ExactArith Qc.
Proof.
  split; [|by apply Qc_is_canon].
  intros a k Hk. cbn. rewrite Qcmult_comm. apply Qcmult_div_r. intros H.
  apply (f_equal this), (f_equal Qnum) in H. revert H. cbn. unfold Qred; cbn.
  pose proof (Z.ggcd_correct_divisors k 1) as Hg. destruct (Z.ggcd k 1) as [g [aa bb]]. cbn. intros ->. lia.
Qed.

Lemma row_mean_foldl {N} `{!Arith N, !ExactArith N} (r : TagRow N) cs total :
  row_response_time r = n_div total (n_of_Z (Z.of_nat (length (children r)))) →
  children r ≠ [] →
  row_response_time (foldl add_child r cs) =
  n_div (foldl n_add total (map response_time cs)) (n_of_Z (Z.of_nat (length (children r ++ cs)))).
Proof.
  revert r total; induction cs as [|c cs IH]; intros r total Hr Hne; cbn [foldl map].
  - by rewrite app_nil_r.
  - rewrite (IH (add_child r c) (n_add total (response_time c))).
    + cbn [children add_child]. by rewrite <- app_assoc.
    + cbn [row_response_time add_child children]. rewrite length_app. cbn [length].
      replace (Z.of_nat (length (children r) + 1) - 1) with (Z.of_nat (length (children r))) by lia.
      rewrite Hr, div_mul; [done|]. destruct (children r); [done|cbn; lia].
    + cbn. by destruct (children r).
Qed.

(** Up to rounding, the running update of the response time computes the
    mean: in exact arithmetic a row shows the sum of the response times of
    its channels divided by their number. *)
Theorem aggregateChannelsByTag_mean {N} `{!Arith N, !ExactArith N} (channels : list (Channel N)) r :
  r ∈ aggregateChannelsByTag channels →
  row_response_time r =
  n_div (foldl n_add (n_of_Z 0) (map response_time (children r)))
        (n_of_Z (Z.of_nat (length (children r)))).
Proof.
  intros (_ & _ & c & cs & Hch & Hr)%aggregate_row_children. rewrite Hr at 1. rewrite Hch. cbn [foldl map].
  rewrite (row_mean_foldl _ _ (n_add (n_of_Z 0) (response_time c))); [done| |done].
  cbn [row_response_time add_child new_tag_row children app length]. change (Z.of_nat 1 - 1) with 0.
  by rewrite mul_zero.
Qed.

Definition exact_channel (t : jstr) (rt : Z) : Channel Qc :=
  {| id := 1; type := 1; key := []; status := 1; name := []; weight := Null; created_time := 0;
     test_time := 0; response_time := n_of_Z rt; balance := n_of_Z 0; balance_updated_time := 0;
     models := []; group := []; used_quota := n_of_Z 0; priority := Null; tag := Some t;
     channel_info := None; rest := [] |}.

Lemma aggregateChannelsByTag_mean_witness :
  ∃ r, r ∈ aggregateChannelsByTag [exact_channel (js "a") 100; exact_channel (js "a") 201] ∧
    row_response_time r =
    n_div (foldl n_add (n_of_Z 0) (map response_time (children r)))
          (n_of_Z (Z.of_nat (length (children r)))).
Proof.
  destruct (aggregateChannelsByTag [exact_channel (js "a") 100; exact_channel (js "a") 201])
    as [|r rows] eqn:E; [by vm_compute in E|].
  exists r. split; [by left|].
  apply (aggregateChannelsByTag_mean [exact_channel (js "a") 100; exact_channel (js "a") 201]).
  rewrite E. by left.
Defined.

(** ** Keys *)

Lemma slice_0 n (s : jstr) : slice 0 n s = take n s.
Proof. unfold slice. by rewrite Nat.sub_0_r. Qed.

(** What masking hides: of a key of 9 to 16 characters all but the first
    and last four, of a longer one all but the first and last eight; but a
    key of at most 8 characters is displayed in full, twice over when it has
    at most 4. *)
Theorem formatChannelKey_mask k :
  k ≠ [] →
  (∃ u h v, k = u ++ h ++ v ∧ formatChannelKey k false = u ++ js "..." ++ v ∧
     length h = (length k - (if (length k <=? 16)%nat then 8 else 16))%nat ∧ (8 < length k)%nat)
  ∨ ((length k ≤ 8)%nat ∧ ∃ a b, formatChannelKey k false = a ++ js "..." ++ b ∧
     (∀ c, c ∈ k → c ∈ a ∨ c ∈ b) ∧ ((length k ≤ 4)%nat → a = k ∧ b = k)).
Proof.
  intros Hne%nonempty_true. unfold formatChannelKey. rewrite Hne. cbn [negb].
  destruct (Nat.leb_spec (length k) 16) as [H16|H16].
  - rewrite slice_0. unfold slice_last. destruct (decide (8 < length k)%nat) as [H8|H8].
    + left. exists (take 4 k), (drop 4 (take (length k - 4) k)), (drop (length k - 4) k).
      split; [|split; [done|split; [|done]]].
      * rewrite app_assoc. rewrite <- (take_drop (length k - 4) k) at 1. f_equal.
        rewrite <- (take_drop 4 (take (length k - 4) k)) at 1. f_equal. rewrite take_take. f_equal. lia.
      * rewrite length_drop, length_take. lia.
    + right. split; [lia|]. eexists _, _. split; [done|]. split.
      * intros c Hc. rewrite <- (take_drop 4 k) in Hc. apply elem_of_app in Hc as [Hc|Hc]; [by left|right].
        replace (drop 4 k) with (drop (4 - (length k - 4)) (drop (length k - 4) k)) in Hc
          by (rewrite drop_drop; f_equal; lia).
        rewrite <- (take_drop (4 - (length k - 4)) (drop (length k - 4) k)). set_solver.
      * intros H4. rewrite take_ge by done. replace (length k - 4)%nat with 0%nat by lia. done.
  - left. rewrite slice_0. unfold slice_last.
    exists (take 8 k), (drop 8 (take (length k - 8) k)), (drop (length k - 8) k).
    split; [|split; [done|split; [|lia]]].
    + rewrite app_assoc. rewrite <- (take_drop (length k - 8) k) at 1. f_equal.
      rewrite <- (take_drop 8 (take (length k - 8) k)) at 1. f_equal. rewrite take_take. f_equal. lia.
    + rewrite length_drop, length_take. lia.
Qed.

Lemma formatChannelKey_mask_witness :
  (8 < length (js "sk-1234567890"))%nat ∧ ∃ u h v, js "sk-1234567890" = u ++ h ++ v ∧ length h = 5%nat.
Proof.
  split; [vm_compute; lia|].
  destruct (formatChannelKey_mask (js "sk-1234567890")) as [(u & h & v & Hk & _ & Hl & _)|[H _]].
  - done.
  - exists u, h, v. split; [exact Hk|]. rewrite Hl. reflexivity.
  - vm_compute in H. lia.
Defined.

(** ** Removing duplicate keys *)

Lemma dedup_step_set acc line : dedup_step acc line = if nonempty (trim line) then set_add acc (trim line) else acc.
Proof.
  unfold dedup_step, set_add. destruct (nonempty (trim line)); [|done]. cbn.
  case_decide; [by rewrite bool_decide_eq_true_2|by rewrite bool_decide_eq_false_2].
Qed.

Lemma dedup_fold acc lines :
  foldl dedup_step acc lines = js_set_from acc (filterb nonempty (map trim lines)).
Proof.
  unfold js_set_from. revert acc; induction lines as [|l lines IH]; intros acc; [done|].
  cbn [foldl map filterb List.filter]. rewrite dedup_step_set, IH.
  by destruct (nonempty (trim l)).
Qed.

Lemma drop_while_nil p t : drop_while p t = [] ↔ Forall (λ c, p c = true) t.
Proof.
  induction t as [|c t IH]; cbn; [split; [constructor|done]|]. rewrite Forall_cons.
  destruct (p c) eqn:E; [rewrite IH; tauto|]. split; [done|]. by intros [? _].
Qed.

Lemma trim_nil s : trim s = [] ↔ Forall (λ c, is_ws c = true) s.
Proof.
  unfold trim. rewrite <- drop_while_nil. fold (trim_start s). split; [|by intros ->].
  intros Hs. apply (f_equal (@rev Z)) in Hs. rewrite rev_involutive in Hs. cbn in Hs.
  destruct (trim_start s) as [|c t] eqn:Et; [done|].
  apply drop_while_nil in Hs. rewrite Forall_forall in Hs.
  assert (is_ws c = true) by (apply Hs, list_elem_of_In, in_rev; rewrite rev_involutive; by left).
  unfold trim_start in Et. apply drop_while_head in Et. congruence.
Qed.

Lemma trimmed_parts_blank s : trim s = [] → trimmed_parts c_nl s = [].
Proof.
  intros Hs%trim_nil. apply elem_of_nil_inv. intros p (Hne & q & Hq & ->)%elem_of_trimmed_parts.
  apply Hne, trim_nil. rewrite Forall_forall in Hs |- *. intros c Hc. apply Hs.
  by eapply elem_of_split_char.
Qed.

Lemma deduplicateKeys_text s : deduplicatedText (deduplicateKeys s) = join [c_nl] (js_set (trimmed_parts c_nl s)).
Proof.
  unfold deduplicateKeys. destruct s as [|c s']; [done|]. set (s := c :: s'). cbn [nonempty negb orb].
  destruct (trim s) as [|d t] eqn:E; cbn [nonempty negb].
  - by rewrite trimmed_parts_blank.
  - cbn [deduplicatedText]. by rewrite dedup_fold.
Qed.

Lemma deduplicateKeys_after t :
  afterCount (deduplicateKeys t) = Z.of_nat (length (js_set (trimmed_parts c_nl t))).
Proof.
  unfold deduplicateKeys. destruct t as [|c t']; [done|]. set (t := c :: t'). cbn [nonempty negb orb].
  destruct (trim t) as [|d u] eqn:E; cbn [nonempty negb]; [by rewrite trimmed_parts_blank|].
  cbn [afterCount]. by rewrite dedup_fold.
Qed.

Lemma deduplicateKeys_removed t :
  beforeCount (deduplicateKeys t) = afterCount (deduplicateKeys t) + removedCount (deduplicateKeys t)
  ∧ 0 ≤ removedCount (deduplicateKeys t).
Proof.
  unfold deduplicateKeys. case_match; cbn [beforeCount afterCount removedCount]; [lia|].
  rewrite dedup_fold. split; [lia|].
  pose proof (js_set_from_length [] (filterb nonempty (map trim (split_char c_nl t)))) as Hl. cbn in Hl.
  pose proof (List.filter_length_le nonempty (map trim (split_char c_nl t))) as Hf.
  rewrite length_map in Hf. unfold filterb in *. lia.
Qed.

Lemma countKeys_join ks : Forall (clean_part c_nl) ks → countKeys (join [c_nl] ks) = Z.of_nat (length ks).
Proof.
  intros Hclean. destruct ks as [|k ks]; [done|]. unfold countKeys.
  rewrite (proj2 (nonempty_true _)).
  2: { inversion Hclean as [|? ? (Hk & _)]. destruct ks; cbn; [done|]. by destruct k. }
  cbn [negb]. unfold key_lines. rewrite split_char_join; [|done|].
  - rewrite filterb_id; [done|]. eapply Forall_impl; [exact Hclean|]. intros p (Hp & -> & _).
    by apply nonempty_true.
  - eapply Forall_impl; [exact Hclean|]. by intros p (_ & _ & ?).
Qed.

Lemma deduplicateKeys_join ks :
  Forall (clean_part c_nl) ks → NoDup ks → removedCount (deduplicateKeys (join [c_nl] ks)) = 0.
Proof.
  intros Hclean Hnd. unfold deduplicateKeys. case_match eqn:E; [done|]. cbn [removedCount].
  rewrite dedup_fold. destruct ks as [|k ks]; [done|].
  fold (js_set (filterb nonempty (map trim (split_char c_nl (join [c_nl] (k :: ks)))))).
  fold (trimmed_parts c_nl (join [c_nl] (k :: ks))).
  rewrite trimmed_parts_join, js_set_NoDup, split_char_join; [lia|done| |done|done].
  eapply Forall_impl; [exact Hclean|]. by intros p (_ & _ & ?).
Qed.

(** Deduplication keeps each distinct key once, in the order of first
    occurrence, without blanks and blank lines; the counts it reports add up,
    what it keeps is what the key counter counts, and running it again
    changes and removes nothing. *)
Theorem deduplicateKeys_spec s :
  let d := deduplicateKeys s in
  let ks := js_set (trimmed_parts c_nl s) in
  deduplicatedText d = join [c_nl] ks
  ∧ afterCount d = Z.of_nat (length ks)
  ∧ beforeCount d = afterCount d + removedCount d ∧ 0 ≤ removedCount d
  ∧ countKeys (deduplicatedText d) = afterCount d
  ∧ deduplicatedText (deduplicateKeys (deduplicatedText d)) = deduplicatedText d
  ∧ removedCount (deduplicateKeys (deduplicatedText d)) = 0.
Proof.
  cbn zeta. rewrite deduplicateKeys_text. set (ks := js_set (trimmed_parts c_nl s)).
  assert (Hclean : Forall (clean_part c_nl) ks) by apply Forall_js_set, trimmed_parts_clean.
  split; [done|]. split; [apply deduplicateKeys_after|].
  split; [apply deduplicateKeys_removed|]. split; [apply deduplicateKeys_removed|].
  split; [by rewrite countKeys_join, deduplicateKeys_after|]. split.
  - rewrite deduplicateKeys_text, trimmed_parts_join by done. by rewrite js_set_NoDup by apply NoDup_js_set.
  - apply deduplicateKeys_join; [done|apply NoDup_js_set].
Qed.

(** ** Groups *)

Section group_order.
(** Documented behaviour of [localeCompare]: its sign orders the strings. *)
Context (lc : jstr → jstr → Z).
Hypothesis lc_total : ∀ a b, lc a b ≤ 0 ∨ lc b a ≤ 0.
Hypothesis lc_trans : ∀ a b c, lc a b ≤ 0 → lc b c ≤ 0 → lc a c ≤ 0.

Lemma group_le_total a b : group_le lc a b = true ∨ group_le lc b a = true.
Proof.
  unfold group_le. repeat case_match; auto; rewrite !Z.leb_le. destruct (lc_total a b); auto with lia.
Qed.

Lemma group_le_trans : Transitive (λ a b, group_le lc a b = true).
Proof.
  intros a b c. unfold group_le. repeat case_match; try done; reflect_bools; try congruence.
  rewrite !Z.leb_le. apply lc_trans.
Qed.

Lemma parseGroupsList_parts s : parseGroupsList lc s = stable_sort (group_le lc) (trimmed_parts c_comma s).
Proof. by destruct s. Qed.

Lemma sorted_groups_split l :
  StronglySorted (λ a b, group_le lc a b = true) l →
  ∃ n l', l = replicate n (js "default") ++ l' ∧ (js "default" ∉ l')
    ∧ StronglySorted (λ a b, lc a b ≤ 0) l'.
Proof.
  induction 1 as [|x l Hs IH Hx]; [exists 0%nat, []; cbn; split; [done|split; [set_solver|constructor]]|].
  destruct IH as (n & l' & -> & Hd & Hl').
  destruct (decide (x = js "default")) as [->|Hn]; [by exists (S n), l'|].
  destruct n as [|n].
  - exists 0%nat, (x :: l'). split; [done|]. cbn in Hx. split; [by apply not_elem_of_cons; split; congruence|].
    constructor; [done|]. rewrite Forall_forall in Hx |- *. intros y Hy. specialize (Hx y Hy).
    unfold group_le in Hx. rewrite (bool_decide_eq_false_2 (x = _)) in Hx by done.
    case_match; [done|]. by apply Z.leb_le.
  - exfalso. cbn [replicate app] in Hx. rewrite Forall_cons in Hx. destruct Hx as [Hx _].
    revert Hx. unfold group_le. rewrite (bool_decide_eq_false_2 (x = _)) by done.
    by rewrite bool_decide_eq_true_2.
Qed.

(** The group list of a channel is the trimmed, non-empty entries of
    the text with their multiplicity; the default group comes first, the
    others follow in the order of [localeCompare]; and storing the list and
    reading it again changes nothing. *)
Theorem parseGroupsList_spec s :
  parseGroupsList lc s ≡ₚ trimmed_parts c_comma s
  ∧ (∃ n l, parseGroupsList lc s = replicate n (js "default") ++ l ∧ (js "default" ∉ l)
       ∧ StronglySorted (λ a b, lc a b ≤ 0) l)
  ∧ parseGroupsList lc (formatGroupsString (parseGroupsList lc s)) = parseGroupsList lc s.
Proof.
  rewrite !parseGroupsList_parts. set (l := stable_sort (group_le lc) (trimmed_parts c_comma s)).
  assert (Hsorted : Sorted (λ a b, group_le lc a b = true) l) by apply stable_sort_sorted, group_le_total.
  assert (Hp : l ≡ₚ trimmed_parts c_comma s) by apply stable_sort_Permutation.
  split; [done|]. split.
  - apply sorted_groups_split, Sorted_StronglySorted; [apply group_le_trans|done].
  - unfold formatGroupsString. change (js ",") with [c_comma]. rewrite trimmed_parts_join.
    + by apply stable_sort_id.
    + rewrite Hp. apply trimmed_parts_clean.
Qed.
End group_order.

Lemma parseGroupsList_spec_witness :
  parseGroupsList units_compare (js "vip, default ,,svip") = map js ["default"; "svip"; "vip"]%string
  ∧ parseGroupsList units_compare
      (formatGroupsString (parseGroupsList units_compare (js "vip, default ,,svip"))) =
    parseGroupsList units_compare (js "vip, default ,,svip").
Proof.
  split; [by_eval|].
  apply (parseGroupsList_spec units_compare units_compare_total units_compare_trans).
Defined.

(** The attention flag and its explanation agree: a reason is shown
    exactly for the flagged channels, and each reason holds of the channel
    it is shown for. *)
Theorem attention_reason_agrees {N} `{!Arith N} (channel : Channel N) :
  (channelNeedsAttention channel = true ↔ getAttentionReason channel ≠ None)
  ∧ (getAttentionReason channel = Some (js "Auto-disabled") ↔ status channel = 3)
  ∧ (getAttentionReason channel = Some (js "Low balance") ↔ status channel ≠ 3 ∧ low_balance channel = true)
  ∧ (getAttentionReason channel = Some (js "All keys disabled") ↔
       status channel ≠ 3 ∧ low_balance channel = false ∧ all_keys_disabled channel = true).
Proof.
  assert (H12 : js "Auto-disabled" ≠ js "Low balance") by by vm_compute.
  assert (H13 : js "Auto-disabled" ≠ js "All keys disabled") by by vm_compute.
  assert (H23 : js "Low balance" ≠ js "All keys disabled") by by vm_compute.
  unfold channelNeedsAttention, getAttentionReason.
  destruct (Z.eqb_spec (status channel) 3), (low_balance channel), (all_keys_disabled channel);
    naive_solver.
Qed.
