(* ===== verification/ChatMessages.v ===== *)
(** * Playground conversations

    Model of [web/default/src/features/playground]: [lib/message-utils.ts]
    (messages, think tags, streaming and finalisation), [lib/payload-builder.ts]
    and the handlers of [hooks/use-chat-handler.ts] and
    [hooks/use-stream-request.ts], as functions on the conversation. The
    identifiers drawn by [nanoid] are arguments; the events of the [SSE]
    object are the steps of the stream. *)

From Stdlib Require Import String.
From S2P Require Import JsJson.

(** ** Messages *)

Inductive MessageRole := RoleUser | RoleAssistant | RoleSystem.
Inductive MessageStatus := LOADING | STREAMING | COMPLETE | ERROR.

#[export] Instance MessageRole_eq_dec : EqDecision MessageRole.
Proof. solve_decision. Defined.
#[export] Instance MessageStatus_eq_dec : EqDecision MessageStatus.
Proof. solve_decision. Defined.

(** [v_id] is [None] where the property is absent. *)
Record MessageVersion := { v_id : option jstr; content : jstr }.

Record Reasoning := { r_content : jstr; duration : Z }.

(** An absent optional property is [None]. *)
Record Message := {
  m_key : jstr;
  from : MessageRole;
  versions : list MessageVersion;
  sources : option (list (jstr * jstr));
  reasoning : option Reasoning;
  isReasoningStreaming : option bool;
  isReasoningComplete : option bool;
  isContentComplete : option bool;
  m_status : option MessageStatus;
  errorCode : option json;
}.

#[export] Instance MessageVersion_eq_dec : EqDecision MessageVersion.
Proof. solve_decision. Defined.
#[export] Instance Reasoning_eq_dec : EqDecision Reasoning.
Proof. solve_decision. Defined.

(** The spreads [{ ...message, field: value }] of the code. *)
Definition with_versions (m : Message) (vs : list MessageVersion) : Message :=
  {| m_key := m_key m; from := from m; versions := vs; sources := sources m;
     reasoning := reasoning m; isReasoningStreaming := isReasoningStreaming m;
     isReasoningComplete := isReasoningComplete m; isContentComplete := isContentComplete m;
     m_status := m_status m; errorCode := errorCode m |}.

Definition with_reasoning (m : Message) (r : option Reasoning) (streaming : bool) : Message :=
  {| m_key := m_key m; from := from m; versions := versions m; sources := sources m;
     reasoning := r; isReasoningStreaming := Some streaming;
     isReasoningComplete := isReasoningComplete m; isContentComplete := isContentComplete m;
     m_status := m_status m; errorCode := errorCode m |}.

Definition with_status (m : Message) (s : MessageStatus) : Message :=
  {| m_key := m_key m; from := from m; versions := versions m; sources := sources m;
     reasoning := reasoning m; isReasoningStreaming := isReasoningStreaming m;
     isReasoningComplete := isReasoningComplete m; isContentComplete := isContentComplete m;
     m_status := Some s; errorCode := errorCode m |}.

Definition with_error (m : Message) (code : json) : Message :=
  {| m_key := m_key m; from := from m; versions := versions m; sources := sources m;
     reasoning := reasoning m; isReasoningStreaming := Some false;
     isReasoningComplete := isReasoningComplete m; isContentComplete := isContentComplete m;
     m_status := Some ERROR; errorCode := Some code |}.

Definition createMessageVersion (nanoid : jstr) (text : jstr) : MessageVersion :=
  {| v_id := Some nanoid; content := text |}.

Definition getCurrentVersion (message : Message) : MessageVersion :=
  match versions message with
  | v :: _ => v
  | [] => {| v_id := Some (js "default"); content := [] |}
  end.

Definition updateCurrentVersionContent (message : Message) (text : jstr) : Message :=
  with_versions message [{| v_id := v_id (getCurrentVersion message); content := text |}].

Definition createUserMessage (nanoid1 nanoid2 text : jstr) : Message :=
  {| m_key := nanoid1; from := RoleUser; versions := [createMessageVersion nanoid2 text];
     sources := None; reasoning := None; isReasoningStreaming := None;
     isReasoningComplete := None; isContentComplete := None; m_status := None; errorCode := None |}.

Definition createLoadingAssistantMessage (nanoid1 nanoid2 : jstr) : Message :=
  {| m_key := nanoid1; from := RoleAssistant; versions := [createMessageVersion nanoid2 []];
     sources := None; reasoning := None; isReasoningStreaming := Some false;
     isReasoningComplete := Some false; isContentComplete := Some false;
     m_status := Some LOADING; errorCode := None |}.

(** ** Content with images *)

Inductive ContentPart :=
| TextPart (text : option jstr)
| ImagePart (url : jstr).

Inductive MessageContent :=
| PlainContent (text : jstr)
| PartsContent (parts : list ContentPart).

Definition buildMessageContent (text : jstr) (imageUrls : list jstr) : MessageContent :=
  let validImages := filterb (λ url, nonempty (trim url)) imageUrls in
  match validImages with
  | [] => PlainContent text
  | _ => PartsContent (TextPart (Some text) :: map (λ url, ImagePart (trim url)) validImages)
  end.

Fixpoint find_text (parts : list ContentPart) : option ContentPart :=
  match parts with
  | [] => None
  | TextPart t :: _ => Some (TextPart t)
  | ImagePart _ :: parts' => find_text parts'
  end.

Definition getTextContent (c : MessageContent) : jstr :=
  match c with
  | PlainContent text => text
  | PartsContent parts =>
      match find_text parts with Some (TextPart (Some t)) => t | _ => [] end
  end.

(** ** Think tags *)

Record ThinkTags := {
  visibleContent : jstr;
  thought : jstr;
  hasUnclosedTag : bool;
}.

Definition OPEN_TAG : jstr := js "<think>".
Definition CLOSE_TAG : jstr := js "</think>".

(** The loop from [currentPos] on; each round moves past a closing tag. *)
Fixpoint think_loop (fuel : nat) (text : jstr) (currentPos : nat)
    (visibleParts reasoningParts : list jstr) : list jstr * list jstr * bool :=
  match fuel with
  | O => (visibleParts, reasoningParts, false)
  | S f =>
      match index_of_from OPEN_TAG text currentPos with
      | None =>
          (if (currentPos <? length text)%nat then visibleParts ++ [drop currentPos text]
           else visibleParts, reasoningParts, false)
      | Some openPos =>
          let visibleParts' :=
            if (currentPos <? openPos)%nat then visibleParts ++ [slice currentPos openPos text]
            else visibleParts in
          match index_of_from CLOSE_TAG text (openPos + 7) with
          | None => (visibleParts', reasoningParts ++ [drop (openPos + 7) text], true)
          | Some closePos =>
              think_loop f text (closePos + 8) visibleParts'
                (reasoningParts ++ [slice (openPos + 7) closePos text])
          end
      end
  end.

Definition parseThinkTags (text : jstr) : ThinkTags :=
  if negb (includes OPEN_TAG text) then
    {| visibleContent := text; thought := []; hasUnclosedTag := false |}
  else
    let '(visibleParts, reasoningParts, hasUnclosed) :=
      think_loop (S (length text)) text 0 [] [] in
    {| visibleContent := trim (join [] visibleParts);
       thought := trim (join [c_nl; c_nl] reasoningParts);
       hasUnclosedTag := hasUnclosed |}.

(** ** Requests *)

Definition isValidMessage (message : Message) : bool :=
  match versions message with
  | [] => false
  | v :: _ =>
      if bool_decide (from message = RoleAssistant) && negb (nonempty (trim (content v))) then false
      else true
  end.

Record ChatCompletionMessage := { role : MessageRole; c_content : jstr }.

Definition formatMessageForAPI (message : Message) : ChatCompletionMessage :=
  {| role := from message; c_content := content (getCurrentVersion message) |}.

Record PlaygroundConfig := {
  cfg_model : jstr;
  cfg_group : jstr;
  temperature : jsnum;
  top_p : jsnum;
  max_tokens : jsnum;
  frequency_penalty : jsnum;
  presence_penalty : jsnum;
  seed : option jsnum;
  cfg_stream : bool;
}.

Inductive ParameterKey :=
| K_temperature | K_top_p | K_max_tokens | K_frequency_penalty | K_presence_penalty | K_seed.

#[export] Instance ParameterKey_eq_dec : EqDecision ParameterKey.
Proof. solve_decision. Defined.

Definition parameterKeys : list ParameterKey :=
  [K_temperature; K_top_p; K_max_tokens; K_frequency_penalty; K_presence_penalty; K_seed].

(** [config[key]]; [None] is [null]. *)
Definition config_value (config : PlaygroundConfig) (key : ParameterKey) : option jsnum :=
  match key with
  | K_temperature => Some (temperature config)
  | K_top_p => Some (top_p config)
  | K_max_tokens => Some (max_tokens config)
  | K_frequency_penalty => Some (frequency_penalty config)
  | K_presence_penalty => Some (presence_penalty config)
  | K_seed => seed config
  end.

Record ChatCompletionRequest := {
  req_model : jstr;
  req_group : jstr;
  req_messages : list ChatCompletionMessage;
  req_stream : bool;
  req_parameters : list (ParameterKey * jsnum);
}.

Definition buildChatCompletionPayload (messages : list Message) (config : PlaygroundConfig)
    (parameterEnabled : ParameterKey → bool) : ChatCompletionRequest :=
  {| req_model := cfg_model config; req_group := cfg_group config;
     req_messages := map formatMessageForAPI (filterb isValidMessage messages);
     req_stream := cfg_stream config;
     req_parameters :=
       flat_map (λ key, if parameterEnabled key then
                          match config_value config key with Some v => [(key, v)] | None => [] end
                        else []) parameterKeys |}.

(** ** Updating the conversation *)

Definition API_REQUEST_ERROR : jstr := js "Request error occurred".
Definition PARSE_ERROR : jstr := js "Error parsing response data".
Definition CONNECTION_CLOSED : jstr := js "Connection closed".
Definition INTERRUPTED : jstr := js "Generation was interrupted".

Definition updateLastAssistantMessage (messages : list Message) (updater : Message → Message)
    : list Message :=
  match last messages with
  | None => messages
  | Some l =>
      if negb (bool_decide (from l = RoleAssistant)) then messages
      else removelast messages ++ [updater l]
  end.

(** [x || undefined] for an optional string *)
Definition truthy_string (o : option jstr) : option jstr :=
  match o with Some [] => None | _ => o end.

(** [x || null] for a value that may be missing *)
Definition truthy_or_null (o : option json) : json :=
  match o with Some v => if truthy v then v else JNull | None => JNull end.

Definition updateAssistantMessageWithError (messages : list Message) (errorMessage : jstr)
    (code : option json) : list Message :=
  updateLastAssistantMessage messages (λ message,
    with_error (updateCurrentVersionContent message (API_REQUEST_ERROR ++ js ": " ++ errorMessage))
               (truthy_or_null code)).

(** [contentChunk] is [None] when the argument is missing. *)
Definition processStreamingContent (message : Message) (contentChunk : option jstr) : Message :=
  let current := content (getCurrentVersion message) in
  let fullContent := match truthy_string contentChunk with
                     | Some chunk => current ++ chunk
                     | None => current
                     end in
  let t := parseThinkTags fullContent in
  let finalReasoning := if nonempty (thought t) then Some {| r_content := thought t; duration := 0 |}
                        else reasoning message in
  with_reasoning (updateCurrentVersionContent message fullContent) finalReasoning (hasUnclosedTag t).

(** [a || b] on strings *)
Definition or_else_string (a b : jstr) : jstr := if nonempty a then a else b.

Definition reasoning_content (m : Message) : jstr :=
  match reasoning m with Some r => r_content r | None => [] end.

Definition finalizeMessage (message : Message) (apiReasoningContent : option jstr) : Message :=
  let t := parseThinkTags (content (getCurrentVersion message)) in
  let finalReasoning :=
    or_else_string (default [] apiReasoningContent)
      (or_else_string (reasoning_content message) (thought t)) in
  with_reasoning (updateCurrentVersionContent message (visibleContent t))
    (if nonempty finalReasoning then
       Some {| r_content := finalReasoning;
               duration := match reasoning message with Some r => duration r | None => 0 end |}
     else None)
    false.

(** ** Loading from storage *)

Definition is_stuck (m : Message) : bool :=
  bool_decide (from m = RoleAssistant)
  && (bool_decide (m_status m = Some LOADING) || bool_decide (m_status m = Some STREAMING)).

(** The downward loop: the last stuck message, as the messages before it, the
    message and those after it. *)
Fixpoint last_stuck (messages : list Message) : option (list Message * Message * list Message) :=
  match messages with
  | [] => None
  | m :: messages' =>
      match last_stuck messages' with
      | Some (before, target, after) => Some (m :: before, target, after)
      | None => if is_stuck m then Some ([], m, messages') else None
      end
  end.

Definition sanitize_target (m : Message) : Message :=
  let finalized := finalizeMessage m None in
  let hasContent := nonempty (trim (content (getCurrentVersion finalized))) in
  let hasReasoning := nonempty (trim (reasoning_content finalized)) in
  if hasContent || hasReasoning then
    with_reasoning (with_status finalized COMPLETE) (reasoning finalized) false
  else
    let failed := updateCurrentVersionContent finalized (API_REQUEST_ERROR ++ js ": " ++ INTERRUPTED) in
    with_reasoning (with_status failed ERROR) (reasoning failed) false.

Definition sanitizeMessagesOnLoad (messages : list Message) : list Message :=
  match last_stuck messages with
  | None => messages
  | Some (before, target, after) => before ++ sanitize_target target :: after
  end.

(** ** The handlers of [useChatHandler] *)

Inductive UpdateType := UReasoning | UContent.

Definition stream_update (type : UpdateType) (chunk : jstr) (message : Message) : Message :=
  if bool_decide (m_status message = Some ERROR) then message
  else match type with
       | UReasoning =>
           with_status
             (with_reasoning message
                (Some {| r_content := reasoning_content message ++ chunk; duration := 0 |}) true)
             STREAMING
       | UContent => with_status (processStreamingContent message (Some chunk)) STREAMING
       end.

Definition handleStreamUpdate (messages : list Message) (type : UpdateType) (chunk : jstr)
    : list Message :=
  updateLastAssistantMessage messages (stream_update type chunk).

Definition stream_complete (message : Message) : Message :=
  if bool_decide (m_status message = Some COMPLETE) || bool_decide (m_status message = Some ERROR)
  then message
  else with_status (finalizeMessage message None) COMPLETE.

Definition handleStreamComplete (messages : list Message) : list Message :=
  updateLastAssistantMessage messages stream_complete.

Definition handleStreamError (messages : list Message) (error : jstr) (code : option json)
    : list Message := updateAssistantMessageWithError messages error code.

(** The answer of a request without streaming: its [content] and
    [reasoning_content], when it has a choice. *)
Definition answer_message (text : option jstr) (apiReasoning : option jstr) (message : Message)
    : Message :=
  let v0 := match versions message with v :: _ => v_id v | [] => None end in
  with_status
    (finalizeMessage
       (with_versions message [{| v_id := v0; content := default [] (truthy_string text) |}])
       apiReasoning)
    COMPLETE.

Definition receive_answer (messages : list Message) (choice : option (option jstr * option jstr))
    : list Message :=
  match choice with
  | None => messages
  | Some (text, apiReasoning) => updateLastAssistantMessage messages (answer_message text apiReasoning)
  end.

Definition stop_message (message : Message) : Message :=
  if bool_decide (m_status message = Some LOADING) || bool_decide (m_status message = Some STREAMING)
  then with_status (finalizeMessage message None) COMPLETE
  else message.

Definition stopGeneration (messages : list Message) : list Message :=
  updateLastAssistantMessage messages stop_message.

(** ** The listeners of [useStreamRequest] *)

(** The two references of the hook, and the conversation they act on. *)
Record StreamState := {
  sse_open : bool;
  isStreamComplete : bool;
  conversation : list Message;
}.

(** What the [SSE] object delivers. *)
Inductive StreamEvent :=
| MessageEvent (data : jstr)
| ErrorEvent (data : option jstr) (readyState : Z)
| ReadyStateEvent (readyState : option Z) (status : option Z).

Definition start_stream (messages : list Message) : StreamState :=
  {| sse_open := true; isStreamComplete := false; conversation := messages |}.

Definition handleError (s : StreamState) (errorMessage : jstr) (code : option json) : StreamState :=
  if isStreamComplete s then s
  else {| sse_open := false; isStreamComplete := isStreamComplete s;
          conversation := handleStreamError (conversation s) errorMessage code |}.

(** The value of a property when it is truthy *)
Definition truthy_value (o : option json) : option json :=
  match o with Some v => if truthy v then Some v else None | None => None end.

(** [chunk.choices?.[0]?.delta]; [Throw] where reading a property of [null]
    throws, [Ret None] where there is no delta. *)
Definition chunk_delta (chunk : json) : outcome (option (list (jstr * json))) :=
  match chunk with
  | JNull => Throw
  | JObj o =>
      let first := match obj_get o (js "choices") with
                   | Some (JArr (c :: _)) => Some c
                   | Some (JObj cs) => obj_get cs (js "0")
                   | _ => None
                   end in
      match first with
      | Some (JObj c) =>
          match obj_get c (js "delta") with
          | Some (JObj d) => Ret (Some d)
          | _ => Ret None
          end
      | _ => Ret None
      end
  | _ => Ret None
  end.

(** A chunk that is not a string is appended as the text it converts to. *)
Definition apply_delta (messages : list Message) (d : list (jstr * json)) : list Message :=
  let messages1 :=
    match truthy_value (obj_get d (js "reasoning_content")) with
    | Some chunk => handleStreamUpdate messages UReasoning (string_of_json chunk)
    | None => messages
    end in
  match truthy_value (obj_get d (js "content")) with
  | Some chunk => handleStreamUpdate messages1 UContent (string_of_json chunk)
  | None => messages1
  end.

Definition on_message (s : StreamState) (data : jstr) : StreamState :=
  if bool_decide (data = js "[DONE]") then
    {| sse_open := false; isStreamComplete := true;
       conversation := handleStreamComplete (conversation s) |}
  else
    match throw_if_none (json_parse data) ≫= chunk_delta with
    | Throw => handleError s PARSE_ERROR None
    | Ret None => s
    | Ret (Some d) =>
        {| sse_open := sse_open s; isStreamComplete := isStreamComplete s;
           conversation := apply_delta (conversation s) d |}
    end.

(** The message and code of an error event: those of its JSON body when it
    has one, else its text. *)
Definition error_details (data : option jstr) : jstr * option json :=
  let errorMessage := default API_REQUEST_ERROR (truthy_string data) in
  match truthy_string data with
  | None => (errorMessage, None)
  | Some text =>
      match json_parse text with
      | Some (JObj o) =>
          match obj_get o (js "error") with
          | Some (JObj e) =>
              (match truthy_value (obj_get e (js "message")) with
               | Some m => string_of_json m
               | None => errorMessage
               end,
               truthy_value (obj_get e (js "code")))
          | _ => (errorMessage, None)
          end
      | _ => (errorMessage, None)
      end
  end.

Definition on_error (s : StreamState) (data : option jstr) (readyState : Z) : StreamState :=
  if readyState =? 2 then s
  else let '(errorMessage, code) := error_details data in handleError s errorMessage code.

Definition on_readystatechange (s : StreamState) (readyState status : option Z) : StreamState :=
  match readyState, status with
  | Some r, Some st =>
      if (2 <=? r) && negb (st =? 200) then
        handleError s (js "HTTP " ++ string_of_Z st ++ js ": " ++ CONNECTION_CLOSED) None
      else s
  | _, _ => s
  end.

Definition stream_event (s : StreamState) (e : StreamEvent) : StreamState :=
  match e with
  | MessageEvent data => on_message s data
  | ErrorEvent data readyState => on_error s data readyState
  | ReadyStateEvent readyState status => on_readystatechange s readyState status
  end.

(** [stopGeneration], with the source closed by [stopStream]. *)
Definition stop_stream (s : StreamState) : StreamState :=
  {| sse_open := false; isStreamComplete := isStreamComplete s;
     conversation := stopGeneration (conversation s) |}.

(** ** Evaluations *)

Example think_sample :
  let t := parseThinkTags (js "a<think> x </think>b <think>y</think> c") in
  visibleContent t = js "ab  c" ∧ thought t = js "x" ++ [32; 10; 10] ++ js "y" ∧ hasUnclosedTag t = false.
Proof. split_and!; by_eval. Qed.

Example think_unclosed :
  parseThinkTags (js "a<think>x</thi") =
  {| visibleContent := js "a"; thought := js "x</thi"; hasUnclosedTag := true |}.
Proof. by_eval. Qed.
