(* ===== verification/ChatMessagesProps.v ===== *)
(** * Playground conversations: properties

    What the think tag parser computes, that streaming an answer piece by
    piece and receiving it whole agree (and where they do not), that stored
    conversations are repaired on load, and what a stream may change. *)

From Stdlib Require Import String.
From S2P Require Import JsJson ChatMessages.

(** ** Finding a tag *)

Lemma includes_false pat s : includes pat s = false ↔ index_of pat s = None.
Proof. unfold includes. by destruct (index_of pat s). Qed.

Lemma includes_app_l pat u v : includes pat (u ++ v) = false → includes pat u = false.
Proof.
  intros H. apply not_true_iff_false. intros (a & b & ->)%includes_true.
  apply not_true_iff_false in H. apply H, includes_true. exists a, (b ++ v). by rewrite <- !app_assoc.
Qed.

Lemma includes_cons_false pat x v : includes pat (x :: v) = false → includes pat v = false.
Proof.
  intros H. apply not_true_iff_false. intros (a & b & ->)%includes_true.
  apply not_true_iff_false in H. apply H, includes_true. by exists (x :: a), b.
Qed.

(** A pattern whose first unit does not recur is found where it was put. *)
Lemma index_of_put c p v rest :
  c ∉ p → includes (c :: p) v = false → index_of (c :: p) (v ++ (c :: p) ++ rest) = Some (length v).
Proof.
  intros Hc. induction v as [|x v IH]; intros Hv.
  - cbn [app index_of length]. rewrite (proj2 (starts_with_true (c :: p) (c :: p ++ rest))); [done|]. by exists rest.
  - cbn [app index_of length]. destruct (starts_with (c :: p) (x :: v ++ c :: p ++ rest)) eqn:E.
    + exfalso. apply starts_with_true in E as (r & E). cbn [app] in E. injection E as -> E.
      destruct (decide (length p ≤ length v)%nat) as [Hl|Hl].
      * apply not_true_iff_false in Hv. apply Hv, includes_true. exists [], (drop (length p) v).
        cbn. f_equal. apply (f_equal (take (length p))) in E.
        rewrite take_app_le, take_app_length in E by done. rewrite <- E at 1. by rewrite take_drop.
      * apply Hc. assert (Hp : p !! length v = Some c).
        { assert (Hl' : (v ++ c :: p ++ rest) !! length v = Some c)
            by (rewrite lookup_app_r by lia; by rewrite Nat.sub_diag).
          rewrite E, lookup_app_l in Hl' by lia. done. }
        by eapply list_elem_of_lookup_2.
    + specialize (IH (includes_cons_false _ _ _ Hv)). cbn [app] in IH. by rewrite IH.
Qed.

Lemma index_of_take pat s n :
  pat ≠ [] → index_of pat s = Some n → includes pat (take n s) = false.
Proof.
  intros Hne Hn. apply not_true_iff_false. intros (u & w & Hu)%includes_true.
  assert (Hl : length (take n s) = (length u + length pat + length w)%nat)
    by (rewrite Hu, !length_app; lia).
  assert (Hk : (length u < n)%nat).
  { rewrite length_take in Hl. destruct pat; [done|]. cbn in Hl. lia. }
  pose proof (index_of_first _ _ _ (length u) Hn Hk) as Hf.
  apply not_true_iff_false in Hf. apply Hf, starts_with_true.
  exists (w ++ drop n s). rewrite <- (take_drop n s) at 1. rewrite Hu, <- !app_assoc.
  by rewrite drop_app_length.
Qed.

Lemma index_of_from_app pat u v : index_of_from pat (u ++ v) (length u) = (λ n, length u + n)%nat <$> index_of pat v.
Proof. unfold index_of_from. by rewrite drop_app_length. Qed.

Lemma slice_app_mid u v w : slice (length u) (length u + length v) (u ++ v ++ w) = v.
Proof.
  unfold slice. rewrite drop_app_length. replace (length u + length v - length u)%nat with (length v) by lia.
  by rewrite take_app_length.
Qed.

(** ** The texts the think tag parser sees *)

(** What follows the last closing tag: visible text, or an open thought. *)
Inductive tail_part := Visible (v : jstr) | Unclosed (v r : jstr).

Definition render_tail (t : tail_part) : jstr :=
  match t with Visible v => v | Unclosed v r => v ++ OPEN_TAG ++ r end.

Definition render (segs : list (jstr * jstr)) (t : tail_part) : jstr :=
  concat (map (λ s, s.1 ++ OPEN_TAG ++ s.2 ++ CLOSE_TAG) segs) ++ render_tail t.

Definition wf_segments (segs : list (jstr * jstr)) (t : tail_part) : Prop :=
  Forall (λ s, includes OPEN_TAG s.1 = false ∧ includes CLOSE_TAG s.2 = false) segs ∧
  match t with
  | Visible v => includes OPEN_TAG v = false
  | Unclosed v r => includes OPEN_TAG v = false ∧ includes CLOSE_TAG r = false
  end.

Definition tail_visible (t : tail_part) : jstr := match t with Visible v | Unclosed v _ => v end.
Definition tail_thoughts (t : tail_part) : list jstr :=
  match t with Visible _ => [] | Unclosed _ r => [r] end.
Definition is_unclosed (t : tail_part) : bool := match t with Visible _ => false | Unclosed _ _ => true end.

Lemma OPEN_TAG_length : length OPEN_TAG = 7%nat.
Proof. done. Qed.

Lemma CLOSE_TAG_length : length CLOSE_TAG = 8%nat.
Proof. done. Qed.

Lemma find_open v rest :
  includes OPEN_TAG v = false → index_of OPEN_TAG (v ++ OPEN_TAG ++ rest) = Some (length v).
Proof. apply (index_of_put 60 (js "think>")). vm_compute. set_solver. Qed.

Lemma find_close v rest :
  includes CLOSE_TAG v = false → index_of CLOSE_TAG (v ++ CLOSE_TAG ++ rest) = Some (length v).
Proof. apply (index_of_put 60 (js "/think>")). vm_compute. set_solver. Qed.

Lemma concat_snoc_if (b : bool) (vp : list jstr) v :
  (b = false → v = []) → concat (if b then vp ++ [v] else vp) = concat vp ++ v.
Proof.
  intros Hb. destruct b; [rewrite concat_app; cbn; by rewrite app_nil_r|].
  by rewrite (Hb eq_refl), app_nil_r.
Qed.

Lemma ltb_length_nil (u v : jstr) : (length u <? length u + length v)%nat = false → v = [].
Proof. destruct v; [done|]. intros H%Nat.ltb_ge. cbn in H. lia. Qed.

(** The loop, from a position where the text continues with the segments. *)
Lemma think_loop_render fuel pre segs t vp rp :
  wf_segments segs t → (length segs < fuel)%nat →
  ∃ vp', think_loop fuel (pre ++ render segs t) (length pre) vp rp =
           (vp', rp ++ map snd segs ++ tail_thoughts t, is_unclosed t)
         ∧ concat vp' = concat vp ++ concat (map fst segs) ++ tail_visible t.
Proof.
  revert fuel pre vp rp; induction segs as [|[v r] segs IH]; intros fuel pre vp rp [Hs Ht] Hf;
    destruct fuel as [|fuel]; [cbn in Hf; lia| |cbn in Hf; lia|].
  - cbn [render map concat app think_loop]. destruct t as [v|v r]; cbn [render_tail].
    + rewrite index_of_from_app, (proj1 (includes_false _ _) Ht). cbn [fmap option_fmap option_map].
      rewrite drop_app_length, length_app. cbn [tail_thoughts is_unclosed tail_visible map].
      eexists. split; [by rewrite !app_nil_r|]. cbn. apply concat_snoc_if, ltb_length_nil.
    + destruct Ht as [Hv Hr]. rewrite index_of_from_app, find_open by done.
      cbn [fmap option_fmap option_map].
      rewrite (slice_app_mid pre v (OPEN_TAG ++ r)).
      replace (pre ++ v ++ OPEN_TAG ++ r) with ((pre ++ v ++ OPEN_TAG) ++ r) by by rewrite <- !app_assoc.
      replace (length pre + length v + 7)%nat with (length (pre ++ v ++ OPEN_TAG))
        by (rewrite !length_app, ?OPEN_TAG_length, ?CLOSE_TAG_length; lia).
      rewrite index_of_from_app, (proj1 (includes_false _ _) Hr), drop_app_length.
      cbn [fmap option_fmap option_map]. eexists. split; [done|]. cbn.
      apply concat_snoc_if, ltb_length_nil.
  - inversion Hs as [|? ? [Hv Hr] Hs']; subst. cbn [fst snd] in Hv, Hr.
    unfold render. cbn [map concat fst snd]. rewrite <- !app_assoc. cbn [think_loop].
    rewrite index_of_from_app, find_open by done. cbn [fmap option_fmap option_map].
    rewrite (slice_app_mid pre v). fold (render segs t).
    replace (pre ++ v ++ OPEN_TAG ++ r ++ CLOSE_TAG ++ render segs t)
      with ((pre ++ v ++ OPEN_TAG) ++ r ++ CLOSE_TAG ++ render segs t) by by rewrite <- !app_assoc.
    replace (length pre + length v + 7)%nat with (length (pre ++ v ++ OPEN_TAG))
      by (rewrite !length_app, ?OPEN_TAG_length, ?CLOSE_TAG_length; lia).
    rewrite index_of_from_app, find_close by done. cbn [fmap option_fmap option_map].
    rewrite slice_app_mid.
    replace ((pre ++ v ++ OPEN_TAG) ++ r ++ CLOSE_TAG ++ render segs t)
      with ((pre ++ v ++ OPEN_TAG ++ r ++ CLOSE_TAG) ++ render segs t) by by rewrite <- !app_assoc.
    replace (length (pre ++ v ++ OPEN_TAG) + length r + 8)%nat
      with (length (pre ++ v ++ OPEN_TAG ++ r ++ CLOSE_TAG)) by (rewrite !length_app, ?OPEN_TAG_length, ?CLOSE_TAG_length; lia).
    edestruct (IH fuel (pre ++ v ++ OPEN_TAG ++ r ++ CLOSE_TAG)) as (vp' & -> & Hvp'); [done|cbn in Hf; lia|].
    exists vp'. cbn [map fst snd]. rewrite <- !app_assoc. split; [done|].
    rewrite Hvp', concat_snoc_if by apply ltb_length_nil. cbn [concat]. by rewrite <- !app_assoc.
Qed.

Lemma render_no_open v : includes OPEN_TAG v = false → parseThinkTags v =
  {| visibleContent := v; thought := []; hasUnclosedTag := false |}.
Proof. intros Hv. unfold parseThinkTags. by rewrite Hv. Qed.

Lemma render_includes segs t : (segs ≠ [] ∨ is_unclosed t = true) → includes OPEN_TAG (render segs t) = true.
Proof.
  intros H. apply includes_true. destruct segs as [|[v r] segs].
  - destruct H as [|H]; [done|]. destruct t as [|v r]; [done|]. by exists v, r.
  - exists v, (r ++ CLOSE_TAG ++ render segs t). unfold render. cbn [map concat fst snd].
    by rewrite <- !app_assoc.
Qed.

Lemma segments_length segs t : (length segs ≤ length (render segs t))%nat.
Proof.
  unfold render. rewrite length_app. induction segs as [|[v r] segs IH]; [cbn; lia|].
  cbn [map concat length fst snd]. rewrite !length_app, OPEN_TAG_length, CLOSE_TAG_length. lia.
Qed.

Lemma parseThinkTags_render segs t :
  wf_segments segs t → (segs ≠ [] ∨ is_unclosed t = true) →
  parseThinkTags (render segs t) =
  {| visibleContent := trim (concat (map fst segs) ++ tail_visible t);
     thought := trim (join [c_nl; c_nl] (map snd segs ++ tail_thoughts t));
     hasUnclosedTag := is_unclosed t |}.
Proof.
  intros Hwf Hne. unfold parseThinkTags. rewrite render_includes by done. cbn [negb].
  destruct (think_loop_render (S (length (render segs t))) [] segs t [] [] Hwf) as (vp & Hloop & Hvp).
  { pose proof (segments_length segs t). lia. }
  cbn [app length concat] in Hloop, Hvp. rewrite Hloop, join_nil, Hvp. done.
Qed.

(** Every text is of that form. *)
Lemma segments_exist text : ∃ segs t, wf_segments segs t ∧ render segs t = text.
Proof.
  remember (length text) as n eqn:Hn. revert text Hn.
  induction n as [n IH] using lt_wf_ind; intros text ->.
  destruct (index_of OPEN_TAG text) as [k|] eqn:Eo.
  2: { exists [], (Visible text). split; [|done]. split; [constructor|]. by apply includes_false. }
  pose proof (index_of_take OPEN_TAG text k ltac:(done) Eo) as Hv.
  apply index_of_Some in Eo as [Eo Hlen]. set (rest := drop (k + length OPEN_TAG) text) in Eo.
  destruct (index_of CLOSE_TAG rest) as [j|] eqn:Ec.
  2: { exists [], (Unclosed (take k text) rest). split; [|by rewrite Eo at 2].
       split; [constructor|]. split; [done|]. by apply includes_false. }
  pose proof (index_of_take CLOSE_TAG rest j ltac:(done) Ec) as Hr.
  apply index_of_Some in Ec as [Ec Hlen2].
  set (text' := drop (j + length CLOSE_TAG) rest) in Ec.
  destruct (IH (length text')) with (text := text') as (segs & t & [Hs Ht] & Hren); [|done|].
  { unfold text', rest in *. rewrite !length_drop in *. rewrite OPEN_TAG_length, CLOSE_TAG_length in *. lia. }
  exists ((take k text, take j rest) :: segs), t. split; [split; [by constructor|done]|].
  unfold render in *. cbn [map concat fst snd]. rewrite <- !app_assoc, Hren, <- Ec, <- Eo. done.
Qed.

(** The think tag parser reads every text as it is meant: a text is a
    sequence of visible parts and closed thoughts, then visible text or a
    visible part and an unclosed thought. The visible content is the
    concatenation of the visible parts, the reasoning the thoughts separated
    by blank lines, both trimmed; the flag tells an unclosed thought. A text
    without opening tag is passed on untouched. *)
Theorem parseThinkTags_spec :
  (∀ text, ∃ segs t, wf_segments segs t ∧ render segs t = text)
  ∧ (∀ segs t, wf_segments segs t →
       parseThinkTags (render segs t) =
       if nonempty segs || is_unclosed t then
         {| visibleContent := trim (concat (map fst segs) ++ tail_visible t);
            thought := trim (join [c_nl; c_nl] (map snd segs ++ tail_thoughts t));
            hasUnclosedTag := is_unclosed t |}
       else {| visibleContent := tail_visible t; thought := []; hasUnclosedTag := false |}).
Proof.
  split; [apply segments_exist|]. intros segs t Hwf.
  destruct (nonempty segs || is_unclosed t) eqn:E.
  - apply parseThinkTags_render; [done|]. apply orb_true_iff in E as [E%nonempty_true|E]; auto.
  - apply orb_false_iff in E as [E1 E2]. destruct segs; [|done]. destruct t as [v|]; [|done].
    apply render_no_open, Hwf.
Qed.

Lemma parseThinkTags_spec_witness :
  parseThinkTags (render [(js "a", js "b")] (Visible (js "c"))) =
  {| visibleContent := js "ac"; thought := js "b"; hasUnclosedTag := false |}.
Proof.
  refine (proj2 parseThinkTags_spec [(js "a", js "b")] (Visible (js "c")) _).
  split; [constructor; [split; by_eval|constructor]|by_eval].
Defined.

(** ** Streaming *)

Lemma updateLast_snoc ms m f :
  from m = RoleAssistant → updateLastAssistantMessage (ms ++ [m]) f = ms ++ [f m].
Proof.
  intros Hm. unfold updateLastAssistantMessage.
  by rewrite last_snoc, bool_decide_eq_true_2, removelast_last.
Qed.

(** A message in the middle of an answer. *)
Definition answering (m : Message) : Prop :=
  from m = RoleAssistant ∧ m_status m ≠ Some ERROR ∧ ∃ v, versions m = [v].

(** The fields streaming does not touch. *)
Definition same_base (m m' : Message) : Prop :=
  m_key m' = m_key m ∧ from m' = from m ∧ sources m' = sources m ∧
  isReasoningComplete m' = isReasoningComplete m ∧ isContentComplete m' = isContentComplete m ∧
  errorCode m' = errorCode m ∧ map v_id (versions m') = map v_id (versions m).

Definition current (m : Message) : jstr := content (getCurrentVersion m).

Lemma stream_update_content m chunk :
  answering m →
  let m' := stream_update UContent chunk m in
  answering m' ∧ same_base m m' ∧ current m' = current m ++ chunk ∧ m_status m' = Some STREAMING
  ∧ reasoning m' = (if nonempty (thought (parseThinkTags (current m ++ chunk)))
                    then Some {| r_content := thought (parseThinkTags (current m ++ chunk)); duration := 0 |}
                    else reasoning m).
Proof.
  intros (Hf & Hs & v & Hv). unfold stream_update. rewrite bool_decide_eq_false_2 by done.
  assert (Hcat : (match truthy_string (Some chunk) with Some c => current m ++ c | None => current m end)
                 = current m ++ chunk) by (destruct chunk; cbn; by rewrite ?app_nil_r).
  unfold processStreamingContent. fold (current m). rewrite Hcat.
  assert (Hcv : getCurrentVersion m = v) by by unfold getCurrentVersion; rewrite Hv.
  unfold answering, same_base, current. cbn. rewrite Hv, Hcv. cbn.
  split; [by eauto|]. split; [by repeat split|done].
Qed.

(** The reasoning left by the chunks: that of the last prefix which has one. *)
Fixpoint last_thought (seen : jstr) (chunks : list jstr) (acc : option Reasoning) : option Reasoning :=
  match chunks with
  | [] => acc
  | c :: chunks' =>
      let t := thought (parseThinkTags (seen ++ c)) in
      last_thought (seen ++ c) chunks' (if nonempty t then Some {| r_content := t; duration := 0 |} else acc)
  end.

Lemma stream_fold m chunks :
  answering m →
  let m' := foldl (λ m c, stream_update UContent c m) m chunks in
  answering m' ∧ same_base m m' ∧ current m' = current m ++ concat chunks
  ∧ (chunks ≠ [] → m_status m' = Some STREAMING)
  ∧ reasoning m' = last_thought (current m) chunks (reasoning m).
Proof.
  revert m; induction chunks as [|c chunks IH]; intros m Hm; cbn [foldl concat last_thought].
  - rewrite app_nil_r. split; [done|]. split; [by repeat split|]. done.
  - destruct (stream_update_content m c Hm) as (Hm' & Hb & Hc & Hs & Hr).
    destruct (IH _ Hm') as (Ha & Hb' & Hc' & Hs' & Hr'). split; [done|]. split; [|split; [|split]].
    + unfold same_base in *. intuition congruence.
    + by rewrite Hc', Hc, app_assoc.
    + intros _. destruct chunks; [done|]. by apply Hs'.
    + by rewrite Hr', Hc, Hr.
Qed.

Lemma last_thought_full seen chunks acc :
  chunks ≠ [] → thought (parseThinkTags (seen ++ concat chunks)) ≠ [] →
  last_thought seen chunks acc =
  Some {| r_content := thought (parseThinkTags (seen ++ concat chunks)); duration := 0 |}.
Proof.
  revert seen acc; induction chunks as [|c chunks IH]; intros seen acc Hne Ht; [done|].
  cbn [last_thought concat] in *. destruct chunks as [|c2 chunks].
  - cbn [last_thought concat] in *. rewrite app_nil_r in *. by rewrite (proj2 (nonempty_true _) Ht).
  - rewrite app_assoc in *. by rewrite IH.
Qed.

Lemma last_thought_no_tag seen chunks acc :
  includes OPEN_TAG (seen ++ concat chunks) = false → last_thought seen chunks acc = acc.
Proof.
  revert seen acc; induction chunks as [|c chunks IH]; intros seen acc Ht; [done|].
  cbn [last_thought concat] in *. rewrite app_assoc in Ht. rewrite IH by done.
  by rewrite render_no_open by by eapply includes_app_l.
Qed.

(** A conversation whose last message awaits the answer. *)
Definition stream_chunks (ms : list Message) (chunks : list jstr) : list Message :=
  foldl (λ ms c, handleStreamUpdate ms UContent c) ms chunks.

Lemma stream_chunks_snoc ms m chunks :
  answering m →
  stream_chunks (ms ++ [m]) chunks = ms ++ [foldl (λ m c, stream_update UContent c m) m chunks].
Proof.
  revert m; induction chunks as [|c chunks IH]; intros m Hm; [done|]. cbn [stream_chunks foldl].
  unfold handleStreamUpdate. rewrite updateLast_snoc by apply Hm. unfold stream_chunks in IH.
  rewrite IH; [done|]. by apply stream_update_content.
Qed.

Lemma loading_answering k i : answering (createLoadingAssistantMessage k i).
Proof. split; [done|]. split; [done|]. by eexists. Qed.

(** The message after the chunks and the end of the stream. *)
Lemma stream_result ms k i chunks :
  chunks ≠ [] →
  let m0 := createLoadingAssistantMessage k i in
  let text := concat chunks in
  ∃ m, handleStreamComplete (stream_chunks (ms ++ [m0]) chunks) = ms ++ [m]
  ∧ same_base m0 m ∧ versions m = [{| v_id := Some i; content := visibleContent (parseThinkTags text) |}]
  ∧ m_status m = Some COMPLETE ∧ isReasoningStreaming m = Some false
  ∧ reasoning m =
      let r := match last_thought [] chunks None with Some r => r_content r | None => [] end in
      let r' := or_else_string r (thought (parseThinkTags text)) in
      if nonempty r' then Some {| r_content := r'; duration := 0 |} else None.
Proof.
  intros Hne. cbn zeta. set (m0 := createLoadingAssistantMessage k i).
  rewrite stream_chunks_snoc by apply loading_answering.
  destruct (stream_fold m0 chunks (loading_answering k i)) as (Ha & Hb & Hc & Hs & Hr).
  set (m1 := foldl _ m0 chunks) in *. specialize (Hs Hne). cbn [app] in Hc.
  change (current m0) with (@nil Z) in *. cbn [app] in Hc. change (reasoning m0) with (@None Reasoning) in Hr.
  unfold handleStreamComplete. rewrite updateLast_snoc by apply Ha. eexists. split; [reflexivity|].
  unfold stream_complete. rewrite Hs, !bool_decide_eq_false_2 by done. cbn [orb].
  unfold finalizeMessage. fold (current m1). rewrite Hc. cbn zeta.
  destruct Ha as (_ & _ & v & Hv). unfold same_base in Hb. rewrite Hv in Hb. cbn in Hb.
  destruct Hb as (H1 & H2 & H3 & H4 & H5 & H6 & H7).
  assert (Hid : v_id v = Some i) by congruence.
  split; [|split; [|split; [done|split; [done|]]]].
  - unfold same_base. cbn. unfold getCurrentVersion. rewrite Hv. cbn. by rewrite Hid.
  - cbn. unfold getCurrentVersion. by rewrite Hv, Hid.
  - cbn. unfold reasoning_content. rewrite Hr. destruct (last_thought [] chunks None) as [r|] eqn:El; [|done].
    assert (Hd : duration r = 0); [|by rewrite Hd].
    revert El. generalize (@nil Z). clear. assert (∀ seen acc, (∀ r, acc = Some r → duration r = 0) →
      last_thought seen chunks acc = Some r → duration r = 0) as H; [|intros seen; by apply H].
    induction chunks as [|c chunks IH]; cbn; intros seen acc Hacc; [apply Hacc|].
    apply IH. intros r'. case_match; [by intros [= <-]|apply Hacc].
Qed.

Lemma message_ext m m' :
  same_base m m' → versions m' = versions m → reasoning m' = reasoning m →
  isReasoningStreaming m' = isReasoningStreaming m → m_status m' = m_status m → m' = m.
Proof. destruct m, m'. unfold same_base. cbn. naive_solver. Qed.

Lemma answer_loading k i text :
  let t := parseThinkTags text in
  answer_message (Some text) None (createLoadingAssistantMessage k i) =
  {| m_key := k; from := RoleAssistant; versions := [{| v_id := Some i; content := visibleContent t |}];
     sources := None;
     reasoning := if nonempty (thought t) then Some {| r_content := thought t; duration := 0 |} else None;
     isReasoningStreaming := Some false; isReasoningComplete := Some false;
     isContentComplete := Some false; m_status := Some COMPLETE; errorCode := None |}.
Proof.
  assert (Htxt : default [] (truthy_string (Some text)) = text) by by destruct text.
  unfold answer_message. by rewrite Htxt.
Qed.

(** C28. Streaming an answer and receiving it whole give the same
    conversation: whatever pieces the content arrives in, after the end of
    the stream the conversation is the one a request without streaming
    yields, provided the answer as a whole has a thought or no think tag. *)
Theorem streaming_agrees_with_whole_answer ms k i chunks :
  chunks ≠ [] →
  thought (parseThinkTags (concat chunks)) ≠ [] ∨ includes OPEN_TAG (concat chunks) = false →
  let ms0 := ms ++ [createLoadingAssistantMessage k i] in
  handleStreamComplete (stream_chunks ms0 chunks) = receive_answer ms0 (Some (Some (concat chunks), None)).
Proof.
  intros Hne Hcase. cbn zeta. destruct (stream_result ms k i chunks Hne) as (m & -> & Hb & Hv & Hs & Hrs & Hr).
  unfold receive_answer. rewrite updateLast_snoc by done. rewrite answer_loading. f_equal. f_equal.
  apply message_ext; cbn [versions reasoning isReasoningStreaming m_status]; try done.
  rewrite Hr. cbn zeta. destruct Hcase as [Ht|Ht].
  - rewrite (last_thought_full [] chunks None Hne Ht). cbn [r_content app]. unfold or_else_string.
    by rewrite !(proj2 (nonempty_true _) Ht).
  - by rewrite (last_thought_no_tag [] chunks None Ht).
Qed.

Lemma streaming_agrees_with_whole_answer_witness :
  let ms0 := [createUserMessage (js "u") (js "v") (js "hi")] ++ [createLoadingAssistantMessage (js "k") (js "i")] in
  handleStreamComplete (stream_chunks ms0 (map js ["<thi"; "nk>why</th"; "ink>yes"]%string)) =
  receive_answer ms0 (Some (Some (concat (map js ["<thi"; "nk>why</th"; "ink>yes"]%string)), None)).
Proof. apply streaming_agrees_with_whole_answer; [done|]. left. vm_compute. congruence. Defined.

(** A proper part of the closing tag is read as a thought. *)
Lemma partial_close_thought a b :
  CLOSE_TAG = a ++ b → a ≠ [] → b ≠ [] → thought (parseThinkTags (OPEN_TAG ++ a)) = a.
Proof.
  intros Hab Ha Hb.
  assert (Hn : a = take (length a) CLOSE_TAG) by by rewrite Hab, take_app_length.
  assert (Hl : (length a + length b = 8)%nat) by by rewrite <- length_app, <- Hab.
  assert (Hb0 : (length b ≠ 0)%nat) by by destruct b. assert (Ha0 : (length a ≠ 0)%nat) by by destruct a.
  generalize dependent (length a). intros n -> Hl Hn0.
  do 8 (destruct n as [|n]; [by_eval || lia|]). lia.
Qed.

(** Streaming loses that agreement on an empty thought: when a closing
    tag that directly follows the opening tag is split between two pieces,
    the part of the tag that came first is kept as the reasoning of the
    finished answer, although the answer has none. *)
Theorem streaming_keeps_partial_tag ms k i a b v :
  CLOSE_TAG = a ++ b → a ≠ [] → b ≠ [] → includes OPEN_TAG v = false →
  let ms0 := ms ++ [createLoadingAssistantMessage k i] in
  (∃ m, handleStreamComplete (stream_chunks ms0 [OPEN_TAG ++ a; b ++ v]) = ms ++ [m] ∧
     current m = trim v ∧ reasoning m = Some {| r_content := a; duration := 0 |})
  ∧ ∃ m', receive_answer ms0 (Some (Some (OPEN_TAG ++ a ++ b ++ v), None)) = ms ++ [m'] ∧
     current m' = trim v ∧ reasoning m' = None.
Proof.
  intros Hab Ha Hb Hv. cbn zeta.
  assert (Hfull : concat [OPEN_TAG ++ a; b ++ v] = render [([], [])] (Visible v)).
  { unfold render. cbn [concat map fst snd app render_tail]. rewrite !app_nil_r, <- !app_assoc.
    by rewrite (app_assoc a b), <- Hab. }
  assert (Hparse : parseThinkTags (render [([], [])] (Visible v)) =
    {| visibleContent := trim v; thought := []; hasUnclosedTag := false |}).
  { rewrite parseThinkTags_render; [done| |by left]. split; [|done]. repeat constructor; by_eval. }
  pose proof (partial_close_thought a b Hab Ha Hb) as Hfirst.
  split.
  - destruct (stream_result ms k i [OPEN_TAG ++ a; b ++ v] ltac:(done)) as (m & Hm & _ & Hvs & _ & _ & Hr).
    exists m. split; [done|]. rewrite Hfull, Hparse in Hvs. split; [unfold current, getCurrentVersion; by rewrite Hvs|].
    rewrite Hr. cbn [last_thought app]. rewrite Hfirst.
    replace ((OPEN_TAG ++ a) ++ b ++ v) with (concat [OPEN_TAG ++ a; b ++ v]) by (cbn; by rewrite app_nil_r).
    rewrite Hfull, Hparse. cbn. rewrite (proj2 (nonempty_true a) Ha). cbn. unfold or_else_string.
    by rewrite !(proj2 (nonempty_true a) Ha).
  - unfold receive_answer. rewrite updateLast_snoc, answer_loading by done. eexists. split; [done|].
    replace (OPEN_TAG ++ a ++ b ++ v) with (concat [OPEN_TAG ++ a; b ++ v])
      by (cbn [concat]; by rewrite app_nil_r, <- app_assoc).
    rewrite Hfull, Hparse. done.
Qed.

Lemma streaming_keeps_partial_tag_witness :
  ∃ m, handleStreamComplete (stream_chunks ([] ++ [createLoadingAssistantMessage (js "k") (js "i")])
         [OPEN_TAG ++ js "</th"; js "ink>" ++ js "Hello"]) = [] ++ [m] ∧
    current m = trim (js "Hello") ∧ reasoning m = Some {| r_content := js "</th"; duration := 0 |}.
Proof.
  refine (proj1 (streaming_keeps_partial_tag [] (js "k") (js "i") (js "</th") (js "ink>") (js "Hello") _ _ _ _));
    by vm_compute.
Defined.

(** ** Conversations loaded from storage *)

Lemma last_stuck_Some ms before m after :
  last_stuck ms = Some (before, m, after) →
  ms = before ++ m :: after ∧ is_stuck m = true ∧ Forall (λ m, is_stuck m = false) after.
Proof.
  revert before; induction ms as [|x ms IH]; intros before; cbn; [done|].
  destruct (last_stuck ms) as [[[b t] a]|] eqn:E.
  - intros [= <- <- <-]. destruct (IH b eq_refl) as (-> & Ht & Ha). done.
  - destruct (is_stuck x) eqn:Ex; [|done]. intros [= <- <- <-]. split; [done|]. split; [done|].
    clear -E. induction ms as [|y ms IH]; [constructor|]. cbn in E.
    destruct (last_stuck ms) as [[[b t] a]|] eqn:E2; [done|]. destruct (is_stuck y) eqn:Ey; [done|].
    constructor; [done|]. by apply IH.
Qed.

Lemma last_stuck_None ms : last_stuck ms = None ↔ Forall (λ m, is_stuck m = false) ms.
Proof.
  induction ms as [|x ms IH]; cbn; [split; [constructor|done]|]. rewrite Forall_cons.
  destruct (last_stuck ms) as [[[b t] a]|]; [split; [done|]; intros [_ H]; by apply IH in H|].
  destruct (is_stuck x); naive_solver.
Qed.

(** A finished message: complete with something to show, or an error. *)
Definition settled (m : Message) : Prop :=
  isReasoningStreaming m = Some false ∧
  ((m_status m = Some COMPLETE ∧ (trim (current m) ≠ [] ∨ trim (reasoning_content m) ≠ []))
   ∨ (m_status m = Some ERROR ∧ current m = API_REQUEST_ERROR ++ js ": " ++ INTERRUPTED)).

Lemma sanitize_target_settled m : settled (sanitize_target m).
Proof.
  unfold sanitize_target, settled.
  destruct (_ || _) eqn:E; cbn -[API_REQUEST_ERROR INTERRUPTED]; (split; [done|]).
  - left. split; [done|]. apply orb_true_iff in E as [E|E]; apply nonempty_true in E; auto.
  - by right.
Qed.

Lemma settled_not_stuck m : settled m → is_stuck m = false.
Proof. unfold is_stuck. intros (_ & [[-> _]|[-> _]]); by rewrite andb_false_r. Qed.

(** Loading repairs an interrupted conversation: a conversation without
    an assistant message still loading or streaming is unchanged; otherwise
    exactly the last such message is replaced, in its place, by one that is
    complete and shows a text or a reasoning, or is marked as interrupted.
    Hence a conversation with one interrupted message is repaired for good. *)
Theorem sanitizeMessagesOnLoad_spec ms :
  (Forall (λ m, is_stuck m = false) ms → sanitizeMessagesOnLoad ms = ms)
  ∧ (∀ before m after, ms = before ++ m :: after → is_stuck m = true →
       Forall (λ m, is_stuck m = false) after →
       ∃ m', sanitizeMessagesOnLoad ms = before ++ m' :: after ∧ settled m' ∧
         m_key m' = m_key m ∧ from m' = from m ∧
         (Forall (λ m, is_stuck m = false) before →
            sanitizeMessagesOnLoad (sanitizeMessagesOnLoad ms) = sanitizeMessagesOnLoad ms)).
Proof.
  assert (Hid : ∀ ms, Forall (λ m, is_stuck m = false) ms → sanitizeMessagesOnLoad ms = ms).
  { intros l Hl%last_stuck_None. unfold sanitizeMessagesOnLoad. by rewrite Hl. }
  split; [apply Hid|]. intros before m after -> Hm Ha.
  destruct (last_stuck (before ++ m :: after)) as [[[b t] a]|] eqn:E.
  2: { apply last_stuck_None, Forall_app in E as [_ E]. inversion E; congruence. }
  assert (Hs : sanitizeMessagesOnLoad (before ++ m :: after) = b ++ sanitize_target t :: a)
    by by unfold sanitizeMessagesOnLoad; rewrite E.
  apply last_stuck_Some in E as (E & Ht & Ha').
  assert (before = b ∧ m = t ∧ after = a) as (<- & <- & <-).
  { clear Hs. revert b E; induction before as [|x before IH]; intros [|y b] E; cbn in E; simplify_eq.
    - done.
    - exfalso. apply Forall_app in Ha as [_ Ha]. inversion Ha; congruence.
    - exfalso. apply Forall_app in Ha' as [_ Ha']. inversion Ha'; congruence.
    - destruct (IH b) as (-> & -> & ->); done. }
  exists (sanitize_target m). split; [done|]. split; [apply sanitize_target_settled|].
  split; [unfold sanitize_target; by case_match|]. split; [unfold sanitize_target; by case_match|].
  intros Hb. rewrite Hs. apply Hid, Forall_app. split; [done|]. constructor; [|done].
  apply settled_not_stuck, sanitize_target_settled.
Qed.

Lemma sanitizeMessagesOnLoad_spec_witness :
  let ms := [createUserMessage (js "u") (js "v") (js "hi")] ++ createLoadingAssistantMessage (js "k") (js "i") :: [] in
  ∃ m', sanitizeMessagesOnLoad ms = [createUserMessage (js "u") (js "v") (js "hi")] ++ m' :: [] ∧ settled m'.
Proof.
  destruct (proj2 (sanitizeMessagesOnLoad_spec
    ([createUserMessage (js "u") (js "v") (js "hi")] ++ createLoadingAssistantMessage (js "k") (js "i") :: []))
    _ _ _ eq_refl eq_refl (Forall_nil_2 _)) as (m' & H & Hs & _).
  exists m'. exact (conj H Hs).
Defined.

(** ** What a stream may change *)

(** Only the last message, and that only if it is the assistant's. *)
Definition confined (ms ms' : list Message) : Prop :=
  ms' = ms ∨ ∃ before m m', ms = before ++ [m] ∧ ms' = before ++ [m'] ∧
    from m = RoleAssistant ∧ from m' = RoleAssistant ∧ m_key m' = m_key m.

Lemma confined_refl ms : confined ms ms.
Proof. by left. Qed.

Lemma confined_trans ms1 ms2 ms3 : confined ms1 ms2 → confined ms2 ms3 → confined ms1 ms3.
Proof.
  intros [->|(b & m & m' & -> & -> & Hm & Hm' & Hk)]; [done|].
  intros [->|(b2 & m2 & m3 & Heq & -> & Hm2 & Hm3 & Hk3)]; [right; eauto 10|].
  apply app_inj_tail in Heq as [<- <-]. right. exists b, m, m3. intuition congruence.
Qed.

Lemma updateLast_confined ms f :
  (∀ m, from (f m) = from m ∧ m_key (f m) = m_key m) → confined ms (updateLastAssistantMessage ms f).
Proof.
  intros Hf. unfold updateLastAssistantMessage. destruct (last ms) as [l|] eqn:E; [|by left].
  destruct (bool_decide (from l = RoleAssistant)) eqn:Eb; cbn; reflect_bools; [|by left].
  apply last_Some in E as (b & ->). rewrite removelast_last. right. exists b, l, (f l).
  destruct (Hf l). intuition congruence.
Qed.

Lemma stream_update_base t c m : from (stream_update t c m) = from m ∧ m_key (stream_update t c m) = m_key m.
Proof. unfold stream_update. case_match; [done|]. by destruct t. Qed.

Lemma apply_delta_confined ms d : confined ms (apply_delta ms d).
Proof.
  unfold apply_delta. eapply confined_trans; [|case_match; [apply updateLast_confined, stream_update_base|apply confined_refl]].
  case_match; [apply updateLast_confined, stream_update_base|apply confined_refl].
Qed.

Lemma handleError_confined s e c : confined (conversation s) (conversation (handleError s e c)).
Proof.
  unfold handleError. case_match; [apply confined_refl|]. cbn [conversation].
  by apply updateLast_confined.
Qed.

Lemma stream_event_confined s e : confined (conversation s) (conversation (stream_event s e)).
Proof.
  destruct e as [data|data rs|rs st]; cbn [stream_event].
  - unfold on_message. case_match; cbn [conversation].
    + apply updateLast_confined. intros m. unfold stream_complete. by case_match.
    + destruct (throw_if_none (json_parse data) ≫= chunk_delta) as [[d|]|]; cbn [conversation];
        [apply apply_delta_confined|apply confined_refl|apply handleError_confined].
  - unfold on_error. case_match; [apply confined_refl|]. destruct (error_details data).
    apply handleError_confined.
  - unfold on_readystatechange. repeat case_match; try apply confined_refl. apply handleError_confined.
Qed.

Lemma update_error_message b m t c :
  from m = RoleAssistant → m_status m = Some ERROR → handleStreamUpdate (b ++ [m]) t c = b ++ [m].
Proof.
  intros Hf Hs. unfold handleStreamUpdate. rewrite updateLast_snoc by done.
  unfold stream_update. by rewrite bool_decide_eq_true_2.
Qed.

(** A stream cannot disturb the conversation: whatever events arrive,
    all messages but the last keep their place and content, and the last only
    changes if it is the assistant's, keeping its key and author. After the
    end of the stream failures are no longer reported, and after a failure
    further pieces and the end of the stream leave the error as it is. *)
Theorem stream_confined s es :
  confined (conversation s) (conversation (foldl stream_event s es))
  ∧ (isStreamComplete s = true → ∀ data rs st,
       stream_event s (ErrorEvent data (default 0 rs)) = s ∧ stream_event s (ReadyStateEvent rs st) = s)
  ∧ (∀ b m data, conversation s = b ++ [m] → from m = RoleAssistant → m_status m = Some ERROR →
       throw_if_none (json_parse data) ≫= chunk_delta ≠ Throw ∨ data = js "[DONE]" →
       conversation (stream_event s (MessageEvent data)) = conversation s).
Proof.
  split; [|split].
  - revert s; induction es as [|e es IH]; intros s; [apply confined_refl|]. cbn [foldl].
    eapply confined_trans; [apply stream_event_confined|apply IH].
  - intros Hc data rs st. assert (Hh : ∀ e c, handleError s e c = s) by (intros; unfold handleError; by rewrite Hc).
    split; cbn [stream_event].
    + unfold on_error. case_match; [done|]. destruct (error_details data). apply Hh.
    + unfold on_readystatechange. repeat case_match; done || apply Hh.
  - intros b m data Hconv Hf Hs Hd. cbn [stream_event]. unfold on_message.
    destruct (bool_decide (data = js "[DONE]")) eqn:Eb; reflect_bools; cbn [conversation].
    + rewrite Hconv. unfold handleStreamComplete. rewrite updateLast_snoc by done. unfold stream_complete.
      rewrite (bool_decide_eq_true_2 (m_status m = Some ERROR)), orb_true_r by done. done.
    + destruct Hd as [Hd|]; [|done]. destruct (throw_if_none (json_parse data) ≫= chunk_delta) as [[d|]|]; [|done|done]. cbn [conversation].
      rewrite Hconv. unfold apply_delta. repeat case_match; by rewrite ?update_error_message.
Qed.

(** An error of the last message is only replaced by another error. *)
Example error_survives_late_chunks :
  let s0 := start_stream [createLoadingAssistantMessage (js "k") (js "i")] in
  let chunk := map (λ c, if c =? 39 then c_quote else c) (js "{'choices':[{'delta':{'content':'late'}}]}") in
  let s1 := stream_event s0 (ErrorEvent (Some (js "boom")) 1) in
  map m_status (conversation s1) = [Some ERROR] ∧
  conversation (stream_event s1 (MessageEvent chunk)) = conversation s1.
Proof. split; by_eval. Qed.

Lemma stream_confined_witness :
  let s0 := start_stream [createLoadingAssistantMessage (js "k") (js "i")] in
  let s1 := stream_event s0 (ErrorEvent (Some (js "boom")) 1) in
  conversation (stream_event s1 (MessageEvent (js "[DONE]"))) = conversation s1.
Proof.
  cbv zeta.
  set (s1 := stream_event (start_stream [createLoadingAssistantMessage (js "k") (js "i")])
               (ErrorEvent (Some (js "boom")) 1)).
  destruct (conversation s1) as [|m ms] eqn:E; [by vm_compute in E|].
  destruct ms as [|m2 ms]; [|by vm_compute in E].
  rewrite <- E. refine (proj2 (proj2 (stream_confined s1 [])) [] m _ E _ _ _); [| |by right];
    vm_compute in E; injection E as <-; reflexivity.
Defined.

(** ** Requests *)

(** Keys emitted at most once each, by distinct elements, are distinct. *)
Lemma NoDup_flat_map_keys {K V} (f : K → list (K * V)) l :
  (∀ k e, (e ∈ f k → e.1 = k) ∧ (length (f k) ≤ 1)%nat) → NoDup l → NoDup (map fst (flat_map f l)).
Proof.
  intros Hf. induction l as [|k l IH]; intros Hnd; [apply NoDup_nil_2|].
  apply NoDup_cons in Hnd as [Hn Hnd]. cbn [flat_map]. rewrite map_app. apply NoDup_app.
  assert (Hk : ∀ x, x ∈ map fst (f k) → x = k).
  { intros x (e & -> & He)%list_elem_of_fmap. by apply Hf. }
  split; [|split; [|by apply IH]].
  - destruct (f k) as [|e [|e2 r]] eqn:E; [apply NoDup_nil_2|apply NoDup_singleton|].
    pose proof (proj2 (Hf k e)) as Hl. rewrite E in Hl. cbn in Hl. lia.
  - intros x ->%Hk (e & -> & He)%list_elem_of_fmap. apply list_elem_of_In, in_flat_map in He as (k' & Hk' & He).
    apply list_elem_of_In in He, Hk'. apply Hf in He. apply Hn. by rewrite He.
Qed.

(** A request carries the conversation as it stands and the parameters
    switched on: the messages are the non-blank ones in order, so a pending
    answer is never sent; and a parameter is sent exactly when it is enabled
    and set, once, with its configured value. *)
Theorem buildChatCompletionPayload_spec messages config enabled k i :
  let p := buildChatCompletionPayload messages config enabled in
  req_messages (buildChatCompletionPayload (messages ++ [createLoadingAssistantMessage k i]) config enabled)
    = req_messages p
  ∧ (∀ c, c ∈ req_messages p → role c = RoleAssistant → trim (c_content c) ≠ [])
  ∧ (∀ key v, (key, v) ∈ req_parameters p ↔ enabled key = true ∧ config_value config key = Some v)
  ∧ NoDup (map fst (req_parameters p)).
Proof.
  cbn zeta. split; [|split; [|split]].
  - cbn. unfold filterb. rewrite List.filter_app. cbn. by rewrite app_nil_r.
  - cbn [req_messages buildChatCompletionPayload].
    intros c (m & -> & [_ Hv]%elem_of_filterb)%list_elem_of_fmap Hr.
    cbn [role c_content formatMessageForAPI] in *. unfold isValidMessage, getCurrentVersion in *. destruct (versions m) as [|v vs]; [done|].
    rewrite bool_decide_eq_true_2 in Hv by done.
    intros E. by rewrite E in Hv.
  - intros key v. cbn [req_parameters buildChatCompletionPayload].
    rewrite list_elem_of_In, in_flat_map. setoid_rewrite <- list_elem_of_In. split.
    + intros (key' & _ & H). destruct (enabled key') eqn:Ee; [|set_solver].
      destruct (config_value config key') eqn:Ec; [|set_solver].
      apply list_elem_of_singleton in H as [= -> ->]. done.
    + intros [He Hv]. exists key. split; [destruct key; cbn; set_solver|]. rewrite He, Hv. by left.
  - cbn [req_parameters buildChatCompletionPayload].
    apply NoDup_flat_map_keys; [|apply (bool_decide_unpack _); by_eval].
    intros key e. destruct (enabled key); [|set_solver]. destruct (config_value config key); [|set_solver].
    split; [by intros ->%list_elem_of_singleton|done].
Qed.
