(* ===== verification/ChatSession.v ===== *)
(** * Playground sessions

    Model of the playground page around its conversation,
    [web/default/src/features/playground/index.tsx]: sending, regenerating,
    editing and deleting messages, with the requests of
    [hooks/use-chat-handler.ts] and [hooks/use-stream-request.ts], the edit
    form of [components/playground-chat.tsx], the guards of
    [components/message-actions.tsx] and [components/playground-input.tsx], and
    the conversation kept by [hooks/use-playground-state.ts]. Several streams
    can be open; their listeners share the two references of the hook. A
    handler sees the state of the last update; a closed stream delivers no more
    events. Identifiers drawn by [nanoid] are part of the events. *)

From Stdlib Require Import String.
From S2P Require Import JsJson ChatMessages.

Definition STREAM_START_ERROR : jstr := js "Error establishing connection".

(** The page. [pg_open] are the streams that still deliver, [pg_source] is
    [sseSourceRef], [pg_complete] is [isStreamCompleteRef], [pg_pending] the
    requests without streaming that wait for their answer, [pg_next] numbers
    requests. [pg_draft] and [pg_original] are the texts of the edit form. *)
Record Page := {
  pg_messages : list Message;
  pg_editing : option jstr;
  pg_draft : jstr;
  pg_original : jstr;
  pg_open : list nat;
  pg_source : option nat;
  pg_complete : bool;
  pg_pending : list nat;
  pg_next : nat;
}.

Definition isGenerating (p : Page) : bool := match pg_source p with Some _ => true | None => false end.

Definition load_page (messages : list Message) : Page :=
  {| pg_messages := messages; pg_editing := None; pg_draft := []; pg_original := []; pg_open := []; pg_source := None;
     pg_complete := false; pg_pending := []; pg_next := 0 |}.

(** [messages.findIndex((m) => m.key === key)] *)
Fixpoint find_key (messages : list Message) (key : jstr) : option nat :=
  match messages with
  | [] => None
  | m :: rest => if decide (m_key m = key) then Some 0%nat else S <$> find_key rest key
  end.

(** [messages.find(...)?.versions?.[0]?.content || ''] *)
Definition text_of_key (messages : list Message) (key : jstr) : jstr :=
  match find_key messages key ≫= λ i, messages !! i with
  | Some m => match versions m with v :: _ => content v | [] => [] end
  | None => []
  end.

Definition set_request (open : list nat) (source : option nat) (complete : bool) (pending : list nat) (next : nat) (p : Page) : Page :=
  {| pg_messages := pg_messages p; pg_editing := pg_editing p; pg_draft := pg_draft p; pg_original := pg_original p;
     pg_open := open; pg_source := source; pg_complete := complete; pg_pending := pending; pg_next := next |}.

(** The effect of the edit form: the text of the message edited is taken anew. *)
Definition edit_effect (p : Page) : Page :=
  match pg_editing p with
  | Some (c :: k) =>
      let text := text_of_key (pg_messages p) (c :: k) in
      {| pg_messages := pg_messages p; pg_editing := pg_editing p; pg_draft := text; pg_original := text;
         pg_open := pg_open p; pg_source := pg_source p; pg_complete := pg_complete p; pg_pending := pg_pending p; pg_next := pg_next p |}
  | _ => p
  end.

Definition with_messages (messages : list Message) (p : Page) : Page :=
  {| pg_messages := messages; pg_editing := pg_editing p; pg_draft := pg_draft p; pg_original := pg_original p;
     pg_open := pg_open p; pg_source := pg_source p; pg_complete := pg_complete p; pg_pending := pg_pending p; pg_next := pg_next p |}.

(** [updateMessages] with a new array, and the effect that depends on it. *)
Definition updateMessages (messages : list Message) (p : Page) : Page := edit_effect (with_messages messages p).

Definition set_editing (editing : option jstr) (p : Page) : Page :=
  {| pg_messages := pg_messages p; pg_editing := editing; pg_draft := pg_draft p; pg_original := pg_original p;
     pg_open := pg_open p; pg_source := pg_source p; pg_complete := pg_complete p; pg_pending := pg_pending p; pg_next := pg_next p |}.

Definition set_draft (text : jstr) (p : Page) : Page :=
  {| pg_messages := pg_messages p; pg_editing := pg_editing p; pg_draft := text; pg_original := pg_original p;
     pg_open := pg_open p; pg_source := pg_source p; pg_complete := pg_complete p; pg_pending := pg_pending p; pg_next := pg_next p |}.

(** [onMessageUpdate] with an updater of the last message: another array only
    when that message is the assistant's. *)
Definition last_is_assistant (messages : list Message) : bool :=
  match last messages with Some l => bool_decide (from l = RoleAssistant) | None => false end.

Definition update_last (f : list Message → list Message) (p : Page) : Page :=
  if last_is_assistant (pg_messages p) then updateMessages (f (pg_messages p)) p else p.

(** ** Sending *)

(** [sendStreamRequest]; [starts] is whether [source.stream()] returns. *)
Definition sendStreamRequest (starts : bool) (p : Page) : Page :=
  let n := pg_next p in
  if starts
  then set_request (n :: pg_open p) (Some n) false (pg_pending p) (S n) p
  else set_request (pg_open p) None false (pg_pending p) (S n)
         (update_last (λ ms, handleStreamError ms STREAM_START_ERROR None) p).

(** [sendNonStreamingChat], up to its answer *)
Definition sendNonStreamingChat (p : Page) : Page :=
  set_request (pg_open p) (pg_source p) (pg_complete p) (pg_next p :: pg_pending p) (S (pg_next p)) p.

Definition sendChat (stream starts : bool) (p : Page) : Page :=
  if stream then sendStreamRequest starts p else sendNonStreamingChat p.

(** The identifiers of the messages a handler creates. *)
Record Ids := { id_user : jstr; id_user_version : jstr; id_assistant : jstr; id_assistant_version : jstr }.

Definition loading (ids : Ids) : Message := createLoadingAssistantMessage (id_assistant ids) (id_assistant_version ids).

Definition handleSendMessage (stream starts : bool) (ids : Ids) (text : jstr) (p : Page) : Page :=
  sendChat stream starts
    (updateMessages (pg_messages p ++ [createUserMessage (id_user ids) (id_user_version ids) text; loading ids]) p).

Definition handleRegenerateMessage (stream starts : bool) (ids : Ids) (key : jstr) (p : Page) : Page :=
  match find_key (pg_messages p) key with
  | None => p
  | Some i => sendChat stream starts (updateMessages (take i (pg_messages p) ++ [loading ids]) p)
  end.

(** ** Editing *)

Definition handleEditMessage (key : jstr) (p : Page) : Page := edit_effect (set_editing (Some key) p).
Definition handleEditOpenChange (p : Page) : Page := set_editing None p.

(** [{ ...m, versions: [{ ...m.versions[0], content }] }] *)
Definition edited (key newContent : jstr) (m : Message) : Message :=
  if decide (m_key m = key)
  then with_versions m [{| v_id := match versions m with v :: _ => v_id v | [] => None end; content := newContent |}]
  else m.

Definition applyEdit (stream starts : bool) (ids : Ids) (newContent : jstr) (submit : bool) (p : Page) : Page :=
  match pg_editing p with
  | None | Some [] => p
  | Some key =>
      match find_key (pg_messages p) key with
      | None => p
      | Some index =>
          let updated := map (edited key newContent) (pg_messages p) in
          let p := set_editing None p in
          let from_user := match updated !! index with Some m => bool_decide (from m = RoleUser) | None => false end in
          if negb submit || negb from_user then updateMessages updated p
          else sendChat stream starts (updateMessages (take (S index) updated ++ [loading ids]) p)
      end
  end.

Definition handleDeleteMessage (key : jstr) (p : Page) : Page :=
  updateMessages (filterb (λ m, negb (bool_decide (m_key m = key))) (pg_messages p)) p.

(** ** Stopping, streams and answers *)

(** The stream the reference holds is closed. *)
Definition stopStream (p : Page) : Page :=
  match pg_source p with
  | Some n => set_request (filterb (λ i, negb (i =? n)%nat) (pg_open p)) None (pg_complete p) (pg_pending p) (pg_next p) p
  | None => p
  end.

Definition handleStop (p : Page) : Page := update_last stopGeneration (stopStream p).

(** Whether a listener updates the conversation. *)
Definition event_updates (complete : bool) (e : StreamEvent) : bool :=
  match e with
  | MessageEvent data =>
      bool_decide (data = js "[DONE]")
      || match throw_if_none (json_parse data) ≫= chunk_delta with
         | Throw => negb complete
         | Ret None => false
         | Ret (Some d) =>
             match truthy_value (obj_get d (js "reasoning_content")), truthy_value (obj_get d (js "content")) with
             | None, None => false
             | _, _ => true
             end
         end
  | ErrorEvent _ readyState => negb (readyState =? 2) && negb complete
  | ReadyStateEvent (Some r) (Some st) => (2 <=? r) && negb (st =? 200) && negb complete
  | ReadyStateEvent _ _ => false
  end.

(** A listener of stream [n] runs: the shared references, its own stream. *)
Definition source_event (n : nat) (e : StreamEvent) (p : Page) : Page :=
  let s := stream_event {| sse_open := true; isStreamComplete := pg_complete p; conversation := pg_messages p |} e in
  let p' := if event_updates (pg_complete p) e && last_is_assistant (pg_messages p)
            then updateMessages (conversation s) p else p in
  if sse_open s
  then set_request (pg_open p') (pg_source p') (isStreamComplete s) (pg_pending p') (pg_next p') p'
  else set_request (filterb (λ i, negb (i =? n)%nat) (pg_open p')) None (isStreamComplete s) (pg_pending p') (pg_next p') p'.

(** The answer of a request without streaming, or its failure. *)
Inductive Response := Choice (choice : option (option jstr * option jstr)) | Failure (message : jstr) (code : option json).

Definition answer_event (n : nat) (r : Response) (p : Page) : Page :=
  let p := set_request (pg_open p) (pg_source p) (pg_complete p) (filterb (λ i, negb (i =? n)%nat) (pg_pending p)) (pg_next p) p in
  match r with
  | Choice None => p
  | Choice c => update_last (λ ms, receive_answer ms c) p
  | Failure message code => update_last (λ ms, handleStreamError ms message code) p
  end.

(** ** The page's events *)

Inductive SessionEvent :=
| Submit (starts : bool) (ids : Ids) (text : jstr)
| ClickSuggestion (starts : bool) (ids : Ids) (text : jstr)
| Regenerate (starts : bool) (ids : Ids) (key : jstr)
| Edit (key : jstr)
| CancelEdit
| TypeDraft (text : jstr)
| SaveEdit (ids : Ids)
| SaveAndSubmit (starts : bool) (ids : Ids)
| Delete (key : jstr)
| Stop
| Deliver (n : nat) (e : StreamEvent)
| Respond (n : nat) (r : Response).

(** The button of the edit form is enabled. *)
Definition can_save (p : Page) : bool :=
  nonempty (trim (pg_draft p)) && negb (bool_decide (pg_draft p = pg_original p)).

(** The guards: a text to send and no generation for the input, no generation
    for the actions of a message, none for the suggestions and the edit form. *)
Definition enabled (p : Page) (e : SessionEvent) : bool :=
  match e with
  | Submit _ _ text => nonempty (trim text) && negb (isGenerating p)
  | ClickSuggestion _ _ _ | CancelEdit | TypeDraft _ => true
  | Regenerate _ _ _ | Edit _ | Delete _ => negb (isGenerating p)
  | SaveEdit _ | SaveAndSubmit _ _ => can_save p
  | Stop => isGenerating p
  | Deliver n _ => existsb (Nat.eqb n) (pg_open p)
  | Respond n _ => existsb (Nat.eqb n) (pg_pending p)
  end.

Definition perform (stream : bool) (p : Page) (e : SessionEvent) : Page :=
  match e with
  | Submit starts ids text | ClickSuggestion starts ids text => handleSendMessage stream starts ids text p
  | Regenerate starts ids key => handleRegenerateMessage stream starts ids key p
  | Edit key => handleEditMessage key p
  | CancelEdit => handleEditOpenChange p
  | TypeDraft text => set_draft text p
  | SaveEdit ids => applyEdit stream true ids (pg_draft p) false p
  | SaveAndSubmit starts ids => applyEdit stream starts ids (pg_draft p) true p
  | Delete key => handleDeleteMessage key p
  | Stop => handleStop p
  | Deliver n e => source_event n e p
  | Respond n r => answer_event n r p
  end.

Definition session (stream : bool) (p : Page) (es : list SessionEvent) : Page :=
  foldl (λ p e, if enabled p e then perform stream p e else p) p es.

(** ** The choice of a model and a group *)

(** The effects that replace a model or a group the server does not offer. *)
Definition ensure_model (models : list jstr) (model : jstr) : jstr :=
  match models with
  | [] => model
  | first :: _ => if decide (model ∈ models) then model else first
  end.

Definition ensure_group (groups : list jstr) (group : jstr) : jstr :=
  match groups with
  | [] => group
  | first :: _ =>
      if decide (group ∈ groups) then group
      else if decide (js "default" ∈ groups) then js "default" else first
  end.
