(* ===== verification/ChatSessionProps.v ===== *)
(** * Playground sessions: what holds when answers do not overlap, and what
    happens when they do *)

From Stdlib Require Import String.
From S2P Require Import JsJson ChatMessages ChatMessagesProps ChatSession.

#[local] Opaque js.

(** ** The conversation under one event *)

Abbreviation unstuck := (λ m : Message, is_stuck m = false).

Lemma unstuck_not_assistant m : from m ≠ RoleAssistant → is_stuck m = false.
Proof. intros Hm. unfold is_stuck. by rewrite bool_decide_eq_false_2. Qed.

Lemma unstuck_status m s : s ≠ LOADING → s ≠ STREAMING → is_stuck (with_status m s) = false.
Proof. intros H1 H2. unfold is_stuck. cbn.
  rewrite (bool_decide_eq_false_2 (Some s = Some LOADING)), (bool_decide_eq_false_2 (Some s = Some STREAMING)) by congruence.
  by rewrite andb_false_r.
Qed.

Lemma unstuck_error m c : is_stuck (with_error m c) = false.
Proof. unfold is_stuck. cbn. by rewrite andb_false_r. Qed.

Lemma confined_removelast ms ms' : confined ms ms' → removelast ms' = removelast ms.
Proof. intros [->|(b & m & m' & -> & -> & _)]; [done|]. by rewrite !removelast_last. Qed.

Lemma confined_assistant ms ms' : confined ms ms' → last_is_assistant ms' = last_is_assistant ms.
Proof.
  intros [->|(b & m & m' & -> & -> & Hm & Hm' & _)]; [done|]. unfold last_is_assistant. rewrite !last_snoc.
  by rewrite Hm, Hm'.
Qed.

Lemma last_assistant_split ms : last_is_assistant ms = true ↔ ∃ b m, ms = b ++ [m] ∧ from m = RoleAssistant.
Proof.
  unfold last_is_assistant. split.
  - destruct (last ms) as [l|] eqn:E; [|done]. intros H%bool_decide_eq_true. apply last_Some in E as (b & ->). eauto.
  - intros (b & m & -> & Hm). by rewrite last_snoc, bool_decide_eq_true_2.
Qed.

(** A handler that leaves the assistant's last message unstuck leaves no other. *)
Lemma updateLast_unstuck ms f :
  Forall unstuck (removelast ms) → (∀ m, is_stuck (f m) = false) → Forall unstuck (updateLastAssistantMessage ms f).
Proof.
  intros Hr Hf. unfold updateLastAssistantMessage. destruct (last ms) as [l|] eqn:E.
  - apply last_Some in E as (b & ->). rewrite removelast_last in *. case_bool_decide; cbn [negb].
    + apply Forall_app. split; [done|]. by constructor.
    + apply Forall_app. split; [done|]. constructor; [by apply unstuck_not_assistant|done].
  - apply last_None in E as ->. constructor.
Qed.

Lemma complete_unstuck m : is_stuck (stream_complete m) = false.
Proof.
  unfold stream_complete. destruct (bool_decide (m_status m = Some COMPLETE) || _) eqn:E.
  - unfold is_stuck. apply orb_true_iff in E as [E%bool_decide_eq_true|E%bool_decide_eq_true]; rewrite E; by rewrite andb_false_r.
  - by apply unstuck_status.
Qed.

Lemma stop_unstuck m : is_stuck (stop_message m) = false.
Proof.
  unfold stop_message. destruct (bool_decide (m_status m = Some LOADING) || _) eqn:E; [by apply unstuck_status|].
  unfold is_stuck. by rewrite E, andb_false_r.
Qed.

(** A listener that closes its stream leaves no message stuck. *)
Lemma stream_event_closes s e :
  sse_open s = true → Forall unstuck (removelast (conversation s)) → sse_open (stream_event s e) = false →
  Forall unstuck (conversation (stream_event s e)).
Proof.
  intros Ho Hr. assert (Hh : ∀ m c, sse_open (handleError s m c) = false → Forall unstuck (conversation (handleError s m c))).
  { intros m c. unfold handleError. destruct (isStreamComplete s); [congruence|]. intros _. cbn.
    apply updateLast_unstuck; [done|]. intros x. apply unstuck_error. }
  destruct e as [data|data rs|rs st]; cbn [stream_event].
  - unfold on_message. case_bool_decide; [intros _; cbn; apply updateLast_unstuck; [done|apply complete_unstuck]|].
    destruct (throw_if_none (json_parse data) ≫= chunk_delta) as [[d|]|]; cbn; [congruence|congruence|apply Hh].
  - unfold on_error. destruct (rs =? 2); [congruence|]. destruct (error_details data). apply Hh.
  - unfold on_readystatechange. destruct rs, st; try congruence. destruct (_ && _); [apply Hh|congruence].
Qed.

Lemma stream_event_stays s e :
  isStreamComplete s = false → sse_open (stream_event s e) = true → isStreamComplete (stream_event s e) = false.
Proof.
  intros Hc. assert (Hh : ∀ m c, isStreamComplete (handleError s m c) = false) by (intros; unfold handleError; by rewrite Hc).
  destruct e as [data|data rs|rs st]; cbn [stream_event].
  - unfold on_message. case_bool_decide; [done|].
    destruct (throw_if_none (json_parse data) ≫= chunk_delta) as [[d|]|]; cbn; auto.
  - unfold on_error. destruct (rs =? 2); [done|]. by destruct (error_details data).
  - unfold on_readystatechange. destruct rs, st; try done. by destruct (_ && _).
Qed.

(** Whether the conversation can change is what [event_updates] says. *)
Lemma apply_delta_none ms d :
  truthy_value (obj_get d (js "reasoning_content")) = None → truthy_value (obj_get d (js "content")) = None → apply_delta ms d = ms.
Proof. unfold apply_delta. by intros -> ->. Qed.

Lemma event_updates_false s e : event_updates (isStreamComplete s) e = false → conversation (stream_event s e) = conversation s.
Proof.
  assert (Hh : ∀ m c, negb (isStreamComplete s) = false → conversation (handleError s m c) = conversation s)
    by (intros m c Hc%negb_false_iff; unfold handleError; by rewrite Hc).
  destruct e as [data|data rs|rs st]; cbn [stream_event event_updates].
  - unfold on_message. intros [Hd Hrest]%orb_false_iff. rewrite Hd.
    destruct (throw_if_none (json_parse data) ≫= chunk_delta) as [[d|]|]; cbn [conversation]; [|done|by apply Hh].
    destruct (truthy_value (obj_get d (js "reasoning_content"))) eqn:E1; [done|].
    destruct (truthy_value (obj_get d (js "content"))) eqn:E2; [done|]. by apply apply_delta_none.
  - unfold on_error. destruct (rs =? 2); [done|]. destruct (error_details data). apply Hh.
  - unfold on_readystatechange. destruct rs as [r|], st as [st|]; try done.
    destruct ((2 <=? r) && negb (st =? 200)); [apply Hh|done].
Qed.

Lemma not_assistant_updates ms f : last_is_assistant ms = false → updateLastAssistantMessage ms f = ms.
Proof. unfold last_is_assistant, updateLastAssistantMessage. destruct (last ms); [|done]. by intros ->. Qed.

Lemma stream_event_not_assistant s e : last_is_assistant (conversation s) = false → conversation (stream_event s e) = conversation s.
Proof.
  intros Hl. destruct (stream_event_confined s e) as [->|(b & m & m' & E & _ & Hm & _)]; [done|].
  exfalso. rewrite E in Hl. apply not_true_iff_false in Hl. apply Hl, last_assistant_split. eauto.
Qed.

(** ** The fields of the page *)

Lemma edit_effect_fields p :
  pg_messages (edit_effect p) = pg_messages p ∧ pg_open (edit_effect p) = pg_open p ∧ pg_source (edit_effect p) = pg_source p
  ∧ pg_complete (edit_effect p) = pg_complete p ∧ pg_pending (edit_effect p) = pg_pending p.
Proof. unfold edit_effect. by destruct (pg_editing p) as [[|c k]|]. Qed.

(** The conversation and the requests: what the invariant is about. *)
Definition request_state (p : Page) : list nat * option nat * bool * list nat :=
  (pg_open p, pg_source p, pg_complete p, pg_pending p).

Lemma request_fields p p' : request_state p' = request_state p →
  pg_open p' = pg_open p ∧ pg_source p' = pg_source p ∧ pg_complete p' = pg_complete p ∧ pg_pending p' = pg_pending p.
Proof. by intros [= -> -> -> ->]. Qed.

Lemma updateMessages_messages ms p : pg_messages (updateMessages ms p) = ms.
Proof. unfold updateMessages. by rewrite (proj1 (edit_effect_fields _)). Qed.

Lemma updateMessages_request ms p : request_state (updateMessages ms p) = request_state p.
Proof. unfold updateMessages, request_state. by destruct (edit_effect_fields (with_messages ms p)) as (_ & -> & -> & -> & ->). Qed.

Lemma update_last_messages f p :
  (last_is_assistant (pg_messages p) = false → f (pg_messages p) = pg_messages p) → pg_messages (update_last f p) = f (pg_messages p).
Proof. intros Hf. unfold update_last. destruct (last_is_assistant _); [apply updateMessages_messages|by rewrite Hf]. Qed.

Lemma update_last_request f p : request_state (update_last f p) = request_state p.
Proof. unfold update_last. destruct (last_is_assistant _); [apply updateMessages_request|done]. Qed.

Lemma source_event_messages n e p :
  pg_messages (source_event n e p)
  = conversation (stream_event {| sse_open := true; isStreamComplete := pg_complete p; conversation := pg_messages p |} e).
Proof.
  unfold source_event. cbv zeta. set (s := {| sse_open := true; isStreamComplete := _; conversation := _ |}).
  assert (H : pg_messages (if event_updates (pg_complete p) e && last_is_assistant (pg_messages p)
                           then updateMessages (conversation (stream_event s e)) p else p) = conversation (stream_event s e)).
  { destruct (event_updates (pg_complete p) e) eqn:E1; cbn [andb].
    - destruct (last_is_assistant (pg_messages p)) eqn:E2; [apply updateMessages_messages|].
      symmetry. by apply stream_event_not_assistant.
    - symmetry. by apply event_updates_false. }
  by destruct (sse_open (stream_event s e)).
Qed.

(** ** One answer at a time *)

(** Messages before the last are finished; a stream runs into the assistant's
    last message, or there is none and every message is finished. *)
Definition steady (p : Page) : Prop :=
  pg_pending p = [] ∧ Forall unstuck (removelast (pg_messages p))
  ∧ match pg_source p with
    | None => pg_open p = [] ∧ Forall unstuck (pg_messages p)
    | Some n => pg_open p = [n] ∧ pg_complete p = false ∧ last_is_assistant (pg_messages p) = true
    end.

Lemma steady_idle p : pg_pending p = [] → pg_source p = None → pg_open p = [] → Forall unstuck (pg_messages p) → steady p.
Proof.
  intros Hp Hs Ho Hm. unfold steady. rewrite Hs. split; [done|]. split; [|done]. revert Hm.
  destruct (pg_messages p) as [|m ms] using rev_ind; [done|]. rewrite removelast_last. by intros [? _]%Forall_app.
Qed.

Lemma steady_fields p p' :
  request_state p' = request_state p → pg_messages p' = pg_messages p → steady p → steady p'.
Proof. unfold steady, request_state. intros [= -> -> -> ->] ->. done. Qed.

Lemma idle_state p : steady p → isGenerating p = false →
  pg_pending p = [] ∧ pg_source p = None ∧ pg_open p = [] ∧ Forall unstuck (pg_messages p).
Proof. unfold steady, isGenerating. intros (Hp & _ & Hs). by destruct (pg_source p); [|destruct Hs]. Qed.

(** Starting a stream for a conversation of finished messages and a new one. *)
Lemma sendChat_steady starts ms m p :
  pg_pending p = [] → pg_source p = None → pg_open p = [] → Forall unstuck ms → from m = RoleAssistant →
  steady (sendChat true starts (updateMessages (ms ++ [m]) p)).
Proof.
  intros Hp Hs Ho Hms Hm. unfold sendChat, sendStreamRequest. cbv zeta.
  pose proof (updateMessages_request (ms ++ [m]) p) as Hr. pose proof (updateMessages_messages (ms ++ [m]) p) as Hmm.
  set (p1 := updateMessages _ p) in *. apply request_fields in Hr as (Ho1 & Hs1 & _ & Hp1).
  destruct starts.
  - unfold steady. cbn [pg_pending pg_messages pg_source pg_open pg_complete set_request].
    rewrite Hmm, removelast_last, Hp1, Ho1, Hp, Ho. split; [done|]. split; [done|]. split; [done|]. split; [done|].
    apply last_assistant_split. eauto.
  - apply steady_idle; cbn [pg_pending pg_messages pg_source pg_open set_request].
    1-3: pose proof (update_last_request (λ ms, handleStreamError ms STREAM_START_ERROR None) p1) as Hr;
      apply request_fields in Hr as (Ho2 & Hs2 & _ & Hp2); congruence.
    rewrite update_last_messages by (intros Hl; by apply not_assistant_updates). rewrite Hmm.
    apply updateLast_unstuck; [by rewrite removelast_last|]. intros x. apply unstuck_error.
Qed.

Lemma source_event_steady n e p : steady p → n ∈ pg_open p → steady (source_event n e p).
Proof.
  intros (Hp & Hr & Hs) Hn. destruct (pg_source p) as [i|] eqn:Ei; [|destruct Hs as [Ho _]; rewrite Ho in Hn; set_solver].
  destruct Hs as (Ho & Hc & Hl). assert (n = i) as -> by (rewrite Ho in Hn; set_solver).
  pose proof (source_event_messages i e p) as Hm. set (s := {| sse_open := true; isStreamComplete := pg_complete p; conversation := pg_messages p |}) in *.
  pose proof (stream_event_confined s e) as Hconf. unfold source_event in Hm |- *. cbv zeta in Hm |- *. fold s in Hm |- *.
  set (p' := if event_updates (pg_complete p) e && last_is_assistant (pg_messages p) then updateMessages (conversation (stream_event s e)) p else p) in *.
  assert (Hr' : request_state p' = request_state p) by (unfold p'; destruct (_ && _); [apply updateMessages_request|done]).
  apply request_fields in Hr' as (Ho' & Hs' & _ & Hp').
  assert (Hconv : pg_messages p' = conversation (stream_event s e)) by (by destruct (sse_open (stream_event s e))). clear Hm.
  destruct (sse_open (stream_event s e)) eqn:Eo.
  - unfold steady. cbn [pg_pending pg_messages pg_source pg_open pg_complete set_request]. rewrite Hp', Hs', Ho', Ei, Hconv.
    rewrite (confined_removelast _ _ Hconf), (confined_assistant _ _ Hconf).
    split; [done|]. split; [done|]. split; [done|]. split; [|done]. by apply stream_event_stays.
  - apply steady_idle; cbn [pg_pending pg_messages pg_source pg_open set_request]; [by rewrite Hp'|done| |].
    + rewrite Ho', Ho. unfold filterb. cbn. by rewrite Nat.eqb_refl.
    + rewrite Hconv. by apply stream_event_closes.
Qed.

Lemma stop_steady p : steady p → steady (handleStop p).
Proof.
  intros (Hp & Hr & Hs). unfold handleStop. pose proof (update_last_request stopGeneration (stopStream p)) as Hreq.
  apply request_fields in Hreq as (Ho' & Hs' & _ & Hp').
  assert (Hms : pg_messages (stopStream p) = pg_messages p) by (unfold stopStream; by destruct (pg_source p)).
  apply steady_idle.
  - rewrite Hp'. unfold stopStream. by destruct (pg_source p).
  - rewrite Hs'. unfold stopStream. by destruct (pg_source p) eqn:E.
  - rewrite Ho'. unfold stopStream. destruct (pg_source p) as [n|]; [|by destruct Hs]. destruct Hs as [Ho _]. cbn. rewrite Ho.
    unfold filterb. cbn. by rewrite Nat.eqb_refl.
  - rewrite update_last_messages by (intros Hl; by apply not_assistant_updates). rewrite Hms.
    apply updateLast_unstuck; [done|]. apply stop_unstuck.
Qed.

(** Edits keep the author and the status of every message. *)
Lemma edited_fields key text m : from (edited key text m) = from m ∧ is_stuck (edited key text m) = is_stuck m.
Proof. unfold edited. by destruct (decide _). Qed.

Lemma edited_unstuck key text ms : Forall unstuck ms → Forall unstuck (map (edited key text) ms).
Proof. intros Hms. rewrite Forall_map. apply (Forall_impl _ _ _ Hms). intros m Hm. by rewrite (proj2 (edited_fields key text m)). Qed.

Lemma edited_steady key text p : steady p → steady (updateMessages (map (edited key text) (pg_messages p)) (set_editing None p)).
Proof.
  intros (Hp & Hr & Hs). pose proof (updateMessages_request (map (edited key text) (pg_messages p)) (set_editing None p)) as Hreq.
  apply request_fields in Hreq as (Ho' & Hs' & Hc' & Hp').
  unfold steady. rewrite updateMessages_messages, Hp', Hs', Ho', Hc'. cbn [pg_pending pg_source pg_open pg_complete set_editing].
  destruct (pg_messages p) as [|m ms] eqn:Em using rev_ind.
  - cbn. destruct (pg_source p); [|by destruct Hs]. by destruct Hs as (_ & _ & ?).
  - rewrite map_app, removelast_last in *. cbn [map]. rewrite removelast_last.
    split; [done|]. split; [by apply edited_unstuck|]. destruct (pg_source p) as [n|].
    + destruct Hs as (Ho & Hc & Hl). split; [done|]. split; [done|].
      apply last_assistant_split in Hl as (b & m' & E & Hm). apply app_inj_tail in E as [_ <-].
      apply last_assistant_split. exists (map (edited key text) ms), (edited key text m). split; [done|].
      by rewrite (proj1 (edited_fields key text m)).
    + destruct Hs as [Ho Hm]. split; [done|]. apply Forall_app in Hm as [_ Hm]. apply Forall_app. split; [by apply edited_unstuck|].
      by apply (edited_unstuck key text [m]).
Qed.

(** Events that do not start an answer while another is coming in. *)
Definition orderly (p : Page) (e : SessionEvent) : bool :=
  match e with
  | ClickSuggestion _ _ _ | SaveAndSubmit _ _ => negb (isGenerating p)
  | _ => true
  end.

Fixpoint orderly_session (p : Page) (es : list SessionEvent) : bool :=
  match es with
  | [] => true
  | e :: es => orderly p e && orderly_session (if enabled p e then perform true p e else p) es
  end.

Lemma perform_steady p e : steady p → enabled p e = true → orderly p e = true → steady (perform true p e).
Proof.
  intros Hst He Ho.
  assert (Hsend : ∀ starts ids text, isGenerating p = false → steady (handleSendMessage true starts ids text p)).
  { intros starts ids text Hg. destruct (idle_state p Hst Hg) as (Hp & Hs & Hop & Hm). unfold handleSendMessage.
    replace (pg_messages p ++ [createUserMessage (id_user ids) (id_user_version ids) text; loading ids])
      with ((pg_messages p ++ [createUserMessage (id_user ids) (id_user_version ids) text]) ++ [loading ids]) by (by rewrite <- app_assoc).
    apply sendChat_steady; [done..| |done]. apply Forall_app. split; [done|]. by constructor. }
  destruct e as [starts ids text|starts ids text|starts ids key|key| |text|ids|starts ids|key| |n ev|n r]; cbn [perform enabled orderly] in *.
  - apply andb_true_iff in He as [_ Hg%negb_true_iff]. by apply Hsend.
  - apply negb_true_iff in Ho. by apply Hsend.
  - apply negb_true_iff in He. destruct (idle_state p Hst He) as (Hp & Hs & Hop & Hm). unfold handleRegenerateMessage.
    destruct (find_key _ _); [|done]. apply sendChat_steady; [done..| |done]. by apply Forall_take.
  - destruct (edit_effect_fields (set_editing (Some key) p)) as (Em & Eo & Es & Ec & Ep).
    apply (steady_fields p); [|exact Em|exact Hst]. unfold request_state, handleEditMessage. by rewrite Eo, Es, Ec, Ep.
  - by eapply steady_fields; [..|exact Hst].
  - by eapply steady_fields; [..|exact Hst].
  - unfold applyEdit. destruct (pg_editing p) as [[|c k]|]; [done| |done]. destruct (find_key _ _); [|done]. by apply edited_steady.
  - apply negb_true_iff in Ho. destruct (idle_state p Hst Ho) as (Hp & Hs & Hop & Hm).
    unfold applyEdit. destruct (pg_editing p) as [[|c k]|]; [done| |done]. destruct (find_key _ _); [|done]. cbv zeta.
    destruct (_ || _); [by apply edited_steady|]. apply sendChat_steady; [done..| |done]. apply Forall_take. by apply edited_unstuck.
  - apply negb_true_iff in He. destruct (idle_state p Hst He) as (Hp & Hs & Hop & Hm). unfold handleDeleteMessage.
    set (ms := filterb _ _). pose proof (updateMessages_request ms p) as Hr. apply request_fields in Hr as (Ho' & Hs' & _ & Hp').
    apply steady_idle; [congruence..|]. rewrite updateMessages_messages. apply Forall_forall. intros m [Hin _]%elem_of_filterb.
    by eapply Forall_forall in Hm.
  - by apply stop_steady.
  - apply source_event_steady; [done|]. apply existsb_exists in He as (i & Hi & <-%Nat.eqb_eq). by apply list_elem_of_In.
  - destruct Hst as (Hp & _). by rewrite Hp in He.
Qed.

(** C17. One answer at a time. From a conversation of finished messages, with
    streaming, whatever happens as long as no suggestion and no edit is
    submitted while an answer is coming in: the stream the page knows of is the
    only one that delivers, every message but the last is finished, and while
    no answer is coming in all of them are. *)
Theorem session_invariant (ms : list Message) (es : list SessionEvent) :
  Forall unstuck ms → orderly_session (load_page ms) es = true →
  let p := session true (load_page ms) es in
  pg_open p = match pg_source p with Some n => [n] | None => [] end
  ∧ Forall unstuck (removelast (pg_messages p))
  ∧ (isGenerating p = true → last_is_assistant (pg_messages p) = true)
  ∧ (isGenerating p = false → Forall unstuck (pg_messages p)).
Proof.
  intros Hms Hord. cbv zeta.
  assert (Hst : ∀ p, steady p → orderly_session p es = true → steady (session true p es)).
  { clear. unfold session. induction es as [|e es IH]; intros p Hst Hord; [done|]. cbn [orderly_session foldl] in *.
    apply andb_true_iff in Hord as [Ho Hord]. apply IH; [|done]. destruct (enabled p e) eqn:Ee; [by apply perform_steady|done]. }
  specialize (Hst (load_page ms) (steady_idle (load_page ms) eq_refl eq_refl eq_refl Hms) Hord).
  destruct Hst as (_ & Hr & Hs). unfold isGenerating. destruct (pg_source (session true (load_page ms) es)).
  - destruct Hs as (Ho & _ & Hl). done.
  - by destruct Hs.
Qed.

Definition some_ids (n : string) : Ids :=
  {| id_user := js (n ++ "u"); id_user_version := js (n ++ "v"); id_assistant := js (n ++ "a"); id_assistant_version := js (n ++ "w") |}.

Definition content_chunk (text : string) : jstr :=
  map (λ c, if c =? 39 then c_quote else c) (js ("{'choices':[{'delta':{'content':'" ++ text ++ "'}}]}")).

Lemma session_invariant_witness :
  let p := session true (load_page []) [Submit true (some_ids "1") (js "hi"); Deliver 0 (MessageEvent (content_chunk "yes"))] in
  pg_open p = [0%nat] ∧ Forall unstuck (removelast (pg_messages p)) ∧ isGenerating p = true.
Proof.
  cbv zeta. set (es := [Submit _ _ _; _]).
  destruct (session_invariant [] es (Forall_nil_2 _) eq_refl) as (Ho & Hr & _).
  split; [exact (eq_trans Ho eq_refl)|]. split; [exact Hr|]. by_eval.
Defined.

(** ** Two answers at once *)

(** The piece of an answer that brings [c], and nothing else. *)
Definition brings (data c : jstr) : Prop :=
  data ≠ js "[DONE]" ∧ ∃ d, throw_if_none (json_parse data) ≫= chunk_delta = Ret (Some d)
    ∧ truthy_value (obj_get d (js "reasoning_content")) = None ∧ truthy_value (obj_get d (js "content")) = Some (JStr c).

Lemma brings_event s data c :
  brings data c →
  stream_event s (MessageEvent data)
  = {| sse_open := sse_open s; isStreamComplete := isStreamComplete s; conversation := handleStreamUpdate (conversation s) UContent c |}.
Proof.
  intros (Hd & d & E & Hr & Hc). cbn [stream_event]. unfold on_message. rewrite bool_decide_eq_false_2, E by done.
  unfold apply_delta. by rewrite Hr, Hc.
Qed.

Lemma brings_updates complete data c : brings data c → event_updates complete (MessageEvent data) = true.
Proof.
  intros (Hd & d & E & Hr & Hc). cbn [event_updates]. rewrite bool_decide_eq_false_2, E by done. by rewrite Hr, Hc.
Qed.

(** A stream's event that keeps it open, and one that closes it. *)
Lemma deliver_open n e p :
  sse_open (stream_event {| sse_open := true; isStreamComplete := pg_complete p; conversation := pg_messages p |} e) = true →
  pg_open (source_event n e p) = pg_open p ∧ pg_source (source_event n e p) = pg_source p.
Proof.
  intros Ho. unfold source_event. cbv zeta. rewrite Ho. cbn [pg_open pg_source set_request].
  destruct (_ && _); [|done]. by destruct (request_fields _ _ (updateMessages_request (conversation (stream_event
    {| sse_open := true; isStreamComplete := pg_complete p; conversation := pg_messages p |} e)) p)) as (-> & -> & _).
Qed.

Lemma deliver_done n p :
  pg_open (source_event n (MessageEvent (js "[DONE]")) p) = filterb (λ i, negb (i =? n)%nat) (pg_open p)
  ∧ pg_source (source_event n (MessageEvent (js "[DONE]")) p) = None
  ∧ pg_messages (source_event n (MessageEvent (js "[DONE]")) p) = handleStreamComplete (pg_messages p).
Proof.
  rewrite source_event_messages. cbn [stream_event]. unfold on_message. rewrite bool_decide_eq_true_2 by done. cbn [conversation].
  split; [|split; [|done]].
  - unfold source_event. cbv zeta. cbn [stream_event]. unfold on_message. rewrite bool_decide_eq_true_2 by done.
    cbn [sse_open pg_open set_request conversation]. f_equal. destruct (_ && _); [|done].
    by destruct (request_fields _ _ (updateMessages_request (handleStreamComplete (pg_messages p)) p)) as (-> & _).
  - unfold source_event. cbv zeta. cbn [stream_event]. unfold on_message. by rewrite bool_decide_eq_true_2.
Qed.

(** C39. A suggestion clicked while an answer is coming in. It starts a second
    stream beside the first, and the answers mix: what the first stream brings
    is appended to the answer of the suggestion, while the first answer stays
    as it was; when the first stream ends, the answer of the suggestion counts
    as complete and the page as idle, though the second stream still delivers
    and stopping does not close it. *)
Theorem suggestion_mixes_answers (p : Page) (n : nat) (before : list Message) (m : Message) (ids : Ids) (text data c : jstr) :
  pg_source p = Some n → pg_open p = [n] → n ≠ pg_next p →
  pg_messages p = before ++ [m] → brings data c →
  let clicked := perform true p (ClickSuggestion true ids text) in
  let received := perform true clicked (Deliver n (MessageEvent data)) in
  let ended := perform true received (Deliver n (MessageEvent (js "[DONE]"))) in
  enabled p (ClickSuggestion true ids text) = true
  ∧ pg_open received = [pg_next p; n]
  ∧ pg_messages received
    = before ++ [m; createUserMessage (id_user ids) (id_user_version ids) text; stream_update UContent c (loading ids)]
  ∧ isGenerating ended = false ∧ pg_open ended = [pg_next p] ∧ pg_open (handleStop ended) = [pg_next p]
  ∧ last (pg_messages ended) = Some (stream_complete (stream_update UContent c (loading ids))).
Proof.
  intros Hs Ho Hn Hms Hb. cbv zeta. cbn [perform].
  set (clicked := handleSendMessage true true ids text p). set (u := createUserMessage (id_user ids) (id_user_version ids) text).
  assert (Hc : pg_open clicked = [pg_next p; n] ∧ pg_messages clicked = (before ++ [m; u]) ++ [loading ids]).
  { unfold clicked, handleSendMessage, sendChat, sendStreamRequest. cbv zeta. cbn [pg_open pg_messages set_request]. fold u.
    destruct (request_fields _ _ (updateMessages_request (pg_messages p ++ [u; loading ids]) p)) as (-> & _).
    rewrite updateMessages_messages, Ho, Hms, <- !app_assoc. split; [|done].
    unfold updateMessages, edit_effect. by destruct (pg_editing (with_messages _ p)) as [[|? ?]|]. }
  destruct Hc as [Hco Hcm]. set (received := source_event n (MessageEvent data) clicked).
  assert (Hro : pg_open received = [pg_next p; n]).
  { rewrite <- Hco. apply deliver_open. by rewrite (brings_event _ _ _ Hb). }
  assert (Hrm : pg_messages received = (before ++ [m; u]) ++ [stream_update UContent c (loading ids)]).
  { unfold received. rewrite source_event_messages, (brings_event _ _ _ Hb). cbn [conversation]. rewrite Hcm.
    by apply updateLast_snoc. }
  destruct (deliver_done n received) as (Heo & Hes & Hem). set (ended := source_event n (MessageEvent (js "[DONE]")) received) in *.
  assert (Heo' : pg_open ended = [pg_next p]).
  { rewrite Heo, Hro. unfold filterb. cbn. rewrite Nat.eqb_refl. by rewrite (proj2 (Nat.eqb_neq (pg_next p) n)) by congruence. }
  split; [done|]. split; [done|]. split; [by rewrite Hrm, <- app_assoc|]. split; [unfold isGenerating; by rewrite Hes|].
  split; [done|]. split.
  - unfold handleStop. destruct (request_fields _ _ (update_last_request stopGeneration (stopStream ended))) as (-> & _).
    unfold stopStream. by rewrite Hes.
  - rewrite Hem, Hrm. unfold handleStreamComplete. rewrite updateLast_snoc by done. apply last_snoc.
Qed.

Lemma suggestion_mixes_answers_witness :
  let p := session true (load_page []) [Submit true (some_ids "1") (js "hi"); Deliver 0 (MessageEvent (content_chunk "One"))] in
  let received := session true p [ClickSuggestion true (some_ids "2") (js "Code"); Deliver 0 (MessageEvent (content_chunk " two"))] in
  isGenerating p = true ∧ map (λ m, content (getCurrentVersion m)) (pg_messages received) = [js "hi"; js "One"; js "Code"; js " two"].
Proof.
  cbv zeta. set (p := session true (load_page []) _). split; [by_eval|].
  destruct (suggestion_mixes_answers p 0 (removelast (pg_messages p)) (default (loading (some_ids "")) (last (pg_messages p)))
              (some_ids "2") (js "Code") (content_chunk " two") (js " two")) as (_ & _ & Hm & _).
  - by_eval.
  - by_eval.
  - by vm_compute.
  - by_eval.
  - split; [by vm_compute|]. eexists. split; [by_eval|]. split; by_eval.
  - unfold session at 1. cbn [foldl]. refine (eq_trans (f_equal _ Hm) _). by_eval.
Defined.

(** ** The edit form while an answer comes in *)

(** A draft typed while an answer is coming in does not survive: a message
    can be opened for editing before a text is sent, and every piece of the
    answer resets the form to the stored text, whatever was typed. *)
Theorem draft_lost_while_streaming (p : Page) (n : nat) (data c k0 : jstr) (x : Z) (typed : jstr) (before : list Message) (m : Message) :
  pg_editing p = Some (x :: k0) → pg_messages p = before ++ [m] → from m = RoleAssistant →
  is_Some (find_key before (x :: k0)) → brings data c →
  let received := perform true (perform true p (TypeDraft typed)) (Deliver n (MessageEvent data)) in
  pg_editing received = Some (x :: k0)
  ∧ pg_draft received = text_of_key (pg_messages p) (x :: k0)
  ∧ pg_original received = pg_draft received.
Proof.
  intros He Hms Hm Hk Hb. cbv zeta. cbn [perform].
  unfold source_event. cbv zeta. rewrite (brings_event _ _ _ Hb), (brings_updates _ _ _ Hb). cbn [sse_open conversation pg_messages set_draft andb].
  rewrite (proj2 (last_assistant_split (pg_messages p))) by eauto. unfold updateMessages, edit_effect.
  cbn [pg_editing with_messages set_draft]. rewrite He. cbn [pg_editing pg_draft pg_original set_request pg_messages with_messages].
  split; [done|]. split; [|done]. rewrite Hms. unfold handleStreamUpdate. rewrite updateLast_snoc by done.
  unfold text_of_key. assert (Hf : ∀ a, ∃ i, find_key (before ++ [a]) (x :: k0) = Some i ∧ (i < length before)%nat
                                          ∧ find_key before (x :: k0) = Some i).
  { clear -Hk. intros a. induction before as [|b l IH]; [by destruct Hk|]. cbn [find_key app] in *. destruct (decide _).
    - exists 0%nat. split; [done|]. cbn. split; [lia|done].
    - destruct (find_key l (x :: k0)) as [j|] eqn:E; [|by destruct Hk]. destruct IH as (i & -> & Hi & [= ->]); [done|].
      exists (S i). cbn. split; [done|]. split; [lia|done]. }
  destruct (Hf m) as (i & -> & Hi & Ei), (Hf (stream_update UContent c m)) as (j & -> & Hj & Ej).
  rewrite Ei in Ej. injection Ej as <-. cbn [mbind option_bind]. by rewrite !lookup_app_l.
Qed.

Lemma draft_lost_while_streaming_witness :
  let p := session true (load_page [createUserMessage (js "k") (js "v") (js "first")])
             [Edit (js "k"); Submit true (some_ids "1") (js "hi"); TypeDraft (js "changed")] in
  pg_draft p = js "changed" ∧ pg_draft (perform true p (Deliver 0 (MessageEvent (content_chunk "a")))) = js "first".
Proof.
  cbv zeta. set (q := session true (load_page [createUserMessage (js "k") (js "v") (js "first")])
                        [Edit (js "k"); Submit true (some_ids "1") (js "hi")]).
  split; [by_eval|].
  destruct (draft_lost_while_streaming q 0 (content_chunk "a") (js "a") (js "") 107 (js "changed")
              (removelast (pg_messages q)) (loading (some_ids "1"))) as (_ & Hd & _).
  - by_eval.
  - by_eval.
  - done.
  - eexists. by_eval.
  - split; [by vm_compute|]. eexists. split; [by_eval|]. split; by_eval.
  - refine (eq_trans Hd _). by_eval.
Defined.

(** ** A connection that ends early *)

(** A stream closed by the server without its end marker changes nothing: the
    page goes on generating. *)
Lemma clean_close_keeps_generating n p data :
  pg_open (source_event n (ReadyStateEvent (Some 2) (Some 200)) p) = pg_open p
  ∧ isGenerating (source_event n (ErrorEvent data 2) p) = isGenerating p.
Proof.
  split; [by destruct (deliver_open n (ReadyStateEvent (Some 2) (Some 200)) p eq_refl)|].
  unfold isGenerating. by destruct (deliver_open n (ErrorEvent data 2) p eq_refl) as [_ ->].
Qed.

(** ** The choice of a model and a group *)

Lemma ensure_model_offered models model : models ≠ [] → ensure_model models model ∈ models.
Proof. destruct models as [|first rest]; [done|]. intros _. unfold ensure_model. destruct (decide _); [done|by left]. Qed.

Lemma ensure_group_offered groups group : groups ≠ [] → ensure_group groups group ∈ groups.
Proof.
  destruct groups as [|first rest]; [done|]. intros _. unfold ensure_group. destruct (decide _); [done|].
  destruct (decide _); [done|by left].
Qed.

(** ** Requests without streaming *)

(** Nothing keeps a second text from being sent before the first is answered;
    the first answer then fills the message of the second. *)
Lemma late_answer_misplaced p n ids text c r :
  pg_source p = None → n ∈ pg_pending p → trim text ≠ [] →
  let q := perform false p (Submit true ids text) in
  enabled p (Submit true ids text) = true ∧ enabled q (Respond n (Choice (Some (c, r)))) = true
  ∧ last (pg_messages (perform false q (Respond n (Choice (Some (c, r)))))) = Some (answer_message c r (loading ids)).
Proof.
  intros Hs Hn Ht. cbv zeta. cbn [enabled perform]. unfold isGenerating. rewrite Hs, (proj2 (nonempty_true _) Ht).
  split; [done|]. unfold handleSendMessage, sendChat, sendNonStreamingChat.
  set (u := createUserMessage _ _ _). set (p1 := updateMessages (pg_messages p ++ [u; loading ids]) p).
  assert (Hp : pg_pending p1 = pg_pending p) by by destruct (request_fields _ _ (updateMessages_request (pg_messages p ++ [u; loading ids]) p)) as (_ & _ & _ & ?).
  split.
  - cbn [pg_pending set_request]. rewrite Hp. apply existsb_exists. exists n. split; [apply list_elem_of_In; by right|apply Nat.eqb_refl].
  - cbn [answer_event]. rewrite update_last_messages by (intros Hl; by apply not_assistant_updates).
    cbn [pg_messages set_request]. unfold p1. rewrite updateMessages_messages.
    replace (pg_messages p ++ [u; loading ids]) with ((pg_messages p ++ [u]) ++ [loading ids]) by (by rewrite <- app_assoc).
    cbn [receive_answer]. rewrite updateLast_snoc by done. apply last_snoc.
Qed.
