(* ===== verification/ChannelForm.v ===== *)
(** * The channel form

    Model of [web/default/src/features/channels/lib/channel-form.ts]: the
    values of the channel editor, how they are filled from a channel of the
    API, and the payloads they are turned into. Forms, channels and payloads
    are objects: lists of properties with their values, a property that is
    [undefined] being absent. [JSON.parse] failures and accesses that throw
    end in [Throw]. The validation done by the schema library itself is not
    modelled, the refinement the source adds to it is. *)

From Stdlib Require Import String.
From S2P Require Import JsJson JsonText JsObject ModelMapping.

(** ** Constants *)

Definition RESPONSES_WEBSOCKET_V2_CHANNEL_TYPES : list Z := [1; 59].

Definition MODEL_FETCHABLE_TYPES : list Z :=
  [1; 4; 14; 17; 20; 23; 24; 25; 26; 27; 31; 34; 35; 40; 42; 43; 47; 48; 59; 60].

(** [types.has(v)] *)
Definition has_type (types : list Z) (v : option json) : bool := existsb (is_num v) types.

Definition ADVANCED_CUSTOM_DEFAULT_CONFIG : jstr :=
  json_stringify_2 (JObj
    [entry "advanced_routes" (JArr [JObj
       [entry "incoming_path" (str "/v1/alpha/search");
        entry "upstream_path" (str "/v1/alpha/search");
        entry "converter" (str "none");
        entry "models" (JArr [])]])]).

(** ** Lists of names *)

Definition parseModels (models : jstr) : list jstr :=
  if negb (nonempty models) then [] else trimmed_parts c_comma models.

Definition parseGroups (groups : jstr) : list jstr :=
  if negb (nonempty groups) then [] else trimmed_parts c_comma groups.

Definition formatModels (models : list jstr) : jstr := join (js ",") models.
Definition formatGroups (groups : list jstr) : jstr := join (js ",") groups.

Definition validateJSON (value : jstr) : bool :=
  if negb (nonempty value) || negb (nonempty (trim value)) then true
  else match json_parse value with Some _ => true | None => false end.

Definition validateModelMapping (value : jstr) : bool :=
  if negb (nonempty value) || negb (nonempty (trim value)) then true else validateJSON value.

(** The strings of an array of strings. *)
Definition strings_of (v : option json) : list jstr :=
  match v with
  | Some (JArr l) => omap (λ x, match x with JStr s => Some s | _ => None end) l
  | _ => []
  end.

Definition jstrings (l : list jstr) : json := JArr (map JStr l).

(** ** The refinement of the schema: the paths it reports *)

Definition local_pool (data : object) : bool :=
  is_str (fld data "credential_source") (js "local_account_pool").

Definition valid_routes (text : jstr) : bool :=
  match json_parse text with
  | Some (JObj config) =>
      match fld config "advanced_routes" with
      | Some (JArr routes) => negb (length routes =? 0)%nat
      | _ => false
      end
  | _ => false
  end.

Definition string_or_empty (v : option json) : jstr :=
  match v with Some (JStr s) => s | _ => [] end.

Definition refine_issues (data : object) : list jstr :=
  (if local_pool data then
     (if negb (is_num (fld data "type") 1) && negb (is_num (fld data "type") 14)
      then [js "credential_source"] else [])
     ++ (if is_truthy (fld data "upstream_account_pool_id") then [] else [js "upstream_account_pool_id"])
   else [])
  ++ (if is_num (fld data "type") 62
         && negb (is_str (Some (nullish_or (fld data "doubao_video2_material_mode") (str "off"))) (js "off"))
         && negb (is_truthy (trim_opt (fld data "doubao_video2_group_id")))
      then [js "doubao_video2_group_id"] else [])
  ++ (if negb (is_num (fld data "type") 58) then []
      else if valid_routes (string_or_empty (fld data "advanced_custom_config")) then []
      else [js "advanced_custom_config"]).

(** ** Defaults *)

Definition CHANNEL_FORM_DEFAULT_VALUES : object :=
  [entry "name" (str ""); entry "type" (num 1); entry "base_url" (str ""); entry "key" (str "");
   entry "credential_source" (str "channel_key"); entry "upstream_account_pool_id" JNull;
   entry "openai_organization" (str ""); entry "models" (str "");
   entry "group" (JArr [str "default"]); entry "model_mapping" (str "");
   entry "priority" (num 0); entry "weight" (num 0); entry "test_model" (str "");
   entry "auto_ban" (num 1); entry "status" (num 1); entry "status_code_mapping" (str "");
   entry "tag" (str ""); entry "remark" (str ""); entry "setting" (str "");
   entry "param_override" (str ""); entry "header_override" (str ""); entry "settings" (str "{}");
   entry "advanced_custom_config" (JStr ADVANCED_CUSTOM_DEFAULT_CONFIG); entry "other" (str "");
   entry "multi_key_mode" (str "single"); entry "multi_key_type" (str "random");
   entry "batch_add_set_key_prefix_2_name" (JBool false); entry "key_mode" (str "append");
   entry "force_format" (JBool false); entry "thinking_to_content" (JBool false);
   entry "proxy" (str ""); entry "pass_through_body_enabled" (JBool false);
   entry "system_prompt" (str ""); entry "system_prompt_override" (JBool false);
   entry "is_enterprise_account" (JBool false); entry "vertex_key_type" (str "json");
   entry "aws_key_type" (str "ak_sk"); entry "azure_responses_version" (str "");
   entry "allow_service_tier" (JBool false); entry "disable_store" (JBool false);
   entry "responses_websocket_v2_enabled" (JBool false);
   entry "responses_websocket_v2_replay_enabled" (JBool false);
   entry "alpha_search_enabled" (JBool false); entry "allow_safety_identifier" (JBool false);
   entry "allow_include_obfuscation" (JBool false); entry "allow_inference_geo" (JBool false);
   entry "allow_speed" (JBool false); entry "claude_beta_query" (JBool false);
   entry "claude_session_metadata" (JBool false);
   entry "upstream_model_update_check_enabled" (JBool false);
   entry "upstream_model_update_auto_sync_enabled" (JBool false);
   entry "upstream_model_update_ignored_models" (str "");
   entry "zqbapi_material_mode" (str "face_preflight"); entry "zqbapi_group_id" (str "");
   entry "zqbapi_project_name" (str ""); entry "zqbapi_asset_group_type" (str "virtual");
   entry "zqbapi_auto_normalize" (JBool true); entry "doubao_video2_material_mode" (str "off");
   entry "doubao_video2_group_id" (str "")].

Inductive ChannelCreationMode := ModeUpstream | ModeLocal.

Record LocalAccountPoolChannelPreset := {
  preset_id : Z;
  preset_name : jstr;
  preset_anthropic : bool;
}.

Definition getChannelCreateDefaultValues (mode : ChannelCreationMode)
    (accountPool : option LocalAccountPoolChannelPreset) : object :=
  match mode with
  | ModeLocal =>
      spread CHANNEL_FORM_DEFAULT_VALUES
        [entry "name" (match accountPool with Some p => JStr (preset_name p) | None => str "" end);
         entry "type" (match accountPool with
                       | Some p => if preset_anthropic p then num 14 else num 1 | None => num 1 end);
         entry "credential_source" (str "local_account_pool");
         entry "upstream_account_pool_id"
           (match accountPool with Some p => num (preset_id p) | None => JNull end);
         entry "multi_key_mode" (str "single");
         entry "responses_websocket_v2_enabled" (JBool false);
         entry "responses_websocket_v2_replay_enabled" (JBool false)]
  | ModeUpstream =>
      spread CHANNEL_FORM_DEFAULT_VALUES
        [entry "credential_source" (str "channel_key"); entry "upstream_account_pool_id" JNull]
  end.

Definition requiresChannelKeyForCreate (formData : object) : bool := negb (local_pool formData).

(** ** From a channel to the form *)

(** [parsed] as an object whose properties are read: [None] is [null], on
    which the first access throws; other values have none of the properties. *)
Definition parsed_props (text : jstr) : option object :=
  match json_parse text with
  | None | Some JNull => None
  | Some (JObj o) => Some o
  | Some _ => Some []
  end.

(** The text of a property that is a non-empty string. *)
Definition text_of (v : option json) : option jstr :=
  match v with Some (JStr ((_ :: _) as s)) => Some s | _ => None end.

Definition default_extra_settings : object :=
  [entry "force_format" (JBool false); entry "thinking_to_content" (JBool false);
   entry "proxy" (str ""); entry "pass_through_body_enabled" (JBool false);
   entry "system_prompt" (str ""); entry "system_prompt_override" (JBool false);
   entry "zqbapi_material_mode" (str "face_preflight"); entry "zqbapi_group_id" (str "");
   entry "zqbapi_project_name" (str ""); entry "zqbapi_asset_group_type" (str "virtual");
   entry "zqbapi_auto_normalize" (JBool true);
   entry "doubao_video2_material_mode" (str "off"); entry "doubao_video2_group_id" (str "")].

(** The extra settings read from a parsed [channel.setting]. *)
Definition parsed_extra_settings (useAccountPool : bool) (parsed : object) : object :=
  let zq := fld parsed "zqbapi" in
  let db := fld parsed "doubao_video2" in
  [entry "force_format" (or_ (fld parsed "force_format") (JBool false));
   entry "thinking_to_content" (or_ (fld parsed "thinking_to_content") (JBool false));
   entry "proxy" (if useAccountPool then str "" else or_ (fld parsed "proxy") (str ""));
   entry "pass_through_body_enabled"
     (if useAccountPool then JBool false
      else or_ (fld parsed "pass_through_body_enabled") (JBool false));
   entry "system_prompt" (or_ (fld parsed "system_prompt") (str ""));
   entry "system_prompt_override" (or_ (fld parsed "system_prompt_override") (JBool false));
   entry "zqbapi_material_mode" (or_ (opt_prop zq "material_mode") (str "face_preflight"));
   entry "zqbapi_group_id" (or_ (opt_prop zq "group_id") (str ""));
   entry "zqbapi_project_name" (or_ (opt_prop zq "project_name") (str ""));
   entry "zqbapi_asset_group_type" (or_ (opt_prop zq "asset_group_type") (str "virtual"));
   entry "zqbapi_auto_normalize" (JBool (not_false (opt_prop zq "auto_normalize")));
   entry "doubao_video2_material_mode" (or_ (opt_prop db "material_mode") (str "off"));
   entry "doubao_video2_group_id" (or_ (opt_prop db "group_id") (str ""))].

Definition extra_settings (useAccountPool : bool) (setting : option json) : object :=
  match text_of setting with
  | None => default_extra_settings
  | Some text =>
      match parsed_props text with
      | None => default_extra_settings
      | Some parsed =>
          parsed_extra_settings useAccountPool parsed
      end
  end.

(** The fields read from [channel.settings]; where it cannot be read they
    keep their initial values, those of an empty object. *)
Definition settings_props (settings : option json) : object :=
  match text_of settings with
  | None => []
  | Some text => default [] (parsed_props text)
  end.

Definition ignored_models_text (v : option json) : json :=
  match v with Some (JArr l) => JStr (string_of_json (JArr l)) | _ => str "" end.

Definition advanced_custom_text (v : option json) : json :=
  match v with
  | Some (JObj o) => JStr (json_stringify_2 (JObj o))
  | _ => JStr ADVANCED_CUSTOM_DEFAULT_CONFIG
  end.

(** [channel.name || ''] *)
Definition or_empty (v : option json) : json := or_ v (str "").

(** [channel.channel_info.multi_key_mode], which throws where there is no
    [channel_info]. *)
Definition channel_info_mode (channel_info : option json) : outcome (option json) :=
  match channel_info with
  | None | Some JNull => Throw
  | _ => Ret (opt_prop channel_info "multi_key_mode")
  end.

(** The form of a channel, given the mode of its keys. *)
Definition form_defaults (multi_key_mode : option json) (channel : object) : object :=
  let useAccountPool := is_str (fld channel "credential_source") (js "local_account_pool") in
  let parsed := settings_props (fld channel "settings") in
  let flag name := JBool (is_true (fld parsed name)) in
  spread
    ([entry "name" (or_empty (fld channel "name"));
      entry "type" (if useAccountPool then (if is_num (fld channel "type") 14 then num 14 else num 1)
                    else default JNull (fld channel "type"));
      entry "base_url" (or_empty (fld channel "base_url"));
      entry "key" (str "");
      entry "credential_source" (if useAccountPool then str "local_account_pool" else str "channel_key");
      entry "upstream_account_pool_id" (nullish_or (fld channel "upstream_account_pool_id") JNull);
      entry "openai_organization" (or_empty (fld channel "openai_organization"));
      entry "models" (or_empty (fld channel "models"));
      entry "group" (jstrings (parseGroups
        (string_or_empty (Some (or_ (fld channel "group") (str "default"))))));
      entry "model_mapping" (if useAccountPool then str "" else or_empty (fld channel "model_mapping"));
      entry "priority" (or_ (fld channel "priority") (num 0));
      entry "weight" (or_ (fld channel "weight") (num 0));
      entry "test_model" (or_empty (fld channel "test_model"));
      entry "auto_ban" (nullish_or (fld channel "auto_ban") (num 1));
      entry "status" (default JNull (fld channel "status"));
      entry "status_code_mapping" (or_empty (fld channel "status_code_mapping"));
      entry "tag" (or_empty (fld channel "tag"));
      entry "remark" (or_empty (fld channel "remark"));
      entry "setting" (or_empty (fld channel "setting"));
      entry "param_override" (or_empty (fld channel "param_override"));
      entry "header_override" (if useAccountPool then str "" else or_empty (fld channel "header_override"));
      entry "settings" (or_ (fld channel "settings") (str "{}"));
      entry "advanced_custom_config" (advanced_custom_text (fld parsed "advanced_custom"));
      entry "other" (or_empty (fld channel "other"));
      entry "multi_key_mode" (str "single");
      entry "multi_key_type" (or_ multi_key_mode (str "random"));
      entry "batch_add_set_key_prefix_2_name" (JBool false);
      entry "key_mode" (str "append")]
     ++ extra_settings useAccountPool (fld channel "setting"))
    [entry "is_enterprise_account" (flag "openrouter_enterprise"%string);
     entry "vertex_key_type" (or_ (fld parsed "vertex_key_type") (str "json"));
     entry "azure_responses_version" (or_ (fld parsed "azure_responses_version") (str ""));
     entry "aws_key_type" (or_ (fld parsed "aws_key_type") (str "ak_sk"));
     entry "allow_service_tier" (flag "allow_service_tier"%string);
     entry "disable_store" (flag "disable_store"%string);
     entry "responses_websocket_v2_enabled" (flag "responses_websocket_v2_enabled"%string);
     entry "responses_websocket_v2_replay_enabled" (flag "responses_websocket_v2_replay_enabled"%string);
     entry "alpha_search_enabled"
       (if useAccountPool then JBool false else flag "alpha_search_enabled"%string);
     entry "allow_include_obfuscation" (flag "allow_include_obfuscation"%string);
     entry "allow_inference_geo" (flag "allow_inference_geo"%string);
     entry "allow_speed" (flag "allow_speed"%string);
     entry "claude_beta_query" (flag "claude_beta_query"%string);
     entry "claude_session_metadata" (flag "claude_session_metadata"%string);
     entry "allow_safety_identifier" (flag "allow_safety_identifier"%string);
     entry "upstream_model_update_check_enabled" (flag "upstream_model_update_check_enabled"%string);
     entry "upstream_model_update_auto_sync_enabled" (flag "upstream_model_update_auto_sync_enabled"%string);
     entry "upstream_model_update_ignored_models"
       (ignored_models_text (fld parsed "upstream_model_update_ignored_models"))].

Definition transformChannelToFormDefaults (channel : object) : outcome object :=
  mode ← channel_info_mode (fld channel "channel_info");
  Ret (form_defaults mode channel).

(** ** The [setting] text *)

Definition setting_object (formData : object) : object :=
  let useAccountPool := local_pool formData in
  let base :=
    [entry "force_format" (or_ (fld formData "force_format") (JBool false));
     entry "thinking_to_content" (or_ (fld formData "thinking_to_content") (JBool false));
     entry "proxy" (if useAccountPool then str "" else or_ (fld formData "proxy") (str ""));
     entry "pass_through_body_enabled"
       (if useAccountPool then JBool false
        else or_ (fld formData "pass_through_body_enabled") (JBool false));
     entry "system_prompt" (or_ (fld formData "system_prompt") (str ""));
     entry "system_prompt_override" (or_ (fld formData "system_prompt_override") (JBool false))] in
  base
  ++ (if is_num (fld formData "type") 61 then
        [entry "zqbapi" (JObj
          [entry "material_mode" (or_ (fld formData "zqbapi_material_mode") (str "face_preflight"));
           entry "group_id" (or_ (trim_opt (fld formData "zqbapi_group_id")) (str ""));
           entry "project_name" (or_ (trim_opt (fld formData "zqbapi_project_name")) (str ""));
           entry "asset_group_type" (or_ (fld formData "zqbapi_asset_group_type") (str "virtual"));
           entry "auto_normalize" (JBool (not_false (fld formData "zqbapi_auto_normalize")))])]
      else [])
  ++ (if is_num (fld formData "type") 62 then
        [entry "doubao_video2" (JObj
          [entry "material_mode" (or_ (fld formData "doubao_video2_material_mode") (str "off"));
           entry "group_id" (or_ (trim_opt (fld formData "doubao_video2_group_id")) (str ""))])]
      else []).

Definition buildSettingJSON (formData : object) : jstr := json_stringify (JObj (setting_object formData)).

(** ** The [settings] text *)

Definition flag (formData : object) (name : string) : json := JBool (is_true (fld formData name)).

(** The credentials and versions of one channel type each. *)
Definition put_type_settings (f : object) (o : object) : object :=
  let ty := fld f "type" in
  let o := put_if (is_num ty 41) "vertex_key_type" (or_ (fld f "vertex_key_type") (str "json")) o in
  let o := put_if (is_num ty 3 && is_truthy (fld f "azure_responses_version"))
             "azure_responses_version" (default JNull (fld f "azure_responses_version")) o in
  let o := put_if (is_num ty 20) "openrouter_enterprise" (flag f "is_enterprise_account") o in
  put_if (is_num ty 33) "aws_key_type" (or_ (fld f "aws_key_type") (str "ak_sk")) o.

(** [JSON.parse] throws on a configuration that is no JSON. *)
Definition put_advanced_custom (f : object) (o : object) : outcome object :=
  if is_num (fld f "type") 58 then
    let text := string_or_empty
                  (Some (or_ (fld f "advanced_custom_config") (JStr ADVANCED_CUSTOM_DEFAULT_CONFIG))) in
    match json_parse text with
    | Some v => Ret (put "advanced_custom" v o)
    | None => Throw
    end
  else Ret (del "advanced_custom" o).

Definition put_websocket (f : object) (o : object) : object :=
  if has_type RESPONSES_WEBSOCKET_V2_CHANNEL_TYPES (fld f "type") then
    let o := put "responses_websocket_v2_enabled"
               (JBool (negb (local_pool f) && is_true (fld f "responses_websocket_v2_enabled"))) o in
    put "responses_websocket_v2_replay_enabled"
      (JBool (is_true (fld o "responses_websocket_v2_enabled")
              && is_true (fld f "responses_websocket_v2_replay_enabled"))) o
  else del "responses_websocket_v2_replay_enabled" (del "responses_websocket_v2_enabled" o).

Definition put_openai (f : object) (o : object) : object :=
  if is_num (fld f "type") 1 then
    let o := if local_pool f then del "alpha_search_enabled" o
             else put "alpha_search_enabled" (flag f "alpha_search_enabled") o in
    let o := put "disable_store" (flag f "disable_store") o in
    let o := put "allow_safety_identifier" (flag f "allow_safety_identifier") o in
    let o := put "allow_include_obfuscation" (flag f "allow_include_obfuscation") o in
    put "allow_inference_geo" (flag f "allow_inference_geo") o
  else
    let o := del "allow_include_obfuscation" (del "allow_safety_identifier"
               (del "disable_store" (del "alpha_search_enabled" o))) in
    if negb (is_num (fld f "type") 14) then del "allow_inference_geo" o else o.

Definition put_anthropic (f : object) (o : object) : object :=
  if is_num (fld f "type") 14 then
    put "claude_session_metadata" (flag f "claude_session_metadata")
      (put "claude_beta_query" (flag f "claude_beta_query")
        (put "allow_speed" (flag f "allow_speed")
          (put "allow_inference_geo" (flag f "allow_inference_geo") o)))
  else del "claude_session_metadata" (del "claude_beta_query" (del "allow_speed" o)).

(** [Array.from(new Set(String(v || '').split(',').map(trim).filter(Boolean)))] *)
Definition ignored_models (v : option json) : json :=
  jstrings (js_set (trimmed_parts c_comma (string_of_json (or_ v (str ""))))).

Definition is_array (v : option json) : bool := match v with Some (JArr _) => true | _ => false end.
Definition is_number (v : option json) : bool := match v with Some (JNum _) => true | _ => false end.

Definition put_model_update (f : object) (o : object) : object :=
  if has_type MODEL_FETCHABLE_TYPES (fld f "type") && negb (local_pool f) then
    let o := put "upstream_model_update_check_enabled" (flag f "upstream_model_update_check_enabled") o in
    let o := put "upstream_model_update_auto_sync_enabled"
               (JBool (is_true (fld o "upstream_model_update_check_enabled")
                       && is_true (fld f "upstream_model_update_auto_sync_enabled"))) o in
    let o := put "upstream_model_update_ignored_models"
               (ignored_models (fld f "upstream_model_update_ignored_models")) o in
    let o := if negb (is_array (fld o "upstream_model_update_last_detected_models"))
                || negb (is_true (fld o "upstream_model_update_check_enabled"))
             then put "upstream_model_update_last_detected_models" (JArr []) o else o in
    if negb (is_number (fld o "upstream_model_update_last_check_time"))
    then put "upstream_model_update_last_check_time" (num 0) o else o
  else
    del "upstream_model_update_last_check_time" (del "upstream_model_update_last_removed_models"
      (del "upstream_model_update_last_detected_models" (del "upstream_model_update_ignored_models"
        (del "upstream_model_update_auto_sync_enabled" (del "upstream_model_update_check_enabled" o))))).

(** The statements of [buildSettingsJSON] on the properties of [settingsObj]. *)
Definition edit_settings (f : object) (o : object) : outcome object :=
  o ← put_advanced_custom f (put_type_settings f o);
  let o := put_if (is_num (fld f "type") 1 || is_num (fld f "type") 14)
             "allow_service_tier" (flag f "allow_service_tier") o in
  Ret (put_model_update f (put_anthropic f (put_openai f (put_websocket f o)))).

(** [settingsObj] before the edits: its properties, and the elements when it
    is an array, which is all that [JSON.stringify] prints of one. Setting a
    property of [null] or of a primitive value, or testing one with [in],
    throws, and the first statement does one of these. *)
Definition existing_settings (settings : option json) : outcome (option (list json) * object) :=
  match text_of settings with
  | None => Ret (None, [])
  | Some text =>
      if bool_decide (text = js "{}") then Ret (None, [])
      else match json_parse text with
           | None => Ret (None, [])
           | Some (JObj o) => Ret (None, o)
           | Some (JArr l) => Ret (Some l, [])
           | Some _ => Throw
           end
  end.

Definition settings_value (f : object) : outcome json :=
  base ← existing_settings (fld f "settings");
  o ← edit_settings f base.2;
  Ret (match base.1 with Some l => JArr l | None => JObj o end).

Definition buildSettingsJSON (f : object) : outcome jstr := json_stringify <$> settings_value f.

(** ** The payloads *)

Definition account_type (f : object) : json := if is_num (fld f "type") 14 then num 14 else num 1.

(** [v || null] *)
Definition or_null (v : option json) : json := or_ v JNull.

(** Every property that is the empty string becomes [null]. *)
Definition null_if_empty (v : json) : json := match v with JStr [] => JNull | _ => v end.

Definition empty_to_null (o : object) : object :=
  map (λ e : jstr * json, (e.1, null_if_empty e.2)) o.

Record CreatePayload := {
  mode : json;
  p_multi_key_mode : option json;
  p_batch_add_set_key_prefix_2_name : option json;
  p_channel : object;
}.

Definition create_channel (f : object) (settings : jstr) : object :=
  let pool := local_pool f in
  opt_entry "name" (fld f "name")
  ++ (if pool then [entry "type" (account_type f)] else opt_entry "type" (fld f "type"))
  ++ [entry "base_url" (if pool then JNull else or_null (fld f "base_url"))]
  ++ (if pool then [entry "key" (str "")] else opt_entry "key" (fld f "key"))
  ++ [entry "credential_source" (if pool then str "local_account_pool" else str "channel_key")]
  ++ (if pool then opt_entry "upstream_account_pool_id" (fld f "upstream_account_pool_id")
      else [entry "upstream_account_pool_id" JNull])
  ++ [entry "openai_organization" (if pool then JNull else or_null (fld f "openai_organization"))]
  ++ opt_entry "models" (fld f "models")
  ++ [entry "group" (JStr (formatGroups (strings_of (fld f "group"))));
      entry "model_mapping" (if pool then JNull else or_null (fld f "model_mapping"));
      entry "priority" (or_null (fld f "priority"));
      entry "weight" (or_null (fld f "weight"));
      entry "test_model" (or_null (fld f "test_model"));
      entry "auto_ban" (nullish_or (fld f "auto_ban") (num 1))]
  ++ opt_entry "status" (fld f "status")
  ++ [entry "status_code_mapping" (or_null (fld f "status_code_mapping"));
      entry "tag" (or_null (fld f "tag"));
      entry "remark" (or_empty (fld f "remark"));
      entry "setting" (JStr (buildSettingJSON f));
      entry "param_override" (or_null (fld f "param_override"));
      entry "header_override" (if pool then JNull else or_null (fld f "header_override"));
      entry "settings" (JStr settings);
      entry "other" (or_empty (fld f "other"))].

Definition transformFormDataToCreatePayload (f : object) : outcome CreatePayload :=
  settings ← buildSettingsJSON f;
  let m := if local_pool f then str "single" else or_ (fld f "multi_key_mode") (str "single") in
  Ret {| mode := m;
         p_multi_key_mode := if is_str (Some m) (js "multi_to_single") then fld f "multi_key_type" else None;
         p_batch_add_set_key_prefix_2_name :=
           if is_str (Some m) (js "batch") then fld f "batch_add_set_key_prefix_2_name" else None;
         p_channel := empty_to_null (create_channel f settings) |}.

(** [formData.key && formData.key.trim()] *)
Definition has_key (f : object) : bool := is_truthy (fld f "key") && is_truthy (trim_opt (fld f "key")).

Definition update_channel (f : object) (channelId : Z) (settings : jstr) : object :=
  let pool := local_pool f in
  [entry "id" (num channelId)]
  ++ opt_entry "name" (fld f "name")
  ++ (if pool then [entry "type" (account_type f)] else opt_entry "type" (fld f "type"))
  ++ opt_entry "credential_source" (fld f "credential_source")
  ++ (if pool then opt_entry "upstream_account_pool_id" (fld f "upstream_account_pool_id")
      else [entry "upstream_account_pool_id" JNull])
  ++ [entry "base_url" (if pool then JNull else or_null (fld f "base_url"));
      entry "openai_organization" (if pool then JNull else or_null (fld f "openai_organization"))]
  ++ opt_entry "models" (fld f "models")
  ++ [entry "group" (JStr (formatGroups (strings_of (fld f "group"))));
      entry "model_mapping" (if pool then JNull else or_null (fld f "model_mapping"));
      entry "priority" (nullish_or (fld f "priority") (num 0));
      entry "weight" (nullish_or (fld f "weight") (num 0));
      entry "test_model" (or_null (fld f "test_model"));
      entry "auto_ban" (nullish_or (fld f "auto_ban") (num 1))]
  ++ opt_entry "status" (fld f "status")
  ++ [entry "status_code_mapping" (or_null (fld f "status_code_mapping"));
      entry "tag" (or_null (fld f "tag"));
      entry "remark" (or_empty (fld f "remark"));
      entry "setting" (JStr (buildSettingJSON f));
      entry "param_override" (or_null (fld f "param_override"));
      entry "header_override" (if pool then JNull else or_null (fld f "header_override"));
      entry "settings" (JStr settings);
      entry "other" (or_empty (fld f "other"))].

(** The explicit empty strings that let the server clear a field. *)
Definition clearable_fields (f : object) : object :=
  let pool := local_pool f in
  [entry "base_url" (if pool then str "" else or_empty (fld f "base_url"));
   entry "openai_organization" (if pool then str "" else or_empty (fld f "openai_organization"));
   entry "test_model" (or_empty (fld f "test_model"));
   entry "tag" (or_empty (fld f "tag"));
   entry "remark" (or_empty (fld f "remark"));
   entry "model_mapping" (if pool then str "" else or_empty (fld f "model_mapping"));
   entry "status_code_mapping" (or_empty (fld f "status_code_mapping"));
   entry "param_override" (or_empty (fld f "param_override"));
   entry "header_override" (if pool then str "" else or_empty (fld f "header_override"))].

Definition transformFormDataToUpdatePayload (f : object) (channelId : Z) : outcome object :=
  settings ← buildSettingsJSON f;
  let payload := update_channel f channelId settings
                 ++ (if negb (local_pool f) && has_key f then opt_entry "key" (fld f "key") else []) in
  Ret (spread (empty_to_null payload) (clearable_fields f)).
