(* ===== verification/ChannelFormProps.v ===== *)
(** * The channel form: properties

    Which settings a saved channel has, by channel type; that local account
    pools carry no upstream credentials; that the stored key is neither shown
    nor overwritten; and that an edited channel shows what was saved. *)

From Stdlib Require Import String.
From S2P Require Import JsJson JsonText JsObject ModelMapping ChannelForm.

(** Property names are compared, never computed with. *)
#[local] Opaque js.

(** ** The statements of [buildSettingsJSON], one group at a time *)

Definition type_names : list string :=
  ["vertex_key_type"; "azure_responses_version"; "openrouter_enterprise"; "aws_key_type"]%string.
Definition websocket_names : list string :=
  ["responses_websocket_v2_enabled"; "responses_websocket_v2_replay_enabled"]%string.
Definition openai_names : list string :=
  ["alpha_search_enabled"; "disable_store"; "allow_safety_identifier"; "allow_include_obfuscation";
   "allow_inference_geo"]%string.
Definition anthropic_names : list string :=
  ["allow_inference_geo"; "allow_speed"; "claude_beta_query"; "claude_session_metadata"]%string.
Definition update_names : list string :=
  ["upstream_model_update_check_enabled"; "upstream_model_update_auto_sync_enabled";
   "upstream_model_update_ignored_models"; "upstream_model_update_last_detected_models";
   "upstream_model_update_last_check_time"; "upstream_model_update_last_removed_models"]%string.

Section stages.
Context (f : object).

Lemma type_settings_frame o k : k ∉ names type_names → map_get (put_type_settings f o) k = map_get o k.
Proof. intros Hk. unfold put_type_settings, type_names in *. by frame_names. Qed.

Lemma advanced_custom_frame o o' k :
  put_advanced_custom f o = Ret o' → k ≠ js "advanced_custom" → map_get o' k = map_get o k.
Proof.
  unfold put_advanced_custom. intros H Hk. repeat case_match; simplify_eq; [exact (put_frame _ _ _ _ Hk)|exact (del_frame _ _ _ Hk)].
Qed.

Lemma websocket_frame o k : k ∉ names websocket_names → map_get (put_websocket f o) k = map_get o k.
Proof. intros Hk. unfold put_websocket, websocket_names in *. case_match; by frame_names. Qed.

Lemma openai_frame o k : k ∉ names openai_names → map_get (put_openai f o) k = map_get o k.
Proof. intros Hk. unfold put_openai, openai_names in *. repeat case_match; by frame_names. Qed.

Lemma anthropic_frame o k : k ∉ names anthropic_names → map_get (put_anthropic f o) k = map_get o k.
Proof. intros Hk. unfold put_anthropic, anthropic_names in *. repeat case_match; by frame_names. Qed.

Lemma model_update_frame o k : k ∉ names update_names → map_get (put_model_update f o) k = map_get o k.
Proof. intros Hk. unfold put_model_update, update_names in *. repeat case_match; by frame_names. Qed.

(** The value each group gives its properties; [None] is absent. *)
Definition type_spec : list (string * option json) :=
  let ty := fld f "type" in
  [("vertex_key_type"%string, when (is_num ty 41) (Some (or_ (fld f "vertex_key_type") (str "json"))));
   ("azure_responses_version"%string,
      when (is_num ty 3 && is_truthy (fld f "azure_responses_version")) (fld f "azure_responses_version"));
   ("openrouter_enterprise"%string, when (is_num ty 20) (Some (flag f "is_enterprise_account")));
   ("aws_key_type"%string, when (is_num ty 33) (Some (or_ (fld f "aws_key_type") (str "ak_sk"))))].

Definition websocket_spec : list (string * option json) :=
  let on := has_type RESPONSES_WEBSOCKET_V2_CHANNEL_TYPES (fld f "type") in
  let enabled := negb (local_pool f) && is_true (fld f "responses_websocket_v2_enabled") in
  [("responses_websocket_v2_enabled"%string, when on (Some (JBool enabled)));
   ("responses_websocket_v2_replay_enabled"%string,
      when on (Some (JBool (enabled && is_true (fld f "responses_websocket_v2_replay_enabled")))))].

Definition openai_spec : list (string * option json) :=
  let on := is_num (fld f "type") 1 in
  [("alpha_search_enabled"%string, when (on && negb (local_pool f)) (Some (flag f "alpha_search_enabled")));
   ("disable_store"%string, when on (Some (flag f "disable_store")));
   ("allow_safety_identifier"%string, when on (Some (flag f "allow_safety_identifier")));
   ("allow_include_obfuscation"%string, when on (Some (flag f "allow_include_obfuscation")))].

Definition anthropic_spec : list (string * option json) :=
  let on := is_num (fld f "type") 14 in
  [("allow_speed"%string, when on (Some (flag f "allow_speed")));
   ("claude_beta_query"%string, when on (Some (flag f "claude_beta_query")));
   ("claude_session_metadata"%string, when on (Some (flag f "claude_session_metadata")))].

Definition shared_spec : list (string * option json) :=
  let on := is_num (fld f "type") 1 || is_num (fld f "type") 14 in
  [("allow_service_tier"%string, when on (Some (flag f "allow_service_tier")));
   ("allow_inference_geo"%string, when on (Some (flag f "allow_inference_geo")))].

(** The model update settings keep the server's findings, given by the
    properties [o] the channel has so far. *)
Definition update_spec (o : object) : list (string * option json) :=
  let on := has_type MODEL_FETCHABLE_TYPES (fld f "type") && negb (local_pool f) in
  let check := is_true (fld f "upstream_model_update_check_enabled") in
  [("upstream_model_update_check_enabled"%string, when on (Some (JBool check)));
   ("upstream_model_update_auto_sync_enabled"%string,
      when on (Some (JBool (check && is_true (fld f "upstream_model_update_auto_sync_enabled")))));
   ("upstream_model_update_ignored_models"%string,
      when on (Some (ignored_models (fld f "upstream_model_update_ignored_models"))));
   ("upstream_model_update_last_detected_models"%string,
      when on (if check && is_array (fld o "upstream_model_update_last_detected_models")
               then fld o "upstream_model_update_last_detected_models" else Some (JArr [])));
   ("upstream_model_update_last_check_time"%string,
      when on (if is_number (fld o "upstream_model_update_last_check_time")
               then fld o "upstream_model_update_last_check_time" else Some (num 0)));
   ("upstream_model_update_last_removed_models"%string,
      when on (fld o "upstream_model_update_last_removed_models"))].

Lemma is_true_flag b : is_true (Some (JBool b)) = b.
Proof. by destruct b. Qed.

Ltac meets_all :=
  repeat (apply Forall_cons_2; [cbn [fst snd]; get_names; rewrite ?is_true_flag; try reflexivity|]);
  try apply Forall_nil_2.

Lemma type_settings_meets o : meets (put_type_settings f o) type_spec.
Proof.
  unfold meets, type_spec, put_type_settings. meets_all.
  destruct (fld f "azure_responses_version"); [reflexivity|]. unfold when. by rewrite andb_false_r.
Qed.

Lemma websocket_meets o : meets (put_websocket f o) websocket_spec.
Proof. unfold meets, websocket_spec, put_websocket. destruct (has_type _ _); meets_all. Qed.

Lemma openai_meets o : meets (put_openai f o) openai_spec.
Proof.
  unfold meets, openai_spec, put_openai.
  destruct (is_num (fld f "type") 1), (local_pool f), (is_num (fld f "type") 14); cbn [negb andb]; meets_all.
Qed.

Lemma anthropic_meets o : meets (put_anthropic f o) anthropic_spec.
Proof. unfold meets, anthropic_spec, put_anthropic. destruct (is_num _ 14); meets_all. Qed.

Lemma shared_meets o :
  fld (put_anthropic f (put_openai f o)) "allow_inference_geo" =
  when (is_num (fld f "type") 1 || is_num (fld f "type") 14) (Some (flag f "allow_inference_geo")).
Proof.
  unfold put_anthropic, put_openai.
  destruct (is_num (fld f "type") 1), (is_num (fld f "type") 14), (local_pool f); cbn [negb orb];
    get_names; reflexivity.
Qed.

Lemma model_update_meets o : meets (put_model_update f o) (update_spec o).
Proof.
  unfold meets, update_spec, put_model_update.
  destruct (has_type MODEL_FETCHABLE_TYPES (fld f "type") && negb (local_pool f)); [|meets_all].
  unfold flag. get_names. rewrite !is_true_flag.
  destruct (is_true (fld f "upstream_model_update_check_enabled")),
    (is_array (fld o "upstream_model_update_last_detected_models")); cbn [negb orb andb]; get_names;
    destruct (is_number (fld o "upstream_model_update_last_check_time")) eqn:E;
    cbn [negb]; meets_all.
Qed.
End stages.

(** ** The settings of a saved channel *)

Lemma meets_app o l1 l2 : meets o (l1 ++ l2) ↔ meets o l1 ∧ meets o l2.
Proof. apply Forall_app. Qed.

(** A specification survives edits of other names. *)
Lemma meets_frame o o' spec l :
  (∀ k, k ∉ names l → map_get o' k = map_get o k) →
  Forall (λ e : string * option json, js e.1 ∉ names l) spec → meets o spec → meets o' spec.
Proof.
  intros Hf Hn Hm. unfold meets in *. rewrite Forall_forall in *. intros e He. unfold fld.
  rewrite Hf by by apply Hn. by apply Hm.
Qed.

Definition fresh_names (spec : list (string * option json)) (l : list string) : bool :=
  forallb (λ n, negb (existsb (λ m, bool_decide (js n = js m)) l)) (map fst spec).

Lemma fresh_names_ok spec l :
  fresh_names spec l = true → Forall (λ e : string * option json, js e.1 ∉ names l) spec.
Proof.
  unfold fresh_names. rewrite forallb_forall. intros H. apply Forall_forall. intros e He Hin.
  apply list_elem_of_fmap in Hin as (m & Hm & Hin).
  assert (Hx : negb (existsb (λ m, bool_decide (js e.1 = js m)) l) = true).
  { apply H, list_elem_of_In, list_elem_of_fmap. eauto. }
  apply negb_true_iff in Hx. apply not_true_iff_false in Hx. apply Hx, existsb_exists. exists m.
  split; [by apply list_elem_of_In|]. by apply bool_decide_eq_true.
Qed.

(** Every property [buildSettingsJSON] decides on. *)
Definition settings_names : list string :=
  type_names ++ ["advanced_custom"; "allow_service_tier"]%string ++ websocket_names ++ openai_names
  ++ anthropic_names ++ update_names.

Definition settings_spec (f o : object) : list (string * option json) :=
  type_spec f ++ websocket_spec f ++ openai_spec f ++ anthropic_spec f ++ shared_spec f ++ update_spec f o.

Definition advanced_custom_value (f : object) : option json :=
  json_parse (string_or_empty
    (Some (or_ (fld f "advanced_custom_config") (JStr ADVANCED_CUSTOM_DEFAULT_CONFIG)))).

Definition middle_names : list string :=
  ["allow_service_tier"]%string ++ websocket_names ++ openai_names ++ anthropic_names.

Lemma update_spec_ext f o o' :
  (∀ k, k ∉ names (type_names ++ ["advanced_custom"]%string ++ middle_names) → map_get o' k = map_get o k) →
  update_spec f o' = update_spec f o.
Proof.
  intros Hf. unfold update_spec, fld.
  rewrite !(Hf (js "upstream_model_update_last_detected_models")),
    !(Hf (js "upstream_model_update_last_check_time")),
    !(Hf (js "upstream_model_update_last_removed_models")) by (apply (bool_decide_unpack _); by_eval). done.
Qed.

Lemma put_advanced_custom_value f o o' :
  put_advanced_custom f o = Ret o' →
  fld o' "advanced_custom" = (if is_num (fld f "type") 58 then advanced_custom_value f else None).
Proof.
  unfold put_advanced_custom. fold (advanced_custom_value f).
  destruct (is_num (fld f "type") 58); [|intros [= <-]; apply map_get_delete_eq].
  destruct (advanced_custom_value f); [|done]. intros [= <-]. apply map_get_set_eq.
Qed.

Ltac frame_by F := eapply meets_frame; [exact F|apply fresh_names_ok; by_eval|].

(** The stages of [edit_settings] after [advanced_custom], from the last. *)
Definition after_custom (f o2 : object) : object :=
  put_anthropic f (put_openai f (put_websocket f
    (put_if (is_num (fld f "type") 1 || is_num (fld f "type") 14)
       "allow_service_tier" (flag f "allow_service_tier") o2))).

Lemma after_custom_frame f o2 k : k ∉ names middle_names → map_get (after_custom f o2) k = map_get o2 k.
Proof.
  unfold middle_names. rewrite !not_names_app. intros ([H1 _]%not_names_cons & H2 & H3 & H4).
  unfold after_custom. rewrite anthropic_frame, openai_frame, websocket_frame by done. by apply put_if_frame.
Qed.

Lemma after_custom_meets f o2 :
  meets (after_custom f o2) (websocket_spec f ++ openai_spec f ++ anthropic_spec f ++ shared_spec f).
Proof.
  unfold after_custom. set (o3 := put_if _ _ _ o2).
  pose proof (openai_frame f (put_websocket f o3)) as F5.
  pose proof (anthropic_frame f (put_openai f (put_websocket f o3))) as F6.
  pose proof (websocket_frame f o3) as F4.
  rewrite !meets_app. split; [|split; [|split]].
  - frame_by F6. frame_by F5. apply websocket_meets.
  - frame_by F6. apply openai_meets.
  - apply anthropic_meets.
  - apply Forall_cons_2; [|apply Forall_cons_2; [apply shared_meets|apply Forall_nil_2]]. cbn [fst snd].
    unfold fld at 1. rewrite F6, F5, F4 by (apply (bool_decide_unpack _); by_eval).
    unfold o3. etransitivity; [apply fld_put_if|]. by decide_names.
Qed.

Lemma edit_settings_stages f o o' :
  edit_settings f o = Ret o' →
  ∃ o2, put_advanced_custom f (put_type_settings f o) = Ret o2 ∧ o' = put_model_update f (after_custom f o2).
Proof.
  unfold edit_settings. destruct (put_advanced_custom f (put_type_settings f o)) as [o2|]; [|done].
  intros [= <-]. eauto.
Qed.

Lemma low_frame f o o2 :
  put_advanced_custom f (put_type_settings f o) = Ret o2 →
  ∀ k, k ∉ names (type_names ++ ["advanced_custom"]%string ++ middle_names) →
  map_get (after_custom f o2) k = map_get o k.
Proof.
  intros H2 k. rewrite !not_names_app. intros (Ht & [Ha _]%not_names_cons & Hm).
  by rewrite after_custom_frame, (advanced_custom_frame f _ o2 k H2), type_settings_frame.
Qed.

Lemma edit_settings_meets f o o' : edit_settings f o = Ret o' → meets o' (settings_spec f o).
Proof.
  intros (o2 & H2 & ->)%edit_settings_stages.
  pose proof (model_update_frame f (after_custom f o2)) as F7.
  pose proof (after_custom_frame f o2) as Fm.
  assert (F2 : ∀ k, k ∉ names ["advanced_custom"%string] → map_get o2 k = map_get (put_type_settings f o) k).
  { intros k [Hk _]%not_names_cons. by apply advanced_custom_frame with f. }
  unfold settings_spec. rewrite <- (update_spec_ext f o (after_custom f o2)) by by apply low_frame.
  pose proof (after_custom_meets f o2) as Hmid. rewrite !meets_app in *.
  destruct Hmid as (? & ? & ? & ?).
  split; [|split; [|split; [|split; [|split]]]]; [..|apply model_update_meets]; frame_by F7; try assumption.
  frame_by Fm. frame_by F2. apply type_settings_meets.
Qed.

(** C33. The settings saved with a channel are determined by its type: each
    property the form controls has exactly the value the form and the type
    call for, and is absent for the types it does not belong to; every other
    property of the stored settings is kept as it is. *)
Theorem edit_settings_spec f o o' :
  edit_settings f o = Ret o' →
  meets o' (settings_spec f o)
  ∧ fld o' "advanced_custom" = (if is_num (fld f "type") 58 then advanced_custom_value f else None)
  ∧ ∀ k, k ∉ names settings_names → map_get o' k = map_get o k.
Proof.
  intros He. split; [by apply edit_settings_meets|].
  destruct (edit_settings_stages f o o' He) as (o2 & H2 & ->). split.
  - rewrite <- (put_advanced_custom_value f _ o2 H2). unfold fld.
    by rewrite model_update_frame, after_custom_frame by (apply (bool_decide_unpack _); by_eval).
  - intros k Hk. unfold settings_names in Hk. rewrite !not_names_app in Hk.
    destruct Hk as (Ht & [Ha [Hs _]%not_names_cons]%not_names_cons & Hw & Ho & Hn & Hu).
    rewrite model_update_frame by done. apply (low_frame f o o2 H2). unfold middle_names.
    rewrite !not_names_app, !not_names_cons. split; [done|]. split; [by split; [|apply not_elem_of_nil]|].
    split; [by split; [|apply not_elem_of_nil]|]. done.
Qed.

Definition sample_form : object :=
  spread CHANNEL_FORM_DEFAULT_VALUES
    [entry "name" (str "azure"); entry "type" (num 3); entry "azure_responses_version" (str "preview");
     entry "models" (str "gpt-4"); entry "settings" (JStr (map (λ c, if c =? 39 then c_quote else c)
       (js "{'aws_key_type':'api_key','custom':true}")))].

Definition sample_settings : object :=
  [entry "aws_key_type" (str "api_key"); entry "custom" (JBool true)].

Lemma edit_settings_spec_witness :
  ∃ o', edit_settings sample_form sample_settings = Ret o' ∧
    fld o' "advanced_custom" = None ∧ map_get o' (js "custom") = Some (JBool true).
Proof.
  destruct (edit_settings sample_form sample_settings) as [o'|] eqn:E; [|by vm_compute in E].
  exists o'. destruct (edit_settings_spec sample_form sample_settings o' E) as (_ & Ha & Hk).
  split; [reflexivity|]. split.
  - rewrite Ha. by_eval.
  - rewrite Hk by (apply (bool_decide_unpack _); by_eval). by_eval.
Defined.

(** ** Reading payloads *)

Lemma fld_empty_to_null o k :
  fld (empty_to_null o) k = null_if_empty <$> fld o k.
Proof.
  unfold fld, empty_to_null. induction o as [|[n v] o IH]; [done|]. cbn [map map_get fst snd].
  destruct (decide (n = js k)); [reflexivity|exact IH].
Qed.

Lemma clearable_names f : NoDup (map fst (clearable_fields f)).
Proof. cbn. apply (bool_decide_unpack _). by_eval. Qed.

Lemma buildSettingsJSON_inv f text :
  buildSettingsJSON f = Ret text →
  ∃ base o, existing_settings (fld f "settings") = Ret base ∧ edit_settings f base.2 = Ret o ∧
    text = json_stringify (match base.1 with Some l => JArr l | None => JObj o end).
Proof.
  unfold buildSettingsJSON, settings_value.
  destruct (existing_settings _) as [base|]; [|done]. cbn.
  destruct (edit_settings f base.2) as [o|] eqn:E; [|done]. cbn. intros [= <-]. eauto 10.
Qed.

Lemma meets_elem o spec n v : meets o spec → (n, v) ∈ spec → fld o n = v.
Proof. unfold meets. rewrite Forall_forall. intros H Hin. apply (H (n, v) Hin). Qed.

(** The channel properties that hold or route upstream credentials. *)
Definition upstream_fields : list string :=
  ["key"; "base_url"; "openai_organization"; "model_mapping"; "header_override"]%string.

Definition cleared (v : option json) : Prop := v = None ∨ v = Some JNull ∨ v = Some (str "").

(** C36. A channel of a local account pool carries no upstream credentials
    and no upstream routing: in the payloads that create and update it the
    key, base URL, organisation, model mapping and header override are empty,
    the type is OpenAI or Anthropic, the channel settings have no proxy and
    no body passthrough, and the type settings have neither Alpha Search,
    upstream websockets nor upstream model updates. *)
Theorem local_pool_has_no_credentials f channelId :
  local_pool f = true →
  (∀ p, transformFormDataToCreatePayload f = Ret p →
     mode p = str "single" ∧ Forall (λ n, cleared (fld (p_channel p) n)) upstream_fields
     ∧ (fld (p_channel p) "type" = Some (num 1) ∨ fld (p_channel p) "type" = Some (num 14)))
  ∧ (∀ u, transformFormDataToUpdatePayload f channelId = Ret u →
     Forall (λ n, cleared (fld u n)) upstream_fields
     ∧ (fld u "type" = Some (num 1) ∨ fld u "type" = Some (num 14)))
  ∧ fld (setting_object f) "proxy" = Some (str "")
  ∧ fld (setting_object f) "pass_through_body_enabled" = Some (JBool false)
  ∧ (∀ o o', edit_settings f o = Ret o' →
     fld o' "alpha_search_enabled" = None
     ∧ is_true (fld o' "responses_websocket_v2_enabled") = false
     ∧ Forall (λ n, fld o' n = None) update_names).
Proof.
  intros Hp.
  assert (Hty : account_type f = num 1 ∨ account_type f = num 14) by (unfold account_type; case_match; auto).
  split; [|split; [|split; [|split]]].
  - intros p. unfold transformFormDataToCreatePayload. destruct (buildSettingsJSON f) as [text|]; [|done].
    intros <-%Ret_inj. cbn [mode p_channel]. rewrite Hp. split; [done|].
    unfold create_channel. rewrite Hp. cbn [app]. split.
    + unfold upstream_fields, cleared.
      repeat (apply Forall_cons_2; [rewrite fld_empty_to_null; look; auto|]). apply Forall_nil_2.
    + rewrite fld_empty_to_null. look. destruct Hty as [-> | ->]; [by left|by right].
  - intros u. unfold transformFormDataToUpdatePayload. destruct (buildSettingsJSON f) as [text|]; [|done].
    cbn [mbind outcome_bind]. rewrite Hp. cbn [negb andb]. intros <-%Ret_inj.
    rewrite app_nil_r. unfold update_channel. rewrite Hp. cbn [app].
    split.
    + unfold upstream_fields, cleared.
      repeat (apply Forall_cons_2; [rewrite fld_spread by apply clearable_names; unfold clearable_fields;
        rewrite Hp; look; rewrite ?fld_empty_to_null; look; auto|]). apply Forall_nil_2.
    + rewrite fld_spread by apply clearable_names. unfold clearable_fields. look.
      rewrite fld_empty_to_null. look. destruct Hty as [-> | ->]; [by left|by right].
  - unfold setting_object. rewrite Hp. cbn [app]. look. done.
  - unfold setting_object. rewrite Hp. cbn [app]. look. done.
  - intros o o' He. pose proof (edit_settings_meets f o o' He) as Hm.
    unfold settings_spec in Hm. rewrite !meets_app in Hm. destruct Hm as (_ & Hw & Ho & _ & _ & Hu).
    unfold websocket_spec, openai_spec, update_spec in *. rewrite Hp in *. cbn [negb andb] in *.
    rewrite ?andb_false_r in *. split; [|split].
    + eapply meets_elem; [exact Ho|]. by left.
    + rewrite (meets_elem o' _ _ _ Hw (list_elem_of_here _ _)). by destruct (has_type _ _).
    + unfold update_names. repeat (apply Forall_cons_2; [eapply meets_elem; [exact Hu|]; unfold when;
        repeat (first [left; reflexivity | right])|]). apply Forall_nil_2.
Qed.

(** The form of a new channel for an account pool, filled in further. *)
Definition pool_form : object :=
  spread (getChannelCreateDefaultValues ModeLocal
            (Some {| preset_id := 7; preset_name := js "claude pool"; preset_anthropic := true |}))
    [entry "key" (str "sk-secret"); entry "base_url" (str "https://upstream");
     entry "proxy" (str "socks5://proxy"); entry "models" (str "claude-sonnet-4")].

Lemma local_pool_has_no_credentials_witness :
  ∃ p, transformFormDataToCreatePayload pool_form = Ret p ∧ mode p = str "single"
    ∧ fld (setting_object pool_form) "proxy" = Some (str "").
Proof.
  assert (Hp : local_pool pool_form = true) by by_eval.
  destruct (local_pool_has_no_credentials pool_form 7 Hp) as (Hc & _ & Hx & _).
  destruct (transformFormDataToCreatePayload pool_form) as [p|] eqn:E; [|by vm_compute in E].
  exists p. split; [reflexivity|]. destruct (Hc p eq_refl) as [Hm _]. by split.
Defined.

(** ** The stored key *)

Lemma fld_update_payload f channelId u n :
  transformFormDataToUpdatePayload f channelId = Ret u →
  ∃ text, buildSettingsJSON f = Ret text ∧
  fld u n =
    match fld (clearable_fields f) n with
    | Some v => Some v
    | None =>
        null_if_empty <$>
          match fld (update_channel f channelId text) n with
          | Some v => Some v
          | None => fld (if negb (local_pool f) && has_key f then opt_entry "key" (fld f "key") else []) n
          end
    end.
Proof.
  unfold transformFormDataToUpdatePayload. destruct (buildSettingsJSON f) as [text|]; [|done].
  cbn [mbind outcome_bind]. intros <-%Ret_inj. exists text. split; [done|].
  by rewrite fld_spread, fld_empty_to_null, fld_app by apply clearable_names.
Qed.

Lemma has_key_text f : has_key f = true → ∃ s, fld f "key" = Some (JStr s) ∧ s ≠ [].
Proof.
  unfold has_key. destruct (fld f "key") as [[| | |s| |]|]; cbn; rewrite ?andb_false_r; try done.
  intros H. exists s. split; [done|]. by intros ->.
Qed.

(** The stored key of a channel is never shown and never overwritten by
    accident: the editor opens with an empty key, an update carries a key
    only when the operator typed one that is not blank, it is then that key
    unchanged, and saving an untouched form sends none. *)
Theorem stored_key_is_kept channel f channelId u :
  transformFormDataToUpdatePayload f channelId = Ret u →
  fld u "key" = (if negb (local_pool f) && has_key f then fld f "key" else None)
  ∧ (∀ shown, transformChannelToFormDefaults channel = Ret shown → fld shown "key" = Some (str ""))
  ∧ (transformChannelToFormDefaults channel = Ret f → fld u "key" = None).
Proof.
  intros Hu.
  assert (Hkey : fld u "key" = if negb (local_pool f) && has_key f then fld f "key" else None).
  { destruct (fld_update_payload f channelId u "key" Hu) as (text & _ & ->).
    unfold clearable_fields. look. unfold update_channel. destruct (local_pool f); cbn [app negb andb]; look; [done|].
    destruct (has_key f) eqn:Hk; [|done]. destruct (has_key_text f Hk) as (s & Hs & Hne).
    rewrite Hs. cbn [opt_entry]. change [(js "key", JStr s)] with [entry "key" (JStr s)]. look. by destruct s. }
  assert (Hshown : ∀ shown, transformChannelToFormDefaults channel = Ret shown → fld shown "key" = Some (str "")).
  { intros shown. unfold transformChannelToFormDefaults. destruct (channel_info_mode _); [|done]. cbn [mbind outcome_bind].
    intros <-%Ret_inj. unfold form_defaults. rewrite fld_spread by (apply (bool_decide_unpack _); by_eval). by look. }
  split; [done|]. split; [done|]. intros Hf%Hshown. rewrite Hkey. unfold has_key. by rewrite Hf, andb_false_r.
Qed.

Definition sample_channel : object :=
  [entry "name" (str "azure"); entry "type" (num 3); entry "status" (num 1);
   entry "models" (str "gpt-4"); entry "group" (str "default,vip");
   entry "settings" (JStr (json_stringify (JObj sample_settings)));
   entry "channel_info" (JObj [entry "multi_key_mode" (str "random")])].

Definition sample_opened : object :=
  match transformChannelToFormDefaults sample_channel with Ret f => f | Throw => [] end.

Lemma stored_key_is_kept_witness :
  ∃ u, transformFormDataToUpdatePayload sample_opened 5 = Ret u ∧ fld u "key" = None.
Proof.
  assert (Hs : transformChannelToFormDefaults sample_channel = Ret sample_opened) by by_eval.
  destruct (transformFormDataToUpdatePayload sample_opened 5) as [u|] eqn:E; [|by vm_compute in E].
  exists u. split; [reflexivity|].
  destruct (stored_key_is_kept sample_channel _ 5 u E) as (_ & _ & H). by apply H.
Defined.

(** ** Saving and opening again

    What the editor shows of a channel it saved, and when saving throws. *)

(** ** What was saved is shown again *)

Lemma or_idem v d : or_ (Some (or_ v d)) d = or_ v d.
Proof. destruct v as [x|]; cbn; [|by destruct (truthy d)]. destruct (truthy x) eqn:E; cbn; [by rewrite E|by destruct (truthy d)]. Qed.

Lemma or_when (c : bool) v d : or_ (when c (Some (or_ v d))) d = if c then or_ v d else d.
Proof. destruct c; [apply or_idem|done]. Qed.

Lemma or_null_if_empty v : or_empty (null_if_empty <$> v) = or_empty v.
Proof. destruct v as [[| | |[]| |]|]; done. Qed.

Lemma is_true_when (c : bool) b : is_true (when c (Some (JBool b))) = c && b.
Proof. by destruct c, b. Qed.

Lemma not_false_bool b : not_false (Some (JBool b)) = b.
Proof. by destruct b. Qed.

(** A channel whose settings texts are those the form was saved with. *)
Lemma text_of_stringify o : json_safe (JObj o) → text_of (Some (JStr (json_stringify (JObj o)))) = Some (json_stringify (JObj o)).
Proof.
  intros Hs. apply json_parse_stringify in Hs. unfold text_of.
  destruct (json_stringify (JObj o)); [|done]. by vm_compute in Hs.
Qed.

Lemma null_if_empty_stringify o :
  json_safe (JObj o) → null_if_empty (JStr (json_stringify (JObj o))) = JStr (json_stringify (JObj o)).
Proof.
  intros Hs. apply json_parse_stringify in Hs.
  destruct (json_stringify (JObj o)); [|done]. by vm_compute in Hs.
Qed.

Lemma parsed_props_stringify o : json_safe (JObj o) → parsed_props (json_stringify (JObj o)) = Some o.
Proof. intros Hs. unfold parsed_props. by rewrite json_parse_stringify. Qed.

Lemma settings_props_stringify o :
  json_safe (JObj o) → settings_props (Some (JStr (json_stringify (JObj o)))) = o.
Proof. intros Hs. unfold settings_props. by rewrite text_of_stringify, parsed_props_stringify. Qed.

Lemma settings_value_object f o :
  settings_value f = Ret (JObj o) →
  ∃ base, existing_settings (fld f "settings") = Ret (None, base) ∧ edit_settings f base = Ret o.
Proof.
  unfold settings_value. destruct (existing_settings _) as [[[l|] base]|]; [| |done]; cbn;
    (destruct (edit_settings f base) as [o'|] eqn:E; [|done]); intros H; [done|].
  apply Ret_inj in H as [= ->]. eauto.
Qed.

(** The flags and choices the editor shows for the type's settings. *)
Definition shown_settings (f : object) : list (string * json) :=
  let ty := fld f "type" in
  let yes (c : bool) name := JBool (c && is_true (fld f name)) in
  let openai := is_num ty 1 in
  let anthropic := is_num ty 14 in
  let ws := has_type RESPONSES_WEBSOCKET_V2_CHANNEL_TYPES ty in
  let fetchable := has_type MODEL_FETCHABLE_TYPES ty in
  let check := is_true (fld f "upstream_model_update_check_enabled") in
  [("is_enterprise_account", yes (is_num ty 20) "is_enterprise_account");
   ("vertex_key_type", if is_num ty 41 then or_ (fld f "vertex_key_type") (str "json") else str "json");
   ("azure_responses_version", if is_num ty 3 then or_empty (fld f "azure_responses_version") else str "");
   ("aws_key_type", if is_num ty 33 then or_ (fld f "aws_key_type") (str "ak_sk") else str "ak_sk");
   ("allow_service_tier", yes (openai || anthropic) "allow_service_tier");
   ("disable_store", yes openai "disable_store");
   ("responses_websocket_v2_enabled", yes ws "responses_websocket_v2_enabled");
   ("responses_websocket_v2_replay_enabled",
      yes (ws && is_true (fld f "responses_websocket_v2_enabled")) "responses_websocket_v2_replay_enabled");
   ("alpha_search_enabled", yes openai "alpha_search_enabled");
   ("allow_include_obfuscation", yes openai "allow_include_obfuscation");
   ("allow_inference_geo", yes (openai || anthropic) "allow_inference_geo");
   ("allow_speed", yes anthropic "allow_speed");
   ("claude_beta_query", yes anthropic "claude_beta_query");
   ("claude_session_metadata", yes anthropic "claude_session_metadata");
   ("allow_safety_identifier", yes openai "allow_safety_identifier");
   ("upstream_model_update_check_enabled", JBool (fetchable && check));
   ("upstream_model_update_auto_sync_enabled", yes (fetchable && check) "upstream_model_update_auto_sync_enabled")]%string.

(** The channel settings the editor shows, and the texts. *)
Definition shown_setting (f : object) : list (string * json) :=
  let zq := is_num (fld f "type") 61 in
  let db := is_num (fld f "type") 62 in
  let text (c : bool) name d := if c then or_ (trim_opt (fld f name)) d else d in
  [("force_format", or_ (fld f "force_format") (JBool false));
   ("thinking_to_content", or_ (fld f "thinking_to_content") (JBool false));
   ("proxy", or_ (fld f "proxy") (str ""));
   ("pass_through_body_enabled", or_ (fld f "pass_through_body_enabled") (JBool false));
   ("system_prompt", or_ (fld f "system_prompt") (str ""));
   ("system_prompt_override", or_ (fld f "system_prompt_override") (JBool false));
   ("zqbapi_material_mode",
      if zq then or_ (fld f "zqbapi_material_mode") (str "face_preflight") else str "face_preflight");
   ("zqbapi_group_id", text zq "zqbapi_group_id" (str ""));
   ("zqbapi_project_name", text zq "zqbapi_project_name" (str ""));
   ("zqbapi_asset_group_type",
      if zq then or_ (fld f "zqbapi_asset_group_type") (str "virtual") else str "virtual");
   ("zqbapi_auto_normalize", JBool (negb zq || not_false (fld f "zqbapi_auto_normalize")));
   ("doubao_video2_material_mode",
      if db then or_ (fld f "doubao_video2_material_mode") (str "off") else str "off");
   ("doubao_video2_group_id", text db "doubao_video2_group_id" (str ""))]%string.

Definition shown_texts (f : object) : list (string * json) :=
  map (λ n, (n, or_empty (fld f n)))
    ["base_url"; "openai_organization"; "test_model"; "tag"; "remark"; "model_mapping";
     "status_code_mapping"; "param_override"; "header_override"; "name"; "models"; "other"]%string.

Definition shows (o : object) (spec : list (string * json)) : Prop :=
  Forall (λ e : string * json, fld o e.1 = Some e.2) spec.

Section shown.
Context (f channel o : object) (mode : option json).
Hypothesis Hpool : local_pool f = false.
Hypothesis Hsource : is_str (fld channel "credential_source") (js "local_account_pool") = false.

Ltac show_one :=
  unfold form_defaults; rewrite fld_spread by (apply (bool_decide_unpack _); by_eval);
  cbn zeta; look; rewrite ?Hsource.

Lemma shown_settings_ok base :
  settings_props (fld channel "settings") = o → meets o (settings_spec f base) →
  shows (form_defaults mode channel) (shown_settings f).
Proof.
  intros Ho Hm. unfold settings_spec in Hm. rewrite !meets_app in Hm.
  destruct Hm as (H1 & H2 & H3 & H4 & H5 & H6). unfold meets in *.
  unfold type_spec, websocket_spec, openai_spec, anthropic_spec, shared_spec, update_spec, flag in *.
  open_spec H1. open_spec H2. open_spec H3. open_spec H4. open_spec H5. open_spec H6. cbn zeta in *.
  rewrite Hpool in *. cbn [negb andb] in *. rewrite ?andb_true_r in *. unfold shows, shown_settings. cbn zeta.
  repeat (apply Forall_cons_2; [cbn [fst snd]; show_one; rewrite Ho;
    repeat match goal with H : fld o _ = _ |- _ => rewrite H; clear H end;
    rewrite ?is_true_when, ?or_when; try reflexivity|]); try apply Forall_nil_2.
  - destruct (is_num (fld f "type") 3); [|done]. destruct (fld f "azure_responses_version") as [v|]; [|done].
    unfold or_empty. cbn [is_truthy andb]. destruct (truthy v) eqn:Ht; unfold or_; cbn [when]; by rewrite ?Ht.
  - by rewrite andb_assoc.
  - by rewrite andb_assoc.
Qed.

Lemma transform_extra :
  Forall (λ n, fld (form_defaults mode channel) n =
               fld (extra_settings false (fld channel "setting")) n) (map fst (shown_setting f)).
Proof.
  unfold shown_setting. cbn [map fst].
  repeat (apply Forall_cons_2; [show_one; set (e := extra_settings false _); reflexivity|]). apply Forall_nil_2.
Qed.

Definition zqbapi_props : object :=
  [entry "material_mode" (or_ (fld f "zqbapi_material_mode") (str "face_preflight"));
   entry "group_id" (or_ (trim_opt (fld f "zqbapi_group_id")) (str ""));
   entry "project_name" (or_ (trim_opt (fld f "zqbapi_project_name")) (str ""));
   entry "asset_group_type" (or_ (fld f "zqbapi_asset_group_type") (str "virtual"));
   entry "auto_normalize" (JBool (not_false (fld f "zqbapi_auto_normalize")))].

Definition doubao_props : object :=
  [entry "material_mode" (or_ (fld f "doubao_video2_material_mode") (str "off"));
   entry "group_id" (or_ (trim_opt (fld f "doubao_video2_group_id")) (str ""))].

Lemma setting_object_props : meets (setting_object f)
  [("force_format"%string, Some (or_ (fld f "force_format") (JBool false)));
   ("thinking_to_content"%string, Some (or_ (fld f "thinking_to_content") (JBool false)));
   ("proxy"%string, Some (or_ (fld f "proxy") (str "")));
   ("pass_through_body_enabled"%string, Some (or_ (fld f "pass_through_body_enabled") (JBool false)));
   ("system_prompt"%string, Some (or_ (fld f "system_prompt") (str "")));
   ("system_prompt_override"%string, Some (or_ (fld f "system_prompt_override") (JBool false)));
   ("zqbapi"%string, when (is_num (fld f "type") 61) (Some (JObj zqbapi_props)));
   ("doubao_video2"%string, when (is_num (fld f "type") 62) (Some (JObj doubao_props)))].
Proof.
  unfold meets, setting_object. rewrite Hpool. cbn zeta. fold zqbapi_props. fold doubao_props.
  generalize zqbapi_props, doubao_props. intros zo db.
  destruct (is_num (fld f "type") 61), (is_num (fld f "type") 62); cbn [app when];
    repeat (apply Forall_cons_2; [cbn [fst snd]; look; reflexivity|]); apply Forall_nil_2.
Qed.

Lemma opt_prop_when (c : bool) zo n :
  opt_prop (when c (Some (JObj zo))) n = if c then fld zo n else None.
Proof. by destruct c. Qed.

Lemma parsed_extra_shown :
  shows (parsed_extra_settings false (setting_object f)) (shown_setting f).
Proof.
  pose proof setting_object_props as Hm. unfold meets in Hm. revert Hm.
  generalize (setting_object f). intros p Hm. open_spec Hm.
  unfold shows, shown_setting, parsed_extra_settings. cbn zeta.
  repeat (apply Forall_cons_2; [cbn [fst snd]; look;
    repeat match goal with H : fld p _ = _ |- _ => rewrite H; clear H end;
    rewrite ?or_idem, ?opt_prop_when; try reflexivity|]); try apply Forall_nil_2.
  all: cbn [fst snd]; destruct (is_num (fld f "type") 61), (is_num (fld f "type") 62); unfold zqbapi_props, doubao_props; look;
    rewrite ?or_idem, ?not_false_bool; reflexivity.
Qed.

Lemma shown_setting_ok :
  fld channel "setting" = Some (JStr (buildSettingJSON f)) → json_safe (JObj (setting_object f)) →
  shows (form_defaults mode channel) (shown_setting f).
Proof.
  unfold buildSettingJSON. intros Hs Hsafe.
  assert (He : extra_settings false (fld channel "setting") = parsed_extra_settings false (setting_object f)).
  { rewrite Hs. unfold extra_settings. by rewrite text_of_stringify, parsed_props_stringify. }
  pose proof transform_extra as Ht. pose proof parsed_extra_shown as Hp. unfold shows in *.
  rewrite Forall_forall in Hp. rewrite Forall_forall in Ht. apply Forall_forall. intros e Hin.
  etrans; [apply (Ht e.1)|]; [apply list_elem_of_fmap; eauto|]. rewrite He. by apply Hp.
Qed.
End shown.

Lemma or_null_empty v : or_empty (Some (null_if_empty (or_empty v))) = or_empty v.
Proof. unfold or_empty. destruct v as [[| | |[]| |]|]; try done; cbn; repeat case_match; done. Qed.

Section saved.
Context (f : object) (channelId : Z) (u : object).
Hypothesis Hpool : local_pool f = false.
Hypothesis Hu : transformFormDataToUpdatePayload f channelId = Ret u.

Lemma update_text n : n ∈ map fst (shown_texts f) → or_empty (fld u n) = or_empty (fld f n).
Proof.
  destruct (fld_update_payload f channelId u n Hu) as (text & _ & ->). unfold shown_texts. cbn [map fst].
  intros Hn. repeat (apply elem_of_cons in Hn as [-> |Hn]); [..|by apply elem_of_nil in Hn];
    unfold clearable_fields, update_channel; rewrite Hpool; cbn [app]; look; try apply or_idem.
  - destruct (fld f "name"); [apply or_null_if_empty|]. look. by destruct (has_key f), (fld f "key").
  - destruct (fld f "models"); [apply or_null_if_empty|]. look. by destruct (has_key f), (fld f "key").
  - apply or_null_empty.
Qed.

Lemma update_not_pool : is_str (fld u "credential_source") (js "local_account_pool") = false.
Proof.
  destruct (fld_update_payload f channelId u "credential_source" Hu) as (text & _ & ->).
  unfold clearable_fields, update_channel. rewrite Hpool. cbn [app negb andb]. look.
  assert (Hk : fld (if has_key f then opt_entry "key" (fld f "key") else []) "credential_source" = None).
  { destruct (has_key f), (fld f "key"); [|done..]. cbn [opt_entry]. apply (fld_opt "key" (Some _) []). }
  rewrite Hk. unfold local_pool in Hpool. by destruct (fld f "credential_source") as [[| | |[]| |]|].
Qed.

Lemma update_setting_texts :
  ∃ text, buildSettingsJSON f = Ret text ∧ fld u "settings" = Some (null_if_empty (JStr text))
    ∧ fld u "setting" = Some (null_if_empty (JStr (buildSettingJSON f))).
Proof.
  destruct (fld_update_payload f channelId u "settings" Hu) as (text & Ht & H1).
  destruct (fld_update_payload f channelId u "setting" Hu) as (text' & Ht' & H2).
  exists text. split; [done|]. rewrite H1, H2.
  unfold clearable_fields, update_channel. rewrite Hpool. cbn [app]. by look.
Qed.
End saved.

(** The numbers, the type and the status. *)
Definition shown_numbers (f : object) : list (string * json) :=
  [("type", default JNull (null_if_empty <$> fld f "type"));
   ("priority", or_ (fld f "priority") (num 0));
   ("weight", or_ (fld f "weight") (num 0));
   ("auto_ban", nullish_or (null_if_empty <$> fld f "auto_ban") (num 1));
   ("status", default JNull (null_if_empty <$> fld f "status"))]%string.

(** The channel the server returns for an update: it has the texts, the
    numbers and the settings that were sent, with no text or an empty one for
    what was cleared; it has a [channel_info], which no update sends; and it
    belongs to an account pool only if that was sent. *)
Record stored_as (u channel : object) : Prop := {
  st_info : ∃ info, fld channel "channel_info" = Some info ∧ info ≠ JNull;
  st_source : is_str (fld channel "credential_source") (js "local_account_pool")
              = is_str (fld u "credential_source") (js "local_account_pool");
  st_texts : Forall (λ n, or_empty (fld channel n) = or_empty (fld u n))
    ["base_url"; "openai_organization"; "test_model"; "tag"; "remark"; "model_mapping"; "status_code_mapping";
     "param_override"; "header_override"; "name"; "models"; "other"; "group"]%string;
  st_values : Forall (λ n, fld channel n = fld u n)
    ["settings"; "setting"; "type"; "priority"; "weight"; "auto_ban"; "status"]%string;
}.

Section reopened.
Context (f : object) (channelId : Z) (u channel : object) (mode : option json).
Hypothesis Hpool : local_pool f = false.
Hypothesis Hu : transformFormDataToUpdatePayload f channelId = Ret u.
Hypothesis Hst : stored_as u channel.

Lemma stored_source : is_str (fld channel "credential_source") (js "local_account_pool") = false.
Proof. rewrite (st_source _ _ Hst). by eapply update_not_pool. Qed.

Lemma stored_value n : n ∈ ["settings"; "setting"; "type"; "priority"; "weight"; "auto_ban"; "status"]%string → fld channel n = fld u n.
Proof. intros Hn. pose proof (st_values _ _ Hst) as H. rewrite Forall_forall in H. by apply H. Qed.

Lemma stored_text n : n ∈ map fst (shown_texts f) → or_empty (fld channel n) = or_empty (fld f n).
Proof.
  intros Hn. rewrite <- (update_text f channelId u Hpool Hu n Hn). pose proof (st_texts _ _ Hst) as H.
  rewrite Forall_forall in H. apply H. clear H. revert Hn. unfold shown_texts. cbn [map fst]. set_solver.
Qed.

(** What an update sends of the other fields. *)
Lemma sent_fields :
  fld u "type" = (null_if_empty <$> fld f "type") ∧ fld u "status" = (null_if_empty <$> fld f "status")
  ∧ fld u "priority" = Some (null_if_empty (nullish_or (fld f "priority") (num 0)))
  ∧ fld u "weight" = Some (null_if_empty (nullish_or (fld f "weight") (num 0)))
  ∧ fld u "auto_ban" = Some (null_if_empty (nullish_or (fld f "auto_ban") (num 1)))
  ∧ fld u "group" = Some (null_if_empty (JStr (formatGroups (strings_of (fld f "group"))))).
Proof.
  assert (Hk : ∀ n, js "key" ≠ js n → fld (if has_key f then opt_entry "key" (fld f "key") else []) n = None).
  { intros n Hn. destruct (has_key f), (fld f "key"); [|done..]. cbn [opt_entry].
    change (fld [entry "key" j] n = None). rewrite fld_entry. by rewrite decide_False. }
  split_and!; match goal with |- fld u ?n = _ => destruct (fld_update_payload f channelId u n Hu) as (text & _ & ->) end;
    unfold clearable_fields, update_channel; rewrite Hpool; cbn [app negb andb]; look; try done.
  - destruct (fld f "type"); [done|]. look. rewrite Hk by (vm_compute; discriminate). done.
  - destruct (fld f "status"); [done|]. look. rewrite Hk by (vm_compute; discriminate). done.
Qed.

Lemma reopened_numbers : shows (form_defaults mode channel) (shown_numbers f).
Proof.
  destruct sent_fields as (H1 & H2 & H3 & H4 & H5 & _). unfold shows, shown_numbers, form_defaults.
  repeat (apply Forall_cons_2; [cbn [fst snd]; rewrite fld_spread by (apply (bool_decide_unpack _); by_eval); cbn zeta; look;
    rewrite ?stored_source, stored_value by set_solver|]); try apply Forall_nil_2.
  - by rewrite H1.
  - rewrite H3. destruct (fld f "priority") as [[| | |[]| |]|]; cbn; try done; by repeat case_match.
  - rewrite H4. destruct (fld f "weight") as [[| | |[]| |]|]; cbn; try done; by repeat case_match.
  - rewrite H5. by destruct (fld f "auto_ban") as [[| | |[]| |]|].
  - by rewrite H2.
Qed.

(** Groups without blanks around them and without commas. *)
Lemma reopened_groups :
  strings_of (fld f "group") ≠ [] → Forall (clean_part c_comma) (strings_of (fld f "group")) →
  fld (form_defaults mode channel) "group" = Some (jstrings (strings_of (fld f "group"))).
Proof.
  intros Hne Hc. destruct sent_fields as (_ & _ & _ & _ & _ & Hg). unfold form_defaults.
  rewrite fld_spread by (apply (bool_decide_unpack _); by_eval). cbn zeta. look. do 2 f_equal.
  pose proof (st_texts _ _ Hst) as H. rewrite Forall_forall in H. specialize (H "group"%string ltac:(set_solver)). rewrite Hg in H.
  destruct (formatGroups (strings_of (fld f "group"))) as [|c t] eqn:E.
  { exfalso. unfold formatGroups in E. destruct (strings_of (fld f "group")) as [|g [|g' l]]; [done| |].
    - apply Forall_cons in Hc as [[Hg' _] _]. cbn in E. done.
    - apply Forall_cons in Hc as [[Hg' _] _]. cbn in E. by destruct g. }
  unfold or_empty in H. destruct (fld channel "group") as [v|] eqn:Ev; [|done].
  assert (v = JStr (c :: t)) as ->.
  { revert H. cbn. destruct (truthy v) eqn:Et; [by intros ->|done]. }
  change (trimmed_parts c_comma (c :: t) = strings_of (fld f "group")). rewrite <- E. by apply trimmed_parts_join.
Qed.
End reopened.

(** C6. What was saved is what the editor shows when the channel is opened
    again. For a channel with keys of its own whose stored settings are an
    object, and values that JSON can hold: whatever channel the server then
    returns with the fields that were sent, the form shows the flags and
    choices of the type's settings and the channel settings as they were, as
    far as they belong to the channel's type, and the defaults otherwise; the
    names, addresses, mappings and other texts; the type, the status, the
    priority, the weight and the automatic ban; and the groups, where none has
    blanks around it or a comma in it. The key, the routes and the ignored
    models are not among them. *)
Theorem saved_channel_is_shown f channelId u o channel :
  local_pool f = false → settings_value f = Ret (JObj o) →
  json_safe (JObj o) → json_safe (JObj (setting_object f)) →
  transformFormDataToUpdatePayload f channelId = Ret u → stored_as u channel →
  ∃ shown, transformChannelToFormDefaults channel = Ret shown
    ∧ shows shown (shown_settings f) ∧ shows shown (shown_setting f) ∧ shows shown (shown_texts f) ∧ shows shown (shown_numbers f)
    ∧ (strings_of (fld f "group") ≠ [] → Forall (clean_part c_comma) (strings_of (fld f "group")) →
       fld shown "group" = Some (jstrings (strings_of (fld f "group")))).
Proof.
  intros Hpool Ho Hso Hss Hu Hst. destruct (st_info _ _ Hst) as (info & Hi & Hnull).
  exists (form_defaults (opt_prop (Some info) "multi_key_mode") channel).
  split; [unfold transformChannelToFormDefaults; rewrite Hi; by destruct info|].
  destruct (update_setting_texts f channelId u Hpool Hu) as (text & Ht & Hs1 & Hs2).
  unfold buildSettingsJSON in Ht. rewrite Ho in Ht. apply (Ret_inj (json_stringify (JObj o)) text) in Ht as <-.
  destruct (settings_value_object f o Ho) as (base & _ & He%edit_settings_meets).
  pose proof (stored_source f channelId u channel Hpool Hu Hst) as Hsrc. split_and!.
  - apply (shown_settings_ok f channel o _ Hpool Hsrc base); [|done].
    rewrite (stored_value u channel Hst), Hs1, null_if_empty_stringify by (done || set_solver). by apply settings_props_stringify.
  - apply (shown_setting_ok f channel _ Hpool Hsrc); [|done].
    rewrite (stored_value u channel Hst), Hs2 by set_solver. unfold buildSettingJSON. by rewrite null_if_empty_stringify.
  - unfold shows, shown_texts. apply Forall_forall. intros e (n & -> & Hn)%list_elem_of_fmap. cbn [fst snd].
    rewrite <- (stored_text f channelId u channel Hpool Hu Hst n) by exact Hn.
    unfold form_defaults. rewrite fld_spread by (apply (bool_decide_unpack _); by_eval). cbn zeta. rewrite Hsrc.
    repeat (apply elem_of_cons in Hn as [-> |Hn]); [..|by apply elem_of_nil in Hn];
      look; reflexivity.
  - by apply (reopened_numbers f channelId u).
  - by apply (reopened_groups f channelId u).
Qed.

Definition sample_saved : object :=
  match settings_value sample_form with Ret (JObj o) => o | _ => [] end.

Definition sample_update : object :=
  match transformFormDataToUpdatePayload sample_form 5 with Ret u => u | Throw => [] end.

(** The server's channel: what was sent, and the information on its keys. *)
Definition sample_stored : object := entry "channel_info" (JObj [entry "multi_key_mode" (str "polling")]) :: sample_update.

Lemma saved_channel_is_shown_witness :
  transformFormDataToUpdatePayload sample_form 5 = Ret sample_update
  ∧ ∃ shown, transformChannelToFormDefaults sample_stored = Ret shown ∧ shows shown (shown_settings sample_form)
    ∧ fld shown "multi_key_type" = Some (str "polling").
Proof.
  assert (Hu : transformFormDataToUpdatePayload sample_form 5 = Ret sample_update) by by_eval.
  split; [exact Hu|].
  assert (Hst : stored_as sample_update sample_stored).
  { split; [eexists; split; [by_eval|done]|by_eval|..]; repeat (apply Forall_cons_2; [by_eval|]); apply Forall_nil_2. }
  destruct (saved_channel_is_shown sample_form 5 sample_update sample_saved sample_stored) as (shown & Hs & H & _);
    [by_eval|by_eval|apply json_safeb_ok; by_eval|apply json_safeb_ok; by_eval|exact Hu|exact Hst|].
  exists shown. split; [exact Hs|]. split; [exact H|].
  assert (E : match transformChannelToFormDefaults sample_stored with
              | Ret o => fld o "multi_key_type" = Some (str "polling") | Throw => False end) by by_eval.
  by rewrite Hs in E.
Defined.

(** A channel without [channel_info] cannot be opened. *)
Lemma missing_info_throws channel : fld channel "channel_info" = None → transformChannelToFormDefaults channel = Throw.
Proof. unfold transformChannelToFormDefaults. by intros ->. Qed.

(** ** When saving throws *)

(** The stored settings are JSON but neither an object nor an array. *)
Definition primitive_settings (settings : option json) : bool :=
  match text_of settings with
  | None => false
  | Some text =>
      match json_parse text with
      | None | Some (JObj _) | Some (JArr _) => false
      | Some _ => true
      end
  end.

Lemma existing_settings_throws settings :
  existing_settings settings = Throw ↔ primitive_settings settings = true.
Proof.
  unfold existing_settings, primitive_settings. destruct (text_of settings) as [text|]; [|done].
  case_bool_decide as Ht; [subst text; by vm_compute|].
  destruct (json_parse text) as [[]|]; done.
Qed.

Lemma edit_settings_throws f o :
  edit_settings f o = Throw ↔ is_num (fld f "type") 58 = true ∧ advanced_custom_value f = None.
Proof.
  unfold edit_settings, put_advanced_custom. fold (advanced_custom_value f).
  destruct (is_num (fld f "type") 58); [|split; [done|by intros []]].
  destruct (advanced_custom_value f); split; try done. by intros [_ ?].
Qed.

Lemma buildSettingsJSON_throws f :
  buildSettingsJSON f = Throw ↔
  primitive_settings (fld f "settings") = true
  ∨ (is_num (fld f "type") 58 = true ∧ advanced_custom_value f = None).
Proof.
  rewrite <- existing_settings_throws. unfold buildSettingsJSON, settings_value.
  destruct (existing_settings (fld f "settings")) as [base|]; [|by split; [left|]].
  rewrite <- (edit_settings_throws f base.2). cbn.
  destruct (edit_settings f base.2); cbn; split; try done; [by intros [?|?]|by right].
Qed.

(** A form the schema accepts has a configuration that can be read. *)
Lemma valid_form_routes f :
  refine_issues f = [] → is_num (fld f "type") 58 = true → advanced_custom_value f ≠ None.
Proof.
  unfold refine_issues. intros (_ & (_ & H)%app_eq_nil)%app_eq_nil Ht. rewrite Ht in H. cbn in H.
  unfold valid_routes, advanced_custom_value in *.
  destruct (fld f "advanced_custom_config") as [[| | |[|c s]| |]|]; try done.
  cbn [string_or_empty or_ truthy] in *. unfold or_, truthy. cbn. cbn in H.
  by destruct (json_parse (c :: s)).
Qed.

(** Saving a form the schema accepts throws exactly when the stored
    settings text is JSON that is neither an object nor an array, such as
    [null] or a number, although settings that are no JSON at all are
    tolerated; with an array the settings of the form are lost. *)
Theorem saving_throws_iff f channelId :
  refine_issues f = [] →
  (transformFormDataToCreatePayload f = Throw ↔ primitive_settings (fld f "settings") = true)
  ∧ (transformFormDataToUpdatePayload f channelId = Throw ↔ primitive_settings (fld f "settings") = true)
  ∧ ∀ text l, fld f "settings" = Some (JStr text) → json_parse text = Some (JArr l) →
      buildSettingsJSON f = Ret (json_stringify (JArr l)).
Proof.
  intros Hv. pose proof (buildSettingsJSON_throws f) as Hb. pose proof (valid_form_routes f Hv) as Hr.
  assert (Ht : buildSettingsJSON f = Throw ↔ primitive_settings (fld f "settings") = true) by tauto.
  split; [|split].
  - rewrite <- Ht. unfold transformFormDataToCreatePayload. by destruct (buildSettingsJSON f).
  - rewrite <- Ht. unfold transformFormDataToUpdatePayload. by destruct (buildSettingsJSON f).
  - intros text l Hs Hl. unfold buildSettingsJSON, settings_value, existing_settings. rewrite Hs.
    destruct text as [|c text]; [by vm_compute in Hl|]. cbn [text_of].
    rewrite bool_decide_eq_false_2 by (intros E; rewrite E in Hl; by vm_compute in Hl). rewrite Hl. cbn.
    destruct (edit_settings f []) eqn:E; [done|]. apply edit_settings_throws in E. tauto.
Qed.

(** A channel whose stored settings are the text [null]. *)
Definition null_settings_form : object :=
  spread CHANNEL_FORM_DEFAULT_VALUES [entry "name" (str "x"); entry "settings" (str "null")].

Lemma saving_throws_iff_witness :
  refine_issues null_settings_form = [] ∧ transformFormDataToCreatePayload null_settings_form = Throw.
Proof.
  assert (Hr : refine_issues null_settings_form = []) by by_eval. split; [exact Hr|].
  destruct (saving_throws_iff null_settings_form 1 Hr) as (Hc & _ & _). apply Hc. by_eval.
Defined.
