(* ===== verification/ParamOverride.v ===== *)
(** * Parameter override rules

    Model of the rules behind
    [web/default/src/features/channels/components/dialogs/param-override-editor-dialog.tsx]:
    how the stored JSON text becomes the rules of the editor and back, the
    checks before saving, the order of rules and the drafts of structured
    values. Identifiers are drawn from the clock and a counter: [now n] is the
    time at which the [n]-th one is drawn, the counter is threaded. The
    translation function [t] is a parameter. Reading a property of [null]
    throws. *)

From Stdlib Require Import String.
From S2P Require Import JsJson JsonText JsObject.

(** ** Rules and their modes *)

Record ParamOverrideCondition := {
  c_id : jstr;
  c_path : jstr;
  c_mode : jstr;
  c_value_text : jstr;
  c_invert : bool;
  c_pass_missing_key : bool;
}.

Record ParamOverrideOperation := {
  o_id : jstr;
  o_description : jstr;
  o_path : jstr;
  o_mode : jstr;
  o_from : jstr;
  o_to : jstr;
  o_value_text : jstr;
  o_keep_origin : bool;
  o_logic : jstr;
  o_conditions : list ParamOverrideCondition;
}.

#[export] Instance ParamOverrideCondition_eq_dec : EqDecision ParamOverrideCondition.
Proof. solve_decision. Defined.
#[export] Instance ParamOverrideOperation_eq_dec : EqDecision ParamOverrideOperation.
Proof. solve_decision. Defined.

Definition OPERATION_MODE_OPTIONS : list (string * string) :=
  [("Set Field", "set"); ("Delete Field", "delete"); ("Append to End", "append");
   ("Prepend to Start", "prepend"); ("Copy Field", "copy"); ("Move Field", "move");
   ("String Replace", "replace"); ("Regex Replace", "regex_replace");
   ("Trim Prefix", "trim_prefix"); ("Trim Suffix", "trim_suffix");
   ("Ensure Prefix", "ensure_prefix"); ("Ensure Suffix", "ensure_suffix");
   ("Trim Space", "trim_space"); ("To Lowercase", "to_lower"); ("To Uppercase", "to_upper");
   ("Return Custom Error", "return_error"); ("Prune Object Items", "prune_objects");
   ("Pass Through Headers", "pass_headers"); ("Sync Fields", "sync_fields");
   ("Set Request Header", "set_header"); ("Delete Request Header", "delete_header");
   ("Copy Request Header", "copy_header"); ("Move Request Header", "move_header")]%string.

Definition OPERATION_MODE_VALUES : list jstr := map (λ o : string * string, js o.2) OPERATION_MODE_OPTIONS.

Definition OPERATION_MODE_LABEL_MAP : list (jstr * jstr) :=
  map (λ o : string * string, (js o.2, js o.1)) OPERATION_MODE_OPTIONS.

Definition CONDITION_MODE_OPTIONS : list (string * string) :=
  [("Exact Match", "full"); ("Prefix", "prefix"); ("Suffix", "suffix"); ("Contains", "contains");
   ("Greater Than", "gt"); ("Greater Than or Equal", "gte"); ("Less Than", "lt");
   ("Less Than or Equal", "lte")]%string.

Definition CONDITION_MODE_VALUES : list jstr := map (λ o : string * string, js o.2) CONDITION_MODE_OPTIONS.

(** [set.has(s)] *)
Definition has (l : list jstr) (s : jstr) : bool := bool_decide (s ∈ l).

Record ModeMeta := {
  m_path : bool;
  m_pathOptional : bool;
  m_value : bool;
  m_from : bool;
  m_to : bool;
  m_keepOrigin : bool;
  m_pathAlias : bool;
}.

Definition no_meta : ModeMeta :=
  {| m_path := false; m_pathOptional := false; m_value := false; m_from := false; m_to := false;
     m_keepOrigin := false; m_pathAlias := false |}.

Definition path_only : ModeMeta :=
  {| m_path := true; m_pathOptional := false; m_value := false; m_from := false; m_to := false;
     m_keepOrigin := false; m_pathAlias := false |}.

Definition path_value (keep : bool) : ModeMeta :=
  {| m_path := true; m_pathOptional := false; m_value := true; m_from := false; m_to := false;
     m_keepOrigin := keep; m_pathAlias := false |}.

Definition value_only (optional keep : bool) : ModeMeta :=
  {| m_path := false; m_pathOptional := optional; m_value := true; m_from := false; m_to := false;
     m_keepOrigin := keep; m_pathAlias := false |}.

Definition path_from : ModeMeta :=
  {| m_path := true; m_pathOptional := false; m_value := false; m_from := true; m_to := false;
     m_keepOrigin := false; m_pathAlias := false |}.

Definition from_to (header : bool) : ModeMeta :=
  {| m_path := false; m_pathOptional := false; m_value := false; m_from := true; m_to := true;
     m_keepOrigin := header; m_pathAlias := header |}.

Definition MODE_META : list (jstr * ModeMeta) :=
  [(js "delete", path_only); (js "set", path_value true); (js "append", path_value true);
   (js "prepend", path_value true); (js "copy", from_to false); (js "move", from_to false);
   (js "replace", path_from); (js "regex_replace", path_from);
   (js "trim_prefix", path_value false); (js "trim_suffix", path_value false);
   (js "ensure_prefix", path_value false); (js "ensure_suffix", path_value false);
   (js "trim_space", path_only); (js "to_lower", path_only); (js "to_upper", path_only);
   (js "return_error", value_only false false); (js "prune_objects", value_only true false);
   (js "pass_headers", value_only false true); (js "sync_fields", from_to false);
   (js "set_header", path_value true); (js "delete_header", path_only);
   (js "copy_header", from_to true); (js "move_header", from_to true)].

(** [MODE_META[mode] || MODE_META.set] *)
Definition meta_of (mode : jstr) : ModeMeta := default (path_value true) (map_get MODE_META mode).

Definition VALUE_REQUIRED_MODES : list jstr :=
  map js ["trim_prefix"; "trim_suffix"; "ensure_prefix"; "ensure_suffix"; "set_header"; "return_error";
          "prune_objects"; "pass_headers"]%string.

Definition FROM_REQUIRED_MODES : list jstr :=
  map js ["copy"; "move"; "replace"; "regex_replace"; "copy_header"; "move_header"; "sync_fields"]%string.

Definition TO_REQUIRED_MODES : list jstr :=
  map js ["copy"; "move"; "copy_header"; "move_header"; "sync_fields"]%string.

(** ** Texts and values *)

Definition toValueText (value : option json) : jstr :=
  match value with
  | None => []
  | Some (JStr s) => s
  | Some v => json_stringify v
  end.

Definition parseLooseValue (valueText : jstr) : json :=
  let raw := trim valueText in
  match raw with
  | [] => JStr []
  | _ => match json_parse raw with Some v => v | None => JStr raw end
  end.

Definition verifyJSON (text : jstr) : bool :=
  match json_parse text with Some _ => true | None => false end.

(** The properties read of a value: [null] throws, other values than objects
    have none of those read here. *)
Definition props_of (v : json) : outcome object :=
  match v with
  | JNull => Throw
  | JObj o => Ret o
  | _ => Ret []
  end.

Definition string_prop (o : object) (name : string) : jstr :=
  match fld o name with Some (JStr s) => s | _ => [] end.

(** [SET.has(o.mode) ? o.mode : fallback] *)
Definition mode_prop (modes : list jstr) (fallback : string) (o : object) : jstr :=
  match fld o "mode" with
  | Some (JStr s) => if has modes s then s else js fallback
  | _ => js fallback
  end.

(** Case mappings on ASCII letters; the results are only compared with ASCII
    words, none of whose letters is the image of another unit. *)
Definition upper_unit (c : Z) : Z := if (97 <=? c) && (c <=? 122) then c - 32 else c.
Definition lower_unit (c : Z) : Z := if (65 <=? c) && (c <=? 90) then c + 32 else c.
Definition to_upper : jstr → jstr := map upper_unit.
Definition to_lower : jstr → jstr := map lower_unit.

(** [String(v || d)] *)
Definition string_or (v : option json) (d : string) : jstr := string_of_json (or_ v (str d)).

(** ** From JSON to rules *)

Section rules.
Context (now : Z → Z).

Definition nextLocalId (seed : Z) : jstr := js "po_" ++ string_of_Z (now seed) ++ js "_" ++ string_of_Z seed.

(** Map with the counter threaded through the elements. *)
Fixpoint map_seed {A B} (f : Z → A → outcome (B * Z)) (seed : Z) (l : list A) : outcome (list B * Z) :=
  match l with
  | [] => Ret ([], seed)
  | x :: l' =>
      y ← f seed x;
      r ← map_seed f y.2 l';
      Ret (y.1 :: r.1, r.2)
  end.

Definition condition_of (id : jstr) (condition : object) : ParamOverrideCondition :=
  {| c_id := id;
     c_path := string_prop condition "path";
     c_mode := mode_prop CONDITION_MODE_VALUES "full" condition;
     c_value_text := toValueText (fld condition "value");
     c_invert := is_true (fld condition "invert");
     c_pass_missing_key := is_true (fld condition "pass_missing_key") |}.

(** Its argument is an element of an array that was parsed. *)
Definition normalizeCondition (seed : Z) (condition : json) : outcome (ParamOverrideCondition * Z) :=
  o ← props_of condition;
  Ret (condition_of (nextLocalId seed) o, seed + 1).

Definition createDefaultCondition (seed : Z) : ParamOverrideCondition * Z :=
  (condition_of (nextLocalId seed) [], seed + 1).

Definition operation_of (id : jstr) (operation : object) (conditions : list ParamOverrideCondition)
    : ParamOverrideOperation :=
  {| o_id := id;
     o_description := string_prop operation "description";
     o_path := string_prop operation "path";
     o_mode := mode_prop OPERATION_MODE_VALUES "set" operation;
     o_value_text := toValueText (fld operation "value");
     o_keep_origin := is_true (fld operation "keep_origin");
     o_from := string_prop operation "from";
     o_to := string_prop operation "to";
     o_logic := if bool_decide (to_upper (string_or (fld operation "logic") "OR") = js "AND")
                then js "AND" else js "OR";
     o_conditions := conditions |}.

Definition normalizeOperation (seed : Z) (operation : json) : outcome (ParamOverrideOperation * Z) :=
  o ← props_of operation;
  cs ← match fld o "conditions" with
       | Some (JArr l) => map_seed normalizeCondition (seed + 1) l
       | _ => Ret ([], seed + 1)
       end;
  Ret (operation_of (nextLocalId seed) o cs.1, cs.2).

Definition createDefaultOperation (seed : Z) : ParamOverrideOperation * Z :=
  (operation_of (nextLocalId seed) [entry "mode" (str "set")] [], seed + 1).

(** ** Order *)

Fixpoint find_index (p : ParamOverrideOperation → bool) (l : list ParamOverrideOperation) : option nat :=
  match l with
  | [] => None
  | x :: l' => if p x then Some 0%nat else S <$> find_index p l'
  end.

(** [id === target] *)
Definition has_id (target : jstr) (o : ParamOverrideOperation) : bool := bool_decide (o_id o = target).

Inductive position := Before | After.

(** [l.splice(i, 0, x)] *)
Definition splice_in {A} (i : nat) (x : A) (l : list A) : list A := take i l ++ x :: drop i l.

Definition reorderOperations (ops : list ParamOverrideOperation) (sourceId targetId : jstr)
    (pos : position) : list ParamOverrideOperation :=
  if negb (nonempty sourceId) || negb (nonempty targetId) || bool_decide (sourceId = targetId) then ops
  else
    match find_index (has_id sourceId) ops with
    | None => ops
    | Some srcIdx =>
        match ops !! srcIdx with
        | None => ops
        | Some moved =>
            let next := delete srcIdx ops in
            match find_index (has_id targetId) next with
            | None => ops
            | Some i => splice_in (match pos with After => S i | Before => i end) moved next
            end
        end
    end.

(** ** Checks before saving *)

(** [s.trim()] of a text that is not blank *)
Definition filled (s : jstr) : bool := nonempty (trim s).

Definition isOperationBlank (operation : ParamOverrideOperation) : bool :=
  let hasCondition := existsb (λ c,
    filled (c_path c) || filled (c_value_text c) || negb (bool_decide (c_mode c = js "full"))
    || c_invert c || c_pass_missing_key c) (o_conditions operation) in
  bool_decide (o_mode operation = js "set")
  && negb (filled (o_path operation)) && negb (filled (o_from operation))
  && negb (filled (o_to operation)) && negb (filled (o_value_text operation))
  && negb (o_keep_origin operation) && negb hasCondition.

(** [operation.mode || 'set'] *)
Definition mode_or_set (operation : ParamOverrideOperation) : jstr :=
  match o_mode operation with [] => js "set" | m => m end.

Definition getOperationSummary (operation : ParamOverrideOperation) (index : Z) : jstr :=
  let mode := mode_or_set operation in
  let modeLabel := match map_get OPERATION_MODE_LABEL_MAP mode with
                   | Some ((_ :: _) as l) => l | _ => mode end in
  let first_filled l := match filterb nonempty (map trim l) with x :: _ => x | [] => js "-" end in
  string_of_Z (index + 1) ++ js ". " ++ modeLabel ++ js " · " ++
  first_filled (if bool_decide (mode = js "sync_fields") then [o_from operation; o_to operation]
                else [o_path operation; o_from operation; o_to operation]).

(** [String(v ?? '').trim()] *)
Definition header_name (v : json) : jstr :=
  trim (match v with JNull => [] | _ => string_of_json v end).

Definition parsePassHeaderNames (rawValue : json) : list jstr :=
  let names l := filterb nonempty (map header_name l) in
  match rawValue with
  | JArr l => names l
  | JObj o =>
      match fld o "headers" with
      | Some (JArr l) => names l
      | _ =>
          match fld o "header" with
          | Some v => match header_name v with [] => [] | s => [s] end
          | None => []
          end
      end
  | JStr s => trimmed_parts c_comma s
  | _ => []
  end.

Context (t : jstr → option Z → jstr).

(** The first message that applies; the checks of one rule. *)
Fixpoint first_message (l : list (bool * string)) (line : Z) : option jstr :=
  match l with
  | [] => None
  | (c, message) :: l' => if c then Some (t (js message) (Some line)) else first_message l' line
  end.

(** A [return_error] value that is an object without a message. *)
Definition no_message (raw : jstr) : bool :=
  match json_parse raw with
  | Some (JObj o) => negb (filled (string_or (fld o "message") ""))
  | _ => false
  end.

Definition rule_checks (op : ParamOverrideOperation) : list (bool * string) :=
  let mode := mode_or_set op in
  let meta := meta_of mode in
  let raw := trim (o_value_text op) in
  let mode_is m := bool_decide (mode = js m) in
  [(m_path meta && negb (filled (o_path op)), "Rule {{line}} is missing target path");
   (has FROM_REQUIRED_MODES mode && negb (filled (o_from op))
      && negb (m_pathAlias meta && filled (o_path op)), "Rule {{line}} is missing source field");
   (has TO_REQUIRED_MODES mode && negb (filled (o_to op))
      && negb (m_pathAlias meta && filled (o_path op)), "Rule {{line}} is missing target field");
   (has VALUE_REQUIRED_MODES mode && negb (nonempty raw), "Rule {{line}} is missing value");
   (mode_is "return_error" && negb (nonempty raw), "Rule {{line}} is missing value");
   (mode_is "return_error" && no_message raw, "Rule {{line}} return_error requires a message field");
   (mode_is "prune_objects" && negb (nonempty raw), "Rule {{line}} prune_objects is missing conditions");
   (mode_is "pass_headers" && negb (nonempty raw), "Rule {{line}} pass_headers is missing header names");
   (mode_is "pass_headers" && negb (nonempty (parsePassHeaderNames (parseLooseValue raw))),
      "Rule {{line}} pass_headers format is invalid")]%string.

(** The message of the first rule from line [line] on that fails a check, or
    the empty string. *)
Fixpoint validate_from (line : Z) (operations : list ParamOverrideOperation) : jstr :=
  match operations with
  | [] => []
  | op :: rest =>
      match first_message (rule_checks op) line with
      | Some message => message
      | None => validate_from (line + 1) rest
      end
  end.

Definition validateOperations (operations : list ParamOverrideOperation) : jstr := validate_from 1 operations.

(** ** From rules to JSON *)

Definition buildConditionPayload (condition : ParamOverrideCondition) : option object :=
  let path := trim (c_path condition) in
  if negb (nonempty path) then None
  else
    let payload := [entry "path" (JStr path);
                    entry "mode" (JStr (match c_mode condition with [] => js "full" | m => m end));
                    entry "value" (parseLooseValue (c_value_text condition))] in
    Some (payload
      ++ (if c_invert condition then [entry "invert" (JBool true)] else [])
      ++ (if c_pass_missing_key condition then [entry "pass_missing_key" (JBool true)] else [])).

(** [o.name = v] when the condition holds. *)
Definition set_when (c : bool) (name : string) (v : json) (o : object) : object :=
  if c then put name v o else o.

Definition own_payload (operation : ParamOverrideOperation) : object :=
  let mode := mode_or_set operation in
  let meta := meta_of mode in
  let descriptionValue := trim (o_description operation) in
  let pathValue := trim (o_path operation) in
  let fromValue := trim (o_from operation) in
  let toValue := trim (o_to operation) in
  let payload := [entry "mode" (JStr mode)] in
  let payload := set_when (nonempty descriptionValue) "description" (JStr descriptionValue) payload in
  let payload := set_when (m_path meta) "path" (JStr pathValue) payload in
  let payload := set_when (m_pathOptional meta && nonempty pathValue) "path" (JStr pathValue) payload in
  let payload := set_when (m_value meta) "value" (parseLooseValue (o_value_text operation)) payload in
  let payload := set_when (m_keepOrigin meta && o_keep_origin operation) "keep_origin" (JBool true) payload in
  let payload := set_when (m_from meta) "from" (JStr fromValue) payload in
  let payload := set_when (negb (m_to meta) && nonempty toValue) "to" (JStr toValue) payload in
  set_when (m_to meta) "to" (JStr toValue) payload.

(** The path stands in for a missing end of the modes with an alias. *)
Definition alias_payload (operation : ParamOverrideOperation) (payload : object) : object :=
  let meta := meta_of (mode_or_set operation) in
  let pathValue := trim (o_path operation) in
  let payload := set_when (m_pathAlias meta && (negb (is_truthy (fld payload "from")) && nonempty pathValue))
                   "from" (JStr pathValue) payload in
  set_when (m_pathAlias meta && (negb (is_truthy (fld payload "to")) && nonempty pathValue))
    "to" (JStr pathValue) payload.

Definition operation_payload (operation : ParamOverrideOperation) : object :=
  let payload := alias_payload operation (own_payload operation) in
  match omap buildConditionPayload (o_conditions operation) with
  | [] => payload
  | conditions =>
      put "logic" (if bool_decide (o_logic operation = js "AND") then str "AND" else str "OR")
        (put "conditions" (JArr (map JObj conditions)) payload)
  end.

(** The text, or the message of the error thrown. *)
Inductive built := Built (text : jstr) | Failed (message : jstr).

Definition operations_json (operations : list ParamOverrideOperation) : json :=
  JObj [entry "operations" (JArr (map (λ o, JObj (operation_payload o)) operations))].

Definition buildOperationsJson (sourceOperations : list ParamOverrideOperation) (validate : bool) : built :=
  let filteredOps := filterb (λ o, negb (isOperationBlank o)) sourceOperations in
  match filteredOps with
  | [] => Built []
  | _ =>
      let message := validateOperations filteredOps in
      if validate && nonempty message then Failed message
      else Built (json_stringify_2 (operations_json filteredOps))
  end.
End rules.

(** ** Drafts of structured values *)

Inductive sync_type := SyncJson | SyncHeader.

Definition parseSyncTargetSpec (spec : jstr) : sync_type * jstr :=
  let raw := trim spec in
  if negb (nonempty raw) then (SyncJson, [])
  else match index_of (js ":") raw with
       | None => (SyncJson, raw)
       | Some idx =>
           let prefix := to_lower (trim (slice 0 idx raw)) in
           let key := trim (drop (S idx) raw) in
           if bool_decide (prefix = js "header") then (SyncHeader, key) else (SyncJson, key)
       end.

Definition sync_name (ty : sync_type) : jstr :=
  match ty with SyncJson => js "json" | SyncHeader => js "header" end.

Definition buildSyncTargetSpec (ty : sync_type) (key : jstr) : jstr :=
  let normalizedKey := trim key in
  if negb (nonempty normalizedKey) then [] else sync_name ty ++ js ":" ++ normalizedKey.

Record ReturnErrorDraft := {
  re_message : jstr;
  re_statusCode : Z;
  re_code : jstr;
  re_type : jstr;
  re_skipRetry : bool;
  re_simpleMode : bool;
}.

Definition return_error_defaults : ReturnErrorDraft :=
  {| re_message := []; re_statusCode := 400; re_code := []; re_type := []; re_skipRetry := true;
     re_simpleMode := true |}.

(** [Number(v)] of a JSON value; an absent one is [NaN]. *)
Definition to_number (v : option json) : jsnum :=
  match v with
  | None => S754_nan
  | Some JNull => num_of_Z 0
  | Some (JBool b) => num_of_Z (if b then 1 else 0)
  | Some (JNum x) => x
  | Some (JStr s) => number_of_string s
  | Some ((JArr _ | JObj _) as v) => number_of_string (string_of_json v)
  end.

(** [Number.isInteger(x) && x >= 100 && x <= 599 ? x : 400] *)
Definition status_or_400 (x : jsnum) : Z :=
  match num_integer x with
  | Some n => if (100 <=? n) && (n <=? 599) then n else 400
  | None => 400
  end.

(** [v !== undefined ? v : w] *)
Definition defined_or (v w : option json) : option json :=
  match v with Some x => Some x | None => w end.

Definition parseReturnErrorDraft (valueText : jstr) : ReturnErrorDraft :=
  let raw := trim valueText in
  let plain := {| re_message := raw; re_statusCode := 400; re_code := []; re_type := [];
                  re_skipRetry := true; re_simpleMode := true |} in
  if negb (nonempty raw) then return_error_defaults
  else match json_parse raw with
       | Some (JObj parsed) =>
           {| re_message := trim (string_of_json
                (let m := or_ (fld parsed "message") (str "") in
                 if truthy m then m else or_ (fld parsed "msg") (str "")));
              re_statusCode := status_or_400 (to_number (defined_or (fld parsed "status_code") (fld parsed "status")));
              re_code := trim (string_or (fld parsed "code") "");
              re_type := trim (string_or (fld parsed "type") "");
              re_skipRetry := not_false (fld parsed "skip_retry");
              re_simpleMode := false |}
       | _ => plain
       end.

Definition return_error_payload (draft : ReturnErrorDraft) : object :=
  let code := trim (re_code draft) in
  let type := trim (re_type draft) in
  [entry "message" (JStr (trim (re_message draft)));
   entry "status_code" (num (if (100 <=? re_statusCode draft) && (re_statusCode draft <=? 599)
                             then re_statusCode draft else 400))]
  ++ (if nonempty code then [entry "code" (JStr code)] else [])
  ++ (if nonempty type then [entry "type" (JStr type)] else [])
  ++ (if re_skipRetry draft then [] else [entry "skip_retry" (JBool false)]).

Definition buildReturnErrorValueText (draft : ReturnErrorDraft) : jstr :=
  if re_simpleMode draft then trim (re_message draft)
  else json_stringify (JObj (return_error_payload draft)).

Record PruneRule := {
  p_id : jstr;
  p_path : jstr;
  p_mode : jstr;
  p_value_text : jstr;
  p_invert : bool;
  p_pass_missing_key : bool;
}.

Record PruneObjectsDraft := {
  pd_simpleMode : bool;
  pd_typeText : jstr;
  pd_logic : jstr;
  pd_recursive : bool;
  pd_rules : list PruneRule;
}.

Definition prune_defaults : PruneObjectsDraft :=
  {| pd_simpleMode := true; pd_typeText := []; pd_logic := js "AND"; pd_recursive := true; pd_rules := [] |}.

Definition prune_text (typeText : jstr) : PruneObjectsDraft :=
  {| pd_simpleMode := true; pd_typeText := typeText; pd_logic := js "AND"; pd_recursive := true; pd_rules := [] |}.

Definition prune_rule_of (id : jstr) (rule : object) : PruneRule :=
  {| p_id := id;
     p_path := string_prop rule "path";
     p_mode := mode_prop CONDITION_MODE_VALUES "full" rule;
     p_value_text := toValueText (fld rule "value");
     p_invert := is_true (fld rule "invert");
     p_pass_missing_key := is_true (fld rule "pass_missing_key") |}.

Section prune.
Context (now : Z → Z).

Definition normalizePruneRule (seed : Z) (rule : object) : PruneRule * Z :=
  (prune_rule_of (nextLocalId now seed) rule, seed + 1).

Fixpoint normalize_rules (seed : Z) (l : list object) : list PruneRule * Z :=
  match l with
  | [] => ([], seed)
  | x :: l' =>
      let r := normalize_rules (seed + 1) l' in
      ((normalizePruneRule seed x).1 :: r.1, r.2)
  end.

(** An object of values by path, as rules of exact match. *)
Definition exact_rules (o : object) : list object :=
  map (λ e : jstr * json, [entry "path" (JStr e.1); entry "mode" (str "full"); entry "value" e.2]) (own_entries o).

(** The elements that are objects; arrays are objects without properties. *)
Definition rule_items (l : list json) : list object :=
  omap (λ v, match v with JObj o => Some o | JArr _ => Some [] | _ => None end) l.

Definition parsePruneObjectsDraft (seed : Z) (valueText : jstr) : PruneObjectsDraft * Z :=
  let raw := trim valueText in
  if negb (nonempty raw) then (prune_defaults, seed)
  else match json_parse raw with
       | None => (prune_text raw, seed)
       | Some (JStr s) => (prune_text (trim s), seed)
       | Some (JObj parsed) =>
           let where_rules := match fld parsed "where" with Some (JObj w) => exact_rules w | _ => [] end in
           let condition_rules :=
             match fld parsed "conditions" with
             | Some (JArr l) => rule_items l
             | Some (JObj c) => exact_rules c
             | _ => []
             end in
           let rules := normalize_rules seed (where_rules ++ condition_rules) in
           let present name := match fld parsed name with Some _ => true | None => false end in
           ({| pd_simpleMode := negb (present "logic"%string || present "recursive"%string
                                      || present "where"%string || present "conditions"%string);
               pd_typeText := match fld parsed "type" with None => [] | Some v => trim (string_of_json v) end;
               pd_logic := if bool_decide (to_upper (string_or (fld parsed "logic") "AND") = js "OR")
                           then js "OR" else js "AND";
               pd_recursive := not_false (fld parsed "recursive");
               pd_rules := rules.1 |}, rules.2)
       | Some JNull => (prune_defaults, seed)
       | Some v => (prune_text (trim (string_of_json v)), seed)
       end.
End prune.

Definition prune_rule_payload (rule : PruneRule) : object :=
  let valueRaw := trim (p_value_text rule) in
  [entry "path" (JStr (trim (p_path rule)));
   entry "mode" (JStr (if has CONDITION_MODE_VALUES (p_mode rule) then p_mode rule else js "full"))]
  ++ (if nonempty valueRaw then [entry "value" (parseLooseValue valueRaw)] else [])
  ++ (if p_invert rule then [entry "invert" (JBool true)] else [])
  ++ (if p_pass_missing_key rule then [entry "pass_missing_key" (JBool true)] else []).

(** [String(v || 'AND').toUpperCase() === 'OR'] *)
Definition is_or (logic : jstr) : bool := bool_decide (to_upper (match logic with [] => js "AND" | l => l end) = js "OR").

Definition prune_payload (draft : PruneObjectsDraft) : object :=
  let typeText := trim (pd_typeText draft) in
  let conditions := map prune_rule_payload (filterb (λ r, filled (p_path r)) (pd_rules draft)) in
  (if nonempty typeText then [entry "type" (JStr typeText)] else [])
  ++ (if is_or (pd_logic draft) then [entry "logic" (str "OR")] else [])
  ++ (if pd_recursive draft then [] else [entry "recursive" (JBool false)])
  ++ (if nonempty conditions then [entry "conditions" (JArr (map JObj conditions))] else []).

Definition buildPruneObjectsValueText (draft : PruneObjectsDraft) : jstr :=
  if pd_simpleMode draft then trim (pd_typeText draft)
  else
    let payload := prune_payload draft in
    if negb (map_has payload (js "type")) && negb (map_has payload (js "conditions"))
    then json_stringify (JObj [entry "logic" (str "AND")])
    else json_stringify (JObj payload).
