(* ===== verification/ParamOverrideProps.v ===== *)
(** * Parameter override rules: properties

    What is saved is well formed and opens again as the same rules, except
    for values written as quoted strings; the checks before saving are exactly
    the requirements of the modes; rules are reordered by one move; the drafts
    of structured values are read back. *)

From Stdlib Require Import String.
From S2P Require Import JsJson JsonText JsObject ParamOverride.

#[local] Opaque js.

(** ** Identifiers *)

Section ids.
Context (now : Z → Z).

(** Identifiers drawn at different counts differ, whatever the clock says. *)
Lemma nextLocalId_inj i j : 0 ≤ i → 0 ≤ j → nextLocalId now i = nextLocalId now j → i = j.
Proof.
  intros Hi Hj. unfold nextLocalId. destruct (string_of_Z_nonneg i Hi) as [Hd1 Hv1].
  destruct (string_of_Z_nonneg j Hj) as [Hd2 Hv2].
  change (js "_") with [95]. cbn [app]. rewrite !(app_assoc (js "po_")). intros Heq.
  assert (Hno : ∀ s, all_digits s = true → 95 ∉ s).
  { intros s [_ Hs]%all_digits_spec Hin. rewrite Forall_forall in Hs. specialize (Hs 95 Hin). done. }
  apply not_elem_of_app_cons_inv_r in Heq as (_ & _ & Heq); [|by apply Hno..]. congruence.
Qed.

Lemma nextLocalId_nonempty i : nextLocalId now i ≠ [].
Proof. unfold nextLocalId. by vm_compute (js "po_"). Qed.
End ids.

(** ** The object a rule is saved as *)

(** An object given by its properties in order, [None] being absent. *)
Definition of_fields (l : list (string * option json)) : object :=
  concat (map (λ e : string * option json, opt_entry e.1 e.2) l).

Lemma of_fields_app l1 l2 : of_fields (l1 ++ l2) = of_fields l1 ++ of_fields l2.
Proof. unfold of_fields. by rewrite map_app, concat_app. Qed.

Lemma of_fields_cons n v l : of_fields ((n, v) :: l) = opt_entry n v ++ of_fields l.
Proof. done. Qed.

Lemma fld_of_fields n v l k :
  fld (of_fields ((n, v) :: l)) k =
  if decide (js n = js k) then match v with Some x => Some x | None => fld (of_fields l) k end
  else fld (of_fields l) k.
Proof. rewrite of_fields_cons. apply fld_opt. Qed.

Lemma fld_of_fields_elem l n v :
  NoDup (map (λ e : string * option json, js e.1) l) → (n, v) ∈ l → fld (of_fields l) n = v.
Proof.
  induction l as [|[k w] l IH]; cbn [map]; intros Hnd Hin; [by apply elem_of_nil in Hin|].
  apply NoDup_cons in Hnd as [Hk Hnd]. rewrite fld_of_fields. cbn [fst] in Hk.
  apply elem_of_cons in Hin as [[= -> ->]|Hin].
  - rewrite decide_True by done. destruct w; [done|].
    destruct (fld (of_fields l) k) as [x|] eqn:E; [|done]. exfalso. apply Hk.
    clear -E. unfold fld in E. apply map_get_Some_elem in E. induction l as [|[m [y|]] l IH].
    + by apply elem_of_nil in E.
    + rewrite of_fields_cons in E. cbn [opt_entry app] in E. cbn [map fst].
      apply elem_of_cons in E as [E|E]; [|right; auto]. injection E as Hm _. rewrite Hm. by left.
    + right. auto.
  - rewrite decide_False; [by apply IH|]. intros Heq. apply Hk. rewrite Heq.
    apply list_elem_of_fmap. by exists (n, v).
Qed.

Ltac look_fields := repeat (first [rewrite fld_of_fields | rewrite fld_entry | rewrite fld_nil]; decide_names);
  change (of_fields []) with ([] : object); rewrite ?fld_nil.

(** Setting a property that is absent so far, or the last one. *)
Lemma set_when_last c n v w l :
  fld (of_fields l) n = None →
  set_when c n v (of_fields (l ++ [(n, w)])) = of_fields (l ++ [(n, if c then Some v else w)]).
Proof.
  intros Hn. destruct c; [|done]. rewrite !of_fields_app. unfold set_when, put. rewrite !of_fields_cons.
  change (of_fields []) with ([] : object). rewrite !app_nil_r.
  assert (Hk : js n ∉ map fst (of_fields l)) by by apply map_get_None. revert Hk. clear Hn.
  generalize (of_fields l). intros o. induction o as [|[k x] o IH]; intros Hk.
  - destruct w; [|done]. cbn. by rewrite decide_True.
  - cbn [map fst] in Hk. apply not_elem_of_cons in Hk as [Hne Hk]. cbn [app map_set].
    rewrite decide_False by done. by rewrite IH.
Qed.

Lemma set_when_again c n v w L :
  last L = Some (n, w) → fld (of_fields (removelast L)) n = None →
  set_when c n v (of_fields L) = of_fields (removelast L ++ [(n, if c then Some v else w)]).
Proof.
  intros (l & ->)%last_Some Hn. rewrite removelast_last in *. by apply set_when_last.
Qed.

Lemma set_when_next c n v l :
  fld (of_fields l) n = None →
  set_when c n v (of_fields l) = of_fields (l ++ [(n, when c (Some v))]).
Proof.
  intros Hn. change (when c (Some v)) with (if c then Some v else None).
  rewrite <- (set_when_last c n v None l Hn). f_equal.
  rewrite of_fields_app. cbn. by rewrite app_nil_r.
Qed.

(** Setting a present property keeps its place. *)
Lemma set_when_present c n v x l1 l2 :
  fld (of_fields l1) n = None →
  set_when c n v (of_fields (l1 ++ (n, Some x) :: l2)) = of_fields (l1 ++ (n, Some (if c then v else x)) :: l2).
Proof.
  intros Hn. destruct c; [|done]. rewrite !of_fields_app, !of_fields_cons. unfold set_when, put.
  assert (Hk : js n ∉ map fst (of_fields l1)) by by apply map_get_None. revert Hk. clear Hn.
  generalize (of_fields l1). intros o. induction o as [|[k y] o IH]; intros Hk.
  - cbn. by rewrite decide_True.
  - cbn [map fst] in Hk. apply not_elem_of_cons in Hk as [Hne Hk]. cbn [app map_set].
    rewrite decide_False by done. by rewrite IH.
Qed.

(** The properties of a saved rule. *)
Definition when_filled (s : jstr) : option json := when (filled s) (Some (JStr (trim s))).

Definition rule_meta (op : ParamOverrideOperation) : ModeMeta := meta_of (mode_or_set op).

Definition saved_path (op : ParamOverrideOperation) : option json :=
  when (m_path (rule_meta op) || m_pathOptional (rule_meta op) && filled (o_path op))
    (Some (JStr (trim (o_path op)))).

Definition alias_or (op : ParamOverrideOperation) (s : jstr) : jstr :=
  if m_pathAlias (rule_meta op) && negb (filled s) then trim (o_path op) else trim s.

Definition saved_from (op : ParamOverrideOperation) : option json :=
  when (m_from (rule_meta op)) (Some (JStr (alias_or op (o_from op)))).

Definition saved_to (op : ParamOverrideOperation) : option json :=
  if m_to (rule_meta op) then Some (JStr (alias_or op (o_to op))) else when_filled (o_to op).

Definition saved_conditions (op : ParamOverrideOperation) : list object :=
  omap buildConditionPayload (o_conditions op).

Definition rule_fields (op : ParamOverrideOperation) : list (string * option json) :=
  [("mode", Some (JStr (mode_or_set op)));
   ("description", when_filled (o_description op));
   ("path", saved_path op);
   ("value", when (m_value (rule_meta op)) (Some (parseLooseValue (o_value_text op))));
   ("keep_origin", when (m_keepOrigin (rule_meta op) && o_keep_origin op) (Some (JBool true)));
   ("from", saved_from op);
   ("to", saved_to op);
   ("conditions", when (nonempty (saved_conditions op)) (Some (JArr (map JObj (saved_conditions op)))));
   ("logic", when (nonempty (saved_conditions op))
               (Some (if bool_decide (o_logic op = js "AND") then str "AND" else str "OR")))]%string.

(** Modes with an alias have both ends and no path of their own. *)
Definition meta_ok (m : ModeMeta) : bool :=
  (negb (m_pathAlias m) || m_from m && m_to m && negb (m_path m) && negb (m_pathOptional m))
  && negb (m_path m && m_pathOptional m).

Lemma meta_of_ok mode : meta_ok (meta_of mode) = true.
Proof.
  unfold meta_of. destruct (map_get MODE_META mode) as [m|] eqn:E; [|done].
  apply map_get_Some_elem in E. revert mode E.
  assert (H : Forall (λ e : jstr * ModeMeta, meta_ok e.2 = true) MODE_META) by (repeat constructor).
  rewrite Forall_forall in H. intros mode Hin. exact (H _ Hin).
Qed.

Ltac next_field := rewrite set_when_next by (look_fields; done); cbn [app].

Definition own_fields (op : ParamOverrideOperation) : list (string * option json) :=
  [("mode", Some (JStr (mode_or_set op)));
   ("description", when_filled (o_description op));
   ("path", saved_path op);
   ("value", when (m_value (rule_meta op)) (Some (parseLooseValue (o_value_text op))));
   ("keep_origin", when (m_keepOrigin (rule_meta op) && o_keep_origin op) (Some (JBool true)));
   ("from", when (m_from (rule_meta op)) (Some (JStr (trim (o_from op)))));
   ("to", if m_to (rule_meta op) then Some (JStr (trim (o_to op))) else when_filled (o_to op))]%string.

Lemma own_payload_fields op : own_payload op = of_fields (own_fields op).
Proof.
  unfold own_payload, own_fields, saved_path, when_filled, filled. fold (rule_meta op). cbn zeta.
  change [entry "mode" (JStr (mode_or_set op))] with (of_fields [("mode"%string, Some (JStr (mode_or_set op)))]).
  next_field. next_field.
  erewrite set_when_again by (first [reflexivity | cbn [removelast]; by look_fields]). cbn [removelast app].
  do 3 next_field. next_field.
  erewrite set_when_again by (first [reflexivity | cbn [removelast]; by look_fields]). cbn [removelast app].
  by destruct (m_path _), (m_pathOptional _), (nonempty (trim (o_path op))), (m_to _).
Qed.

Lemma set_when_at c n v x l1 l2 L :
  L = l1 ++ (n, Some x) :: l2 → fld (of_fields l1) n = None →
  set_when c n v (of_fields L) = of_fields (l1 ++ (n, Some (if c then v else x)) :: l2).
Proof. intros ->. apply set_when_present. Qed.

Definition saved_fields (op : ParamOverrideOperation) : list (string * option json) :=
  take 5 (own_fields op) ++ [("from", saved_from op); ("to", saved_to op)]%string.

Lemma alias_end (s p : jstr) :
  (if negb (is_truthy (Some (JStr s))) && nonempty p then JStr p else JStr s)
  = JStr (if negb (nonempty s) then p else s).
Proof. by destruct s, p. Qed.

Lemma alias_payload_fields op :
  alias_payload op (of_fields (own_fields op)) = of_fields (saved_fields op).
Proof.
  unfold alias_payload, saved_fields, saved_from, saved_to, alias_or. fold (rule_meta op). cbn zeta.
  pose proof (meta_of_ok (mode_or_set op)) as Hok. fold (rule_meta op) in Hok. unfold meta_ok in Hok.
  unfold own_fields. cbn [take app].
  destruct (m_pathAlias (rule_meta op)); cbn [andb]; [|done]. cbn [negb orb] in Hok.
  apply andb_true_iff in Hok as [[[[Hf Ht]%andb_true_iff _]%andb_true_iff _]%andb_true_iff _].
  rewrite Hf, Ht. cbn [when].
  erewrite (set_when_at _ "from" _ _ [_; _; _; _; _]) by (first [reflexivity|by look_fields]).
  rewrite !fld_of_fields. decide_names. look_fields. rewrite alias_end. cbn [app].
  erewrite (set_when_at _ "to" _ _ [_; _; _; _; _; _]) by (first [reflexivity|by look_fields]).
  look_fields. by rewrite alias_end.
Qed.

Lemma operation_payload_fields op : operation_payload op = of_fields (rule_fields op).
Proof.
  unfold operation_payload. rewrite own_payload_fields, alias_payload_fields. unfold rule_fields.
  fold (saved_conditions op). unfold saved_fields, own_fields. cbn [take app].
  destruct (saved_conditions op) as [|c cs]; cbn [nonempty when].
  - change (map JObj []) with (@nil json). rewrite !of_fields_cons. cbn. by rewrite !app_nil_r.
  - change (put "conditions") with (set_when true "conditions"). change (put "logic") with (set_when true "logic").
    rewrite set_when_next by (look_fields; by repeat case_match). cbn [app].
    rewrite set_when_next by (look_fields; by repeat case_match). done.
Qed.

(** ** Values *)

(** The text is not a quoted string. *)
Definition settled (text : jstr) : Prop :=
  match json_parse (trim text) with Some (JStr _) => False | _ => True end.

#[export] Instance settled_dec text : Decision (settled text).
Proof. unfold settled. repeat case_match; first [left; exact I|right; by intros []]. Defined.

Lemma parseLooseValue_trim text : parseLooseValue (trim text) = parseLooseValue text.
Proof. unfold parseLooseValue. by rewrite trim_idemp. Qed.

Lemma parseLooseValue_json s v : trim s = s → json_parse s = Some v → parseLooseValue s = v.
Proof.
  intros Ht Hp. unfold parseLooseValue. rewrite Ht, Hp. destruct s; [by vm_compute in Hp|done].
Qed.

Lemma parseLooseValue_plain s : trim s = s → json_parse s = None → parseLooseValue s = JStr s.
Proof. intros Ht Hp. unfold parseLooseValue. rewrite Ht, Hp. by destruct s. Qed.

(** What is shown for a saved value reads as the same value. *)
Lemma value_text_stable text :
  settled text → json_safe (parseLooseValue text) →
  let raw := trim (toValueText (Some (parseLooseValue text))) in
  nonempty raw = nonempty (trim text) ∧ json_parse raw = json_parse (trim text)
  ∧ parseLooseValue raw = parseLooseValue text.
Proof.
  unfold settled. rewrite <- (parseLooseValue_trim text). pose proof (trim_idemp text) as Hi. revert Hi.
  generalize (trim text). intros raw Hi Hs.
  destruct (json_parse raw) as [v|] eqn:E.
  - rewrite (parseLooseValue_json raw v) by done. intros Hsafe.
    assert (Hv : toValueText (Some v) = json_stringify v) by by destruct v.
    assert (Ht : trim (json_stringify v) = json_stringify v) by apply trim_no_edge, json_print_edges, Hsafe.
    pose proof (json_parse_stringify v Hsafe) as Hp. cbn zeta. rewrite Hv, Ht, Hp.
    split; [|split; [done|by apply parseLooseValue_json]].
    destruct (json_stringify v); [by vm_compute in Hp|]. destruct raw; [by vm_compute in E|done].
  - rewrite (parseLooseValue_plain raw) by done. intros _. cbn [toValueText]. cbn zeta. rewrite Hi.
    split; [done|]. split; [done|]. by apply parseLooseValue_plain.
Qed.

Lemma filled_trim s : filled (trim s) = filled s.
Proof. unfold filled. by rewrite trim_idemp. Qed.

(** ** Conditions *)

Definition condition_ok (c : ParamOverrideCondition) : Prop :=
  has CONDITION_MODE_VALUES (c_mode c) = true ∧ settled (c_value_text c).

Lemma has_In l s : has l s = true ↔ s ∈ l.
Proof. apply bool_decide_eq_true. Qed.

Lemma condition_mode_nonempty s : has CONDITION_MODE_VALUES s = true → s ≠ [].
Proof. intros H ->. by vm_compute in H. Qed.

Lemma mode_prop_known modes d o s :
  fld o "mode" = Some (JStr s) → has modes s = true → mode_prop modes d o = s.
Proof. intros Hf Hs. unfold mode_prop. by rewrite Hf, Hs. Qed.

Lemma condition_payload_stable c o id :
  condition_ok c → buildConditionPayload c = Some o → json_safe (parseLooseValue (c_value_text c)) →
  buildConditionPayload (condition_of id o) = Some o.
Proof.
  intros [Hm Hs] Hb Hsafe. destruct (value_text_stable _ Hs Hsafe) as (_ & _ & Hv).
  unfold buildConditionPayload in Hb. destruct (nonempty (trim (c_path c))) eqn:Hp; [|done].
  cbn [negb] in Hb. injection Hb as Ho.
  assert (Hmode : match c_mode c with [] => js "full" | m => m end = c_mode c).
  { pose proof (condition_mode_nonempty _ Hm). by destruct (c_mode c). }
  rewrite Hmode in Ho.
  assert (H1 : string_prop o "path" = trim (c_path c)) by (rewrite <- Ho; unfold string_prop; by look).
  assert (H2 : mode_prop CONDITION_MODE_VALUES "full" o = c_mode c).
  { apply mode_prop_known; [rewrite <- Ho; by look|done]. }
  assert (H3 : fld o "value" = Some (parseLooseValue (c_value_text c))) by (rewrite <- Ho; by look).
  assert (H4 : is_true (fld o "invert") = c_invert c).
  { rewrite <- Ho. destruct (c_invert c), (c_pass_missing_key c); cbn [app]; by look. }
  assert (H5 : is_true (fld o "pass_missing_key") = c_pass_missing_key c).
  { rewrite <- Ho. destruct (c_invert c), (c_pass_missing_key c); cbn [app]; by look. }
  unfold buildConditionPayload, condition_of. cbn [c_path c_mode c_value_text c_invert c_pass_missing_key].
  rewrite H1, H2, H3, H4, H5, trim_idemp, Hp, Hmode. cbn [negb].
  rewrite <- parseLooseValue_trim, Hv. by rewrite <- Ho.
Qed.

(** ** Facts about the modes *)

Definition modes_with (p : ModeMeta → bool) (l : list jstr) : bool := forallb (λ m, p (meta_of m)) l.

Lemma modes_with_true p l mode : modes_with p l = true → has l mode = true → p (meta_of mode) = true.
Proof.
  unfold modes_with. rewrite forallb_forall. intros H Hm%has_In. apply H, list_elem_of_In, Hm.
Qed.

Lemma from_required_from mode : has FROM_REQUIRED_MODES mode = true → m_from (meta_of mode) = true.
Proof. apply modes_with_true. by_eval. Qed.

Lemma to_required_to mode : has TO_REQUIRED_MODES mode = true → m_to (meta_of mode) = true.
Proof. apply modes_with_true. by_eval. Qed.

Lemma value_required_value mode : has VALUE_REQUIRED_MODES mode = true → m_value (meta_of mode) = true.
Proof. apply modes_with_true. by_eval. Qed.

Lemma mode_nonempty s : has OPERATION_MODE_VALUES s = true → s ≠ [].
Proof. intros H ->. by vm_compute in H. Qed.

Lemma mode_or_set_known op : has OPERATION_MODE_VALUES (o_mode op) = true → mode_or_set op = o_mode op.
Proof. intros H%mode_nonempty. unfold mode_or_set. by destruct (o_mode op). Qed.

(** ** A saved rule, read back *)

Lemma nonempty_filled s : nonempty (trim s) = filled s.
Proof. done. Qed.

Lemma when_filled_trim s : when_filled (trim s) = when_filled s.
Proof. unfold when_filled. by rewrite filled_trim, trim_idemp. Qed.

(** The text of an optional string property. *)
Definition text_or_empty (v : option json) : jstr := match v with Some (JStr s) => s | _ => [] end.

Lemma when_filled_text s : text_or_empty (when_filled s) = trim s.
Proof. unfold when_filled, filled. by destruct (trim s). Qed.

Section reopened.
Context (op : ParamOverrideOperation) (id : jstr) (cs : list ParamOverrideCondition).
Hypothesis Hmode : has OPERATION_MODE_VALUES (o_mode op) = true.

Definition reopened : ParamOverrideOperation := operation_of id (operation_payload op) cs.

Lemma payload_prop n v : (n, v) ∈ rule_fields op → fld (operation_payload op) n = v.
Proof.
  rewrite operation_payload_fields. apply fld_of_fields_elem. apply (bool_decide_unpack _). by_eval.
Qed.

Ltac payload_field n v :=
  rewrite (payload_prop n v) by (unfold rule_fields; repeat (first [left; reflexivity|right])).

Lemma reopened_description : o_description reopened = trim (o_description op).
Proof.
  unfold reopened. cbn [operation_of o_description]. unfold string_prop.
  payload_field "description"%string (when_filled (o_description op)). apply when_filled_text.
Qed.

Lemma reopened_mode : o_mode reopened = o_mode op.
Proof.
  unfold reopened. cbn [operation_of o_mode]. apply mode_prop_known; [|done].
  payload_field "mode"%string (Some (JStr (mode_or_set op))). by rewrite mode_or_set_known.
Qed.

Lemma reopened_meta : rule_meta reopened = rule_meta op.
Proof. unfold rule_meta, mode_or_set. by rewrite reopened_mode. Qed.

Lemma reopened_path : o_path reopened = text_or_empty (saved_path op).
Proof.
  unfold reopened. cbn [operation_of o_path]. unfold string_prop.
  by payload_field "path"%string (saved_path op).
Qed.

Lemma reopened_value :
  o_value_text reopened = toValueText (when (m_value (rule_meta op)) (Some (parseLooseValue (o_value_text op)))).
Proof.
  unfold reopened. cbn [operation_of o_value_text].
  by payload_field "value"%string (when (m_value (rule_meta op)) (Some (parseLooseValue (o_value_text op)))).
Qed.

Lemma reopened_keep : o_keep_origin reopened = m_keepOrigin (rule_meta op) && o_keep_origin op.
Proof.
  unfold reopened. cbn [operation_of o_keep_origin].
  payload_field "keep_origin"%string (when (m_keepOrigin (rule_meta op) && o_keep_origin op) (Some (JBool true))).
  by destruct (_ && _).
Qed.

Lemma reopened_from : o_from reopened = text_or_empty (saved_from op).
Proof.
  unfold reopened. cbn [operation_of o_from]. unfold string_prop.
  by payload_field "from"%string (saved_from op).
Qed.

Lemma reopened_to : o_to reopened = text_or_empty (saved_to op).
Proof.
  unfold reopened. cbn [operation_of o_to]. unfold string_prop.
  by payload_field "to"%string (saved_to op).
Qed.

Lemma reopened_logic :
  nonempty (saved_conditions op) = true →
  bool_decide (o_logic reopened = js "AND") = bool_decide (o_logic op = js "AND").
Proof.
  intros Hc. unfold reopened. cbn [operation_of o_logic]. unfold string_or, or_.
  payload_field "logic"%string (when (nonempty (saved_conditions op))
               (Some (if bool_decide (o_logic op = js "AND") then str "AND" else str "OR"))).
  rewrite Hc. cbn [when]. by destruct (bool_decide (o_logic op = js "AND")); by_eval.
Qed.
End reopened.

Lemma json_safe_fld o n v : json_safe (JObj o) → fld o n = Some v → json_safe v.
Proof.
  intros Hs Hf. inversion Hs as [| | | | |? _ _ _ Hall]; subst. rewrite Forall_forall in Hall.
  apply (Hall (js n, v)). by apply map_get_Some_elem.
Qed.

Lemma json_safe_elem l v : json_safe (JArr l) → v ∈ l → json_safe v.
Proof. intros Hs Hin. inversion Hs as [| | | |? Hall|]; subst. rewrite Forall_forall in Hall. by apply Hall. Qed.

(** The conditions read back from the objects they were saved as. *)
Definition conditions_from (objects : list object) (cs : list ParamOverrideCondition) : Prop :=
  Forall2 (λ o c, ∃ id, c = condition_of id o) objects cs.

Lemma saved_condition_inv op o :
  o ∈ saved_conditions op → ∃ c, c ∈ o_conditions op ∧ buildConditionPayload c = Some o.
Proof. unfold saved_conditions. intros (c & Hc & Hb)%list_elem_of_omap. eauto. Qed.

Section stable.
Context (op : ParamOverrideOperation) (id : jstr) (cs : list ParamOverrideCondition).
Hypothesis Hmode : has OPERATION_MODE_VALUES (o_mode op) = true.
Hypothesis Hvalue : settled (o_value_text op).
Hypothesis Hconditions : Forall condition_ok (o_conditions op).
Hypothesis Hcs : conditions_from (saved_conditions op) cs.
Hypothesis Hsafe : json_safe (JObj (operation_payload op)).

Lemma payload_value_safe :
  m_value (rule_meta op) = true → json_safe (parseLooseValue (o_value_text op)).
Proof.
  intros Hm. apply (json_safe_fld _ "value" _ Hsafe).
  rewrite (payload_prop op "value" (when (m_value (rule_meta op)) (Some (parseLooseValue (o_value_text op)))));
    [by rewrite Hm|]. unfold rule_fields. do 3 right. by left.
Qed.

Lemma saved_condition_safe o : o ∈ saved_conditions op → json_safe (JObj o).
Proof.
  intros Ho. apply (json_safe_elem (map JObj (saved_conditions op))); [|by apply list_elem_of_fmap; eauto].
  apply (json_safe_fld _ "conditions" _ Hsafe).
  rewrite (payload_prop op "conditions" (when (nonempty (saved_conditions op)) (Some (JArr (map JObj (saved_conditions op))))));
    [|unfold rule_fields; do 7 right; by left].
  destruct (saved_conditions op); [by apply elem_of_nil in Ho|done].
Qed.

Lemma condition_value_safe c o :
  buildConditionPayload c = Some o → json_safe (JObj o) → json_safe (parseLooseValue (c_value_text c)).
Proof.
  intros Hb Hs. unfold buildConditionPayload in Hb. destruct (nonempty _); [|done]. cbn [negb] in Hb.
  injection Hb as Ho. apply (json_safe_fld _ "value" _ Hs). rewrite <- Ho. by look.
Qed.

Lemma reopened_conditions : saved_conditions (reopened op id cs) = saved_conditions op.
Proof.
  unfold saved_conditions at 1. unfold reopened. cbn [operation_of o_conditions].
  assert (Hall : ∀ o, o ∈ saved_conditions op →
    ∀ i, buildConditionPayload (condition_of i o) = Some o).
  { intros o Ho i. destruct (saved_condition_inv op o Ho) as (c & Hc & Hb).
    apply (condition_payload_stable c); [|done|].
    - rewrite Forall_forall in Hconditions. by apply Hconditions.
    - apply (condition_value_safe c o Hb). by apply saved_condition_safe. }
  revert Hcs Hall. unfold conditions_from. generalize (saved_conditions op). clear.
  intros os H. induction H as [|o c os cs (i & ->) _ IH]; intros Hall; [done|].
  cbn. rewrite Hall by by left. f_equal. apply IH. intros o' Ho'. apply Hall. by right.
Qed.

Abbreviation op' := (reopened op id cs).

Lemma alias_or_trim s : trim (alias_or op s) = alias_or op s.
Proof. unfold alias_or. case_match; apply trim_idemp. Qed.

(** An aliased mode keeps no path once it is saved. *)
Lemma alias_no_path : m_pathAlias (rule_meta op) = true → saved_path op = None.
Proof.
  intros Ha. pose proof (meta_of_ok (mode_or_set op)) as Hok. fold (rule_meta op) in Hok.
  unfold meta_ok in Hok. rewrite Ha in Hok. cbn [negb orb] in Hok. unfold saved_path.
  destruct (m_path _), (m_pathOptional _); try done; by rewrite ?andb_false_r in Hok.
Qed.

Lemma alias_or_reopened s : alias_or op' (alias_or op s) = alias_or op s.
Proof.
  unfold alias_or at 1. rewrite reopened_meta, reopened_path, alias_or_trim by done.
  destruct (m_pathAlias (rule_meta op)) eqn:Ha; [|done]. rewrite alias_no_path by done. cbn.
  destruct (filled (alias_or op s)) eqn:Hf; [done|]. cbn. unfold filled in Hf. rewrite alias_or_trim in Hf.
  by destruct (alias_or op s).
Qed.

Lemma rule_fields_reopened : rule_fields op' = rule_fields op.
Proof.
  unfold rule_fields. rewrite reopened_conditions.
  rewrite reopened_meta, reopened_value, reopened_keep, reopened_description, when_filled_trim by done.
  assert (H1 : mode_or_set op' = mode_or_set op) by (unfold mode_or_set; by rewrite reopened_mode).
  assert (H2 : saved_path op' = saved_path op).
  { unfold saved_path at 1. rewrite reopened_meta, reopened_path by done. unfold saved_path.
    destruct (m_path (rule_meta op)); cbn [orb when text_or_empty]; [by rewrite trim_idemp|].
    destruct (m_pathOptional (rule_meta op)); cbn [andb]; [|done].
    destruct (filled (o_path op)) eqn:Hf; cbn [when text_or_empty]; [|done]. by rewrite filled_trim, Hf, trim_idemp. }
  assert (H3 : saved_from op' = saved_from op).
  { unfold saved_from at 1. rewrite reopened_meta, reopened_from by done. unfold saved_from.
    destruct (m_from (rule_meta op)); [|done]. cbn [when text_or_empty]. by rewrite alias_or_reopened. }
  assert (H4 : saved_to op' = saved_to op).
  { unfold saved_to at 1. rewrite reopened_meta, reopened_to by done. unfold saved_to.
    destruct (m_to (rule_meta op)); cbn [text_or_empty]; [by rewrite alias_or_reopened|].
    by rewrite when_filled_text, when_filled_trim. }
  assert (H5 : when (m_value (rule_meta op)) (Some (parseLooseValue (toValueText
      (when (m_value (rule_meta op)) (Some (parseLooseValue (o_value_text op)))))))
    = when (m_value (rule_meta op)) (Some (parseLooseValue (o_value_text op)))).
  { destruct (m_value (rule_meta op)) eqn:Hm; [|done]. cbn [when]. f_equal.
    destruct (value_text_stable _ Hvalue (payload_value_safe Hm)) as (_ & _ & Hv).
    etrans; [symmetry; apply parseLooseValue_trim|exact Hv]. }
  rewrite H1, H2, H3, H4, H5, andb_assoc, andb_diag.
  destruct (nonempty (saved_conditions op)) eqn:Hc; [|done]. by rewrite reopened_logic.
Qed.

Lemma reopened_payload : operation_payload op' = operation_payload op.
Proof. by rewrite !operation_payload_fields, rule_fields_reopened. Qed.
End stable.

(** ** The checks *)

Lemma first_message_None t l line :
  first_message t l line = None ↔ Forall (λ e : bool * string, e.1 = false) l.
Proof.
  induction l as [|[c m] l IH]; cbn [first_message]; [by split|]. rewrite Forall_cons. cbn [fst].
  destruct c; [split; [done|by intros []]|]. rewrite IH. tauto.
Qed.

(** What the checks ask of a rule, mode by mode. *)
Record rule_valid (op : ParamOverrideOperation) : Prop := {
  valid_path : m_path (rule_meta op) = true → filled (o_path op) = true;
  valid_from : has FROM_REQUIRED_MODES (mode_or_set op) = true → alias_or op (o_from op) ≠ [];
  valid_to : has TO_REQUIRED_MODES (mode_or_set op) = true → alias_or op (o_to op) ≠ [];
  valid_value : has VALUE_REQUIRED_MODES (mode_or_set op) = true → filled (o_value_text op) = true;
  valid_message : mode_or_set op = js "return_error" → no_message (trim (o_value_text op)) = false;
  valid_headers : mode_or_set op = js "pass_headers" →
    parsePassHeaderNames (parseLooseValue (o_value_text op)) ≠ [];
}.

Lemma and_false_imp (a b : bool) : a && b = false ↔ (a = true → b = false).
Proof. destruct a, b; naive_solver. Qed.

Lemma negb_false (b : bool) : negb b = false ↔ b = true.
Proof. by destruct b. Qed.

Lemma alias_or_filled op s :
  negb (filled s) && negb (m_pathAlias (rule_meta op) && filled (o_path op)) = false ↔ alias_or op s ≠ [].
Proof.
  unfold alias_or. destruct (m_pathAlias (rule_meta op)); cbn [andb negb];
    unfold filled; destruct (trim s) eqn:Es, (trim (o_path op)); cbn; rewrite ?Es; done.
Qed.

Lemma alias_or_missing op s :
  (negb (filled s) = true → m_pathAlias (rule_meta op) && filled (o_path op) = true) ↔ alias_or op s ≠ [].
Proof. by rewrite <- alias_or_filled, and_false_imp, negb_false. Qed.

Lemma rule_checks_valid op :
  Forall (λ e : bool * string, e.1 = false) (rule_checks op) ↔ rule_valid op.
Proof.
  unfold rule_checks. fold (rule_meta op). rewrite !Forall_cons. cbn [fst].
  rewrite <- !andb_assoc, !and_false_imp, !negb_false, parseLooseValue_trim.
  change (nonempty (trim (o_value_text op))) with (filled (o_value_text op)).
  rewrite !bool_decide_eq_true.
  assert (Hreq : ∀ m, has VALUE_REQUIRED_MODES (js m) = true →
    (has VALUE_REQUIRED_MODES (mode_or_set op) = true → filled (o_value_text op) = true) →
    mode_or_set op = js m → filled (o_value_text op) = true).
  { intros m Hm H E. apply H. by rewrite E. }
  split.
  - intros (H1 & H2 & H3 & H4 & _ & H6 & _ & _ & H9 & _). split; try done.
    + intros H. by apply alias_or_missing, H2.
    + intros H. by apply alias_or_missing, H3.
    + intros H. by apply nonempty_true, H9.
  - intros [H1 H2 H3 H4 H6 H9]. split; [done|]. split; [intros H; by apply alias_or_missing, H2|].
    split; [intros H; by apply alias_or_missing, H3|]. split; [done|].
    split; [by apply Hreq; [by_eval|]|]. split; [done|]. split; [by apply Hreq; [by_eval|]|].
    split; [by apply Hreq; [by_eval|]|]. split; [|done]. intros H. by apply nonempty_true, H9.
Qed.

Section validation.
Context (t : jstr → option Z → jstr).
Hypothesis t_nonempty : ∀ key line, t key line ≠ [].

Lemma first_message_nonempty l line m : first_message t l line = Some m → m ≠ [].
Proof.
  induction l as [|[c k] l IH]; cbn [first_message]; [done|]. destruct c; [|done].
  intros [= <-]. apply t_nonempty.
Qed.

Lemma validate_from_nil line ops : validate_from t line ops = [] ↔ Forall rule_valid ops.
Proof.
  revert line; induction ops as [|op ops IH]; intros line; cbn [validate_from]; [by split|].
  rewrite Forall_cons, <- rule_checks_valid.
  rewrite <- (first_message_None t (rule_checks op) line).
  destruct (first_message t (rule_checks op) line) as [m|] eqn:E; [|rewrite IH; tauto].
  apply first_message_nonempty in E. split; [done|by intros []].
Qed.

End validation.

Lemma reopened_valid op id cs :
  has OPERATION_MODE_VALUES (o_mode op) = true → settled (o_value_text op) →
  json_safe (JObj (operation_payload op)) → rule_valid op → rule_valid (reopened op id cs).
Proof.
  intros Hmode Hset Hsafe [H1 H2 H3 H4 H6 H9].
  assert (Hm : mode_or_set (reopened op id cs) = mode_or_set op) by (unfold mode_or_set; by rewrite reopened_mode).
  assert (Hal : ∀ s, trim s = s → s ≠ [] → alias_or (reopened op id cs) s ≠ []).
  { intros s Ht Hs. apply alias_or_filled. unfold filled. rewrite Ht. by destruct s. }
  assert (Hval : m_value (rule_meta op) = true →
    filled (o_value_text (reopened op id cs)) = filled (o_value_text op)
    ∧ json_parse (trim (o_value_text (reopened op id cs))) = json_parse (trim (o_value_text op))
    ∧ parseLooseValue (o_value_text (reopened op id cs)) = parseLooseValue (o_value_text op)).
  { intros Hv. rewrite reopened_value, Hv by done. cbn [when]. rewrite <- (parseLooseValue_trim (toValueText _)).
    apply (value_text_stable _ Hset). by apply payload_value_safe. }
  split; rewrite ?Hm, ?reopened_meta by done.
  - intros Hp. rewrite reopened_path by done. unfold saved_path. rewrite Hp. cbn. rewrite filled_trim. auto.
  - intros Hf. rewrite reopened_from by done. unfold saved_from.
    rewrite (from_required_from _ Hf : m_from (rule_meta op) = true). cbn. apply Hal; [apply alias_or_trim|auto].
  - intros Ht. rewrite reopened_to by done. unfold saved_to.
    rewrite (to_required_to _ Ht : m_to (rule_meta op) = true). cbn. apply Hal; [apply alias_or_trim|auto].
  - intros Hv. destruct (Hval (value_required_value _ Hv)) as (-> & _). auto.
  - intros E. assert (Hv : m_value (rule_meta op) = true) by (unfold rule_meta; rewrite E; by_eval).
    destruct (Hval Hv) as (_ & Hj & _). unfold no_message in *. rewrite Hj. auto.
  - intros E. assert (Hv : m_value (rule_meta op) = true) by (unfold rule_meta; rewrite E; by_eval).
    destruct (Hval Hv) as (_ & _ & ->). auto.
Qed.

(** A rule the checks accept is not blank. *)
Lemma valid_not_blank op : rule_valid op → isOperationBlank op = false.
Proof.
  intros [H1 _ _ _ _ _]. unfold isOperationBlank. destruct (bool_decide_reflect (o_mode op = js "set")) as [E|]; [|done].
  rewrite H1; [done|]. unfold rule_meta, mode_or_set. rewrite E. by_eval.
Qed.

(** ** What is checked, and what is saved *)

(** The checks before saving accept exactly the rules that have what
    their mode requires; otherwise the message names the first rule that does
    not, by its line. *)
Theorem validateOperations_spec t ops :
  (∀ key line, t key line ≠ []) →
  (validateOperations t ops = [] ↔ Forall rule_valid ops)
  ∧ (validateOperations t ops ≠ [] → ∃ before op after key,
       ops = before ++ op :: after ∧ Forall rule_valid before ∧ ¬ rule_valid op
       ∧ validateOperations t ops = t (js key) (Some (Z.of_nat (length before) + 1))).
Proof.
  intros Ht. unfold validateOperations. split; [by apply validate_from_nil|].
  assert (Hgen : ∀ line, validate_from t line ops ≠ [] → ∃ before op after key,
       ops = before ++ op :: after ∧ Forall rule_valid before ∧ ¬ rule_valid op
       ∧ validate_from t line ops = t (js key) (Some (Z.of_nat (length before) + line))).
  { induction ops as [|op rest IH]; intros line Hne; [done|]. cbn [validate_from] in *.
    destruct (first_message t (rule_checks op) line) as [m|] eqn:E.
    - assert (Hkey : ∀ l, first_message t l line = Some m → ∃ key, m = t (js key) (Some line)).
      { clear. induction l as [|[c k] l IH]; cbn [first_message]; [done|]. destruct c; [|done].
        intros [= <-]. eauto. }
      destruct (Hkey _ E) as [key ->]. exists [], op, rest, key. split; [done|]. split; [apply Forall_nil_2|].
      split; [|done]. intros Hv. apply rule_checks_valid, (first_message_None t _ line) in Hv. congruence.
    - destruct (IH _ Hne) as (b & o & a & key & -> & Hb & Ho & Hm). exists (op :: b), o, a, key.
      split; [done|]. split; [|split; [done|]].
      + apply Forall_cons_2; [|done]. by apply rule_checks_valid, (first_message_None t _ line).
      + rewrite Hm. cbn [length]. do 2 f_equal. lia. }
  apply Hgen.
Qed.

Lemma validateOperations_spec_witness :
  let t := λ (key : jstr) (line : option Z), js "!" ++ key in
  let bad := operation_of (js "a") [entry "mode" (str "copy"); entry "from" (str "x")] [] in
  (∀ key line, t key line ≠ []) ∧ validateOperations t [bad] ≠ [].
Proof.
  assert (Ht : ∀ (key : jstr) (line : option Z), js "!" ++ key ≠ []).
  { intros key line. change (js "!") with [33]. discriminate. }
  split; [exact Ht|]. intros H. apply (validateOperations_spec _ _ Ht) in H.
  apply Forall_inv in H. destruct H as [_ _ Hto _ _ _]. apply Hto; by_eval.
Defined.

(** A text without blanks at its ends that is not empty. *)
Definition solid (s : jstr) : Prop := s ≠ [] ∧ trim s = s.

(** An object has no properties but these. *)
Definition keys_among (names : list string) (o : object) : Prop := Forall (λ k, k ∈ map js names) (map fst o).

Lemma keys_among_fields l : keys_among (map fst l) (of_fields l).
Proof.
  unfold keys_among. induction l as [|[n v] l IH]; [constructor|]. rewrite of_fields_cons, map_app. apply Forall_app. split.
  - destruct v; cbn; [|constructor]. apply Forall_singleton. left.
  - eapply Forall_impl; [exact IH|]. intros k Hk. by right.
Qed.

Record typed_condition (o : object) : Prop := {
  tc_keys : keys_among ["path"; "mode"; "value"; "invert"; "pass_missing_key"]%string o;
  tc_path : ∃ s, fld o "path" = Some (JStr s) ∧ solid s;
  tc_mode : ∃ s, fld o "mode" = Some (JStr s) ∧ s ∈ CONDITION_MODE_VALUES;
  tc_value : is_Some (fld o "value");
  tc_invert : fld o "invert" = None ∨ fld o "invert" = Some (JBool true);
  tc_missing : fld o "pass_missing_key" = None ∨ fld o "pass_missing_key" = Some (JBool true);
}.

(** The type of the object saved for a rule: which properties it has, by the
    mode of the rule, and that it has no others. A target is also saved for a
    mode that has none, where text was left in its field. *)
Record typed_rule (op : ParamOverrideOperation) (o : object) : Prop := {
  tr_keys : keys_among ["mode"; "description"; "path"; "value"; "keep_origin"; "from"; "to"; "conditions"; "logic"]%string o;
  tr_mode : fld o "mode" = Some (JStr (o_mode op)) ∧ o_mode op ∈ OPERATION_MODE_VALUES;
  tr_description : fld o "description" = None ∨ ∃ s, fld o "description" = Some (JStr s) ∧ solid s;
  tr_path : if m_path (meta_of (o_mode op)) then ∃ s, fld o "path" = Some (JStr s) ∧ solid s
            else if m_pathOptional (meta_of (o_mode op))
            then fld o "path" = None ∨ ∃ s, fld o "path" = Some (JStr s) ∧ solid s
            else fld o "path" = None;
  tr_value : is_Some (fld o "value") ↔ m_value (meta_of (o_mode op)) = true;
  tr_keep : fld o "keep_origin" = None
            ∨ m_keepOrigin (meta_of (o_mode op)) = true ∧ fld o "keep_origin" = Some (JBool true);
  tr_from : if has FROM_REQUIRED_MODES (o_mode op) then ∃ s, fld o "from" = Some (JStr s) ∧ solid s
            else fld o "from" = None;
  tr_to : if has TO_REQUIRED_MODES (o_mode op) then ∃ s, fld o "to" = Some (JStr s) ∧ solid s
          else fld o "to" = if nonempty (trim (o_to op)) then Some (JStr (trim (o_to op))) else None;
  tr_conditions :
    fld o "conditions" = None ∧ fld o "logic" = None
    ∨ ∃ c cs, fld o "conditions" = Some (JArr (map JObj (c :: cs))) ∧ Forall typed_condition (c :: cs)
      ∧ (fld o "logic" = Some (str "AND") ∨ fld o "logic" = Some (str "OR"));
}.

Lemma when_filled_solid s : when_filled s = None ∨ ∃ r, when_filled s = Some (JStr r) ∧ solid r.
Proof.
  unfold when_filled, filled, solid. destruct (nonempty (trim s)) eqn:E; [right|by left].
  exists (trim s). split; [done|]. split; [by apply nonempty_true|apply trim_idemp].
Qed.

Lemma buildConditionPayload_typed c o :
  has CONDITION_MODE_VALUES (c_mode c) = true → buildConditionPayload c = Some o → typed_condition o.
Proof.
  intros Hm. unfold buildConditionPayload. destruct (nonempty (trim (c_path c))) eqn:Hp; [|done].
  cbn [negb]. intros [= <-].
  assert (Hmode : match c_mode c with [] => js "full" | m => m end = c_mode c).
  { pose proof (condition_mode_nonempty _ Hm). by destruct (c_mode c). }
  rewrite Hmode. apply has_In in Hm.
  split; look.
  - by destruct (c_invert c), (c_pass_missing_key c); apply (bool_decide_unpack _).
  - exists (trim (c_path c)). split; [done|]. split; [by apply nonempty_true|apply trim_idemp].
  - eauto.
  - eauto.
  - destruct (c_invert c), (c_pass_missing_key c); cbn [app]; look; auto.
  - destruct (c_invert c), (c_pass_missing_key c); cbn [app]; look; auto.
Qed.

(** The modes that need both ends are those that have them. *)
Lemma from_required_iff mode :
  mode ∈ OPERATION_MODE_VALUES →
  has FROM_REQUIRED_MODES mode = m_from (meta_of mode) ∧ has TO_REQUIRED_MODES mode = m_to (meta_of mode).
Proof.
  assert (H : Forall (λ mode, has FROM_REQUIRED_MODES mode = m_from (meta_of mode)
    ∧ has TO_REQUIRED_MODES mode = m_to (meta_of mode)) OPERATION_MODE_VALUES)
    by (apply (bool_decide_unpack _); by_eval).
  rewrite Forall_forall in H. apply H.
Qed.

Definition modes_known (op : ParamOverrideOperation) : Prop :=
  has OPERATION_MODE_VALUES (o_mode op) = true
  ∧ Forall (λ c, has CONDITION_MODE_VALUES (c_mode c) = true) (o_conditions op).

Lemma alias_or_solid op s : alias_or op s ≠ [] → solid (alias_or op s).
Proof. intros H. split; [done|apply alias_or_trim]. Qed.

Lemma operation_payload_typed op :
  modes_known op → rule_valid op → typed_rule op (operation_payload op).
Proof.
  intros [Hm Hc] [H1 H2 H3 _ _ _].
  pose proof (mode_or_set_known op Hm) as Hmode. apply has_In in Hm.
  destruct (from_required_iff _ Hm) as [Hfr Hto]. rewrite Hmode in *.
  assert (Hmeta : rule_meta op = meta_of (o_mode op)) by (unfold rule_meta; by rewrite Hmode).
  assert (Hf : Forall (λ e : string * option json, fld (operation_payload op) e.1 = e.2) (rule_fields op))
    by (apply Forall_forall; intros [n v] ?; by apply payload_prop).
  unfold rule_fields in Hf. open_spec Hf. rewrite Hmeta in *.
  split; [rewrite operation_payload_fields; exact (keys_among_fields (rule_fields op))|..]; repeat match goal with H : fld _ _ = _ |- _ => rewrite H; clear H end.
  - by rewrite Hmode.
  - apply when_filled_solid.
  - unfold saved_path. rewrite Hmeta. unfold filled in *.
    destruct (m_path _); cbn [orb when].
    + exists (trim (o_path op)). split; [done|]. split; [apply nonempty_true; auto|apply trim_idemp].
    + destruct (m_pathOptional _); [apply when_filled_solid|done].
  - destruct (m_value _); [by split; [|by eexists]|split; [by intros []|done]].
  - destruct (m_keepOrigin _), (o_keep_origin op); cbn; auto.
  - rewrite Hfr. unfold saved_from. rewrite Hmeta. rewrite Hfr in H2. destruct (m_from _); [|done].
    eexists. split; [done|]. apply alias_or_solid. auto.
  - rewrite Hto. unfold saved_to. rewrite Hmeta. rewrite Hto in H3. destruct (m_to _); [|done].
    eexists. split; [done|]. apply alias_or_solid. auto.
  - destruct (saved_conditions op) as [|c cs] eqn:E; [by left|right]. exists c, cs. cbn [nonempty when].
    split; [done|]. split.
    + apply Forall_forall. intros o Ho.
      assert (Hs : o ∈ saved_conditions op) by (rewrite E; exact Ho).
      apply saved_condition_inv in Hs as (c' & Hin & Hb).
      rewrite Forall_forall in Hc. apply (buildConditionPayload_typed c'); auto.
    + case_bool_decide; auto.
Qed.

(** C35. What is saved is well typed: the text is empty when every rule is
    blank, and otherwise lists one object per rule that is not, in order, whose
    properties are among nine: the mode; a description, if there is one; the
    path and the value where the mode has them and the source where it needs one,
    as trimmed texts that are not empty; the target where the mode needs one,
    and also where it has none but text was left in the field; the mark that
    keeps what is there, where the mode has it; and conditions, only together
    with how they are combined, each with a path, a mode and a value, and at most
    its two marks. *)
Theorem saved_rules_typed t ops text :
  (∀ key line, t key line ≠ []) → Forall modes_known ops →
  buildOperationsJson t ops true = Built text →
  let rules := filterb (λ o, negb (isOperationBlank o)) ops in
  (rules = [] ∧ text = [])
  ∨ (rules ≠ [] ∧ text = json_stringify_2 (operations_json rules)
     ∧ Forall (λ o, typed_rule o (operation_payload o)) rules).
Proof.
  intros Ht Hk Hb rules. unfold buildOperationsJson in Hb. fold rules in Hb.
  destruct rules as [|r rs] eqn:E; [left; by injection Hb as <-|right]. split; [done|].
  destruct (nonempty (validateOperations t (r :: rs))) eqn:Hv; cbn [andb] in Hb; [done|].
  injection Hb as <-. split; [done|].
  assert (Hval : Forall rule_valid (r :: rs)).
  { apply (validate_from_nil t Ht 1). unfold validateOperations in Hv. by destruct (validate_from _ _ _). }
  rewrite Forall_forall in Hk, Hval |- *. intros o Ho. apply operation_payload_typed; [|by apply Hval].
  apply Hk. rewrite <- E in Ho. by apply elem_of_filterb in Ho as [? _].
Qed.

Definition plain_t (key : jstr) (line : option Z) : jstr := 33 :: key.

Definition sample_rule : ParamOverrideOperation :=
  operation_of (js "a")
    [entry "mode" (str "copy_header"); entry "path" (str " X-Id "); entry "description" (str "copy");
     entry "logic" (str "and")]
    [condition_of (js "b") [entry "path" (str "model"); entry "mode" (str "prefix"); entry "value" (str "gpt")]].

Lemma saved_rules_typed_witness :
  ∃ text, buildOperationsJson plain_t [sample_rule] true = Built text
    ∧ typed_rule sample_rule (operation_payload sample_rule).
Proof.
  destruct (buildOperationsJson plain_t [sample_rule] true) as [text|] eqn:E; [|by vm_compute in E].
  exists text. split; [reflexivity|].
  assert (Hk : Forall modes_known [sample_rule]).
  { apply Forall_cons_2; [|apply Forall_nil_2]. split; [by_eval|]. apply Forall_cons_2; [by_eval|apply Forall_nil_2]. }
  destruct (saved_rules_typed plain_t [sample_rule] text ltac:(done) Hk E) as [[H _]|(_ & _ & H)].
  - by vm_compute in H.
  - rewrite Forall_forall in H. exact (H sample_rule ltac:(vm_compute; left)).
Defined.

(** The target a rule was given before its mode became one without a target. *)
Example leftover_target_saved :
  fld (operation_payload (operation_of (js "a") [entry "mode" (str "delete"); entry "path" (str "p"); entry "to" (str " x ")] [])) "to"
  = Some (str "x").
Proof. by_eval. Qed.

(** ** The order of rules *)

Lemma find_index_Some p l i :
  find_index p l = Some i → ∃ l1 x l2, l = l1 ++ x :: l2 ∧ length l1 = i ∧ p x = true ∧ Forall (λ y, p y = false) l1.
Proof.
  revert i; induction l as [|y l IH]; intros i; cbn [find_index]; [done|].
  destruct (p y) eqn:Hy; [intros [= <-]; by exists [], y, l|].
  destruct (find_index p l) as [j|]; [|done]. intros [= <-].
  destruct (IH j eq_refl) as (l1 & x & l2 & -> & <- & Hx & Hl). exists (y :: l1), x, l2. auto.
Qed.

Lemma find_index_None p l : find_index p l = None → Forall (λ y, p y = false) l.
Proof.
  induction l as [|y l IH]; cbn [find_index]; [done|]. destruct (p y) eqn:Hy; [done|].
  destruct (find_index p l); [done|]. intros _. auto.
Qed.

Lemma has_id_true id o : has_id id o = true ↔ o_id o = id.
Proof. apply bool_decide_eq_true. Qed.

Definition ids (ops : list ParamOverrideOperation) : list jstr := map o_id ops.

Lemma has_id_absent id ops : Forall (λ y, has_id id y = false) ops ↔ id ∉ ids ops.
Proof.
  unfold ids. rewrite list_elem_of_fmap, Forall_forall. split.
  - intros H (o & -> & Ho). specialize (H o Ho). by apply bool_decide_eq_false in H.
  - intros H o Ho. apply bool_decide_eq_false. intros <-. eauto.
Qed.

(** One move: the list with [moved] taken out and put back next to a rule. *)
Lemma reorderOperations_move ops s t pos :
  s ≠ [] → t ≠ [] → s ≠ t → s ∈ ids ops → t ∈ ids ops → NoDup (ids ops) →
  ∃ a moved b l1 target l2,
    ops = a ++ moved :: b ∧ a ++ b = l1 ++ target :: l2 ∧ o_id moved = s ∧ o_id target = t
    ∧ reorderOperations ops s t pos =
      match pos with Before => l1 ++ moved :: target :: l2 | After => l1 ++ target :: moved :: l2 end.
Proof.
  intros Hs Ht Hst Hins Hint Hnd. unfold reorderOperations. apply nonempty_true in Hs, Ht. rewrite Hs, Ht.
  rewrite bool_decide_eq_false_2 by done. cbn [negb orb].
  destruct (find_index (has_id s) ops) as [i|] eqn:Ei.
  2:{ apply find_index_None, has_id_absent in Ei. done. }
  apply find_index_Some in Ei as (a & moved & b & -> & <- & Hm%has_id_true & Ha).
  rewrite list_lookup_middle by done. rewrite delete_middle.
  assert (Hint' : t ∈ ids (a ++ b)).
  { unfold ids in *. rewrite map_app in *. cbn [map] in Hint. rewrite elem_of_app, elem_of_cons in Hint.
    rewrite elem_of_app. destruct Hint as [?|[?|?]]; auto. congruence. }
  destruct (find_index (has_id t) (a ++ b)) as [j|] eqn:Ej.
  2:{ apply find_index_None, has_id_absent in Ej. done. }
  apply find_index_Some in Ej as (l1 & target & l2 & Heq & <- & Htt%has_id_true & _).
  exists a, moved, b, l1, target, l2. split; [done|]. split; [done|]. split; [done|]. split; [done|].
  rewrite Heq. unfold splice_in. destruct pos.
  - by rewrite take_app_length, drop_app_length.
  - change (l1 ++ target :: l2) with (l1 ++ [target] ++ l2). rewrite app_assoc.
    rewrite take_app_length', drop_app_length' by (rewrite length_app; cbn; lia). by rewrite <- app_assoc.
Qed.

Lemma reorderOperations_same ops s t pos :
  ¬ (s ≠ [] ∧ t ≠ [] ∧ s ≠ t ∧ s ∈ ids ops ∧ t ∈ ids ops) → reorderOperations ops s t pos = ops.
Proof.
  intros Hn. unfold reorderOperations.
  destruct (nonempty s) eqn:Hs; [|done]. destruct (nonempty t) eqn:Ht; [|done].
  case_bool_decide as Hst; [done|]. cbn [negb orb]. apply nonempty_true in Hs, Ht.
  destruct (find_index (has_id s) ops) as [i|] eqn:Ei; [|done].
  apply find_index_Some in Ei as (a & moved & b & -> & <- & Hm%has_id_true & Ha).
  rewrite list_lookup_middle by done. rewrite delete_middle.
  destruct (find_index (has_id t) (a ++ b)) as [j|] eqn:Ej; [|done].
  apply find_index_Some in Ej as (l1 & target & l2 & Heq & _ & Htt%has_id_true & _).
  exfalso. apply Hn. split; [done|]. split; [done|]. split; [done|]. unfold ids. split.
  - apply list_elem_of_fmap. exists moved. split; [done|]. apply elem_of_app. right. by left.
  - apply list_elem_of_fmap. exists target. split; [done|].
    assert (Hin : target ∈ a ++ b) by (rewrite Heq; apply elem_of_app; right; by left).
    apply elem_of_app in Hin. apply elem_of_app. destruct Hin; [by left|right; by right].
Qed.

Lemma filterb_none {A} (p : A → bool) x l1 l2 :
  p x = false → filterb p (l1 ++ x :: l2) = filterb p (l1 ++ l2).
Proof. intros Hx. unfold filterb. rewrite !List.filter_app. cbn. by rewrite Hx. Qed.

(** A move takes one rule out of the list and puts it back elsewhere. *)
Lemma reorderOperations_split ops s t pos :
  s ≠ [] → t ≠ [] → s ≠ t → s ∈ ids ops → t ∈ ids ops → NoDup (ids ops) →
  ∃ a moved b m1 m2, ops = a ++ moved :: b ∧ reorderOperations ops s t pos = m1 ++ moved :: m2
    ∧ a ++ b = m1 ++ m2 ∧ o_id moved = s.
Proof.
  intros H1 H2 H3 H4 H5 Hnd.
  destruct (reorderOperations_move ops s t pos H1 H2 H3 H4 H5 Hnd)
    as (a & moved & b & l1 & target & l2 & Hops & Heq & Hm & Ht & Hr).
  exists a, moved, b. destruct pos; [by exists l1, (target :: l2)|].
  exists (l1 ++ [target]), l2. by rewrite Hr, Heq, <- !app_assoc.
Qed.

(** Dragging a rule onto another one moves just that rule: it ends up
    directly before or after the target, the rules are the same and all
    others keep their order; when either rule is missing, or both are one,
    nothing changes. *)
Theorem reorderOperations_spec ops s t pos :
  NoDup (ids ops) →
  let r := reorderOperations ops s t pos in
  r ≡ₚ ops
  ∧ filterb (λ o, negb (has_id s o)) r = filterb (λ o, negb (has_id s o)) ops
  ∧ (s ≠ [] ∧ t ≠ [] ∧ s ≠ t ∧ s ∈ ids ops ∧ t ∈ ids ops →
     ∃ l1 moved target l2, o_id moved = s ∧ o_id target = t ∧
       r = match pos with Before => l1 ++ moved :: target :: l2 | After => l1 ++ target :: moved :: l2 end)
  ∧ (¬ (s ≠ [] ∧ t ≠ [] ∧ s ≠ t ∧ s ∈ ids ops ∧ t ∈ ids ops) → r = ops).
Proof.
  intros Hnd r.
  destruct (decide (s ≠ [] ∧ t ≠ [] ∧ s ≠ t ∧ s ∈ ids ops ∧ t ∈ ids ops)) as [Hc|Hc].
  2:{ unfold r. rewrite reorderOperations_same by done. split; [done|]. split; [done|]. by split. }
  destruct Hc as (H1 & H2 & H3 & H4 & H5).
  destruct (reorderOperations_move ops s t pos H1 H2 H3 H4 H5 Hnd)
    as (a & moved & b & l1 & target & l2 & Hops & Heq & Hm & Ht & Hr). fold r in Hr.
  destruct (reorderOperations_split ops s t pos H1 H2 H3 H4 H5 Hnd)
    as (a' & moved' & b' & m1 & m2 & Hops' & Hr' & Hab & Hm'). fold r in Hr'.
  split; [|split; [|split]].
  - rewrite Hr', Hops', <- !Permutation_middle. by rewrite Hab.
  - assert (Hf : negb (has_id s moved') = false) by (apply negb_false_iff; by apply has_id_true).
    rewrite Hr', Hops', !(filterb_none _ moved') by done. by rewrite Hab.
  - intros _. exists l1, moved, target, l2. auto.
  - tauto.
Qed.

Lemma reorderOperations_spec_witness :
  let op i := operation_of (js i) [] [] in
  let ops := [op "a"; op "b"; op "c"]%string in
  NoDup (ids ops) ∧ reorderOperations ops (js "a") (js "c") After ≡ₚ ops.
Proof.
  assert (Hnd : NoDup (ids [operation_of (js "a") [] []; operation_of (js "b") [] []; operation_of (js "c") [] []]))
    by (apply (bool_decide_unpack _); by_eval).
  split; [exact Hnd|]. apply (reorderOperations_spec _ (js "a") (js "c") After Hnd).
Defined.

(** ** Drafts of structured values *)

Lemma parse_build_sync ty key :
  parseSyncTargetSpec (buildSyncTargetSpec ty key) =
  if filled key then (ty, trim key) else (SyncJson, []).
Proof.
  unfold buildSyncTargetSpec. fold (filled key). destruct (filled key) eqn:Hf; cbn [negb]; [|done].
  unfold filled in Hf. apply nonempty_true in Hf.
  assert (Hraw : ∀ a name, is_ws a = false → 58 ∉ a :: name → trim ((a :: name) ++ js ":" ++ trim key) =
    (a :: name) ++ js ":" ++ trim key).
  { intros a name Ha _. apply trim_fixed_iff. destruct (trim_edges key) as [_ Hl]. split; [by intros c [= <-]|].
    intros c. rewrite !last_app. destruct (last (trim key)) eqn:E; [by intros [= <-]; apply Hl|].
    by apply last_None in E. }
  unfold parseSyncTargetSpec. destruct ty; cbn [sync_name].
  - change (js "json") with [106; 115; 111; 110]. rewrite Hraw by (by_eval || set_solver).
    change (js ":") with [58]. cbn [app nonempty negb].
    change (index_of [58] (106 :: 115 :: 111 :: 110 :: 58 :: trim key)) with (Some 4%nat).
    cbv beta iota zeta. cbn [drop].
    change (slice 0 4 (106 :: 115 :: 111 :: 110 :: 58 :: trim key)) with [106; 115; 111; 110].
    rewrite bool_decide_eq_false_2 by (vm_compute; discriminate). by rewrite drop_0, trim_idemp.
  - change (js "header") with [104; 101; 97; 100; 101; 114]. rewrite Hraw by (by_eval || set_solver).
    change (js ":") with [58]. cbn [app nonempty negb].
    change (index_of [58] (104 :: 101 :: 97 :: 100 :: 101 :: 114 :: 58 :: trim key)) with (Some 6%nat).
    cbv beta iota zeta. cbn [drop].
    change (slice 0 6 (104 :: 101 :: 97 :: 100 :: 101 :: 114 :: 58 :: trim key)) with [104; 101; 97; 100; 101; 114].
    rewrite bool_decide_eq_true_2 by by_eval. by rewrite drop_0, trim_idemp.
Qed.

Definition good_status (n : Z) : Z := if (100 <=? n) && (n <=? 599) then n else 400.

Lemma status_range (P : Z → bool) :
  forallb P (map (λ i, 100 + Z.of_nat i) (seq 0 500)) = true → ∀ n, P (good_status n) = true.
Proof.
  rewrite forallb_forall. intros H n. apply H, in_map_iff. unfold good_status.
  destruct ((100 <=? n) && (n <=? 599)) eqn:E.
  - exists (Z.to_nat (n - 100)). rewrite in_seq. lia.
  - exists 300%nat. rewrite in_seq. lia.
Qed.

Lemma status_safe n : number_safe (num_of_Z (good_status n)) = true.
Proof. revert n. apply (status_range (λ n, number_safe (num_of_Z n))). by_eval. Qed.

Lemma status_read n : status_or_400 (num_of_Z (good_status n)) = good_status n.
Proof.
  apply Z.eqb_eq. revert n. apply (status_range (λ n, status_or_400 (num_of_Z n) =? n)). by_eval.
Qed.

Definition text_ok (s : jstr) : Prop := Forall code_unit s.

Lemma trim_text_ok s : text_ok s → text_ok (trim s).
Proof.
  unfold text_ok. rewrite !Forall_forall. intros H c Hc. by apply H, elem_of_trim.
Qed.

Lemma return_error_safe d :
  text_ok (re_message d) → text_ok (re_code d) → text_ok (re_type d) → json_safe (JObj (return_error_payload d)).
Proof.
  intros H1%trim_text_ok H2%trim_text_ok H3%trim_text_ok.
  unfold return_error_payload. fold (good_status (re_statusCode d)).
  assert (Hv : ∀ o : object, Forall (λ e : jstr * json, is_index_key e.1 = false ∧ text_ok e.1 ∧ json_safe e.2) o →
    NoDup (map fst o) → json_safe (JObj o)).
  { intros o Ho Hnd. rewrite Forall_forall in Ho. apply safe_obj; [done|apply own_entries_plain|..];
      apply Forall_forall; intros e He; by apply Ho. }
  assert (Hk : ∀ n v, bool_decide (is_index_key (js n) = false) && forallb code_unitb (js n) = true → json_safe v →
    is_index_key (js n) = false ∧ text_ok (js n) ∧ json_safe v).
  { intros n v [Hi%bool_decide_eq_true Hc]%andb_true_iff Hsv. split; [done|]. split; [by apply code_unitb_ok|done]. }
  apply Hv.
  - rewrite !Forall_app, !Forall_cons. split.
    + split; [apply Hk; [by_eval|by constructor]|]. split; [|apply Forall_nil_2].
      apply Hk; [by_eval|]. apply safe_num, status_safe.
    + split; [|split]; case_match; try apply Forall_nil_2;
        (apply Forall_cons_2; [|apply Forall_nil_2]); (apply Hk; [by_eval|by constructor]).
  - repeat case_match; apply (bool_decide_unpack _); by_eval.
Qed.

(** A message that is itself a JSON object is not a plain text. *)
Definition plain_message (message : jstr) : Prop :=
  match json_parse (trim message) with Some (JObj _) => False | _ => True end.

Lemma return_error_fields d : meets (return_error_payload d)
  [("message"%string, Some (JStr (trim (re_message d))));
   ("msg"%string, None);
   ("status_code"%string, Some (num (good_status (re_statusCode d))));
   ("code"%string, when_filled (re_code d));
   ("type"%string, when_filled (re_type d));
   ("skip_retry"%string, when (negb (re_skipRetry d)) (Some (JBool false)))].
Proof.
  unfold return_error_payload. fold (good_status (re_statusCode d)). unfold meets, when_filled, filled.
  generalize (num (good_status (re_statusCode d))). intros status.
  destruct (nonempty (trim (re_code d))), (nonempty (trim (re_type d))), (re_skipRetry d); cbn [app when negb];
    repeat (apply Forall_cons_2; [cbn [fst snd]; look; reflexivity|]); apply Forall_nil_2.
Qed.

Lemma filled_or_empty s : trim (string_of_json (or_ (when_filled s) (str ""))) = trim s.
Proof.
  unfold when_filled, filled. pose proof (trim_idemp s). by destruct (trim s).
Qed.

Lemma return_error_text d :
  text_ok (re_message d) → text_ok (re_code d) → text_ok (re_type d) → re_simpleMode d = false →
  parseReturnErrorDraft (buildReturnErrorValueText d) =
  {| re_message := trim (re_message d); re_statusCode := good_status (re_statusCode d);
     re_code := trim (re_code d); re_type := trim (re_type d); re_skipRetry := re_skipRetry d;
     re_simpleMode := false |}.
Proof.
  intros H1 H2 H3 Hm. pose proof (return_error_safe d H1 H2 H3) as Hs. unfold buildReturnErrorValueText. rewrite Hm.
  assert (Ht : trim (json_stringify (JObj (return_error_payload d))) = json_stringify (JObj (return_error_payload d)))
    by apply trim_no_edge, json_print_edges, Hs.
  unfold parseReturnErrorDraft. rewrite Ht.
  pose proof (json_parse_stringify _ Hs) as Hp.
  assert (Hne : nonempty (json_stringify (JObj (return_error_payload d))) = true).
  { apply nonempty_true. intros E. rewrite E, json_parse_nil in Hp. done. }
  rewrite Hne, Hp. cbn [negb]. unfold string_or.
  pose proof (return_error_fields d) as Hf. unfold meets in Hf. open_spec Hf.
  repeat match goal with H : fld _ _ = _ |- _ => rewrite H; clear H end.
  cbn [defined_or to_number]. unfold num. rewrite !filled_or_empty, status_read.
  f_equal; [|by destruct (re_skipRetry d)].
  pose proof (trim_idemp (re_message d)). by destruct (trim (re_message d)).
Qed.

Lemma return_error_plain d :
  re_simpleMode d = true → plain_message (re_message d) →
  parseReturnErrorDraft (buildReturnErrorValueText d) =
  {| re_message := trim (re_message d); re_statusCode := 400; re_code := []; re_type := [];
     re_skipRetry := true; re_simpleMode := true |}.
Proof.
  intros Hm Hp. unfold buildReturnErrorValueText, plain_message in *. rewrite Hm.
  unfold parseReturnErrorDraft. rewrite trim_idemp. destruct (trim (re_message d)); [done|]. cbn [nonempty negb].
  by destruct (json_parse _) as [[]|].
Qed.

(** The structured editors are faithful: the end of a field
    synchronisation reads back as the kind and the trimmed key it was built
    from, and a custom error as the message, status, code, type and retry flag
    it was built from, trimmed and with a status in 100 to 599; in simple mode
    as its message. So an edit of one attribute changes just that one. *)
Theorem drafts_roundtrip ty key d :
  text_ok (re_message d) → text_ok (re_code d) → text_ok (re_type d) →
  (re_simpleMode d = true → plain_message (re_message d)) →
  parseSyncTargetSpec (buildSyncTargetSpec ty key) = (if filled key then (ty, trim key) else (SyncJson, []))
  ∧ parseReturnErrorDraft (buildReturnErrorValueText d) =
    {| re_message := trim (re_message d);
       re_statusCode := if re_simpleMode d then 400 else good_status (re_statusCode d);
       re_code := if re_simpleMode d then [] else trim (re_code d);
       re_type := if re_simpleMode d then [] else trim (re_type d);
       re_skipRetry := re_simpleMode d || re_skipRetry d;
       re_simpleMode := re_simpleMode d |}.
Proof.
  intros H1 H2 H3 Hp. split; [apply parse_build_sync|].
  destruct (re_simpleMode d) eqn:Hm; [by apply return_error_plain; auto|by apply return_error_text].
Qed.

Definition sample_error : ReturnErrorDraft :=
  {| re_message := js " forbidden "; re_statusCode := 403; re_code := js "denied"; re_type := [];
     re_skipRetry := false; re_simpleMode := false |}.

Lemma drafts_roundtrip_witness :
  parseSyncTargetSpec (buildSyncTargetSpec SyncHeader (js "X-Id")) = (SyncHeader, js "X-Id")
  ∧ re_statusCode (parseReturnErrorDraft (buildReturnErrorValueText sample_error)) = 403.
Proof.
  assert (H1 : text_ok (re_message sample_error)) by (apply code_unitb_ok; by_eval).
  assert (H2 : text_ok (re_code sample_error)) by (apply code_unitb_ok; by_eval).
  assert (H3 : text_ok (re_type sample_error)) by (apply code_unitb_ok; by_eval).
  destruct (drafts_roundtrip SyncHeader (js "X-Id") sample_error H1 H2 H3 ltac:(done)) as [Hs Hr].
  split; [rewrite Hs; by_eval|]. rewrite Hr. by_eval.
Defined.
