(* ===== verification/ParamOverrideEditor.v ===== *)
(** * The parameter override editor

    The dialog of
    [web/default/src/features/channels/components/dialogs/param-override-editor-dialog.tsx]
    as a state machine: how it opens on a stored text, its event handlers, the
    effect that keeps the selection valid, switching between the visual and
    the JSON mode, templates and saving. Toasts, the search box and the
    styling are left out. A handler that throws ends in [Throw]. *)

From Stdlib Require Import String.
From S2P Require Import JsJson JsonText JsObject ParamOverride.

(** ** Templates *)

Definition LEGACY_TEMPLATE : object :=
   [entry "temperature" (num 0);
    entry "max_tokens" (num 1000)].

Definition OPERATION_TEMPLATE : object :=
   [entry "operations" (JArr [JObj
     [entry "description" (str "Set default temperature for openai/* models.");
      entry "path" (str "temperature");
      entry "mode" (str "set");
      entry "value" (JNum (num_of_decimal false 7 (-1)));
      entry "conditions" (JArr [JObj
       [entry "path" (str "model");
        entry "mode" (str "prefix");
        entry "value" (str "openai/")]]);
      entry "logic" (str "AND")]])].

Definition HEADER_PASSTHROUGH_TEMPLATE : object :=
   [entry "operations" (JArr [JObj
     [entry "description" (str "Pass through X-Request-Id header to upstream.");
      entry "mode" (str "pass_headers");
      entry "value" (JArr [str "X-Request-Id"]);
      entry "keep_origin" (JBool true)]])].

Definition GEMINI_IMAGE_4K_TEMPLATE : object :=
   [entry "operations" (JArr [JObj
     [entry "description" (str "Set imageSize to 4K when model contains gemini/image and ends with 4k.");
      entry "mode" (str "set");
      entry "path" (str "generationConfig.imageConfig.imageSize");
      entry "value" (str "4K");
      entry "conditions" (JArr [JObj
       [entry "path" (str "original_model");
        entry "mode" (str "contains");
        entry "value" (str "gemini")]; JObj
       [entry "path" (str "original_model");
        entry "mode" (str "contains");
        entry "value" (str "image")]; JObj
       [entry "path" (str "original_model");
        entry "mode" (str "suffix");
        entry "value" (str "4k")]]);
      entry "logic" (str "AND")]])].

Definition CODEX_CLI_HEADER_PASSTHROUGH_HEADERS : list string :=
  ["Originator"; "Session_id"; "User-Agent"; "X-Codex-Beta-Features"; "X-Codex-Turn-Metadata"]%string.

Definition CLAUDE_CLI_HEADER_PASSTHROUGH_HEADERS : list string :=
  ["X-Stainless-Arch"; "X-Stainless-Lang"; "X-Stainless-Os"; "X-Stainless-Package-Version"; "X-Stainless-Retry-Count"; "X-Stainless-Runtime"; "X-Stainless-Runtime-Version"; "X-Stainless-Timeout"; "User-Agent"; "X-App"; "Anthropic-Beta"; "Anthropic-Dangerous-Direct-Browser-Access"; "Anthropic-Version"]%string.

Definition buildPassHeadersTemplate (headers : list string) : object :=
  [entry "operations" (JArr [JObj
     [entry "mode" (str "pass_headers");
      entry "value" (JArr (map str headers));
      entry "keep_origin" (JBool true)]])].

Definition CODEX_CLI_HEADER_PASSTHROUGH_TEMPLATE : object :=
  buildPassHeadersTemplate CODEX_CLI_HEADER_PASSTHROUGH_HEADERS.

Definition CLAUDE_CLI_HEADER_PASSTHROUGH_TEMPLATE : object :=
  buildPassHeadersTemplate CLAUDE_CLI_HEADER_PASSTHROUGH_HEADERS.

Definition AWS_BEDROCK_ANTHROPIC_COMPAT_TEMPLATE : object :=
   [entry "operations" (JArr [JObj
     [entry "description" (str "Normalize anthropic-beta header tokens for Bedrock compatibility.");
      entry "mode" (str "set_header");
      entry "path" (str "anthropic-beta");
      entry "value" (JObj
       [entry "advanced-tool-use-2025-11-20" (str "tool-search-tool-2025-10-19");
        entry "bash_20241022" (JNull);
        entry "bash_20250124" (JNull);
        entry "code-execution-2025-08-25" (JNull);
        entry "compact-2026-01-12" (str "compact-2026-01-12");
        entry "computer-use-2025-01-24" (str "computer-use-2025-01-24");
        entry "computer-use-2025-11-24" (str "computer-use-2025-11-24");
        entry "context-1m-2025-08-07" (str "context-1m-2025-08-07");
        entry "context-management-2025-06-27" (str "context-management-2025-06-27");
        entry "effort-2025-11-24" (JNull);
        entry "fast-mode-2026-02-01" (JNull);
        entry "files-api-2025-04-14" (JNull);
        entry "fine-grained-tool-streaming-2025-05-14" (JNull);
        entry "interleaved-thinking-2025-05-14" (str "interleaved-thinking-2025-05-14");
        entry "mcp-client-2025-11-20" (JNull);
        entry "mcp-client-2025-04-04" (JNull);
        entry "mcp-servers-2025-12-04" (JNull);
        entry "output-128k-2025-02-19" (JNull);
        entry "structured-output-2024-03-01" (JNull);
        entry "prompt-caching-scope-2026-01-05" (JNull);
        entry "skills-2025-10-02" (JNull);
        entry "structured-outputs-2025-11-13" (JNull);
        entry "text_editor_20241022" (JNull);
        entry "text_editor_20250124" (JNull);
        entry "token-efficient-tools-2025-02-19" (JNull);
        entry "tool-search-tool-2025-10-19" (str "tool-search-tool-2025-10-19");
        entry "web-fetch-2025-09-10" (JNull);
        entry "web-search-2025-03-05" (JNull);
        entry "oauth-2025-04-20" (JNull)])]; JObj
     [entry "description" (str "Remove all tools[*].custom.input_examples before upstream relay.");
      entry "mode" (str "delete");
      entry "path" (str "tools.*.custom.input_examples")]])].

Inductive template_kind := KindOperations | KindLegacy.

Record TemplatePresetConfig := {
  preset_label : string;
  preset_kind : template_kind;
  preset_payload : object;
}.

Definition operations_default : TemplatePresetConfig :=
  {| preset_label := "New Format Template"; preset_kind := KindOperations;
     preset_payload := OPERATION_TEMPLATE |}.

Definition TEMPLATE_PRESET_CONFIG : list (jstr * TemplatePresetConfig) :=
  [(js "operations_default", operations_default);
   (js "legacy_default",
     {| preset_label := "Legacy Format Template"; preset_kind := KindLegacy;
        preset_payload := LEGACY_TEMPLATE |});
   (js "pass_headers_auth",
     {| preset_label := "Header Passthrough (X-Request-Id)"; preset_kind := KindOperations;
        preset_payload := HEADER_PASSTHROUGH_TEMPLATE |});
   (js "gemini_image_4k",
     {| preset_label := "Gemini Image 4K"; preset_kind := KindOperations;
        preset_payload := GEMINI_IMAGE_4K_TEMPLATE |});
   (js "claude_cli_headers_passthrough",
     {| preset_label := "Claude CLI Header Passthrough"; preset_kind := KindOperations;
        preset_payload := CLAUDE_CLI_HEADER_PASSTHROUGH_TEMPLATE |});
   (js "codex_cli_headers_passthrough",
     {| preset_label := "Codex CLI Header Passthrough"; preset_kind := KindOperations;
        preset_payload := CODEX_CLI_HEADER_PASSTHROUGH_TEMPLATE |});
   (js "aws_bedrock_anthropic_beta_override",
     {| preset_label := "AWS Bedrock Claude Compat"; preset_kind := KindOperations;
        preset_payload := AWS_BEDROCK_ANTHROPIC_COMPAT_TEMPLATE |})].

(** ** The state *)

Inductive edit_mode := EditVisual | EditJson.
Inductive visual_mode := VisualOperations | VisualLegacy.

(** What is shown and how, apart from the rules. *)
Record View := {
  v_editMode : edit_mode;
  v_visualMode : visual_mode;
  v_legacyValue : jstr;
  v_jsonText : jstr;
  v_jsonError : jstr;
}.

Record Drag := {
  draggedOperationId : jstr;
  dragOverOperationId : jstr;
  dragOverPosition : position;
}.

Definition no_drag : Drag :=
  {| draggedOperationId := []; dragOverOperationId := []; dragOverPosition := Before |}.

Record Editor := {
  e_view : View;
  e_operations : list ParamOverrideOperation;
  e_selected : jstr;
  e_expanded : list (jstr * bool);
  e_drag : Drag;
  e_preset : jstr;
  e_seed : Z;
  e_saved : option jstr;   (* the text last handed to [onSave] *)
}.

Definition with_view (v : View) (e : Editor) : Editor :=
  {| e_view := v; e_operations := e_operations e; e_selected := e_selected e; e_expanded := e_expanded e;
     e_drag := e_drag e; e_preset := e_preset e; e_seed := e_seed e; e_saved := e_saved e |}.
Definition with_operations (ops : list ParamOverrideOperation) (e : Editor) : Editor :=
  {| e_view := e_view e; e_operations := ops; e_selected := e_selected e; e_expanded := e_expanded e;
     e_drag := e_drag e; e_preset := e_preset e; e_seed := e_seed e; e_saved := e_saved e |}.
Definition with_selected (id : jstr) (e : Editor) : Editor :=
  {| e_view := e_view e; e_operations := e_operations e; e_selected := id; e_expanded := e_expanded e;
     e_drag := e_drag e; e_preset := e_preset e; e_seed := e_seed e; e_saved := e_saved e |}.
Definition with_expanded (x : list (jstr * bool)) (e : Editor) : Editor :=
  {| e_view := e_view e; e_operations := e_operations e; e_selected := e_selected e; e_expanded := x;
     e_drag := e_drag e; e_preset := e_preset e; e_seed := e_seed e; e_saved := e_saved e |}.
Definition with_drag (d : Drag) (e : Editor) : Editor :=
  {| e_view := e_view e; e_operations := e_operations e; e_selected := e_selected e; e_expanded := e_expanded e;
     e_drag := d; e_preset := e_preset e; e_seed := e_seed e; e_saved := e_saved e |}.
Definition with_preset (p : jstr) (e : Editor) : Editor :=
  {| e_view := e_view e; e_operations := e_operations e; e_selected := e_selected e; e_expanded := e_expanded e;
     e_drag := e_drag e; e_preset := p; e_seed := e_seed e; e_saved := e_saved e |}.
Definition with_seed (n : Z) (e : Editor) : Editor :=
  {| e_view := e_view e; e_operations := e_operations e; e_selected := e_selected e; e_expanded := e_expanded e;
     e_drag := e_drag e; e_preset := e_preset e; e_seed := n; e_saved := e_saved e |}.
Definition with_saved (s : jstr) (e : Editor) : Editor :=
  {| e_view := e_view e; e_operations := e_operations e; e_selected := e_selected e; e_expanded := e_expanded e;
     e_drag := e_drag e; e_preset := e_preset e; e_seed := e_seed e; e_saved := Some s |}.

(** The single attributes a handler changes of a rule and of a condition. *)
Inductive operation_patch :=
  | P_description (s : jstr) | P_path (s : jstr) | P_mode (m : string) | P_from (s : jstr) | P_to (s : jstr)
  | P_value_text (s : jstr) | P_keep_origin (b : bool) | P_logic (conjunction : bool).

Inductive condition_patch :=
  | CP_path (s : jstr) | CP_mode (m : string) | CP_value_text (s : jstr) | CP_invert (b : bool)
  | CP_pass_missing_key (b : bool).

Section editor.
Context (now : Z → Z) (t : jstr → option Z → jstr).

(** ** Opening a stored text *)

(** The rules of a parsed array, one default rule when it is empty. *)
Definition rules_of_array (seed : Z) (l : list json) : outcome (list ParamOverrideOperation * Z) :=
  match l with
  | [] => let d := createDefaultOperation now seed in Ret ([d.1], d.2)
  | _ => map_seed (normalizeOperation now) seed l
  end.

Record EditorState := {
  s_view : View;
  s_operations : list ParamOverrideOperation;
}.

Definition parseInitialState (seed : Z) (rawValue : jstr) : outcome (EditorState * Z) :=
  let trimmed := trim rawValue in
  let fallback := createDefaultOperation now seed in
  let state em vm legacy text error :=
    Ret ({| s_view := {| v_editMode := em; v_visualMode := vm; v_legacyValue := legacy;
                         v_jsonText := text; v_jsonError := error |};
            s_operations := [fallback.1] |}, fallback.2) in
  if negb (nonempty trimmed) then state EditVisual VisualOperations [] [] []
  else
    match json_parse trimmed with
    | None => state EditJson VisualOperations [] rawValue (js "Invalid JSON format")
    | Some parsed =>
        let pretty := json_stringify_2 parsed in
        match parsed with
        | JObj o =>
            match fld o "operations" with
            | Some (JArr l) =>
                r ← rules_of_array seed l;
                Ret ({| s_view := {| v_editMode := EditVisual; v_visualMode := VisualOperations;
                                     v_legacyValue := []; v_jsonText := pretty; v_jsonError := [] |};
                        s_operations := r.1 |}, r.2)
            | _ => state EditVisual VisualLegacy pretty pretty []
            end
        | _ => state EditJson VisualOperations [] pretty []
        end
    end.

(** [ops[0]?.id || ''] *)
Definition first_id (ops : list ParamOverrideOperation) : jstr :=
  match ops with o :: _ => o_id o | [] => [] end.

Definition open_editor (value : jstr) (e : Editor) : outcome Editor :=
  r ← parseInitialState (e_seed e) value;
  Ret {| e_view := s_view r.1;
         e_operations := s_operations r.1;
         e_selected := first_id (s_operations r.1);
         e_expanded := [];
         e_drag := no_drag;
         e_preset := match v_visualMode (s_view r.1) with
                     | VisualLegacy => js "legacy_default" | VisualOperations => js "operations_default" end;
         e_seed := r.2;
         e_saved := e_saved e |}.

(** The effect that runs after every change of the rules or the selection. *)
Definition keep_selection (e : Editor) : Editor :=
  match e_operations e with
  | [] => with_selected [] e
  | o :: _ => if existsb (has_id (e_selected e)) (e_operations e) then e else with_selected (o_id o) e
  end.

(** ** Rules *)

Definition patch_operation (p : operation_patch) (o : ParamOverrideOperation) : ParamOverrideOperation :=
  {| o_id := o_id o;
     o_description := match p with P_description s => s | _ => o_description o end;
     o_path := match p with P_path s => s | _ => o_path o end;
     o_mode := match p with P_mode m => js m | _ => o_mode o end;
     o_from := match p with P_from s => s | _ => o_from o end;
     o_to := match p with P_to s => s | _ => o_to o end;
     o_value_text := match p with P_value_text s => s | _ => o_value_text o end;
     o_keep_origin := match p with P_keep_origin b => b | _ => o_keep_origin o end;
     o_logic := match p with P_logic c => if c then js "AND" else js "OR" | _ => o_logic o end;
     o_conditions := o_conditions o |}.

Definition patch_condition (p : condition_patch) (c : ParamOverrideCondition) : ParamOverrideCondition :=
  {| c_id := c_id c;
     c_path := match p with CP_path s => s | _ => c_path c end;
     c_mode := match p with CP_mode m => js m | _ => c_mode c end;
     c_value_text := match p with CP_value_text s => s | _ => c_value_text c end;
     c_invert := match p with CP_invert b => b | _ => c_invert c end;
     c_pass_missing_key := match p with CP_pass_missing_key b => b | _ => c_pass_missing_key c end |}.

Definition with_conditions (cs : list ParamOverrideCondition) (o : ParamOverrideOperation) : ParamOverrideOperation :=
  {| o_id := o_id o; o_description := o_description o; o_path := o_path o; o_mode := o_mode o;
     o_from := o_from o; o_to := o_to o; o_value_text := o_value_text o;
     o_keep_origin := o_keep_origin o; o_logic := o_logic o; o_conditions := cs |}.

(** [prev.map((o) => (o.id === operationId ? f(o) : o))] *)
Definition at_id (operationId : jstr) (f : ParamOverrideOperation → ParamOverrideOperation)
    (ops : list ParamOverrideOperation) : list ParamOverrideOperation :=
  map (λ o, if has_id operationId o then f o else o) ops.

Definition edit_at (operationId : jstr) (f : ParamOverrideOperation → ParamOverrideOperation) (e : Editor) : Editor :=
  with_operations (at_id operationId f (e_operations e)) e.

Definition updateOperation (operationId : jstr) (p : operation_patch) : Editor → Editor :=
  edit_at operationId (patch_operation p).

Definition addOperation (e : Editor) : Editor :=
  let created := createDefaultOperation now (e_seed e) in
  with_seed created.2 (with_selected (o_id created.1) (with_operations (e_operations e ++ [created.1]) e)).

(** The object [duplicateOperation] normalises. *)
Definition copy_of_operation (source : ParamOverrideOperation) : json :=
  JObj [entry "description" (JStr (o_description source));
        entry "path" (JStr (o_path source));
        entry "mode" (JStr (o_mode source));
        entry "value" (parseLooseValue (o_value_text source));
        entry "keep_origin" (JBool (o_keep_origin source));
        entry "from" (JStr (o_from source));
        entry "to" (JStr (o_to source));
        entry "logic" (JStr (o_logic source));
        entry "conditions" (JArr (map (λ c, JObj
          [entry "path" (JStr (c_path c));
           entry "mode" (JStr (c_mode c));
           entry "value" (parseLooseValue (c_value_text c));
           entry "invert" (JBool (c_invert c));
           entry "pass_missing_key" (JBool (c_pass_missing_key c))]) (o_conditions source)))].

(** [ran] tells whether the updater had run when the handler tests
    [insertedId], which is up to the scheduler of the state library. *)
Definition duplicateOperation (operationId : jstr) (ran : bool) (e : Editor) : outcome Editor :=
  match find_index (has_id operationId) (e_operations e) with
  | None => Ret e
  | Some idx =>
      match e_operations e !! idx with
      | None => Ret e
      | Some source =>
          r ← normalizeOperation now (e_seed e) (copy_of_operation source);
          let e' := with_seed r.2 (with_operations (splice_in (S idx) r.1 (e_operations e)) e) in
          Ret (if ran then with_selected (o_id r.1) e' else e')
      end
  end.

Definition removeOperation (operationId : jstr) (e : Editor) : Editor :=
  if (length (e_operations e) <=? 1)%nat then
    let d := createDefaultOperation now (e_seed e) in with_seed d.2 (with_operations [d.1] e)
  else with_operations (filterb (λ o, negb (has_id operationId o)) (e_operations e)) e.

(** ** Conditions *)

Definition addCondition (operationId : jstr) (e : Editor) : Editor :=
  let created := createDefaultCondition now (e_seed e) in
  with_seed created.2 (with_expanded (map_set (e_expanded e) (c_id created.1) true)
    (edit_at operationId (λ op, with_conditions (o_conditions op ++ [created.1]) op) e)).

Definition updateCondition (operationId conditionId : jstr) (p : condition_patch) : Editor → Editor :=
  edit_at operationId (λ op, with_conditions
    (map (λ c, if bool_decide (c_id c = conditionId) then patch_condition p c else c) (o_conditions op)) op).

Definition removeCondition (operationId conditionId : jstr) : Editor → Editor :=
  edit_at operationId (λ op, with_conditions
    (filterb (λ c, negb (bool_decide (c_id c = conditionId))) (o_conditions op)) op).

Definition toggleCondition (conditionId : jstr) (expanded : bool) (e : Editor) : Editor :=
  with_expanded (map_set (e_expanded e) conditionId expanded) e.

(** [expandAllConditions] and [collapseAllConditions] *)
Definition setAllConditions (expanded : bool) (e : Editor) : Editor :=
  match find (has_id (e_selected e)) (e_operations e) with
  | None => e
  | Some op => with_expanded (foldl (λ m c, map_set m (c_id c) expanded) (e_expanded e) (o_conditions op)) e
  end.

(** ** Structured values *)

Definition with_value_text (s : jstr) : ParamOverrideOperation → ParamOverrideOperation :=
  patch_operation (P_value_text s).

Definition updateReturnErrorDraft (operationId : jstr) (patch : ReturnErrorDraft → ReturnErrorDraft) : Editor → Editor :=
  edit_at operationId (λ op,
    with_value_text (buildReturnErrorValueText (patch (parseReturnErrorDraft (o_value_text op)))) op).

(** The updater draws identifiers of its own; the draft it is given was
    parsed anew, with new identifiers. *)
Definition update_prune_text (seed : Z) (updater : Z → PruneObjectsDraft → PruneObjectsDraft * Z)
    (value_text : jstr) : jstr * Z :=
  let draft := parsePruneObjectsDraft now seed value_text in
  let next := updater draft.2 draft.1 in
  (buildPruneObjectsValueText next.1, next.2).

Fixpoint update_prune (operationId : jstr) (updater : Z → PruneObjectsDraft → PruneObjectsDraft * Z)
    (seed : Z) (ops : list ParamOverrideOperation) : list ParamOverrideOperation * Z :=
  match ops with
  | [] => ([], seed)
  | op :: rest =>
      let u := if has_id operationId op then
                 let text := update_prune_text seed updater (o_value_text op) in
                 (with_value_text text.1 op, text.2)
               else (op, seed) in
      let r := update_prune operationId updater u.2 rest in
      (u.1 :: r.1, r.2)
  end.

Definition updatePruneObjectsDraft (operationId : jstr)
    (updater : Z → PruneObjectsDraft → PruneObjectsDraft * Z) (e : Editor) : Editor :=
  let r := update_prune operationId updater (e_seed e) (e_operations e) in
  with_seed r.2 (with_operations r.1 e).

(** The attributes of the draft and of its rules that are edited. *)
Inductive prune_patch :=
  | PP_simpleMode (b : bool) | PP_typeText (s : jstr) | PP_logic (disjunction : bool) | PP_recursive (b : bool).

Definition patch_prune (p : prune_patch) (d : PruneObjectsDraft) : PruneObjectsDraft :=
  {| pd_simpleMode := match p with PP_simpleMode b => b | _ => pd_simpleMode d end;
     pd_typeText := match p with PP_typeText s => s | _ => pd_typeText d end;
     pd_logic := match p with PP_logic c => if c then js "OR" else js "AND" | _ => pd_logic d end;
     pd_recursive := match p with PP_recursive b => b | _ => pd_recursive d end;
     pd_rules := pd_rules d |}.

Definition with_rules (rules : list PruneRule) (d : PruneObjectsDraft) : PruneObjectsDraft :=
  {| pd_simpleMode := pd_simpleMode d; pd_typeText := pd_typeText d; pd_logic := pd_logic d;
     pd_recursive := pd_recursive d; pd_rules := rules |}.

Definition set_prune (p : prune_patch) (seed : Z) (d : PruneObjectsDraft) : PruneObjectsDraft * Z :=
  (patch_prune p d, seed).

Definition addPruneRule (seed : Z) (d : PruneObjectsDraft) : PruneObjectsDraft * Z :=
  let rule := normalizePruneRule now seed [] in
  (patch_prune (PP_simpleMode false) (with_rules (pd_rules d ++ [rule.1]) d), rule.2).

Definition updatePruneRule (ruleId : jstr) (patch : PruneRule → PruneRule)
    (seed : Z) (d : PruneObjectsDraft) : PruneObjectsDraft * Z :=
  (with_rules (map (λ r, if bool_decide (p_id r = ruleId) then patch r else r) (pd_rules d)) d, seed).

Definition removePruneRule (ruleId : jstr) (seed : Z) (d : PruneObjectsDraft) : PruneObjectsDraft * Z :=
  (with_rules (filterb (λ r, negb (bool_decide (p_id r = ruleId))) (pd_rules d)) d, seed).

(** ** Drag and drop *)

Definition handleDragStart (operationId : jstr) (e : Editor) : Editor :=
  with_selected operationId
    (with_drag {| draggedOperationId := operationId;
                  dragOverOperationId := dragOverOperationId (e_drag e);
                  dragOverPosition := dragOverPosition (e_drag e) |} e).

(** [pos] is the half of the row the pointer is in. *)
Definition handleDragOver (operationId : jstr) (pos : position) (e : Editor) : Editor :=
  let d := draggedOperationId (e_drag e) in
  if negb (nonempty d) || bool_decide (d = operationId) then e
  else with_drag {| draggedOperationId := d; dragOverOperationId := operationId; dragOverPosition := pos |} e.

(** [transferred] is the text of the browser's data transfer. *)
Definition handleDrop (operationId transferred : jstr) (e : Editor) : Editor :=
  let d := e_drag e in
  let sourceId := match draggedOperationId d with [] => transferred | s => s end in
  let pos := if bool_decide (dragOverOperationId d = operationId) then dragOverPosition d else Before in
  let e' :=
    if nonempty sourceId && nonempty operationId && negb (bool_decide (sourceId = operationId))
    then with_selected sourceId
           (with_operations (reorderOperations (e_operations e) sourceId operationId pos) e)
    else e in
  with_drag no_drag e'.

(** ** Modes *)

Definition set_text (text error : jstr) (v : View) : View :=
  {| v_editMode := v_editMode v; v_visualMode := v_visualMode v; v_legacyValue := v_legacyValue v;
     v_jsonText := text; v_jsonError := error |}.

Definition buildVisualJson (e : Editor) : built :=
  match v_visualMode (e_view e) with
  | VisualLegacy =>
      let trimmed := trim (v_legacyValue (e_view e)) in
      if negb (nonempty trimmed) then Built []
      else match json_parse trimmed with
           | None => Failed (t (js "Parameter override must be valid JSON format") None)
           | Some (JObj o) => Built (json_stringify_2 (JObj o))
           | Some _ => Failed (t (js "Legacy format must be a JSON object") None)
           end
  | VisualOperations => buildOperationsJson t (e_operations e) true
  end.

Definition built_text (b : built) : jstr := match b with Built s => s | Failed _ => [] end.

Definition switchToJsonMode (e : Editor) : Editor :=
  match v_editMode (e_view e) with
  | EditJson => e
  | EditVisual =>
      let v := e_view e in
      let json text error :=
        with_view {| v_editMode := EditJson; v_visualMode := v_visualMode v; v_legacyValue := v_legacyValue v;
                     v_jsonText := text; v_jsonError := error |} e in
      match buildVisualJson e with
      | Built text => json text []
      | Failed message =>
          json (match v_visualMode v with
                | VisualLegacy => v_legacyValue v
                | VisualOperations => built_text (buildOperationsJson t (e_operations e) false)
                end)
               (match message with [] => t (js "Parameter configuration error") None | m => m end)
      end
  end.

Definition switchToVisualMode (e : Editor) : outcome Editor :=
  match v_editMode (e_view e) with
  | EditVisual => Ret e
  | EditJson =>
      let v := e_view e in
      let trimmed := trim (v_jsonText v) in
      let fallback := createDefaultOperation now (e_seed e) in
      let visual vm legacy :=
        {| v_editMode := EditVisual; v_visualMode := vm; v_legacyValue := legacy;
           v_jsonText := v_jsonText v; v_jsonError := [] |} in
      let reset vm legacy :=
        with_seed fallback.2 (with_selected (o_id fallback.1) (with_operations [fallback.1]
          (with_view (visual vm legacy) e))) in
      if negb (nonempty trimmed) then Ret (reset VisualOperations [])
      else
        match json_parse trimmed with
        | None => Ret e
        | Some (JObj o) =>
            match fld o "operations" with
            | Some (JArr l) =>
                r ← rules_of_array (e_seed e) l;
                Ret (with_preset (js "operations_default") (with_seed r.2 (with_selected (first_id r.1)
                       (with_operations r.1 (with_view (visual VisualOperations []) e)))))
            | _ => Ret (with_preset (js "legacy_default") (reset VisualLegacy (json_stringify_2 (JObj o))))
            end
        | Some _ => Ret e
        end
  end.

(** [{ ...base, ...v }] of any value *)
Definition spread_entries (v : json) : object :=
  match v with
  | JObj o => own_entries o
  | JArr l => imap (λ i x, (string_of_Z (Z.of_nat i), x)) l
  | JStr s => imap (λ i c, (string_of_Z (Z.of_nat i), JStr [c])) s
  | _ => []
  end.

Inductive fill_mode := Fill | Append.

Definition preset_of (key : jstr) : TemplatePresetConfig := default operations_default (map_get TEMPLATE_PRESET_CONFIG key).

(** The rules of a template. *)
Definition template_rules (payload : object) : list json :=
  match fld payload "operations" with Some (JArr l) => l | _ => [] end.

Definition fill_legacy (value : json) (e : Editor) : Editor :=
  let text := json_stringify_2 value in
  let fallback := createDefaultOperation now (e_seed e) in
  with_seed fallback.2 (with_operations [fallback.1]
    (with_view {| v_editMode := EditVisual; v_visualMode := VisualLegacy; v_legacyValue := text;
                  v_jsonText := text; v_jsonError := [] |} e)).

Definition fillTemplate (mode : fill_mode) (e : Editor) : outcome Editor :=
  let preset := preset_of (e_preset e) in
  let payload := preset_payload preset in
  let v := e_view e in
  match preset_kind preset, mode, v_visualMode v with
  | KindLegacy, Append, VisualLegacy =>
      let trimmed := trim (v_legacyValue v) in
      if negb (nonempty trimmed) then Ret (fill_legacy (JObj payload) e)
      else match json_parse trimmed with
           | None => Ret e
           | Some parsedCurrent => Ret (fill_legacy (JObj (spread payload (spread_entries parsedCurrent))) e)
           end
  | KindLegacy, _, _ => Ret (fill_legacy (JObj payload) e)
  | KindOperations, Append, _ =>
      r ← map_seed (normalizeOperation now) (e_seed e) (template_rules payload);
      let existing := match v_visualMode v with
                      | VisualOperations => filterb (λ o, negb (isOperationBlank o)) (e_operations e)
                      | VisualLegacy => [] end in
      let nextOps := existing ++ r.1 in
      Ret (with_seed r.2 (with_selected (first_id nextOps) (with_operations nextOps
             (with_view {| v_editMode := EditVisual; v_visualMode := VisualOperations; v_legacyValue := [];
                           v_jsonText := []; v_jsonError := [] |} e))))
  | KindOperations, Fill, _ =>
      r ← rules_of_array (e_seed e) (template_rules payload);
      Ret (with_seed r.2 (with_selected (first_id r.1) (with_operations r.1
             (with_view {| v_editMode := EditVisual; v_visualMode := VisualOperations;
                           v_legacyValue := v_legacyValue v;
                           v_jsonText := json_stringify_2 (JObj [entry "operations" (JArr (template_rules payload))]);
                           v_jsonError := [] |} e))))
  end.

Definition resetEditorState (e : Editor) : Editor :=
  let fallback := createDefaultOperation now (e_seed e) in
  with_preset (js "operations_default") (with_seed fallback.2 (with_selected (o_id fallback.1)
    (with_operations [fallback.1]
      (with_view {| v_editMode := EditVisual; v_visualMode := VisualOperations; v_legacyValue := [];
                    v_jsonText := []; v_jsonError := [] |} e)))).

Definition setLegacyValue (text : jstr) (e : Editor) : Editor :=
  let v := e_view e in
  with_view {| v_editMode := v_editMode v; v_visualMode := v_visualMode v; v_legacyValue := text;
               v_jsonText := v_jsonText v; v_jsonError := v_jsonError v |} e.

Definition handleJsonChange (nextValue : jstr) (e : Editor) : Editor :=
  let trimmed := trim nextValue in
  with_view (set_text nextValue
    (if negb (nonempty trimmed) then [] else if verifyJSON trimmed then [] else t (js "JSON format error") None)
    (e_view e)) e.

Definition formatJson (e : Editor) : Editor :=
  let trimmed := trim (v_jsonText (e_view e)) in
  if negb (nonempty trimmed) then e
  else match json_parse trimmed with
       | None => e
       | Some v => with_view (set_text (json_stringify_2 v) [] (e_view e)) e
       end.

(** ** Saving *)

(** The text handed to [onSave], or the message shown instead. *)
Definition saved_text (e : Editor) : built :=
  match v_editMode (e_view e) with
  | EditJson =>
      let trimmed := trim (v_jsonText (e_view e)) in
      if negb (nonempty trimmed) then Built []
      else match json_parse trimmed with
           | None => Failed (t (js "Parameter override must be valid JSON format") None)
           | Some v => Built (json_stringify_2 v)
           end
  | EditVisual => buildVisualJson e
  end.

Definition handleSave (e : Editor) : Editor :=
  match saved_text e with
  | Built text => with_saved text e
  | Failed _ => e
  end.

(** ** The machine *)

Inductive event :=
  | Ev_open (value : jstr)
  | Ev_render                                   (* draws the identifier of an unused default rule *)
  | Ev_select (operationId : jstr)
  | Ev_update (operationId : jstr) (p : operation_patch)
  | Ev_add
  | Ev_duplicate (operationId : jstr) (ran : bool)
  | Ev_remove (operationId : jstr)
  | Ev_add_condition (operationId : jstr)
  | Ev_update_condition (operationId conditionId : jstr) (p : condition_patch)
  | Ev_remove_condition (operationId conditionId : jstr)
  | Ev_toggle_condition (conditionId : jstr) (expanded : bool)
  | Ev_set_all_conditions (expanded : bool)
  | Ev_return_error (operationId : jstr) (patch : ReturnErrorDraft → ReturnErrorDraft)
  | Ev_prune (operationId : jstr) (p : prune_patch)
  | Ev_add_prune_rule (operationId : jstr)
  | Ev_update_prune_rule (operationId ruleId : jstr) (patch : PruneRule → PruneRule)
  | Ev_remove_prune_rule (operationId ruleId : jstr)
  | Ev_drag_start (operationId : jstr)
  | Ev_drag_over (operationId : jstr) (pos : position)
  | Ev_drop (operationId transferred : jstr)
  | Ev_drag_end
  | Ev_json_mode
  | Ev_visual_mode
  | Ev_preset (key : jstr)
  | Ev_fill (mode : fill_mode)
  | Ev_reset
  | Ev_legacy (text : jstr)
  | Ev_json (text : jstr)
  | Ev_format
  | Ev_save.

Definition handle (e : Editor) (ev : event) : outcome Editor :=
  match ev with
  | Ev_open value => open_editor value e
  | Ev_render => Ret (with_seed (createDefaultOperation now (e_seed e)).2 e)
  | Ev_select id => Ret (with_selected id e)
  | Ev_update id p => Ret (updateOperation id p e)
  | Ev_add => Ret (addOperation e)
  | Ev_duplicate id ran => duplicateOperation id ran e
  | Ev_remove id => Ret (removeOperation id e)
  | Ev_add_condition id => Ret (addCondition id e)
  | Ev_update_condition id cid p => Ret (updateCondition id cid p e)
  | Ev_remove_condition id cid => Ret (removeCondition id cid e)
  | Ev_toggle_condition cid b => Ret (toggleCondition cid b e)
  | Ev_set_all_conditions b => Ret (setAllConditions b e)
  | Ev_return_error id patch => Ret (updateReturnErrorDraft id patch e)
  | Ev_prune id p => Ret (updatePruneObjectsDraft id (set_prune p) e)
  | Ev_add_prune_rule id => Ret (updatePruneObjectsDraft id addPruneRule e)
  | Ev_update_prune_rule id rid patch => Ret (updatePruneObjectsDraft id (updatePruneRule rid patch) e)
  | Ev_remove_prune_rule id rid => Ret (updatePruneObjectsDraft id (removePruneRule rid) e)
  | Ev_drag_start id => Ret (handleDragStart id e)
  | Ev_drag_over id pos => Ret (handleDragOver id pos e)
  | Ev_drop id transferred => Ret (handleDrop id transferred e)
  | Ev_drag_end => Ret (with_drag no_drag e)
  | Ev_json_mode => Ret (switchToJsonMode e)
  | Ev_visual_mode => switchToVisualMode e
  | Ev_preset key => Ret (with_preset key e)
  | Ev_fill mode => fillTemplate mode e
  | Ev_reset => Ret (resetEditorState e)
  | Ev_legacy text => Ret (setLegacyValue text e)
  | Ev_json text => Ret (handleJsonChange text e)
  | Ev_format => Ret (formatJson e)
  | Ev_save => Ret (handleSave e)
  end.

(** What the select boxes and the rows of the list offer. *)
Definition offered (e : Editor) (ev : event) : Prop :=
  match ev with
  | Ev_update _ (P_mode m) => has OPERATION_MODE_VALUES (js m) = true
  | Ev_update_condition _ _ (CP_mode m) => has CONDITION_MODE_VALUES (js m) = true
  | _ => True
  end.

Definition initial_editor : Editor :=
  let created := createDefaultOperation now 0 in
  keep_selection
    {| e_view := {| v_editMode := EditVisual; v_visualMode := VisualOperations; v_legacyValue := [];
                    v_jsonText := []; v_jsonError := [] |};
       e_operations := [created.1]; e_selected := []; e_expanded := []; e_drag := no_drag;
       e_preset := js "operations_default"; e_seed := created.2; e_saved := None |}.

(** A handler, then the effect. *)
Inductive step : Editor → event → Editor → Prop :=
  | step_handle e ev e' : offered e ev → handle e ev = Ret e' → step e ev (keep_selection e').

Inductive reachable : Editor → Prop :=
  | reach_initial : reachable initial_editor
  | reach_step e ev e' : reachable e → step e ev e' → reachable e'.
End editor.
