(* ===== verification/ParamOverrideEditorProps.v ===== *)
(** * The parameter override editor: properties

    Saved rules open again as the same rules; the values for which that
    fails; the invariants of the editor over every sequence of events; and the
    prune rules, which the editor cannot change. *)

From Stdlib Require Import String.
From S2P Require Import JsJson JsonText JsObject ParamOverride ParamOverrideProps ParamOverrideEditor.

#[local] Opaque js.

(** ** Opening what was saved *)

Section opening.
Context (now : Z → Z).

Lemma map_seed_conditions seed os :
  ∃ cs n, map_seed (normalizeCondition now) seed (map JObj os) = Ret (cs, n) ∧ conditions_from os cs.
Proof.
  revert seed; induction os as [|o os IH]; intros seed; cbn [map map_seed]; [exists [], seed; split; [done|apply Forall2_nil_2]|].
  cbn. destruct (IH (seed + 1)) as (cs & n & -> & Hcs). cbn. eexists _, _. split; [done|].
  apply Forall2_cons_2; [by eexists|done].
Qed.

(** A saved rule is normalised to its reopened form. *)
Lemma normalizeOperation_saved seed op :
  ∃ id cs n, normalizeOperation now seed (JObj (operation_payload op)) = Ret (reopened op id cs, n)
    ∧ conditions_from (saved_conditions op) cs.
Proof.
  unfold normalizeOperation. cbn [props_of mbind outcome_bind].
  rewrite (payload_prop op "conditions" (when (nonempty (saved_conditions op)) (Some (JArr (map JObj (saved_conditions op))))))
    by (unfold rule_fields; do 7 right; by left).
  destruct (saved_conditions op) as [|c cs] eqn:E.
  - cbn. eexists _, [], _. split; [done|]. apply Forall2_nil_2.
  - cbn [nonempty when]. destruct (map_seed_conditions (seed + 1) (c :: cs)) as (cs' & n & -> & Hcs).
    cbn [mbind outcome_bind fst snd]. by eexists _, _, _.
Qed.

Lemma map_seed_rules seed ops :
  ∃ ops' n, map_seed (normalizeOperation now) seed (map (λ o, JObj (operation_payload o)) ops) = Ret (ops', n)
    ∧ Forall2 (λ op op', ∃ id cs, op' = reopened op id cs ∧ conditions_from (saved_conditions op) cs) ops ops'.
Proof.
  revert seed; induction ops as [|o ops IH]; intros seed; cbn [map map_seed]; [exists [], seed; split; [done|apply Forall2_nil_2]|].
  destruct (normalizeOperation_saved seed o) as (id & cs & m & -> & Hcs). cbn [mbind outcome_bind fst snd].
  destruct (IH m) as (ops' & n & -> & Hops). cbn. eexists _, _. split; [done|].
  apply Forall2_cons_2; [eauto|done].
Qed.

(** The rules as saved text, opened. *)
Lemma parseInitialState_saved seed ops :
  ops ≠ [] → json_safe (operations_json ops) →
  ∃ st n, parseInitialState now seed (json_stringify_2 (operations_json ops)) = Ret (st, n)
    ∧ v_editMode (s_view st) = EditVisual ∧ v_visualMode (s_view st) = VisualOperations
    ∧ Forall2 (λ op op', ∃ id cs, op' = reopened op id cs ∧ conditions_from (saved_conditions op) cs)
        ops (s_operations st).
Proof.
  intros Hne Hs. unfold parseInitialState.
  assert (Ht : trim (json_stringify_2 (operations_json ops)) = json_stringify_2 (operations_json ops))
    by apply trim_no_edge, json_print_edges, Hs.
  rewrite Ht. pose proof (json_parse_stringify_2 _ Hs) as Hp.
  assert (Hn : nonempty (json_stringify_2 (operations_json ops)) = true).
  { apply nonempty_true. intros E. rewrite E, json_parse_nil in Hp. done. }
  rewrite Hn, Hp. cbn [negb]. unfold operations_json at 1. cbv zeta. look.
  destruct ops as [|o ops]; [done|]. unfold rules_of_array.
  destruct (map_seed_rules seed (o :: ops)) as (ops' & n & Heq & Hops).
  cbn [map] in *. rewrite Heq. cbn [mbind outcome_bind fst snd]. eexists _, _. by split.
Qed.
End opening.

(** A rule none of whose values is written as a quoted string. *)
Definition settled_rule (op : ParamOverrideOperation) : Prop :=
  settled (o_value_text op) ∧ Forall (λ c, settled (c_value_text c)) (o_conditions op).

Lemma rules_safe ops : json_safe (operations_json ops) → Forall (λ o, json_safe (JObj (operation_payload o))) ops.
Proof.
  intros Hs. apply Forall_forall. intros o Ho.
  apply (json_safe_elem (map (λ o, JObj (operation_payload o)) ops)); [|by apply list_elem_of_fmap; eauto].
  apply (json_safe_fld _ "operations" _ Hs). by look.
Qed.

(** C23. Rules survive saving and opening: where no value is written as a
    quoted string, the saved text opens in the visual editor with as many
    rules, and saving those again gives the same text. *)
Theorem saved_rules_reopen now t ops text seed :
  (∀ key line, t key line ≠ []) → Forall modes_known ops → Forall settled_rule ops →
  buildOperationsJson t ops true = Built text → text ≠ [] →
  json_safe (operations_json (filterb (λ o, negb (isOperationBlank o)) ops)) →
  ∃ st n, parseInitialState now seed text = Ret (st, n)
    ∧ v_editMode (s_view st) = EditVisual ∧ v_visualMode (s_view st) = VisualOperations
    ∧ length (s_operations st) = length (filterb (λ o, negb (isOperationBlank o)) ops)
    ∧ buildOperationsJson t (s_operations st) true = Built text.
Proof.
  intros Ht Hk Hset Hb Hne Hs. unfold buildOperationsJson in Hb.
  set (rules := filterb _ ops) in *.
  assert (Hrules : Forall (λ o, modes_known o ∧ settled_rule o) rules).
  { rewrite Forall_forall in Hk, Hset. apply Forall_forall. intros o [Ho _]%elem_of_filterb. auto. }
  assert (Hrne : rules ≠ []) by (intros E; rewrite E in Hb; injection Hb as <-; done).
  assert (Hval : Forall rule_valid rules ∧ text = json_stringify_2 (operations_json rules)).
  { destruct rules as [|r rs] eqn:E; [done|]. destruct (nonempty (validateOperations t (r :: rs))) eqn:Hv; [done|].
    cbn [andb] in Hb. injection Hb as <-. split; [|done]. apply (validate_from_nil t Ht 1).
    unfold validateOperations in Hv. by destruct (validate_from _ _ _). }
  destruct Hval as [Hval ->]. pose proof (rules_safe rules Hs) as Hsafe. clear Hb Hne.
  destruct (parseInitialState_saved now seed rules Hrne Hs) as (st & n & Hp & Hem & Hvm & Hops).
  exists st, n. split; [done|]. split; [done|]. split; [done|]. split; [by rewrite (Forall2_length _ _ _ Hops)|].
  assert (Hall : Forall rule_valid (s_operations st)
    ∧ map (λ o, JObj (operation_payload o)) (s_operations st) = map (λ o, JObj (operation_payload o)) rules).
  { clear Hp Hs Hrne Hk Hset. clearbody rules. induction Hops as [|o o' os os' (id & cs & -> & Hcs) _ IH]; [done|].
    apply Forall_cons in Hrules as [[[Hm Hcm] [Hv Hcv]] Hrules].
    apply Forall_cons in Hval as [Hvo Hval]. apply Forall_cons in Hsafe as [Hso Hsafe].
    destruct (IH Hrules Hval Hsafe) as [IH1 IH2].
    assert (Hcok : Forall condition_ok (o_conditions o)).
    { rewrite Forall_forall in Hcm, Hcv |- *. intros c Hc. split; auto. }
    split; [apply Forall_cons_2; [by apply reopened_valid|done]|]. cbn [map].
    by rewrite reopened_payload, IH2. }
  destruct Hall as [Hv' Hmap]. unfold buildOperationsJson.
  rewrite (filterb_id (λ o, negb (isOperationBlank o)) (s_operations st)).
  2:{ eapply Forall_impl; [exact Hv'|]. intros o Ho. by rewrite valid_not_blank. }
  apply Forall2_length in Hops. destruct (s_operations st) as [|o' os']; [by destruct rules|].
  rewrite (proj2 (validate_from_nil t Ht 1 _) Hv' : validateOperations t (o' :: os') = []). cbn [nonempty andb].
  unfold operations_json. by rewrite Hmap.
Qed.

Lemma saved_rules_reopen_witness :
  ∃ text st n, buildOperationsJson plain_t [sample_rule] true = Built text
    ∧ parseInitialState (λ _, 0) 3 text = Ret (st, n)
    ∧ buildOperationsJson plain_t (s_operations st) true = Built text.
Proof.
  destruct (buildOperationsJson plain_t [sample_rule] true) as [text|] eqn:E; [|by vm_compute in E].
  assert (Hne : text ≠ []) by (intros ->; by vm_compute in E).
  assert (Hk : Forall modes_known [sample_rule]).
  { apply Forall_cons_2; [|apply Forall_nil_2]. split; [by_eval|]. apply Forall_cons_2; [by_eval|apply Forall_nil_2]. }
  assert (Hset : Forall settled_rule [sample_rule]).
  { apply Forall_cons_2; [|apply Forall_nil_2]. split; [by apply (bool_decide_unpack _); by_eval|].
    apply Forall_cons_2; [by apply (bool_decide_unpack _); by_eval|apply Forall_nil_2]. }
  destruct (saved_rules_reopen (λ _, 0) plain_t [sample_rule] text 3 ltac:(done) Hk Hset E Hne) as (st & n & Hp & _ & _ & _ & Hb).
  { apply json_safeb_ok. by_eval. }
  exists text, st, n. auto.
Defined.

(** ** Values written as quoted strings *)

(** A rule with its value replaced. *)
Definition with_value (s : jstr) (op : ParamOverrideOperation) : ParamOverrideOperation :=
  with_value_text s op.

(** A string that reads as JSON does not survive: typed as a quoted
    string it is saved as that string, but the editor opens it without the
    quotes, so saving the untouched rule again stores the number, boolean,
    object or null it reads as; copying the rule does the same at once. *)
Theorem quoted_value_changes now op s v seed :
  m_value (meta_of (mode_or_set op)) = true → has OPERATION_MODE_VALUES (o_mode op) = true →
  Forall code_unit s → trim s = s → json_parse s = Some v →
  let saved := operation_payload (with_value (json_quote s) op) in
  fld saved "value" = Some (JStr s)
  ∧ ∃ op' n, normalizeOperation now seed (JObj saved) = Ret (op', n)
    ∧ fld (operation_payload op') "value" = Some v
  ∧ ∃ copy m, normalizeOperation now seed (copy_of_operation (with_value (json_quote s) op)) = Ret (copy, m)
    ∧ fld (operation_payload copy) "value" = Some v.
Proof.
  intros Hm Hmode Hs Htrim Hp saved. set (q := with_value (json_quote s) op) in *.
  assert (Hq : mode_or_set q = mode_or_set op) by done.
  assert (Hqm : has OPERATION_MODE_VALUES (o_mode q) = true) by done.
  assert (Hread : parseLooseValue (json_quote s) = JStr s).
  { apply parseLooseValue_json; [|by apply json_parse_quote]. apply trim_fixed_iff, json_quote_edges. }
  assert (Hplain : parseLooseValue s = v) by by apply parseLooseValue_json.
  assert (Hval : ∀ o, m_value (rule_meta o) = true →
    fld (operation_payload o) "value" = Some (parseLooseValue (o_value_text o))).
  { intros o Ho. rewrite (payload_prop o "value" (when (m_value (rule_meta o)) (Some (parseLooseValue (o_value_text o)))));
      [by rewrite Ho|]. unfold rule_fields. do 3 right. by left. }
  assert (Hqv : m_value (rule_meta q) = true) by done.
  split; [unfold saved; rewrite Hval by done; by f_equal|].
  destruct (normalizeOperation_saved now seed q) as (id & cs & n & Hn & _). exists (reopened q id cs), n.
  split; [exact Hn|]. split.
  - rewrite Hval by by rewrite reopened_meta. rewrite reopened_value, Hqv by done. cbn [when].
    change (o_value_text q) with (json_quote s). rewrite Hread. cbn [toValueText]. by rewrite Hplain.
  - unfold normalizeOperation, copy_of_operation. cbn [props_of mbind outcome_bind]. look.
    set (cps := map _ (o_conditions q)).
    assert (Hc : ∃ cs m, map_seed (normalizeCondition now) (seed + 1) cps = Ret (cs, m)).
    { unfold cps. generalize (seed + 1), (o_conditions q). clear. intros i l. revert i.
      induction l as [|c l IH]; intros i; cbn [map map_seed]; [by eexists _, _|]. cbn [normalizeCondition props_of mbind outcome_bind fst snd].
      destruct (IH (i + 1)) as (cs & m & ->). by eexists _, _. }
    destruct Hc as (cs' & m & Hc). rewrite Hc. cbn [mbind outcome_bind fst snd]. eexists _, _. split; [done|].
    set (copy := operation_of _ _ _).
    assert (Hcm : o_mode copy = o_mode q).
    { unfold copy. cbn [operation_of o_mode]. apply mode_prop_known; [by look|done]. }
    assert (Hcv : o_value_text copy = s).
    { unfold copy. cbn [operation_of o_value_text]. look. change (o_value_text q) with (json_quote s). by rewrite Hread. }
    rewrite Hval, Hcv, Hplain; [done|]. unfold rule_meta, mode_or_set. by rewrite Hcm.
Qed.

Lemma quoted_value_changes_witness :
  let op := operation_of (js "po_1") [entry "path" (str "user")] [] in
  fld (operation_payload (with_value (json_quote (js "12")) op)) "value" = Some (str "12")
  ∧ ∃ op' n, normalizeOperation (λ _, 0) 5 (JObj (operation_payload (with_value (json_quote (js "12")) op))) = Ret (op', n)
    ∧ fld (operation_payload op') "value" = Some (num 12).
Proof.
  intros op.
  destruct (quoted_value_changes (λ _, 0) op (js "12") (num 12) 5) as [H1 (op' & n & H2 & H3 & _)].
  - by_eval.
  - by_eval.
  - apply (bool_decide_unpack _). by_eval.
  - by_eval.
  - by_eval.
  - split; [exact H1|]. exists op', n. split; [exact H2|exact H3].
Defined.

(** ** Texts the dialog cannot open *)

(** A rule that is [null] or has a [null] condition. *)
Definition null_rule (v : json) : Prop :=
  v = JNull ∨ ∃ o cs, v = JObj o ∧ fld o "conditions" = Some (JArr cs) ∧ JNull ∈ cs.

Lemma map_seed_throws {A B} (f : Z → A → outcome (B * Z)) (bad : A → Prop) s l :
  (∀ s x, f s x = Throw ↔ bad x) → map_seed f s l = Throw ↔ ∃ x, x ∈ l ∧ bad x.
Proof.
  intros Hf. revert s; induction l as [|x l IH]; intros s; cbn [map_seed].
  - split; [done|]. by intros (x & Hx%elem_of_nil & _).
  - destruct (f s x) as [[y n]|] eqn:E; cbn [mbind outcome_bind fst snd].
    + assert (Hok : ¬ bad x) by (rewrite <- (Hf s x); by rewrite E).
      specialize (IH n). destruct (map_seed f n l) as [r|]; cbn [mbind outcome_bind].
      * split; [done|]. intros (z & [->|Hz]%elem_of_cons & Hb); [done|]. exfalso.
        assert (Ret r = Throw) by (apply IH; eauto). done.
      * split; [|done]. intros _. destruct (proj1 IH eq_refl) as (z & Hz & Hb). exists z. split; [by right|done].
    + split; [|done]. intros _. exists x. split; [by left|by apply (Hf s)].
Qed.

Lemma normalizeOperation_throws now s v : normalizeOperation now s v = Throw ↔ null_rule v.
Proof.
  assert (Hc : ∀ l i, map_seed (normalizeCondition now) i l = Throw ↔ JNull ∈ l).
  { intros l i. rewrite (map_seed_throws _ (λ x, x = JNull)); [|intros k []; cbn; split; try done; by intros]. naive_solver. }
  unfold null_rule, normalizeOperation.
  destruct v; cbn [props_of mbind outcome_bind]; try (split; [done|intros [?|(o & cs & ? & _)]; done]).
  - split; [by left|done].
  - destruct (fld o "conditions") as [[]|] eqn:E; cbn [mbind outcome_bind];
      try (split; [done|intros [?|(o' & cs & [= ->] & H & _)]; congruence]).
    specialize (Hc l (s + 1)). destruct (map_seed _ _ _) as [[cs n]|]; cbn [mbind outcome_bind].
    + split; [done|]. intros [?|(o' & cs' & [= ->] & H & Hin)]; [done|].
      assert (cs' = l) as -> by congruence. by apply Hc in Hin.
    + split; [|done]. intros _. right. exists o, l. split; [done|]. split; [done|]. by apply Hc.
Qed.

(** Opening throws exactly for texts whose list of rules holds [null] as
    a rule or as a condition; whatever else is stored, the dialog opens. *)
Theorem opening_throws_iff now value e :
  open_editor now value e = Throw ↔
  ∃ o l v, json_parse (trim value) = Some (JObj o) ∧ fld o "operations" = Some (JArr l) ∧ v ∈ l ∧ null_rule v.
Proof.
  unfold open_editor, parseInitialState.
  destruct (nonempty (trim value)) eqn:Hne; cbn [negb].
  2:{ assert (E : trim value = []) by by destruct (trim value). rewrite E, json_parse_nil. split; [done|]. by intros (o & l & v & H & _). }
  destruct (json_parse (trim value)) as [[]|] eqn:Hp; cbn [mbind outcome_bind];
    try (split; [done|by intros (o' & l' & v & H & _)]).
  destruct (fld o "operations") as [[]|] eqn:Ef; cbn [mbind outcome_bind];
    try (split; [done|by intros (o' & l' & v & [= ->] & H & _); congruence]).
  assert (Hr : rules_of_array now (e_seed e) l = Throw ↔ ∃ x, x ∈ l ∧ null_rule x).
  { destruct l as [|y l]; [split; [done|by intros (x & Hx%elem_of_nil & _)]|].
    apply map_seed_throws. intros. apply normalizeOperation_throws. }
  destruct (rules_of_array now (e_seed e) l) as [[ops n]|]; cbn [mbind outcome_bind].
  - split; [done|]. intros (o' & l' & v & [= ->] & H & Hin & Hv). assert (l' = l) as -> by congruence.
    exfalso. assert (Ret (ops, n) = Throw) by (apply Hr; eauto). done.
  - split; [|done]. intros _. destruct (proj1 Hr eq_refl) as (v & Hin & Hv). by exists o, l, v.
Qed.
