(* ===== verification/ParamOverrideEditorInv.v ===== *)
(** * The parameter override editor: refinement and invariants

    An abstract editor of a list of rules with unique identifiers, the proof
    that every step of the dialog is a step of it with the label of its event,
    the invariant that follows for every reachable state, and the prune rules,
    which the dialog cannot change. *)

From Stdlib Require Import String.
From S2P Require Import JsJson JsonText JsObject ParamOverride ParamOverrideProps ParamOverrideEditor.

#[local] Opaque js.

(** ** The abstract editor *)

(** What an edit of one rule changes. *)
Inductive change :=
| Set_attribute (p : operation_patch)
| Set_value (f : jstr → jstr)
| New_condition
| Set_condition (conditionId : jstr) (p : condition_patch)
| Drop_condition (conditionId : jstr).

(** What an event does to the rules. [Load] and [Extend] carry the values the
    new rules are read from. *)
Inductive action :=
| Observe
| Load (l : list json)
| Extend (l : list json)
| Append_new
| Copy (id : jstr)
| Edit (id : jstr) (ch : change)
| Delete (id : jstr)
| Move (source target : jstr) (pos : position).

(** What a rule and a condition hold apart from their identifiers. *)
Definition attributes (o : ParamOverrideOperation) :=
  (o_description o, o_path o, o_mode o, o_from o, o_to o, o_value_text o, o_keep_origin o, o_logic o).
Definition c_attributes (c : ParamOverrideCondition) :=
  (c_path c, c_mode c, c_value_text c, c_invert c, c_pass_missing_key c).

(** The attributes with one of them replaced. *)
Definition replaced (p : operation_patch) (o : ParamOverrideOperation) :=
  let '(description, path, mode, from, to, value, keep, logic) := attributes o in
  match p with
  | P_description x => (x, path, mode, from, to, value, keep, logic)
  | P_path x => (description, x, mode, from, to, value, keep, logic)
  | P_mode x => (description, path, js x, from, to, value, keep, logic)
  | P_from x => (description, path, mode, x, to, value, keep, logic)
  | P_to x => (description, path, mode, from, x, value, keep, logic)
  | P_value_text x => (description, path, mode, from, to, x, keep, logic)
  | P_keep_origin x => (description, path, mode, from, to, value, x, logic)
  | P_logic x => (description, path, mode, from, to, value, keep, if x then js "AND" else js "OR")
  end.

Definition c_replaced (p : condition_patch) (c : ParamOverrideCondition) :=
  let '(path, mode, value, invert, missing) := c_attributes c in
  match p with
  | CP_path x => (x, mode, value, invert, missing)
  | CP_mode x => (path, js x, value, invert, missing)
  | CP_value_text x => (path, mode, x, invert, missing)
  | CP_invert x => (path, mode, value, x, missing)
  | CP_pass_missing_key x => (path, mode, value, invert, x)
  end.

(** A new rule, a new condition. *)
Definition default_rule (o : ParamOverrideOperation) : Prop :=
  attributes o = ([], [], js "set", [], [], [], false, js "OR") ∧ o_conditions o = [].
Definition default_condition (c : ParamOverrideCondition) : Prop :=
  c_attributes c = ([], js "full", [], false, false).

(** A value text, read and printed. *)
Definition reprinted (text : jstr) : jstr := toValueText (Some (parseLooseValue text)).

(** A copy holds what its original does, its values reprinted. *)
Definition copied (o o' : ParamOverrideOperation) : Prop :=
  attributes o' = replaced (P_value_text (reprinted (o_value_text o))) o
  ∧ Forall2 (λ c c', c_attributes c' = c_replaced (CP_value_text (reprinted (c_value_text c))) c) (o_conditions o) (o_conditions o').

(** An edit changes what it names and nothing else of a rule. *)
Definition changed (ch : change) (o o' : ParamOverrideOperation) : Prop :=
  match ch with
  | Set_attribute p => attributes o' = replaced p o ∧ o_conditions o' = o_conditions o
  | Set_value f => attributes o' = replaced (P_value_text (f (o_value_text o))) o ∧ o_conditions o' = o_conditions o
  | New_condition => attributes o' = attributes o ∧ ∃ c, default_condition c ∧ o_conditions o' = o_conditions o ++ [c]
  | Set_condition cid p =>
      attributes o' = attributes o
      ∧ Forall2 (λ c c', c_id c' = c_id c ∧ c_attributes c' = if bool_decide (c_id c = cid) then c_replaced p c else c_attributes c)
          (o_conditions o) (o_conditions o')
  | Drop_condition cid =>
      attributes o' = attributes o ∧ o_conditions o' = filterb (λ c, negb (bool_decide (c_id c = cid))) (o_conditions o)
  end.

Definition op_ids (o : ParamOverrideOperation) : list jstr := o_id o :: map c_id (o_conditions o).
Definition all_ids (ops : list ParamOverrideOperation) : list jstr := concat (map op_ids ops).

(** The modes and the conjunction of a rule are ones the dialog offers. *)
Definition rule_ok (o : ParamOverrideOperation) : Prop :=
  modes_known o ∧ (o_logic o = js "AND" ∨ o_logic o = js "OR").

Section editor.
Context (now : Z → Z).

(** Drawn between two values of the counter. *)
Definition fresh (s s' : Z) (x : jstr) : Prop := ∃ i, s ≤ i < s' ∧ x = nextLocalId now i.

Definition drawn (s s' : Z) (l : list jstr) : Prop := NoDup l ∧ Forall (fresh s s') l.

(** The rule read from a value. *)
Definition reads (v : json) (o : ParamOverrideOperation) : Prop := ∃ n m, normalizeOperation now n v = Ret (o, m).

(** Nothing is there that the action could change. *)
Definition nothing_to_do (a : action) (ops : list ParamOverrideOperation) : Prop :=
  match a with
  | Copy id | Edit id _ => id ∉ ids ops
  | Delete id => (id ∉ ids ops) ∧ (2 <= length ops)%nat
  | Move source target _ => ¬ (source ≠ [] ∧ target ≠ [] ∧ source ≠ target ∧ source ∈ ids ops ∧ target ∈ ids ops)
  | _ => False
  end.

(** One step of the abstract editor, the counter going from [s] to [s']. *)
Inductive rule_step (s s' : Z) : action → list ParamOverrideOperation → list ParamOverrideOperation → Prop :=
  | rs_observe ops : rule_step s s' Observe ops ops
  | rs_nothing a ops : nothing_to_do a ops → rule_step s s' a ops ops
  | rs_default ops o : default_rule o → drawn s s' (op_ids o) → rule_step s s' (Load []) ops [o]
  | rs_load ops l new :
      l ≠ [] → Forall2 reads l new → drawn s s' (all_ids new) → rule_step s s' (Load l) ops new
  | rs_extend ops l new :
      l ≠ [] → Forall2 reads l new → drawn s s' (all_ids new) →
      rule_step s s' (Extend l) ops (filterb (λ o, negb (isOperationBlank o)) ops ++ new)
  | rs_append ops o : default_rule o → drawn s s' (op_ids o) → rule_step s s' Append_new ops (ops ++ [o])
  | rs_copy l1 o o' l2 :
      copied o o' → drawn s s' (op_ids o') → rule_step s s' (Copy (o_id o)) (l1 ++ o :: l2) (l1 ++ o :: o' :: l2)
  | rs_edit ch l1 o o' l2 :
      changed ch o o' → o_id o' = o_id o → rule_ok o' → NoDup (op_ids o') →
      (∀ x, x ∈ op_ids o' → x ∈ op_ids o ∨ fresh s s' x) →
      rule_step s s' (Edit (o_id o) ch) (l1 ++ o :: l2) (l1 ++ o' :: l2)
  | rs_delete l1 o l2 :
      l1 ++ l2 ≠ [] → rule_step s s' (Delete (o_id o)) (l1 ++ o :: l2) (l1 ++ l2)
  | rs_clear id o o' :
      default_rule o' → drawn s s' (op_ids o') → rule_step s s' (Delete id) [o] [o']
  | rs_move_before l1 o l2 m1 target m2 :
      l1 ++ l2 = m1 ++ target :: m2 →
      rule_step s s' (Move (o_id o) (o_id target) Before) (l1 ++ o :: l2) (m1 ++ o :: target :: m2)
  | rs_move_after l1 o l2 m1 target m2 :
      l1 ++ l2 = m1 ++ target :: m2 →
      rule_step s s' (Move (o_id o) (o_id target) After) (l1 ++ o :: l2) (m1 ++ target :: o :: m2).

(** The invariant of the abstract editor. *)
Record rules_inv (s : Z) (ops : list ParamOverrideOperation) : Prop := {
  inv_seed : 0 ≤ s;
  inv_some : ops ≠ [];
  inv_unique : NoDup (all_ids ops);
  inv_drawn : Forall (fresh 0 s) (all_ids ops);
  inv_rules : Forall rule_ok ops;
}.

Lemma fresh_weaken s1 s1' s2 s2' x : s2 ≤ s1 → s1' ≤ s2' → fresh s1 s1' x → fresh s2 s2' x.
Proof. intros H1 H2 (i & Hi & ->). exists i. split; [lia|done]. Qed.

(** What is drawn later differs. *)
Lemma fresh_disjoint s1 s2 s3 x : 0 ≤ s1 → fresh s1 s2 x → fresh s2 s3 x → False.
Proof. intros H (i & Hi & ->) (j & Hj & E). apply nextLocalId_inj in E; lia. Qed.

Lemma all_ids_app l1 l2 : all_ids (l1 ++ l2) = all_ids l1 ++ all_ids l2.
Proof. unfold all_ids. by rewrite map_app, concat_app. Qed.

Lemma all_ids_cons o l : all_ids (o :: l) = op_ids o ++ all_ids l.
Proof. done. Qed.

Lemma all_ids_perm l1 l2 : l1 ≡ₚ l2 → all_ids l1 ≡ₚ all_ids l2.
Proof.
  induction 1; [done|rewrite !all_ids_cons; by f_equiv| |by etrans].
  rewrite !all_ids_cons, !(assoc_L (++)). f_equiv. apply Permutation_app_comm.
Qed.

Lemma all_ids_sublist l1 l2 : l1 `sublist_of` l2 → all_ids l1 `sublist_of` all_ids l2.
Proof.
  induction 1; [done|rewrite !all_ids_cons; by apply sublist_app|].
  rewrite all_ids_cons. by apply sublist_inserts_l.
Qed.

Lemma NoDup_sublist {A} (l1 l2 : list A) : l1 `sublist_of` l2 → NoDup l2 → NoDup l1.
Proof.
  induction 1 as [|x l1 l2 Hs IH|x l1 l2 Hs IH]; [done| |]; rewrite NoDup_cons; intros [Hx Hn]; auto.
  apply NoDup_cons. split; [|auto]. intros Hin. apply Hx. by eapply elem_of_submseteq, sublist_submseteq.
Qed.

Lemma Forall_sublist {A} (P : A → Prop) l1 l2 : l1 `sublist_of` l2 → Forall P l2 → Forall P l1.
Proof. rewrite !Forall_forall. intros Hs H x Hx. apply H. by eapply elem_of_submseteq, sublist_submseteq. Qed.

(** The rules kept and identifiers drawn since stay distinct. *)
Lemma inv_join s s' l new :
  0 ≤ s ≤ s' → NoDup l → Forall (fresh 0 s) l → drawn s s' new → NoDup (l ++ new) ∧ Forall (fresh 0 s') (l ++ new).
Proof.
  intros Hs Hl Hf [Hn Hd]. rewrite Forall_forall in Hf, Hd. split.
  - apply NoDup_app. split; [done|]. split; [|done]. intros x Hx Hx'.
    apply (fresh_disjoint 0 s s' x); [lia|by apply Hf|by apply Hd].
  - apply Forall_forall. intros x [Hx|Hx]%elem_of_app.
    + eapply fresh_weaken; [| |by apply Hf]; lia.
    + eapply fresh_weaken; [| |by apply Hd]; lia.
Qed.

(** A part replaced by identifiers of its own or drawn since. *)
Lemma inv_replace s s' l old new :
  0 ≤ s ≤ s' → NoDup (l ++ old) → Forall (fresh 0 s) (l ++ old) →
  NoDup new → (∀ x, x ∈ new → x ∈ old ∨ fresh s s' x) → NoDup (l ++ new) ∧ Forall (fresh 0 s') (l ++ new).
Proof.
  intros Hs Hl Hf Hn Hd. apply NoDup_app in Hl as (Hl & Hdis & _). apply Forall_app in Hf as [Hf Hf'].
  rewrite Forall_forall in Hf, Hf'. split.
  - apply NoDup_app. split; [done|]. split; [|done]. intros x Hx [Ho|Hx']%Hd; [by eapply Hdis|].
    apply (fresh_disjoint 0 s s' x); [lia|by apply Hf|done].
  - apply Forall_forall. intros x [Hx|[Ho|Hx]%Hd]%elem_of_app.
    + eapply fresh_weaken; [| |by apply Hf]; lia.
    + eapply fresh_weaken; [| |by apply Hf']; lia.
    + eapply fresh_weaken; [| |done]; lia.
Qed.

Lemma middle_perm l1 o l2 : all_ids (l1 ++ o :: l2) ≡ₚ all_ids (l1 ++ l2) ++ op_ids o.
Proof.
  rewrite !all_ids_app, all_ids_cons, <- (assoc_L (++)). f_equiv. apply Permutation_app_comm.
Qed.

(** The invariant holds of the rules when it holds up to their order. *)
Lemma rules_inv_perm s ops l :
  0 ≤ s → ops ≠ [] → Forall rule_ok ops → all_ids ops ≡ₚ l → NoDup l ∧ Forall (fresh 0 s) l → rules_inv s ops.
Proof. intros Hs Hne Hok Hp [Hn Hf]. split; try done; by rewrite Hp. Qed.

Lemma filterb_sublist {A} (p : A → bool) l : filterb p l `sublist_of` l.
Proof.
  unfold filterb. induction l as [|x l IH]; [done|]. cbn. destruct (p x); [by apply sublist_skip|by apply sublist_cons].
Qed.


(** *** Rules the dialog can show *)

Lemma mode_prop_has modes fallback o : has modes (js fallback) = true → has modes (mode_prop modes fallback o) = true.
Proof. intros H. unfold mode_prop. destruct (fld o "mode") as [[]|]; try done. by destruct (has modes s) eqn:E. Qed.

Lemma condition_of_known id o : has CONDITION_MODE_VALUES (c_mode (condition_of id o)) = true.
Proof. apply mode_prop_has. by_eval. Qed.

Lemma operation_of_ok id o cs :
  Forall (λ c, has CONDITION_MODE_VALUES (c_mode c) = true) cs → rule_ok (operation_of id o cs).
Proof.
  intros H. split; [split; [|done]|].
  - apply mode_prop_has. by_eval.
  - cbn [o_logic operation_of]. case_bool_decide; auto.
Qed.

(** Elements computed one after the other. *)
Lemma map_seed_each {A B} (f : Z → A → outcome (B * Z)) (P : A → B → Prop) l s ys n :
  (∀ s x y n, f s x = Ret (y, n) → P x y) → map_seed f s l = Ret (ys, n) → Forall2 P l ys.
Proof.
  intros Hf. revert s ys n; induction l as [|x l IH]; intros s ys n; cbn [map_seed]; [by intros [= <- <-]|].
  destruct (f s x) as [[y m]|] eqn:Ef; [|done]. cbn [mbind outcome_bind fst snd].
  destruct (map_seed f m l) as [[ys' n']|] eqn:El; [|done]. cbn [mbind outcome_bind fst snd]. intros [= <- <-].
  constructor; [by eapply Hf|by eapply IH].
Qed.

Lemma normalizeCondition_known s v c n : normalizeCondition now s v = Ret (c, n) → has CONDITION_MODE_VALUES (c_mode c) = true.
Proof.
  unfold normalizeCondition. destruct (props_of v); [|done]. cbn [mbind outcome_bind]. intros [= <- <-]. apply condition_of_known.
Qed.

Lemma Forall2_right {A B} (P : B → Prop) (l : list A) (k : list B) : Forall2 (λ _ y, P y) l k → Forall P k.
Proof. induction 1; by constructor. Qed.

Lemma reads_ok v o : reads v o → rule_ok o.
Proof.
  intros (n & m & H). unfold normalizeOperation in H. destruct (props_of v) as [p|]; [|done]. cbn [mbind outcome_bind] in H.
  destruct (match fld p "conditions" with Some (JArr _) => _ | _ => _ end) as [[cs k]|] eqn:Er in H; [|done].
  cbn [mbind outcome_bind fst snd] in H. injection H as <- _. apply operation_of_ok.
  destruct (fld p "conditions") as [[]|]; try (injection Er as <- <-; constructor).
  eapply Forall2_right, map_seed_each; [|exact Er]. cbn. intros s x y n'. apply normalizeCondition_known.
Qed.

Lemma all_read_ok l new : Forall2 reads l new → Forall rule_ok new.
Proof. induction 1; constructor; [by eapply reads_ok|done]. Qed.

Lemma default_rule_ok o : default_rule o → rule_ok o.
Proof.
  intros [Ha Hc]. unfold attributes in Ha. injection Ha as _ _ Hm _ _ _ _ Hl. split; [|by right]. unfold modes_known.
  rewrite Hm, Hc. split; [by_eval|constructor].
Qed.

Lemma copied_ok o o' : rule_ok o → copied o o' → rule_ok o'.
Proof.
  intros [[Hm Hc] Hl] [Ha Hcs]. unfold replaced, attributes in Ha. injection Ha as _ _ Em _ _ _ _ El.
  unfold rule_ok, modes_known. rewrite Em, El. split; [split; [done|]|done].
  induction Hcs as [|c c' cs cs' E _ IH]; [constructor|]. apply Forall_cons in Hc as [Hc Hcs]. constructor; [|by apply IH].
  unfold c_replaced, c_attributes in E. injection E as _ E _ _ _. by rewrite E.
Qed.

(** Rules of one's own and rules drawn since. *)
Lemma inv_extend s s' kept ops new :
  0 ≤ s ≤ s' → kept `sublist_of` ops → kept ++ new ≠ [] → Forall rule_ok new → drawn s s' (all_ids new) →
  rules_inv s ops → rules_inv s' (kept ++ new).
Proof.
  intros Hs Hk Hne Hnew Hd [_ _ Hn Hf Hok].
  apply (rules_inv_perm _ _ (all_ids kept ++ all_ids new)); [lia|done| |by rewrite all_ids_app|].
  - apply Forall_app. split; [by eapply Forall_sublist|done].
  - apply (inv_join s); [lia| | |done].
    + by eapply NoDup_sublist; [apply all_ids_sublist|].
    + by eapply Forall_sublist; [apply all_ids_sublist|].
Qed.

Lemma inv_insert s s' l1 o l2 :
  0 ≤ s ≤ s' → rule_ok o → drawn s s' (op_ids o) → rules_inv s (l1 ++ l2) → rules_inv s' (l1 ++ o :: l2).
Proof.
  intros Hs Ho Hd [_ _ Hn Hf Hok].
  apply (rules_inv_perm _ _ (all_ids (l1 ++ l2) ++ op_ids o)); [lia|by destruct l1| |apply middle_perm|].
  - apply Forall_app in Hok as [? ?]. apply Forall_app. split; [done|by constructor].
  - by apply (inv_join s); [lia|..].
Qed.

Lemma inv_later s s' ops : s ≤ s' → rules_inv s ops → rules_inv s' ops.
Proof. intros Hs [H0 ?? Hf ?]. split; try done; [lia|]. eapply Forall_impl; [exact Hf|]. intros x. apply fresh_weaken; lia. Qed.

Lemma inv_delete s l1 o l2 : l1 ++ l2 ≠ [] → rules_inv s (l1 ++ o :: l2) → rules_inv s (l1 ++ l2).
Proof.
  intros Hl [H0 _ Hn Hf Hok]. rewrite middle_perm in Hn, Hf.
  apply NoDup_app in Hn as (Hn & _ & _). apply Forall_app in Hf as [Hf _].
  apply Forall_app in Hok as [? Hok]. apply Forall_cons in Hok as [_ ?]. split; try done. by apply Forall_app.
Qed.

Lemma inv_move s ops ops' : ops' ≡ₚ ops → rules_inv s ops → rules_inv s ops'.
Proof.
  intros Hp [H0 Hne Hn Hf Hok]. split; [done| | | |].
  - intros ->. by apply Hne, Permutation_nil_r.
  - by rewrite (all_ids_perm _ _ Hp).
  - by rewrite (all_ids_perm _ _ Hp).
  - by rewrite Hp.
Qed.

Lemma new_rules s s' new : 0 ≤ s ≤ s' → new ≠ [] → Forall rule_ok new → drawn s s' (all_ids new) → rules_inv s' new.
Proof.
  intros Hs Hne Hok [Hn Hf]. split; [lia|done|done| |done]. eapply Forall_impl; [exact Hf|]. intros x. apply fresh_weaken; lia.
Qed.

Lemma drawn_single s s' o : drawn s s' (op_ids o) → drawn s s' (all_ids [o]).
Proof. by rewrite all_ids_cons, app_nil_r. Qed.

(** Every step of the abstract editor keeps its invariant. *)
Lemma rule_step_inv s s' a ops ops' :
  s ≤ s' → rule_step s s' a ops ops' → rules_inv s ops → rules_inv s' ops'.
Proof.
  intros Hs Hst Hinv. pose proof (inv_seed _ _ Hinv) as H0.
  destruct Hst as [ops|a ops _|ops o Ho Hd|ops l new Hl Hr Hd|ops l new Hl Hr Hd|ops o Ho Hd|l1 o o' l2 Hc Hd
                  |ch l1 o o' l2 _ Hid Ho Hno Hd|l1 o l2 Hl|id o o' Ho Hd|l1 o l2 m1 target m2 Hl|l1 o l2 m1 target m2 Hl].
  - by eapply inv_later.
  - by eapply inv_later.
  - apply (new_rules s); [lia|done|constructor; [by apply default_rule_ok|done]|by apply drawn_single].
  - apply (new_rules s); [lia|by destruct Hr|by eapply all_read_ok|done].
  - eapply inv_extend; [split; [exact H0|done]|apply filterb_sublist| |by eapply all_read_ok|exact Hd|exact Hinv].
    intros [_ ->]%app_nil. by inversion Hr; subst.
  - apply (inv_insert s s' ops o []); [lia|by apply default_rule_ok|done|by rewrite app_nil_r].
  - change (o :: o' :: l2) with ([o] ++ o' :: l2). rewrite app_assoc. apply (inv_insert s); [lia| |done|by rewrite <- app_assoc].
    destruct Hinv as [_ _ _ _ Hok]. apply Forall_app in Hok as [_ Hok]. apply Forall_cons in Hok as [Hok _]. by eapply copied_ok.
  - destruct Hinv as [_ _ Hn Hf Hok]. rewrite middle_perm in Hn, Hf.
    apply (rules_inv_perm _ _ (all_ids (l1 ++ l2) ++ op_ids o')); [lia|by destruct l1| |apply middle_perm|].
    + apply Forall_app in Hok as [? Hok]. apply Forall_cons in Hok as [_ ?]. apply Forall_app. split; [done|by constructor].
    + eapply (inv_replace s); [lia|exact Hn|exact Hf|done|done].
  - eapply inv_later; [exact Hs|]. by eapply inv_delete.
  - apply (new_rules s); [lia|done|constructor; [by apply default_rule_ok|done]|by apply drawn_single].
  - eapply inv_later; [exact Hs|]. eapply inv_move; [|exact Hinv].
    by rewrite <- !Permutation_middle, Hl, <- Permutation_middle.
  - eapply inv_later; [exact Hs|]. eapply inv_move; [|exact Hinv].
    by rewrite <- !Permutation_middle, Hl, <- Permutation_middle, Permutation_swap.
Qed.

(** ** What is drawn *)

Lemma drawn_nil s s' : drawn s s' [].
Proof. split; constructor. Qed.

Lemma drawn_one s : drawn s (s + 1) [nextLocalId now s].
Proof. split; [apply NoDup_singleton|]. constructor; [|done]. exists s. split; [lia|done]. Qed.

Lemma drawn_app s m n l1 l2 : 0 ≤ s ≤ m → m ≤ n → drawn s m l1 → drawn m n l2 → drawn s n (l1 ++ l2).
Proof.
  intros Hs Hm [H1 F1] [H2 F2]. rewrite Forall_forall in F1, F2. split.
  - apply NoDup_app. split; [done|]. split; [|done]. intros x Hx Hx'.
    apply (fresh_disjoint s m n x); [lia|by apply F1|by apply F2].
  - apply Forall_forall. intros x [Hx|Hx]%elem_of_app.
    + eapply fresh_weaken; [| |by apply F1]; lia.
    + eapply fresh_weaken; [| |by apply F2]; lia.
Qed.

Lemma concat_singletons {A B} (f : A → B) l : concat (map (λ x, [f x]) l) = map f l.
Proof. induction l as [|x l IH]; [done|]. cbn. by rewrite IH. Qed.

(** Elements that draw their identifiers one after the other. *)
Lemma map_seed_drawn {A B} (f : Z → A → outcome (B * Z)) (ids_of : B → list jstr) (P : B → Prop) l s ys n :
  (∀ s x y n, 0 ≤ s → f s x = Ret (y, n) → s ≤ n ∧ drawn s n (ids_of y) ∧ P y) →
  0 ≤ s → map_seed f s l = Ret (ys, n) →
  s ≤ n ∧ drawn s n (concat (map ids_of ys)) ∧ Forall P ys ∧ length ys = length l.
Proof.
  intros Hf. revert s ys n; induction l as [|x l IH]; intros s ys n Hs; cbn [map_seed].
  - intros [= <- <-]. split; [lia|]. split; [apply drawn_nil|]. by split.
  - destruct (f s x) as [[y m]|] eqn:Ef; [|done]. cbn [mbind outcome_bind fst snd].
    destruct (map_seed f m l) as [[ys' n']|] eqn:El; [|done]. cbn [mbind outcome_bind fst snd]. intros [= <- <-].
    destruct (Hf s x y m Hs Ef) as (Hm & Hd & Hy). destruct (IH m ys' n' ltac:(lia) El) as (Hn & Hd' & Hys & Hl).
    split; [lia|]. split; [|split; [by constructor|by cbn; rewrite Hl]].
    cbn [map concat]. apply (drawn_app s m n'); [lia|lia|done|done].
Qed.

Lemma normalizeCondition_drawn s v c n :
  0 ≤ s → normalizeCondition now s v = Ret (c, n) →
  s ≤ n ∧ drawn s n [c_id c] ∧ has CONDITION_MODE_VALUES (c_mode c) = true.
Proof.
  intros Hs. unfold normalizeCondition. destruct (props_of v); [|done]. cbn [mbind outcome_bind].
  intros [= <- <-]. split; [lia|]. split; [apply drawn_one|apply condition_of_known].
Qed.

Lemma normalizeOperation_drawn s v o n :
  0 ≤ s → normalizeOperation now s v = Ret (o, n) → s ≤ n ∧ drawn s n (op_ids o) ∧ rule_ok o.
Proof.
  intros Hs. unfold normalizeOperation. destruct (props_of v) as [p|]; [|done]. cbn [mbind outcome_bind].
  set (r := match fld p "conditions" with Some (JArr _) => _ | _ => _ end).
  destruct r as [[cs m]|] eqn:Er; [|done]. cbn [mbind outcome_bind fst snd]. intros [= <- <-].
  assert (H : s + 1 ≤ m ∧ drawn (s + 1) m (map c_id cs) ∧ Forall (λ c, has CONDITION_MODE_VALUES (c_mode c) = true) cs).
  { unfold r in Er. destruct (fld p "conditions") as [[]|]; try (injection Er as <- <-; split; [lia|]; by split; [apply drawn_nil|]).
    apply (map_seed_drawn _ (λ c, [c_id c]) (λ c, has CONDITION_MODE_VALUES (c_mode c) = true)) in Er
      as (H1 & H2 & H3 & _); [|intros; by eapply normalizeCondition_drawn|lia].
    split; [done|]. split; [|done]. by rewrite concat_singletons in H2. }
  destruct H as (H1 & H2 & H3). split; [lia|]. split; [|by apply operation_of_ok].
  apply (drawn_app s (s + 1) m [_]); [lia|done|apply drawn_one|done].
Qed.

Lemma createDefaultOperation_drawn s :
  let d := createDefaultOperation now s in d.2 = s + 1 ∧ drawn s d.2 (op_ids d.1) ∧ rule_ok d.1.
Proof. cbn. split; [done|]. split; [apply drawn_one|by apply operation_of_ok]. Qed.

Lemma default_rules_drawn s :
  let d := createDefaultOperation now s in drawn s d.2 (all_ids [d.1]) ∧ Forall rule_ok [d.1].
Proof.
  destruct (createDefaultOperation_drawn s) as (_ & Hd & Hok). cbn zeta in *.
  rewrite all_ids_cons, app_nil_r. split; [done|by constructor].
Qed.

Lemma normalized_rules_drawn s l ops n :
  0 ≤ s → map_seed (normalizeOperation now) s l = Ret (ops, n) →
  s ≤ n ∧ drawn s n (all_ids ops) ∧ Forall rule_ok ops ∧ length ops = length l.
Proof. apply (map_seed_drawn _ op_ids rule_ok). intros. by apply normalizeOperation_drawn with x. Qed.

Lemma rules_of_array_drawn s l ops n :
  0 ≤ s → rules_of_array now s l = Ret (ops, n) →
  s ≤ n ∧ ops ≠ [] ∧ drawn s n (all_ids ops) ∧ Forall rule_ok ops.
Proof.
  intros Hs. destruct l as [|v l]; cbn [rules_of_array].
  - intros [= <- <-]. destruct (default_rules_drawn s) as [Hd Hok]. split; [lia|]. by split.
  - intros (Hn & Hd & Hok & Hl)%normalized_rules_drawn; [|done]. split; [done|].
    split; [by destruct ops|]. by split.
Qed.

(** ** Editing one rule *)

Lemma ids_sublist ops : ids ops `sublist_of` all_ids ops.
Proof.
  induction ops as [|o ops IH]; [done|]. rewrite all_ids_cons. cbn. apply sublist_skip.
  by apply sublist_inserts_l.
Qed.

(** The rule of an identifier, if there is one, is the only one changed,
    taken out or missed. *)
Lemma rule_at id ops :
  NoDup (ids ops) →
  ((id ∉ ids ops) ∧ (∀ f, at_id id f ops = ops) ∧ (filterb (λ o, negb (has_id id o)) ops = ops))
  ∨ (∃ l1 o l2, ops = l1 ++ o :: l2 ∧ o_id o = id ∧ (id ∉ ids l1) ∧ (id ∉ ids l2)
      ∧ (∀ f, at_id id f ops = l1 ++ f o :: l2) ∧ (filterb (λ o, negb (has_id id o)) ops = l1 ++ l2)).
Proof.
  induction ops as [|o ops IH]; intros Hnd.
  - left. split; [apply not_elem_of_nil|done].
  - cbn in Hnd. apply NoDup_cons in Hnd as [Ho Hnd]. unfold at_id, filterb. cbn [map List.filter].
    destruct (has_id id o) eqn:E.
    + apply has_id_true in E. right. exists [], o, ops. subst id. split; [done|]. split; [done|].
      split; [apply not_elem_of_nil|]. split; [done|].
      destruct (IH Hnd) as [(_ & H1 & H2)|(l1 & o' & l2 & -> & Hid & _)].
      * cbn. split; [intros f; f_equal; apply H1|exact H2].
      * exfalso. apply Ho. unfold ids. rewrite map_app. cbn. rewrite Hid. apply elem_of_app. right. by left.
    + assert (Hne : o_id o ≠ id) by (intros H%has_id_true; by rewrite H in E).
      destruct (IH Hnd) as [(Hn & H1 & H2)|(l1 & o' & l2 & -> & Hid & Hl1 & Hl2 & H1 & H2)].
      * left. split; [by apply not_elem_of_cons|]. split; [intros f; f_equal; apply H1|]. cbn. f_equal. exact H2.
      * right. exists (o :: l1), o', l2. split; [done|]. split; [done|]. split; [by apply not_elem_of_cons|].
        split; [done|]. split; [intros f; cbn; f_equal; apply H1|]. cbn. f_equal. exact H2.
Qed.

(** An edit that keeps the identifier and the modes valid. *)
Definition good_edit (s s' : Z) (o o' : ParamOverrideOperation) : Prop :=
  o_id o' = o_id o ∧ rule_ok o' ∧ NoDup (op_ids o') ∧ ∀ x, x ∈ op_ids o' → x ∈ op_ids o ∨ fresh s s' x.

Lemma inv_ids s ops : rules_inv s ops → NoDup (ids ops).
Proof. intros [_ _ Hn _ _]. by eapply NoDup_sublist; [apply ids_sublist|]. Qed.

Lemma inv_rule s l1 o l2 : rules_inv s (l1 ++ o :: l2) → rule_ok o ∧ NoDup (op_ids o) ∧ Forall (fresh 0 s) (op_ids o).
Proof.
  intros [_ _ Hn Hf Hok]. rewrite middle_perm in Hn, Hf.
  apply NoDup_app in Hn as (_ & _ & ?). apply Forall_app in Hf as [_ ?].
  apply Forall_app in Hok as [_ Hok]. by apply Forall_cons in Hok as [? _].
Qed.

Lemma at_id_step s s' id ch f ops :
  rules_inv s ops → (∀ o, changed ch o (f o)) →
  (∀ o, o ∈ ops → rule_ok o → NoDup (op_ids o) → Forall (fresh 0 s) (op_ids o) → good_edit s s' o (f o)) →
  rule_step s s' (Edit id ch) ops (at_id id f ops).
Proof.
  intros Hinv Hch Hf. destruct (rule_at id ops (inv_ids s ops Hinv)) as [(Hn & H & _)|(l1 & o & l2 & -> & <- & _ & _ & H & _)].
  - rewrite H. by apply rs_nothing.
  - rewrite H. destruct (inv_rule _ _ _ _ Hinv) as (Ho & Hn & Hd).
    destruct (Hf o) as (H1 & H2 & H3 & H4); [apply elem_of_app; right; by left|done..|]. by apply rs_edit.
Qed.

(** What the edits of the dialog change. *)
Lemma patch_changes p o : changed (Set_attribute p) o (patch_operation p o).
Proof. by destruct p. Qed.

Lemma value_changes f o : changed (Set_value f) o (with_value_text (f (o_value_text o)) o).
Proof. done. Qed.

Lemma new_condition_changes s o : changed New_condition o (with_conditions (o_conditions o ++ [(createDefaultCondition now s).1]) o).
Proof. split; [done|]. exists (createDefaultCondition now s).1. split; [by_eval|done]. Qed.

Lemma patched_conditions_change cid p o :
  changed (Set_condition cid p) o
    (with_conditions (map (λ c, if bool_decide (c_id c = cid) then patch_condition p c else c) (o_conditions o)) o).
Proof.
  split; [done|]. cbn [o_conditions with_conditions]. induction (o_conditions o) as [|c cs IH]; [constructor|].
  cbn [map]. constructor; [|exact IH]. case_bool_decide; [|done]. by destruct p.
Qed.

Lemma dropped_condition_changes cid o :
  changed (Drop_condition cid) o (with_conditions (filterb (λ c, negb (bool_decide (c_id c = cid))) (o_conditions o)) o).
Proof. done. Qed.

(** An edit that leaves the conditions alone. *)
Lemma same_conditions_edit s s' o o' :
  rule_ok o → NoDup (op_ids o) → o_id o' = o_id o → o_conditions o' = o_conditions o →
  has OPERATION_MODE_VALUES (o_mode o') = true → (o_logic o' = js "AND" ∨ o_logic o' = js "OR") → good_edit s s' o o'.
Proof.
  intros [[_ Hc] _] Hn Hid Hcs Hm Hl. unfold good_edit, rule_ok, modes_known, op_ids. rewrite Hid, Hcs. auto 10.
Qed.

(** An edit of the conditions. *)
Lemma conditions_edit s s' o cs :
  rule_ok o → Forall (λ c, has CONDITION_MODE_VALUES (c_mode c) = true) cs → NoDup (o_id o :: map c_id cs) →
  (∀ x, x ∈ map c_id cs → x ∈ op_ids o ∨ fresh s s' x) → good_edit s s' o (with_conditions cs o).
Proof.
  intros [[Hm _] Hl] Hc Hn Hx. unfold good_edit. split; [done|]. split; [by split|]. split; [done|].
  unfold op_ids at 1. cbn [o_id o_conditions with_conditions]. intros x [->|H]%elem_of_cons; [left; by left|auto].
Qed.

(** A later counter allows whatever an earlier one did. *)
Lemma add_condition_edit s o :
  0 ≤ s → rule_ok o → NoDup (op_ids o) → Forall (fresh 0 s) (op_ids o) →
  good_edit s (s + 1) o (with_conditions (o_conditions o ++ [(createDefaultCondition now s).1]) o).
Proof.
  intros Hs Ho Hn Hf. apply conditions_edit; [done| | |].
  - apply Forall_app. split; [apply Ho|]. constructor; [apply condition_of_known|done].
  - rewrite map_app. cbn [map createDefaultCondition fst c_id condition_of].
    apply (inv_join s (s + 1) (op_ids o) [_]); [lia|done|done|apply drawn_one].
  - rewrite map_app. intros x [H|H]%elem_of_app; [left; by right|]. right.
    apply list_elem_of_singleton in H as ->. exists s. split; [lia|done].
Qed.

Lemma update_condition_edit s s' o cid p :
  (∀ m, p = CP_mode m → has CONDITION_MODE_VALUES (js m) = true) → rule_ok o → NoDup (op_ids o) →
  good_edit s s' o (with_conditions
    (map (λ c, if bool_decide (c_id c = cid) then patch_condition p c else c) (o_conditions o)) o).
Proof.
  intros Hp Ho Hn. assert (Hids : map c_id (map (λ c, if bool_decide (c_id c = cid) then patch_condition p c else c)
    (o_conditions o)) = map c_id (o_conditions o)).
  { rewrite map_map. apply map_ext. intros c. by case_bool_decide. }
  apply conditions_edit; [done| |by rewrite Hids|rewrite Hids; intros x H; left; by right].
  destruct Ho as [[_ Hc] _]. apply Forall_map. eapply Forall_impl; [exact Hc|]. intros c H. cbn.
  case_bool_decide; [|done]. destruct p; cbn; try done. by apply Hp.
Qed.

Lemma map_sublist {A B} (f : A → B) l1 l2 : l1 `sublist_of` l2 → map f l1 `sublist_of` map f l2.
Proof. induction 1; cbn; [done|by apply sublist_skip|by apply sublist_cons]. Qed.

Lemma remove_condition_edit s s' o p :
  rule_ok o → NoDup (op_ids o) → good_edit s s' o (with_conditions (filterb p (o_conditions o)) o).
Proof.
  intros Ho Hn. pose proof (filterb_sublist p (o_conditions o)) as Hs. apply conditions_edit; [done| | |].
  - destruct Ho as [[_ Hc] _]. by eapply Forall_sublist.
  - eapply NoDup_sublist; [|exact Hn]. by apply sublist_skip, map_sublist.
  - intros x Hx. left. right. by eapply elem_of_submseteq, sublist_submseteq, map_sublist.
Qed.

(** ** The structured values *)

Lemma update_prune_absent id u s ops : id ∉ ids ops → update_prune now id u s ops = (ops, s).
Proof.
  induction ops as [|o ops IH]; [done|]. cbn [ids map]. intros [Ho Hn]%not_elem_of_cons. cbn [update_prune].
  assert (E : has_id id o = false) by (apply bool_decide_eq_false; congruence). rewrite E. cbn [fst snd]. by rewrite IH.
Qed.

Lemma update_prune_at u s l1 o l2 :
  o_id o ∉ ids l1 → o_id o ∉ ids l2 →
  update_prune now (o_id o) u s (l1 ++ o :: l2)
  = (l1 ++ with_value_text (update_prune_text now s u (o_value_text o)).1 o :: l2,
     (update_prune_text now s u (o_value_text o)).2).
Proof.
  intros H1 H2. induction l1 as [|o' l1 IH]; cbn [app update_prune].
  - assert (E : has_id (o_id o) o = true) by by apply has_id_true. rewrite E. cbn [fst snd].
    by rewrite update_prune_absent.
  - apply not_elem_of_cons in H1 as [Ho Hn].
    assert (E : has_id (o_id o) o' = false) by (apply bool_decide_eq_false; congruence). rewrite E. cbn [fst snd].
    by rewrite IH.
Qed.

Lemma normalize_rules_seed s l :
  (normalize_rules now s l).2 = s + Z.of_nat (length l)
  ∧ Forall (λ r, ∃ i, s ≤ i ∧ p_id r = nextLocalId now i) (normalize_rules now s l).1.
Proof.
  revert s; induction l as [|o l IH]; intros s; cbn [normalize_rules length]; [split; [cbn; lia|constructor]|].
  destruct (IH (s + 1)) as [Hn Hf]. cbn [fst snd]. split; [rewrite Hn; lia|]. constructor.
  - exists s. split; [lia|done].
  - eapply Forall_impl; [exact Hf|]. intros r (i & Hi & E). exists i. split; [lia|done].
Qed.

(** The rules of a draft carry identifiers drawn when it is parsed. *)
Lemma parsePrune_draws s text :
  let d := parsePruneObjectsDraft now s text in
  s ≤ d.2 ∧ Forall (λ r, ∃ i, s ≤ i ∧ p_id r = nextLocalId now i) (pd_rules d.1).
Proof.
  cbn zeta. assert (Hn : s ≤ s ∧ Forall (λ r, ∃ i, s ≤ i ∧ p_id r = nextLocalId now i) []) by (split; [lia|constructor]).
  unfold parsePruneObjectsDraft. destruct (negb _); [done|].
  destruct (json_parse _) as [[]|]; try exact Hn. cbv zeta. cbn [fst snd pd_rules].
  set (l := _ ++ _). destruct (normalize_rules_seed s l) as [-> Hf]. split; [lia|done].
Qed.

Lemma update_prune_step s u id ops :
  rules_inv s ops → (∀ s d, s ≤ (u s d).2) →
  s ≤ (update_prune now id u s ops).2
  ∧ rule_step s (update_prune now id u s ops).2 (Edit id (Set_value (λ text, (update_prune_text now s u text).1))) ops
      (update_prune now id u s ops).1.
Proof.
  intros Hinv Hu. destruct (rule_at id ops (inv_ids s ops Hinv)) as [(Hn & _)|(l1 & o & l2 & -> & <- & H1 & H2 & _)].
  - rewrite update_prune_absent by done. split; [cbn; lia|by apply rs_nothing].
  - rewrite update_prune_at by done. cbn [fst snd]. split.
    + unfold update_prune_text. cbn [fst snd]. destruct (parsePrune_draws s (o_value_text o)) as [H _].
      etrans; [exact H|apply Hu].
    + destruct (inv_rule _ _ _ _ Hinv) as (Ho & Hn & _).
      edestruct (same_conditions_edit s) as (Ha & Hb & Hc & Hd); [exact Ho|exact Hn|..].
      5: eapply (rs_edit _ _ (Set_value _)); [by apply (value_changes (λ text, (update_prune_text now s u text).1))|done..].
      all: try done; apply Ho.
Qed.

(** ** Templates *)

Lemma operations_template_some key :
  preset_kind (preset_of key) = KindOperations → template_rules (preset_payload (preset_of key)) ≠ [].
Proof.
  unfold preset_of. destruct (map_get TEMPLATE_PRESET_CONFIG key) as [c|] eqn:E; cbn [default id]; [|done].
  apply map_get_Some_elem in E.
  assert (H : Forall (λ e : jstr * TemplatePresetConfig, match preset_kind e.2 with
    | KindOperations => nonempty (template_rules (preset_payload e.2)) | KindLegacy => true end = true)
    TEMPLATE_PRESET_CONFIG) by (repeat constructor).
  rewrite Forall_forall in H. intros Hk. specialize (H _ E). cbn [snd] in H. rewrite Hk in H. by apply nonempty_true.
Qed.

(** ** Every event *)

Context (t : jstr → option Z → jstr).

(** The rule a drop moves. *)
Definition drag_source (transferred : jstr) (e : Editor) : jstr :=
  match draggedOperationId (e_drag e) with [] => transferred | s => s end.

(** The rules a text holds, if it holds any. *)
Definition stored_rules (text : jstr) : list json :=
  match json_parse (trim text) with Some (JObj o) => template_rules o | _ => [] end.

(** The half of the target a drop goes to. *)
Definition drop_position (target : jstr) (e : Editor) : position :=
  if bool_decide (dragOverOperationId (e_drag e) = target) then dragOverPosition (e_drag e) else Before.

(** Leaving the JSON mode reads the text; a text that is no object stays. *)
Definition visual_action (e : Editor) : action :=
  match v_editMode (e_view e) with
  | EditVisual => Observe
  | EditJson =>
      if nonempty (trim (v_jsonText (e_view e))) then
        match json_parse (trim (v_jsonText (e_view e))) with Some (JObj o) => Load (template_rules o) | _ => Observe end
      else Load []
  end.

(** A template replaces the rules or is appended to them; one of the legacy
    format takes their place, unless the text it is merged with is no JSON. *)
Definition fill_action (mode : fill_mode) (e : Editor) : action :=
  let preset := preset_of (e_preset e) in
  let text := trim (v_legacyValue (e_view e)) in
  match preset_kind preset, mode, v_visualMode (e_view e) with
  | KindLegacy, Append, VisualLegacy => if nonempty text && negb (verifyJSON text) then Observe else Load []
  | KindLegacy, _, _ => Load []
  | KindOperations, Append, VisualOperations => Extend (template_rules (preset_payload preset))
  | KindOperations, _, _ => Load (template_rules (preset_payload preset))
  end.

(** What each event does to the rules. *)
Definition action_of (e : Editor) (ev : event) : action :=
  let prune u := Set_value (λ text, (update_prune_text now (e_seed e) u text).1) in
  match ev with
  | Ev_open value => Load (stored_rules value)
  | Ev_visual_mode => visual_action e
  | Ev_fill mode => fill_action mode e
  | Ev_reset => Load []
  | Ev_add => Append_new
  | Ev_duplicate id _ => Copy id
  | Ev_update id p => Edit id (Set_attribute p)
  | Ev_add_condition id => Edit id New_condition
  | Ev_update_condition id cid p => Edit id (Set_condition cid p)
  | Ev_remove_condition id cid => Edit id (Drop_condition cid)
  | Ev_return_error id patch => Edit id (Set_value (λ text, buildReturnErrorValueText (patch (parseReturnErrorDraft text))))
  | Ev_prune id p => Edit id (prune (set_prune p))
  | Ev_add_prune_rule id => Edit id (prune (addPruneRule now))
  | Ev_update_prune_rule id rid patch => Edit id (prune (updatePruneRule rid patch))
  | Ev_remove_prune_rule id rid => Edit id (prune (removePruneRule rid))
  | Ev_remove id => Delete id
  | Ev_drop target transferred => Move (drag_source transferred e) target (drop_position target e)
  | _ => Observe
  end.

Definition refines (a : action) (e e' : Editor) : Prop :=
  e_seed e ≤ e_seed e' ∧ rule_step (e_seed e) (e_seed e') a (e_operations e) (e_operations e').

Definition editor_inv (e : Editor) : Prop := rules_inv (e_seed e) (e_operations e).

Lemma refines_same e e' : e_seed e = e_seed e' → e_operations e = e_operations e' → refines Observe e e'.
Proof. intros Hs Ho. unfold refines. rewrite Hs, Ho. split; [lia|apply rs_observe]. Qed.

Lemma created_default s : default_rule (createDefaultOperation now s).1.
Proof. split; by_eval. Qed.

Lemma refines_default e e' :
  e_seed e' = (createDefaultOperation now (e_seed e)).2 →
  e_operations e' = [(createDefaultOperation now (e_seed e)).1] → refines (Load []) e e'.
Proof.
  intros Hs Ho. destruct (createDefaultOperation_drawn (e_seed e)) as (_ & Hd & _). unfold refines. rewrite Hs, Ho.
  split; [cbn; lia|]. apply rs_default; [apply created_default|done].
Qed.

(** The rules of an array take the place of the others. *)
Lemma array_step s l ops new n :
  0 ≤ s → rules_of_array now s l = Ret (new, n) → s ≤ n ∧ rule_step s n (Load l) ops new.
Proof.
  intros Hs Hr. destruct (rules_of_array_drawn s l new n Hs Hr) as (Hn & _ & Hd & _). split; [done|].
  destruct l as [|v l]; cbn [rules_of_array] in Hr.
  - injection Hr as <- <-. apply rs_default; [apply created_default|apply createDefaultOperation_drawn].
  - apply rs_load; [done| |done]. eapply map_seed_each; [|exact Hr]. intros n' x y m H. by exists n', m.
Qed.

Lemma refines_edit e id ch f s' e' :
  editor_inv e → e_seed e ≤ s' → e_seed e' = s' → e_operations e' = at_id id f (e_operations e) →
  (∀ o, changed ch o (f o)) →
  (∀ o, o ∈ e_operations e → rule_ok o → NoDup (op_ids o) → Forall (fresh 0 (e_seed e)) (op_ids o) →
    good_edit (e_seed e) s' o (f o)) → refines (Edit id ch) e e'.
Proof. intros Hinv Hs <- Ho Hch Hf. split; [done|]. rewrite Ho. by apply at_id_step. Qed.

Lemma refines_prune e id u :
  editor_inv e → (∀ s d, s ≤ (u s d).2) →
  refines (Edit id (Set_value (λ text, (update_prune_text now (e_seed e) u text).1))) e (updatePruneObjectsDraft now id u e).
Proof. intros Hinv Hu. by apply update_prune_step. Qed.

Lemma refines_update e id p :
  editor_inv e → (∀ m, p = P_mode m → has OPERATION_MODE_VALUES (js m) = true) →
  refines (Edit id (Set_attribute p)) e (updateOperation id p e).
Proof.
  intros Hinv Hp. eapply refines_edit; [done|apply Z.le_refl|done|done|apply patch_changes|]. intros o _ Ho Hn _.
  apply same_conditions_edit; [done..| |].
  - destruct p; cbn; try apply Ho. by apply Hp.
  - destruct p; cbn; try apply Ho. destruct conjunction; auto.
Qed.

Lemma refines_open e value e' : editor_inv e → open_editor now value e = Ret e' → refines (Load (stored_rules value)) e e'.
Proof.
  intros Hinv. unfold open_editor. destruct (parseInitialState now (e_seed e) value) as [[st n]|] eqn:E; [|done].
  cbn [mbind outcome_bind fst snd]. intros [= <-]. unfold refines. cbn [e_seed e_operations].
  assert (Hdef : ∀ v, Ret ({| s_view := v; s_operations := [(createDefaultOperation now (e_seed e)).1] |},
      (createDefaultOperation now (e_seed e)).2) = Ret (st, n) →
    e_seed e ≤ n ∧ rule_step (e_seed e) n (Load []) (e_operations e) (s_operations st)).
  { intros v [= <- <-]. exact (array_step _ [] _ _ _ (inv_seed _ _ Hinv) eq_refl). }
  unfold parseInitialState in E. unfold stored_rules. destruct (nonempty (trim value)) eqn:En; cbn [negb] in E.
  - destruct (json_parse (trim value)) as [[]|]; try (by eapply Hdef). unfold template_rules.
    destruct (fld _ _) as [[]|]; try (by eapply Hdef).
    destruct (rules_of_array now (e_seed e) l) as [[ops m]|] eqn:Er; [|done]. cbn [mbind outcome_bind fst snd] in E.
    injection E as <- <-. cbn [s_operations]. by apply array_step; [apply Hinv|].
  - destruct (trim value); [|done]. rewrite json_parse_nil. by eapply Hdef.
Qed.

Lemma refines_visual e e' : editor_inv e → switchToVisualMode now e = Ret e' → refines (visual_action e) e e'.
Proof.
  intros Hinv. unfold switchToVisualMode, visual_action. destruct (v_editMode _); [by intros [= <-]; apply refines_same|].
  destruct (nonempty _); cbn [negb]; [|intros [= <-]; by apply refines_default].
  destruct (json_parse _) as [[]|]; try (by intros [= <-]; apply refines_same). unfold template_rules.
  destruct (fld _ _) as [[]|]; try (by intros [= <-]; apply refines_default).
  destruct (rules_of_array now (e_seed e) l) as [[ops m]|] eqn:Er; [|done]. cbn [mbind outcome_bind fst snd].
  intros [= <-]. by apply array_step; [apply Hinv|].
Qed.

Lemma refines_fill e mode e' : editor_inv e → fillTemplate now mode e = Ret e' → refines (fill_action mode e) e e'.
Proof.
  intros Hinv. unfold fillTemplate, fill_action. cbv zeta.
  assert (Hleg : ∀ v, Ret (fill_legacy now v e) = Ret e' → refines (Load []) e e').
  { intros v [= <-]. by apply refines_default. }
  destruct (preset_kind _) eqn:Ek; destruct mode.
  - destruct (rules_of_array _ _ _) as [[ops m]|] eqn:Er; [|done]. cbn [mbind outcome_bind fst snd].
    intros [= <-]. by apply array_step; [apply Hinv|].
  - apply operations_template_some in Ek.
    destruct (map_seed _ _ _) as [[ops m]|] eqn:Er; [|done]. cbn [mbind outcome_bind fst snd].
    destruct (normalized_rules_drawn _ _ _ _ (inv_seed _ _ Hinv) Er) as (H1 & H2 & _).
    assert (Hr : Forall2 reads (template_rules (preset_payload (preset_of (e_preset e)))) ops).
    { eapply map_seed_each; [|exact Er]. intros n x y k H. by exists n, k. }
    intros [= <-]. destruct (v_visualMode _); (split; [exact H1|]); [by apply rs_extend|by apply rs_load].
  - by apply Hleg.
  - destruct (v_visualMode _); [by apply Hleg|]. destruct (nonempty _); cbn [negb andb]; [|by apply Hleg].
    unfold verifyJSON. destruct (json_parse _); cbn [negb]; [by apply Hleg|]. intros [= <-]. by apply refines_same.
Qed.

Lemma refines_add e : refines Append_new e (addOperation now e).
Proof.
  destruct (createDefaultOperation_drawn (e_seed e)) as (_ & Hd & _). split; [cbn; lia|].
  apply (rs_append _ _ (e_operations e)); [apply created_default|exact Hd].
Qed.

(** *** Copying *)

(** The object of a copied condition, and of a copied rule. *)
Definition condition_copy (c : ParamOverrideCondition) : json :=
  JObj [entry "path" (JStr (c_path c)); entry "mode" (JStr (c_mode c)); entry "value" (parseLooseValue (c_value_text c));
        entry "invert" (JBool (c_invert c)); entry "pass_missing_key" (JBool (c_pass_missing_key c))].

Lemma condition_copied c c' s n :
  has CONDITION_MODE_VALUES (c_mode c) = true → normalizeCondition now s (condition_copy c) = Ret (c', n) →
  c_attributes c' = c_replaced (CP_value_text (reprinted (c_value_text c))) c.
Proof.
  intros Hm. unfold normalizeCondition, condition_copy. cbn [props_of mbind outcome_bind]. intros [= <- <-].
  unfold c_replaced, c_attributes, condition_of, string_prop, mode_prop. cbn [c_path c_mode c_value_text c_invert c_pass_missing_key].
  look. rewrite Hm. by destruct (c_invert c), (c_pass_missing_key c).
Qed.

Lemma rule_copied o o' s n :
  rule_ok o → normalizeOperation now s (copy_of_operation o) = Ret (o', n) → copied o o'.
Proof.
  intros [[Hm Hc] Hl]. unfold normalizeOperation, copy_of_operation. cbn [props_of mbind outcome_bind]. look.
  destruct (map_seed _ _ _) as [[cs m]|] eqn:Er; [|done]. cbn [mbind outcome_bind fst snd]. intros [= <- <-]. split.
  - unfold replaced, attributes, operation_of, string_prop, mode_prop.
    cbn [o_description o_path o_mode o_from o_to o_value_text o_keep_origin o_logic]. look. rewrite Hm.
    destruct (o_keep_origin o), Hl as [-> | ->]; reflexivity.
  - cbn [o_conditions operation_of]. change (λ c, JObj _) with condition_copy in Er.
    apply (map_seed_each _ (λ v c', ∀ c, has CONDITION_MODE_VALUES (c_mode c) = true → v = condition_copy c →
      c_attributes c' = c_replaced (CP_value_text (reprinted (c_value_text c))) c)) in Er.
    2:{ intros n' x y k H c Hk ->. by eapply condition_copied. }
    revert cs Er. induction (o_conditions o) as [|c l IH]; cbn [map]; intros cs Er; inversion Er; subst; [constructor|].
    apply Forall_cons in Hc as [Hk Hc]. constructor; [by auto|by apply IH].
Qed.

Lemma refines_duplicate e id ran e' : editor_inv e → duplicateOperation now id ran e = Ret e' → refines (Copy id) e e'.
Proof.
  intros Hinv. unfold duplicateOperation. destruct (find_index _ _) as [i|] eqn:Ei.
  - apply find_index_Some in Ei as (l1 & o & l2 & E & <- & Ho%has_id_true & _). subst id.
    rewrite E, list_lookup_middle by done.
    destruct (normalizeOperation _ _ _) as [[o' m]|] eqn:En; [|done]. cbn [mbind outcome_bind fst snd].
    destruct (normalizeOperation_drawn _ _ _ _ (inv_seed _ _ Hinv) En) as (Hm & Hd & _). intros [= He].
    assert (Ho : e_seed e' = m ∧ e_operations e' = splice_in (S (length l1)) o' (l1 ++ o :: l2)) by (subst e'; by destruct ran).
    destruct Ho as [Hs Ho]. unfold refines. rewrite Hs, Ho, E. split; [done|].
    assert (Hsp : splice_in (S (length l1)) o' (l1 ++ o :: l2) = l1 ++ o :: o' :: l2).
    { unfold splice_in. change (o :: l2) with ([o] ++ l2). rewrite app_assoc.
      rewrite take_app_length', drop_app_length' by (rewrite length_app; cbn; lia). by rewrite <- app_assoc. }
    rewrite Hsp. apply rs_copy; [|done]. eapply rule_copied; [|exact En].
    unfold editor_inv in Hinv. rewrite E in Hinv. apply (inv_rule _ _ _ _ Hinv).
  - apply find_index_None, has_id_absent in Ei. intros [= <-]. split; [lia|]. by apply rs_nothing.
Qed.

Lemma refines_remove e id : editor_inv e → refines (Delete id) e (removeOperation now id e).
Proof.
  intros Hinv. unfold removeOperation. destruct (_ <=? 1)%nat eqn:El.
  - apply Nat.leb_le in El. split; [cbn; lia|]. pose proof (inv_some _ _ Hinv) as Hne.
    destruct (createDefaultOperation_drawn (e_seed e)) as (_ & Hd & _). cbn [with_seed with_operations e_seed e_operations].
    destruct (e_operations e) as [|o [|o' l]]; [done| |cbn in El; lia].
    apply rs_clear; [apply created_default|exact Hd].
  - apply Nat.leb_gt in El. split; [cbn; lia|]. cbn [e_operations with_operations e_seed].
    destruct (rule_at id (e_operations e) (inv_ids _ _ Hinv)) as [(Hn & _ & ->)|(l1 & o & l2 & E & <- & _ & _ & _ & ->)];
      [by apply rs_nothing|]. rewrite E in El |- *. apply rs_delete. intros [-> ->]%app_nil. cbn in El. lia.
Qed.

Lemma refines_drop e target transferred :
  editor_inv e →
  refines (Move (drag_source transferred e) target (drop_position target e)) e (handleDrop target transferred e).
Proof.
  intros Hinv. split; [unfold handleDrop; by case_match|]. unfold handleDrop. fold (drag_source transferred e) (drop_position target e).
  set (src := drag_source transferred e). set (pos := drop_position target e).
  destruct (decide (src ≠ [] ∧ target ≠ [] ∧ src ≠ target ∧ src ∈ ids (e_operations e) ∧ target ∈ ids (e_operations e)))
    as [Hc|Hn].
  - pose proof Hc as (H1 & H2 & H3 & H4 & H5). apply nonempty_true in H1 as E1. apply nonempty_true in H2 as E2.
    rewrite E1, E2, bool_decide_eq_false_2 by done. cbn [negb andb with_drag with_selected with_operations e_operations e_seed].
    destruct (reorderOperations_move (e_operations e) src target pos H1 H2 H3 H4 H5 (inv_ids _ _ Hinv))
      as (a & moved & b & l1 & tgt & l2 & -> & Hab & <- & <- & ->).
    destruct pos; [by apply rs_move_before|by apply rs_move_after].
  - match goal with |- rule_step _ _ _ _ ?ops => assert (ops = e_operations e) as -> end; [|by apply rs_nothing].
    destruct (_ && _); [|done]. cbn [with_drag with_selected with_operations e_operations].
    by rewrite reorderOperations_same.
Qed.

(** Whatever an event does to the rules, the abstract editor does. *)
Lemma handle_refines e ev e' :
  editor_inv e → offered e ev → handle now t e ev = Ret e' → refines (action_of e ev) e e'.
Proof.
  intros Hinv Hoff. destruct ev; cbn [handle action_of offered] in *; intros H;
    try (apply Ret_inj in H; subst e').
  - by eapply refines_open.
  - split; [cbn; lia|apply rs_observe].
  - by apply refines_same.
  - apply refines_update; [done|]. by intros m ->.
  - apply refines_add.
  - by eapply refines_duplicate.
  - by apply refines_remove.
  - eapply (refines_edit e operationId _ _ (e_seed e + 1)); [done|lia|done|done|apply new_condition_changes|].
    intros o _ Ho Hn Hf. by apply add_condition_edit; [apply Hinv|..].
  - eapply refines_edit; [done|apply Z.le_refl|done|done|apply patched_conditions_change|]. intros o _ Ho Hn _.
    apply update_condition_edit; [|done..]. by intros m ->.
  - eapply refines_edit; [done|apply Z.le_refl|done|done|apply dropped_condition_changes|].
    intros o _ Ho Hn _. by apply remove_condition_edit.
  - by apply refines_same.
  - unfold setAllConditions. apply refines_same; by case_match.
  - eapply refines_edit; [done|apply Z.le_refl|done|done|intros o; apply (value_changes (λ text, _))|].
    intros o _ Ho Hn _. by apply same_conditions_edit; try apply Ho.
  - apply refines_prune; [done|]. intros s d. cbn. lia.
  - apply refines_prune; [done|]. intros s d. cbn. lia.
  - apply refines_prune; [done|]. intros s d. cbn. lia.
  - apply refines_prune; [done|]. intros s d. cbn. lia.
  - by apply refines_same.
  - unfold handleDragOver. by apply refines_same; case_match.
  - by apply refines_drop.
  - by apply refines_same.
  - unfold switchToJsonMode. apply refines_same; by repeat case_match.
  - by apply refines_visual.
  - by apply refines_same.
  - by eapply refines_fill.
  - by apply refines_default.
  - by apply refines_same.
  - by apply refines_same.
  - unfold formatJson. apply refines_same; by repeat case_match.
  - unfold handleSave. apply refines_same; by repeat case_match.
Qed.

(** ** Every reachable state *)

Lemma keep_selection_same e :
  e_seed (keep_selection e) = e_seed e ∧ e_operations (keep_selection e) = e_operations e.
Proof. unfold keep_selection. by repeat case_match. Qed.

Lemma keep_selection_valid e : e_operations e ≠ [] → e_selected (keep_selection e) ∈ ids (e_operations e).
Proof.
  unfold keep_selection, ids. destruct (e_operations e) as [|o l] eqn:E; [done|]. intros _.
  destruct (existsb _ _) eqn:Ex; [|by left].
  apply existsb_exists in Ex as (o' & Ho & <-%has_id_true). apply list_elem_of_fmap. exists o'.
  split; [done|]. by apply list_elem_of_In.
Qed.

Lemma step_refines e ev e' : editor_inv e → step now t e ev e' → refines (action_of e ev) e e'.
Proof.
  intros Hinv Hst. destruct Hst as [e ev e'' Hoff Hh]. pose proof (handle_refines _ _ _ Hinv Hoff Hh) as H.
  unfold refines in *. by destruct (keep_selection_same e'') as [-> ->].
Qed.

Lemma reachable_inv e : reachable now t e → editor_inv e ∧ e_selected e ∈ ids (e_operations e).
Proof.
  induction 1 as [|e ev e' _ [IH _] Hst].
  - destruct (createDefaultOperation_drawn 0) as (_ & [Hn Hf] & Hok). unfold initial_editor.
    set (e0 := {| e_view := _ |}). unfold editor_inv. destruct (keep_selection_same e0) as [-> ->].
    split; [|by apply keep_selection_valid]. cbn [e0 e_seed e_operations] in *.
    split; [cbn; lia|done| | |by constructor]; by rewrite all_ids_cons, app_nil_r.
  - destruct (step_refines _ _ _ IH Hst) as [Hs Hr]. pose proof (rule_step_inv _ _ _ _ _ Hs Hr IH) as Hinv.
    split; [exact Hinv|]. destruct Hst as [e ev e'' Hoff Hh].
    unfold editor_inv in Hinv. destruct (keep_selection_same e'') as [Hseed Hops]. rewrite Hops in *.
    apply keep_selection_valid, Hinv.
Qed.
End editor.

(** C4. The dialog refines an abstract editor of a list of rules: in every
    reachable state an event does to the rules one step of that editor, with
    the label of the event. An edit of an attribute replaces that attribute of
    the rule it names; an edit of a condition that attribute of that condition;
    a condition is added at the end, or taken out; an edit of a structured
    value replaces the value of the rule; nothing else of a rule changes, nor
    its identifier. A new rule is appended; a copy stands after its original
    and holds what it does, the values printed anew; removing takes out the
    rule named, or replaces the only rule by a new one; a drop puts the rule
    dragged before or after the target, and the others keep their order. An
    action on a rule that is not there does nothing. Opening, resetting,
    templates and leaving the JSON mode load the rules of what is read, or a
    new one where there is none, an appended template keeps the rules that are
    not blank. Every other event leaves the rules alone. New rules and
    conditions draw identifiers of their own. *)
Theorem editor_refines_rules now t e ev e' :
  reachable now t e → step now t e ev e' →
  e_seed e ≤ e_seed e' ∧ rule_step now (e_seed e) (e_seed e') (action_of now e ev) (e_operations e) (e_operations e').
Proof. intros [Hinv _]%reachable_inv Hst. by apply (step_refines now t). Qed.

Lemma editor_refines_rules_witness :
  let now := λ _ : Z, 0 in let t := λ (k : jstr) (_ : option Z), k in
  let e := initial_editor now in
  rule_step now (e_seed e) (e_seed (addOperation now e)) Append_new (e_operations e) (e_operations (addOperation now e)).
Proof.
  intros now t e.
  pose proof (editor_refines_rules now t e Ev_add (keep_selection (addOperation now e))
    (reach_initial now t) (step_handle now t e Ev_add (addOperation now e) I eq_refl)) as [_ H].
  destruct (keep_selection_same (addOperation now e)) as [Hs Ho]. rewrite Hs, Ho in H. exact H.
Defined.

(** C16. In every reachable state there is at least one rule, one of the
    rules is selected, all identifiers of rules and conditions are distinct
    and were drawn before, and every mode and conjunction is one the dialog
    offers. *)
Theorem editor_invariant now t e :
  reachable now t e →
  e_operations e ≠ [] ∧ e_selected e ∈ ids (e_operations e)
  ∧ NoDup (all_ids (e_operations e)) ∧ Forall (fresh now 0 (e_seed e)) (all_ids (e_operations e))
  ∧ Forall rule_ok (e_operations e).
Proof. intros [[_ H1 H2 H3 H4] Hsel]%reachable_inv. auto. Qed.

Lemma editor_invariant_witness :
  let now := λ _ : Z, 0 in let t := λ (k : jstr) (_ : option Z), k in
  ∃ e, length (e_operations e) = 2%nat ∧ reachable now t e ∧ NoDup (all_ids (e_operations e)).
Proof.
  intros now t. exists (keep_selection (addOperation now (initial_editor now))).
  assert (H : reachable now t (keep_selection (addOperation now (initial_editor now)))).
  { exact (reach_step now t _ Ev_add _ (reach_initial now t)
      (step_handle now t (initial_editor now) Ev_add _ I eq_refl)). }
  split; [by_eval|]. split; [exact H|]. apply (editor_invariant now t _ H).
Defined.

(** ** The prune rules *)

Section prune.
Context (now : Z → Z).

Lemma drawn_later s i rules :
  0 ≤ i < s → Forall (λ r, ∃ j, s ≤ j ∧ p_id r = nextLocalId now j) rules →
  Forall (λ r, p_id r ≠ nextLocalId now i) rules.
Proof.
  intros Hi Hf. eapply Forall_impl; [exact Hf|]. intros r (j & Hj & E). cbn. rewrite E. intros H%nextLocalId_inj; lia.
Qed.

(** The updater of a rule drawn before leaves the draft alone. *)
Lemma updatePruneRule_nothing rid patch s d :
  Forall (λ r, p_id r ≠ rid) (pd_rules d) → updatePruneRule rid patch s d = (d, s).
Proof.
  intros Hf. unfold updatePruneRule. f_equal. destruct d as [b ty lo re rules]. unfold with_rules. cbn in *. f_equal.
  rewrite <- (map_id rules) at 2. apply map_ext_in. intros r Hr%list_elem_of_In.
  rewrite Forall_forall in Hf. by rewrite bool_decide_eq_false_2 by by apply Hf.
Qed.

Lemma removePruneRule_nothing rid s d :
  Forall (λ r, p_id r ≠ rid) (pd_rules d) → removePruneRule rid s d = (d, s).
Proof.
  intros Hf. unfold removePruneRule. f_equal. destruct d as [b ty lo re rules]. unfold with_rules. cbn in *. f_equal.
  apply filterb_id. eapply Forall_impl; [exact Hf|]. intros r Hr. cbn. by rewrite bool_decide_eq_false_2.
Qed.

(** A new rule is filtered out again. *)
Lemma addPruneRule_nothing s d :
  buildPruneObjectsValueText (addPruneRule now s d).1 = buildPruneObjectsValueText (patch_prune (PP_simpleMode false) d).
Proof.
  unfold buildPruneObjectsValueText. cbn [addPruneRule fst patch_prune with_rules pd_simpleMode].
  assert (H : prune_payload (patch_prune (PP_simpleMode false) (with_rules (pd_rules d ++ [(normalizePruneRule now s []).1]) d))
    = prune_payload (patch_prune (PP_simpleMode false) d)).
  { unfold prune_payload. cbn [patch_prune with_rules pd_typeText pd_logic pd_recursive pd_rules].
    unfold filterb. by rewrite List.filter_app, app_nil_r. }
  by rewrite H.
Qed.

(** Two updaters with the same text on the value of the rule named. *)
Lemma updatePrune_same_text id u u' e :
  NoDup (ids (e_operations e)) →
  (∀ text, (update_prune_text now (e_seed e) u text).1 = (update_prune_text now (e_seed e) u' text).1) →
  e_operations (updatePruneObjectsDraft now id u e) = e_operations (updatePruneObjectsDraft now id u' e).
Proof.
  intros Hnd Hu. cbn [updatePruneObjectsDraft with_seed with_operations e_operations].
  destruct (rule_at id (e_operations e) Hnd) as [(Hn & _)|(l1 & o & l2 & E & <- & H1 & H2 & _)].
  - by rewrite !update_prune_absent.
  - by rewrite E, !update_prune_at, Hu.
Qed.
End prune.

(** The rules of a prune value cannot be edited: every change parses the
    value anew and draws new identifiers, so updating or removing the rule
    with an identifier drawn before, as all on screen are, does no more than
    rewriting the value, and an added rule, whose path is blank, is left out
    of the text at once, which only switches the value to the advanced form. *)
Theorem prune_rules_stuck now t e id i patch :
  reachable now t e → 0 ≤ i < e_seed e →
  let rules_after u := e_operations (updatePruneObjectsDraft now id u e) in
  let rewritten := rules_after (λ s d, (d, s)) in
  rules_after (updatePruneRule (nextLocalId now i) patch) = rewritten
  ∧ rules_after (removePruneRule (nextLocalId now i)) = rewritten
  ∧ rules_after (addPruneRule now) = rules_after (set_prune (PP_simpleMode false)).
Proof.
  intros [Hinv _]%reachable_inv Hi rules_after rewritten. apply inv_ids in Hinv.
  assert (Hold : ∀ text, Forall (λ r, p_id r ≠ nextLocalId now i) (pd_rules (parsePruneObjectsDraft now (e_seed e) text).1)).
  { intros text. eapply drawn_later; [exact Hi|]. apply parsePrune_draws. }
  split; [|split]; apply updatePrune_same_text; try done; intros text; unfold update_prune_text; cbn [fst snd].
  - by rewrite updatePruneRule_nothing.
  - by rewrite removePruneRule_nothing.
  - apply addPruneRule_nothing.
Qed.

Lemma prune_rules_stuck_witness :
  let now := λ _ : Z, 0 in let t := λ (k : jstr) (_ : option Z), k in
  let e := initial_editor now in
  e_operations (updatePruneObjectsDraft now (nextLocalId now 0) (removePruneRule (nextLocalId now 0)) e)
  = e_operations (updatePruneObjectsDraft now (nextLocalId now 0) (λ s d, (d, s)) e).
Proof.
  intros now t e.
  apply (prune_rules_stuck now t e (nextLocalId now 0) 0 (λ r, r) (reach_initial now t)).
  split; [done|]. by_eval.
Defined.
