(* ===== verification/AccountValidation.v ===== *)
(** * Validation of the upstream account editor

    Model of [web/default/src/features/upstream-accounts/account-dialog-validation.ts]
    and of [splitAccountModelMapping] of [account-model-restriction.tsx]: the
    rows of model mappings and header overrides, what a save accepts of them,
    the objects they are stored as, and the rows an object is shown as.
    [String.prototype.toLowerCase] and [localeCompare] are parameters. *)

From Stdlib Require Import String.
From S2P Require Import JsJson.

(** ** Model mappings *)

Record ModelMappingRow := { from : jstr; to : jstr }.

#[export] Instance ModelMappingRow_eq_dec : EqDecision ModelMappingRow.
Proof. solve_decision. Defined.

Inductive ModelMappingValidationError :=
| missingPair | invalidSourceWildcard | wildcardTarget | duplicateSource.

#[export] Instance ModelMappingValidationError_eq_dec : EqDecision ModelMappingValidationError.
Proof. solve_decision. Defined.

(** A mapping from client models to upstream models: an object of strings. *)
Abbreviation string_record := (list (jstr * jstr)).

(** [{ mapping, error }]: a mapping, [null] where it would be empty, or an error. *)
Definition ModelMappingBuildResult : Type := option string_record + ModelMappingValidationError.

(** [s.lastIndexOf(c)] of one code unit *)
Definition last_index_of (c : Z) (s : jstr) : option nat :=
  match index_of [c] (rev s) with Some j => Some (length s - 1 - j)%nat | None => None end.

Definition invalid_source_wildcard (source : jstr) : bool :=
  match index_of (js "*") source with
  | None => false
  | Some i =>
      negb (i =? length source - 1)%nat
      || negb (bool_decide (last_index_of c_star source = Some i))
  end.

(** [Object.keys(mapping).length > 0 ? mapping : null] *)
Definition null_if_empty (mapping : string_record) : option string_record :=
  if nonempty mapping then Some mapping else None.

Fixpoint build_mapping_loop (requireUniqueSources : bool) (mapping : string_record)
    (seen : list jstr) (rows : list ModelMappingRow) : ModelMappingBuildResult :=
  match rows with
  | [] => inl (null_if_empty mapping)
  | row :: rows' =>
      let source := trim (from row) in
      let target := trim (to row) in
      if negb (nonempty source) && negb (nonempty target) then
        build_mapping_loop requireUniqueSources mapping seen rows'
      else if negb (nonempty source) || negb (nonempty target) then inr missingPair
      else if invalid_source_wildcard source then inr invalidSourceWildcard
      else if includes (js "*") target then inr wildcardTarget
      else if requireUniqueSources && bool_decide (source ∈ seen) then inr duplicateSource
      else build_mapping_loop requireUniqueSources (obj_set mapping source target)
             (set_add seen source) rows'
  end.

Definition buildValidatedModelMapping (rows : list ModelMappingRow) (requireUniqueSources : bool)
    : ModelMappingBuildResult :=
  build_mapping_loop requireUniqueSources [] [] rows.

(** What the editor shows of a stored mapping: models allowed as they are,
    and models remapped. *)
Record ModelRestriction := { restricted_to : list jstr; remapped : list ModelMappingRow }.

Definition split_step (acc : ModelRestriction) (e : jstr * jstr) : ModelRestriction :=
  let source := trim e.1 in
  let target := trim e.2 in
  if negb (nonempty source) || negb (nonempty target) then acc
  else if bool_decide (source = target) then
    {| restricted_to := restricted_to acc ++ [source]; remapped := remapped acc |}
  else
    {| restricted_to := restricted_to acc;
       remapped := remapped acc ++ [{| from := source; to := target |}] |}.

Definition splitAccountModelMapping (mapping : option string_record) : ModelRestriction :=
  foldl split_step {| restricted_to := []; remapped := [] |} (own_entries (default [] mapping)).

(** ** Header overrides *)

Record HeaderOverrideRow := { header_name : jstr; header_value : jstr }.

#[export] Instance HeaderOverrideRow_eq_dec : EqDecision HeaderOverrideRow.
Proof. solve_decision. Defined.

Inductive HeaderOverrideValidationError :=
| invalidName | blockedName | duplicateName | invalidValue | tooManyEntries.

#[export] Instance HeaderOverrideValidationError_eq_dec : EqDecision HeaderOverrideValidationError.
Proof. solve_decision. Defined.

Definition blockedHeaderOverrideNames : list jstr :=
  map js ["host"; "content-length"; "content-type"; "transfer-encoding"; "connection";
          "keep-alive"; "proxy-authenticate"; "proxy-authorization"; "proxy-connection"; "te";
          "trailer"; "upgrade"; "authorization"; "x-api-key"; "x-goog-api-key"; "cookie";
          "accept-encoding"; "sec-websocket-key"; "sec-websocket-version";
          "sec-websocket-extensions"; "sec-websocket-protocol"; "sec-websocket-accept";
          "session_id"; "conversation_id"; "x-codex-turn-state"; "x-codex-turn-metadata";
          "chatgpt-account-id"; "x-claude-code-session-id"; "x-client-request-id"]%string.

Definition is_alnum (c : Z) : bool :=
  is_digit c || ((65 <=? c) && (c <=? 90)) || ((97 <=? c) && (c <=? 122)).

(** A code unit of the class of [headerNamePattern] *)
Definition header_name_unit (c : Z) : bool :=
  is_alnum c || bool_decide (c ∈ js "!#$%&'*+-.^_`|~").

Definition headerNamePattern (name : jstr) : bool := nonempty name && forallb header_name_unit name.

(** A code unit of the class of [invalidHeaderValuePattern] *)
Definition invalid_value_unit (c : Z) : bool :=
  ((0 <=? c) && (c <=? 8)) || ((10 <=? c) && (c <=? 31)) || (c =? 127).

Definition invalidHeaderValuePattern (value : jstr) : bool := existsb invalid_value_unit value.

(** [textEncoder.encode(s).length]: a lone surrogate is encoded as U+FFFD. *)
Fixpoint utf8_length (s : jstr) : Z :=
  match s with
  | [] => 0
  | c :: s' =>
      if is_high c then
        match s' with
        | d :: s'' => if is_low d then 4 + utf8_length s'' else 3 + utf8_length s'
        | [] => 3
        end
      else if c <? 128 then 1 + utf8_length s'
      else if c <? 2048 then 2 + utf8_length s'
      else 3 + utf8_length s'
  end.

Section text.
Context (toLowerCase : jstr → jstr) (localeCompare : jstr → jstr → Z).

Fixpoint validate_headers_loop (seen : list jstr) (rows : list HeaderOverrideRow)
    : option HeaderOverrideValidationError :=
  match rows with
  | [] => if 64 <? Z.of_nat (length seen) then Some tooManyEntries else None
  | row :: rows' =>
      let name := trim (header_name row) in
      let value := trim (header_value row) in
      if negb (nonempty name) then
        if nonempty value then Some invalidName else validate_headers_loop seen rows'
      else if negb (headerNamePattern name) || (200 <? Z.of_nat (length name)) then Some invalidName
      else
        let normalizedName := toLowerCase name in
        if bool_decide (normalizedName ∈ blockedHeaderOverrideNames) then Some blockedName
        else if bool_decide (normalizedName ∈ seen) then Some duplicateName
        else if invalidHeaderValuePattern value || (8192 <? utf8_length value) then Some invalidValue
        else validate_headers_loop (set_add seen normalizedName) rows'
  end.

Definition validateHeaderOverrideRows (rows : list HeaderOverrideRow)
    : option HeaderOverrideValidationError :=
  validate_headers_loop [] rows.

Definition build_header_step (overrides : string_record) (row : HeaderOverrideRow) : string_record :=
  let name := toLowerCase (trim (header_name row)) in
  if nonempty name then obj_set overrides name (trim (header_value row)) else overrides.

Definition buildHeaderOverridesObject (rows : list HeaderOverrideRow) : string_record :=
  foldl build_header_step [] rows.

Definition header_row_le (left right : HeaderOverrideRow) : bool :=
  localeCompare (header_name left) (header_name right) <=? 0.

Definition splitHeaderOverridesObject (record : option json) : list HeaderOverrideRow :=
  match record with
  | Some (JObj o) =>
      stable_sort header_row_le
        (omap (λ e : jstr * json,
                 match e.2 with
                 | JStr value => Some {| header_name := e.1; header_value := value |}
                 | _ => None
                 end) (own_entries o))
  | _ => []
  end.
End text.

(** ** Numbers and statuses *)

Definition parseIntegerAtLeast (raw : jstr) (minimum : Z) : option jsnum :=
  if negb (nonempty (trim raw)) then None
  else
    let value := number_of_string raw in
    if is_integer value && num_le (num_of_Z minimum) value then Some value else None.

Inductive EditableAccountStatus := active | inactive | error_status | expired.

#[export] Instance EditableAccountStatus_eq_dec : EqDecision EditableAccountStatus.
Proof. solve_decision. Defined.

Definition editableAccountStatuses (current : option EditableAccountStatus)
    : list EditableAccountStatus :=
  let statuses := [active; inactive] in
  match current with
  | Some error_status => statuses ++ [error_status]
  | Some expired => statuses ++ [expired]
  | _ => statuses
  end.

(** ** Evaluations *)

Definition row (a b : string) : ModelMappingRow := {| from := js a; to := js b |}.
Definition header (a b : string) : HeaderOverrideRow := {| header_name := js a; header_value := js b |}.

(** The source's own tests. *)
Example mapping_tests :
  buildValidatedModelMapping [row "gpt-5.4" "gpt-5.4"; row "gpt-5.*" "gpt-5.4-compact"] false
  = inl (Some [(js "gpt-5.4", js "gpt-5.4"); (js "gpt-5.*", js "gpt-5.4-compact")])
  ∧ buildValidatedModelMapping [row "gpt-*legacy" "gpt-5.4"] false = inr invalidSourceWildcard
  ∧ buildValidatedModelMapping [row "gpt-5.*" "gpt-*"] false = inr wildcardTarget
  ∧ buildValidatedModelMapping [row "gpt-5.*" "gpt-5.4"; row "gpt-5.*" "gpt-5.4-mini"] true
    = inr duplicateSource.
Proof. split_and!; by_eval. Qed.

(** [toLowerCase] on the letters A to Z *)
Definition ascii_lower (s : jstr) : jstr := map (λ c, if (65 <=? c) && (c <=? 90) then c + 32 else c) s.

Example header_tests :
  map (validateHeaderOverrideRows ascii_lower)
    [[header "Authorization" "x"]; [header "X-App" "a"; header "x-app" "b"]; [header "bad name" "x"];
     [{| header_name := js "x-app"; header_value := js "bad" ++ c_nl :: js "value" |}]]
  = [Some blockedName; Some duplicateName; Some invalidName; Some invalidValue]
  ∧ map (λ e : string * Z, string_of_number <$> parseIntegerAtLeast (js e.1) e.2)
      [("2", 1); ("1.5", 1); ("-1", 0); ("not-a-number", 1)]%string = [Some (js "2"); None; None; None].
Proof. split; by_eval. Qed.
