(* ===== verification/AccountDialog.v ===== *)
(** * The upstream account dialog: draft and payloads

    Model of [web/default/src/features/upstream-accounts/account-dialog.tsx]:
    the draft an account is opened as, the handlers that edit it, and the
    parts of the request a save sends. Payload parts are objects, lists of
    properties in insertion order; a property set to [null] is present.

    The account, its metadata and the extra settings are read at the types
    the source declares for them: the extra settings are arbitrary JSON, but
    their compact model mapping is an object of strings and their
    capabilities an array of strings, or counted as absent. The browser's
    time zone is behind the parameters [localDateTime] and [epochSeconds]. *)

From Stdlib Require Import String.
From S2P Require Import JsJson JsonText JsArith JsObject.
From S2P Require Export AccountValidation.

(** ** Calls that may throw a message *)

(** The errors a save shows: a message, translated where the dialog throws
    it, or the engine's own text of a [TypeError]. *)
Inductive failure := Message (text : jstr) | TypeError.

#[export] Instance failure_eq_dec : EqDecision failure.
Proof. solve_decision. Defined.

Inductive checked (A : Type) : Type := Done (a : A) | Failed (e : failure).
Arguments Done {A} a.
Arguments Failed {A} e.

#[export] Instance checked_ret : MRet checked := λ A a, Done a.
#[export] Instance checked_bind : MBind checked := λ A B f m,
  match m with Done a => f a | Failed e => Failed e end.
#[export] Instance checked_fmap : FMap checked := λ A B f m,
  match m with Done a => Done (f a) | Failed e => Failed e end.

(** Unlike [injection], this does not evaluate the values. *)
Lemma Done_inj {A} (x y : A) : Done x = Done y → x = y.
Proof. by intros [=]. Qed.

Lemma bind_Done {A B} (m : checked A) (f : A → checked B) b :
  m ≫= f = Done b → ∃ a, m = Done a ∧ f a = Done b.
Proof. destruct m; cbn; [eauto|done]. Qed.

Definition error {A} (text : string) : checked A := Failed (Message (js text)).

(** [if (bad) throw new Error(t(text))] *)
Definition reject_if (bad : bool) (text : string) : checked unit :=
  if bad then error text else Done ().

Fixpoint checked_map {A B} (f : A → checked B) (l : list A) : checked (list B) :=
  match l with
  | [] => Done []
  | x :: l' => y ← f x; ys ← checked_map f l'; Done (y :: ys)
  end.

(** [v.name] of a parsed value: [null] has no properties to read. *)
Definition prop (v : json) (name : string) : checked (option json) :=
  match v with JNull => Failed TypeError | _ => Done (opt_prop (Some v) name) end.

(** ** Data *)

Inductive UpstreamPlatform := openai | anthropic.
Inductive UpstreamAccountType := oauth | setup_token | apikey | bedrock | service_account.
Inductive BedrockAuthMode := sigv4 | api_key.
Inductive AccountModelRestrictionMode := whitelist | mapping_mode.
Inductive UpstreamOAuthRefreshOwner := external | starnexus.

#[export] Instance UpstreamPlatform_eq_dec : EqDecision UpstreamPlatform.
Proof. solve_decision. Defined.
#[export] Instance UpstreamAccountType_eq_dec : EqDecision UpstreamAccountType.
Proof. solve_decision. Defined.
#[export] Instance BedrockAuthMode_eq_dec : EqDecision BedrockAuthMode.
Proof. solve_decision. Defined.
#[export] Instance UpstreamOAuthRefreshOwner_eq_dec : EqDecision UpstreamOAuthRefreshOwner.
Proof. solve_decision. Defined.

Definition platform_text (p : UpstreamPlatform) : json :=
  match p with openai => str "openai" | anthropic => str "anthropic" end.

Definition type_text (t : UpstreamAccountType) : json :=
  match t with
  | oauth => str "oauth" | setup_token => str "setup_token" | apikey => str "apikey"
  | bedrock => str "bedrock" | service_account => str "service_account"
  end.

Definition auth_mode_text (m : BedrockAuthMode) : json :=
  match m with sigv4 => str "sigv4" | api_key => str "api_key" end.

Definition status_text (s : EditableAccountStatus) : json :=
  match s with
  | active => str "active" | inactive => str "inactive" | error_status => str "error"
  | expired => str "expired"
  end.

Definition restriction_mode_text (m : AccountModelRestrictionMode) : json :=
  match m with whitelist => str "whitelist" | mapping_mode => str "mapping" end.

Definition owner_text (o : UpstreamOAuthRefreshOwner) : json :=
  match o with external => str "external" | starnexus => str "starnexus" end.

Record TempUnschedRuleDraft := {
  error_code : jstr;
  keywords : jstr;
  duration_seconds : jstr;
  description : jstr;
}.

#[export] Instance TempUnschedRuleDraft_eq_dec : EqDecision TempUnschedRuleDraft.
Proof. solve_decision. Defined.

(** [UpstreamAccount.metadata]: what the server tells of the credentials. *)
Record AccountMetadata := {
  credential_readable : bool;
  meta_base_url : option jstr;
  meta_model_mapping : option string_record;
  meta_compact_model_mapping : option string_record;
  meta_openai_capabilities : option (list jstr);
  meta_intercept_warmup_requests : option bool;
  meta_temp_unschedulable_enabled : option bool;
  meta_temp_unschedulable_rules : option (list json);
  meta_header_override_enabled : option bool;
  meta_header_overrides : option json;
  meta_bedrock_auth_mode : option jstr;
  meta_aws_region : option jstr;
  meta_aws_access_key_id : option jstr;
  meta_vertex_location : option jstr;
}.

Record UpstreamAccount := {
  acc_id : jsnum;
  acc_name : jstr;
  acc_notes : option jstr;
  acc_platform : UpstreamPlatform;
  acc_type : UpstreamAccountType;
  acc_extra : jstr;
  acc_proxy_id : option jsnum;
  acc_concurrency : jsnum;
  acc_priority : jsnum;
  acc_weight : jsnum;
  acc_load_factor : option jsnum;
  acc_rate_multiplier : option jsnum;
  acc_status : EditableAccountStatus;
  acc_schedulable : bool;
  acc_expires_at : option jsnum;
  acc_auto_pause_on_expired : bool;
  acc_oauth_refresh_owner : UpstreamOAuthRefreshOwner;
  acc_pool_ids : list jsnum;
  acc_metadata : AccountMetadata;
}.

Record AccountDraft := {
  name : jstr;
  notes : jstr;
  platform : UpstreamPlatform;
  type : UpstreamAccountType;
  apiKey : jstr;
  baseUrl : jstr;
  oauthInput : jstr;
  proxyId : jstr;
  concurrency : jstr;
  priority : jstr;
  weight : jstr;
  loadFactor : jstr;
  rateMultiplier : jstr;
  expiresAt : jstr;
  autoPauseOnExpired : bool;
  status : EditableAccountStatus;
  schedulable : bool;
  starnexusOwnsOAuthRefresh : bool;
  poolIds : list jsnum;
  bedrockAuthMode : BedrockAuthMode;
  bedrockRegion : jstr;
  bedrockAccessKeyId : jstr;
  bedrockSecretAccessKey : jstr;
  bedrockSessionToken : jstr;
  bedrockApiKey : jstr;
  vertexServiceAccountJson : jstr;
  vertexLocation : jstr;
  interceptWarmupRequests : bool;
  headerOverrideEnabled : bool;
  headerOverrideRows : list HeaderOverrideRow;
  openaiPassthrough : bool;
  openaiWebSocketMode : json;
  openaiLongContextBilling : bool;
  codexCLIOnly : bool;
  codexCLIOnlyAllowAppServer : bool;
  codexFingerprintMode : json;
  openaiCompactMode : json;
  compactModelMappings : list ModelMappingRow;
  openaiResponsesMode : json;
  openaiEndpointCapabilities : list jstr;
  anthropicPassthrough : bool;
  anthropicAPIKeyAuthScheme : json;
  modelRestrictionMode : AccountModelRestrictionMode;
  allowedModels : list jstr;
  modelMappings : list ModelMappingRow;
  tempUnschedEnabled : bool;
  tempUnschedRules : list TempUnschedRuleDraft;
}.

Definition defaultOpenAIEndpointCapabilities : list jstr :=
  map js ["chat_completions"; "embeddings"]%string.

(** ** Opening an account *)

Definition parseAccountExtra (extra : option jstr) : object :=
  match extra with
  | None => []
  | Some text =>
      if nonempty (trim text) then
        match json_parse text with Some (JObj parsed) => parsed | _ => [] end
      else []
  end.

Definition compactMappingsFromMap (mapping : option string_record) : list ModelMappingRow :=
  match mapping with
  | None => []
  | Some m => map (λ e : jstr * jstr, {| from := e.1; to := e.2 |}) (own_entries m)
  end.

Definition string_of_value (v : json) : option jstr :=
  match v with JStr s => Some s | _ => None end.

Definition formatTempUnschedKeywords (value : option json) : jstr :=
  match value with
  | Some (JArr l) => join (js ", ") (filterb nonempty (map trim (omap string_of_value l)))
  | Some (JStr s) => s
  | _ => []
  end.

(** The text of a finite number, by [Number.isFinite] after [typeof]. *)
Definition finite_text (v : option json) : option jstr :=
  match v with
  | Some (JNum x) => if is_finite x then Some (string_of_number x) else None
  | _ => None
  end.

(** Legacy rules count minutes. *)
Definition minutes_text (v : option json) : option jstr :=
  match v with
  | Some (JNum x) => if is_finite x then Some (string_of_number (num_mul x (num_of_Z 60))) else None
  | _ => None
  end.

Definition loadTempUnschedRule (rule : json) : checked TempUnschedRuleDraft :=
  code ← prop rule "error_code";
  words ← prop rule "keywords";
  seconds ← prop rule "duration_seconds";
  minutes ← prop rule "duration_minutes";
  text ← prop rule "description";
  Done {| error_code := default [] (finite_text code);
          keywords := formatTempUnschedKeywords words;
          duration_seconds :=
            match finite_text seconds with
            | Some s => s
            | None => default [] (minutes_text minutes)
            end;
          description := match text with Some (JStr s) => s | _ => [] end |}.

Definition loadTempUnschedRules (rules : option json) : checked (list TempUnschedRuleDraft) :=
  match rules with
  | Some (JArr l) => checked_map loadTempUnschedRule l
  | _ => Done []
  end.

(** [extra.openai_capabilities] and [extra.compact_model_mapping], at their
    declared types *)
Definition string_array (v : option json) : list jstr :=
  match v with Some (JArr l) => omap string_of_value l | _ => [] end.

Definition as_string_record (v : option json) : option string_record :=
  match v with
  | Some (JObj o) =>
      traverse (λ e : jstr * json, s ← string_of_value e.2; Some (e.1, s)) o
  | _ => None
  end.

(** [a || b] of optional texts *)
Definition text_or (a : option jstr) (b : jstr) : jstr :=
  match a with Some ((_ :: _) as s) => s | _ => b end.

Example text_or_sample : text_or (Some (js "us")) [] = js "us" ∧ text_or (Some []) (js "d") = js "d" ∧ text_or None (js "d") = js "d".
Proof. done. Qed.

(** The number is neither [undefined] nor falsy. *)
Definition num_truthy (v : option jsnum) : bool :=
  match v with Some x => truthy (JNum x) | None => false end.

Section host.
Context (localeCompare : jstr → jstr → Z) (localDateTime : jsnum → jstr).

Definition timestampToLocalInput (timestamp : option jsnum) : jstr :=
  match timestamp with
  | Some t => if truthy (JNum t) then localDateTime t else []
  | None => []
  end.

(** [metadata.temp_unschedulable_rules?.length ? metadata... : extra...] *)
Definition stored_rules (metadata : option AccountMetadata) (extra : object) : option json :=
  match metadata ≫= meta_temp_unschedulable_rules with
  | Some ((_ :: _) as l) => Some (JArr l)
  | _ => fld extra "temp_unschedulable_rules"
  end.

Definition stored_capabilities (metadata : option AccountMetadata) (extra : object) : list jstr :=
  match metadata ≫= meta_openai_capabilities with
  | Some ((_ :: _) as l) => l
  | _ =>
      match string_array (fld extra "openai_capabilities") with
      | (_ :: _) as l => l
      | [] => defaultOpenAIEndpointCapabilities
      end
  end.

Definition stored_compact_mapping (metadata : option AccountMetadata) (extra : object)
    : option string_record :=
  match metadata ≫= meta_compact_model_mapping with
  | Some m => Some m
  | None => as_string_record (fld extra "compact_model_mapping")
  end.

Definition initial_restriction_mode (r : ModelRestriction) : AccountModelRestrictionMode :=
  if nonempty (remapped r) && negb (nonempty (restricted_to r)) then mapping_mode else whitelist.

Definition accountDraft (account : option UpstreamAccount) : checked AccountDraft :=
  let extra := parseAccountExtra (acc_extra <$> account) in
  let metadata := acc_metadata <$> account in
  let modelRestriction := splitAccountModelMapping (metadata ≫= meta_model_mapping) in
  let websocketMode :=
    if bool_decide (acc_type <$> account = Some apikey)
    then fld extra "openai_apikey_responses_websockets_v2_mode"
    else fld extra "openai_oauth_responses_websockets_v2_mode" in
  let unschedEnabled :=
    bool_decide (metadata ≫= meta_temp_unschedulable_enabled = Some true)
    || is_true (fld extra "temp_unschedulable_enabled") in
  rules ← loadTempUnschedRules (stored_rules metadata extra);
  Done
  {| name := default [] (acc_name <$> account);
     notes := default [] (account ≫= acc_notes);
     platform := default openai (acc_platform <$> account);
     type := default oauth (acc_type <$> account);
     apiKey := [];
     baseUrl := default [] (metadata ≫= meta_base_url);
     oauthInput := [];
     proxyId :=
       match account ≫= acc_proxy_id with
       | Some x => if truthy (JNum x) then string_of_number x else []
       | None => []
       end;
     concurrency := string_of_number (default (num_of_Z 1) (acc_concurrency <$> account));
     priority := string_of_number (default (num_of_Z 50) (acc_priority <$> account));
     weight := string_of_number (default (num_of_Z 1) (acc_weight <$> account));
     loadFactor := default [] (string_of_number <$> (account ≫= acc_load_factor));
     rateMultiplier := default (js "1") (string_of_number <$> (account ≫= acc_rate_multiplier));
     expiresAt := timestampToLocalInput (account ≫= acc_expires_at);
     autoPauseOnExpired := default true (acc_auto_pause_on_expired <$> account);
     status := default active (acc_status <$> account);
     schedulable := default true (acc_schedulable <$> account);
     starnexusOwnsOAuthRefresh :=
       negb (bool_decide (acc_oauth_refresh_owner <$> account = Some external));
     poolIds := default [] (acc_pool_ids <$> account);
     bedrockAuthMode :=
       if bool_decide (metadata ≫= meta_bedrock_auth_mode = Some (js "apikey"))
          || bool_decide (metadata ≫= meta_bedrock_auth_mode = Some (js "api_key"))
       then api_key else sigv4;
     bedrockRegion := text_or (metadata ≫= meta_aws_region) (js "us-east-1");
     bedrockAccessKeyId := text_or (metadata ≫= meta_aws_access_key_id) [];
     bedrockSecretAccessKey := [];
     bedrockSessionToken := [];
     bedrockApiKey := [];
     vertexServiceAccountJson := [];
     vertexLocation := text_or (metadata ≫= meta_vertex_location) (js "global");
     interceptWarmupRequests :=
       default (is_true (fld extra "intercept_warmup_requests"))
         (metadata ≫= meta_intercept_warmup_requests);
     headerOverrideEnabled :=
       bool_decide (metadata ≫= meta_header_override_enabled = Some true);
     headerOverrideRows :=
       splitHeaderOverridesObject localeCompare (metadata ≫= meta_header_overrides);
     openaiPassthrough := is_true (fld extra "openai_passthrough");
     openaiWebSocketMode := or_ websocketMode (str "off");
     openaiLongContextBilling := is_true (fld extra "openai_long_context_billing_enabled");
     codexCLIOnly := is_true (fld extra "codex_cli_only");
     codexCLIOnlyAllowAppServer := is_true (fld extra "codex_cli_only_allow_app_server");
     codexFingerprintMode := or_ (fld extra "codex_fingerprint_mode") (str "inherit");
     openaiCompactMode := or_ (fld extra "openai_compact_mode") (str "auto");
     compactModelMappings := compactMappingsFromMap (stored_compact_mapping metadata extra);
     openaiResponsesMode := or_ (fld extra "openai_responses_mode") (str "auto");
     openaiEndpointCapabilities := stored_capabilities metadata extra;
     anthropicPassthrough := is_true (fld extra "anthropic_passthrough");
     anthropicAPIKeyAuthScheme := or_ (fld extra "anthropic_apikey_auth_scheme") (str "x_api_key");
     modelRestrictionMode := initial_restriction_mode modelRestriction;
     allowedModels := restricted_to modelRestriction;
     modelMappings := remapped modelRestriction;
     tempUnschedEnabled := unschedEnabled;
     tempUnschedRules := rules |}.
End host.

(** ** The draft as JSON, for [JSON.stringify] *)

Definition rows_json (rows : list ModelMappingRow) : json :=
  JArr (map (λ r, JObj [entry "from" (JStr (from r)); entry "to" (JStr (to r))]) rows).

Definition header_rows_json (rows : list HeaderOverrideRow) : json :=
  JArr (map (λ r, JObj [entry "name" (JStr (header_name r)); entry "value" (JStr (header_value r))]) rows).

Definition rule_drafts_json (rules : list TempUnschedRuleDraft) : json :=
  JArr (map (λ r, JObj [entry "error_code" (JStr (error_code r)); entry "keywords" (JStr (keywords r));
                        entry "duration_seconds" (JStr (duration_seconds r));
                        entry "description" (JStr (description r))]) rules).

Definition strings_json (l : list jstr) : json := JArr (map JStr l).
Definition record_json (m : string_record) : json := JObj (map (λ e : jstr * jstr, (e.1, JStr e.2)) m).

Definition draft_object (d : AccountDraft) : object :=
  [entry "name" (JStr (name d)); entry "notes" (JStr (notes d));
   entry "platform" (platform_text (platform d)); entry "type" (type_text (type d));
   entry "apiKey" (JStr (apiKey d)); entry "baseUrl" (JStr (baseUrl d));
   entry "oauthInput" (JStr (oauthInput d)); entry "proxyId" (JStr (proxyId d));
   entry "concurrency" (JStr (concurrency d)); entry "priority" (JStr (priority d));
   entry "weight" (JStr (weight d)); entry "loadFactor" (JStr (loadFactor d));
   entry "rateMultiplier" (JStr (rateMultiplier d)); entry "expiresAt" (JStr (expiresAt d));
   entry "autoPauseOnExpired" (JBool (autoPauseOnExpired d)); entry "status" (status_text (status d));
   entry "schedulable" (JBool (schedulable d));
   entry "starnexusOwnsOAuthRefresh" (JBool (starnexusOwnsOAuthRefresh d));
   entry "poolIds" (JArr (map JNum (poolIds d)));
   entry "bedrockAuthMode" (auth_mode_text (bedrockAuthMode d));
   entry "bedrockRegion" (JStr (bedrockRegion d));
   entry "bedrockAccessKeyId" (JStr (bedrockAccessKeyId d));
   entry "bedrockSecretAccessKey" (JStr (bedrockSecretAccessKey d));
   entry "bedrockSessionToken" (JStr (bedrockSessionToken d));
   entry "bedrockApiKey" (JStr (bedrockApiKey d));
   entry "vertexServiceAccountJson" (JStr (vertexServiceAccountJson d));
   entry "vertexLocation" (JStr (vertexLocation d));
   entry "interceptWarmupRequests" (JBool (interceptWarmupRequests d));
   entry "headerOverrideEnabled" (JBool (headerOverrideEnabled d));
   entry "headerOverrideRows" (header_rows_json (headerOverrideRows d));
   entry "openaiPassthrough" (JBool (openaiPassthrough d));
   entry "openaiWebSocketMode" (openaiWebSocketMode d);
   entry "openaiLongContextBilling" (JBool (openaiLongContextBilling d));
   entry "codexCLIOnly" (JBool (codexCLIOnly d));
   entry "codexCLIOnlyAllowAppServer" (JBool (codexCLIOnlyAllowAppServer d));
   entry "codexFingerprintMode" (codexFingerprintMode d);
   entry "openaiCompactMode" (openaiCompactMode d);
   entry "compactModelMappings" (rows_json (compactModelMappings d));
   entry "openaiResponsesMode" (openaiResponsesMode d);
   entry "openaiEndpointCapabilities" (strings_json (openaiEndpointCapabilities d));
   entry "anthropicPassthrough" (JBool (anthropicPassthrough d));
   entry "anthropicAPIKeyAuthScheme" (anthropicAPIKeyAuthScheme d);
   entry "modelRestrictionMode" (restriction_mode_text (modelRestrictionMode d));
   entry "allowedModels" (strings_json (allowedModels d));
   entry "modelMappings" (rows_json (modelMappings d));
   entry "tempUnschedEnabled" (JBool (tempUnschedEnabled d));
   entry "tempUnschedRules" (rule_drafts_json (tempUnschedRules d))].

(** [credentialBackedSettings(draft)]: the settings stored with the credentials. *)
Definition credentialBackedSettings (d : AccountDraft) : object :=
  [entry "baseUrl" (JStr (baseUrl d)); entry "bedrockAuthMode" (auth_mode_text (bedrockAuthMode d));
   entry "bedrockRegion" (JStr (bedrockRegion d)); entry "vertexLocation" (JStr (vertexLocation d));
   entry "interceptWarmupRequests" (JBool (interceptWarmupRequests d));
   entry "tempUnschedEnabled" (JBool (tempUnschedEnabled d));
   entry "tempUnschedRules" (rule_drafts_json (tempUnschedRules d));
   entry "compactModelMappings" (rows_json (compactModelMappings d));
   entry "openaiEndpointCapabilities" (strings_json (openaiEndpointCapabilities d));
   entry "allowedModels" (strings_json (allowedModels d));
   entry "modelMappings" (rows_json (modelMappings d));
   entry "headerOverrideEnabled" (JBool (headerOverrideEnabled d));
   entry "headerOverrideRows" (header_rows_json (headerOverrideRows d))].

Definition credentialBackedSettingsChanged (initial current : object) : bool :=
  negb (bool_decide (json_stringify (JObj initial) = json_stringify (JObj current))).

(** ** What is saved of the temporary rules *)

(** [Math.trunc(x)] *)
Definition math_trunc (x : jsnum) : jsnum :=
  match x with
  | S754_finite s m e =>
      if 0 <=? e then x
      else
        let n := Z.pos m / 2 ^ (- e) in
        if n =? 0 then S754_zero s else num_of_Z (if s then - n else n)
  | _ => x
  end.

Definition temp_rule_keywords (text : jstr) : list jstr :=
  filterb nonempty (map trim (split_char c_comma text)).

Record TempUnschedRule := {
  rule_code : jsnum;
  rule_keywords : list jstr;
  rule_duration : jsnum;
  rule_description : jstr;
}.

Definition build_temp_rule (rule : TempUnschedRuleDraft) : option TempUnschedRule :=
  let errorCode := number_of_string (error_code rule) in
  let duration := number_of_string (duration_seconds rule) in
  let words := temp_rule_keywords (keywords rule) in
  if negb (is_finite errorCode) || num_lt errorCode (num_of_Z 100) || num_lt (num_of_Z 599) errorCode
  then None
  else if negb (is_finite duration) || num_le duration (num_of_Z 0) then None
  else if negb (nonempty words) then None
  else Some {| rule_code := math_trunc errorCode; rule_keywords := words;
               rule_duration := math_trunc duration; rule_description := trim (description rule) |}.

Definition buildTempUnschedRules (rules : list TempUnschedRuleDraft) : list TempUnschedRule :=
  omap build_temp_rule rules.

Definition temp_rule_json (r : TempUnschedRule) : json :=
  JObj [entry "error_code" (JNum (rule_code r)); entry "keywords" (strings_json (rule_keywords r));
        entry "duration_seconds" (JNum (rule_duration r));
        entry "description" (JStr (rule_description r))].

Definition temp_rules_json (rules : list TempUnschedRuleDraft) : json :=
  JArr (map temp_rule_json (buildTempUnschedRules rules)).

(** ** Credentials *)

Definition isOAuthAccountType (t : UpstreamAccountType) : bool :=
  match t with oauth | setup_token => true | _ => false end.

Definition isHeaderOverrideCapable (p : UpstreamPlatform) (t : UpstreamAccountType) : bool :=
  (bool_decide (p = openai) || bool_decide (p = anthropic)) && bool_decide (t = apikey).

(** [s.trim()] is not empty. *)
Definition filled (s : jstr) : bool := nonempty (trim s).

Definition hasReplacementCredentials (d : AccountDraft) : bool :=
  if isOAuthAccountType (type d) then filled (oauthInput d)
  else match type d with
       | apikey => filled (apiKey d)
       | bedrock =>
           match bedrockAuthMode d with
           | api_key => filled (bedrockApiKey d)
           | sigv4 => filled (bedrockAccessKeyId d) || filled (bedrockSecretAccessKey d)
           end
       | service_account => filled (vertexServiceAccountJson d)
       | _ => false
       end.

Definition trimmed (s : jstr) : json := JStr (trim s).

(** The pasted service account: its text must parse, and be no [null]. *)
Definition parse_service_account (raw : jstr) : checked json :=
  match json_parse raw with
  | Some parsed => Done parsed
  | None => error "Service account JSON is invalid"
  end.

Definition buildCredentialPayload (d : AccountDraft) : checked (option object) :=
  match type d with
  | apikey =>
      if negb (filled (apiKey d)) then Done None
      else
        let credentials := put "api_key" (trimmed (apiKey d)) [] in
        Done (Some (if filled (baseUrl d) then put "base_url" (trimmed (baseUrl d)) credentials
                    else credentials))
  | bedrock =>
      _ ← reject_if (negb (filled (bedrockRegion d))) "AWS region is required";
      match bedrockAuthMode d with
      | api_key =>
          if negb (filled (bedrockApiKey d)) then Done None
          else Done (Some [entry "auth_mode" (str "apikey");
                           entry "aws_region" (trimmed (bedrockRegion d));
                           entry "api_key" (trimmed (bedrockApiKey d))])
      | sigv4 =>
          if negb (filled (bedrockAccessKeyId d)) && negb (filled (bedrockSecretAccessKey d)) then Done None
          else
            _ ← reject_if (negb (filled (bedrockAccessKeyId d)) || negb (filled (bedrockSecretAccessKey d)))
                  "AWS access key ID and secret access key are required";
            let credentials :=
              [entry "auth_mode" (str "sigv4"); entry "aws_region" (trimmed (bedrockRegion d));
               entry "aws_access_key_id" (trimmed (bedrockAccessKeyId d));
               entry "aws_secret_access_key" (trimmed (bedrockSecretAccessKey d))] in
            Done (Some (if filled (bedrockSessionToken d)
                        then put "aws_session_token" (trimmed (bedrockSessionToken d)) credentials
                        else credentials))
      end
  | service_account =>
      let raw := trim (vertexServiceAccountJson d) in
      if negb (nonempty raw) then Done None
      else
        parsed ← parse_service_account raw;
        _ ← reject_if (negb (filled (vertexLocation d))) "Vertex location is required";
        project ← prop parsed "project_id";
        email ← prop parsed "client_email";
        Done (Some [entry "service_account_json" (JStr raw); entry "project_id" (or_ project (str ""));
                    entry "client_email" (or_ email (str "")); entry "location" (trimmed (vertexLocation d));
                    entry "tier_id" (str "vertex")])
  | _ => Done None
  end.

Definition modelMappingErrorMessage (e : ModelMappingValidationError) (compact : bool) : jstr :=
  match e with
  | missingPair =>
      js (if compact then "Compact model mappings require both models"
          else "Model mappings require both model names")
  | invalidSourceWildcard => js "A wildcard can only appear once at the end"
  | wildcardTarget => js "Target models cannot contain wildcards"
  | duplicateSource => js "Compact model mapping sources must be unique"
  end.

Definition checked_mapping (r : ModelMappingBuildResult) (compact : bool) : checked (option string_record) :=
  match r with
  | inl mapping => Done mapping
  | inr e => Failed (Message (modelMappingErrorMessage e compact))
  end.

Definition allow_step (mapping : string_record) (rawModel : jstr) : string_record :=
  let model := trim rawModel in
  if nonempty model && negb (includes (js "*") model) then obj_set mapping model model else mapping.

Definition buildModelRestrictionMapping (d : AccountDraft) : checked (option string_record) :=
  let mapping := foldl allow_step [] (allowedModels d) in
  result ← checked_mapping (buildValidatedModelMapping (modelMappings d) false) false;
  Done (null_if_empty
          (foldl (λ m (e : jstr * jstr), obj_set m e.1 e.2) mapping (own_entries (default [] result)))).

Definition buildCompactModelMapping (d : AccountDraft) : checked (option string_record) :=
  checked_mapping (buildValidatedModelMapping (compactModelMappings d) true) true.

(** The capabilities the server knows. *)
Definition known_capabilities (d : AccountDraft) : list jstr :=
  filterb (λ c, bool_decide (c ∈ defaultOpenAIEndpointCapabilities)) (openaiEndpointCapabilities d).

Definition sends_restriction (d : AccountDraft) : bool :=
  negb (bool_decide (platform d = openai) && openaiPassthrough d).

(** [if (mapping) o.name = mapping; else delete o.name] *)
Definition put_record (name : string) (m : option string_record) (o : object) : object :=
  match m with Some m => put name (record_json m) o | None => del name o end.

Definition null_or_record (m : option string_record) : json :=
  match m with Some m => record_json m | None => JNull end.

Section credentials.
Context (toLowerCase : jstr → jstr).

Definition header_overrides_json (d : AccountDraft) : json :=
  record_json (buildHeaderOverridesObject toLowerCase (headerOverrideRows d)).

Definition applyCredentialBackedSettings (d : AccountDraft) (credentials : object) : checked object :=
  c1 ← (if sends_restriction d then
          m ← buildModelRestrictionMapping d; Done (put_record "model_mapping" m credentials)
        else Done credentials);
  let c2 := put_if (interceptWarmupRequests d) "intercept_warmup_requests" (JBool true) c1 in
  let c3 := put "temp_unschedulable_enabled" (JBool (tempUnschedEnabled d)) c2 in
  let c4 := put_if (tempUnschedEnabled d) "temp_unschedulable_rules" (temp_rules_json (tempUnschedRules d)) c3 in
  let c5 :=
    if isHeaderOverrideCapable (platform d) (type d) then
      put_if (headerOverrideEnabled d) "header_overrides" (header_overrides_json d)
        (put_if (headerOverrideEnabled d) "header_override_enabled" (JBool true) c4)
    else c4 in
  if bool_decide (platform d = openai) then
    compact ← buildCompactModelMapping d;
    let c6 := put_record "compact_model_mapping" compact c5 in
    Done (put_if
            (bool_decide (type d = apikey)
             && negb (length (openaiEndpointCapabilities d) =? length defaultOpenAIEndpointCapabilities)%nat)
            "openai_capabilities" (strings_json (known_capabilities d)) c6)
  else Done c5.

(** [if (filled) patch.name = text.trim()] *)
Definition put_filled (name : string) (text : jstr) (o : object) : object :=
  if filled text then put name (trimmed text) o else o.

(** The part of the patch that depends on the kind of the account. *)
Definition patch_secrets (d : AccountDraft) (patch : object) : checked object :=
  match type d with
  | apikey =>
      Done (put_filled "api_key" (apiKey d)
              (put "base_url" (if filled (baseUrl d) then trimmed (baseUrl d) else JNull) patch))
  | bedrock =>
      _ ← reject_if (negb (filled (bedrockRegion d))) "AWS region is required";
      let p := put "aws_region" (trimmed (bedrockRegion d))
                 (put "auth_mode"
                    (match bedrockAuthMode d with api_key => str "apikey" | sigv4 => str "sigv4" end) patch) in
      Done (match bedrockAuthMode d with
            | api_key => put_filled "api_key" (bedrockApiKey d) p
            | sigv4 =>
                put_filled "aws_session_token" (bedrockSessionToken d)
                  (put_filled "aws_secret_access_key" (bedrockSecretAccessKey d)
                     (put_filled "aws_access_key_id" (bedrockAccessKeyId d) p))
            end)
  | service_account =>
      _ ← reject_if (negb (filled (vertexLocation d))) "Vertex location is required";
      let p := put "location" (trimmed (vertexLocation d)) patch in
      let raw := trim (vertexServiceAccountJson d) in
      if nonempty raw then
        parsed ← parse_service_account raw;
        project ← prop parsed "project_id";
        email ← prop parsed "client_email";
        Done (put "tier_id" (str "vertex")
                (put "client_email" (or_ email (str ""))
                   (put "project_id" (or_ project (str ""))
                      (put "service_account_json" (JStr raw) p))))
      else Done p
  | _ => Done patch
  end.

(** The stored credentials cannot be read. *)
Definition unreadable (account : option UpstreamAccount) : bool :=
  match account with Some a => negb (credential_readable (acc_metadata a)) | None => false end.

Definition buildCredentialPatch (account : option UpstreamAccount) (d : AccountDraft)
    (allowUnreadable : bool) : checked object :=
  if unreadable account && negb allowUnreadable then Done []
  else
    p1 ← (if sends_restriction d then
            m ← buildModelRestrictionMapping d; Done (put "model_mapping" (null_or_record m) [])
          else Done []);
    let p2 := put "intercept_warmup_requests"
                (if interceptWarmupRequests d then JBool true else JNull) p1 in
    let p3 := put "temp_unschedulable_enabled" (JBool (tempUnschedEnabled d)) p2 in
    let p4 := put "temp_unschedulable_rules"
                (if tempUnschedEnabled d then temp_rules_json (tempUnschedRules d) else JNull) p3 in
    let p5 :=
      if isHeaderOverrideCapable (platform d) (type d) then
        put "header_overrides" (if headerOverrideEnabled d then header_overrides_json d else JNull)
          (put "header_override_enabled" (if headerOverrideEnabled d then JBool true else JNull) p4)
      else p4 in
    p7 ← (if bool_decide (platform d = openai) then
            compact ← buildCompactModelMapping d;
            let p6 := put "compact_model_mapping" (null_or_record compact) p5 in
            Done (if bool_decide (type d = apikey) then
                    put "openai_capabilities"
                      (if (length (known_capabilities d) =? length defaultOpenAIEndpointCapabilities)%nat
                       then JNull else strings_json (known_capabilities d)) p6
                  else p6)
          else Done p5);
    patch_secrets d p7.

(** ** The extra settings *)

Definition managedKeys : list string :=
  ["openai_passthrough"; "openai_oauth_passthrough"; "openai_oauth_responses_websockets_v2_mode";
   "openai_oauth_responses_websockets_v2_enabled"; "openai_apikey_responses_websockets_v2_mode";
   "openai_apikey_responses_websockets_v2_enabled"; "responses_websockets_v2_enabled";
   "openai_ws_enabled"; "openai_long_context_billing_enabled"; "codex_cli_only";
   "codex_cli_only_allow_app_server"; "codex_cli_only_allowed_clients"; "codex_fingerprint_mode";
   "openai_compact_mode"; "openai_responses_mode"; "anthropic_passthrough";
   "anthropic_apikey_auth_scheme"; "temp_unschedulable_enabled"; "temp_unschedulable_rules"]%string.

(** The keys that are kept with the credentials, when these can be read. *)
Definition credential_keys : list string :=
  ["intercept_warmup_requests"; "compact_model_mapping"; "openai_capabilities";
   "temp_unschedulable_enabled"; "temp_unschedulable_rules"]%string.

Definition del_all (keys : list string) (o : object) : object := foldl (λ o k, del k o) o keys.

(** [if (c) extra.name = v] *)
Definition put_when (c : bool) (name : string) (v : json) (o : object) : object :=
  if c then put name v o else o.

Lemma fld_put_when c n v o k :
  fld (put_when c n v o) k = if decide (js n = js k) then (if c then Some v else fld o k) else fld o k.
Proof. unfold put_when. destruct c; [apply fld_put|by case_decide]. Qed.

Lemma put_when_frame c n v o k : k ≠ js n → map_get (put_when c n v o) k = map_get o k.
Proof. intros. unfold put_when. destruct c; [by apply put_frame|done]. Qed.

Definition differs (v : json) (text : string) : bool := negb (is_str (Some v) (js text)).

Definition openai_extra (d : AccountDraft) (extra : object) : object :=
  let e1 := put_when (openaiPassthrough d) "openai_passthrough" (JBool true) extra in
  let e2 := put "openai_long_context_billing_enabled" (JBool (openaiLongContextBilling d)) e1 in
  let e3 :=
    match type d with
    | oauth =>
        put_when (codexCLIOnly d && codexCLIOnlyAllowAppServer d)
          "codex_cli_only_allow_app_server" (JBool true)
          (put_when (codexCLIOnly d) "codex_cli_only" (JBool true)
             (put_when (differs (codexFingerprintMode d) "inherit")
                "codex_fingerprint_mode" (codexFingerprintMode d)
                (put "openai_oauth_responses_websockets_v2_mode" (openaiWebSocketMode d) e2)))
    | apikey =>
        put_when
          (bool_decide (js "chat_completions" ∈ openaiEndpointCapabilities d)
           && differs (openaiResponsesMode d) "auto")
          "openai_responses_mode" (openaiResponsesMode d)
          (put "openai_apikey_responses_websockets_v2_mode" (openaiWebSocketMode d) e2)
    | _ => e2
    end in
  put_when (differs (openaiCompactMode d) "auto") "openai_compact_mode" (openaiCompactMode d) e3.

Definition anthropic_extra (d : AccountDraft) (extra : object) : object :=
  put_when (differs (anthropicAPIKeyAuthScheme d) "x_api_key")
    "anthropic_apikey_auth_scheme" (anthropicAPIKeyAuthScheme d)
    (put_when (anthropicPassthrough d) "anthropic_passthrough" (JBool true) extra).

Definition account_extra (account : option UpstreamAccount) (d : AccountDraft) : object :=
  let stored := del_all managedKeys (parseAccountExtra (acc_extra <$> account)) in
  let e1 := if negb (unreadable account) then del_all credential_keys stored else stored in
  let e2 :=
    if tempUnschedEnabled d then
      put "temp_unschedulable_rules" (temp_rules_json (tempUnschedRules d))
        (put "temp_unschedulable_enabled" (JBool true) e1)
    else e1 in
  let e3 := if bool_decide (platform d = openai) then openai_extra d e2 else e2 in
  if bool_decide (platform d = anthropic) && bool_decide (type d = apikey)
  then anthropic_extra d e3 else e3.

Definition buildAccountExtra (account : option UpstreamAccount) (d : AccountDraft) : jstr :=
  json_stringify (JObj (account_extra account d)).

(** ** The patch of a batch update *)

Section batch.
Context (initial d : AccountDraft).

(** [draftChanged(key)] compares the two values as JSON texts. *)
Definition draftChanged (key : string) : bool :=
  negb (bool_decide (json_stringify <$> fld (draft_object d) key
                     = json_stringify <$> fld (draft_object initial) key)).

Definition setExtra (key : string) (changed : bool) (value : json) (patch : object) : object :=
  if changed then put key value patch else patch.

Definition true_or_null (b : bool) : json := if b then JBool true else JNull.

(** The mode, or [null] for the default one. *)
Definition mode_or_null (mode : json) (dflt : string) : json :=
  if differs mode dflt then mode else JNull.

Definition openai_batch_extra (p : object) : object :=
  let websocketKey :=
    if bool_decide (type d = apikey) then "openai_apikey_responses_websockets_v2_mode"%string
    else "openai_oauth_responses_websockets_v2_mode"%string in
  setExtra "openai_responses_mode" (draftChanged "openaiResponsesMode")
    (mode_or_null (openaiResponsesMode d) "auto")
    (setExtra "openai_compact_mode" (draftChanged "openaiCompactMode")
       (mode_or_null (openaiCompactMode d) "auto")
       (setExtra "codex_fingerprint_mode" (draftChanged "codexFingerprintMode")
          (mode_or_null (codexFingerprintMode d) "inherit")
          (setExtra "codex_cli_only_allow_app_server" (draftChanged "codexCLIOnlyAllowAppServer")
             (true_or_null (codexCLIOnlyAllowAppServer d))
             (setExtra "codex_cli_only" (draftChanged "codexCLIOnly") (true_or_null (codexCLIOnly d))
                (setExtra websocketKey (draftChanged "openaiWebSocketMode")
                   (mode_or_null (openaiWebSocketMode d) "off") p))))).

Definition anthropic_batch_extra (p : object) : object :=
  setExtra "anthropic_apikey_auth_scheme" (draftChanged "anthropicAPIKeyAuthScheme")
    (mode_or_null (anthropicAPIKeyAuthScheme d) "x_api_key")
    (setExtra "anthropic_passthrough" (draftChanged "anthropicPassthrough")
       (true_or_null (anthropicPassthrough d)) p).

Definition buildBatchExtraPatch : object :=
  let p1 :=
    setExtra "openai_long_context_billing_enabled" (draftChanged "openaiLongContextBilling")
      (true_or_null (openaiLongContextBilling d))
      (setExtra "openai_passthrough" (draftChanged "openaiPassthrough")
         (true_or_null (openaiPassthrough d)) []) in
  let p2 := if bool_decide (platform d = openai) then openai_batch_extra p1 else p1 in
  let p3 := if bool_decide (platform d = anthropic) then anthropic_batch_extra p2 else p2 in
  if draftChanged "tempUnschedEnabled" then
    put "temp_unschedulable_rules"
      (if tempUnschedEnabled d then temp_rules_json (tempUnschedRules d) else JNull)
      (put "temp_unschedulable_enabled" (JBool (tempUnschedEnabled d)) p3)
  else if draftChanged "tempUnschedRules" then
    put "temp_unschedulable_rules" (temp_rules_json (tempUnschedRules d)) p3
  else p3.

(** The calls [include(key, ...fields)] of a batch, in their order. *)
Definition batch_includes : list (string * list string) :=
  let bedrock_secrets :=
    ["bedrockApiKey"; "bedrockAccessKeyId"; "bedrockSecretAccessKey"; "bedrockSessionToken"]%string in
  [("model_mapping", ["modelRestrictionMode"; "allowedModels"; "modelMappings"]);
   ("intercept_warmup_requests", ["interceptWarmupRequests"]);
   ("temp_unschedulable_enabled", ["tempUnschedEnabled"]);
   ("temp_unschedulable_rules", ["tempUnschedEnabled"; "tempUnschedRules"]);
   ("header_override_enabled", ["headerOverrideEnabled"]);
   ("header_overrides", ["headerOverrideEnabled"; "headerOverrideRows"]);
   ("compact_model_mapping", ["compactModelMappings"]);
   ("openai_capabilities", ["openaiEndpointCapabilities"]);
   ("base_url", ["baseUrl"]);
   ("auth_mode", "bedrockAuthMode" :: "bedrockRegion" :: bedrock_secrets);
   ("aws_region", "bedrockRegion" :: "bedrockAuthMode" :: bedrock_secrets);
   ("api_key", ["apiKey"; "bedrockApiKey"]);
   ("aws_access_key_id", ["bedrockAccessKeyId"; "bedrockAuthMode"]);
   ("aws_secret_access_key", ["bedrockSecretAccessKey"; "bedrockAuthMode"]);
   ("aws_session_token", ["bedrockSessionToken"]);
   ("location", ["vertexLocation"]);
   ("service_account_json", ["vertexServiceAccountJson"; "vertexLocation"]);
   ("project_id", ["vertexServiceAccountJson"]);
   ("client_email", ["vertexServiceAccountJson"]);
   ("tier_id", ["vertexServiceAccountJson"])]%string.

Definition include_step (fullPatch patch : object) (i : string * list string) : object :=
  if existsb draftChanged i.2 then
    match fld fullPatch i.1 with Some v => put i.1 v patch | None => patch end
  else patch.

Definition buildBatchCredentialPatch (account : option UpstreamAccount) : checked object :=
  fullPatch ← buildCredentialPatch account d false;
  Done (foldl (include_step fullPatch) [] batch_includes).

(** The payload properties a batch copies, with the field each comes from. *)
Definition batch_fields : list (string * string) :=
  [("name", "name"); ("notes", "notes"); ("proxyId", "proxy_id"); ("concurrency", "concurrency");
   ("priority", "priority"); ("weight", "weight"); ("loadFactor", "load_factor");
   ("rateMultiplier", "rate_multiplier"); ("status", "status"); ("schedulable", "schedulable");
   ("expiresAt", "expires_at"); ("autoPauseOnExpired", "auto_pause_on_expired");
   ("starnexusOwnsOAuthRefresh", "oauth_refresh_owner"); ("poolIds", "pool_ids")]%string.

Definition copy_changed (payload patch : object) (f : string * string) : object :=
  if draftChanged f.1 then
    match fld payload f.2 with Some v => put f.2 v patch | None => patch end
  else patch.

Definition buildBatchPatch (account : option UpstreamAccount) (payload : object) : checked object :=
  let p1 := foldl (copy_changed payload) [] batch_fields in
  let extraPatch := buildBatchExtraPatch in
  credentialPatch ← buildBatchCredentialPatch account;
  let p2 := put_when (nonempty extraPatch) "extra_patch" (JObj extraPatch) p1 in
  Done (put_when (nonempty credentialPatch) "credential_patch" (JObj credentialPatch) p2).
End batch.
End credentials.
