(* ===== verification/AccountSubmit.v ===== *)
(** * Saving an upstream account

    Model of [submit] of [web/default/src/features/upstream-accounts/account-dialog.tsx]:
    the checks of a draft in their order, the payload, and the calls to the
    server with what each of their answers leads to. A save is a computation
    that logs the calls it makes; the server is a parameter that answers
    each call, or rejects it. *)

From Stdlib Require Import String.
From S2P Require Import JsJson JsonText JsArith JsObject.
From S2P Require Export AccountDialog.

(** ** Calls and runs *)

Inductive Call :=
| CompleteOAuth (body : object)
| UpdateAccount (id : jsnum) (payload : object)
| CreateAccount (payload : object)
| BatchSave (patch : object).

(** [response.success], [response.message], [response.data?.id]; of a batch
    whether it was applied. *)
Record Response := { success : bool; message : option jstr; data_id : option jsnum }.

(** A computation that makes calls: their log, and its outcome. *)
Definition run (A : Type) : Type := list Call * checked A.

#[export] Instance run_ret : MRet run := λ A a, ([], Done a).
#[export] Instance run_bind : MBind run := λ A B f m,
  match m.2 with
  | Done a => (m.1 ++ (f a).1, (f a).2)
  | Failed e => (m.1, Failed e)
  end.

Definition lift {A} (m : checked A) : run A := ([], m).

(** The dialog closes after a save; a batch that is not applied keeps it open. *)
Inductive SubmitResult := Saved | KeptOpen.

(** ** The checks, in their order *)

Record CheckedNumbers := {
  n_concurrency : jsnum;
  n_priority : jsnum;
  n_weight : jsnum;
  n_loadFactor : option jsnum;
  n_rateMultiplier : jsnum;
  n_expiresAt : option jsnum;
}.

Definition integer_or (raw : jstr) (minimum : Z) (text : string) : checked jsnum :=
  match parseIntegerAtLeast raw minimum with Some x => Done x | None => error text end.

Definition header_error_text (e : HeaderOverrideValidationError) : string :=
  match e with
  | invalidName => "Invalid HTTP header override name"
  | blockedName => "This HTTP header cannot be overridden"
  | duplicateName => "HTTP header override names must be unique"
  | invalidValue => "Invalid HTTP header override value"
  | tooManyEntries => "HTTP header overrides support at most 64 entries"
  end.

Section submit.
Context (toLowerCase : jstr → jstr) (epochSeconds : jstr → jsnum).

Definition check_headers (d : AccountDraft) : checked unit :=
  if headerOverrideEnabled d then
    match validateHeaderOverrideRows toLowerCase (headerOverrideRows d) with
    | Some e => error (header_error_text e)
    | None => Done ()
    end
  else Done ().

(** The stored credentials cannot be read, no new ones are given, and a
    setting stored with them was edited. *)
Definition edits_unreadable (account : option UpstreamAccount) (initial d : AccountDraft) : bool :=
  unreadable account && negb (hasReplacementCredentials d)
  && credentialBackedSettingsChanged (credentialBackedSettings initial) (credentialBackedSettings d).

Definition load_factor_of (d : AccountDraft) : option jsnum :=
  if filled (loadFactor d) then Some (number_of_string (loadFactor d)) else None.

Definition rate_multiplier_of (d : AccountDraft) : jsnum :=
  if filled (rateMultiplier d) then number_of_string (rateMultiplier d) else num_of_Z 1.

Definition expires_at_of (d : AccountDraft) : option jsnum :=
  if nonempty (expiresAt d) then Some (epochSeconds (expiresAt d)) else None.

Definition bad_load_factor (x : option jsnum) : bool :=
  match x with Some x => negb (is_finite x) || num_lt x (num_of_Z 1) | None => false end.

Definition check_draft (account : option UpstreamAccount) (initial d : AccountDraft) : checked CheckedNumbers :=
  c ← integer_or (concurrency d) 1 "Concurrency must be a whole number of at least 1";
  p ← integer_or (priority d) 0 "Priority must be a non-negative whole number";
  w ← integer_or (weight d) 1 "Weight must be a whole number of at least 1";
  _ ← check_headers d;
  _ ← reject_if (edits_unreadable account initial d)
        "Replace the stored credentials before changing credential-backed settings.";
  _ ← reject_if (bad_load_factor (load_factor_of d)) "Load factor must be at least 1";
  _ ← reject_if (negb (is_finite (rate_multiplier_of d)) || num_lt (rate_multiplier_of d) (num_of_Z 0))
        "Billing rate multiplier cannot be negative";
  _ ← reject_if (match expires_at_of d with Some x => negb (is_finite x) | None => false end)
        "Expiration time is invalid";
  _ ← reject_if (tempUnschedEnabled d && negb (nonempty (buildTempUnschedRules (tempUnschedRules d))))
        "Add at least one rule with an error code, keywords, and duration.";
  Done {| n_concurrency := c; n_priority := p; n_weight := w; n_loadFactor := load_factor_of d;
          n_rateMultiplier := rate_multiplier_of d; n_expiresAt := expires_at_of d |}.

(** ** The payload *)

Definition num_or_null (x : option jsnum) : json := match x with Some x => JNum x | None => JNull end.

(** [draft.proxyId ? Number(draft.proxyId) : null] *)
Definition proxy_number (d : AccountDraft) : option jsnum :=
  if nonempty (proxyId d) then Some (number_of_string (proxyId d)) else None.

Definition refresh_owner (d : AccountDraft) : UpstreamOAuthRefreshOwner :=
  if isOAuthAccountType (type d) && starnexusOwnsOAuthRefresh d then starnexus else external.

Definition base_payload (account : option UpstreamAccount) (d : AccountDraft) (n : CheckedNumbers) : object :=
  [entry "name" (trimmed (name d)); entry "notes" (trimmed (notes d));
   entry "platform" (platform_text (platform d)); entry "type" (type_text (type d));
   entry "extra" (JStr (buildAccountExtra account d)); entry "proxy_id" (num_or_null (proxy_number d));
   entry "concurrency" (JNum (n_concurrency n)); entry "priority" (JNum (n_priority n));
   entry "weight" (JNum (n_weight n)); entry "load_factor" (num_or_null (n_loadFactor n));
   entry "rate_multiplier" (JNum (n_rateMultiplier n)); entry "status" (status_text (status d));
   entry "schedulable" (JBool (schedulable d)); entry "expires_at" (num_or_null (n_expiresAt n));
   entry "auto_pause_on_expired" (JBool (autoPauseOnExpired d));
   entry "oauth_refresh_owner" (owner_text (refresh_owner d));
   entry "pool_ids" (JArr (map JNum (poolIds d)))].

Definition exists_account (account : option UpstreamAccount) : bool :=
  match account with Some _ => true | None => false end.

(** The payload with the patch of the credentials, where there is one. *)
Definition patched_payload (account : option UpstreamAccount) (d : AccountDraft) (n : CheckedNumbers)
    : checked object :=
  let payload := base_payload account d n in
  if exists_account account || isOAuthAccountType (type d) then
    patch ← buildCredentialPatch toLowerCase account d
              (isOAuthAccountType (type d) && filled (oauthInput d));
    Done (put_when (nonempty patch) "credential_patch" (JObj patch) payload)
  else Done payload.

(** ** Sending it *)

Context (server : Call → checked Response).

Definition call (c : Call) : run Response := ([c], server c).

(** [throw new Error(response.message || t('Save failed'))] unless it succeeded *)
Definition answered (r : Response) (ok : bool) : run unit :=
  lift (if ok then Done () else Failed (Message (text_or (message r) (js "Save failed")))).

Definition save_batch (account : option UpstreamAccount) (initial d : AccountDraft) (payload : object)
    : run SubmitResult :=
  patch ← lift (buildBatchPatch toLowerCase initial d account payload);
  _ ← lift (reject_if (negb (nonempty patch)) "Select at least one field to update");
  applied ← call (BatchSave patch);
  mret (if success applied then Saved else KeptOpen).

Definition oauth_body (account : option UpstreamAccount) (d : AccountDraft) : object :=
  [entry "input" (trimmed (oauthInput d)); entry "name" (trimmed (name d));
   entry "pool_ids" (JArr (if exists_account account then map JNum (poolIds d) else []))]
  ++ opt_entry "proxy_id" (JNum <$> proxy_number d).

(** The account to update, and the payload for it: completing an
    authorization makes or renews the account, and stores the expiry of the
    credentials, which the update then leaves alone. *)
Definition complete_oauth (account : option UpstreamAccount) (d : AccountDraft) (payload : object)
    : run (option jsnum * object) :=
  if filled (oauthInput d) then
    r ← call (CompleteOAuth (oauth_body account d));
    _ ← answered r (success r && num_truthy (data_id r));
    mret (data_id r, del "expires_at" payload)
  else mret (acc_id <$> account, payload).

Definition save_oauth (account : option UpstreamAccount) (d : AccountDraft) (payload : object)
    : run SubmitResult :=
  _ ← lift (reject_if (filled (oauthInput d) && negb (starnexusOwnsOAuthRefresh d))
              "Enable StarNexus OAuth refresh ownership before reauthorizing this account.");
  _ ← lift (reject_if (negb (exists_account account) && negb (filled (oauthInput d)))
              "Paste the OAuth callback URL or code");
  target ← complete_oauth account d payload;
  match target.1 with
  | Some id =>
      _ ← lift (reject_if (negb (truthy (JNum id))) "Save failed");
      r ← call (UpdateAccount id target.2);
      _ ← answered r (success r);
      mret Saved
  | None => lift (error "Save failed")
  end.

(** The payload with whole credentials, for an account that is new or whose
    stored ones cannot be read. *)
Definition with_credentials (account : option UpstreamAccount) (d : AccountDraft) (payload : object)
    : checked object :=
  match account with
  | None =>
      credentials ← buildCredentialPayload d;
      match credentials with
      | None => error "Credentials are required"
      | Some c =>
          c' ← applyCredentialBackedSettings toLowerCase d c;
          Done (put "credentials" (JObj c') payload)
      end
  | Some a =>
      if credential_readable (acc_metadata a) then Done payload
      else
        credentials ← buildCredentialPayload d;
        match credentials with
        | None => Done payload
        | Some c =>
            c' ← applyCredentialBackedSettings toLowerCase d c;
            Done (del "credential_patch" (put "credentials" (JObj c') payload))
        end
  end.

Definition save_secret (account : option UpstreamAccount) (d : AccountDraft) (payload : object)
    : run SubmitResult :=
  payload' ← lift (with_credentials account d payload);
  r ← call (match account with
            | Some a => UpdateAccount (acc_id a) payload'
            | None => CreateAccount payload'
            end);
  _ ← answered r (success r);
  mret Saved.

Definition submit (account : option UpstreamAccount) (isBatch : bool) (initial d : AccountDraft)
    : run SubmitResult :=
  _ ← lift (reject_if (negb (filled (name d))) "Account name is required");
  n ← lift (check_draft account initial d);
  payload ← lift (patched_payload account d n);
  if isBatch then save_batch account initial d payload
  else if isOAuthAccountType (type d) then save_oauth account d payload
  else save_secret account d payload.
End submit.

(** ** Handlers that edit more than one value *)

(** [toggleOpenAIEndpointCapability]: the capabilities and the responses
    mode; the last capability cannot be taken away. *)
Definition toggleOpenAIEndpointCapability (capability : jstr) (capabilities : list jstr)
    (responsesMode : json) : list jstr * json :=
  let selected := bool_decide (capability ∈ capabilities) in
  if selected && (length capabilities =? 1)%nat then (capabilities, responsesMode)
  else
    (if selected then filterb (λ v, negb (bool_decide (v = capability))) capabilities
     else capabilities ++ [capability],
     if bool_decide (capability = js "chat_completions") && selected then str "auto" else responsesMode).

(** [updateCompactMapping], [updateHeaderOverride]: [rows.map((row, i) => i === index ? ... : row)] *)
Definition updateCompactMapping (index : nat) (source : bool) (value : jstr)
    (rows : list ModelMappingRow) : list ModelMappingRow :=
  alter (λ r, if source then {| from := value; to := to r |} else {| from := from r; to := value |})
    index rows.

Definition updateHeaderOverride (index : nat) (is_name : bool) (value : jstr)
    (rows : list HeaderOverrideRow) : list HeaderOverrideRow :=
  alter (λ r, if is_name then {| header_name := value; header_value := header_value r |}
              else {| header_name := header_name r; header_value := value |}) index rows.
