(* ===== verification/AccountHeaderProps.v ===== *)
(** * Header overrides: saving and reopening

    What [validateHeaderOverrideRows] accepts, as a property of the rows that
    does not depend on their order, and that accepted rows survive being
    stored and shown again. *)

From Stdlib Require Import String.
From S2P Require Import JsJson JsonText RatioSyncProps.
From S2P Require Import AccountDialog.

(** ** Lower case of header names *)

Definition ascii (s : jstr) : Prop := Forall (λ c, 0 ≤ c < 128) s.

(** Documented behaviour of [toLowerCase] on the code units below 128. *)
Definition lowers_ascii (toLowerCase : jstr → jstr) : Prop :=
  ∀ s, ascii s → toLowerCase s = ascii_lower s.

Definition lower_letter (c : Z) : Z := if (65 <=? c) && (c <=? 90) then c + 32 else c.

Lemma below_128 (P : Z → bool) :
  forallb P (seqZ 0 128) = true → ∀ c, 0 ≤ c < 128 → P c = true.
Proof. intros H c Hc. rewrite forallb_forall in H. apply H, list_elem_of_In, elem_of_seqZ. lia. Qed.

Lemma header_unit_ascii c : header_name_unit c = true → 0 ≤ c < 128.
Proof.
  unfold header_name_unit, is_alnum, is_digit. rewrite !orb_true_iff, bool_decide_eq_true.
  intros [[[H|H]|H]|H]; reflect_bools; [lia..|]. revert c H.
  apply (Forall_forall (λ c, 0 ≤ c < 128)), (bool_decide_unpack _). by_eval.
Qed.

Lemma lower_unit_header c : header_name_unit c = true → header_name_unit (lower_letter c) = true.
Proof.
  intros H. pose proof (header_unit_ascii c H) as Hc. revert H. apply implb_true_iff.
  by apply (below_128 (λ c, implb (header_name_unit c) (header_name_unit (lower_letter c)))); [by_eval|].
Qed.

Lemma header_unit_not_ws c : header_name_unit c = true → is_ws c = false.
Proof.
  intros H. pose proof (header_unit_ascii c H) as Hc. apply negb_true_iff. revert H. apply implb_true_iff.
  by apply (below_128 (λ c, implb (header_name_unit c) (negb (is_ws c)))); [by_eval|].
Qed.

Lemma lower_unit_idemp c : lower_letter (lower_letter c) = lower_letter c.
Proof.
  unfold lower_letter. destruct ((65 <=? c) && (c <=? 90)) eqn:E; [|by rewrite E].
  reflect_bools. by rewrite (proj2 (Z.leb_gt (c + 32) 90)), andb_false_r by lia.
Qed.

Lemma ascii_lower_idemp s : ascii_lower (ascii_lower s) = ascii_lower s.
Proof. unfold ascii_lower. rewrite map_map. apply map_ext. apply lower_unit_idemp. Qed.

Lemma pattern_units n : headerNamePattern n = true → n ≠ [] ∧ Forall (λ c, header_name_unit c = true) n.
Proof.
  unfold headerNamePattern. intros [Hne H]%andb_true_iff. split; [by apply nonempty_true|].
  by apply Forall_forall; setoid_rewrite list_elem_of_In; apply forallb_forall.
Qed.

Lemma units_pattern n : n ≠ [] → Forall (λ c, header_name_unit c = true) n → headerNamePattern n = true.
Proof.
  intros Hne H. unfold headerNamePattern. rewrite (proj2 (nonempty_true n) Hne). apply forallb_forall.
  setoid_rewrite <- list_elem_of_In. by apply Forall_forall.
Qed.

Lemma pattern_ascii n : headerNamePattern n = true → ascii n.
Proof. intros [_ H]%pattern_units. by eapply Forall_impl, header_unit_ascii. Qed.

Lemma units_trim n : Forall (λ c, header_name_unit c = true) n → trim n = n.
Proof.
  intros H. apply trim_no_edge. split; intros c Hc; apply header_unit_not_ws;
    rewrite Forall_forall in H; apply H.
  - destruct n; simplify_eq/=. by left.
  - by apply last_Some_elem_of.
Qed.

Lemma pattern_lower n : headerNamePattern n = true → headerNamePattern (ascii_lower n) = true.
Proof.
  intros [Hne H]%pattern_units. apply units_pattern; [by destruct n|].
  unfold ascii_lower. apply Forall_map. eapply Forall_impl; [exact H|]. apply lower_unit_header.
Qed.

(** ** What a save accepts *)

(** The list of blocked names is compared with, never computed. *)
#[local] Opaque blockedHeaderOverrideNames.

Section headers.
Context (toLowerCase : jstr → jstr) (localeCompare : jstr → jstr → Z).
Context (Hlower : lowers_ascii toLowerCase).
Implicit Types (r : HeaderOverrideRow) (rows : list HeaderOverrideRow).

Definition named (r : HeaderOverrideRow) : bool := nonempty (trim (header_name r)).

Definition normal_row (r : HeaderOverrideRow) : HeaderOverrideRow :=
  {| header_name := toLowerCase (trim (header_name r)); header_value := trim (header_value r) |}.

(** The rows that are stored, as they are stored. *)
Definition normal_rows (rows : list HeaderOverrideRow) : list HeaderOverrideRow :=
  map normal_row (filterb named rows).

(** A row whose name and value are accepted. *)
Definition good_row (r : HeaderOverrideRow) : Prop :=
  headerNamePattern (trim (header_name r)) = true
  ∧ Z.of_nat (length (trim (header_name r))) ≤ 200
  ∧ (toLowerCase (trim (header_name r)) ∉ blockedHeaderOverrideNames)
  ∧ invalidHeaderValuePattern (trim (header_value r)) = false
  ∧ utf8_length (trim (header_value r)) ≤ 8192.

Definition blank_row (r : HeaderOverrideRow) : Prop :=
  trim (header_name r) = [] ∧ trim (header_value r) = [].

Lemma normal_rows_cons r rows :
  normal_rows (r :: rows) = if named r then normal_row r :: normal_rows rows else normal_rows rows.
Proof. unfold normal_rows, filterb. cbn. by destruct (named r). Qed.

Lemma validate_loop_None seen rows :
  validate_headers_loop toLowerCase seen rows = None →
  Forall (λ r, blank_row r ∨ good_row r) rows
  ∧ (NoDup seen → NoDup (seen ++ map header_name (normal_rows rows)))
  ∧ (length seen + length (normal_rows rows) ≤ 64)%nat.
Proof.
  revert seen. induction rows as [|r rows IH]; intros seen; cbn [validate_headers_loop]; cbv zeta.
  { destruct (64 <? Z.of_nat (length seen)) eqn:E; [done|]. intros _. reflect_bools. cbn.
    rewrite app_nil_r. split_and!; [constructor|done|lia]. }
  rewrite normal_rows_cons. unfold named.
  destruct (nonempty (trim (header_name r))) eqn:En; cbn [negb].
  - destruct (negb (headerNamePattern _) || _) eqn:Ep; [done|].
    destruct (bool_decide (_ ∈ blockedHeaderOverrideNames)) eqn:Eb; [done|].
    destruct (bool_decide (_ ∈ seen)) eqn:Es; [done|].
    destruct (invalidHeaderValuePattern _ || _) eqn:Ev; [done|]. intros (Hg & Hnd & Hl)%IH.
    apply orb_false_iff in Ep as [Ep El], Ev as [Ev Ew]. reflect_bools.
    unfold set_add in Hnd, Hl. rewrite decide_False in Hnd, Hl by done.
    rewrite length_app in Hl. cbn in Hl |- *. split_and!.
    + constructor; [right; by split_and!|done].
    + intros Hs. rewrite <- app_assoc in Hnd. apply Hnd. apply NoDup_app. split_and!; [done| |apply NoDup_singleton].
      intros x Hx ->%list_elem_of_singleton. done.
    + lia.
  - destruct (nonempty (trim (header_value r))) eqn:Ev; [done|]. intros (Hg & Hnd & Hl)%IH.
    split_and!; [|done|done]. constructor; [|done]. left.
    split; by apply dec_stable; intros ?%nonempty_true; congruence.
Qed.

(** The converse: order does not matter. *)
Lemma validate_loop_good seen rows :
  Forall (λ r, blank_row r ∨ named r = true ∧ good_row r) rows →
  NoDup (seen ++ map header_name (normal_rows rows)) →
  (length seen + length (normal_rows rows) ≤ 64)%nat →
  validate_headers_loop toLowerCase seen rows = None.
Proof.
  intros Hg. revert seen. induction Hg as [|r rows Hr _ IH]; intros seen; cbn [validate_headers_loop]; cbv zeta.
  { intros _ Hl. by rewrite (proj2 (Z.ltb_ge 64 _)) by (cbn in Hl; lia). }
  rewrite normal_rows_cons. unfold named in *. destruct Hr as [[Hn Hv]|[Hne (Hp & Hlen & Hb & Hv & Hw)]].
  { rewrite Hn, Hv. cbn. apply IH. }
  rewrite Hne. cbn [negb map header_name normal_row]. intros Hnd Hl.
  rewrite Hp, (proj2 (Z.ltb_ge 200 _)), (bool_decide_eq_false_2 _ Hb), Hv, (proj2 (Z.ltb_ge 8192 _)) by done.
  assert (Hs : toLowerCase (trim (header_name r)) ∉ seen).
  { intros Hin. apply NoDup_app in Hnd as (_ & Hd & _). apply (Hd _ Hin). by left. }
  rewrite (bool_decide_eq_false_2 _ Hs). cbn. unfold set_add. rewrite decide_False by done. apply IH.
  - by rewrite <- app_assoc.
  - rewrite length_app. cbn in *. lia.
Qed.

(** ** Storing the rows *)

Definition row_entry (r : HeaderOverrideRow) : jstr * jstr := (header_name r, header_value r).

Lemma named_lower r : good_row r → named r = true → nonempty (toLowerCase (trim (header_name r))) = true.
Proof.
  intros (Hp & _) Hn. rewrite Hlower by by apply pattern_ascii. unfold named in Hn.
  by destruct (trim (header_name r)).
Qed.

Lemma lower_nil : toLowerCase [] = [].
Proof. by rewrite Hlower by constructor. Qed.

Lemma build_headers_from acc rows :
  Forall (λ r, blank_row r ∨ good_row r) rows →
  NoDup (map fst acc ++ map header_name (normal_rows rows)) →
  foldl (build_header_step toLowerCase) acc rows = acc ++ map row_entry (normal_rows rows).
Proof.
  intros Hg. revert acc. induction Hg as [|r rows Hr _ IH]; intros acc Hnd; [by rewrite app_nil_r|].
  rewrite normal_rows_cons in *. cbn [foldl]. unfold build_header_step at 2. cbv zeta.
  destruct (named r) eqn:En.
  - destruct Hr as [[Hn _]|Hr]; [unfold named in En; by rewrite Hn in En|].
    rewrite named_lower by done. cbn [map header_name normal_row] in *. rewrite map_set_fresh.
    + rewrite IH; [by rewrite <- app_assoc|]. rewrite map_app. cbn. by rewrite <- app_assoc.
    + intros Hin. apply NoDup_app in Hnd as (_ & Hd & _). apply (Hd _ Hin). by left.
  - unfold named in En. destruct (trim (header_name r)); [|done]. rewrite lower_nil. cbn. by apply IH.
Qed.

Lemma normal_name r :
  good_row r → let n := toLowerCase (trim (header_name r)) in
  trim n = n ∧ toLowerCase n = n ∧ headerNamePattern n = true ∧ length n = length (trim (header_name r)).
Proof.
  intros (Hp & _). pose proof (pattern_lower _ Hp) as Hq. destruct (pattern_units _ Hq) as [_ Hu].
  rewrite (Hlower _ (pattern_ascii _ Hp)). cbn zeta. split_and!; [by apply units_trim| |done|].
  - rewrite Hlower by by apply pattern_ascii. apply ascii_lower_idemp.
  - unfold ascii_lower. by rewrite length_map.
Qed.

Lemma normal_row_idemp r : good_row r → normal_row (normal_row r) = normal_row r.
Proof.
  intros (Ht & Hl & _)%normal_name. unfold normal_row at 1. cbn [header_name header_value normal_row].
  by rewrite Ht, Hl, trim_idemp.
Qed.

Lemma good_normal r : good_row r → named (normal_row r) = true ∧ good_row (normal_row r).
Proof.
  intros Hg. destruct (normal_name r Hg) as (Ht & Hl & Hp & Hlen). destruct Hg as (_ & Hlen' & Hb & Hv & Hw).
  unfold named, good_row. cbn [header_name header_value normal_row]. rewrite Ht, Hl, trim_idemp, Hlen.
  split_and!; try done. by apply nonempty_true, pattern_units.
Qed.

Lemma normal_rows_good rows :
  Forall (λ r, blank_row r ∨ good_row r) rows →
  Forall (λ r, named r = true ∧ good_row r ∧ normal_row r = r) (normal_rows rows).
Proof.
  intros Hg. unfold normal_rows. apply Forall_map, Forall_forall. intros r [Hin Hn]%elem_of_filterb.
  rewrite Forall_forall in Hg. destruct (Hg r Hin) as [[Hb _]|Hr]; [unfold named in Hn; by rewrite Hb in Hn|].
  destruct (good_normal r Hr). split_and!; [done|done|]. by apply normal_row_idemp.
Qed.

Lemma normal_rows_id rows :
  Forall (λ r, named r = true ∧ good_row r ∧ normal_row r = r) rows → normal_rows rows = rows.
Proof.
  induction 1 as [|r rows (Hn & _ & Hr) _ IH]; [done|]. by rewrite normal_rows_cons, Hn, Hr, IH.
Qed.

(** ** Showing them again *)

Lemma omap_row_entries rows :
  omap (λ e : jstr * json, match e.2 with
                           | JStr value => Some {| header_name := e.1; header_value := value |}
                           | _ => None
                           end)
    (map (λ e : jstr * jstr, (e.1, JStr e.2)) (map row_entry rows)) = rows.
Proof. induction rows as [|[n v] rows IH]; [done|]. cbn in *. by rewrite IH. Qed.

Lemma split_stored_Permutation rows :
  splitHeaderOverridesObject localeCompare (Some (record_json (map row_entry rows))) ≡ₚ rows.
Proof.
  unfold splitHeaderOverridesObject, record_json. rewrite stable_sort_Permutation, own_entries_Permutation.
  by rewrite omap_row_entries.
Qed.

Lemma accepted_stored rows :
  validateHeaderOverrideRows toLowerCase rows = None →
  buildHeaderOverridesObject toLowerCase rows = map row_entry (normal_rows rows)
  ∧ NoDup (map header_name (normal_rows rows)).
Proof.
  intros (Hg & Hnd & _)%validate_loop_None. specialize (Hnd NoDup_nil_2).
  split; [|done]. by apply (build_headers_from []).
Qed.

Lemma accepted_again rows shown :
  validateHeaderOverrideRows toLowerCase rows = None → shown ≡ₚ normal_rows rows →
  validateHeaderOverrideRows toLowerCase shown = None ∧ normal_rows shown = shown.
Proof.
  intros (Hg & Hnd & Hl)%validate_loop_None Hs. specialize (Hnd NoDup_nil_2).
  assert (Hgood : Forall (λ r, named r = true ∧ good_row r ∧ normal_row r = r) shown)
    by (rewrite Hs; by apply normal_rows_good).
  pose proof (normal_rows_id _ Hgood) as Hid. split; [|done].
  apply validate_loop_good; rewrite ?Hid.
  - eapply Forall_impl; [exact Hgood|]. naive_solver.
  - by rewrite Hs.
  - by rewrite Hs.
Qed.
End headers.

(** Header overrides survive saving: rows the dialog accepts are stored one
    property each, none merged or lost, under the lower-cased name with the
    trimmed value; reopening the account shows those rows and no others, in
    the locale's order; the reopened rows are accepted again, and saving
    them stores the same properties. *)
Theorem header_overrides_reopen toLowerCase localeCompare rows :
  lowers_ascii toLowerCase →
  (∀ a b, localeCompare a b ≤ 0 ∨ localeCompare b a ≤ 0) →
  validateHeaderOverrideRows toLowerCase rows = None →
  let stored := buildHeaderOverridesObject toLowerCase rows in
  let shown := splitHeaderOverridesObject localeCompare (Some (record_json stored)) in
  stored = map row_entry (normal_rows toLowerCase rows) ∧ NoDup (map fst stored)
  ∧ shown ≡ₚ normal_rows toLowerCase rows
  ∧ Sorted (λ a b, header_row_le localeCompare a b = true) shown
  ∧ validateHeaderOverrideRows toLowerCase shown = None
  ∧ buildHeaderOverridesObject toLowerCase shown ≡ₚ stored.
Proof.
  intros Hlow Htotal Hok. cbn zeta. destruct (accepted_stored _ Hlow rows Hok) as [Hst Hnd]. rewrite Hst.
  pose proof (split_stored_Permutation localeCompare (normal_rows toLowerCase rows)) as Hp.
  set (shown := splitHeaderOverridesObject _ _) in *.
  destruct (accepted_again _ Hlow rows shown Hok Hp) as [Hv Hid].
  split_and!; [done| |done| |done|].
  - by rewrite map_map.
  - apply stable_sort_sorted. intros a b. unfold header_row_le. rewrite !Z.leb_le. apply Htotal.
  - destruct (accepted_stored _ Hlow shown Hv) as [-> _]. by rewrite Hid, Hp.
Qed.

Definition sample_headers : list HeaderOverrideRow :=
  [header "X-App" " codex "; header "  " ""; header "User-Agent" "starnexus"].

Lemma header_overrides_reopen_witness :
  splitHeaderOverridesObject units_compare
    (Some (record_json (buildHeaderOverridesObject ascii_lower sample_headers)))
  ≡ₚ normal_rows ascii_lower sample_headers.
Proof. apply (header_overrides_reopen ascii_lower units_compare); [done|apply units_compare_total|by_eval]. Defined.

Example reopened_headers :
  splitHeaderOverridesObject units_compare
    (Some (record_json (buildHeaderOverridesObject ascii_lower sample_headers)))
  = [header "user-agent" "starnexus"; header "x-app" "codex"].
Proof. by_eval. Qed.
