(* ===== verification/AccountReopen.v ===== *)
(** * Model restrictions and temporary rules: saving and reopening

    What the account dialog shows of a stored model mapping and of stored
    temporary rules, and what saving it unedited stores again. *)

From Stdlib Require Import String.
From S2P Require Import JsJson JsonText JsObject RatioSyncProps AccountDialog.

(** ** Model restrictions *)

Definition clean_entry (e : jstr * jstr) : Prop :=
  trim e.1 = e.1 ∧ trim e.2 = e.2 ∧ e.1 ≠ [] ∧ e.2 ≠ [].

Definition allows (e : jstr * jstr) : bool := bool_decide (e.1 = e.2).

(** A model allowed by a pattern, such as ["gpt-5*"] for itself. *)
Definition wildcard_allowance (e : jstr * jstr) : bool := allows e && includes (js "*") e.1.

(** What the dialog accepts of a remapped model. *)
Definition mappable (e : jstr * jstr) : Prop :=
  allows e = true ∨ invalid_source_wildcard e.1 = false ∧ includes (js "*") e.2 = false.

Definition mapping_row (e : jstr * jstr) : ModelMappingRow := {| from := e.1; to := e.2 |}.

Lemma split_entries l acc :
  Forall clean_entry l →
  foldl split_step acc l =
  {| restricted_to := restricted_to acc ++ map fst (filterb allows l);
     remapped := remapped acc ++ map mapping_row (filterb (λ e, negb (allows e)) l) |}.
Proof.
  intros Hl. revert acc. induction Hl as [|e l (H1 & H2 & Hn1 & Hn2) _ IH]; intros acc.
  { cbn. rewrite !app_nil_r. by destruct acc. }
  cbn [foldl]. unfold split_step at 2. cbv zeta. rewrite H1, H2.
  rewrite (proj2 (nonempty_true e.1)), (proj2 (nonempty_true e.2)) by done. cbn [negb orb].
  change (bool_decide (e.1 = e.2)) with (allows e). unfold filterb. cbn [List.filter].
  destruct (allows e); rewrite IH; cbn; unfold filterb; by rewrite <- app_assoc.
Qed.

Lemma split_mapping m :
  Forall clean_entry m →
  splitAccountModelMapping (Some m) =
  {| restricted_to := map fst (filterb allows (own_entries m));
     remapped := map mapping_row (filterb (λ e, negb (allows e)) (own_entries m)) |}.
Proof.
  intros Hm. unfold splitAccountModelMapping. cbn [default]. rewrite split_entries; [done|].
  by rewrite own_entries_Permutation.
Qed.

(** Setting new properties appends them. *)
Lemma set_all_fresh {V} (acc l : list (jstr * V)) :
  NoDup (map fst (acc ++ l)) → foldl (λ m (e : jstr * V), obj_set m e.1 e.2) acc l = acc ++ l.
Proof.
  revert acc. induction l as [|[k v] l IH]; intros acc Hnd; [by rewrite app_nil_r|]. cbn [foldl fst snd].
  rewrite map_app in Hnd. rewrite map_set_fresh.
  - rewrite IH; rewrite <- app_assoc; [done|]. by rewrite map_app.
  - intros Hin. apply NoDup_app in Hnd as (_ & Hd & _). apply (Hd _ Hin). by left.
Qed.

Lemma build_mapping_rows unique acc seen l :
  Forall clean_entry l → Forall (λ e, invalid_source_wildcard e.1 = false ∧ includes (js "*") e.2 = false) l →
  NoDup (map fst (acc ++ l)) → (unique = true → NoDup (seen ++ map fst l)) →
  build_mapping_loop unique acc seen (map mapping_row l) = inl (null_if_empty (acc ++ l)).
Proof.
  intros Hl. revert acc seen. induction Hl as [|e l (H1 & H2 & Hn1 & Hn2) _ IH]; intros acc seen Hok Hnd Hseen.
  { by rewrite app_nil_r. }
  apply Forall_cons in Hok as [[Hw1 Hw2] Hok]. cbn [map build_mapping_loop]. cbv zeta.
  cbn [from to mapping_row]. rewrite H1, H2.
  rewrite (proj2 (nonempty_true e.1)), (proj2 (nonempty_true e.2)) by done. cbn [negb orb andb].
  rewrite Hw1, Hw2. rewrite map_app in Hnd. cbn [map] in Hnd.
  assert (Hfresh : e.1 ∉ map fst acc).
  { intros Hin. apply NoDup_app in Hnd as (_ & Hd & _). apply (Hd _ Hin). by left. }
  assert (Huniq : unique && bool_decide (e.1 ∈ seen) = false).
  { destruct unique; [|done]. apply bool_decide_eq_false. intros Hin.
    apply NoDup_app in Hseen as (_ & Hd & _); [|done]. apply (Hd _ Hin). by left. }
  rewrite Huniq, map_set_fresh by done. rewrite IH; [by rewrite <- app_assoc; destruct e|done| |].
  - rewrite <- app_assoc, map_app. by destruct e.
  - intros ->. specialize (Hseen eq_refl). unfold set_add. rewrite decide_False.
    + by rewrite <- app_assoc.
    + cbn in Huniq. by apply bool_decide_eq_false in Huniq.
Qed.

Lemma allow_all acc l :
  Forall clean_entry l → NoDup (map fst acc ++ map fst l) →
  foldl allow_step acc (map fst (filterb allows l))
  = acc ++ filterb (λ e, allows e && negb (includes (js "*") e.1)) l.
Proof.
  intros Hl. revert acc. induction Hl as [|e l (H1 & H2 & Hn1 & Hn2) _ IH]; intros acc Hnd.
  { by rewrite app_nil_r. }
  cbn [map] in Hnd. assert (Hfresh : e.1 ∉ map fst acc).
  { intros Hin. apply NoDup_app in Hnd as (_ & Hd & _). apply (Hd _ Hin). by left. }
  assert (Hnd' : NoDup (map fst acc ++ map fst l)).
  { rewrite <- Permutation_middle in Hnd. by apply NoDup_cons in Hnd as [_ ?]. }
  unfold filterb. cbn [List.filter]. destruct (allows e) eqn:Ea; cbn [andb map]; [|by apply IH].
  cbn [foldl]. unfold allow_step at 2. cbv zeta. rewrite H1, (proj2 (nonempty_true e.1)) by done. cbn [andb].
  destruct (negb (includes (js "*") e.1)) eqn:Ew; [|by apply IH].
  rewrite map_set_fresh by done. change (List.filter allows l) with (filterb allows l).
  unfold allows in Ea. apply bool_decide_eq_true in Ea.
  assert (He : (e.1, e.1) = e) by (destruct e; cbn in *; congruence). rewrite He. rewrite IH.
  - by rewrite <- app_assoc.
  - by rewrite map_app, <- app_assoc.
Qed.

Lemma filterb_partition {A} (p : A → bool) (l : list A) :
  filterb p l ++ filterb (λ x, negb (p x)) l ≡ₚ l.
Proof.
  unfold filterb. induction l as [|x l IH]; [done|]. cbn. destruct (p x); cbn; [by rewrite IH|].
  by rewrite <- Permutation_middle, IH.
Qed.

#[export] Instance filterb_Permutation {A} (p : A → bool) : Proper ((≡ₚ) ==> (≡ₚ)) (filterb p).
Proof.
  intros l k H. unfold filterb. induction H as [|x l k _ IH|x y l|l k m _ IH1 _ IH2]; cbn; [done| | |by etrans].
  - destruct (p x); [by rewrite IH|done].
  - destruct (p x), (p y); by try apply Permutation_swap.
Qed.

Lemma default_null_if_empty m : default [] (null_if_empty m) = m.
Proof. by destruct m. Qed.

(** The two kinds of entries together: all but the allowed patterns. *)
Lemma kept_entries m :
  filterb (λ e, allows e && negb (includes (js "*") e.1)) m ++ filterb (λ e, negb (allows e)) m
  ≡ₚ filterb (λ e, negb (wildcard_allowance e)) m.
Proof.
  etrans; [|apply (filterb_partition allows)]. rewrite !filterb_filterb. unfold wildcard_allowance.
  apply Permutation_app; erewrite filterb_ext; try done; intros e; cbn; by destruct (allows e), (includes _ _).
Qed.

Lemma NoDup_kept {A B} (f : A → B) (p : A → bool) l : NoDup (map f l) → NoDup (map f (filterb p l)).
Proof.
  unfold filterb. induction l as [|x l IH]; [done|]. cbn. intros [Hn Hnd]%NoDup_cons.
  destruct (p x); cbn; [|by apply IH]. apply NoDup_cons. split; [|by apply IH].
  intros (y & Hy & [Hin _]%elem_of_filterb)%list_elem_of_fmap. apply Hn, list_elem_of_fmap. eauto.
Qed.

Lemma saved_restriction d m :
  well_keyed m → Forall clean_entry m → Forall mappable m →
  allowedModels d = restricted_to (splitAccountModelMapping (Some m)) →
  modelMappings d = remapped (splitAccountModelMapping (Some m)) →
  ∃ saved, buildModelRestrictionMapping d = Done (null_if_empty saved)
           ∧ saved ≡ₚ filterb (λ e, negb (wildcard_allowance e)) m.
Proof.
  intros Hk Hc Hm Ha Hr. rewrite split_mapping in Ha, Hr by done. cbn in Ha, Hr.
  pose proof (own_entries_Permutation m) as Hp. set (es := own_entries m) in *.
  assert (Hke : NoDup (map fst es)) by (by rewrite Hp).
  assert (Hce : Forall clean_entry es) by (by rewrite Hp).
  assert (Hme : Forall mappable es) by (by rewrite Hp).
  unfold buildModelRestrictionMapping, buildValidatedModelMapping. rewrite Ha, Hr, allow_all by done.
  rewrite (build_mapping_rows _ []); cycle 1.
  - apply Forall_forall. intros e [Hin _]%elem_of_filterb. by eapply Forall_forall in Hce.
  - apply Forall_forall. intros e [Hin Hn]%elem_of_filterb. eapply Forall_forall in Hme as [Hx|Hx]; [|done|done].
    by rewrite Hx in Hn.
  - by apply NoDup_kept.
  - done.
  - cbn [checked_mapping mbind checked_bind app]. rewrite default_null_if_empty.
    eexists. split; [reflexivity|]. rewrite set_all_fresh.
    + rewrite own_entries_Permutation. etrans; [apply kept_entries|]. by rewrite Hp.
    + rewrite own_entries_Permutation. rewrite (kept_entries es). by apply NoDup_kept.
Qed.

(** What opening an account puts into the fields of a draft. *)
Lemma opened_restriction localeCompare localDateTime a d :
  accountDraft localeCompare localDateTime (Some a) = Done d →
  let r := splitAccountModelMapping (meta_model_mapping (acc_metadata a)) in
  allowedModels d = restricted_to r ∧ modelMappings d = remapped r.
Proof.
  unfold accountDraft. destruct (loadTempUnschedRules _) as [rules|e]; cbn [mbind checked_bind]; [|done].
  by intros [= <-].
Qed.

(** Reopening an account and saving its model restriction unedited: every
    stored entry is saved again except the models allowed by a pattern, an
    entry such as [gpt-5*] mapped to itself. These are shown among the
    allowed models but left out of what is saved; when the restriction
    consists of them alone, what is saved is no restriction at all. *)
Theorem model_restriction_reopen localeCompare localDateTime a d m :
  accountDraft localeCompare localDateTime (Some a) = Done d →
  meta_model_mapping (acc_metadata a) = Some m →
  well_keyed m → Forall clean_entry m → Forall mappable m →
  (∃ saved, buildModelRestrictionMapping d = Done (null_if_empty saved)
            ∧ saved ≡ₚ filterb (λ e, negb (wildcard_allowance e)) m)
  ∧ (∀ e, e ∈ m → wildcard_allowance e = true → e.1 ∈ allowedModels d)
  ∧ (Forall (λ e, wildcard_allowance e = true) m → buildModelRestrictionMapping d = Done None).
Proof.
  intros Hd Hmeta Hk Hc Hm. destruct (opened_restriction _ _ _ _ Hd) as [Ha Hr]. rewrite Hmeta in Ha, Hr.
  pose proof (saved_restriction d m Hk Hc Hm Ha Hr) as Hs. split_and!; [done| |].
  - intros e Hin [Hal _]%andb_true_iff. rewrite Ha, split_mapping by done. cbn.
    apply list_elem_of_fmap. exists e. split; [done|]. apply elem_of_filterb. by rewrite elem_of_own_entries.
  - intros Hall. destruct Hs as (saved & -> & Hp). rewrite filterb_empty in Hp.
    + by apply Permutation_nil_r in Hp as ->.
    + eapply Forall_impl; [exact Hall|]. intros e ->. done.
Qed.

(** An account to open. *)
Definition sample_metadata (mapping : option string_record) (rules : option (list json)) : AccountMetadata :=
  {| credential_readable := true; meta_base_url := None; meta_model_mapping := mapping;
     meta_compact_model_mapping := None; meta_openai_capabilities := None;
     meta_intercept_warmup_requests := Some false; meta_temp_unschedulable_enabled := Some true;
     meta_temp_unschedulable_rules := rules; meta_header_override_enabled := Some false;
     meta_header_overrides := None; meta_bedrock_auth_mode := None; meta_aws_region := Some (js "eu-west-1");
     meta_aws_access_key_id := None; meta_vertex_location := None |}.

Definition sample_account (p : UpstreamPlatform) (t : UpstreamAccountType) (extra : jstr)
    (m : AccountMetadata) : UpstreamAccount :=
  {| acc_id := num_of_Z 7; acc_name := js "primary"; acc_notes := None; acc_platform := p; acc_type := t;
     acc_extra := extra; acc_proxy_id := None; acc_concurrency := num_of_Z 2; acc_priority := num_of_Z 50;
     acc_weight := num_of_Z 1; acc_load_factor := None; acc_rate_multiplier := None; acc_status := active;
     acc_schedulable := true; acc_expires_at := None; acc_auto_pause_on_expired := true;
     acc_oauth_refresh_owner := external; acc_pool_ids := []; acc_metadata := m |}.

Definition open_account (a : UpstreamAccount) : checked AccountDraft :=
  accountDraft units_compare (λ _, []) (Some a).

Definition restricted_account : UpstreamAccount :=
  sample_account openai apikey [] (sample_metadata (Some [(js "gpt-5*", js "gpt-5*")]) None).

Definition restricted_draft : { d | open_account restricted_account = Done d }.
Proof. eexists. vm_compute. reflexivity. Defined.

Lemma model_restriction_reopen_witness :
  buildModelRestrictionMapping (proj1_sig restricted_draft) = Done None.
Proof.
  eapply (model_restriction_reopen units_compare (λ _, []) restricted_account).
  - apply (proj2_sig restricted_draft).
  - reflexivity.
  - apply (bool_decide_unpack _). by_eval.
  - repeat constructor; try done; by_eval.
  - constructor; [by left; by_eval|constructor].
  - repeat constructor; by_eval.
Defined.

(** ** Saving and reopening

    What the account dialog stores of the temporary rules, what reopening the
    account shows of it, and what is stored then. *)

#[local] Opaque js string_of_number number_of_string.

(** ** Key words *)

Lemma trim_space s : trim (32 :: s) = trim s.
Proof. done. Qed.

Lemma split_comma_space l p :
  Forall (λ q, c_comma ∉ q) (p :: l) →
  split_char c_comma (join [c_comma; 32] (p :: l)) = p :: map (cons 32) l.
Proof.
  intros H. assert (Hj : join [c_comma; 32] (p :: l) = join [c_comma] (p :: map (cons 32) l)).
  { clear H. revert p. induction l as [|q l IH]; intros p; [done|].
    rewrite join_cons, IH. cbn [map]. rewrite (join_cons [c_comma]). cbn.
    by destruct (map (cons 32) l). }
  rewrite Hj. apply split_char_join; [done|]. apply Forall_cons in H as [Hp H]. constructor; [done|].
  apply Forall_map. eapply Forall_impl; [exact H|]. intros q Hq. cbn. by intros [?|?]%elem_of_cons.
Qed.

(** Printing clean key words with a comma and a space loses nothing. *)
Lemma keywords_reopen l :
  Forall (clean_part c_comma) l → l ≠ [] → temp_rule_keywords (join (js ", ") l) = l.
Proof.
  intros Hl Hne. destruct l as [|p l]; [done|]. change (js ", ") with [c_comma; 32].
  unfold temp_rule_keywords. rewrite split_comma_space by (eapply Forall_impl; [exact Hl|]; by intros ? (_ & _ & ?)).
  assert (Ht : map trim (p :: map (cons 32) l) = p :: l).
  { cbn [map]. apply Forall_cons in Hl as [(_ & -> & _) Hl]. f_equal. rewrite map_map.
    transitivity (map id l); [|apply map_id]. apply map_ext_Forall. eapply Forall_impl; [exact Hl|].
    intros q (_ & Hq & _). by rewrite trim_space. }
  rewrite Ht. apply filterb_id. eapply Forall_impl; [exact Hl|]. intros q (Hq & _). by apply nonempty_true.
Qed.

Lemma shown_keywords l :
  Forall (clean_part c_comma) l → formatTempUnschedKeywords (Some (strings_json l)) = join (js ", ") l.
Proof.
  intros Hl. unfold formatTempUnschedKeywords, strings_json. f_equal.
  assert (Ho : omap string_of_value (map JStr l) = l) by (clear; induction l as [|s l IH]; cbn; congruence).
  rewrite Ho. transitivity (filterb nonempty l).
  - f_equal. transitivity (map id l); [|apply map_id]. apply map_ext_Forall. eapply Forall_impl; [exact Hl|].
    by intros q (_ & ? & _).
  - apply filterb_id. eapply Forall_impl; [exact Hl|]. intros q (Hq & _). by apply nonempty_true.
Qed.

(** ** Numbers *)

(** A whole number that its text reads back. *)
Definition whole_number (x : jsnum) : bool :=
  is_finite x && bool_decide (math_trunc x = x) && bool_decide (number_of_string (string_of_number x) = x).

(** A status code from 100 to 599. *)
Definition status_codes : list jsnum := map num_of_Z (seqZ 100 500).

Definition code_readable (x : jsnum) : bool :=
  whole_number x && negb (num_lt x (num_of_Z 100)) && negb (num_lt (num_of_Z 599) x).

Lemma status_codes_readable : forallb code_readable status_codes = true.
Proof. by_eval. Qed.

Lemma code_in_range x : x ∈ status_codes → code_readable x = true.
Proof.
  intros Hx. pose proof status_codes_readable as H. rewrite forallb_forall in H. by apply H, list_elem_of_In.
Qed.

Definition storable_rule (r : TempUnschedRule) : Prop :=
  rule_code r ∈ status_codes ∧ whole_number (rule_duration r) = true.

(** ** One rule *)

Definition positive_duration (r : TempUnschedRule) : bool := negb (num_le (rule_duration r) (num_of_Z 0)).

(** What a stored rule is shown as. *)
Definition shown_rule (r : TempUnschedRule) : TempUnschedRuleDraft :=
  {| error_code := string_of_number (rule_code r); keywords := join (js ", ") (rule_keywords r);
     duration_seconds := string_of_number (rule_duration r); description := rule_description r |}.

Definition clean_rule (r : TempUnschedRule) : Prop :=
  Forall (clean_part c_comma) (rule_keywords r) ∧ rule_keywords r ≠ []
  ∧ trim (rule_description r) = rule_description r.

Lemma built_rule_clean d r : build_temp_rule d = Some r → clean_rule r.
Proof.
  unfold build_temp_rule. cbv zeta. repeat case_match; try done. intros [= <-]. split_and!; cbn.
  - apply trimmed_parts_clean.
  - apply nonempty_true. by apply negb_false_iff.
  - apply trim_idemp.
Qed.

Lemma built_rules_clean rules : Forall clean_rule (buildTempUnschedRules rules).
Proof.
  apply Forall_forall. intros r (d & _ & Hd)%list_elem_of_omap. by eapply built_rule_clean.
Qed.

Lemma load_rule r : storable_rule r → clean_rule r → loadTempUnschedRule (temp_rule_json r) = Done (shown_rule r).
Proof.
  intros [Hc Hd] (Hk & _ & _). apply code_in_range in Hc. unfold code_readable, whole_number in *. reflect_bools.
  unfold loadTempUnschedRule, temp_rule_json, prop, opt_prop. look. cbn [mbind checked_bind].
  unfold finite_text. rewrite shown_keywords by done.
  repeat match goal with H : is_finite _ = true |- _ => rewrite H; clear H end. done.
Qed.

Lemma rebuild_rule r :
  storable_rule r → clean_rule r →
  build_temp_rule (shown_rule r) = if positive_duration r then Some r else None.
Proof.
  intros [Hc Hd] (Hk & Hne & Ht). apply code_in_range in Hc. unfold code_readable, whole_number in *. reflect_bools.
  unfold build_temp_rule, positive_duration. cbn [error_code duration_seconds keywords description shown_rule]. cbv zeta.
  rewrite keywords_reopen by done. rewrite (proj2 (nonempty_true _) Hne), Ht.
  repeat match goal with H : number_of_string _ = _ |- _ => rewrite H; clear H end.
  repeat match goal with H : is_finite _ = true |- _ => rewrite H; clear H end.
  repeat match goal with H : num_lt _ _ = false |- _ => rewrite H; clear H end.
  repeat match goal with H : math_trunc _ = _ |- _ => rewrite H; clear H end. cbn [negb orb].
  destruct (num_le (rule_duration r) (num_of_Z 0)); [done|]. by destruct r.
Qed.

(** ** The list *)

Lemma load_rules l :
  Forall (λ r, storable_rule r ∧ clean_rule r) l →
  checked_map loadTempUnschedRule (map temp_rule_json l) = Done (map shown_rule l).
Proof.
  induction 1 as [|r l [Hs Hc] _ IH]; [done|]. cbn [map checked_map]. by rewrite load_rule, IH by done.
Qed.

Lemma rebuild_rules l :
  Forall (λ r, storable_rule r ∧ clean_rule r) l →
  buildTempUnschedRules (map shown_rule l) = filterb positive_duration l.
Proof.
  unfold buildTempUnschedRules, filterb. induction 1 as [|r l [Hs Hc] _ IH]; [done|].
  cbn [map omap list_omap List.filter]. rewrite rebuild_rule by done. fold (@omap list _).
  destruct (positive_duration r); by rewrite <- IH.
Qed.

(** The temporary rules a save stores are shown again when the account is
    reopened, each with its code, its key words and its duration, and saving
    what is shown stores the same rules again; except those of a duration
    below one second, which the first save accepted and stored as zero
    seconds, and the second drops. *)
Theorem temp_rules_reopen rules :
  Forall storable_rule (buildTempUnschedRules rules) →
  ∃ shown, loadTempUnschedRules (Some (temp_rules_json rules)) = Done shown
           ∧ shown = map shown_rule (buildTempUnschedRules rules)
           ∧ buildTempUnschedRules shown = filterb positive_duration (buildTempUnschedRules rules).
Proof.
  intros Hs. pose proof (built_rules_clean rules) as Hc.
  assert (H : Forall (λ r, storable_rule r ∧ clean_rule r) (buildTempUnschedRules rules))
    by (apply Forall_and; done).
  eexists. split_and!; [by apply load_rules|done|by apply rebuild_rules].
Qed.

Definition rule_draft (code words seconds text : string) : TempUnschedRuleDraft :=
  {| error_code := js code; keywords := js words; duration_seconds := js seconds; description := js text |}.

(** The preset of the dialog for overloads, and a rule of half a second. *)
Definition sample_rules : list TempUnschedRuleDraft :=
  [rule_draft "529" "overloaded, too many" "3600" "Service overload"; rule_draft "429" "slow , " "0.5" ""].

Lemma storable_decide l :
  forallb (λ r, bool_decide (rule_code r ∈ status_codes) && whole_number (rule_duration r)) l = true →
  Forall storable_rule l.
Proof.
  rewrite forallb_forall. intros H. apply Forall_forall. intros r [Hc Hd]%list_elem_of_In%H%andb_true_iff.
  split; [by apply bool_decide_eq_true in Hc|done].
Qed.

Lemma temp_rules_reopen_witness :
  ∃ shown, loadTempUnschedRules (Some (temp_rules_json sample_rules)) = Done shown
           ∧ shown = map shown_rule (buildTempUnschedRules sample_rules)
           ∧ buildTempUnschedRules shown = filterb positive_duration (buildTempUnschedRules sample_rules).
Proof. apply (temp_rules_reopen sample_rules), storable_decide. by_eval. Defined.

(** A rule of half a second passes the check that there is a rule, and is
    stored as a rule of no duration. *)
Lemma half_second_rule_stored :
  map (λ r, string_of_number (rule_duration r)) (buildTempUnschedRules sample_rules) = map js ["3600"; "0"]%string
  ∧ length (filterb positive_duration (buildTempUnschedRules sample_rules)) = 1%nat.
Proof. split; by_eval. Qed.
