(* ===== verification/AccountBatch.v ===== *)
(** * Upstream accounts: batch updates and extra settings

    The extra settings of an account and, first, batch updates. Which properties the patch of a batch has: those whose fields the user
    changed, with the values a save of the first account would send. *)

From Stdlib Require Import String.
From S2P Require Import JsJson JsonText JsObject AccountDialog AccountReopen.

#[local] Opaque js string_of_number number_of_string json_stringify.

(** Copying chosen properties, one step each. *)
Section copies.
Context {I : Type} (key : I → string) (val : I → option json) (step : object → I → object).
Context (Hstep : ∀ p j, step p j = match val j with Some v => put (key j) v p | None => p end).

Lemma fold_outside l acc k : k ∉ map (λ j, js (key j)) l → map_get (foldl step acc l) k = map_get acc k.
Proof.
  revert acc. induction l as [|j l IH]; intros acc; [done|]. cbn [map foldl].
  intros [Hne Hk]%not_elem_of_cons. rewrite IH, Hstep by done. destruct (val j); [|done]. by apply put_frame.
Qed.

Lemma fold_copies l acc i :
  NoDup (map (λ j, js (key j)) l) → i ∈ l → fld acc (key i) = None → fld (foldl step acc l) (key i) = val i.
Proof.
  revert acc. induction l as [|j l IH]; intros acc Hnd Hin Hacc; [by apply elem_of_nil in Hin|].
  cbn [map foldl] in *. apply NoDup_cons in Hnd as [Hj Hnd]. rewrite Hstep.
  apply elem_of_cons in Hin as [->|Hin].
  - unfold fld in *. rewrite fold_outside by done. destruct (val j); [|done]. apply map_get_set_eq.
  - apply IH; [done|done|]. destruct (val j); [|done]. rewrite fld_put, decide_False; [done|].
    intros He. apply Hj. rewrite He. apply list_elem_of_fmap. by exists i.
Qed.
End copies.

Lemma fold_skips {I} (step : object → I → object) l acc :
  (∀ p j, j ∈ l → step p j = p) → foldl step acc l = acc.
Proof.
  intros H. induction l as [|j l IH]; [done|]. cbn. rewrite H by by left. apply IH. intros p i Hi. apply H. by right.
Qed.

Section batch.
Context (toLowerCase : jstr → jstr) (initial d : AccountDraft) (account : option UpstreamAccount).

(** A property of the payload, where its field was changed. *)
Definition changed_value (payload : object) (f : string * string) : option json :=
  if draftChanged initial d f.1 then fld payload f.2 else None.

(** A property of the full patch, where one of its fields was changed. *)
Definition included_value (full : object) (i : string * list string) : option json :=
  if existsb (draftChanged initial d) i.2 then fld full i.1 else None.

Lemma copy_changed_step payload p f :
  copy_changed initial d payload p f = match changed_value payload f with Some v => put f.2 v p | None => p end.
Proof. unfold copy_changed, changed_value. by destruct (draftChanged initial d f.1). Qed.

Lemma copied_fields payload f :
  f ∈ batch_fields → fld (foldl (copy_changed initial d payload) [] batch_fields) f.2 = changed_value payload f.
Proof.
  intros Hf. apply (fold_copies snd (changed_value payload)); [apply copy_changed_step| |done|done].
  apply (bool_decide_unpack _). by_eval.
Qed.

(** The two nested patches are no plain fields. *)
Lemma nested_patch_fields :
  (js "credential_patch" ∉ map (λ f : string * string, js f.2) batch_fields)
  ∧ (js "extra_patch" ∉ map (λ f : string * string, js f.2) batch_fields).
Proof. split; apply (bool_decide_unpack _); by_eval. Qed.

Lemma copied_no_nested payload k :
  k ∉ map (λ f : string * string, js f.2) batch_fields →
  map_get (foldl (copy_changed initial d payload) [] batch_fields) k = None.
Proof. intros Hk. by rewrite (fold_outside snd (changed_value payload) _ (copy_changed_step payload)). Qed.

Lemma included_properties full i :
  i ∈ batch_includes → fld (foldl (include_step initial d full) [] batch_includes) i.1 = included_value full i.
Proof.
  intros Hi. apply (fold_copies fst (included_value full)); [|by apply (bool_decide_unpack _); by_eval|done|done].
  intros p [a b]. unfold include_step, included_value. cbn. by destruct (existsb _ b).
Qed.

Lemma unchanged key : fld (draft_object d) key = fld (draft_object initial) key → draftChanged initial d key = false.
Proof. intros H. unfold draftChanged. rewrite H. by rewrite bool_decide_eq_true_2. Qed.
End batch.

Lemma unchanged_self d key : draftChanged d d key = false.
Proof. by apply unchanged. Qed.

Lemma unchanged_fields d l : existsb (draftChanged d d) l = false.
Proof. induction l as [|k l IH]; [done|]. cbn. by rewrite unchanged_self. Qed.

Lemma unchanged_extra d : buildBatchExtraPatch d d = [].
Proof.
  unfold buildBatchExtraPatch, openai_batch_extra, anthropic_batch_extra. rewrite !unchanged_self.
  cbn [setExtra]. by destruct (bool_decide (platform d = openai)), (bool_decide (platform d = anthropic)).
Qed.

(** A batch sends what the user changed in the editor, and no more: each
    plain property of the patch is present exactly when its field was
    changed, with the payload's value; each property of the credentials
    exactly when one of the fields listed for it was changed, with the value
    the first account would be patched with; and a draft left as it was
    opened gives an empty patch, which is not sent. *)
Theorem batch_patch_spec toLowerCase initial d account payload full patch :
  buildCredentialPatch toLowerCase account d false = Done full →
  buildBatchPatch toLowerCase initial d account payload = Done patch →
  (∀ f, f ∈ batch_fields → fld patch f.2 = changed_value initial d payload f)
  ∧ (∃ credentials,
       fld patch "credential_patch" = (if nonempty credentials then Some (JObj credentials) else None)
       ∧ ∀ i, i ∈ batch_includes → fld credentials i.1 = included_value initial d full i)
  ∧ fld patch "extra_patch"
    = (let extra := buildBatchExtraPatch initial d in if nonempty extra then Some (JObj extra) else None)
  ∧ (initial = d → patch = []).
Proof.
  intros Hfull. unfold buildBatchPatch, buildBatchCredentialPatch. rewrite Hfull. cbn [mbind checked_bind].
  intros <-%Done_inj. set (credentials := foldl (include_step initial d full) [] batch_includes).
  destruct nested_patch_fields as [Hnc Hne]. split_and!.
  - intros f Hf. assert (Hn : ∀ k, k ∉ map (λ f : string * string, js f.2) batch_fields → js f.2 ≠ k).
    { intros k Hk <-. apply Hk, list_elem_of_fmap. by exists f. }
    unfold fld at 1. rewrite !put_when_frame by (by apply Hn). by apply copied_fields.
  - exists credentials. rewrite !fld_put_when. decide_names. unfold fld at 1. rewrite copied_no_nested by done.
    split; [done|]. intros i. apply included_properties.
  - rewrite !fld_put_when. decide_names. unfold fld. by rewrite copied_no_nested.
  - intros ->. subst credentials. rewrite !fold_skips, unchanged_extra; [done|..].
    + intros p f _. unfold copy_changed. by rewrite unchanged_self.
    + intros p i _. unfold include_step. by rewrite unchanged_fields.
Qed.

Definition renamed_account (n : string) (a : UpstreamAccount) : UpstreamAccount :=
  {| acc_id := acc_id a; acc_name := js n; acc_notes := acc_notes a; acc_platform := acc_platform a;
     acc_type := acc_type a; acc_extra := acc_extra a; acc_proxy_id := acc_proxy_id a;
     acc_concurrency := acc_concurrency a; acc_priority := acc_priority a; acc_weight := acc_weight a;
     acc_load_factor := acc_load_factor a; acc_rate_multiplier := acc_rate_multiplier a;
     acc_status := acc_status a; acc_schedulable := acc_schedulable a; acc_expires_at := acc_expires_at a;
     acc_auto_pause_on_expired := acc_auto_pause_on_expired a;
     acc_oauth_refresh_owner := acc_oauth_refresh_owner a; acc_pool_ids := acc_pool_ids a;
     acc_metadata := acc_metadata a |}.

Definition bedrock_account : UpstreamAccount :=
  sample_account anthropic bedrock [] (sample_metadata None None).

Definition bedrock_draft : { d | open_account bedrock_account = Done d }.
Proof. eexists. vm_compute. reflexivity. Defined.

Definition renamed_draft : { d | open_account (renamed_account "spare" bedrock_account) = Done d }.
Proof. eexists. vm_compute. reflexivity. Defined.

Definition sample_full : { p | buildCredentialPatch ascii_lower (Some bedrock_account) (proj1_sig renamed_draft) false = Done p }.
Proof. eexists. vm_compute. reflexivity. Defined.

Definition sample_patch :
  { p | buildBatchPatch ascii_lower (proj1_sig bedrock_draft) (proj1_sig renamed_draft) (Some bedrock_account)
          [entry "name" (str "spare"); entry "notes" (str "")] = Done p }.
Proof. eexists. vm_compute. reflexivity. Defined.

Lemma batch_patch_spec_witness :
  fld (proj1_sig sample_patch) "name"
  = changed_value (proj1_sig bedrock_draft) (proj1_sig renamed_draft)
      [entry "name" (str "spare"); entry "notes" (str "")] ("name", "name")%string.
Proof.
  apply (proj1 (batch_patch_spec ascii_lower (proj1_sig bedrock_draft) (proj1_sig renamed_draft)
    (Some bedrock_account) [entry "name" (str "spare"); entry "notes" (str "")]
    (proj1_sig sample_full) (proj1_sig sample_patch) (proj2_sig sample_full) (proj2_sig sample_patch))
    ("name", "name")%string).
  apply (bool_decide_unpack _). by_eval.
Defined.

Example sample_patch_sent : proj1_sig sample_patch = [entry "name" (str "spare")].
Proof. by_eval. Qed.

(** ** Properties that go along with others *)

Lemma patched_region toLowerCase d account full :
  buildCredentialPatch toLowerCase account d false = Done full → unreadable account = false →
  type d = bedrock → fld full "aws_region" = Some (trimmed (bedrockRegion d)).
Proof.
  intros Hfull Hu Ht. unfold buildCredentialPatch in Hfull. rewrite Hu in Hfull. cbn [andb] in Hfull.
  apply bind_Done in Hfull as (p1 & _ & Hfull). apply bind_Done in Hfull as (p7 & _ & Hfull).
  unfold patch_secrets in Hfull. rewrite Ht in Hfull. apply bind_Done in Hfull as (? & _ & <-%Done_inj).
  unfold put_filled. destruct (bedrockAuthMode d).
  - destruct (filled (bedrockSessionToken d)), (filled (bedrockSecretAccessKey d)), (filled (bedrockAccessKeyId d));
      by get_names.
  - destruct (filled (bedrockApiKey d)); by get_names.
Qed.

(** In a batch of bedrock accounts a new API key takes the region of the
    first account along to all of them, though the region was not edited. *)
Lemma batch_copies_region toLowerCase initial d account credentials :
  unreadable account = false → type d = bedrock → draftChanged initial d "bedrockApiKey" = true →
  buildBatchCredentialPatch toLowerCase initial d account = Done credentials →
  fld credentials "aws_region" = Some (trimmed (bedrockRegion d)).
Proof.
  intros Hu Ht Hkey (full & Hfull & <-%Done_inj)%bind_Done.
  assert (Hin : ("aws_region", ["bedrockRegion"; "bedrockAuthMode"; "bedrockApiKey"; "bedrockAccessKeyId";
    "bedrockSecretAccessKey"; "bedrockSessionToken"])%string ∈ batch_includes)
    by (apply (bool_decide_unpack _); by_eval).
  pose proof (included_properties initial d full _ Hin) as Hp. unfold included_value in Hp. cbn [fst snd existsb] in Hp.
  rewrite Hp, Hkey, !orb_true_r. by apply patched_region with toLowerCase account.
Qed.

(** ** Saving and reopening

    Which properties the extra settings have after a save, and that an
    account reopened shows the settings that were saved with it. *)

(** ** Deleting the managed keys *)

Lemma map_get_del_all keys o k :
  map_get (del_all keys o) k = if bool_decide (k ∈ names keys) then None else map_get o k.
Proof.
  unfold del_all, names. revert o. induction keys as [|n keys IH]; intros o; [done|].
  cbn [foldl map]. rewrite IH. destruct (decide (k ∈ map js keys)) as [Hin|Hn].
  - rewrite !bool_decide_eq_true_2; [done|by right|done].
  - rewrite (bool_decide_eq_false_2 (k ∈ map js keys)) by done. destruct (decide (k = js n)) as [->|Hk].
    + rewrite bool_decide_eq_true_2 by by left. apply map_get_delete_eq.
    + rewrite bool_decide_eq_false_2; [by apply del_frame|]. by intros [?|?]%elem_of_cons.
Qed.

Lemma fld_del_all keys o n :
  bool_decide (js n ∈ names keys) = true → fld (del_all keys o) n = None.
Proof. intros H. unfold fld. by rewrite map_get_del_all, H. Qed.

Definition is_openai (d : AccountDraft) : bool := bool_decide (platform d = openai).
Definition is_claude (d : AccountDraft) : bool := bool_decide (platform d = anthropic).
Definition of_type (d : AccountDraft) (t : UpstreamAccountType) : bool := bool_decide (type d = t).

(** The properties before those of the platform are written. *)
Definition common_extra (account : option UpstreamAccount) (d : AccountDraft) : object :=
  let stored := del_all managedKeys (parseAccountExtra (acc_extra <$> account)) in
  let e1 := if negb (unreadable account) then del_all credential_keys stored else stored in
  if tempUnschedEnabled d then
    put "temp_unschedulable_rules" (temp_rules_json (tempUnschedRules d))
      (put "temp_unschedulable_enabled" (JBool true) e1)
  else e1.

(** The managed properties other than the temporary rules are gone. *)
Lemma common_gone account d n :
  bool_decide (js n ∈ names managedKeys) = true →
  bool_decide (js n ∈ names ["temp_unschedulable_enabled"; "temp_unschedulable_rules"]%string) = false →
  fld (common_extra account d) n = None.
Proof.
  intros Hm Ht. apply bool_decide_eq_false in Ht. unfold names in Ht. cbn in Ht.
  apply not_elem_of_cons in Ht as [H1 [H2 _]%not_elem_of_cons].
  assert (He : fld (if negb (unreadable account)
                    then del_all credential_keys (del_all managedKeys (parseAccountExtra (acc_extra <$> account)))
                    else del_all managedKeys (parseAccountExtra (acc_extra <$> account))) n = None).
  { destruct (negb (unreadable account)); [|by apply fld_del_all].
    unfold fld. rewrite map_get_del_all. destruct (bool_decide (_ ∈ names credential_keys)); [reflexivity|by apply fld_del_all]. }
  unfold common_extra. destruct (tempUnschedEnabled d); [|exact He]. unfold fld in *.
  rewrite put_frame by exact H2. rewrite put_frame by exact H1. exact He.
Qed.

(** ** The properties after a save *)

Definition codex (d : AccountDraft) : bool := is_openai d && of_type d oauth.
Definition openai_key (d : AccountDraft) : bool := is_openai d && of_type d apikey.
Definition claude_key (d : AccountDraft) : bool := is_claude d && of_type d apikey.
Definition answers_chat (d : AccountDraft) : bool :=
  openai_key d && bool_decide (js "chat_completions" ∈ openaiEndpointCapabilities d).

(** Every managed property but the temporary rules. *)
Definition managed_settings (d : AccountDraft) : list (string * option json) :=
  [("openai_passthrough", when (is_openai d && openaiPassthrough d) (Some (JBool true)));
   ("openai_long_context_billing_enabled", when (is_openai d) (Some (JBool (openaiLongContextBilling d))));
   ("openai_oauth_responses_websockets_v2_mode", when (codex d) (Some (openaiWebSocketMode d)));
   ("openai_apikey_responses_websockets_v2_mode", when (openai_key d) (Some (openaiWebSocketMode d)));
   ("codex_fingerprint_mode",
    when (codex d && differs (codexFingerprintMode d) "inherit") (Some (codexFingerprintMode d)));
   ("codex_cli_only", when (codex d && codexCLIOnly d) (Some (JBool true)));
   ("codex_cli_only_allow_app_server",
    when (codex d && codexCLIOnly d && codexCLIOnlyAllowAppServer d) (Some (JBool true)));
   ("openai_responses_mode",
    when (answers_chat d && differs (openaiResponsesMode d) "auto") (Some (openaiResponsesMode d)));
   ("openai_compact_mode",
    when (is_openai d && differs (openaiCompactMode d) "auto") (Some (openaiCompactMode d)));
   ("anthropic_passthrough", when (claude_key d && anthropicPassthrough d) (Some (JBool true)));
   ("anthropic_apikey_auth_scheme",
    when (claude_key d && differs (anthropicAPIKeyAuthScheme d) "x_api_key")
      (Some (anthropicAPIKeyAuthScheme d)))]%string.

(** Look a property up through the conditional writes. *)
Ltac look_puts := repeat first [rewrite fld_put_when; decide_names | rewrite fld_put; decide_names].

(** Evaluate the comparisons of platforms and of types. *)
Ltac decide_kinds :=
  repeat match goal with
  | |- context [bool_decide (@eq UpstreamPlatform ?a ?b)] =>
      first [change (bool_decide (a = b)) with true | change (bool_decide (a = b)) with false]
  | |- context [bool_decide (@eq UpstreamAccountType ?a ?b)] =>
      first [change (bool_decide (a = b)) with true | change (bool_decide (a = b)) with false]
  end; cbn [andb orb].

Lemma platform_extra_spec d c :
  Forall (λ e : string * option json, fld c e.1 = None) (managed_settings d) →
  meets (if is_claude d && of_type d apikey
         then anthropic_extra d (if is_openai d then openai_extra d c else c)
         else if is_openai d then openai_extra d c else c) (managed_settings d).
Proof.
  intros Hc. unfold meets, managed_settings in *. open_spec Hc. unfold anthropic_extra, openai_extra.
  unfold answers_chat, codex, openai_key, claude_key, is_claude, is_openai, of_type.
  set (chat := bool_decide (js "chat_completions" ∈ _)).
  destruct (platform d), (type d); decide_kinds; repeat apply Forall_cons_2; try apply Forall_nil_2; cbn [fst snd];
    look_puts; cbn [when]; try assumption; try reflexivity; unfold when; clear -Hv Hv3 Hv4 Hv5 Hv6 Hv7 Hv8 Hv9;
    repeat match goal with |- context [if ?b then _ else _] => destruct b end; cbn [andb]; try assumption; reflexivity.
Qed.

Lemma saved_settings account d : meets (account_extra account d) (managed_settings d).
Proof.
  apply (platform_extra_spec d (common_extra account d)). unfold managed_settings.
  repeat apply Forall_cons_2; try apply Forall_nil_2; cbn [fst]; apply common_gone; by_eval.
Qed.

(** ** Reopening *)

(** The settings an account is shown with, given those it was saved with. *)
Record settings_shown (d d' : AccountDraft) : Prop := {
  shown_passthrough : openaiPassthrough d' = is_openai d && openaiPassthrough d;
  shown_billing : openaiLongContextBilling d' = is_openai d && openaiLongContextBilling d;
  shown_websocket : openaiWebSocketMode d' = if codex d || openai_key d then openaiWebSocketMode d else str "off";
  shown_fingerprint : codexFingerprintMode d' = if codex d then codexFingerprintMode d else str "inherit";
  shown_cli : codexCLIOnly d' = codex d && codexCLIOnly d;
  shown_app_server : codexCLIOnlyAllowAppServer d' = codex d && codexCLIOnly d && codexCLIOnlyAllowAppServer d;
  shown_responses : openaiResponsesMode d' = if answers_chat d then openaiResponsesMode d else str "auto";
  shown_compact : openaiCompactMode d' = if is_openai d then openaiCompactMode d else str "auto";
  shown_claude_passthrough : anthropicPassthrough d' = claude_key d && anthropicPassthrough d;
  shown_scheme : anthropicAPIKeyAuthScheme d' =
                 if claude_key d then anthropicAPIKeyAuthScheme d else str "x_api_key";
}.

(** The modes are chosen from lists of texts that are not empty. *)
Definition modes_chosen (d : AccountDraft) : bool :=
  truthy (openaiWebSocketMode d) && truthy (codexFingerprintMode d) && truthy (openaiCompactMode d)
  && truthy (openaiResponsesMode d) && truthy (anthropicAPIKeyAuthScheme d).

Lemma parse_saved_extra account d :
  json_safe (JObj (account_extra account d)) →
  parseAccountExtra (Some (buildAccountExtra account d)) = account_extra account d.
Proof.
  intros Hs. unfold parseAccountExtra, buildAccountExtra.
  pose proof (json_parse_stringify _ Hs) as Hp. rewrite Hp.
  destruct (nonempty (trim _)) eqn:E; [done|]. exfalso.
  rewrite trim_no_edge in E by by apply (json_print_edges 0 0).
  destruct (json_stringify _); [|done]. by rewrite json_parse_nil in Hp.
Qed.

(** Reading a mode that is stored unless it is the default one. *)
Lemma or_mode b v dflt : truthy v = true → or_ (when (b && differs v dflt) (Some v)) (str dflt) = if b then v else str dflt.
Proof.
  intros Ht. destruct b; cbn; [|done]. destruct (differs v dflt) eqn:E; cbn; [by rewrite Ht|].
  unfold differs, is_str in E. destruct v; try done. apply negb_false_iff, bool_decide_eq_true in E. by rewrite E.
Qed.

Lemma or_plain b v dflt : truthy v = true → or_ (when b (Some v)) (str dflt) = if b then v else str dflt.
Proof. intros Ht. destruct b; cbn; [by rewrite Ht|done]. Qed.

Lemma flag_when b : is_true (when b (Some (JBool true))) = b.
Proof. by destruct b. Qed.

Lemma is_true_bool b c : is_true (when b (Some (JBool c))) = b && c.
Proof. by destruct b, c. Qed.

(** Strip the writes of other names. *)
Ltac frame_puts :=
  repeat match goal with
  | H : ?k ≠ js ?n |- context [map_get (put_when ?c ?n ?v ?o) ?k] => rewrite (put_when_frame c n v o k H)
  | H : ?k ≠ js ?n |- context [map_get (put ?n ?v ?o) ?k] => rewrite (put_frame n v o k H)
  end.

(** Settings the dialog does not manage. *)
Lemma unmanaged_kept account d k :
  k ∉ names (managedKeys ++ credential_keys) →
  map_get (account_extra account d) k = map_get (parseAccountExtra (acc_extra <$> account)) k.
Proof.
  intros [Hm Hc]%not_names_app.
  assert (He : map_get (common_extra account d) k = map_get (parseAccountExtra (acc_extra <$> account)) k).
  { transitivity (map_get (if negb (unreadable account)
      then del_all credential_keys (del_all managedKeys (parseAccountExtra (acc_extra <$> account)))
      else del_all managedKeys (parseAccountExtra (acc_extra <$> account))) k).
    - unfold common_extra. destruct (tempUnschedEnabled d); [|done]. unfold credential_keys in Hc. by frame_names.
    - destruct (negb (unreadable account)); rewrite !map_get_del_all; by rewrite !bool_decide_eq_false_2. }
  rewrite <- He. unfold account_extra. fold (common_extra account d).
  change (if tempUnschedEnabled d then _ else _) with (common_extra account d). cbv zeta.
  generalize (common_extra account d) as c. clear He. intros c. unfold managedKeys in Hm.
  repeat match goal with H : _ ∉ names (_ :: _) |- _ => apply not_names_cons in H as [? H] end.
  assert (Ho : map_get (openai_extra d c) k = map_get c k).
  { unfold openai_extra. destruct (type d); frame_puts; reflexivity. }
  unfold anthropic_extra. destruct (bool_decide (platform d = openai)), (_ && _); frame_puts; assumption || reflexivity.
Qed.

(** The fields a draft takes from the extra settings. *)
Lemma opened_settings localeCompare localDateTime a d' :
  accountDraft localeCompare localDateTime (Some a) = Done d' →
  let extra := parseAccountExtra (Some (acc_extra a)) in
  openaiPassthrough d' = is_true (fld extra "openai_passthrough")
  ∧ openaiLongContextBilling d' = is_true (fld extra "openai_long_context_billing_enabled")
  ∧ openaiWebSocketMode d' =
      or_ (fld extra (if bool_decide (acc_type a = apikey) then "openai_apikey_responses_websockets_v2_mode"
                      else "openai_oauth_responses_websockets_v2_mode")) (str "off")
  ∧ codexFingerprintMode d' = or_ (fld extra "codex_fingerprint_mode") (str "inherit")
  ∧ codexCLIOnly d' = is_true (fld extra "codex_cli_only")
  ∧ codexCLIOnlyAllowAppServer d' = is_true (fld extra "codex_cli_only_allow_app_server")
  ∧ openaiResponsesMode d' = or_ (fld extra "openai_responses_mode") (str "auto")
  ∧ openaiCompactMode d' = or_ (fld extra "openai_compact_mode") (str "auto")
  ∧ anthropicPassthrough d' = is_true (fld extra "anthropic_passthrough")
  ∧ anthropicAPIKeyAuthScheme d' = or_ (fld extra "anthropic_apikey_auth_scheme") (str "x_api_key").
Proof.
  unfold accountDraft. destruct (loadTempUnschedRules _) as [rules|e]; cbn [mbind checked_bind]; [|done].
  intros <-%Done_inj. cbn [fmap option_fmap option_map]. split_and!; try reflexivity.
  cbn [openaiWebSocketMode]. destruct (decide (acc_type a = apikey)) as [E|E].
  - rewrite !bool_decide_eq_true_2; [done|done|by rewrite E].
  - rewrite !bool_decide_eq_false_2; [done|done|]. by intros [=].
Qed.

(** C24. Saving the extra settings and reopening the account: settings the dialog
    does not manage are kept as they were stored; of those it manages, the
    reopened draft shows the ones that apply to the account's platform and
    type with their saved values, and the others at their defaults. *)
Theorem account_extra_reopen localeCompare localDateTime account d a' d' :
  json_safe (JObj (account_extra account d)) → modes_chosen d = true →
  acc_extra a' = buildAccountExtra account d → acc_type a' = type d →
  accountDraft localeCompare localDateTime (Some a') = Done d' →
  settings_shown d d'
  ∧ (∀ k, k ∉ names (managedKeys ++ credential_keys) →
       map_get (parseAccountExtra (Some (acc_extra a'))) k
       = map_get (parseAccountExtra (acc_extra <$> account)) k).
Proof.
  intros Hs Hm He Ht Hd. pose proof (opened_settings _ _ _ _ Hd) as Ho. cbv zeta in Ho.
  rewrite He, parse_saved_extra, Ht in Ho by done. rewrite He, parse_saved_extra by done.
  split; [|apply unmanaged_kept]. pose proof (saved_settings account d) as Hset. unfold meets, managed_settings in Hset.
  open_spec Hset. unfold modes_chosen in Hm. reflect_bools. destruct Ho as (? & ? & Hw & ? & ? & ? & ? & ? & ? & ?).
  split.
  all: try (match goal with H : ?x = _ |- ?x = _ => rewrite H end;
            match goal with H : fld ?o ?n = _ |- context [fld ?o ?n] => rewrite H end;
            first [apply flag_when | apply is_true_bool | by apply or_mode]).
  rewrite Hw. unfold codex, openai_key, of_type in *. destruct (decide (type d = apikey)) as [E|E].
  - rewrite (bool_decide_eq_true_2 _ E) in *. rewrite (bool_decide_eq_false_2 (type d = oauth)) by (by rewrite E).
    rewrite andb_false_r, andb_true_r in *. cbn [orb].
    match goal with H : fld ?o ?n = _ |- context [fld ?o ?n] => rewrite H end. by apply or_plain.
  - rewrite (bool_decide_eq_false_2 _ E) in *. rewrite andb_false_r, orb_false_r in *.
    match goal with H : fld ?o ?n = _ |- context [fld ?o ?n] => rewrite H end. by apply or_plain.
Qed.

Definition json_text_of (s : string) : jstr := map (λ c, if c =? 39 then c_quote else c) (js s).

Definition codex_account (extra : jstr) : UpstreamAccount :=
  sample_account openai oauth extra (sample_metadata None None).

Definition stored_account : UpstreamAccount :=
  codex_account (json_text_of "{'codex_cli_only':true,'note':'kept','codex_fingerprint_mode':'device'}").

Definition stored_draft : { d | open_account stored_account = Done d }.
Proof. eexists. vm_compute. reflexivity. Defined.

Definition saved_account : UpstreamAccount :=
  codex_account (buildAccountExtra (Some stored_account) (proj1_sig stored_draft)).

Definition reopened_draft : { d | open_account saved_account = Done d }.
Proof. eexists. vm_compute. reflexivity. Defined.

Lemma account_extra_reopen_witness :
  map_get (parseAccountExtra (Some (acc_extra saved_account))) (js "note") = Some (str "kept")
  ∧ codexFingerprintMode (proj1_sig reopened_draft) = str "device".
Proof.
  destruct (account_extra_reopen units_compare (λ _, []) (Some stored_account) (proj1_sig stored_draft)
    saved_account (proj1_sig reopened_draft)) as [Hs Hk].
  - apply json_safeb_ok. by_eval.
  - by_eval.
  - reflexivity.
  - reflexivity.
  - apply (proj2_sig reopened_draft).
  - split.
    + rewrite Hk; [by_eval|]. apply (bool_decide_unpack _). by_eval.
    + rewrite (shown_fingerprint _ _ Hs). by_eval.
Defined.
