(* ===== verification/AccountSubmitProps.v ===== *)
(** * Saving an upstream account: what is sent

    The protocol between the account dialog and the server, as a relation
    between the calls of a save and its outcome, and that [submit] follows it. *)

From Stdlib Require Import String.
From S2P Require Import JsJson JsonText JsArith JsObject.
From S2P Require Import AccountSubmit.

#[local] Opaque js string_of_number number_of_string json_stringify.

(** ** What an answer leads to *)

Definition save_result (r : checked Response) : checked SubmitResult :=
  match r with
  | Done r => if success r then Done Saved else Failed (Message (text_or (message r) (js "Save failed")))
  | Failed e => Failed e
  end.

Definition batch_result (r : checked Response) : checked SubmitResult :=
  match r with
  | Done r => Done (if success r then Saved else KeptOpen)
  | Failed e => Failed e
  end.

(** The account an authorization was completed for. *)
Definition authorized (r : checked Response) : checked jsnum :=
  match r with
  | Done r =>
      match data_id r with
      | Some id => if success r && truthy (JNum id) then Done id
                   else Failed (Message (text_or (message r) (js "Save failed")))
      | None => Failed (Message (text_or (message r) (js "Save failed")))
      end
  | Failed e => Failed e
  end.

Section protocol.
Context (toLowerCase : jstr → jstr) (epochSeconds : jstr → jsnum).
Context (server : Call → checked Response).
Context (account : option UpstreamAccount) (isBatch : bool) (initial d : AccountDraft).

Definition checks_pass (n : CheckedNumbers) : Prop :=
  filled (name d) = true ∧ check_draft toLowerCase epochSeconds account initial d = Done n.

(** The properties a save may add to, or take from, the checked values. *)
Definition credential_properties : list string := ["credentials"; "credential_patch"; "expires_at"]%string.

(** What a payload may say of the credentials. *)
Record lawful (p : object) : Prop := {
  law_checked : ∃ n, checks_pass n ∧
    ∀ k, k ∉ names credential_properties → map_get p k = map_get (base_payload account d n) k;
  law_one_form : fld p "credentials" = None ∨ fld p "credential_patch" = None;
  law_unreadable : unreadable account = true → hasReplacementCredentials d = false →
    fld p "credentials" = None ∧ fld p "credential_patch" = None;
  law_readable a : account = Some a → credential_readable (acc_metadata a) = true → fld p "credentials" = None;
  law_replaced : account = None ∨ unreadable account = true ∧ hasReplacementCredentials d = true →
    isOAuthAccountType (type d) = false → fld p "credentials" ≠ None ∧ fld p "credential_patch" = None;
}.

(** The errors of a save that is stopped before it sends anything. *)
Inductive refused : failure → Prop :=
| no_name : filled (name d) = false → refused (Message (js "Account name is required"))
| bad_value e :
    filled (name d) = true → check_draft toLowerCase epochSeconds account initial d = Failed e → refused e
| bad_settings n e :
    checks_pass n → patched_payload toLowerCase account d n = Failed e → refused e
| bad_patch p e :
    isBatch = true → buildBatchPatch toLowerCase initial d account p = Failed e → refused e
| nothing_changed p :
    isBatch = true → buildBatchPatch toLowerCase initial d account p = Done [] →
    refused (Message (js "Select at least one field to update"))
| not_owned :
    isBatch = false → isOAuthAccountType (type d) = true → filled (oauthInput d) = true →
    starnexusOwnsOAuthRefresh d = false →
    refused (Message (js "Enable StarNexus OAuth refresh ownership before reauthorizing this account."))
| no_code :
    isBatch = false → isOAuthAccountType (type d) = true → account = None → filled (oauthInput d) = false →
    refused (Message (js "Paste the OAuth callback URL or code"))
| no_identity a :
    isBatch = false → isOAuthAccountType (type d) = true → account = Some a → truthy (JNum (acc_id a)) = false →
    refused (Message (js "Save failed"))
| bad_credentials p e :
    isBatch = false → isOAuthAccountType (type d) = false → with_credentials toLowerCase account d p = Failed e →
    refused e.

Inductive protocol : list Call → checked SubmitResult → Prop :=
| rejected_locally e : refused e → protocol [] (Failed e)
| batch_saved n patch :
    isBatch = true → checks_pass n → patch ≠ [] →
    protocol [BatchSave patch] (batch_result (server (BatchSave patch)))
| authorization_refused n body e :
    isBatch = false → isOAuthAccountType (type d) = true → checks_pass n → filled (oauthInput d) = true →
    authorized (server (CompleteOAuth body)) = Failed e →
    protocol [CompleteOAuth body] (Failed e)
| authorized_then_updated body id p :
    isBatch = false → isOAuthAccountType (type d) = true → filled (oauthInput d) = true →
    authorized (server (CompleteOAuth body)) = Done id → lawful p → fld p "expires_at" = None →
    protocol [CompleteOAuth body; UpdateAccount id p] (save_result (server (UpdateAccount id p)))
| updated a p :
    isBatch = false → account = Some a → lawful p →
    isOAuthAccountType (type d) = false ∨ filled (oauthInput d) = false →
    protocol [UpdateAccount (acc_id a) p] (save_result (server (UpdateAccount (acc_id a) p)))
| created p :
    isBatch = false → account = None → isOAuthAccountType (type d) = false → lawful p →
    protocol [CreateAccount p] (save_result (server (CreateAccount p))).

(** ** The credentials of a payload *)

Lemma reject_if_Done b text : reject_if b text = Done () → b = false.
Proof. by destruct b. Qed.

Lemma reject_if_Failed b text e : reject_if b text = Failed e → b = true ∧ e = Message (js text).
Proof. destruct b; [|done]. by intros [= <-]. Qed.

Lemma base_names n :
  fld (base_payload account d n) "credentials" = None
  ∧ fld (base_payload account d n) "credential_patch" = None.
Proof. unfold base_payload. split; by look. Qed.

(** The patch is empty when unreadable credentials are not replaced. *)
Lemma untouched_patch patch :
  unreadable account = true → hasReplacementCredentials d = false →
  buildCredentialPatch toLowerCase account d (isOAuthAccountType (type d) && filled (oauthInput d)) = Done patch →
  patch = [].
Proof.
  intros Hu Hr. unfold buildCredentialPatch. rewrite Hu. unfold hasReplacementCredentials in Hr.
  destruct (isOAuthAccountType (type d)); [rewrite Hr|]; cbn; by intros [= <-].
Qed.

Lemma patched_spec n p :
  patched_payload toLowerCase account d n = Done p →
  fld p "credentials" = None
  ∧ (∀ k, k ∉ names credential_properties → map_get p k = map_get (base_payload account d n) k)
  ∧ (account = None → isOAuthAccountType (type d) = false → fld p "credential_patch" = None)
  ∧ (unreadable account = true → hasReplacementCredentials d = false → fld p "credential_patch" = None).
Proof.
  destruct (base_names n) as [Hc Hp]. unfold patched_payload.
  destruct (exists_account account || isOAuthAccountType (type d)) eqn:E.
  - intros (patch & Hpatch & [= <-])%bind_Done. rewrite !fld_put_when. decide_names. split_and!; [done| | |].
    + unfold credential_properties. intros k Hk. frame_names. by rewrite put_when_frame.
    + intros -> Ho. by rewrite Ho in E.
    + intros Hu Hr. by rewrite (untouched_patch _ Hu Hr Hpatch).
  - by intros [= <-].
Qed.

(** Whole credentials are built exactly where the draft holds some. *)
Lemma credentials_given c :
  isOAuthAccountType (type d) = false → buildCredentialPayload d = Done c →
  hasReplacementCredentials d = true ↔ c ≠ None.
Proof.
  unfold hasReplacementCredentials, buildCredentialPayload. destruct (type d); try done; intros _; cbn [isOAuthAccountType].
  - destruct (filled (apiKey d)); cbn; by intros [= <-].
  - intros (? & _ & Hc)%bind_Done. destruct (bedrockAuthMode d).
    + destruct (filled (bedrockAccessKeyId d)), (filled (bedrockSecretAccessKey d)); cbn in *; by simplify_eq.
    + destruct (filled (bedrockApiKey d)); cbn in *; by simplify_eq.
  - unfold filled. destruct (nonempty (trim (vertexServiceAccountJson d))); cbn [negb]; [|by intros [= <-]].
    intros (? & _ & (? & _ & (? & _ & (? & _ & [= <-])%bind_Done)%bind_Done)%bind_Done)%bind_Done. done.
Qed.

Lemma framed_payload n p k :
  (∀ k, k ∉ names credential_properties → map_get p k = map_get (base_payload account d n) k) →
  k ∉ names credential_properties →
  (∀ v, map_get (put "credentials" v p) k = map_get (base_payload account d n) k)
  ∧ (∀ v, map_get (del "credential_patch" (put "credentials" v p)) k = map_get (base_payload account d n) k)
  ∧ map_get (del "expires_at" p) k = map_get (base_payload account d n) k.
Proof.
  intros Hf Hk. rewrite <- (Hf k Hk). unfold credential_properties in Hk.
  split_and!; intros; by frame_names.
Qed.

Lemma with_credentials_lawful n p p' :
  isOAuthAccountType (type d) = false → checks_pass n →
  patched_payload toLowerCase account d n = Done p → with_credentials toLowerCase account d p = Done p' →
  lawful p'.
Proof.
  intros Ho Hn (Hc & Hf & Hnew & Hun)%patched_spec. unfold with_credentials. case_eq account; [intros a Ea|intros Ea].
  - assert (Hu : unreadable account = negb (credential_readable (acc_metadata a))) by (by rewrite Ea).
    destruct (credential_readable (acc_metadata a)) eqn:Er.
    { intros [= <-]. split; rewrite ?Hu; [by exists n|by left|done|done|]. rewrite Ea. by intros [?|[? _]]. }
    intros (c & Hb & Hput)%bind_Done. pose proof (credentials_given c Ho Hb) as Hg. destruct c as [c|].
    + apply bind_Done in Hput as (c' & _ & [= <-]). split; get_names.
      * exists n. split; [done|]. intros k Hk. by apply framed_payload.
      * by right.
      * intros _ Hr. rewrite (proj2 Hg) in Hr; done.
      * intros a' Ha' Hr. rewrite Ea in Ha'. simplify_eq. by rewrite Er in Hr.
      * done.
    + injection Hput as <-. split; [by exists n|by left|auto|auto|].
      rewrite Ea. intros [?|[_ Hr]] _; [done|]. by apply Hg in Hr.
  - assert (Hu : unreadable account = false) by (by rewrite Ea).
    intros (c & Hb & Hput)%bind_Done. destruct c as [c|]; [|done].
    apply bind_Done in Hput as (c' & _ & [= <-]). split; get_names.
    1: { exists n. split; [done|]. intros k Hk. by apply framed_payload. }
    all: specialize (Hnew Ea Ho); rewrite ?Hu, ?Ea; auto.
    all: done.
Qed.

Lemma oauth_lawful n p :
  isOAuthAccountType (type d) = true → checks_pass n → patched_payload toLowerCase account d n = Done p →
  lawful p ∧ lawful (del "expires_at" p).
Proof.
  intros Ho Hn (Hc & Hf & Hnew & Hun)%patched_spec. split; split; get_names; auto.
  all: try (intros; congruence).
  - by exists n.
  - exists n. split; [done|]. intros k Hk. by apply framed_payload.
Qed.
(** ** Following a run *)

Definition follows (m : run SubmitResult) : Prop := protocol m.1 m.2.

(** A step that makes no call: it fails, and nothing was sent, or goes on. *)
Lemma follows_lift {A} (m : checked A) (f : A → run SubmitResult) :
  (∀ e, m = Failed e → refused e) → (∀ a, m = Done a → follows (f a)) → follows (lift m ≫= f).
Proof.
  intros He H. unfold follows, lift, mbind, run_bind. destruct m as [a|e]; cbn.
  - by apply H.
  - by apply rejected_locally, He.
Qed.

Lemma follows_reject b text (f : () → run SubmitResult) :
  (b = true → refused (Message (js text))) → (b = false → follows (f ())) → follows (lift (reject_if b text) ≫= f).
Proof.
  intros Hb H. apply follows_lift.
  - intros e [Ht ->]%reject_if_Failed. auto.
  - intros [] ?%reject_if_Done. auto.
Qed.

Lemma follows_save_batch p n : isBatch = true → checks_pass n → follows (save_batch toLowerCase server account initial d p).
Proof.
  intros Hb Hn. unfold save_batch. apply follows_lift; [by intros e; apply bad_patch|]. intros patch Hpatch.
  apply follows_reject.
  - intros He. destruct patch; [|done]. by eapply nothing_changed.
  - intros Hne. pose proof (batch_saved n patch Hb Hn) as H. unfold follows. unfold call, mbind, run_bind, batch_result in *.
    cbn. destruct (server (BatchSave patch)); cbn in *; apply H; by destruct patch.
Qed.

(** The last call of a save, and what its answer leads to. *)
Lemma last_call c :
  (call server c ≫= λ r, answered r (success r) ≫= λ _, mret Saved) = ([c], save_result (server c)).
Proof.
  unfold call, answered, lift, mbind, run_bind, mret, run_ret, save_result. cbn.
  destruct (server c) as [r|e]; cbn; [|done]. by destruct (success r).
Qed.

Lemma follows_save_secret n p :
  isBatch = false → isOAuthAccountType (type d) = false → checks_pass n →
  patched_payload toLowerCase account d n = Done p → follows (save_secret toLowerCase server account d p).
Proof.
  intros Hb Ho Hn Hp. unfold save_secret. apply follows_lift; [by intros e; apply bad_credentials|]. intros p' Hc.
  pose proof (with_credentials_lawful n p p' Ho Hn Hp Hc) as Hl. rewrite last_call. unfold follows. cbn.
  case_eq account; [intros a Ea|intros Ea].
  - apply updated; auto.
  - by apply created.
Qed.

Lemma bind_logged {A B} l (m : checked A) (f : A → run B) :
  ((l, m) : run A) ≫= f = match m with Done a => (l ++ (f a).1, (f a).2) | Failed e => (l, Failed e) end.
Proof. by destruct m. Qed.

Lemma complete_call p :
  filled (oauthInput d) = true →
  complete_oauth server account d p =
  ([CompleteOAuth (oauth_body account d)],
   match authorized (server (CompleteOAuth (oauth_body account d))) with
   | Done id => Done (Some id, del "expires_at" p)
   | Failed e => Failed e
   end).
Proof.
  intros Ef. unfold complete_oauth, call. rewrite Ef, bind_logged. unfold authorized, num_truthy.
  destruct (server _) as [r|e]; [|done]. destruct (data_id r) as [id|]; [|by rewrite andb_false_r].
  by destruct (success r && truthy (JNum id)).
Qed.

Lemma authorized_truthy r id : authorized r = Done id → truthy (JNum id) = true.
Proof.
  unfold authorized. destruct r as [r|e]; [|done]. destruct (data_id r) as [i|]; [|done].
  destruct (success r && truthy (JNum i)) eqn:E; [|done]. intros [= <-]. by apply andb_true_iff in E as [_ ?].
Qed.

Lemma follows_save_oauth n p :
  isBatch = false → isOAuthAccountType (type d) = true → checks_pass n →
  patched_payload toLowerCase account d n = Done p → follows (save_oauth server account d p).
Proof.
  intros Hb Ho Hn Hp. destruct (oauth_lawful n p Ho Hn Hp) as [Hl Hl'].
  unfold save_oauth. apply follows_reject.
  { intros [? ?%negb_true_iff]%andb_true_iff. by apply not_owned. }
  intros _. apply follows_reject.
  { intros [Hex ?%negb_true_iff]%andb_true_iff. apply no_code; try done. by destruct account. }
  intros Hcode. destruct (filled (oauthInput d)) eqn:Ef.
  - rewrite complete_call, bind_logged by done. set (body := oauth_body account d).
    destruct (authorized (server (CompleteOAuth body))) as [id|e] eqn:Es.
    + pose proof (authorized_truthy _ _ Es) as Ht. cbn [fst snd]. rewrite Ht. cbn [negb reject_if].
      unfold lift. rewrite bind_logged, last_call. unfold follows. cbn [fst snd app].
      eapply authorized_then_updated; try done. by get_names.
    + by apply (authorization_refused n).
  - unfold complete_oauth. rewrite Ef. unfold mret, run_ret. rewrite bind_logged. unfold follows.
    rewrite andb_true_r in Hcode. case_eq account; [intros a Ea|intros Ea]; [|by rewrite Ea in Hcode].
    cbn [fst snd fmap option_fmap option_map app]. apply follows_reject.
    { intros ?%negb_true_iff. by eapply no_identity. }
    intros _. rewrite last_call. apply updated; auto.
Qed.
End protocol.

(** C20. A save follows the protocol, whatever the server answers. It is stopped
    before sending anything only with the error of a check that fails, and
    sends nothing before every check passes. A batch is one call with a patch that is not
    empty; an authorization code is redeemed once, and only a redeemed code
    leads to the update, of the account it made or renewed and without the
    expiry; every other save is a single update or creation. A payload holds
    the checked values, never both whole credentials and a patch of them;
    credentials that cannot be read are left alone unless the draft replaces
    them, ones that can be read are only patched; new and replaced accounts
    send whole credentials. The save succeeds when its last call does. *)
Theorem submit_follows_protocol toLowerCase epochSeconds server account isBatch initial d :
  let m := submit toLowerCase epochSeconds server account isBatch initial d in
  protocol toLowerCase epochSeconds server account isBatch initial d m.1 m.2.
Proof.
  cbn zeta. apply (follows_reject toLowerCase epochSeconds server account isBatch initial d).
  { intros Hname. by apply no_name, negb_true_iff. }
  intros Hname%negb_false_iff. apply follows_lift; [by intros e; apply bad_value|]. intros n Hn.
  assert (Hpass : checks_pass toLowerCase epochSeconds account initial d n) by done.
  apply follows_lift; [by intros e; apply (bad_settings _ _ _ _ _ _ n)|]. intros p Hp.
  destruct isBatch; [by apply (follows_save_batch _ _ _ _ _ _ _ _ n)|].
  destruct (isOAuthAccountType (type d)) eqn:Ho;
    [by apply (follows_save_oauth _ _ _ _ _ _ _ n)|by apply (follows_save_secret _ _ _ _ _ _ _ n)].
Qed.

(** ** The capabilities of an account *)

(** Toggling never leaves an account without a capability, nor with one
    twice, and the responses mode falls back with the chat capability. *)
Lemma toggle_keeps_capabilities capability caps mode :
  caps ≠ [] → NoDup caps →
  let t := toggleOpenAIEndpointCapability capability caps mode in
  t.1 ≠ [] ∧ NoDup t.1 ∧ (js "chat_completions" ∈ caps → (js "chat_completions" ∉ t.1) → t.2 = str "auto").
Proof.
  intros Hne Hnd. unfold toggleOpenAIEndpointCapability. cbv zeta.
  destruct (decide (capability ∈ caps)) as [Hin|Hn].
  - rewrite bool_decide_eq_true_2 by done. destruct (length caps =? 1)%nat eqn:E; cbn [andb fst snd]; [done|].
    split_and!; [| by apply NoDup_filterb|].
    + intros Hnil. apply Nat.eqb_neq in E. apply E.
      assert (Hall : ∀ v, v ∈ caps → v = capability).
      { intros v Hv. destruct (decide (v = capability)) as [|Hv']; [done|]. exfalso.
        apply (not_elem_of_nil v). rewrite <- Hnil. apply elem_of_filterb.
        by rewrite bool_decide_eq_false_2. }
      destruct caps as [|a [|b caps]]; [done|done|]. exfalso. apply NoDup_cons in Hnd as [Ha _]. apply Ha.
      rewrite (Hall a), (Hall b) by set_solver. by left.
    + intros Hc Hn. rewrite andb_true_r, bool_decide_eq_true_2; [done|].
      destruct (decide (capability = js "chat_completions")) as [|He]; [done|]. exfalso. apply Hn, elem_of_filterb.
      split; [done|]. by rewrite bool_decide_eq_false_2.
  - rewrite bool_decide_eq_false_2 by done. cbn [andb fst snd]. split_and!.
    + by destruct caps.
    + apply NoDup_app. split_and!; [done| |apply NoDup_singleton]. by intros x Hx ->%list_elem_of_singleton.
    + intros Hc Hx. exfalso. apply Hx. apply elem_of_app. by left.
Qed.
