(* ===== verification/GroupRatio.v ===== *)
(** * Groups: ratios, selectable groups and overrides

    Model of [features/system-settings/models/group-ratio-visual-editor.tsx].
    Four settings are edited: the ratios of the groups and the groups users
    may select, in one table; the ratios of top-ups; the ratios one group has
    with another; and the list of automatic groups. Each is a JSON text of the
    parent form, rewritten at every edit.

    The table keeps its rows beside the texts and takes the texts over again
    only when their signature differs from the one it wrote last. An event is
    a function on its state; the effect runs after it where the texts changed.
    A text holds an object, or is unreadable and counts as the empty one;
    texts of other JSON values are outside the model, and so are group names
    that are members of every object. *)

From Stdlib Require Import String.
From S2P Require Import JsArith JsonText JsObject ModelPricingTable.

(** ** Ratios *)

(** [/^\d*\.?\d*$/] *)
Definition isValidRatioDraft (raw : jstr) : bool :=
  match (take_digits raw).2 with
  | [] => true
  | c :: r => (c =? 46) && negb (nonempty (take_digits r).2)
  end.

Definition parseRatioInput (raw : jstr) : option jsnum :=
  let trimmed := trim raw in
  if bool_decide (trimmed = []) || bool_decide (trimmed = js ".") || ends_with (js ".") trimmed then None
  else
    let parsed := number_of_string trimmed in
    if negb (is_finite parsed) || num_lt parsed (num_of_Z 0) then None else Some parsed.

Definition formatRatioValue (ratio : jsnum) : jstr := string_of_number ratio.

(** [String(value)] of a property that may be [undefined] *)
Definition string_of_property (value : option json) : jstr :=
  match value with Some v => string_of_json v | None => js "undefined" end.

Definition normalizeRatio (value : option json) : jsnum :=
  match value with
  | Some (JNum x) => if is_finite x && num_le (num_of_Z 0) x then x else num_of_Z 1
  | _ => default (num_of_Z 1) (parseRatioInput (string_of_property value))
  end.

(** ** The rows of the table *)

(** The number [n] of an identifier [gpr_n] stands for the identifier. *)
Record GroupPricingRow := {
  g_id : Z;
  g_name : jstr;
  g_ratio : jsnum;
  g_selectable : bool;
  g_description : jstr;
}.

#[export] Instance GroupPricingRow_eq_dec : EqDecision GroupPricingRow.
Proof. solve_decision. Defined.

(** [safeJsonParse(value, { fallback: {} })], as a value and as an object *)
Definition parsed_setting (value : jstr) : json :=
  match trim value with
  | [] => JObj []
  | t => default (JObj []) (json_parse t)
  end.

Definition setting_map (value : jstr) : object := default [] (read_setting value).

(** [String(usableMap[name] ?? '')] *)
Definition description_text (v : option json) : jstr :=
  match v with Some JNull | None => [] | Some v => string_of_json v end.

Definition group_row (ratioMap usableMap : object) (id : Z) (name : jstr) : GroupPricingRow :=
  {| g_id := id; g_name := name; g_ratio := normalizeRatio (obj_get ratioMap name);
     g_selectable := map_has usableMap name;
     g_description := description_text (obj_get usableMap name) |}.

(** The rows of some names, with the identifiers after [counter]. *)
Fixpoint rows_of_names (ratioMap usableMap : object) (counter : Z) (names : list jstr)
    : list GroupPricingRow :=
  match names with
  | [] => []
  | n :: names' =>
      group_row ratioMap usableMap (counter + 1) n :: rows_of_names ratioMap usableMap (counter + 1) names'
  end.

Definition group_names (ratioMap usableMap : object) : list jstr :=
  js_set (own_keys ratioMap ++ own_keys usableMap).

Definition buildGroupPricingRows (counter : Z) (groupRatio userUsableGroups : jstr)
    : list GroupPricingRow :=
  let ratioMap := setting_map groupRatio in
  let usableMap := setting_map userUsableGroups in
  rows_of_names ratioMap usableMap counter (group_names ratioMap usableMap).

Definition ratio_step (o : object) (row : GroupPricingRow) : object :=
  let name := trim (g_name row) in
  if nonempty name then obj_set o name (JNum (normalizeRatio (Some (JNum (g_ratio row))))) else o.

Definition usable_step (o : object) (row : GroupPricingRow) : object :=
  let name := trim (g_name row) in
  if nonempty name && g_selectable row then obj_set o name (JStr (g_description row)) else o.

Definition written_ratios (rows : list GroupPricingRow) : object := foldl ratio_step [] rows.
Definition written_usable (rows : list GroupPricingRow) : object := foldl usable_step [] rows.

(** The texts of the two settings. *)
Definition serializeGroupPricingRows (rows : list GroupPricingRow) : jstr * jstr :=
  (json_stringify_2 (JObj (written_ratios rows)), json_stringify_2 (JObj (written_usable rows))).

Definition sourceGroupPricingSignature (groupRatio userUsableGroups : jstr) : jstr :=
  json_stringify (JObj [entry "groupRatio" (parsed_setting groupRatio);
                        entry "userUsableGroups" (parsed_setting userUsableGroups)]).

Definition groupPricingSignature (rows : list GroupPricingRow) : jstr :=
  let s := serializeGroupPricingRows rows in sourceGroupPricingSignature s.1 s.2.

(** ** The table *)

(** The state of the table, with the texts of the parent it was last given. *)
Record Table := {
  t_rows : list GroupPricingRow;
  t_drafts : list (Z * jstr);
  t_emitted : option jstr;
  t_counter : Z;
  t_groupRatio : jstr;
  t_usable : jstr;
}.

Definition with_texts (g u : jstr) (t : Table) : Table :=
  {| t_rows := t_rows t; t_drafts := t_drafts t; t_emitted := t_emitted t; t_counter := t_counter t;
     t_groupRatio := g; t_usable := u |}.

Definition with_drafts (l : list (Z * jstr)) (t : Table) : Table :=
  {| t_rows := t_rows t; t_drafts := l; t_emitted := t_emitted t; t_counter := t_counter t;
     t_groupRatio := t_groupRatio t; t_usable := t_usable t |}.

Definition with_counter (n : Z) (t : Table) : Table :=
  {| t_rows := t_rows t; t_drafts := t_drafts t; t_emitted := t_emitted t; t_counter := n;
     t_groupRatio := t_groupRatio t; t_usable := t_usable t |}.

(** [lastEmittedSignatureRef.current = signature] *)
Definition with_emitted (e : option jstr) (t : Table) : Table :=
  {| t_rows := t_rows t; t_drafts := t_drafts t; t_emitted := e; t_counter := t_counter t;
     t_groupRatio := t_groupRatio t; t_usable := t_usable t |}.

(** [setRows(rows)] *)
Definition with_rows (rows : list GroupPricingRow) (t : Table) : Table :=
  {| t_rows := rows; t_drafts := t_drafts t; t_emitted := t_emitted t; t_counter := t_counter t;
     t_groupRatio := t_groupRatio t; t_usable := t_usable t |}.

(** [buildGroupPricingRows] of the texts: every row draws an identifier. *)
Definition rebuild (t : Table) : Table :=
  let rows := buildGroupPricingRows (t_counter t) (t_groupRatio t) (t_usable t) in
  with_counter (t_counter t + Z.of_nat (length rows)) (with_rows rows t).

(** The effect on the two texts. *)
Definition take_over (t : Table) : Table :=
  let incoming := sourceGroupPricingSignature (t_groupRatio t) (t_usable t) in
  if bool_decide (t_emitted t = Some incoming) then with_emitted None t
  else with_drafts []
         (if bool_decide (groupPricingSignature (t_rows t) = incoming) then t else rebuild t).

(** New texts from the parent, and the effect where they differ. *)
Definition receive (g u : jstr) (t : Table) : Table :=
  if bool_decide (g = t_groupRatio t) && bool_decide (u = t_usable t) then t
  else take_over (with_texts g u t).

(** The rows are shown and written; the parent hands the texts back. *)
Definition emitRows (nextRows : list GroupPricingRow) (t : Table) : Table :=
  let serialized := serializeGroupPricingRows nextRows in
  receive serialized.1 serialized.2
    (with_emitted (Some (sourceGroupPricingSignature serialized.1 serialized.2)) (with_rows nextRows t)).

Inductive RowEdit :=
| SetName (v : jstr) | SetRatio (v : jsnum) | SetSelectable (v : bool) | SetDescription (v : jstr).

Definition edit_row (e : RowEdit) (r : GroupPricingRow) : GroupPricingRow :=
  match e with
  | SetName v => {| g_id := g_id r; g_name := v; g_ratio := g_ratio r; g_selectable := g_selectable r;
                    g_description := g_description r |}
  | SetRatio v => {| g_id := g_id r; g_name := g_name r; g_ratio := v; g_selectable := g_selectable r;
                     g_description := g_description r |}
  | SetSelectable v => {| g_id := g_id r; g_name := g_name r; g_ratio := g_ratio r; g_selectable := v;
                          g_description := g_description r |}
  | SetDescription v => {| g_id := g_id r; g_name := g_name r; g_ratio := g_ratio r;
                           g_selectable := g_selectable r; g_description := v |}
  end.

Definition updateRow (id : Z) (e : RowEdit) (t : Table) : Table :=
  emitRows (map (λ r, if g_id r =? id then edit_row e r else r) (t_rows t)) t.

Definition handleRatioChange (id : Z) (raw : jstr) (t : Table) : Table :=
  if negb (isValidRatioDraft raw) then t
  else
    let t1 := with_drafts (map_set (t_drafts t) id raw) t in
    match parseRatioInput raw with Some x => updateRow id (SetRatio x) t1 | None => t1 end.

Definition commitRatioDraft (id : Z) (t : Table) : Table :=
  match map_get (t_drafts t) id with
  | None => t
  | Some draft =>
      let t1 := with_drafts (map_delete (t_drafts t) id) t in
      match parseRatioInput draft with Some x => updateRow id (SetRatio x) t1 | None => t1 end
  end.

Definition group_n (n : Z) : jstr := js "group_" ++ string_of_Z n.

(** The first [group_n] that is not taken; there are as many steps as names. *)
Fixpoint free_name (fuel : nat) (index : Z) (names : list jstr) : jstr :=
  match fuel with
  | O => group_n index
  | S f => if bool_decide (group_n index ∈ names) then free_name f (index + 1) names else group_n index
  end.

Definition new_group_name (rows : list GroupPricingRow) : jstr :=
  free_name (length rows) 1 (map g_name rows).

Definition addRow (t : Table) : Table :=
  let row := {| g_id := t_counter t + 1; g_name := new_group_name (t_rows t); g_ratio := num_of_Z 1;
                g_selectable := true; g_description := [] |} in
  emitRows (t_rows t ++ [row]) (with_counter (t_counter t + 1) t).

Definition removeRow (id : Z) (t : Table) : Table :=
  emitRows (filterb (λ r, negb (g_id r =? id)) (t_rows t)) t.

(** [duplicateNames]: the names of more than one row, without blanks. *)
Definition duplicateNames (rows : list GroupPricingRow) : list jstr :=
  let names := filterb nonempty (map (λ r, trim (g_name r)) rows) in
  filterb (λ n, (1 <? length (filterb (λ m, bool_decide (m = n)) names))%nat) (js_set names).

(** The first render of the table, and the effect after it. *)
Definition mount (g u : jstr) (counter : Z) : Table :=
  take_over (rebuild {| t_rows := []; t_drafts := []; t_emitted := None; t_counter := counter;
                        t_groupRatio := g; t_usable := u |}).

Inductive TableEvent :=
| ChangeName (id : Z) (v : jstr)
| ChangeSelectable (id : Z) (v : bool)
| ChangeDescription (id : Z) (v : jstr)
| TypeRatio (id : Z) (raw : jstr)
| LeaveRatio (id : Z)
| AddRow
| RemoveRow (id : Z)
| ParentTexts (g u : jstr).

Definition table_event (e : TableEvent) (t : Table) : Table :=
  match e with
  | ChangeName id v => updateRow id (SetName v) t
  | ChangeSelectable id v => updateRow id (SetSelectable v) t
  | ChangeDescription id v => updateRow id (SetDescription v) t
  | TypeRatio id raw => handleRatioChange id raw t
  | LeaveRatio id => commitRatioDraft id t
  | AddRow => addRow t
  | RemoveRow id => removeRow id t
  | ParentTexts g u => receive g u t
  end.

(** The row an event comes from, if any, is one of the table. *)
Definition event_row (e : TableEvent) : option Z :=
  match e with
  | ChangeName id _ | ChangeSelectable id _ | ChangeDescription id _ | TypeRatio id _ | LeaveRatio id
  | RemoveRow id => Some id
  | AddRow | ParentTexts _ _ => None
  end.

Inductive table_step : Table → TableEvent → Table → Prop :=
| table_step_on t e :
    (∀ id, event_row e = Some id → id ∈ map g_id (t_rows t)) → table_step t e (table_event e t).

Inductive table_run : Table → list TableEvent → Table → Prop :=
| table_run_nil t : table_run t [] t
| table_run_cons t e t1 l t2 : table_step t e t1 → table_run t1 l t2 → table_run t (e :: l) t2.

(** ** The other settings *)

(** [onChange(field, JSON.stringify(map, null, 2))] *)
Definition write_map (o : object) : jstr := json_stringify_2 (JObj o).

Definition topupRatioList (topupGroupRatio : jstr) : list (jstr * jstr) :=
  map (λ e : jstr * json, (e.1, string_of_json e.2)) (own_entries (setting_map topupGroupRatio)).

Definition handleSimpleSave (text : jstr) (edited : option jstr) (name value : jstr) : jstr :=
  let o := setting_map text in
  let o1 := match edited with
            | Some old => if bool_decide (old = name) then o else obj_delete o old
            | None => o
            end in
  write_map (obj_set o1 name (JNum (default (num_of_Z 0) (parseRatioInput value)))).

Definition handleSimpleDelete (text name : jstr) : jstr := write_map (obj_delete (setting_map text) name).

(** [handleSave] of the dialog: [None] where it stays open. *)
Definition simple_dialog_save (text : jstr) (edited : option jstr) (name value : jstr) : option jstr :=
  if negb (nonempty (trim name)) || negb (nonempty (trim value)) then None
  else match parseRatioInput value with
       | None => None
       | Some _ => Some (handleSimpleSave text edited (trim name) (trim value))
       end.

(** The overrides of a user group: an object of ratios. *)
Definition overrides_of (o : object) (userGroup : jstr) : object :=
  match obj_get o userGroup with Some (JObj m) => m | _ => [] end.

(** [if (!map[name]) map[name] = {}] *)
Definition with_user_group (o : object) (userGroup : jstr) : object :=
  if is_truthy (obj_get o userGroup) then o else obj_set o userGroup (JObj []).

Definition handleUserGroupSave (text input : jstr) : option jstr :=
  if negb (nonempty (trim input)) then None
  else Some (write_map (with_user_group (setting_map text) (trim input))).

Definition handleUserGroupDelete (text userGroup : jstr) : jstr :=
  write_map (obj_delete (setting_map text) userGroup).

(** The setting, or [None] where no user group is chosen. *)
Definition handleOverrideSave (text userGroup targetGroup : jstr) (ratio : jsnum) (old : option jstr) : option jstr :=
  if negb (nonempty userGroup) then None
  else
    let o := with_user_group (setting_map text) userGroup in
    let m := overrides_of o userGroup in
    let m1 := match old with
              | Some ((_ :: _) as n) => if bool_decide (n = targetGroup) then m else obj_delete m n
              | _ => m
              end in
    Some (write_map (obj_set o userGroup (JObj (obj_set m1 targetGroup (JNum ratio))))).

(** [handleSave] of the dialog of an override. *)
Definition override_dialog_save (text userGroup targetGroup ratio : jstr) (old : option jstr) : option jstr :=
  if negb (nonempty (trim targetGroup)) || negb (nonempty (trim ratio)) then None
  else match parseRatioInput ratio with
       | None => None
       | Some x => handleOverrideSave text userGroup (trim targetGroup) x old
       end.

Definition handleOverrideDelete (text userGroup targetGroup : jstr) : jstr :=
  let o := setting_map text in
  if is_truthy (obj_get o userGroup) then
    let m := obj_delete (overrides_of o userGroup) targetGroup in
    write_map (if nonempty m then obj_set o userGroup (JObj m) else obj_delete o userGroup)
  else write_map o.

Definition handleAutoGroupSave (list : list json) (input : jstr) : option jstr :=
  if negb (nonempty (trim input)) then None
  else Some (json_stringify_2 (JArr (list ++ [JStr (trim input)]))).

Definition handleAutoGroupDelete (list : list json) (index : nat) : jstr :=
  json_stringify_2 (JArr (take index list ++ drop (S index) list)).

(** Swap with the neighbour; [None] at the ends. *)
Definition handleAutoGroupMove (list : list json) (index : nat) (up : bool) : option jstr :=
  let at_edge := if up then (index =? 0)%nat else (length list <=? S index)%nat in
  if at_edge then None
  else
    let other := if up then (index - 1)%nat else S index in
    match list !! index, list !! other with
    | Some a, Some b => Some (json_stringify_2 (JArr (<[other := a]> (<[index := b]> list))))
    | _, _ => None
    end.

(** ** Evaluations *)

Definition sample_table : Table :=
  mount (js "{}") [] 0.

Example table_sample :
  let t := table_event AddRow (table_event AddRow sample_table) in
  map g_name (t_rows t) = map js ["group_1"; "group_2"]%string
  ∧ t_emitted t = None
  ∧ t_rows (table_event (ParentTexts (t_groupRatio t) (t_usable t)) t) = t_rows t
  ∧ parseRatioInput (js "0.") = None ∧ parseRatioInput (js "0.5") = Some (number_of_string (js "0.5")).
Proof. split_and!; by_eval. Qed.
