(* ===== verification/GroupUsable.v ===== *)
(** * Groups: additional usable groups

    Model of [features/system-settings/models/group-special-usable-editor.tsx].
    The setting is a JSON text: for every ownership group an object whose keys
    are rules ([+:g] lets its users use the group [g] too; other keys are kept
    but not shown) and whose values are descriptions. The editor holds nothing
    but the text and the chosen target of every row: what it shows is computed
    from the text, and every edit writes a new text.

    The comparison of the language's locale is an argument. Group names that
    are members of every object are outside the model. *)

From Stdlib Require Import String.
From S2P Require Import JsArith JsonText JsObject GroupRatio.

(** ** Reading and writing the setting *)

(** The rules of an ownership group, and of all of them, as objects. *)
Abbreviation Rules := (list (jstr * jstr)).
Definition SpecialUsableMap : Type := list (jstr * Rules).

Definition safeParseRecord (str : jstr) : object :=
  if negb (nonempty (trim str)) then []
  else match json_parse str with Some (JObj o) => o | _ => [] end.

(** [Object.fromEntries(entries)] *)
Definition fromEntries {V} (entries : list (jstr * V)) : list (jstr * V) :=
  foldl (λ o (e : jstr * V), obj_set o e.1 e.2) [] entries.

Definition named {V} (e : jstr * V) : bool := nonempty (trim e.1).

Definition rule_text (desc : json) : jstr := match desc with JStr s => s | _ => [] end.

Definition read_rules (rules : object) : Rules :=
  map (λ e : jstr * json, (e.1, rule_text e.2)) (filterb named (own_entries rules)).

Definition read_step (result : SpecialUsableMap) (e : jstr * json) : SpecialUsableMap :=
  match e.2 with
  | JObj rules => let entries := read_rules rules in
                  if nonempty entries then obj_set result e.1 (fromEntries entries) else result
  | _ => result
  end.

Definition safeParseSpecialUsable (str : jstr) : SpecialUsableMap :=
  foldl read_step [] (own_entries (safeParseRecord str)).

Definition clean_step (cleaned : SpecialUsableMap) (e : jstr * Rules) : SpecialUsableMap :=
  let entries := filterb (λ r, nonempty e.1 && named r) (own_entries e.2) in
  if nonempty entries then obj_set cleaned e.1 (fromEntries entries) else cleaned.

Definition cleaned_rules (m : SpecialUsableMap) : SpecialUsableMap := foldl clean_step [] (own_entries m).

Definition rules_json (rules : Rules) : json := JObj (map (λ e : jstr * jstr, (e.1, JStr e.2)) rules).
Definition special_json (m : SpecialUsableMap) : json :=
  JObj (map (λ e : jstr * Rules, (e.1, rules_json e.2)) m).

Definition serializeSpecialUsable (m : SpecialUsableMap) : jstr :=
  let cleaned := cleaned_rules m in
  if nonempty cleaned then json_stringify_2 (special_json cleaned) else js "{}".

(** ** What is shown *)

Section Shown.
Context (localeCompare : jstr → jstr → Z).

Definition sort_names (names : list jstr) : list jstr := stable_sort (λ a b, localeCompare a b <=? 0) names.

Definition getGroupNames (texts : list jstr) : list jstr :=
  sort_names (js_set (filterb (λ k, nonempty (trim k)) (concat (map (λ t, own_keys (safeParseRecord t)) texts)))).

Definition getDescriptionMap (groupRatio userUsableGroups : jstr) : Rules :=
  foldl (λ d (e : jstr * json), obj_set d e.1 (match e.2 with JStr s => s | _ => e.1 end))
    (foldl (λ d n, obj_set d n n) [] (own_keys (safeParseRecord groupRatio)))
    (own_entries (safeParseRecord userUsableGroups)).

Definition plus_key (target : jstr) : jstr := js "+:" ++ target.

Record AddedGroup := { ag_rawKey : jstr; ag_name : jstr; ag_description : jstr }.

Definition rules_of (m : SpecialUsableMap) (group : jstr) : Rules := default [] (obj_get m group).

Definition addedGroups (m : SpecialUsableMap) (group : jstr) : list AddedGroup :=
  stable_sort (λ a b, localeCompare (ag_name a) (ag_name b) <=? 0)
    (map (λ e : jstr * jstr, {| ag_rawKey := e.1; ag_name := drop 2 e.1; ag_description := e.2 |})
       (filterb (λ e, starts_with (js "+:") e.1) (own_entries (rules_of m group)))).

Definition addableGroups (available : list jstr) (m : SpecialUsableMap) (group : jstr) : list jstr :=
  filterb (λ n, negb (bool_decide (n = group)) && negb (bool_decide (n ∈ map ag_name (addedGroups m group)))) available.

Definition availableGroups (groupRatio userUsableGroups : jstr) : list jstr :=
  getGroupNames [groupRatio; userUsableGroups].

Definition ownershipGroups (available : list jstr) (m : SpecialUsableMap) : list jstr :=
  sort_names (js_set (available ++ own_keys m)).

(** The target shown in a row: the chosen one while it can be added, else the first. *)
Definition selectedTarget (selected : list (jstr * jstr)) (available : list jstr) (m : SpecialUsableMap)
    (group : jstr) : jstr :=
  let addable := addableGroups available m group in
  let chosen := default [] (obj_get selected group) in
  if nonempty chosen && bool_decide (chosen ∈ addable) then chosen else default [] (head addable).
End Shown.

(** ** Edits *)

(** The rules after [addGroup], or [None] where it does nothing. *)
Definition add_rule (descriptions : Rules) (group target : jstr) (m : SpecialUsableMap) : option SpecialUsableMap :=
  if negb (nonempty group) || negb (nonempty target) then None
  else
    let d := default [] (obj_get descriptions target) in
    Some (obj_set m group (obj_set (rules_of m group) (plus_key target) (if nonempty d then d else target))).

Definition remove_rule (group rawKey : jstr) (m : SpecialUsableMap) : option SpecialUsableMap :=
  if negb (nonempty group) then None
  else
    let nextInner := obj_delete (rules_of m group) rawKey in
    Some (if nonempty nextInner then obj_set m group nextInner else obj_delete m group).

Inductive UsableEdit :=
| AddGroup (ownershipGroup targetGroup : jstr)
| RemoveGroup (ownershipGroup rawKey : jstr).

(** The props and the state of the editor. *)
Record UsableEditor := {
  ue_value : jstr;
  ue_descriptions : Rules;
  ue_selected : list (jstr * jstr);
}.

(** [emit(nextRules)]; the parent hands the text back. *)
Definition emit_rules (next : SpecialUsableMap) (selected : list (jstr * jstr)) (e : UsableEditor) : UsableEditor :=
  {| ue_value := serializeSpecialUsable next; ue_descriptions := ue_descriptions e; ue_selected := selected |}.

Definition usable_edit (ed : UsableEdit) (e : UsableEditor) : UsableEditor :=
  let rules := safeParseSpecialUsable (ue_value e) in
  match ed with
  | AddGroup group target =>
      match add_rule (ue_descriptions e) group target rules with
      | Some next => emit_rules next (obj_set (ue_selected e) group []) e
      | None => e
      end
  | RemoveGroup group rawKey =>
      match remove_rule group rawKey rules with
      | Some next => emit_rules next (ue_selected e) e
      | None => e
      end
  end.

Definition usable_edits (l : list UsableEdit) (e : UsableEditor) : UsableEditor :=
  foldl (λ e ed, usable_edit ed e) e l.

(** ** Evaluations *)

Definition sample_usable : UsableEditor :=
  {| ue_value := json_stringify (JObj [entry "vip" (JObj [entry "-:old" (str "x"); entry " " (str "y")]); entry "n" (num 1)]);
     ue_descriptions := getDescriptionMap [] (json_stringify (JObj [entry "svip" (str "Super")]));
     ue_selected := [] |}.

Example usable_run :
  let e := usable_edits [AddGroup (js "vip") (js "svip"); AddGroup (js "7") (js "q"); RemoveGroup (js "vip") (js "-:old")]
             sample_usable in
  safeParseSpecialUsable (ue_value e)
  = [(js "7", [(js "+:q", js "q")]); (js "vip", [(js "+:svip", js "Super")])].
Proof. by_eval. Qed.
