(* ===== verification/GroupUsableProps.v ===== *)
(** * Groups: the rules of additional groups, read and written

    A written text is read back as the rules it was made from, so a run of
    edits acts on the table of rules by group and key exactly as its
    description says: nothing but the edited rule changes, whatever else the
    text holds. *)

From Stdlib Require Import String Sorting.Sorted.
From stdpp Require Import sorting.
From S2P Require Import JsArith JsonText JsObject RatioSyncProps RatioSyncInv AccountReopen ChannelUtilsProps GroupRatio GroupUsable.

#[local] Opaque js.

(** ** Canonical order of properties *)

(** Integer keys come first, in ascending order. *)
Definition key_le (a b : jstr) : Prop :=
  match index_key a, index_key b with
  | Some x, Some y => x ≤ y
  | _, None => True
  | None, Some _ => False
  end.

Definition canonical {V} (o : list (jstr * V)) : Prop := StronglySorted key_le (map fst o).

Lemma canonical_own_entries {V} (o : list (jstr * V)) : canonical o → own_entries o = o.
Proof.
  unfold canonical. induction o as [|e o IH]; [done|]. cbn [map]. intros [Hs He]%StronglySorted_inv.
  specialize (IH Hs). unfold own_entries, filterb in *. cbn [List.filter].
  destruct (is_index_key e.1) eqn:Ei; cbn [negb].
  - unfold stable_sort in *. cbn [foldr].
    destruct (foldr (sort_insert index_key_le) [] (List.filter (λ e, is_index_key e.1) o)) as [|y l] eqn:El.
    + cbn in *. by rewrite IH.
    + cbn [sort_insert]. assert (index_key_le e y = true) as ->; [|cbn; cbn in IH; by rewrite IH].
      assert (Hy : y ∈ stable_sort index_key_le (filterb (λ e, is_index_key e.1) o))
        by (unfold stable_sort, filterb; rewrite El; left).
      apply elem_of_stable_sort, elem_of_filterb in Hy as [Hy Hiy]. rewrite Forall_forall in He.
      assert (Hk : key_le e.1 y.1) by (apply He, list_elem_of_fmap; eauto).
      unfold key_le, index_key_le, is_index_key in *. destruct (index_key e.1), (index_key y.1); try done. cbn. by apply Z.leb_le.
  - assert (Hp : Forall (λ y, is_index_key y.1 = false) o).
    { apply Forall_forall. intros y Hy. rewrite Forall_forall in He.
      assert (Hk : key_le e.1 y.1) by (apply He, list_elem_of_fmap; eauto).
      unfold key_le, is_index_key in *. by destruct (index_key e.1), (index_key y.1). }
    change (List.filter (λ e0 : jstr * V, is_index_key e0.1) o) with (filterb (λ e0 : jstr * V, is_index_key e0.1) o) in *.
    rewrite filterb_empty in * by done. cbn in *. by rewrite IH.
Qed.

Lemma own_entries_canonical {V} (o : list (jstr * V)) : canonical (own_entries o).
Proof.
  unfold canonical, own_entries. rewrite map_app. apply StronglySorted_app_2.
  - intros a b (x & -> & Hx)%list_elem_of_fmap (y & -> & Hy)%list_elem_of_fmap.
    apply elem_of_filterb in Hy as [_ Hy]. unfold key_le, is_index_key in *.
    destruct (index_key x.1), (index_key y.1); done.
  - assert (Hf : Forall (λ e, is_index_key e.1 = true) (stable_sort index_key_le (filterb (λ e, is_index_key e.1) o))).
    { apply Forall_forall. intros e He. by apply elem_of_stable_sort, elem_of_filterb in He as [_ ?]. }
    assert (Hs : StronglySorted (λ a b, index_key_le a b = true) (stable_sort index_key_le (filterb (λ e, is_index_key e.1) o))).
    { apply Sorted_StronglySorted; [|apply stable_sort_sorted].
      - intros a b c. unfold index_key_le. lia.
      - intros a b. unfold index_key_le. lia. }
    induction Hs as [|e l _ IH He]; [constructor|]. cbn [map]. apply Forall_cons in Hf as [Hi Hf]. constructor; [by apply IH|].
    apply Forall_forall. intros k (y & -> & Hy)%list_elem_of_fmap. rewrite Forall_forall in He, Hf.
    specialize (He y Hy). specialize (Hf y Hy). cbn in Hf. unfold key_le, index_key_le, is_index_key in *.
    destruct (index_key e.1), (index_key y.1); try done. cbn in He. lia.
  - assert (Hf : Forall (λ e, is_index_key e.1 = false) (filterb (λ e, negb (is_index_key e.1)) o)).
    { apply Forall_forall. intros e He. apply elem_of_filterb in He as [_ He]. by destruct (is_index_key e.1). }
    induction Hf as [|e l Hi Hf IH]; [constructor|]. cbn [map]. constructor; [done|].
    apply Forall_forall. intros k (y & -> & Hy)%list_elem_of_fmap. rewrite Forall_forall in Hf. specialize (Hf y Hy).
    cbn in Hf. unfold key_le, is_index_key in *. by destruct (index_key e.1), (index_key y.1).
Qed.

Lemma StronglySorted_sublist {A} (R : relation A) l l' : l `sublist_of` l' → StronglySorted R l' → StronglySorted R l.
Proof.
  induction 1 as [|x l l' Hs IH|x l l' Hs IH]; [done| |]; intros [Hl Hx]%StronglySorted_inv.
  - constructor; [by apply IH|]. rewrite Forall_forall in Hx |- *. intros y Hy. by eapply Hx, elem_of_sublist.
  - by apply IH.
Qed.

(** ** Building an object property by property *)

Definition set_some {V W} (f : jstr * V → option W) (o : list (jstr * W)) (e : jstr * V) : list (jstr * W) :=
  match f e with Some w => obj_set o e.1 w | None => o end.

Fixpoint kept {V W} (f : jstr * V → option W) (l : list (jstr * V)) : list (jstr * W) :=
  match l with
  | [] => []
  | e :: l' => match f e with Some w => (e.1, w) :: kept f l' | None => kept f l' end
  end.

Lemma kept_names {V W} (f : jstr * V → option W) l : map fst (kept f l) `sublist_of` map fst l.
Proof. induction l as [|e l IH]; cbn; [constructor|]. destruct (f e); cbn; by constructor. Qed.

Lemma kept_well_keyed {V W} (f : jstr * V → option W) l : well_keyed l → well_keyed (kept f l).
Proof. intros Hl. eapply sublist_NoDup; [exact Hl|apply kept_names]. Qed.

Lemma kept_canonical {V W} (f : jstr * V → option W) l : canonical l → canonical (kept f l).
Proof. apply StronglySorted_sublist, kept_names. Qed.

Lemma set_some_all {V W} (f : jstr * V → option W) l acc :
  NoDup (map fst acc ++ map fst l) → foldl (set_some f) acc l = acc ++ kept f l.
Proof.
  revert acc. induction l as [|e l IH]; intros acc Hnd; [by rewrite app_nil_r|]. cbn [foldl kept map] in *. unfold set_some at 2.
  pose proof Hnd as Hnd'. apply NoDup_app in Hnd' as (_ & Hd & _).
  destruct (f e) as [w|].
  - rewrite map_set_fresh by (intros Hin; apply (Hd _ Hin); by left).
    rewrite IH; rewrite <- ?app_assoc; [done|]. by rewrite map_app, <- app_assoc.
  - apply IH. apply NoDup_app in Hnd as (H1 & _ & H2). apply NoDup_cons in H2 as [_ H2].
    apply NoDup_app; split_and!; [done| |done]. intros k Hk Hl. apply (Hd _ Hk). by right.
Qed.

Lemma map_get_kept {V W} (f : jstr * V → option W) l k :
  well_keyed l → map_get (kept f l) k = match map_get l k with Some v => f (k, v) | None => None end.
Proof.
  unfold well_keyed. induction l as [|[k' v] l IH]; [done|]. cbn [map fst]. intros [Hk Hl]%NoDup_cons. specialize (IH Hl).
  cbn. destruct (decide (k' = k)) as [->|Hne].
  - destruct (f (k, v)) as [w|]; cbn [map_get fst]; [by rewrite decide_True|].
    rewrite IH. by apply map_get_None in Hk as ->.
  - destruct (f (k', v)) as [w|]; cbn; [by rewrite decide_False|done].
Qed.

Lemma kept_idemp {V W} (f : jstr * V → option W) (g : jstr * W → option W) l :
  (∀ e w, e ∈ l → f e = Some w → g (e.1, w) = Some w) → kept g (kept f l) = kept f l.
Proof.
  induction l as [|e l IH]; intros H; [done|]. cbn. destruct (f e) as [w|] eqn:E.
  - cbn. rewrite (H e w) by (done || by left). cbn. f_equal. apply IH. intros e' w' He'. apply H. by right.
  - apply IH. intros e' w' He'. apply H. by right.
Qed.

Lemma fromEntries_id {V} (l : list (jstr * V)) : well_keyed l → fromEntries l = l.
Proof. intros Hl. unfold fromEntries. by rewrite set_all_fresh. Qed.

(** ** What is read, what is written *)

Definition some_if {A} (l : list A) : option (list A) := if nonempty l then Some l else None.

(** The rules of a group that are written. *)
Definition written (e : jstr * Rules) : option Rules :=
  some_if (filterb (λ r, nonempty e.1 && named r) (own_entries e.2)).

(** The rules of a group that are read. *)
Definition read (e : jstr * json) : option Rules :=
  match e.2 with JObj rules => some_if (read_rules rules) | _ => None end.

Definition all_keyed (m : SpecialUsableMap) : Prop := well_keyed m ∧ Forall (λ e, well_keyed e.2) m.

Lemma all_keyed_get m g r : all_keyed m → map_get m g = Some r → well_keyed r.
Proof. intros [_ Hm] Hg. by apply (Forall_map_get (λ e, well_keyed e.2) m g r) in Hg. Qed.

Lemma cleaned_rules_kept m : all_keyed m → cleaned_rules m = kept written (own_entries m).
Proof.
  intros [Hm Hr]. unfold cleaned_rules. rewrite <- (app_nil_l (kept _ _)), <- set_some_all
    by apply own_entries_well_keyed, Hm.
  assert (Hr' : Forall (λ e, well_keyed e.2) (own_entries m)) by (by rewrite own_entries_Permutation).
  generalize ([] : SpecialUsableMap). induction Hr' as [|e l He _ IH]; intros acc; [done|]. cbn [foldl]. rewrite IH. f_equal.
  unfold clean_step, set_some, written, some_if. cbv zeta.
  destruct (nonempty _); [|done]. by rewrite fromEntries_id by by apply filterb_well_keyed, own_entries_well_keyed.
Qed.

Lemma read_rules_well_keyed rules : well_keyed rules → well_keyed (read_rules rules).
Proof.
  intros Hr. unfold read_rules, well_keyed. rewrite map_map. cbn.
  by apply (filterb_well_keyed _ (own_entries rules)), own_entries_well_keyed.
Qed.

Lemma fromEntries_keeps {V} (P : jstr * V → Prop) (l : list (jstr * V)) :
  Forall P l → well_keyed (fromEntries l) ∧ Forall P (fromEntries l).
Proof.
  intros Hl. unfold fromEntries. apply (foldl_keeps (λ o, well_keyed o ∧ Forall P o)).
  - split; [apply NoDup_nil_2|constructor].
  - intros o e He [Ho HP]. split; [by apply map_set_well_keyed|]. apply Forall_map_set; [done|].
    rewrite Forall_forall in Hl. destruct e. by apply Hl.
Qed.

(** Whatever the text, what is read has distinct groups with distinct, named rules. *)
Definition all_named (m : SpecialUsableMap) : Prop := Forall (λ e, Forall (λ r, named r = true) e.2) m.

Lemma parsed_rules str : all_keyed (safeParseSpecialUsable str) ∧ all_named (safeParseSpecialUsable str).
Proof.
  unfold safeParseSpecialUsable. apply (foldl_keeps (λ m, all_keyed m ∧ all_named m)).
  - repeat split; try apply NoDup_nil_2; constructor.
  - intros m e _ [[Hk Hr] Hn]. unfold read_step. destruct e.2 as [| | | | |rules]; try done. destruct (nonempty _); [|done].
    destruct (fromEntries_keeps (λ r, named r = true) (read_rules rules)) as [H1 H2].
    { unfold read_rules. apply Forall_forall. intros r (r' & -> & [_ Hr']%elem_of_filterb)%list_elem_of_fmap. done. }
    repeat split; [by apply map_set_well_keyed|by apply Forall_map_set|by apply Forall_map_set].
Qed.

(** What is written: some rules of a group, in canonical order. *)
Definition tidy (m : SpecialUsableMap) : Prop :=
  canonical m ∧ well_keyed m ∧
  Forall (λ e, canonical e.2 ∧ well_keyed e.2 ∧ Forall (λ r, named r = true) e.2 ∧ nonempty e.2 = true ∧ e.1 ≠ []) m.

Lemma kept_elem {V W} (f : jstr * V → option W) l e w : (e, w) ∈ kept f l → ∃ v, (e, v) ∈ l ∧ f (e, v) = Some w.
Proof.
  induction l as [|[k v] l IH]; cbn; [by intros ?%not_elem_of_nil|]. destruct (f (k, v)) as [w'|] eqn:E.
  - intros [[= -> ->]|H]%elem_of_cons; [exists v; split; [by left|done]|].
    destruct (IH H) as (v' & Hv & Hf). exists v'. split; [by right|done].
  - intros H. destruct (IH H) as (v' & Hv & Hf). exists v'. split; [by right|done].
Qed.

Lemma cleaned_tidy m : all_keyed m → tidy (cleaned_rules m).
Proof.
  intros Hm. rewrite cleaned_rules_kept by done. destruct Hm as [Hm Hr]. split_and!.
  - apply kept_canonical, own_entries_canonical.
  - by apply kept_well_keyed, own_entries_well_keyed.
  - apply Forall_forall. intros [g w] (r & Hg & Hw)%kept_elem. cbn. apply (proj1 (elem_of_own_entries _ _)) in Hg.
    rewrite Forall_forall in Hr. specialize (Hr _ Hg). cbn in Hr. unfold written, some_if in Hw. cbn [fst snd] in Hw.
    destruct (nonempty (filterb _ _)) eqn:En; [|done]. injection Hw as <-. split_and!; [| |by apply Forall_forall; intros x [_ ?]%elem_of_filterb; solve_bool|done|].
    + eapply StronglySorted_sublist; [|apply (own_entries_canonical r)]. unfold filterb. clear.
      induction (own_entries r) as [|e l IH]; cbn; [constructor|]. destruct (_ && _); cbn; by constructor.
    + by apply filterb_well_keyed, own_entries_well_keyed.
    + intros ->. cbn in En. rewrite filterb_empty in En; [done|]. by apply Forall_forall.
Qed.

(** ** A written text is read back *)

(** Texts whose units are code units, as every JavaScript string. *)
Definition rules_safe (m : SpecialUsableMap) : Prop :=
  Forall (λ e, Forall code_unit e.1 ∧ Forall (λ r, Forall code_unit r.1 ∧ Forall code_unit r.2) e.2) m.

Lemma canonical_map {V W} (g : V → W) (o : list (jstr * V)) :
  canonical o → canonical (map (λ e, (e.1, g e.2)) o).
Proof. unfold canonical. by rewrite map_map. Qed.

Lemma rules_json_safe r :
  canonical r → well_keyed r → Forall (λ r, Forall code_unit r.1 ∧ Forall code_unit r.2) r → json_safe (rules_json r).
Proof.
  intros Hc Hk Hs. constructor.
  - by rewrite map_map.
  - by apply canonical_own_entries, canonical_map.
  - rewrite Forall_map. eapply Forall_impl; [exact Hs|]. by intros [k v] [? _].
  - rewrite Forall_map. eapply Forall_impl; [exact Hs|]. intros [k v] [_ ?]. by constructor.
Qed.

Lemma special_json_safe m : tidy m → rules_safe m → json_safe (special_json m).
Proof.
  intros (Hc & Hk & Hr) Hs. unfold rules_safe in Hs. rewrite Forall_forall in Hr, Hs. constructor.
  - by rewrite map_map.
  - by apply canonical_own_entries, canonical_map.
  - rewrite Forall_map. apply Forall_forall. intros e He. by apply Hs.
  - rewrite Forall_map. apply Forall_forall. intros e He. destruct (Hr e He) as (? & ? & _). apply rules_json_safe; [done|done|by apply Hs].
Qed.

Lemma read_written_rules r :
  canonical r → Forall (λ x, named x = true) r → read_rules (map (λ e : jstr * jstr, (e.1, JStr e.2)) r) = r.
Proof.
  intros Hc Hn. unfold read_rules. rewrite canonical_own_entries by by apply canonical_map.
  rewrite filterb_map, map_map. cbn. rewrite (filterb_id (λ x : jstr * jstr, named (x.1, JStr x.2)) r).
  - rewrite <- (map_id r) at 2. by apply map_ext; intros [].
  - eapply Forall_impl; [exact Hn|]. done.
Qed.

Lemma read_steps_tidy m acc :
  Forall (λ e, canonical e.2 ∧ well_keyed e.2 ∧ Forall (λ r, named r = true) e.2 ∧ nonempty e.2 = true ∧ e.1 ≠ []) m →
  NoDup (map fst (acc ++ m)) → foldl read_step acc (map (λ e : jstr * Rules, (e.1, rules_json e.2)) m) = acc ++ m.
Proof.
  intros Hm Hnd. rewrite <- (set_all_fresh acc m Hnd). clear Hnd. revert acc.
  induction Hm as [|[g r] m (Hc & Hk & Hn & He & _) _ IH]; intros acc; [done|]. cbn [map foldl fst snd] in *. rewrite IH. f_equal.
  unfold read_step, rules_json. cbn [fst snd]. by rewrite read_written_rules, He, fromEntries_id.
Qed.

Lemma empty_text : safeParseRecord (js "{}") = [].
Proof. by_eval. Qed.

Lemma reopen_rules m :
  all_keyed m → rules_safe (cleaned_rules m) → safeParseSpecialUsable (serializeSpecialUsable m) = cleaned_rules m.
Proof.
  intros Hm Hs. pose proof (cleaned_tidy m Hm) as Ht. unfold serializeSpecialUsable, safeParseSpecialUsable. cbv zeta.
  destruct (cleaned_rules m) as [|e c] eqn:Ec; [cbn [nonempty]; by rewrite empty_text|]. cbn [nonempty].
  pose proof (special_json_safe _ Ht Hs) as Hj. unfold safeParseRecord, json_stringify_2.
  rewrite trim_no_edge by by apply json_print_edges. pose proof (json_parse_print 2 _ Hj) as Hp.
  destruct (json_print 2 0 (special_json (e :: c))) as [|x t]; [by rewrite json_parse_nil in Hp|]. cbn [nonempty negb].
  rewrite Hp. unfold special_json. destruct Ht as (Hc & Hk & Hr).
  rewrite canonical_own_entries by by apply canonical_map. rewrite <- Ec in *. by apply (read_steps_tidy _ []).
Qed.

(** ** The table of rules *)

(** The description of a rule of a group, if there is one. *)
Definition rule (m : SpecialUsableMap) (g k : jstr) : option jstr := map_get (rules_of m g) k.

Lemma rules_of_get m g k : rule m g k = match map_get m g with Some r => map_get r k | None => None end.
Proof. unfold rule, rules_of. by destruct (map_get m g). Qed.

Lemma rule_cleaned m g k :
  all_keyed m → rule (cleaned_rules m) g k = if nonempty g && nonempty (trim k) then rule m g k else None.
Proof.
  intros Hm. rewrite !rules_of_get, cleaned_rules_kept, map_get_kept, map_get_own_entries
    by by try apply own_entries_well_keyed; apply Hm.
  destruct (map_get m g) as [r|] eqn:Eg; [|by case_match]. pose proof (all_keyed_get _ _ _ Hm Eg) as Hr.
  assert (H : map_get (filterb (λ r, nonempty g && named r) (own_entries r)) k
              = if nonempty g && nonempty (trim k) then map_get r k else None).
  { rewrite <- (map_get_own_entries r k Hr). unfold named.
    apply (map_get_filterb (λ k, nonempty g && nonempty (trim k)) (own_entries r) k). }
  unfold written, some_if. cbn [fst snd]. rewrite <- H. by destruct (filterb _ _).
Qed.

Lemma rule_unnamed m g k : all_named m → nonempty (trim k) = false → rule m g k = None.
Proof.
  intros Hm Hk. rewrite rules_of_get. destruct (map_get m g) as [r|] eqn:Eg; [|done].
  destruct (map_get r k) as [d|] eqn:Er; [|done]. unfold all_named in Hm.
  apply (Forall_map_get (λ e, Forall (λ r, named r = true) e.2) m g r Hm) in Eg.
  apply (Forall_map_get (λ r, named r = true) r k d Eg) in Er. unfold named in Er. cbn [fst] in Er. congruence.
Qed.

(** ** One edit *)

Lemma all_keyed_set m g r : all_keyed m → well_keyed r → all_keyed (obj_set m g r).
Proof. intros [Hm Hr] Hk. split; [by apply map_set_well_keyed|by apply Forall_map_set]. Qed.

Lemma all_keyed_rules m g : all_keyed m → well_keyed (rules_of m g).
Proof.
  intros Hm. unfold rules_of. destruct (map_get m g) as [r|] eqn:Eg; [by eapply all_keyed_get|]. apply NoDup_nil_2.
Qed.

Lemma rule_set m g r g' k : rule (obj_set m g r) g' k = if decide (g = g') then map_get r k else rule m g' k.
Proof. rewrite !rules_of_get, map_get_set. by case_decide. Qed.

(** What an edit does to the rules, group by group and key by key. *)
Definition RuleTable : Type := jstr → jstr → option jstr.

Definition table_set (g k : jstr) (v : option jstr) (T : RuleTable) : RuleTable := λ g' k',
  if negb (nonempty g') then None else if decide (g = g' ∧ k = k') then v else T g' k'.

Definition table_edit (descriptions : Rules) (ed : UsableEdit) (T : RuleTable) : RuleTable :=
  match ed with
  | AddGroup g t =>
      if nonempty g && nonempty t then
        table_set g (plus_key t) (Some (match obj_get descriptions t with Some ((_ :: _) as d) => d | _ => t end)) T
      else T
  | RemoveGroup g k => if nonempty g then table_set g k None T else T
  end.

(** The rules an edit hands to the parent. *)
Definition next_rules (e : UsableEditor) (ed : UsableEdit) : option SpecialUsableMap :=
  match ed with
  | AddGroup g t => add_rule (ue_descriptions e) g t (safeParseSpecialUsable (ue_value e))
  | RemoveGroup g k => remove_rule g k (safeParseSpecialUsable (ue_value e))
  end.

Lemma usable_edit_next e ed :
  match next_rules e ed with
  | Some m => ∃ s, usable_edit ed e = emit_rules m s e
  | None => usable_edit ed e = e
  end.
Proof. destruct ed; cbn; destruct (_ _ _); eauto. Qed.

Lemma plus_key_named t : nonempty (trim (plus_key t)) = true.
Proof.
  destruct (trim (plus_key t)) as [|] eqn:E; [|done]. exfalso.
  assert (H : Forall (λ c, is_ws c = true) (plus_key t)) by (by apply trim_nil). by inversion H.
Qed.

Lemma next_rules_keyed e ed m :
  next_rules e ed = Some m → all_keyed m ∧ all_named m.
Proof.
  destruct (parsed_rules (ue_value e)) as [Hk Hn]. intros Hm.
  assert (Hg : ∀ g, Forall (λ r, named r = true) (rules_of (safeParseSpecialUsable (ue_value e)) g)).
  { intros g. unfold rules_of. destruct (map_get _ g) as [r|] eqn:Eg; [|constructor].
    by apply (Forall_map_get (λ e, Forall (λ r, named r = true) e.2) _ g r) in Eg. }
  destruct ed as [g t|g k]; cbn in Hm.
  - unfold add_rule in Hm. destruct (_ || _); [done|]. injection Hm as <-. split.
    + by apply all_keyed_set, map_set_well_keyed, all_keyed_rules.
    + apply Forall_map_set; [done|]. apply Forall_map_set; [done|]. apply plus_key_named.
  - unfold remove_rule in Hm. destruct (nonempty g); [|done]. cbn in Hm. injection Hm as <-. destruct (nonempty (obj_delete _ _)).
    + split; [by apply all_keyed_set, map_delete_well_keyed, all_keyed_rules|]. apply Forall_map_set; [done|]. by apply Forall_map_delete.
    + split; [|by apply Forall_map_delete]. destruct Hk. split; [by apply map_delete_well_keyed|by apply Forall_map_delete].
Qed.

Lemma rule_add ds g t m m' g' k :
  add_rule ds g t m = Some m' → nonempty g' = true → rule m' g' k = table_edit ds (AddGroup g t) (rule m) g' k.
Proof.
  unfold add_rule, table_edit, table_set. destruct (nonempty g), (nonempty t); try done. cbn [negb orb andb]. intros [= <-] ->. cbn [negb].
  rewrite rule_set, map_get_set. destruct (decide (g = g')) as [<-|Hne].
  - destruct (decide (plus_key t = k)) as [<-|]; [rewrite decide_True by done|rewrite decide_False by naive_solver; done].
    destruct (obj_get ds t) as [[|c d]|]; reflexivity.
  - rewrite decide_False by naive_solver. done.
Qed.

Lemma rule_remove ds g k m m' g' k' :
  remove_rule g k m = Some m' → nonempty g' = true → rule m' g' k' = table_edit ds (RemoveGroup g k) (rule m) g' k'.
Proof.
  unfold remove_rule, table_edit, table_set. destruct (nonempty g); [|done]. cbn [negb]. intros [= <-] ->. cbn [negb].
  assert (H : map_get (obj_delete (rules_of m g) k) k' = if decide (k = k') then None else rule m g k') by apply map_get_delete.
  destruct (obj_delete (rules_of m g) k) as [|x r] eqn:Ed; cbn [nonempty].
  - rewrite rules_of_get, map_get_delete. destruct (decide (g = g')) as [<-|]; [|rewrite decide_False by naive_solver; by rewrite rules_of_get].
    cbn [map_get] in H. rewrite H. destruct (decide (k = k')) as [<-|]; [by rewrite decide_True by done|by rewrite decide_False by naive_solver].
  - rewrite rule_set. destruct (decide (g = g')) as [<-|]; [|by rewrite decide_False by naive_solver].
    rewrite H. destruct (decide (k = k')) as [<-|]; [by rewrite decide_True by done|by rewrite decide_False by naive_solver].
Qed.

Lemma next_rules_table e ed m g k :
  next_rules e ed = Some m → rule (cleaned_rules m) g k = table_edit (ue_descriptions e) ed (rule (safeParseSpecialUsable (ue_value e))) g k.
Proof.
  intros Hm. destruct (next_rules_keyed e ed m Hm) as [Hk Hn]. rewrite rule_cleaned by done.
  destruct (nonempty g) eqn:Eg; cbn [andb].
  - replace (if nonempty (trim k) then rule m g k else None) with (rule m g k)
      by (destruct (nonempty (trim k)) eqn:Ek; [done|by apply rule_unnamed]).
    destruct ed; [by apply (rule_add _ _ _ _ _ _ _ Hm)|by apply (rule_remove _ _ _ _ _ _ _ Hm)].
  - destruct ed as [g0 t|g0 k0]; cbn in Hm; unfold add_rule, remove_rule in Hm; cbn [table_edit]; unfold table_set.
    + destruct (nonempty g0), (nonempty t); try done. cbn [andb]. by rewrite Eg.
    + destruct (nonempty g0); try done. cbn [andb]. by rewrite Eg.
Qed.

Lemma next_rules_none e ed T : next_rules e ed = None → table_edit (ue_descriptions e) ed T = T.
Proof.
  destruct ed as [g t|g k]; cbn; unfold add_rule, remove_rule; [destruct (nonempty g), (nonempty t)|destruct (nonempty g)]; done.
Qed.

(** ** Code units *)

Definition edit_safe (ed : UsableEdit) : Prop :=
  match ed with AddGroup g t => Forall code_unit g ∧ Forall code_unit t | RemoveGroup _ _ => True end.

Definition editor_safe (e : UsableEditor) : Prop :=
  rules_safe (safeParseSpecialUsable (ue_value e)) ∧ Forall (λ d, Forall code_unit d.2) (ue_descriptions e).

Lemma rules_safe_get m g :
  rules_safe m → Forall (λ r, Forall code_unit r.1 ∧ Forall code_unit r.2) (rules_of m g).
Proof.
  intros Hm. unfold rules_of. destruct (map_get m g) as [r|] eqn:Eg; [|constructor].
  by apply (Forall_map_get _ m g r Hm) in Eg as [_ Eg].
Qed.

Lemma rules_safe_cleaned m : all_keyed m → rules_safe m → rules_safe (cleaned_rules m).
Proof.
  intros Hm Hs. rewrite cleaned_rules_kept by done. unfold rules_safe in *. rewrite Forall_forall in Hs |- *.
  intros [g w] (r & Hg & Hw)%kept_elem. apply (proj1 (elem_of_own_entries _ _)) in Hg. destruct (Hs _ Hg) as [H1 H2]. cbn in *.
  split; [done|]. unfold written, some_if in Hw. destruct (nonempty _); [|done]. injection Hw as <-.
  rewrite Forall_forall in H2 |- *. intros x [Hx _]%elem_of_filterb. apply H2. by apply (proj1 (elem_of_own_entries _ _)) in Hx.
Qed.

Lemma plus_key_safe t : Forall code_unit t → Forall code_unit (plus_key t).
Proof. intros Ht. apply Forall_app. split; [by apply code_unitb_ok|done]. Qed.

Lemma next_rules_safe e ed m : editor_safe e → edit_safe ed → next_rules e ed = Some m → rules_safe m.
Proof.
  intros [Hs Hd] He Hm. destruct ed as [g t|g k]; cbn in Hm.
  - destruct He as [Hg Ht]. unfold add_rule in Hm. destruct (_ || _); [done|]. injection Hm as <-.
    apply Forall_map_set; [done|]. split; [done|]. apply Forall_map_set; [by apply rules_safe_get|].
    split; [by apply plus_key_safe|]. cbn [snd]. destruct (map_get (ue_descriptions e) t) as [d|] eqn:Ed; [|done].
    apply (Forall_map_get _ _ _ _ Hd) in Ed. by destruct d.
  - unfold remove_rule in Hm. destruct (nonempty g); [|done]. cbn [negb] in Hm. injection Hm as <-.
    destruct (nonempty (obj_delete _ _)) eqn:En.
    + destruct (map_get (safeParseSpecialUsable (ue_value e)) g) as [r|] eqn:Eg.
      * apply Forall_map_set; [done|]. pose proof (Forall_map_get _ _ _ _ Hs Eg) as [Hg _].
        split; [done|]. apply Forall_map_delete. by apply rules_safe_get.
      * unfold rules_of in En. by rewrite Eg in En.
    + by apply Forall_map_delete.
Qed.

Lemma usable_edit_spec e ed :
  editor_safe e → edit_safe ed →
  let e' := usable_edit ed e in
  editor_safe e' ∧ ue_descriptions e' = ue_descriptions e
  ∧ ∀ g k, rule (safeParseSpecialUsable (ue_value e')) g k
           = table_edit (ue_descriptions e) ed (rule (safeParseSpecialUsable (ue_value e))) g k.
Proof.
  intros Hs He. cbv zeta. pose proof (usable_edit_next e ed) as Hn. destruct (next_rules e ed) as [m|] eqn:Em.
  - destruct Hn as [s ->]. cbn [emit_rules ue_value ue_descriptions]. unfold editor_safe. cbn [emit_rules ue_value ue_descriptions].
    destruct (next_rules_keyed e ed m Em) as [Hk _]. pose proof (rules_safe_cleaned m Hk (next_rules_safe e ed m Hs He Em)) as Hc.
    rewrite reopen_rules by done. split_and!; [done|apply Hs|done|]. intros g k. by apply next_rules_table.
  - rewrite Hn. split; [exact Hs|]. split; [done|]. intros g k. by rewrite next_rules_none.
Qed.

(** The effect of a run on the table of rules. *)
Definition table_edits (descriptions : Rules) (l : list UsableEdit) (T : RuleTable) : RuleTable :=
  foldl (λ T ed, table_edit descriptions ed T) T l.

Lemma table_edit_ext ds ed T T' : (∀ g k, T g k = T' g k) → ∀ g k, table_edit ds ed T g k = table_edit ds ed T' g k.
Proof.
  intros H g k. destruct ed as [g0 t|g0 k0]; cbn [table_edit]; unfold table_set; (case_match; [|apply H]);
    (case_match; [done|]); by case_decide.
Qed.

Lemma table_edits_ext ds l T T' : (∀ g k, T g k = T' g k) → ∀ g k, table_edits ds l T g k = table_edits ds l T' g k.
Proof. revert T T'. induction l as [|ed l IH]; intros T T' H; [apply H|]. apply IH, table_edit_ext, H. Qed.

(** C27. Whatever text the editor of additional usable groups starts from, the
    text after a run of edits is read back as the rules of the first text,
    changed rule by rule as the edits say: adding a target sets the rule
    [+:target] of the group to the description of the target, removing a rule
    deletes it, and every other rule of every group stays, the rules that
    are not shown included. Only the rules of a group without a name are lost. *)
Theorem usable_edits_refine l e g k :
  editor_safe e → Forall edit_safe l →
  rule (safeParseSpecialUsable (ue_value (usable_edits l e))) g k
  = table_edits (ue_descriptions e) l (rule (safeParseSpecialUsable (ue_value e))) g k.
Proof.
  intros Hs Hl. revert e Hs. induction Hl as [|ed l He _ IH]; intros e Hs; [done|].
  destruct (usable_edit_spec e ed Hs He) as (Hs' & Hd & Ht). cbn [usable_edits table_edits foldl].
  change (foldl _ (usable_edit ed e) l) with (usable_edits l (usable_edit ed e)). rewrite (IH _ Hs'), Hd.
  by apply table_edits_ext.
Qed.

Definition sample_edits : list UsableEdit :=
  [AddGroup (js "vip") (js "svip"); AddGroup (js "7") (js "q"); RemoveGroup (js "vip") (js "+:svip"); AddGroup (js "q") []].

Lemma sample_usable_safe : editor_safe sample_usable.
Proof. split; apply (bool_decide_unpack _); by_eval. Qed.

Lemma usable_edits_refine_witness :
  rule (safeParseSpecialUsable (ue_value (usable_edits sample_edits sample_usable))) (js "vip") (js "-:old")
  = table_edits (ue_descriptions sample_usable) sample_edits
      (rule (safeParseSpecialUsable (ue_value sample_usable))) (js "vip") (js "-:old").
Proof. apply usable_edits_refine; [exact sample_usable_safe|]. repeat split; repeat constructor; apply code_unitb_ok; reflexivity. Defined.
