(* ===== verification/GroupRatioProps.v ===== *)
(** * Groups: the table of ratios, written and opened again

    The two texts of the table are read back group by group: rows of one name
    become one row, with the ratio of the last of them and, when some of them
    may be selected, the description of the last that may. Rows of different
    names open as they were. Then the invariant of all reachable tables. *)

From Stdlib Require Import String.
From S2P Require Import JsonText JsObject JsArith ModelPricingTable RatioSyncProps RatioSyncInv GroupRatio GroupUsable GroupUsableProps.

#[local] Opaque js string_of_number number_of_string json_stringify.

(** ** Ratios *)

Definition ratio_ok (x : jsnum) : Prop := is_finite x = true ∧ num_le (num_of_Z 0) x = true.

Lemma finite_not_negative x : is_finite x = true → num_lt x (num_of_Z 0) = false → num_le (num_of_Z 0) x = true.
Proof. by destruct x as [[]| | |[]]. Qed.

Lemma parseRatioInput_ok raw x : parseRatioInput raw = Some x → ratio_ok x.
Proof.
  unfold parseRatioInput. cbv zeta. destruct (_ || _); [done|].
  destruct (is_finite (number_of_string (trim raw))) eqn:Ef; [|done]. cbn [negb orb].
  destruct (num_lt _ _) eqn:El; [done|]. intros [= <-]. split; [done|]. by apply finite_not_negative.
Qed.

Lemma normalizeRatio_ok v : ratio_ok (normalizeRatio v).
Proof.
  assert (H : ∀ s, ratio_ok (default (num_of_Z 1) (parseRatioInput s))).
  { intros s. destruct (parseRatioInput s) eqn:E; [by eapply parseRatioInput_ok|by split]. }
  unfold normalizeRatio. destruct v as [[| |x| | |]|]; try apply H.
  destruct (is_finite x && _) eqn:E; [|by split]. by apply andb_true_iff in E.
Qed.

Lemma normalizeRatio_id x : ratio_ok x → normalizeRatio (Some (JNum x)) = x.
Proof. intros [H1 H2]. unfold normalizeRatio. by rewrite H1, H2. Qed.

(** ** What is written for a name *)

Definition row_named (n : jstr) (r : GroupPricingRow) : bool := bool_decide (trim (g_name r) = n).

(** The names of some rows, the first of each, and the rows of a name. *)
Definition row_names (rows : list GroupPricingRow) : list jstr := filterb nonempty (map (λ r, trim (g_name r)) rows).
Definition rows_of (n : jstr) (rows : list GroupPricingRow) : list GroupPricingRow := filterb (row_named n) rows.

Definition written_ratio (r : GroupPricingRow) : json := JNum (normalizeRatio (Some (JNum (g_ratio r)))).

Lemma written_ratios_snoc rows r : written_ratios (rows ++ [r]) = ratio_step (written_ratios rows) r.
Proof. unfold written_ratios. by rewrite foldl_app. Qed.

Lemma written_usable_snoc rows r : written_usable (rows ++ [r]) = usable_step (written_usable rows) r.
Proof. unfold written_usable. by rewrite foldl_app. Qed.

Lemma rows_of_snoc n rows r : rows_of n (rows ++ [r]) = if row_named n r then rows_of n rows ++ [r] else rows_of n rows.
Proof. unfold rows_of. rewrite filterb_app. cbn. case_match; [done|]. by rewrite app_nil_r. Qed.

Lemma written_ratios_get rows n :
  n ≠ [] → map_get (written_ratios rows) n = option_map written_ratio (last (rows_of n rows)).
Proof.
  intros Hn. induction rows as [|r rows IH] using rev_ind; [done|]. rewrite written_ratios_snoc, rows_of_snoc.
  unfold ratio_step, row_named. cbv zeta. destruct (trim (g_name r)) as [|c s] eqn:Et; cbn [nonempty].
  - by rewrite bool_decide_eq_false_2 by congruence.
  - rewrite map_get_set. case_decide as Hd.
    + rewrite bool_decide_eq_true_2 by done. by rewrite last_snoc.
    + by rewrite bool_decide_eq_false_2 by done.
Qed.

Definition selectable_rows (n : jstr) (rows : list GroupPricingRow) : list GroupPricingRow :=
  filterb g_selectable (rows_of n rows).

Lemma written_usable_get rows n :
  n ≠ [] → map_get (written_usable rows) n = option_map (λ r, JStr (g_description r)) (last (selectable_rows n rows)).
Proof.
  intros Hn. induction rows as [|r rows IH] using rev_ind; [done|]. rewrite written_usable_snoc.
  unfold selectable_rows in *. rewrite rows_of_snoc. unfold usable_step, row_named. cbv zeta.
  destruct (trim (g_name r)) as [|c s] eqn:Et; cbn [nonempty andb].
  - by rewrite bool_decide_eq_false_2 by congruence.
  - destruct (g_selectable r) eqn:Es.
    + rewrite map_get_set. case_decide as Hd.
      * rewrite bool_decide_eq_true_2, filterb_app by done. cbn. rewrite Es. by rewrite last_snoc.
      * by rewrite bool_decide_eq_false_2 by done.
    + case_bool_decide; [|done]. rewrite filterb_app. cbn. by rewrite Es, app_nil_r.
Qed.

Lemma written_ratios_keys rows : map fst (written_ratios rows) = js_set (row_names rows).
Proof.
  induction rows as [|r rows IH] using rev_ind; [done|]. rewrite written_ratios_snoc. unfold row_names in *.
  rewrite map_app, filterb_app. unfold js_set, js_set_from in *. rewrite foldl_app, <- IH. cbn. unfold ratio_step. cbv zeta.
  destruct (trim (g_name r)); [done|]. cbn [nonempty foldl]. by rewrite map_set_keys.
Qed.

Lemma written_usable_keys rows : well_keyed (written_usable rows) ∧ ∀ n, n ∈ map fst (written_usable rows) → n ∈ row_names rows.
Proof.
  unfold row_names. induction rows as [|r rows [IH1 IH2]] using rev_ind.
  - split; [apply NoDup_nil_2|]. by intros n ?%not_elem_of_nil.
  - rewrite written_usable_snoc, map_app, filterb_app. unfold usable_step. cbv zeta.
    destruct (nonempty (trim (g_name r)) && g_selectable r) eqn:E; (split; [|intros n; rewrite elem_of_app]); try done; [by apply map_set_well_keyed| |by left; apply IH2].
    rewrite map_set_keys, elem_of_set_add. intros [Hn| ->]; [by left; apply IH2|]. right. cbn.
    apply andb_true_iff in E as [-> _]. by left.
Qed.

Lemma written_ratios_well_keyed rows : well_keyed (written_ratios rows).
Proof. unfold well_keyed. rewrite written_ratios_keys. apply NoDup_js_set. Qed.

(** ** An object, written and read *)

Definition entries_safe (o : object) : Prop := Forall (λ e, Forall code_unit e.1 ∧ json_safe e.2) o.

Lemma print_own_entries step d o : json_print step d (JObj (own_entries o)) = json_print step d (JObj o).
Proof.
  cbn [json_print]. rewrite !(own_entries_map (json_print step (S d))).
  by rewrite (canonical_own_entries (own_entries o)) by apply own_entries_canonical.
Qed.

Lemma own_entries_safe o : well_keyed o → entries_safe o → json_safe (JObj (own_entries o)).
Proof.
  intros Hk Hs. unfold entries_safe in Hs. rewrite Forall_forall in Hs. constructor.
  - by apply own_entries_well_keyed.
  - apply canonical_own_entries, own_entries_canonical.
  - apply Forall_forall. intros e He. apply (proj1 (elem_of_own_entries _ _)) in He. by apply Hs.
  - apply Forall_forall. intros e He. apply (proj1 (elem_of_own_entries _ _)) in He. by apply Hs.
Qed.

Lemma parse_written o : well_keyed o → entries_safe o →
  parsed_setting (json_stringify_2 (JObj o)) = JObj (own_entries o)
  ∧ setting_map (json_stringify_2 (JObj o)) = own_entries o.
Proof.
  intros Hk Hs. pose proof (own_entries_safe o Hk Hs) as Hj. unfold parsed_setting, setting_map, read_setting, json_stringify_2.
  rewrite <- print_own_entries. rewrite (trim_no_edge (json_print _ _ _)) by by apply json_print_edges. pose proof (json_parse_print 2 _ Hj) as Hp.
  destruct (json_print 2 0 (JObj (own_entries o))); [by rewrite json_parse_nil in Hp|]. by rewrite Hp.
Qed.

(** ** Rows that can be written *)

(** The ratio prints as a number that reads as itself; strings are code units. *)
Definition row_safe (r : GroupPricingRow) : Prop :=
  number_safe (normalizeRatio (Some (JNum (g_ratio r)))) = true ∧
  Forall code_unit (g_name r) ∧ Forall code_unit (g_description r).

Lemma drop_while_Forall (P : Z → Prop) p s : Forall P s → Forall P (drop_while p s).
Proof. induction 1 as [|c s Hc Hs IH]; cbn; [done|]. destruct (p c); [done|by constructor]. Qed.

Lemma trim_Forall (P : Z → Prop) s : Forall P s → Forall P (trim s).
Proof. intros Hs. by apply Forall_rev, drop_while_Forall, Forall_rev, drop_while_Forall. Qed.

Lemma obj_set_safe o k v : entries_safe o → Forall code_unit k → json_safe v → entries_safe (obj_set o k v).
Proof. intros Ho Hk Hv. by apply Forall_map_set. Qed.

Lemma written_safe rows : Forall row_safe rows → entries_safe (written_ratios rows) ∧ entries_safe (written_usable rows).
Proof.
  intros Hr. rewrite Forall_forall in Hr. split.
  - apply (foldl_keeps entries_safe); [constructor|]. intros o r (H1 & H2 & _)%Hr Ho. unfold ratio_step. cbv zeta.
    destruct (nonempty _); [|done]. apply obj_set_safe; [done|by apply trim_Forall|by constructor].
  - apply (foldl_keeps entries_safe); [constructor|]. intros o r (_ & H2 & H3)%Hr Ho. unfold usable_step. cbv zeta.
    destruct (_ && _); [|done]. apply obj_set_safe; [done|by apply trim_Forall|by constructor].
Qed.

(** ** The table opened from the texts *)

(** What is shown of a row. *)
Definition shown (r : GroupPricingRow) : jstr * jsnum * bool * jstr :=
  (g_name r, g_ratio r, g_selectable r, g_description r).

(** The one row that the rows of a name become. *)
Definition merged (rows : list GroupPricingRow) (n : jstr) : jstr * jsnum * bool * jstr :=
  (n,
   match last (rows_of n rows) with Some r => normalizeRatio (Some (JNum (g_ratio r))) | None => num_of_Z 1 end,
   nonempty (selectable_rows n rows),
   match last (selectable_rows n rows) with Some r => g_description r | None => [] end).

(** Names in the order an object has them. *)
Definition property_order (names : list jstr) : list jstr := own_keys (map (λ n, (n, tt)) names).

Definition merged_rows (rows : list GroupPricingRow) : list (jstr * jsnum * bool * jstr) :=
  map (merged rows) (property_order (js_set (row_names rows))).

Lemma property_order_keys {V} (o : list (jstr * V)) : own_keys o = property_order (map fst o).
Proof.
  unfold property_order, own_keys. rewrite map_map, (own_entries_map (λ _ : V, tt) o), map_map. done.
Qed.

Lemma js_set_absorbed {A} `{EqDecision A} (acc xs : list A) : (∀ x, x ∈ xs → x ∈ acc) → js_set_from acc xs = acc.
Proof.
  unfold js_set_from. induction xs as [|x xs IH]; intros H; [done|]. cbn. unfold set_add at 2.
  rewrite decide_True by (apply H; by left). apply IH. intros y Hy. apply H. by right.
Qed.

Lemma shown_rows_of_names R U c names :
  map shown (rows_of_names R U c names) = map (λ n, shown (group_row R U 0 n)) names.
Proof. revert c. induction names as [|n names IH]; intros c; [done|]. cbn [rows_of_names map]. by rewrite IH. Qed.

Lemma last_nonempty {A} (l : list A) : match last l with Some _ => true | None => false end = nonempty l.
Proof. destruct l as [|x l]; [done|]. destruct (last (x :: l)) eqn:E; [done|]. by apply last_None in E. Qed.

Lemma build_shown c rows :
  Forall row_safe rows →
  let s := serializeGroupPricingRows rows in map shown (buildGroupPricingRows c s.1 s.2) = merged_rows rows.
Proof.
  intros Hr. unfold serializeGroupPricingRows. cbn [fst snd]. cbv zeta. destruct (written_safe rows Hr) as [H1 H2]. destruct (written_usable_keys rows) as [Hk2 Hsub].
  pose proof (written_ratios_well_keyed rows) as Hk1. unfold buildGroupPricingRows.
  destruct (parse_written _ Hk1 H1) as [_ ->], (parse_written _ Hk2 H2) as [_ ->].
  rewrite shown_rows_of_names. unfold merged_rows. rewrite <- written_ratios_keys, <- property_order_keys.
  assert (group_names (own_entries (written_ratios rows)) (own_entries (written_usable rows)) = own_keys (written_ratios rows)) as ->.
  { unfold group_names, own_keys. rewrite !(canonical_own_entries (own_entries _)) by apply own_entries_canonical.
    unfold js_set, js_set_from. rewrite foldl_app. fold (js_set_from [] (map fst (own_entries (written_ratios rows)))).
    assert (js_set_from [] (map fst (own_entries (written_ratios rows))) = map fst (own_entries (written_ratios rows))) as ->
      by by apply js_set_NoDup, own_entries_well_keyed.
    apply js_set_absorbed. intros n Hn. rewrite own_entries_Permutation in Hn |- *.
    rewrite written_ratios_keys, elem_of_js_set. by apply Hsub. }
  apply map_ext_in. intros n Hn%list_elem_of_In. rewrite own_keys_Permutation, written_ratios_keys in Hn.
  assert (Hne : n ≠ []). { intros ->. apply (proj1 (elem_of_js_set _ _)), elem_of_filterb in Hn as [_ Hn]. done. }
  unfold shown, group_row, merged, map_has. cbn [g_name g_ratio g_selectable g_description].
  rewrite !map_get_own_entries, written_ratios_get, written_usable_get by done.
  rewrite <- last_nonempty. f_equal; [f_equal; [f_equal|]|].
  - destruct (last (rows_of n rows)); [|done]. apply normalizeRatio_id, normalizeRatio_ok.
  - by destruct (last (selectable_rows n rows)).
  - by destruct (last (selectable_rows n rows)).
Qed.

(** A rewritten table is the one the editor shows when it is opened. *)
Lemma take_over_rows t :
  t_rows (take_over t) = t_rows t
  ∨ t_rows (take_over t) = buildGroupPricingRows (t_counter t) (t_groupRatio t) (t_usable t).
Proof.
  unfold take_over. cbv zeta. case_bool_decide; [by left|]. case_bool_decide; [by left|by right].
Qed.

Lemma build_shown_any g u c1 c2 :
  map shown (buildGroupPricingRows c1 g u) = map shown (buildGroupPricingRows c2 g u).
Proof. unfold buildGroupPricingRows. cbv zeta. by rewrite !shown_rows_of_names. Qed.

Lemma mount_shown g u c : map shown (t_rows (mount g u c)) = map shown (buildGroupPricingRows 0 g u).
Proof.
  unfold mount. set (t := {| t_rows := []; t_drafts := []; t_emitted := None; t_counter := c; t_groupRatio := g; t_usable := u |}).
  destruct (take_over_rows (rebuild t)) as [-> | ->]; apply build_shown_any.
Qed.

(** C22. Rows written to the two settings are shown again when the table is
    opened from them, in the order an object has its properties: there is one
    row for every name, with the ratio of the last row of that name; it may
    be selected when one of those rows may, and has the description of the
    last of them. *)
Theorem groups_reopen rows c :
  Forall row_safe rows →
  let s := serializeGroupPricingRows rows in
  map shown (t_rows (mount s.1 s.2 c)) = merged_rows rows.
Proof. intros Hr. cbv zeta. rewrite mount_shown. by apply build_shown. Qed.

(** Rows of different names open as they were, but for blanks around the names
    and for descriptions of groups that cannot be selected. *)
Definition tidied (r : GroupPricingRow) : jstr * jsnum * bool * jstr :=
  (trim (g_name r), g_ratio r, g_selectable r, if g_selectable r then g_description r else []).

Lemma rows_of_distinct rows r :
  NoDup (map (λ r, trim (g_name r)) rows) → r ∈ rows → rows_of (trim (g_name r)) rows = [r].
Proof.
  unfold rows_of. induction rows as [|x rows IH]; intros Hnd Hr; [by apply not_elem_of_nil in Hr|].
  cbn [map] in Hnd. apply NoDup_cons in Hnd as [Hx Hnd]. unfold filterb. cbn [List.filter]. unfold row_named at 1.
  apply elem_of_cons in Hr as [<-|Hr].
  - rewrite bool_decide_eq_true_2 by done. f_equal. apply (filterb_empty (row_named (trim (g_name r)))).
    apply Forall_forall. intros y Hy. apply bool_decide_eq_false_2. intros E. apply Hx. rewrite <- E. apply list_elem_of_fmap. eauto.
  - rewrite bool_decide_eq_false_2; [by apply IH|]. intros E. apply Hx. rewrite E. apply list_elem_of_fmap. eauto.
Qed.

Lemma merged_distinct rows :
  NoDup (map (λ r, trim (g_name r)) rows) → Forall (λ r, nonempty (trim (g_name r)) = true ∧ ratio_ok (g_ratio r)) rows →
  Forall (λ r, is_index_key (trim (g_name r)) = false) rows → merged_rows rows = map tidied rows.
Proof.
  intros Hnd Hok Hp. unfold merged_rows, row_names.
  assert (filterb nonempty (map (λ r, trim (g_name r)) rows) = map (λ r, trim (g_name r)) rows) as ->.
  { apply filterb_id, Forall_map. eapply Forall_impl; [exact Hok|]. by intros r [? _]. }
  rewrite js_set_NoDup by done. unfold property_order, own_keys. rewrite own_entries_plain.
  - rewrite !map_map. cbn. apply map_ext_in. intros r Hr%list_elem_of_In. rewrite Forall_forall in Hok.
    destruct (Hok r Hr) as [_ Hx]. unfold merged, selectable_rows. rewrite rows_of_distinct by done. cbn [last].
    rewrite normalizeRatio_id by done. unfold tidied, filterb. cbn. by destruct (g_selectable r).
  - rewrite Forall_map. by apply Forall_map.
Qed.

(** ** The invariant of the table of ratios

    Whatever the order of edits and of texts from the parent, rows have
    distinct identifiers, valid ratios and drafts that agree with them; and
    the rows are those of the texts, unless a text returns whose signature
    the table still remembers from an edit that changed nothing. *)

#[local] Opaque js string_of_number number_of_string json_stringify json_stringify_2.

(** ** One edit *)

Definition incoming (t : Table) : jstr := sourceGroupPricingSignature (t_groupRatio t) (t_usable t).

(** The rows are written as the texts are, or are those built from the texts. *)
Definition follows (t : Table) : Prop :=
  groupPricingSignature (t_rows t) = incoming t
  ∨ map shown (t_rows t) = map shown (buildGroupPricingRows 0 (t_groupRatio t) (t_usable t)).

Lemma emitRows_spec rows t :
  let t' := emitRows rows t in
  t_rows t' = rows ∧ t_counter t' = t_counter t ∧ t_drafts t' = t_drafts t
  ∧ (t_groupRatio t', t_usable t') = serializeGroupPricingRows rows.
Proof.
  unfold emitRows, receive. cbv zeta. case_match eqn:E.
  - apply andb_true_iff in E as [E1%bool_decide_eq_true E2%bool_decide_eq_true]. cbn in E1, E2 |- *.
    by rewrite <- E1, <- E2.
  - unfold take_over. cbv zeta. rewrite bool_decide_eq_true_2 by done. done.
Qed.

Lemma emitRows_follows rows t : follows (emitRows rows t).
Proof.
  left. destruct (emitRows_spec rows t) as (Hr & _ & _ & Ht). cbv zeta in *. unfold incoming, groupPricingSignature. cbv zeta.
  rewrite Hr, <- Ht. done.
Qed.

(** ** The invariant *)

Record table_ok (t : Table) : Prop := {
  ok_ids : NoDup (map g_id (t_rows t));
  ok_counter : Forall (λ r, g_id r ≤ t_counter t) (t_rows t);
  ok_ratios : Forall (λ r, ratio_ok (g_ratio r)) (t_rows t);
  ok_drafts : ∀ id raw, map_get (t_drafts t) id = Some raw →
    id ≤ t_counter t ∧ isValidRatioDraft raw = true
    ∧ ∀ x r, parseRatioInput raw = Some x → r ∈ t_rows t → g_id r = id → g_ratio r = x;
}.

Lemma rows_of_names_ids R U c names :
  let rows := rows_of_names R U c names in
  NoDup (map g_id rows) ∧ Forall (λ r, c < g_id r ≤ c + Z.of_nat (length rows)) rows ∧ Forall (λ r, ratio_ok (g_ratio r)) rows.
Proof.
  cbv zeta. revert c. induction names as [|n names IH]; intros c; [by repeat constructor|]. cbn [rows_of_names map length].
  destruct (IH (c + 1)) as (H1 & H2 & H3). split_and!.
  - apply NoDup_cons. split; [|done]. intros (r & E & Hr)%list_elem_of_fmap. rewrite Forall_forall in H2. specialize (H2 r Hr).
    cbn in E. lia.
  - constructor; [cbn; lia|]. eapply Forall_impl; [exact H2|]. intros r. cbn. lia.
  - constructor; [apply normalizeRatio_ok|done].
Qed.

Lemma rebuild_ok t : t_drafts t = [] → table_ok (rebuild t).
Proof.
  intros Hd. unfold rebuild. cbv zeta. unfold buildGroupPricingRows. cbv zeta.
  destruct (rows_of_names_ids (setting_map (t_groupRatio t)) (setting_map (t_usable t)) (t_counter t)
              (group_names (setting_map (t_groupRatio t)) (setting_map (t_usable t)))) as (H1 & H2 & H3).
  cbv zeta in *. split; cbn [with_counter with_rows t_rows t_counter t_drafts]; [done| |done|].
  - eapply Forall_impl; [exact H2|]. by intros r [_ ?].
  - by rewrite Hd.
Qed.

Lemma take_over_ok t : table_ok t → table_ok (take_over t).
Proof.
  intros [H1 H2 H3 H4]. unfold take_over. cbv zeta. case_bool_decide; [by split|]. case_bool_decide; [by split|].
  unfold with_drafts. cbn [t_rows t_counter t_drafts t_emitted t_groupRatio t_usable rebuild with_counter with_rows].
  pose proof (rebuild_ok (with_drafts [] t) eq_refl) as [K1 K2 K3 K4]. by split.
Qed.

Lemma take_over_follows t : t_emitted t ≠ Some (incoming t) → follows (take_over t).
Proof.
  intros He. unfold take_over. cbv zeta. rewrite bool_decide_eq_false_2 by done. case_bool_decide; [by left|].
  right. apply build_shown_any.
Qed.

Lemma receive_ok g u t : table_ok t → table_ok (receive g u t).
Proof. intros Ht. unfold receive. case_match; [done|]. apply take_over_ok. by destruct Ht; split. Qed.

(** A draft of an identifier drawn before, which the field accepted. *)
Definition draft_ok (t : Table) (id : Z) (raw : jstr) : Prop := id ≤ t_counter t ∧ isValidRatioDraft raw = true.

(** A row shows the ratio a complete draft says. *)
Definition agrees (rows : list GroupPricingRow) (id : Z) (raw : jstr) : Prop :=
  ∀ x r, parseRatioInput raw = Some x → r ∈ rows → g_id r = id → g_ratio r = x.

Lemma emitRows_ok rows t :
  NoDup (map g_id rows) → Forall (λ r, g_id r ≤ t_counter t) rows → Forall (λ r, ratio_ok (g_ratio r)) rows →
  (∀ id raw, map_get (t_drafts t) id = Some raw → draft_ok t id raw ∧ agrees rows id raw) →
  table_ok (emitRows rows t).
Proof.
  intros H1 H2 H3 Hd. destruct (emitRows_spec rows t) as (Hr & Hc & Hf & _). cbv zeta in *.
  split; rewrite ?Hr, ?Hc, ?Hf; [done|done|done|]. intros id raw Hg. by destruct (Hd id raw Hg) as [[? ?] ?].
Qed.

Lemma edit_row_id e r : g_id (edit_row e r) = g_id r.
Proof. by destruct e. Qed.

Lemma map_edit_ids id e rows : map g_id (map (λ r, if g_id r =? id then edit_row e r else r) rows) = map g_id rows.
Proof. rewrite map_map. apply map_ext. intros r. case_match; [apply edit_row_id|done]. Qed.

Lemma drafts_agree t id raw : table_ok t → map_get (t_drafts t) id = Some raw → draft_ok t id raw ∧ agrees (t_rows t) id raw.
Proof. intros [_ _ _ H] Hg. by destruct (H id raw Hg) as (? & ? & ?). Qed.

(** An edit of a field other than the ratio. *)
Definition keeps_ratio (e : RowEdit) : Prop := ∀ r, g_ratio (edit_row e r) = g_ratio r.

Lemma edited_rows_ok id e t :
  table_ok t →
  let rows := map (λ r, if g_id r =? id then edit_row e r else r) (t_rows t) in
  NoDup (map g_id rows) ∧ Forall (λ r, g_id r ≤ t_counter t) rows.
Proof.
  intros [H1 H2 _ _]. cbv zeta. split; [by rewrite map_edit_ids|]. apply Forall_map. eapply Forall_impl; [exact H2|].
  intros r Hr. by case_match; rewrite ?edit_row_id.
Qed.

Lemma updateRow_ok id e t : table_ok t → keeps_ratio e → table_ok (updateRow id e t).
Proof.
  intros Ht He. destruct (edited_rows_ok id e t Ht) as [H1 H2]. apply emitRows_ok; [done|done|..].
  - apply Forall_map. eapply Forall_impl; [exact (ok_ratios t Ht)|]. intros r Hr. case_match; [|done]. by rewrite He.
  - intros i raw Hg. destruct (drafts_agree t i raw Ht Hg) as [Hd Ha]. split; [done|].
    intros x r' Hx (r & -> & Hr)%list_elem_of_fmap Hi. case_match; [rewrite He, edit_row_id in *|]; by apply Ha.
Qed.

Lemma with_drafts_ok l t :
  table_ok t → (∀ id raw, map_get l id = Some raw → draft_ok t id raw ∧ agrees (t_rows t) id raw) → table_ok (with_drafts l t).
Proof. intros [H1 H2 H3 H4] Hl. split; try done. intros id raw Hg. by destruct (Hl id raw Hg) as [[? ?] ?]. Qed.

(** The ratio of a row becomes the one its draft says, where it has a draft. *)
Lemma set_ratio_ok id x l t :
  table_ok t → ratio_ok x →
  (∀ i raw, map_get l i = Some raw → draft_ok t i raw ∧ (i ≠ id → agrees (t_rows t) i raw)) →
  (∀ raw y, map_get l id = Some raw → parseRatioInput raw = Some y → y = x) →
  table_ok (updateRow id (SetRatio x) (with_drafts l t)).
Proof.
  intros Ht Hx Hl Hd. destruct (edited_rows_ok id (SetRatio x) t Ht) as [H1 H2]. apply emitRows_ok; [done|done|..].
  - apply Forall_map. eapply Forall_impl; [exact (ok_ratios t Ht)|]. intros r Hr. by case_match.
  - intros i raw Hg. change (map_get l i = Some raw) in Hg. destruct (Hl i raw Hg) as [Ho Ha]. split; [done|].
    intros y r' Hy (r & -> & Hr)%list_elem_of_fmap Hi. cbv beta in *. destruct (g_id r =? id) eqn:Ei.
    + apply Z.eqb_eq in Ei. cbn in Hi |- *. symmetry. by apply (Hd raw); [congruence|].
    + apply Z.eqb_neq in Ei. apply Ha; [congruence|done..].
Qed.

Lemma handleRatioChange_ok id raw t : table_ok t → id ∈ map g_id (t_rows t) → table_ok (handleRatioChange id raw t).
Proof.
  intros Ht (r & -> & Hr)%list_elem_of_fmap. unfold handleRatioChange. cbv zeta.
  destruct (isValidRatioDraft raw) eqn:Ev; [|done]. cbn [negb].
  assert (Hb : g_id r ≤ t_counter t) by (pose proof (ok_counter t Ht) as H; rewrite Forall_forall in H; by apply H).
  assert (Hl : ∀ i s, map_get (map_set (t_drafts t) (g_id r) raw) i = Some s →
    draft_ok t i s ∧ (i ≠ g_id r → agrees (t_rows t) i s) ∧ (i = g_id r → s = raw)).
  { intros i s. rewrite map_get_set. case_decide as E; [intros [= <-]; subst i; done|].
    intros Hg. destruct (drafts_agree t i s Ht Hg). split_and!; [done|done|by intros ->]. }
  destruct (parseRatioInput raw) as [x|] eqn:Ex.
  - apply set_ratio_ok; [done|by eapply parseRatioInput_ok|..].
    + intros i s Hg. by destruct (Hl i s Hg) as (? & ? & _).
    + intros s y Hg Hy. destruct (Hl _ s Hg) as (_ & _ & H). rewrite H in Hy by done. congruence.
  - apply with_drafts_ok; [done|]. intros i s Hg. destruct (Hl i s Hg) as (H1 & H2 & H3). split; [done|].
    destruct (decide (i = g_id r)) as [->|]; [|by apply H2]. intros y r' Hy. rewrite H3 in Hy by done. congruence.
Qed.

Lemma commitRatioDraft_ok id t : table_ok t → table_ok (commitRatioDraft id t).
Proof.
  intros Ht. unfold commitRatioDraft. destruct (map_get (t_drafts t) id) as [raw|] eqn:Eg; [|done]. cbv zeta.
  assert (Hl : ∀ i s, map_get (map_delete (t_drafts t) id) i = Some s → draft_ok t i s ∧ agrees (t_rows t) i s).
  { intros i s. rewrite map_get_delete. case_decide; [done|]. by apply drafts_agree. }
  destruct (parseRatioInput raw) as [x|] eqn:Ex; [|by apply with_drafts_ok].
  apply set_ratio_ok; [done|by eapply parseRatioInput_ok|..].
  - intros i s Hg. by destruct (Hl i s Hg).
  - intros s y. by rewrite map_get_delete_eq.
Qed.

(** ** New names *)

Lemma group_n_inj a b : 0 ≤ a → 0 ≤ b → group_n a = group_n b → a = b.
Proof.
  intros Ha Hb H%app_inv_head. rewrite <- (proj1 (string_of_Z_nonneg a Ha)), H. by apply string_of_Z_nonneg.
Qed.

(** The loop stops at the first name that is free, or has seen [fuel] names taken. *)
Lemma free_name_at fuel i names :
  ∃ k : nat, (k ≤ fuel)%nat ∧ free_name fuel i names = group_n (i + Z.of_nat k)
  ∧ (∀ j : nat, (j < k)%nat → group_n (i + Z.of_nat j) ∈ names)
  ∧ (k < fuel → group_n (i + Z.of_nat k) ∉ names)%nat.
Proof.
  revert i. induction fuel as [|f IH]; intros i.
  - exists 0%nat. split_and!; [done|by rewrite Z.add_0_r|lia|lia].
  - cbn [free_name]. case_bool_decide as Hi.
    + destruct (IH (i + 1)) as (k & Hk & E & Hlt & Hout). exists (S k). split_and!; [lia|rewrite E; f_equal; lia| |].
      * intros [|j] Hj; [by rewrite Z.add_0_r|]. replace (i + Z.of_nat (S j)) with (i + 1 + Z.of_nat j) by lia. apply Hlt. lia.
      * intros Hf. replace (i + Z.of_nat (S k)) with (i + 1 + Z.of_nat k) by lia. apply Hout. lia.
    + exists 0%nat. split_and!; [lia|by rewrite Z.add_0_r|lia|by rewrite Z.add_0_r].
Qed.

Lemma group_names_NoDup n : NoDup (map (λ j, group_n (1 + Z.of_nat j)) (seq 0 n)).
Proof.
  apply NoDup_fmap_2_strong; [|apply NoDup_seq]. intros a b _ _ E. apply group_n_inj in E; lia.
Qed.

(** There are fewer rows than names tried, so the search ends at a free name. *)
Lemma new_group_name_free rows : new_group_name rows ∉ map g_name rows.
Proof.
  unfold new_group_name. destruct (free_name_at (length rows) 1 (map g_name rows)) as (k & Hk & -> & Hlt & Hout).
  destruct (decide (k < length rows)%nat) as [Hf|Hf]; [by apply Hout|]. intros Hin.
  assert (Hs : map (λ j, group_n (1 + Z.of_nat j)) (seq 0 (S k)) ⊆ map g_name rows).
  { intros x (j & -> & Hj%elem_of_seq)%list_elem_of_fmap. destruct (decide (j = k)) as [->|]; [done|]. apply Hlt. lia. }
  assert (Hl : (length (map (λ j, group_n (1 + Z.of_nat j)) (seq 0 (S k))) ≤ length (map g_name rows))%nat).
  { apply submseteq_length, NoDup_submseteq; [apply group_names_NoDup|]. apply Hs. }
  rewrite !length_map, length_seq in Hl. lia.
Qed.

(** ** Every run *)

Lemma addRow_ok t : table_ok t → table_ok (addRow t).
Proof.
  intros Ht. pose proof Ht as [H1 H2 H3 _]. unfold addRow. cbv zeta. rewrite Forall_forall in H2.
  set (row := {| g_id := t_counter t + 1; g_name := _; g_ratio := _; g_selectable := _; g_description := _ |}).
  apply emitRows_ok.
  - rewrite map_app. apply NoDup_app. split_and!; [done| |apply NoDup_singleton].
    intros i (r & -> & Hr%H2)%list_elem_of_fmap E%list_elem_of_singleton. cbn in E. lia.
  - apply Forall_app. split; [|by repeat constructor]. apply Forall_forall. intros r Hr%H2. cbn. lia.
  - apply Forall_app. split; [done|]. constructor; [by split|done].
  - intros i raw Hg. destruct (drafts_agree t i raw Ht Hg) as [[Hi Hv] Ha]. split; [split; [cbn; lia|done]|].
    intros x r Hx [Hr|Hr%list_elem_of_singleton]%elem_of_app E; [by apply Ha|]. subst r. cbn in E. lia.
Qed.

Lemma removeRow_ok id t : table_ok t → table_ok (removeRow id t).
Proof.
  intros Ht. pose proof Ht as [H1 H2 H3 _]. rewrite Forall_forall in H2, H3. apply emitRows_ok.
  - clear -H1. induction (t_rows t) as [|r l IH]; [done|]. cbn [map] in H1. apply NoDup_cons in H1 as [Hr Hl]. unfold filterb. cbn.
    destruct (negb _); [|by apply IH]. cbn. apply NoDup_cons. split; [|by apply IH].
    intros (y & E & [Hy _]%elem_of_filterb)%list_elem_of_fmap. apply Hr. rewrite E. apply list_elem_of_fmap. eauto.
  - apply Forall_forall. intros r [Hr _]%elem_of_filterb. by apply H2.
  - apply Forall_forall. intros r [Hr _]%elem_of_filterb. by apply H3.
  - intros i raw Hg. destruct (drafts_agree t i raw Ht Hg) as [Hd Ha]. split; [done|].
    intros x r Hx [Hr _]%elem_of_filterb. by apply Ha.
Qed.

Lemma table_step_ok t e t' : table_step t e t' → table_ok t → table_ok t'.
Proof.
  intros [t0 e0 Hrow] Ht. destruct e0; cbn [table_event].
  1-3: by apply updateRow_ok.
  - by apply handleRatioChange_ok, Hrow.
  - by apply commitRatioDraft_ok.
  - by apply addRow_ok.
  - by apply removeRow_ok.
  - by apply receive_ok.
Qed.

Lemma mount_ok g u c : table_ok (mount g u c).
Proof. by apply take_over_ok, rebuild_ok. Qed.

(** ** The rows and the texts *)

(** Texts whose signature the table remembers, while its rows have another. *)
Definition forgotten (t : Table) (e : TableEvent) : Prop :=
  match e with
  | ParentTexts g u =>
      t_emitted t = Some (sourceGroupPricingSignature g u)
      ∧ groupPricingSignature (t_rows t) ≠ sourceGroupPricingSignature g u
  | _ => False
  end.

Fixpoint none_forgotten (t : Table) (l : list TableEvent) : Prop :=
  match l with
  | [] => True
  | e :: l' => ¬ forgotten t e ∧ none_forgotten (table_event e t) l'
  end.

Lemma receive_follows g u t : follows t → ¬ forgotten t (ParentTexts g u) → follows (receive g u t).
Proof.
  intros Ht Hn. unfold receive. case_match; [done|].
  destruct (decide (t_emitted t = Some (sourceGroupPricingSignature g u))) as [He|He].
  - unfold take_over. cbv zeta. rewrite bool_decide_eq_true_2 by done. left.
    destruct (decide (groupPricingSignature (t_rows t) = sourceGroupPricingSignature g u)) as [Hs|Hs]; [exact Hs|].
    by destruct Hn.
  - by apply take_over_follows.
Qed.

Lemma table_event_follows t e : follows t → ¬ forgotten t e → follows (table_event e t).
Proof.
  intros Ht Hn. destruct e; cbn [table_event]; try apply emitRows_follows.
  - unfold handleRatioChange. cbv zeta. destruct (negb _); [done|]. destruct (parseRatioInput raw); [apply emitRows_follows|done].
  - unfold commitRatioDraft. cbv zeta. destruct (map_get _ _); [|done]. destruct (parseRatioInput _); [apply emitRows_follows|done].
  - by apply receive_follows.
Qed.

Lemma mount_follows g u c : follows (mount g u c).
Proof. by apply take_over_follows. Qed.

Lemma table_run_ok t l t' : table_run t l t' → table_ok t → table_ok t'.
Proof. induction 1 as [|t e t1 l t2 Hs _ IH]; [done|]. intros Hok. by eapply IH, table_step_ok. Qed.

Lemma table_run_follows t l t' : table_run t l t' → none_forgotten t l → follows t → follows t'.
Proof.
  induction 1 as [|t e t1 l t2 Hs _ IH]; [done|]. inversion Hs; subst. intros [Hn Hl] Hf. by apply IH, table_event_follows.
Qed.

(** C12. However the table of groups is edited and whatever texts the parent
    gives it, the rows have distinct identifiers, none drawn after the
    counter, their ratios are finite and not negative, and a draft that is a
    number is the ratio of its row. The rows are written as the texts are, or
    built from them, as long as no texts arrive whose signature the table
    still remembers from its last edit while its rows have another. *)
Theorem table_invariant g u c l t :
  table_run (mount g u c) l t →
  table_ok t ∧ (none_forgotten (mount g u c) l → follows t).
Proof.
  intros Hr. split; [by apply (table_run_ok _ _ _ Hr), mount_ok|]. intros Hn. by apply (table_run_follows _ _ _ Hr), mount_follows.
Qed.

(** ** Evaluations *)

Definition sample_rows : list GroupPricingRow :=
  [{| g_id := 0; g_name := js "default"; g_ratio := num_of_Z 1; g_selectable := true; g_description := js "d" |};
   {| g_id := 0; g_name := js " vip"; g_ratio := number_of_string (js "0.8"); g_selectable := false; g_description := [] |}].

Definition sample_groups : jstr * jstr := serializeGroupPricingRows sample_rows.

Definition sample_events : list TableEvent :=
  [TypeRatio 2 (js "0.5"); TypeRatio 1 (js "2."); AddRow; LeaveRatio 1; RemoveRow 2; ChangeName 3 (js "svip");
   ParentTexts sample_groups.1 sample_groups.2].

Definition run_events (t : Table) (l : list TableEvent) : Table := foldl (λ t e, table_event e t) t l.

(** Each event comes from a row of the table it meets. *)
Fixpoint events_possible (t : Table) (l : list TableEvent) : bool :=
  match l with
  | [] => true
  | e :: l' =>
      match event_row e with Some id => bool_decide (id ∈ map g_id (t_rows t)) | None => true end
      && events_possible (table_event e t) l'
  end.

Lemma run_events_run t l : events_possible t l = true → table_run t l (run_events t l).
Proof.
  revert t. induction l as [|e l IH]; intros t H; [constructor|]. cbn [events_possible] in H. apply andb_true_iff in H as [He Hl].
  apply table_run_cons with (t1 := table_event e t); [|by apply IH]. constructor. intros id E. rewrite E in He.
  by apply bool_decide_eq_true in He.
Qed.

Lemma table_invariant_witness :
  let t0 := mount sample_groups.1 sample_groups.2 0 in
  let t := run_events t0 sample_events in
  table_ok t ∧ (none_forgotten t0 sample_events → follows t).
Proof. apply (table_invariant sample_groups.1 sample_groups.2 0 sample_events). apply run_events_run. vm_compute. reflexivity. Defined.

Lemma groups_reopen_witness :
  let rows := sample_rows ++ sample_rows in
  let s := serializeGroupPricingRows rows in
  map shown (t_rows (mount s.1 s.2 5)) = merged_rows rows.
Proof.
  apply groups_reopen. repeat constructor; try reflexivity; apply code_unitb_ok; reflexivity.
Defined.

(** An edit that changes nothing, other texts, and the first texts again: the
    table shows the rows of the other texts. *)
Definition other_groups : jstr * jstr := serializeGroupPricingRows (take 1 sample_rows).

Definition returning_texts : list TableEvent :=
  [TypeRatio 1 (js "1.0"); ParentTexts other_groups.1 other_groups.2; ParentTexts sample_groups.1 sample_groups.2].

Lemma returning_texts_missed :
  let t0 := mount sample_groups.1 sample_groups.2 0 in
  let t := run_events t0 returning_texts in
  table_run t0 returning_texts t
  ∧ (t_groupRatio t, t_usable t) = sample_groups ∧ length (t_rows t) = 1%nat ∧ length (t_rows t0) = 2%nat.
Proof. split; [apply run_events_run; vm_compute; reflexivity|]. split_and!; vm_compute; reflexivity. Qed.

(** A group that may be selected but has no ratio gets one when another row is edited. *)
Lemma ratio_written_for_selectable :
  let t0 := mount (js "{}") other_groups.2 0 in
  obj_get (setting_map (t_groupRatio t0)) (js "default") = None
  ∧ obj_get (setting_map (t_groupRatio (table_event AddRow t0))) (js "default") = Some (JNum (num_of_Z 1)).
Proof. split; vm_compute; reflexivity. Qed.
