(* ===== verification/NavConfig.v ===== *)
(** * Navigation: the two settings and what reads them

    Model of [features/system-settings/maintenance/config.ts], the reading of
    the header setting in [lib/nav-modules.ts], and the form of the header in
    [features/system-settings/maintenance/header-navigation-section.tsx]. The
    server stores two texts: which entries the header has, and which sections
    and modules the sidebar has. The settings page and the pages that obey
    them read the texts with parsers of their own.

    A section is the object of its flags, [enabled] among them. The lower case
    of the language is an argument. Names that are members of every object are
    outside the model. *)

From Stdlib Require Import String.
From S2P Require Import JsArith JsonText JsObject.

(** ** Values of any kind *)

Definition index_entries {V} (l : list V) : list (jstr * V) :=
  imap (λ i v, (string_of_Z (Z.of_nat i), v)) l.

(** [Object.entries(value)]: [None] where it throws. *)
Definition entries_of (v : json) : option object :=
  match v with
  | JNull => None
  | JObj o => Some (own_entries o)
  | JArr l => Some (index_entries l)
  | JStr s => Some (index_entries (map (λ c, JStr [c]) s))
  | JBool _ | JNum _ => Some []
  end.

(** A value with [typeof value === 'object'] that is not [null], as a record. *)
Definition as_record (v : json) : option object :=
  match v with JObj o => Some o | JArr l => Some (index_entries l) | _ => None end.

(** ** The sections of the sidebar *)

Abbreviation SectionConfig := (list (jstr * bool)).
Abbreviation SidebarModules := (list (jstr * SectionConfig)).

Definition flags (l : list (string * bool)) : SectionConfig := map (λ e : string * bool, (js e.1, e.2)) l.
Definition sections (l : list (string * list (string * bool))) : SidebarModules :=
  map (λ e : string * list (string * bool), (js e.1, flags e.2)) l.

Definition SIDEBAR_MODULES_DEFAULT : SidebarModules := sections
  [("imageWorkbench", [("enabled", false); ("workbench", false)]);
   ("chat", [("enabled", true); ("playground", true); ("chat", true)]);
   ("console", [("enabled", true); ("detail", true); ("token", true); ("log", true); ("usageDetails", true);
                ("midjourney", true); ("task", true)]);
   ("personal", [("enabled", true); ("topup", true); ("personal", true)]);
   ("admin", [("enabled", true); ("channel", true); ("models", true); ("redemption", true); ("topupRecords", true);
              ("user", true); ("setting", true); ("subscription", true)])]%string.

Definition enabled_key : jstr := js "enabled".

Section Lower.
Context (toLowerCase : jstr → jstr).

Definition text_boolean (s : jstr) (fallback : bool) : bool :=
  let normalized := toLowerCase (trim s) in
  if bool_decide (normalized = js "true") || bool_decide (normalized = js "1") then true
  else if bool_decide (normalized = js "false") || bool_decide (normalized = js "0") then false
  else fallback.

Definition toBoolean (value : option json) (fallback : bool) : bool :=
  match value with
  | Some (JBool b) => b
  | Some (JNum x) => num_eq x (num_of_Z 1)
  | Some (JStr s) => text_boolean s fallback
  | _ => fallback
  end.

(** The flags of a section that is in the text. *)
Definition module_step (defaultSection : SectionConfig) (section : SectionConfig) (e : jstr * json) : SectionConfig :=
  if bool_decide (e.1 = enabled_key) then section
  else obj_set section e.1 (toBoolean (Some e.2) (default true (map_get defaultSection e.1))).

Definition parse_section (defaultSection : SectionConfig) (raw : object) : SectionConfig :=
  foldl (module_step defaultSection)
    [(enabled_key, toBoolean (obj_get raw enabled_key) (default true (map_get defaultSection enabled_key)))]
    (own_entries raw).

Definition section_step (result : SidebarModules) (e : jstr * json) : SidebarModules :=
  match as_record e.2 with
  | Some raw =>
      obj_set result e.1
        (parse_section (default [(enabled_key, true)] (map_get SIDEBAR_MODULES_DEFAULT e.1)) raw)
  | None => result
  end.

(** Absent flags of a section get the default. *)
Definition fill_flag (section : SectionConfig) (e : jstr * bool) : SectionConfig :=
  if map_has section e.1 then section else obj_set section e.1 e.2.

Definition fill_section (result : SidebarModules) (e : jstr * SectionConfig) : SidebarModules :=
  match map_get result e.1 with
  | None => obj_set result e.1 e.2
  | Some section => obj_set result e.1 (foldl fill_flag section e.2)
  end.

Definition parseSidebarModulesAdmin (value : option jstr) : SidebarModules :=
  match value with
  | None => SIDEBAR_MODULES_DEFAULT
  | Some s =>
      if negb (nonempty (trim s)) then SIDEBAR_MODULES_DEFAULT
      else match json_parse s with
           | None => SIDEBAR_MODULES_DEFAULT
           | Some parsed =>
               match entries_of parsed with
               | None => SIDEBAR_MODULES_DEFAULT
               | Some l => foldl fill_section (foldl section_step [] l) SIDEBAR_MODULES_DEFAULT
               end
           end
  end.

Definition section_json (section : SectionConfig) : json := JObj (map (λ e : jstr * bool, (e.1, JBool e.2)) section).
Definition sidebar_json (config : SidebarModules) : json :=
  JObj (map (λ e : jstr * SectionConfig, (e.1, section_json e.2)) config).

Definition serializeSidebarModulesAdmin (config : SidebarModules) : jstr := json_stringify (sidebar_json config).

(** A switch of the settings page. *)
Definition set_flag (config : SidebarModules) (section module : jstr) (value : bool) : SidebarModules :=
  obj_set config section (obj_set (default [] (map_get config section)) module value).

(** [onSubmit]: the text that is stored, or [None] where nothing changed. *)
Definition submit_sidebar (initialSerialized : jstr) (values : SidebarModules) : option jstr :=
  let serialized := serializeSidebarModulesAdmin values in
  if bool_decide (serialized = initialSerialized) then None else Some serialized.

(** ** The entries of the header *)

Record ModuleAccess := { ma_enabled : bool; ma_requireAuth : bool }.

(** The properties with a type of their own, and the others in their order. *)
Record HeaderNavModules := {
  hn_home : bool; hn_console : bool; hn_pricing : ModuleAccess; hn_rankings : ModuleAccess;
  hn_docs : bool; hn_about : bool; hn_other : list (jstr * bool);
}.

Definition HEADER_NAV_DEFAULT : HeaderNavModules :=
  {| hn_home := true; hn_console := true;
     hn_pricing := {| ma_enabled := true; ma_requireAuth := false |};
     hn_rankings := {| ma_enabled := true; ma_requireAuth := false |};
     hn_docs := true; hn_about := true; hn_other := [] |}.

(** The flag of a name, [undefined] where there is none. *)
Definition nav_flag (c : HeaderNavModules) (key : jstr) : option bool :=
  if bool_decide (key = js "home") then Some (hn_home c)
  else if bool_decide (key = js "console") then Some (hn_console c)
  else if bool_decide (key = js "docs") then Some (hn_docs c)
  else if bool_decide (key = js "about") then Some (hn_about c)
  else map_get (hn_other c) key.

Definition set_nav_flag (c : HeaderNavModules) (key : jstr) (b : bool) : HeaderNavModules :=
  let '{| hn_home := h; hn_console := co; hn_pricing := p; hn_rankings := r; hn_docs := d; hn_about := a;
          hn_other := o |} := c in
  if bool_decide (key = js "home") then
    {| hn_home := b; hn_console := co; hn_pricing := p; hn_rankings := r; hn_docs := d; hn_about := a; hn_other := o |}
  else if bool_decide (key = js "console") then
    {| hn_home := h; hn_console := b; hn_pricing := p; hn_rankings := r; hn_docs := d; hn_about := a; hn_other := o |}
  else if bool_decide (key = js "docs") then
    {| hn_home := h; hn_console := co; hn_pricing := p; hn_rankings := r; hn_docs := b; hn_about := a; hn_other := o |}
  else if bool_decide (key = js "about") then
    {| hn_home := h; hn_console := co; hn_pricing := p; hn_rankings := r; hn_docs := d; hn_about := b; hn_other := o |}
  else
    {| hn_home := h; hn_console := co; hn_pricing := p; hn_rankings := r; hn_docs := d; hn_about := a;
       hn_other := obj_set o key b |}.

Definition set_pricing (c : HeaderNavModules) (p : ModuleAccess) : HeaderNavModules :=
  {| hn_home := hn_home c; hn_console := hn_console c; hn_pricing := p; hn_rankings := hn_rankings c;
     hn_docs := hn_docs c; hn_about := hn_about c; hn_other := hn_other c |}.

Definition set_rankings (c : HeaderNavModules) (r : ModuleAccess) : HeaderNavModules :=
  {| hn_home := hn_home c; hn_console := hn_console c; hn_pricing := hn_pricing c; hn_rankings := r;
     hn_docs := hn_docs c; hn_about := hn_about c; hn_other := hn_other c |}.

Definition is_scalar (v : json) : bool := match v with JBool _ | JNum _ | JStr _ => true | _ => false end.

(** [parseAccessModule], by a reader of booleans *)
Definition access_by (read : option json → bool → bool) (raw : json) (fallback : ModuleAccess) : ModuleAccess :=
  if is_scalar raw then {| ma_enabled := read (Some raw) (ma_enabled fallback); ma_requireAuth := ma_requireAuth fallback |}
  else match as_record raw with
       | Some r => {| ma_enabled := read (fld r "enabled") (ma_enabled fallback);
                      ma_requireAuth := read (fld r "requireAuth") (ma_requireAuth fallback) |}
       | None => fallback
       end.

Definition parseAccessModule : json → ModuleAccess → ModuleAccess := access_by toBoolean.

(** *** The settings page *)

Definition settings_step (result : HeaderNavModules) (e : jstr * json) : HeaderNavModules :=
  if bool_decide (e.1 = js "pricing") then set_pricing result (parseAccessModule e.2 (hn_pricing HEADER_NAV_DEFAULT))
  else if bool_decide (e.1 = js "rankings") then set_rankings result (parseAccessModule e.2 (hn_rankings HEADER_NAV_DEFAULT))
  else if is_scalar e.2 then
    set_nav_flag result e.1 (toBoolean (Some e.2) (default false (nav_flag HEADER_NAV_DEFAULT e.1)))
  else result.

(** [parseHeaderNavModules] of [maintenance/config.ts] *)
Definition settingsHeaderNav (value : option jstr) : HeaderNavModules :=
  match value with
  | None | Some [] => HEADER_NAV_DEFAULT
  | Some s =>
      match json_parse s ≫= entries_of with
      | None => HEADER_NAV_DEFAULT
      | Some l => foldl settings_step HEADER_NAV_DEFAULT l
      end
  end.

Definition access_json (a : ModuleAccess) : json :=
  JObj [entry "enabled" (JBool (ma_enabled a)); entry "requireAuth" (JBool (ma_requireAuth a))].

Definition header_json (c : HeaderNavModules) : json :=
  JObj ([entry "home" (JBool (hn_home c)); entry "console" (JBool (hn_console c)); entry "pricing" (access_json (hn_pricing c));
         entry "rankings" (access_json (hn_rankings c)); entry "docs" (JBool (hn_docs c)); entry "about" (JBool (hn_about c))]
        ++ map (λ e : jstr * bool, (e.1, JBool e.2)) (hn_other c)).

Definition serializeHeaderNavModules (c : HeaderNavModules) : jstr := json_stringify (header_json c).

(** *** The pages *)

Definition parseHeaderNavBoolean (raw : option json) (fallback : bool) : bool :=
  match raw with
  | Some (JBool b) => b
  | Some (JNum x) => if num_eq x (num_of_Z 1) then true else if num_eq x (num_of_Z 0) then false else fallback
  | Some (JStr s) => text_boolean s fallback
  | _ => fallback
  end.

Definition parseAccess : json → ModuleAccess → ModuleAccess := access_by parseHeaderNavBoolean.

(** The value the texts of the status hold: [None] where it counts as missing. *)
Definition parseHeaderNavRecord (raw : option json) : option json :=
  match raw with
  | None => None
  | Some v =>
      if negb (truthy v) || negb (nonempty (trim (string_of_json v))) then None
      else match v with
           | JObj _ | JArr _ => Some v
           | _ => json_parse (string_of_json v)
           end
  end.

Definition header_step (result : HeaderNavModules) (e : jstr * json) : HeaderNavModules :=
  if bool_decide (e.1 = js "pricing") then set_pricing result (parseAccess e.2 (hn_pricing result))
  else if bool_decide (e.1 = js "rankings") then set_rankings result (parseAccess e.2 (hn_rankings result))
  else
    let fallback := nav_flag result e.1 in
    if bool_decide (is_Some fallback) || is_scalar e.2 then
      set_nav_flag result e.1 (parseHeaderNavBoolean (Some e.2) (default true fallback))
    else result.

(** [parseHeaderNavModules] of [lib/nav-modules.ts] *)
Definition parseHeaderNavModules (raw : option json) : HeaderNavModules :=
  match parseHeaderNavRecord raw with
  | Some parsed => if truthy parsed then foldl header_step HEADER_NAV_DEFAULT (default [] (entries_of parsed))
                   else HEADER_NAV_DEFAULT
  | None => HEADER_NAV_DEFAULT
  end.
End Lower.

(** *** The form of the header *)

Record HeaderNavForm := {
  hf_home : bool; hf_console : bool; hf_pricingEnabled : bool; hf_pricingRequireAuth : bool;
  hf_rankingsEnabled : bool; hf_rankingsRequireAuth : bool; hf_docs : bool; hf_about : bool;
}.

Definition toFormValues (c : HeaderNavModules) : HeaderNavForm :=
  {| hf_home := hn_home c; hf_console := hn_console c;
     hf_pricingEnabled := ma_enabled (hn_pricing c); hf_pricingRequireAuth := ma_requireAuth (hn_pricing c);
     hf_rankingsEnabled := ma_enabled (hn_rankings c); hf_rankingsRequireAuth := ma_requireAuth (hn_rankings c);
     hf_docs := hn_docs c; hf_about := hn_about c |}.

Definition header_payload (config : HeaderNavModules) (values : HeaderNavForm) : HeaderNavModules :=
  {| hn_home := hf_home values; hn_console := hf_console values;
     hn_pricing := {| ma_enabled := hf_pricingEnabled values; ma_requireAuth := hf_pricingRequireAuth values |};
     hn_rankings := {| ma_enabled := hf_rankingsEnabled values; ma_requireAuth := hf_rankingsRequireAuth values |};
     hn_docs := hf_docs values; hn_about := hf_about values; hn_other := hn_other config |}.

Definition submit_header (initialSerialized : jstr) (config : HeaderNavModules) (values : HeaderNavForm) : option jstr :=
  let serialized := serializeHeaderNavModules (header_payload config values) in
  if bool_decide (serialized = initialSerialized) then None else Some serialized.
