(* ===== verification/NavConfigProps.v ===== *)
(** * Navigation: what is stored is what is read

    The settings of the sidebar and of the header, written by the settings
    page, are read back by the page itself and by the pages that obey them.
    The flags each parser finds are described flag by flag, so that the
    parsers can be compared. *)

From Stdlib Require Import String.
From S2P Require Import JsArith JsonText JsObject ModelPricingTable RatioSyncProps RatioSyncInv AccountReopen NavConfig.

#[local] Opaque js.

(** ** Flags *)

(** The flag of a section, as a configuration of flags has it. *)
Definition flag (c : SidebarModules) (section m : jstr) : option bool :=
  match map_get c section with Some s => map_get s m | None => None end.

(** Configurations whose text is read as it is. *)
Definition modules_safe (c : SidebarModules) : Prop := json_safeb (sidebar_json c) = true.

Lemma safe_object o : json_safeb (JObj o) = true →
  well_keyed o ∧ Forall (λ e, is_index_key e.1 = false ∧ json_safeb e.2 = true) o.
Proof.
  cbn [json_safeb]. intros [Hnd Ha]%andb_true_iff. apply bool_decide_eq_true in Hnd. split; [done|].
  rewrite forallb_forall in Ha. apply Forall_forall. intros e He%list_elem_of_In%Ha. split; [by destruct (is_index_key e.1)|solve_bool].
Qed.

Lemma safe_entries o : json_safeb (JObj o) = true → own_entries o = o.
Proof. intros [_ H]%safe_object. apply own_entries_plain. eapply Forall_impl; [exact H|]. by intros e [? _]. Qed.

Lemma section_safe c e : modules_safe c → e ∈ c → json_safeb (section_json e.2) = true.
Proof.
  intros [_ H]%safe_object He. rewrite Forall_forall in H.
  destruct (H (e.1, section_json e.2)) as [_ Hs]; [|exact Hs]. apply list_elem_of_fmap. by exists e.
Qed.

Lemma modules_safe_keyed c : modules_safe c → well_keyed c ∧ Forall (λ e, well_keyed e.2) c.
Proof.
  intros Hc. split.
  - apply safe_object in Hc as [Hc _]. unfold well_keyed in *. by rewrite map_map in Hc.
  - apply Forall_forall. intros e He. pose proof (section_safe c e Hc He) as [Hs _]%safe_object.
    unfold well_keyed in *. by rewrite map_map in Hs.
Qed.

Lemma stringify_blank v : json_safe v → json_stringify v ≠ [] ∧ nonempty (trim (json_stringify v)) = true.
Proof.
  intros Hv. pose proof (json_parse_stringify v Hv) as Hp. unfold json_stringify in *.
  rewrite trim_no_edge by by apply json_print_edges. destruct (json_print 0 0 v); [by rewrite json_parse_nil in Hp|done].
Qed.

(** ** The sections of a saved text *)

Section Lower.
Context (toLowerCase : jstr → jstr).

Lemma parse_saved c :
  modules_safe c →
  parseSidebarModulesAdmin toLowerCase (Some (serializeSidebarModulesAdmin c))
  = foldl fill_section (foldl (section_step toLowerCase) [] (map (λ e : jstr * SectionConfig, (e.1, section_json e.2)) c))
      SIDEBAR_MODULES_DEFAULT.
Proof.
  intros Hc. pose proof (json_safeb_ok _ Hc) as Hs. unfold parseSidebarModulesAdmin, serializeSidebarModulesAdmin.
  destruct (stringify_blank _ Hs) as [_ ->]. rewrite (json_parse_stringify _ Hs). cbn [negb]. unfold sidebar_json. cbn [entries_of].
  by rewrite (safe_entries _ Hc).
Qed.

(** The flags a text gives a section: those that are there, and [enabled]. *)
Lemma parse_flags ds (s : SectionConfig) acc :
  Forall (λ e : jstr * bool, e.1 ≠ enabled_key) s → NoDup (map fst (acc ++ s)) →
  foldl (module_step toLowerCase ds) acc (map (λ e : jstr * bool, (e.1, JBool e.2)) s) = acc ++ s.
Proof.
  intros Hs Hnd. rewrite <- (set_all_fresh acc s Hnd). clear Hnd. revert acc.
  induction Hs as [|[m b] s Hm _ IH]; intros acc; [done|]. cbn [map foldl fst snd]. rewrite IH. f_equal.
  unfold module_step. cbn [fst snd]. by rewrite bool_decide_eq_false_2.
Qed.

Lemma module_step_get ds acc s m :
  m ≠ enabled_key → well_keyed s →
  map_get (foldl (module_step toLowerCase ds) acc (map (λ e : jstr * bool, (e.1, JBool e.2)) s)) m
  = match map_get s m with Some b => Some b | None => map_get acc m end.
Proof.
  intros Hm. unfold well_keyed. revert acc. induction s as [|[k b] s IH]; intros acc Hk; [done|]. cbn [map fst] in Hk.
  apply NoDup_cons in Hk as [Hk Hs]. cbn [map foldl fst snd map_get]. rewrite IH by done. unfold module_step. cbn [fst snd].
  case_decide as E; subst.
  - rewrite bool_decide_eq_false_2 by done. apply map_get_None in Hk as ->. by rewrite map_get_set_eq.
  - case_bool_decide; [done|]. by rewrite map_get_set_ne by done.
Qed.

Lemma module_step_enabled ds acc l :
  map_get (foldl (module_step toLowerCase ds) acc l) enabled_key = map_get acc enabled_key.
Proof.
  revert acc. induction l as [|e l IH]; intros acc; [done|]. cbn [foldl]. rewrite IH. unfold module_step.
  case_bool_decide; [done|]. by rewrite map_get_set_ne by done.
Qed.

Lemma section_object_get (s : SectionConfig) m : obj_get (map (λ e : jstr * bool, (e.1, JBool e.2)) s) m = option_map JBool (map_get s m).
Proof. induction s as [|[k b] s IH]; [done|]. cbn. by case_decide. Qed.

Lemma parse_section_get ds s m :
  json_safeb (section_json s) = true →
  map_get (parse_section toLowerCase ds (map (λ e : jstr * bool, (e.1, JBool e.2)) s)) m
  = match map_get s m with
    | Some b => Some b
    | None => if decide (m = enabled_key) then Some (default true (map_get ds enabled_key)) else None
    end.
Proof.
  intros Hs. unfold parse_section. rewrite (safe_entries _ Hs). case_decide as Hm.
  - subst m. rewrite module_step_enabled. cbn [map_get]. rewrite decide_True by done. rewrite section_object_get.
    by destruct (map_get s enabled_key).
  - apply safe_object in Hs as [Hs _]. unfold well_keyed in Hs. rewrite map_map in Hs.
    rewrite module_step_get by done. destruct (map_get s m); [done|]. cbn. by rewrite decide_False.
Qed.

Lemma section_steps_get c acc sec :
  modules_safe c →
  map_get (foldl (section_step toLowerCase) acc (map (λ e : jstr * SectionConfig, (e.1, section_json e.2)) c)) sec
  = match map_get c sec with
    | Some s => Some (parse_section toLowerCase (default [(enabled_key, true)] (map_get SIDEBAR_MODULES_DEFAULT sec))
                        (map (λ e : jstr * bool, (e.1, JBool e.2)) s))
    | None => map_get acc sec
    end.
Proof.
  intros [Hk _]%modules_safe_keyed. unfold well_keyed in Hk. revert acc. induction c as [|[k s] c IH]; intros acc; [done|].
  cbn [map fst] in Hk. apply NoDup_cons in Hk as [Hn Hk]. cbn [map foldl fst snd map_get]. rewrite IH by done.
  unfold section_step, section_json. cbn [as_record fst snd]. case_decide as E; subst.
  - apply map_get_None in Hn as ->. by rewrite map_get_set_eq.
  - by rewrite map_get_set_ne by done.
Qed.

(** ** Filling in the defaults *)

Lemma fill_flag_get s ds m :
  map_get (foldl fill_flag s ds) m = match map_get s m with Some b => Some b | None => map_get ds m end.
Proof.
  revert s. induction ds as [|[k b] ds IH]; intros s; [cbn; by destruct (map_get s m)|]. cbn [foldl map_get]. rewrite IH.
  unfold fill_flag, map_has. cbn [fst snd]. destruct (map_get s k) as [b'|] eqn:Ek.
  - case_decide as E; subst; [by rewrite Ek|done].
  - rewrite map_get_set. case_decide as E; subst; [by rewrite Ek|done].
Qed.

Lemma fill_section_get r D sec :
  well_keyed D →
  map_get (foldl fill_section r D) sec
  = match map_get r sec, map_get D sec with
    | Some s, Some ds => Some (foldl fill_flag s ds)
    | Some s, None => Some s
    | None, d => d
    end.
Proof.
  unfold well_keyed. revert r. induction D as [|[k ds] D IH]; intros r Hk; [cbn; by destruct (map_get r sec)|].
  cbn [map fst] in Hk. apply NoDup_cons in Hk as [Hn Hk]. cbn [foldl map_get]. rewrite IH by done. unfold fill_section. cbn [fst snd].
  case_decide as E; subst.
  - apply map_get_None in Hn as ->. by destruct (map_get r sec); rewrite map_get_set_eq.
  - destruct (map_get r k); by rewrite map_get_set_ne by done.
Qed.

Lemma default_keyed : well_keyed SIDEBAR_MODULES_DEFAULT.
Proof. apply (bool_decide_unpack _). vm_compute. reflexivity. Qed.

(** A flag of a saved configuration, as the settings page and the guards read it. *)
Lemma saved_flag c sec m :
  modules_safe c →
  flag (parseSidebarModulesAdmin toLowerCase (Some (serializeSidebarModulesAdmin c))) sec m
  = match map_get c sec with
    | None => flag SIDEBAR_MODULES_DEFAULT sec m
    | Some s =>
        match map_get s m with
        | Some b => Some b
        | None => if decide (m = enabled_key) then Some (default true (flag SIDEBAR_MODULES_DEFAULT sec enabled_key))
                  else flag SIDEBAR_MODULES_DEFAULT sec m
        end
    end.
Proof.
  intros Hc. unfold flag at 1. rewrite parse_saved, fill_section_get, section_steps_get by (done || apply default_keyed).
  unfold flag. destruct (map_get c sec) as [s|] eqn:Es; [|by destruct (map_get SIDEBAR_MODULES_DEFAULT sec)].
  assert (Hs : json_safeb (section_json s) = true) by (by apply (section_safe c (sec, s) Hc), map_get_Some_elem).
  destruct (map_get SIDEBAR_MODULES_DEFAULT sec) as [ds|] eqn:Ed; cbn [default].
  - rewrite fill_flag_get, parse_section_get by done. destruct (map_get s m); [done|]. by case_decide.
  - rewrite parse_section_get by done. destruct (map_get s m); [done|]. case_decide; [|done]. cbn [map_get].
    by rewrite decide_True.
Qed.
End Lower.

(** ** Complete configurations *)

(** Every section starts with its own flag, and the default ones are all there. *)
Definition leads (s : SectionConfig) : Prop := head (map fst s) = Some enabled_key.

Definition complete (c : SidebarModules) : Prop :=
  Forall (λ e, leads e.2) c ∧
  Forall (λ d : jstr * SectionConfig, ∃ s, map_get c d.1 = Some s ∧ Forall (λ k, map_has s k = true) (map fst d.2))
    SIDEBAR_MODULES_DEFAULT.

Lemma leads_set s k b : leads s → leads (obj_set s k b).
Proof. unfold leads. destruct s as [|[k' b'] s]; [done|]. cbn. by case_decide; subst. Qed.

Lemma leads_fold {A} (f : SectionConfig → A → SectionConfig) l s :
  (∀ s a, leads s → leads (f s a)) → leads s → leads (foldl f s l).
Proof. intros Hf. revert s. induction l as [|a l IH]; intros s Hs; [done|]. cbn. apply IH, Hf, Hs. Qed.

Lemma leads_fill s ds : leads s → leads (foldl fill_flag s ds).
Proof. apply leads_fold. intros s' e Hs. unfold fill_flag. case_match; [done|]. by apply leads_set. Qed.

Lemma default_leads : Forall (λ e, leads e.2) SIDEBAR_MODULES_DEFAULT.
Proof. repeat constructor. Qed.

Lemma default_complete : complete SIDEBAR_MODULES_DEFAULT.
Proof. split; [apply default_leads|]. repeat (constructor; [eexists; split; [vm_compute; reflexivity|repeat constructor]|]). constructor. Qed.

Lemma filled_complete r : Forall (λ e, leads e.2) r → complete (foldl fill_section r SIDEBAR_MODULES_DEFAULT).
Proof.
  intros Hr. split.
  - apply (foldl_keeps (λ m : SidebarModules, Forall (λ e, leads e.2) m)); [done|]. intros m e He Hm. unfold fill_section.
    pose proof default_leads as Hd. rewrite Forall_forall in Hd. destruct (map_get m e.1) as [s|] eqn:Es.
    + apply Forall_map_set; [done|]. apply leads_fill. by apply (Forall_map_get (λ e, leads e.2) _ _ _ Hm) in Es.
    + apply Forall_map_set; [done|]. exact (Hd e He).
  - apply Forall_forall. intros [sec ds] Hd. cbn [fst snd].
    pose proof (map_get_elem _ sec ds default_keyed Hd) as Hg.
    rewrite fill_section_get, Hg by apply default_keyed. destruct (map_get r sec) as [s|]; eexists; (split; [reflexivity|]).
    + apply Forall_forall. intros k Hk. unfold map_has. rewrite fill_flag_get. destruct (map_get s k); [done|].
      destruct (map_get ds k) eqn:E; [done|]. by apply map_get_None in E.
    + apply Forall_forall. intros k Hk. unfold map_has. destruct (map_get ds k) eqn:E; [done|]. by apply map_get_None in E.
Qed.

Lemma complete_set c sec m b : complete c → map_has c sec = true → complete (set_flag c sec m b).
Proof.
  intros [Hl Hd] Hs. unfold set_flag, map_has in *. destruct (map_get c sec) as [s|] eqn:Es; [|done]. cbn [default].
  pose proof (Forall_map_get (λ e, leads e.2) _ _ _ Hl Es) as Hls. split; [by apply Forall_map_set; [|apply leads_set]|].
  eapply Forall_impl; [exact Hd|]. intros d (s' & Hg & Hk). rewrite map_get_set. case_decide as E; [|by exists s'].
  assert (s' = s) as -> by congruence. eexists. split; [done|]. eapply Forall_impl; [exact Hk|]. intros k. cbn. unfold map_has.
  rewrite map_get_set. by case_decide.
Qed.

Lemma map_set_same {K V} `{EqDecision K} (m : list (K * V)) k v : map_get m k = Some v → map_set m k v = m.
Proof.
  induction m as [|[k' v'] m IH]; [done|]. cbn. case_decide; [by intros [= ->]; subst|]. intros Hg. by rewrite IH.
Qed.

Section Reopen.
Context (toLowerCase : jstr → jstr).

Lemma parsed_complete value : complete (parseSidebarModulesAdmin toLowerCase value).
Proof.
  unfold parseSidebarModulesAdmin. destruct value as [s|]; [|apply default_complete].
  destruct (negb _); [apply default_complete|]. destruct (json_parse s); [|apply default_complete].
  destruct (entries_of _) as [l|]; [|apply default_complete]. apply filled_complete.
  apply (foldl_keeps (λ m : SidebarModules, Forall (λ e, leads e.2) m)); [constructor|]. intros m e _ Hm. unfold section_step.
  destruct (as_record e.2); [|done]. apply Forall_map_set; [done|]. cbn [snd]. unfold parse_section.
  apply leads_fold; [|done]. intros s' a Hs. unfold module_step. case_bool_decide; [done|]. by apply leads_set.
Qed.

Lemma parse_leading ds s :
  json_safeb (section_json s) = true → leads s →
  parse_section toLowerCase ds (map (λ e : jstr * bool, (e.1, JBool e.2)) s) = s.
Proof.
  intros Hs Hl. unfold parse_section. rewrite (safe_entries _ Hs). apply safe_object in Hs as [Hk _]. unfold well_keyed in Hk.
  rewrite map_map in Hk. destruct s as [|[k b] s]; [done|]. unfold leads in Hl. cbn in Hl. injection Hl as ->.
  cbn [map foldl fst snd map_get]. rewrite decide_True by done. unfold module_step at 2. cbn [fst]. rewrite bool_decide_eq_true_2 by done.
  cbn [toBoolean]. apply (parse_flags toLowerCase ds s [(enabled_key, b)]); [|done].
  cbn in Hk. apply NoDup_cons in Hk as [Hk _]. apply Forall_forall. intros e He E. apply Hk. rewrite <- E.
  apply list_elem_of_fmap. eauto.
Qed.

Lemma section_steps_saved c acc :
  Forall (λ e, json_safeb (section_json e.2) = true ∧ leads e.2) c → NoDup (map fst (acc ++ c)) →
  foldl (section_step toLowerCase) acc (map (λ e : jstr * SectionConfig, (e.1, section_json e.2)) c) = acc ++ c.
Proof.
  intros Hc Hnd. rewrite <- (set_all_fresh acc c Hnd). clear Hnd. revert acc.
  induction Hc as [|[k s] c [Hs Hl] _ IH]; intros acc; [done|]. cbn [map foldl fst snd] in *. rewrite IH. f_equal.
  unfold section_step, section_json. cbn [as_record fst snd]. by rewrite parse_leading.
Qed.

Lemma fill_complete c D :
  Forall (λ d : jstr * SectionConfig, ∃ s, map_get c d.1 = Some s ∧ Forall (λ k, map_has s k = true) (map fst d.2)) D →
  foldl fill_section c D = c.
Proof.
  induction 1 as [|d D (s & Hg & Hk) _ IH]; [done|]. cbn [foldl].
  assert (foldl fill_flag s d.2 = s) as Hs.
  { clear -Hk. induction d.2 as [|e ds IH]; [done|]. cbn in *. apply Forall_cons in Hk as [Hk Hks].
    assert (fill_flag s e = s) as -> by (unfold fill_flag; by rewrite Hk). by apply IH. }
  assert (fill_section c d = c) as ->; [|done]. unfold fill_section. by rewrite Hg, Hs, map_set_same.
Qed.

Lemma saved_complete c :
  modules_safe c → complete c → parseSidebarModulesAdmin toLowerCase (Some (serializeSidebarModulesAdmin c)) = c.
Proof.
  intros Hc [Hl Hd]. rewrite parse_saved, section_steps_saved; [by apply fill_complete| | |done].
  - rewrite Forall_forall in *. intros e He. split; [by apply (section_safe c e Hc)|by apply Hl].
  - by apply modules_safe_keyed.
Qed.

(** Whatever text the settings page of the sidebar opens, and whichever
    of the switches it shows are set, the text it saves is opened with exactly
    those switches. *)
Theorem sidebar_settings_reopen value (edits : list (jstr * jstr * bool)) :
  let opened := parseSidebarModulesAdmin toLowerCase value in
  let c := foldl (λ c (e : jstr * jstr * bool), set_flag c e.1.1 e.1.2 e.2) opened edits in
  Forall (λ e : jstr * jstr * bool, map_has opened e.1.1 = true) edits →
  modules_safe c →
  parseSidebarModulesAdmin toLowerCase (Some (serializeSidebarModulesAdmin c)) = c.
Proof.
  cbv zeta. intros He Hc. apply saved_complete; [done|]. clear Hc. pose proof (parsed_complete value) as H.
  revert He H. generalize (parseSidebarModulesAdmin toLowerCase value). induction edits as [|e l IH]; intros c He Hc; [done|].
  apply Forall_cons in He as [He Hl]. cbn [foldl]. apply IH; [|by apply complete_set].
  eapply Forall_impl; [exact Hl|]. intros x Hx. unfold set_flag, map_has in *. rewrite map_get_set. by case_decide.
Qed.
End Reopen.

Lemma sidebar_settings_reopen_witness :
  let lower := λ s : jstr, s in
  let value := Some (json_stringify (JObj [entry "chat" (JObj [entry "playground" (num 0)]); entry "old" (JBool true)])) in
  let edits := [(js "chat", js "enabled", false); (js "admin", js "user", false)] in
  let c := foldl (λ c (e : jstr * jstr * bool), set_flag c e.1.1 e.1.2 e.2) (parseSidebarModulesAdmin lower value) edits in
  parseSidebarModulesAdmin lower (Some (serializeSidebarModulesAdmin c)) = c.
Proof. apply (sidebar_settings_reopen (λ s, s)); [repeat constructor|vm_compute; reflexivity]. Defined.

(** ** The header *)

Ltac decide_keys :=
  repeat match goal with
  | |- context [@bool_decide (js ?a = js ?b) ?d] =>
      first [rewrite (@bool_decide_eq_true_2 (js a = js b) d) by reflexivity
            |rewrite (@bool_decide_eq_false_2 (js a = js b) d) by (vm_compute; discriminate)]
  end.

(** The names of the header with properties of their own. *)
Definition header_names : list jstr := names ["home"; "console"; "pricing"; "rankings"; "docs"; "about"]%string.

Lemma header_other_names c :
  json_safeb (header_json c) = true →
  Forall (λ e, e.1 ∉ header_names) (hn_other c) ∧ well_keyed (hn_other c).
Proof.
  intros [Hk _]%safe_object. unfold well_keyed in Hk. rewrite map_app, map_map in Hk. apply NoDup_app in Hk as (_ & Hd & Hk).
  split; [|exact Hk]. apply Forall_forall. intros e He Hin. apply (Hd e.1 Hin). apply list_elem_of_fmap. by exists e.
Qed.

Lemma not_header_name k : k ∉ header_names →
  k ≠ js "home" ∧ k ≠ js "console" ∧ k ≠ js "pricing" ∧ k ≠ js "rankings" ∧ k ≠ js "docs" ∧ k ≠ js "about".
Proof. unfold header_names. intros H. repeat apply not_names_cons in H as [? H]. done. Qed.

Lemma header_entries c :
  json_safeb (header_json c) = true →
  entries_of (header_json c) =
  Some ([entry "home" (JBool (hn_home c)); entry "console" (JBool (hn_console c)); entry "pricing" (access_json (hn_pricing c));
         entry "rankings" (access_json (hn_rankings c)); entry "docs" (JBool (hn_docs c)); entry "about" (JBool (hn_about c))]
        ++ map (λ e : jstr * bool, (e.1, JBool e.2)) (hn_other c)).
Proof. intros Hc. unfold header_json in *. cbn [entries_of]. by rewrite (safe_entries _ Hc). Qed.

Section Header.
Context (toLowerCase : jstr → jstr) (step : HeaderNavModules → jstr * json → HeaderNavModules).

(** A step that sets the property of a name to what a written value says. *)
Hypothesis step_flag : ∀ c k b, k ≠ js "pricing" → k ≠ js "rankings" → step c (k, JBool b) = set_nav_flag c k b.
Hypothesis step_pricing : ∀ c a, step c (entry "pricing" (access_json a)) = set_pricing c a.
Hypothesis step_rankings : ∀ c a, step c (entry "rankings" (access_json a)) = set_rankings c a.

Lemma header_steps_other c acc (l : list (jstr * bool)) :
  hn_other c = acc → Forall (λ e, e.1 ∉ header_names) l → NoDup (map fst (acc ++ l)) →
  foldl step c (map (λ e : jstr * bool, (e.1, JBool e.2)) l)
  = {| hn_home := hn_home c; hn_console := hn_console c; hn_pricing := hn_pricing c; hn_rankings := hn_rankings c;
       hn_docs := hn_docs c; hn_about := hn_about c; hn_other := acc ++ l |}.
Proof.
  intros Ho Hl Hnd. rewrite <- (set_all_fresh acc l Hnd). clear Hnd. subst acc. revert c.
  induction Hl as [|[k b] l Hk _ IH]; intros c; [by destruct c|]. cbn [map foldl fst snd] in *.
  destruct (not_header_name k Hk) as (H1 & H2 & H5 & H6 & H3 & H4). rewrite step_flag, IH by done. destruct c. unfold set_nav_flag.
  by rewrite !bool_decide_eq_false_2 by done.
Qed.

Lemma header_steps c :
  json_safeb (header_json c) = true →
  foldl step HEADER_NAV_DEFAULT (default [] (entries_of (header_json c))) = c.
Proof.
  intros Hc. destruct (header_other_names c Hc) as [Ho Hk]. rewrite header_entries by done. cbn [default from_option id].
  rewrite foldl_app. cbn [foldl]. rewrite step_pricing, step_rankings. unfold entry.
  do 4 (rewrite step_flag by (vm_compute; discriminate)).
  unfold set_pricing, set_rankings, HEADER_NAV_DEFAULT, set_nav_flag. decide_keys.
  cbn [hn_home hn_console hn_pricing hn_rankings hn_docs hn_about hn_other].
  rewrite (header_steps_other _ []) by done. by destruct c.
Qed.
End Header.

Lemma access_read read (a fallback : ModuleAccess) :
  (∀ b d, read (Some (JBool b)) d = b) → access_by read (access_json a) fallback = a.
Proof.
  intros Hr. destruct a as [e r]. unfold access_by, access_json. cbn [is_scalar as_record].
  rewrite !fld_entry. decide_names. by rewrite !Hr.
Qed.

Section Both.
Context (toLowerCase : jstr → jstr).

Lemma settings_flag c k b :
  k ≠ js "pricing" → k ≠ js "rankings" → settings_step toLowerCase c (k, JBool b) = set_nav_flag c k b.
Proof. intros H1 H2. unfold settings_step. cbn [fst snd]. by rewrite !bool_decide_eq_false_2 by done. Qed.

Lemma page_flag c k b :
  k ≠ js "pricing" → k ≠ js "rankings" → header_step toLowerCase c (k, JBool b) = set_nav_flag c k b.
Proof.
  intros H1 H2. unfold header_step. cbn [fst snd]. rewrite !bool_decide_eq_false_2 by done. cbn [is_scalar]. by rewrite orb_true_r.
Qed.

Lemma settings_reads c :
  json_safeb (header_json c) = true → settingsHeaderNav toLowerCase (Some (serializeHeaderNavModules c)) = c.
Proof.
  intros Hc. pose proof (json_safeb_ok _ Hc) as Hs. destruct (stringify_blank _ Hs) as [Hne _].
  unfold settingsHeaderNav, serializeHeaderNavModules. destruct (json_stringify (header_json c)) eqn:E; [done|].
  rewrite <- E, (json_parse_stringify _ Hs). cbn [mbind option_bind].
  assert (H : foldl (settings_step toLowerCase) HEADER_NAV_DEFAULT (default [] (entries_of (header_json c))) = c).
  { apply (header_steps (settings_step toLowerCase)); [apply settings_flag|..|exact Hc].
    - intros c' a. unfold settings_step, entry. cbn [fst snd]. decide_keys. unfold parseAccessModule. by rewrite access_read.
    - intros c' a. unfold settings_step, entry. cbn [fst snd]. decide_keys. unfold parseAccessModule. by rewrite access_read. }
  rewrite header_entries in H |- * by done. exact H.
Qed.

Lemma page_reads c :
  json_safeb (header_json c) = true → parseHeaderNavModules toLowerCase (Some (JStr (serializeHeaderNavModules c))) = c.
Proof.
  intros Hc. pose proof (json_safeb_ok _ Hc) as Hs. destruct (stringify_blank _ Hs) as [Hne Hb].
  unfold parseHeaderNavModules, parseHeaderNavRecord, serializeHeaderNavModules. cbn [truthy string_of_json].
  rewrite Hb. destruct (json_stringify (header_json c)) eqn:E; [done|]. cbn [nonempty negb orb].
  rewrite <- E, (json_parse_stringify _ Hs). change (truthy (header_json c)) with true. cbv iota.
  apply (header_steps (header_step toLowerCase)); [apply page_flag|..|exact Hc].
  - intros c' a. unfold header_step, entry. cbn [fst snd]. decide_keys. unfold parseAccess. by rewrite access_read.
  - intros c' a. unfold header_step, entry. cbn [fst snd]. decide_keys. unfold parseAccess. by rewrite access_read.
Qed.

(** A configuration of the header is read back from its text as it is, by
    the settings page and by the pages that show the header and guard the
    routes; so a form that is saved opens with the values that were saved. *)
Theorem header_settings_reopen config values :
  let c := header_payload config values in
  json_safeb (header_json c) = true →
  settingsHeaderNav toLowerCase (Some (serializeHeaderNavModules c)) = c
  ∧ parseHeaderNavModules toLowerCase (Some (JStr (serializeHeaderNavModules c))) = c
  ∧ toFormValues (settingsHeaderNav toLowerCase (Some (serializeHeaderNavModules c))) = values.
Proof.
  intros c Hc. rewrite settings_reads, page_reads by done. split_and!; [done|done|]. by destruct values.
Qed.
End Both.

Lemma header_settings_reopen_witness :
  let lower := λ s : jstr, s in
  let config := settingsHeaderNav lower (Some (json_stringify (JObj [entry "home" (JBool false); entry "blog" (str "1")]))) in
  let values := toFormValues HEADER_NAV_DEFAULT in
  let c := header_payload config values in
  settingsHeaderNav lower (Some (serializeHeaderNavModules c)) = c
  ∧ parseHeaderNavModules lower (Some (JStr (serializeHeaderNavModules c))) = c
  ∧ toFormValues (settingsHeaderNav lower (Some (serializeHeaderNavModules c))) = values.
Proof. apply (header_settings_reopen (λ s, s)). vm_compute. reflexivity. Defined.

(** A number other than 0 and 1 switches an entry off in the settings page and not in the header. *)
Lemma header_numbers_differ :
  let text := json_stringify (JObj [entry "docs" (num 2)]) in
  hn_docs (settingsHeaderNav (λ s, s) (Some text)) = false
  ∧ hn_docs (parseHeaderNavModules (λ s, s) (Some (JStr text))) = true.
Proof. split; by_eval. Qed.
