(* ===== verification/NavSidebar.v ===== *)
(** * Navigation: the sidebar, the guards of the routes and the links of the header

    Model of [hooks/use-sidebar-config.ts], [hooks/use-top-nav-links.ts], the
    guards of [lib/nav-modules.ts] with the routes that call them, and the card
    of [features/profile/components/sidebar-modules-card.tsx] in which users
    choose what their sidebar shows.

    A configuration is the value that was parsed, of any kind: the sidebar
    trusts the text to hold sections of flags. Titles and icons of the entries
    are left out, except for a title as the identity of an entry. *)

From Stdlib Require Import String.
From S2P Require Import JsArith JsonText JsObject NavConfig.

(** ** Reading the two configurations *)

(** The properties [{...v}] copies. *)
Definition spread_of (v : json) : object := default [] (entries_of v).

(** [v[name]] of any value, for a name that is no member of a text or number. *)
Definition prop_of (v : json) (name : jstr) : option json := match v with JObj o => obj_get o name | _ => None end.

Definition DEFAULT_SIDEBAR_MODULES : SidebarModules := sections
  [("imageWorkbench", [("enabled", false); ("workbench", false)]);
   ("chat", [("enabled", true); ("playground", true); ("chat", true)]);
   ("console", [("enabled", true); ("detail", true); ("token", true); ("log", true); ("usageDetails", true);
                ("midjourney", true); ("task", true)]);
   ("personal", [("enabled", true); ("topup", true); ("affiliate", true); ("personal", true)]);
   ("agent", [("enabled", true); ("user", true); ("topupRecords", true); ("log", true); ("affiliateRecords", true)]);
   ("admin", [("enabled", true); ("monitor", true); ("channel", true); ("models", true); ("redemption", true);
              ("topupRecords", true); ("user", true); ("affiliateRecords", true); ("setting", true);
              ("subscription", true)])]%string.

Definition section_object (section : SectionConfig) : object := map (λ e : jstr * bool, (e.1, JBool e.2)) section.
Definition default_config : object :=
  map (λ e : jstr * SectionConfig, (e.1, section_json e.2)) DEFAULT_SIDEBAR_MODULES.

(** Text has no [undefined], so the flags that are filled in are in the copy of the default already. *)
Definition merge_step (merged : object) (e : jstr * SectionConfig) : object :=
  match map_get merged e.1 with
  | Some existing =>
      if truthy existing then obj_set merged e.1 (JObj (spread (section_object e.2) (spread_of existing)))
      else obj_set merged e.1 (section_json e.2)
  | None => obj_set merged e.1 (section_json e.2)
  end.

Definition mergeWithDefaultSidebarModules (config : json) : object :=
  foldl merge_step (spread_of config) DEFAULT_SIDEBAR_MODULES.

Definition blank (value : option jstr) : bool :=
  match value with Some s => negb (nonempty (trim s)) | None => true end.

Definition parseSidebarConfig (value : option jstr) : object :=
  match value with
  | None => default_config
  | Some s => if blank value then default_config
              else match json_parse s with Some parsed => mergeWithDefaultSidebarModules parsed | None => default_config end
  end.

(** [None] does not narrow. *)
Definition parseUserSidebarConfig (value : option jstr) : option json :=
  match value with
  | None => None
  | Some s =>
      if blank value then None
      else match json_parse s with
           | Some (JObj o) => Some (JObj o)
           | Some (JArr l) => Some (JArr l)
           | _ => None
           end
  end.

(** ** Which module an address belongs to *)

Definition URL_TO_CONFIG_MAP : list (jstr * (jstr * jstr)) :=
  map (λ e : string * string * string, (js e.1.1, (js e.1.2, js e.2)))
    [("/image-workbench", "imageWorkbench", "workbench"); ("/playground", "chat", "playground");
     ("/dashboard", "console", "detail"); ("/dashboard/overview", "console", "detail");
     ("/dashboard/models", "console", "detail"); ("/dashboard/users", "console", "detail");
     ("/keys", "console", "token"); ("/usage-logs", "console", "log"); ("/usage-logs/common", "console", "log");
     ("/usage-logs/drawing", "console", "midjourney"); ("/usage-logs/task", "console", "task");
     ("/usage-details", "console", "usageDetails"); ("/wallet", "personal", "topup");
     ("/affiliate", "personal", "affiliate"); ("/profile", "personal", "personal");
     ("/business-monitor", "admin", "monitor"); ("/channels", "admin", "channel"); ("/models", "admin", "models");
     ("/models/metadata", "admin", "models"); ("/models/deployments", "admin", "models"); ("/users", "admin", "user");
     ("/redemption-codes", "admin", "redemption"); ("/topup-records", "admin", "topupRecords");
     ("/affiliate-records", "admin", "affiliateRecords"); ("/subscriptions", "admin", "subscription");
     ("/system-settings", "admin", "setting"); ("/system-settings/site", "admin", "setting")]%string.

Definition is_agent (groupId : option jstr) : bool := bool_decide (groupId = Some (js "agent")).

(** The agent group reads the modules of the administrators under a section of its own. *)
Definition group_section (groupId : option jstr) (section : jstr) : jstr :=
  if is_agent groupId && (bool_decide (section = js "admin") || bool_decide (section = js "console"))
  then js "agent" else section.

Definition admin_allows (adminConfig : object) (section module : jstr) : bool :=
  match obj_get adminConfig section with
  | Some s => truthy s && is_truthy (prop_of s enabled_key) && is_true (prop_of s module)
  | None => false
  end.

Definition user_allows (userConfig : option json) (section module : jstr) : bool :=
  match userConfig with
  | None => true
  | Some u =>
      match prop_of u section with
      | Some s => if truthy s then not_false (prop_of s enabled_key) && not_false (prop_of s module) else true
      | None => true
      end
  end.

Definition isModuleEnabled (url : jstr) (adminConfig : object) (userConfig : option json) (groupId : option jstr) : bool :=
  match map_get URL_TO_CONFIG_MAP url with
  | None => true
  | Some (mappedSection, module) =>
      let section := group_section groupId mappedSection in
      if negb (admin_allows adminConfig section module) then false else user_allows userConfig section module
  end.

(** ** The entries of the sidebar *)

Record NavSubItem := { ns_title : jstr; ns_url : jstr; ns_rootOnly : bool }.

Inductive NavTarget :=
| NavLink (url : jstr) (configUrls : option (list jstr))
| NavCollapsible (items : list NavSubItem)
| NavChatPresets.

Record NavItem := { ni_title : jstr; ni_adminOnly : bool; ni_rootOnly : bool; ni_target : NavTarget }.
Record NavGroup := { ng_id : option jstr; ng_items : list NavItem }.

Definition ROLE_GUEST : Z := 0.
Definition ROLE_AGENT : Z := 5.
Definition ROLE_ADMIN : Z := 10.
Definition ROLE_SUPER_ADMIN : Z := 100.

Definition chat_allowed (adminConfig : object) (userConfig : option json) : bool :=
  if negb (admin_allows adminConfig (js "chat") (js "chat")) then false
  else user_allows userConfig (js "chat") (js "chat").

Definition isNavItemVisible (item : NavItem) (groupId : option jstr) (adminConfig : object) (userConfig : option json)
    (userRole : Z) : bool :=
  if ni_adminOnly item && (userRole <? ROLE_ADMIN) then false
  else if ni_rootOnly item && negb (userRole =? ROLE_SUPER_ADMIN) then false
  else match ni_target item with
       | NavChatPresets => chat_allowed adminConfig userConfig
       | NavLink url configUrls =>
           if nonempty url
           then existsb (λ u, isModuleEnabled u adminConfig userConfig groupId) (default [url] configUrls)
           else true
       | NavCollapsible items => existsb (λ i, isModuleEnabled (ns_url i) adminConfig userConfig groupId) items
       end.

Definition filter_sub_items (adminConfig : object) (userConfig : option json) (userRole : Z) (groupId : option jstr)
    (item : NavItem) : NavItem :=
  match ni_target item with
  | NavCollapsible items =>
      {| ni_title := ni_title item; ni_adminOnly := ni_adminOnly item; ni_rootOnly := ni_rootOnly item;
         ni_target := NavCollapsible
           (filterb (λ i, (negb (ns_rootOnly i) || (userRole =? ROLE_SUPER_ADMIN))
                          && isModuleEnabled (ns_url i) adminConfig userConfig groupId) items) |}
  | _ => item
  end.

Definition filterNavItems (items : list NavItem) (adminConfig : object) (userConfig : option json) (userRole : Z)
    (groupId : option jstr) : list NavItem :=
  filterb (λ i, isNavItemVisible i groupId adminConfig userConfig userRole)
    (map (filter_sub_items adminConfig userConfig userRole groupId) items).

(** The user as the store has it: a role, the permission, the stored choice. *)
Record SidebarUser := { su_role : Z; su_sidebar_settings : option bool; su_sidebar_modules : option jstr }.

Definition user_config (user : option SidebarUser) : option json :=
  match user with
  | Some u => if bool_decide (su_sidebar_settings u = Some false) then None else parseUserSidebarConfig (su_sidebar_modules u)
  | None => None
  end.

Definition user_role (user : option SidebarUser) : Z := match user with Some u => su_role u | None => ROLE_GUEST end.

Definition group_shown (userRole : Z) (group : NavGroup) : bool :=
  if bool_decide (ng_id group = Some (js "agent")) then userRole =? ROLE_AGENT
  else if bool_decide (ng_id group = Some (js "admin")) then ROLE_ADMIN <=? userRole
  else true.

Definition is_common_log (item : NavItem) : bool :=
  match ni_target item with NavLink url _ => bool_decide (url = js "/usage-logs/common") | _ => false end.

Definition filter_group (adminConfig : object) (userConfig : option json) (userRole : Z) (group : NavGroup) : NavGroup :=
  let items := filterNavItems (ng_items group) adminConfig userConfig userRole (ng_id group) in
  {| ng_id := ng_id group;
     ng_items := if (userRole =? ROLE_AGENT) && bool_decide (ng_id group = Some (js "general"))
                 then filterb (λ i, negb (is_common_log i)) items else items |}.

Definition useSidebarConfig (navGroups : list NavGroup) (setting : option jstr) (user : option SidebarUser) : list NavGroup :=
  let adminConfig := parseSidebarConfig setting in
  filterb (λ g, nonempty (ng_items g))
    (map (filter_group adminConfig (user_config user) (user_role user)) (filterb (group_shown (user_role user)) navGroups)).

(** ** The choice of a user *)

(** The sections and modules of the card. *)
Definition sectionDefs : list (jstr * list jstr) :=
  map (λ e : string * list string, (js e.1, map js e.2))
    [("imageWorkbench", ["workbench"]); ("chat", ["playground"; "chat"]);
     ("console", ["detail"; "token"; "log"; "midjourney"; "task"]); ("personal", ["topup"; "personal"])]%string.

Definition card_defaults : object :=
  foldl (λ o (e : jstr * list jstr),
           obj_set o e.1 (JObj (foldl (λ s m, obj_set s m (JBool true)) [(enabled_key, JBool true)] e.2))) [] sectionDefs.

(** [{ ...prev[section], [key]: val }] *)
Definition toggle_flag (config : object) (section key : jstr) (val : bool) : object :=
  obj_set config section
    (JObj (obj_set (match obj_get config section with Some s => spread_of s | None => [] end) key (JBool val))).

Definition toggleSection (section : jstr) (val : bool) (config : object) : object := toggle_flag config section enabled_key val.
Definition toggleModule (section module : jstr) (val : bool) (config : object) : object := toggle_flag config section module val.

(** The switch of a flag: on unless the flag is [false]. *)
Definition switch_on (config : object) (section key : jstr) : bool :=
  match obj_get config section with Some s => not_false (prop_of s key) | None => true end.

Definition card_text (config : object) : jstr := json_stringify (JObj config).

(** ** The guards of the routes *)

Section Guards.
Context (toLowerCase : jstr → jstr).

(** [JSON.parse(localStorage.getItem('status'))]; a text that is empty counts as none. *)
Definition getCachedStatus (stored : option jstr) : option json :=
  match stored with
  | Some ((_ :: _) as raw) => match json_parse raw with Some v => Some v | None => None end
  | _ => None
  end.

(** [status?.name] of a status that may be [null] *)
Definition status_prop (status : option json) (name : string) : option json :=
  match status with Some s => prop_of s (js name) | None => None end.

(** The setting of the sidebar in the cached status, for a status whose setting is a text or missing. *)
Definition sidebar_setting (stored : option jstr) : option jstr :=
  match status_prop (getCachedStatus stored) "SidebarModulesAdmin" with Some (JStr s) => Some s | _ => None end.

Definition isSidebarModuleEnabled (section module : jstr) (stored : option jstr) : bool :=
  let config := parseSidebarModulesAdmin toLowerCase (sidebar_setting stored) in
  match map_get config section with
  | None => false
  | Some sectionConfig =>
      if negb (default false (map_get sectionConfig enabled_key)) then false
      else default false (map_get sectionConfig module)
  end.

Inductive HeaderNavModule := Rankings | Pricing.

Definition module_access (c : HeaderNavModules) (m : HeaderNavModule) : ModuleAccess :=
  match m with Rankings => hn_rankings c | Pricing => hn_pricing c end.

Definition parseHeaderNavModulesFromStatus (status : option json) : HeaderNavModules :=
  parseHeaderNavModules toLowerCase (status_prop status "HeaderNavModules").

Definition getModuleAccessFromStatus (status : option json) (m : HeaderNavModule) : ModuleAccess :=
  module_access (parseHeaderNavModulesFromStatus status) m.

(** The answer of the server, [None] where the request failed, and the status kept for later. *)
Definition getFreshModuleAccess (answer : option (option json)) (stored : option jstr) (m : HeaderNavModule)
    : ModuleAccess * option jstr :=
  match answer with
  | Some status =>
      (getModuleAccessFromStatus status m,
       match status with Some s => if truthy s then Some (json_stringify s) else stored | None => stored end)
  | None => (getModuleAccessFromStatus (getCachedStatus stored) m, stored)
  end.

Inductive RouteResult := Open | Redirect (to : string).

(** [beforeLoad] of [/pricing] and [/rankings] *)
Definition guard_module (answer : option (option json)) (stored : option jstr) (signedIn : bool) (m : HeaderNavModule)
    : RouteResult :=
  let access := (getFreshModuleAccess answer stored m).1 in
  if negb (ma_enabled access) then Redirect "/"
  else if ma_requireAuth access && negb signedIn then Redirect "/sign-in"
  else Open.

(** [beforeLoad] of [/playground] and [/image-workbench] *)
Definition guard_playground (stored : option jstr) : RouteResult :=
  if negb (isSidebarModuleEnabled (js "chat") (js "playground") stored) then Redirect "/dashboard" else Open.

Definition guard_image_workbench (stored : option jstr) : RouteResult :=
  if negb (isSidebarModuleEnabled (js "imageWorkbench") (js "workbench") stored) then Redirect "/dashboard" else Open.

(** ** The links of the header *)

Record TopNavLink := { tn_href : jstr; tn_requiresAuth : bool; tn_external : bool }.

Definition plain_link (href : jstr) : TopNavLink := {| tn_href := href; tn_requiresAuth := false; tn_external := false |}.

Definition module_link (href : string) (access : ModuleAccess) (isAuthed : bool) : list TopNavLink :=
  if ma_enabled access
  then [{| tn_href := js href; tn_requiresAuth := ma_requireAuth access && negb isAuthed; tn_external := false |}]
  else [].

Definition useTopNavLinks (status : option json) (isAuthed : bool) : list TopNavLink :=
  let modules := parseHeaderNavModulesFromStatus status in
  (if hn_home modules then [plain_link (js "/")] else [])
  ++ (if hn_console modules then [plain_link (js "/dashboard")] else [])
  ++ module_link "/pricing" (hn_pricing modules) isAuthed
  ++ module_link "/rankings" (hn_rankings modules) isAuthed
  ++ (if hn_docs modules
      then match status_prop status "docs_link" with
           | Some (JStr ((_ :: _) as link)) => [{| tn_href := link; tn_requiresAuth := false; tn_external := true |}]
           | _ => [plain_link (js "/docs")]
           end
      else [])
  ++ (if hn_about modules then [plain_link (js "/about")] else []).
End Guards.
