(* ===== verification/NavSidebarProps.v ===== *)
(** * Navigation: the sidebar obeys the settings

    A configuration saved by the settings page decides what the sidebar shows
    and which routes open, with the defaults for the flags it does not have.
    The choice of a user only takes entries away. *)

From Stdlib Require Import String.
From S2P Require Import JsArith JsonText JsObject ModelPricingTable RatioSyncProps RatioSyncInv AccountReopen NavConfig NavConfigProps NavSidebar.

#[local] Opaque js.

(** ** Flags of the saved configuration *)

Definition flag_on (c : SidebarModules) (sec m : jstr) : bool :=
  default false
    (match flag c sec m with Some b => Some b | None => flag DEFAULT_SIDEBAR_MODULES sec m end).

(** A module is switched on: its section is, and it is itself. *)
Definition module_on (c : SidebarModules) (sec m : jstr) : bool := flag_on c sec enabled_key && flag_on c sec m.

Lemma merge_get o D sec :
  well_keyed D →
  obj_get (foldl merge_step o D) sec
  = match map_get D sec with
    | None => obj_get o sec
    | Some ds =>
        match obj_get o sec with
        | Some e => if truthy e then Some (JObj (spread (section_object ds) (spread_of e))) else Some (section_json ds)
        | None => Some (section_json ds)
        end
    end.
Proof.
  unfold well_keyed. revert o. induction D as [|[k ds] D IH]; intros o Hk; [done|]. cbn [map fst] in Hk.
  apply NoDup_cons in Hk as [Hn Hk]. cbn [foldl map_get]. rewrite IH by done. unfold merge_step. cbn [fst snd].
  case_decide as E; subst.
  - apply map_get_None in Hn as ->. destruct (map_get o sec) as [e|]; [destruct (truthy e)|]; by rewrite map_get_set_eq.
  - assert (H : ∀ v, map_get (obj_set o k v) sec = map_get o sec) by (intros v; by apply map_get_set_ne).
    destruct (map_get D sec) as [ds'|]; (destruct (map_get o k) as [e|]; [destruct (truthy e)|]); by rewrite !H.
Qed.

Lemma sections_get c sec :
  obj_get (map (λ e : jstr * SectionConfig, (e.1, section_json e.2)) c) sec = option_map section_json (map_get c sec).
Proof. induction c as [|[k s] c IH]; [done|]. cbn. by case_decide. Qed.

Lemma default_modules_keyed : well_keyed DEFAULT_SIDEBAR_MODULES.
Proof. apply (bool_decide_unpack _). vm_compute. reflexivity. Qed.

(** A property of a section of the configuration, as the sidebar reads it. *)
Definition sidebar_flag (adminConfig : object) (sec m : jstr) : option json :=
  match obj_get adminConfig sec with Some s => prop_of s m | None => None end.

Lemma saved_sidebar_flag c sec m :
  modules_safe c →
  sidebar_flag (parseSidebarConfig (Some (serializeSidebarModulesAdmin c))) sec m
  = option_map JBool (match flag c sec m with Some b => Some b | None => flag DEFAULT_SIDEBAR_MODULES sec m end).
Proof.
  intros Hc. pose proof (json_safeb_ok _ Hc) as Hs. unfold sidebar_flag, parseSidebarConfig, serializeSidebarModulesAdmin.
  unfold blank. destruct (stringify_blank _ Hs) as [_ ->]. cbn [negb]. rewrite (json_parse_stringify _ Hs).
  unfold mergeWithDefaultSidebarModules. rewrite merge_get by apply default_modules_keyed.
  assert (spread_of (sidebar_json c) = map (λ e : jstr * SectionConfig, (e.1, section_json e.2)) c) as ->.
  { unfold spread_of, sidebar_json in *. cbn [entries_of default from_option id]. by rewrite (safe_entries _ Hc). }
  rewrite sections_get. unfold flag. destruct (map_get c sec) as [s|] eqn:Es; cbn [option_map].
  - assert (Hsec : json_safeb (section_json s) = true) by (by apply (section_safe c (sec, s) Hc), map_get_Some_elem).
    destruct (map_get DEFAULT_SIDEBAR_MODULES sec) as [ds|].
    + change (truthy (section_json s)) with true. cbv iota. cbn [prop_of]. unfold spread_of, section_json in *. cbn [entries_of].
      rewrite (safe_entries _ Hsec). cbn [default from_option id]. rewrite map_get_spread by (by apply safe_object in Hsec as [Hk _]). unfold section_object.
      rewrite !section_object_get. by destruct (map_get s m).
    + unfold section_json. cbn [prop_of]. rewrite section_object_get. by destruct (map_get s m).
  - destruct (map_get DEFAULT_SIDEBAR_MODULES sec) as [ds|]; [|done]. unfold section_json. cbn [prop_of]. apply section_object_get.
Qed.

(** What the sidebar allows of a saved configuration. *)
Lemma admin_allows_saved c sec m :
  modules_safe c → admin_allows (parseSidebarConfig (Some (serializeSidebarModulesAdmin c))) sec m = module_on c sec m.
Proof.
  intros Hc. pose proof (saved_sidebar_flag c sec enabled_key Hc) as H1. pose proof (saved_sidebar_flag c sec m Hc) as H2.
  unfold admin_allows, module_on, flag_on, sidebar_flag in *. destruct (obj_get _ sec) as [s|].
  - rewrite H1, H2. assert (truthy s = true ∨ (prop_of s enabled_key = None)) as [-> | Hn] by (destruct s; auto).
    + by destruct (flag c sec enabled_key) as [[]|], (flag DEFAULT_SIDEBAR_MODULES sec enabled_key) as [[]|],
        (flag c sec m) as [[]|], (flag DEFAULT_SIDEBAR_MODULES sec m) as [[]|].
    + rewrite Hn in H1. destruct (match flag c sec enabled_key with Some _ => _ | None => _ end); [done|]. cbn.
      by rewrite andb_false_r.
  - by destruct (match flag c sec enabled_key with Some _ => _ | None => _ end).
Qed.

(** ** What is shown *)

(** The module an address belongs to is on in the settings, and not off in the choice of the user. *)
Definition address_on (c : SidebarModules) (user : option SidebarUser) (groupId : option jstr) (url : jstr) : bool :=
  match map_get URL_TO_CONFIG_MAP url with
  | Some (sec, m) => module_on c (group_section groupId sec) m && user_allows (user_config user) (group_section groupId sec) m
  | None => true
  end.

(** The groups of a role. *)
Definition role_sees (user : option SidebarUser) (g : NavGroup) : Prop :=
  (ng_id g = Some (js "agent") → user_role user = ROLE_AGENT) ∧ (ng_id g = Some (js "admin") → ROLE_ADMIN ≤ user_role user).

(** An entry without those below it that are off or for the root user only. *)
Definition pruned (c : SidebarModules) (user : option SidebarUser) (groupId : option jstr) (i : NavItem) : NavItem :=
  match ni_target i with
  | NavCollapsible subs =>
      {| ni_title := ni_title i; ni_adminOnly := ni_adminOnly i; ni_rootOnly := ni_rootOnly i;
         ni_target := NavCollapsible
           (filterb (λ s, (negb (ns_rootOnly s) || (user_role user =? ROLE_SUPER_ADMIN)) && address_on c user groupId (ns_url s)) subs) |}
  | _ => i
  end.

(** An entry that is to be shown: it is one for the role, and one of the
    addresses that stand for it is on, or an entry is left below it. *)
Definition entry_allowed (c : SidebarModules) (user : option SidebarUser) (groupId : option jstr) (i : NavItem) : Prop :=
  (ni_adminOnly i = true → ROLE_ADMIN ≤ user_role user) ∧
  (ni_rootOnly i = true → user_role user = ROLE_SUPER_ADMIN) ∧
  match ni_target i with
  | NavLink url configUrls => url = [] ∨ ∃ u, u ∈ default [url] configUrls ∧ address_on c user groupId u = true
  | NavCollapsible subs => subs ≠ []
  | NavChatPresets =>
      module_on c (js "chat") (js "chat") = true ∧ user_allows (user_config user) (js "chat") (js "chat") = true
  end.

(** Agents see the common log in a group of their own. *)
Definition agent_log (user : option SidebarUser) (groupId : option jstr) (i : NavItem) : Prop :=
  user_role user = ROLE_AGENT ∧ groupId = Some (js "general") ∧ ∃ urls, ni_target i = NavLink (js "/usage-logs/common") urls.

Section shown.
Context (c : SidebarModules) (user : option SidebarUser).
Hypothesis Hc : modules_safe c.
Abbreviation admin := (parseSidebarConfig (Some (serializeSidebarModulesAdmin c))).

Lemma isModuleEnabled_saved groupId url : isModuleEnabled url admin (user_config user) groupId = address_on c user groupId url.
Proof.
  unfold isModuleEnabled, address_on. destruct (map_get URL_TO_CONFIG_MAP url) as [[sec m]|]; [|done]. cbv zeta.
  rewrite admin_allows_saved by done. by destruct (module_on _ _ _).
Qed.

Lemma group_shown_sees g : group_shown (user_role user) g = true ↔ role_sees user g.
Proof.
  unfold group_shown, role_sees. case_bool_decide as H1; [|case_bool_decide as H2].
  - rewrite H1, Z.eqb_eq. split; [intros ->; split; [done|]|naive_solver].
    intros E. exfalso. revert E. by vm_compute.
  - rewrite Z.leb_le. naive_solver.
  - naive_solver.
Qed.

Lemma filter_sub_pruned groupId i : filter_sub_items admin (user_config user) (user_role user) groupId i = pruned c user groupId i.
Proof.
  unfold filter_sub_items, pruned. destruct (ni_target i) as [|subs|]; [done| |done]. do 2 f_equal. apply filterb_ext.
  intros s. by rewrite isModuleEnabled_saved.
Qed.

Lemma item_visible groupId i :
  isNavItemVisible (pruned c user groupId i) groupId admin (user_config user) (user_role user) = true
  ↔ entry_allowed c user groupId (pruned c user groupId i).
Proof.
  unfold isNavItemVisible, entry_allowed. set (j := pruned c user groupId i).
  destruct (ni_adminOnly j && _) eqn:E1.
  { split; [done|]. intros (H & _). apply andb_true_iff in E1 as [E1 E2]. specialize (H E1). apply Z.ltb_lt in E2. lia. }
  destruct (ni_rootOnly j && _) eqn:E2.
  { split; [done|]. intros (_ & H & _). apply andb_true_iff in E2 as [E2 E3]. specialize (H E2). apply negb_true_iff, Z.eqb_neq in E3. done. }
  assert (H1 : ni_adminOnly j = true → ROLE_ADMIN ≤ user_role user) by (intros H; rewrite H in E1; cbn in E1; by apply Z.ltb_ge).
  assert (H2 : ni_rootOnly j = true → user_role user = ROLE_SUPER_ADMIN).
  { intros H. rewrite H in E2. cbn in E2. apply negb_false_iff in E2. by apply Z.eqb_eq. }
  assert (Hm : ∀ (b : bool) (P : Prop), (b = true ↔ P) →
    b = true ↔ (ni_adminOnly j = true → ROLE_ADMIN ≤ user_role user) ∧ (ni_rootOnly j = true → user_role user = ROLE_SUPER_ADMIN) ∧ P)
    by naive_solver.
  destruct (ni_target j) as [url urls|subs|] eqn:Et; apply Hm.
  - destruct url as [|x url]; [split; [by left|done]|]. cbn [nonempty]. rewrite existsb_exists. split.
    + intros (u & Hu & Ha). right. exists u. split; [by apply list_elem_of_In|]. by rewrite <- isModuleEnabled_saved.
    + intros [?|(u & Hu & Ha)]; [done|]. exists u. split; [by apply list_elem_of_In|]. by rewrite isModuleEnabled_saved.
  - rewrite existsb_exists. split; [by intros (s & Hs & _) ->|]. intros Hne. destruct subs as [|s subs]; [done|]. exists s.
    split; [by left|]. rewrite isModuleEnabled_saved. unfold j, pruned in Et.
    destruct (ni_target i) as [|items|] eqn:Ei; [congruence| |congruence]. cbn [ni_target] in Et. injection Et as Et.
    assert (Hs : s ∈ filterb (λ s, (negb (ns_rootOnly s) || (user_role user =? ROLE_SUPER_ADMIN)) && address_on c user groupId (ns_url s)) items)
      by (rewrite Et; left).
    apply elem_of_filterb in Hs as [_ Hs]. by apply andb_true_iff in Hs as [_ Hs].
  - unfold chat_allowed. rewrite admin_allows_saved by done. destruct (module_on _ _ _); cbn; naive_solver.
Qed.

Lemma common_log_target i : is_common_log i = true ↔ ∃ urls, ni_target i = NavLink (js "/usage-logs/common") urls.
Proof. unfold is_common_log. destruct (ni_target i); [rewrite bool_decide_eq_true|..]; naive_solver. Qed.

Lemma pruned_common_log groupId i : is_common_log (pruned c user groupId i) = is_common_log i.
Proof. unfold pruned, is_common_log. by destruct (ni_target i) eqn:E; cbn; rewrite ?E. Qed.

Lemma group_items g i :
  i ∈ ng_items (filter_group admin (user_config user) (user_role user) g)
  ↔ ∃ i0, i0 ∈ ng_items g ∧ i = pruned c user (ng_id g) i0 ∧ entry_allowed c user (ng_id g) i ∧ ¬ agent_log user (ng_id g) i0.
Proof.
  assert (Hi : i ∈ filterNavItems (ng_items g) admin (user_config user) (user_role user) (ng_id g)
    ↔ ∃ i0, i0 ∈ ng_items g ∧ i = pruned c user (ng_id g) i0 ∧ entry_allowed c user (ng_id g) i).
  { unfold filterNavItems. rewrite elem_of_filterb, list_elem_of_fmap. setoid_rewrite filter_sub_pruned. split.
    - intros [(i0 & -> & Hi0) Hv]. exists i0. split_and!; [done|done|by apply item_visible].
    - intros (i0 & Hi0 & -> & Ha). split; [by exists i0|by apply item_visible]. }
  unfold filter_group. cbn [ng_items].
  assert (Hb : (user_role user =? ROLE_AGENT) && bool_decide (ng_id g = Some (js "general")) = true
    ↔ user_role user = ROLE_AGENT ∧ ng_id g = Some (js "general")) by (by rewrite andb_true_iff, Z.eqb_eq, bool_decide_eq_true).
  unfold agent_log. destruct (_ && _).
  - rewrite elem_of_filterb, Hi, negb_true_iff. split.
    + intros [(i0 & Hi0 & -> & Ha) Hl]. exists i0. split_and!; [done|done|done|]. intros (_ & _ & Hu%common_log_target).
      rewrite pruned_common_log in Hl. congruence.
    + intros (i0 & Hi0 & -> & Ha & Hn). split; [by exists i0|]. rewrite pruned_common_log. apply not_true_iff_false.
      intros Hl%common_log_target. apply Hn. naive_solver.
  - rewrite Hi. split.
    + intros (i0 & Hi0 & He & Ha). exists i0. split_and!; [done|done|done|]. intros (H1 & H2 & _). by destruct Hb as [_ Hb]; specialize (Hb (conj H1 H2)).
    + intros (i0 & Hi0 & He & Ha & _). by exists i0.
Qed.
End shown.

(** C18. With a configuration the settings page saved, the sidebar shows
    exactly what the settings, the user and the role leave: the entries of the
    groups of the role that are for it and are switched on in the settings and
    not switched off by the user, but the common log of an agent, who has it
    elsewhere. An entry with entries below it has those that are on, and at
    least one. An entry that names several addresses for its module is shown
    when one of them is on; whether the address it leads to is on does not
    matter then. *)
Theorem sidebar_obeys_settings c groups user groupId i :
  modules_safe c →
  (∃ g, g ∈ useSidebarConfig groups (Some (serializeSidebarModulesAdmin c)) user ∧ ng_id g = groupId ∧ i ∈ ng_items g)
  ↔ ∃ g0 i0, g0 ∈ groups ∧ ng_id g0 = groupId ∧ role_sees user g0 ∧ i0 ∈ ng_items g0
      ∧ i = pruned c user groupId i0 ∧ entry_allowed c user groupId i ∧ ¬ agent_log user groupId i0.
Proof.
  intros Hc. unfold useSidebarConfig. cbv zeta. split.
  - intros (g & Hg & <- & Hi). apply elem_of_filterb in Hg as [Hg _].
    apply list_elem_of_fmap in Hg as (g0 & -> & [Hg0 Hs]%elem_of_filterb). apply group_items in Hi as (i0 & Hi0 & He & Ha & Hn); [|done].
    exists g0, i0. split_and!; try done. by apply group_shown_sees.
  - intros (g0 & i0 & Hg0 & <- & Hs & Hi0 & He & Ha & Hn).
    set (f := filter_group _ _ _). assert (Hi : i ∈ ng_items (f g0)) by (apply group_items; [done|by exists i0]).
    exists (f g0). split_and!; [|done|done]. apply elem_of_filterb. split; [|by destruct (ng_items (f g0)); [inversion Hi|]].
    apply list_elem_of_fmap. exists g0. split; [done|]. apply elem_of_filterb. split; [done|by apply group_shown_sees].
Qed.

(** ** The choice of the user only hides *)

(** Nothing is shown to a user with a choice that is not shown without. *)
Lemma choice_only_hides url admin uc groupId :
  isModuleEnabled url admin uc groupId = true → isModuleEnabled url admin None groupId = true.
Proof. unfold isModuleEnabled. destruct (map_get URL_TO_CONFIG_MAP url) as [[sec m]|]; [|done]. cbv zeta. by destruct (admin_allows _ _ _). Qed.

(** ** The guards agree *)

(** Where the guards and the sidebar have the same default. *)
Definition same_default (sec m : jstr) : Prop :=
  flag DEFAULT_SIDEBAR_MODULES sec m = flag SIDEBAR_MODULES_DEFAULT sec m
  ∧ flag DEFAULT_SIDEBAR_MODULES sec enabled_key = flag SIDEBAR_MODULES_DEFAULT sec enabled_key
  ∧ is_Some (flag SIDEBAR_MODULES_DEFAULT sec m) ∧ is_Some (flag SIDEBAR_MODULES_DEFAULT sec enabled_key).

Section Guards.
Context (toLowerCase : jstr → jstr).

Lemma guard_saved c sec m stored :
  modules_safe c → same_default sec m → sidebar_setting stored = Some (serializeSidebarModulesAdmin c) →
  isSidebarModuleEnabled toLowerCase sec m stored = module_on c sec m.
Proof.
  intros Hc (H1 & H2 & [b1 H3] & [b2 H4]) Hs. unfold isSidebarModuleEnabled. rewrite Hs. cbv zeta.
  pose proof (saved_flag toLowerCase c sec m Hc) as Hm. pose proof (saved_flag toLowerCase c sec enabled_key Hc) as He.
  rewrite decide_True in He by done. unfold module_on, flag_on. rewrite H1, H2, H3, H4. rewrite H3, H4 in Hm. rewrite H4 in He.
  assert (Hm' : flag (parseSidebarModulesAdmin toLowerCase (Some (serializeSidebarModulesAdmin c))) sec m
                = Some (default b1 (flag c sec m))).
  { rewrite Hm. unfold flag. destruct (map_get c sec) as [s|]; [|done]. destruct (map_get s m) eqn:E; [done|]. cbn.
    case_decide as D; [|done]. subst m. congruence. }
  assert (He' : flag (parseSidebarModulesAdmin toLowerCase (Some (serializeSidebarModulesAdmin c))) sec enabled_key
                = Some (default b2 (flag c sec enabled_key))).
  { rewrite He. unfold flag. destruct (map_get c sec) as [s|]; [|done]. by destruct (map_get s enabled_key). }
  clear Hm He. unfold flag in Hm' at 1, He' at 1. destruct (map_get _ sec) as [s|]; [|done].
  rewrite Hm', He'. cbn [default from_option id].
  by destruct (flag c sec enabled_key) as [[]|], (flag c sec m) as [[]|], b1, b2.
Qed.

Lemma guarded_default : same_default (js "chat") (js "playground") ∧ same_default (js "imageWorkbench") (js "workbench").
Proof. split; (split; [|split; [|split]]); try (by vm_compute); (eexists; vm_compute; reflexivity). Qed.

(** With a configuration the settings page saved, the route of the
    playground, and the one of the image workbench, opens exactly when the
    sidebar of a user without a choice shows its entry. *)
Theorem guards_agree_with_sidebar c stored :
  modules_safe c → sidebar_setting stored = Some (serializeSidebarModulesAdmin c) →
  let admin := parseSidebarConfig (sidebar_setting stored) in
  (guard_playground toLowerCase stored = Open ↔ isModuleEnabled (js "/playground") admin None None = true)
  ∧ (guard_image_workbench toLowerCase stored = Open ↔ isModuleEnabled (js "/image-workbench") admin None None = true).
Proof.
  intros Hc Hs. cbv zeta. rewrite Hs. destruct guarded_default as [D1 D2].
  unfold guard_playground, guard_image_workbench. rewrite (guard_saved c _ _ _ Hc D1 Hs), (guard_saved c _ _ _ Hc D2 Hs).
  unfold isModuleEnabled.
  assert (map_get URL_TO_CONFIG_MAP (js "/playground") = Some (js "chat", js "playground")) as -> by by_eval.
  assert (map_get URL_TO_CONFIG_MAP (js "/image-workbench") = Some (js "imageWorkbench", js "workbench")) as -> by by_eval.
  unfold group_section. cbn [is_agent]. rewrite !admin_allows_saved by done.
  change (is_agent None) with false. cbn [andb].
  by destruct (module_on c (js "chat") (js "playground")), (module_on c (js "imageWorkbench") (js "workbench")).
Qed.
End Guards.

(** ** The card of the user *)

(** The sections are objects, as the card and the server write them. *)
Definition card_ok (config : object) : Prop := Forall (λ e : jstr * json, ∃ s, e.2 = JObj s ∧ well_keyed s) config.

Lemma card_get config sec v : card_ok config → obj_get config sec = Some v → ∃ s, v = JObj s ∧ well_keyed s.
Proof. intros Hc Hg. by apply (Forall_map_get _ _ _ _ Hc) in Hg. Qed.

Lemma toggle_ok config sec key val : card_ok config → card_ok (toggle_flag config sec key val).
Proof.
  intros Hc. apply Forall_map_set; [done|]. eexists. split; [reflexivity|]. apply map_set_well_keyed.
  destruct (obj_get config sec) as [v|] eqn:E; [|apply NoDup_nil_2]. destruct (card_get _ _ _ Hc E) as (s & -> & Hs).
  by apply own_entries_well_keyed.
Qed.

Lemma toggle_switch config sec key val sec' key' :
  card_ok config →
  switch_on (toggle_flag config sec key val) sec' key'
  = if decide (sec = sec' ∧ key = key') then val else switch_on config sec' key'.
Proof.
  intros Hc. unfold switch_on, toggle_flag. rewrite map_get_set. destruct (decide (sec = sec')) as [<-|Hs].
  - cbn [prop_of]. rewrite map_get_set. destruct (decide (key = key')) as [<-|Hk].
    + rewrite decide_True by done. by destruct val.
    + rewrite decide_False by naive_solver. destruct (obj_get config sec) as [v|] eqn:E; [|done].
      destruct (card_get _ _ _ Hc E) as (s & -> & Hw). cbn [prop_of]. unfold spread_of. cbn [entries_of default from_option id].
      by rewrite map_get_own_entries.
  - rewrite decide_False by naive_solver. done.
Qed.

Definition toggles (config : object) (l : list (jstr * jstr * bool)) : object :=
  foldl (λ c (e : jstr * jstr * bool), toggle_flag c e.1.1 e.1.2 e.2) config l.

(** The switches after a run, as a table. *)
Definition switches (T : jstr → jstr → bool) (l : list (jstr * jstr * bool)) : jstr → jstr → bool :=
  foldl (λ T (e : jstr * jstr * bool) sec key, if decide (e.1.1 = sec ∧ e.1.2 = key) then e.2 else T sec key) T l.

Lemma toggles_switches config l T sec key :
  card_ok config → (∀ sec key, switch_on config sec key = T sec key) →
  switch_on (toggles config l) sec key = switches T l sec key.
Proof.
  revert config T. induction l as [|e l IH]; intros config T Hc HT; [apply HT|]. cbn [toggles switches foldl].
  apply IH; [by apply toggle_ok|]. intros sec' key'. rewrite toggle_switch by done. by rewrite HT.
Qed.

Lemma saved_choice config sec m :
  json_safeb (JObj config) = true →
  user_allows (parseUserSidebarConfig (Some (card_text config))) sec m
  = switch_on config sec enabled_key && switch_on config sec m.
Proof.
  intros Hc. pose proof (json_safeb_ok _ Hc) as Hs. unfold parseUserSidebarConfig, card_text, blank.
  destruct (stringify_blank _ Hs) as [_ ->]. cbn [negb]. rewrite (json_parse_stringify _ Hs). cbn [user_allows prop_of].
  unfold switch_on. destruct (obj_get config sec) as [s|]; [|done].
  destruct (truthy s) eqn:E; [done|]. by destruct s.
Qed.

(** The card shows a user what the sidebar will show: after any run of its
    switches the saved choice hides an address exactly when the switch of its
    section or of its module was last set to off, and else leaves it to the
    settings. *)
Theorem card_choice_obeyed config l admin url sec m :
  card_ok config → json_safeb (JObj (toggles config l)) = true → map_get URL_TO_CONFIG_MAP url = Some (sec, m) →
  isModuleEnabled url admin (parseUserSidebarConfig (Some (card_text (toggles config l)))) None
  = admin_allows admin sec m
    && (switches (switch_on config) l sec enabled_key && switches (switch_on config) l sec m).
Proof.
  intros Hc Hs Hu. unfold isModuleEnabled. rewrite Hu. unfold group_section. change (is_agent None) with false. cbn [andb]. cbv zeta.
  rewrite saved_choice by done. rewrite !(toggles_switches config l (switch_on config)) by done. by destruct (admin_allows admin sec m).
Qed.

(** ** Evaluations *)

Definition sample_modules : SidebarModules :=
  set_flag (set_flag SIDEBAR_MODULES_DEFAULT (js "chat") (js "playground") false) (js "admin") (js "enabled") false.

Definition sample_groups : list NavGroup :=
  [{| ng_id := Some (js "chat");
      ng_items := [{| ni_title := js "Playground"; ni_adminOnly := false; ni_rootOnly := false; ni_target := NavLink (js "/playground") None |};
                   {| ni_title := js "Chat"; ni_adminOnly := false; ni_rootOnly := false; ni_target := NavChatPresets |}] |};
   {| ng_id := Some (js "admin");
      ng_items := [{| ni_title := js "Users"; ni_adminOnly := false; ni_rootOnly := false; ni_target := NavLink (js "/users") None |};
                   {| ni_title := js "Audit"; ni_adminOnly := false; ni_rootOnly := true; ni_target := NavLink (js "/security-audit") None |}] |}].

Definition sample_user : option SidebarUser :=
  Some {| su_role := 100; su_sidebar_settings := None; su_sidebar_modules := Some (card_text card_defaults) |}.

Definition sample_chat : NavItem :=
  {| ni_title := js "Chat"; ni_adminOnly := false; ni_rootOnly := false; ni_target := NavChatPresets |}.

Example sample_sidebar :
  map (λ g, map ni_title (ng_items g)) (useSidebarConfig sample_groups (Some (serializeSidebarModulesAdmin sample_modules)) sample_user)
  = [[js "Chat"]; [js "Audit"]].
Proof. by_eval. Qed.

Lemma sidebar_obeys_settings_witness :
  ∃ g0 i0, g0 ∈ sample_groups ∧ ng_id g0 = Some (js "chat") ∧ role_sees sample_user g0 ∧ i0 ∈ ng_items g0
    ∧ sample_chat = pruned sample_modules sample_user (Some (js "chat")) i0
    ∧ entry_allowed sample_modules sample_user (Some (js "chat")) sample_chat ∧ ¬ agent_log sample_user (Some (js "chat")) i0.
Proof.
  apply (sidebar_obeys_settings sample_modules sample_groups sample_user (Some (js "chat")) sample_chat); [vm_compute; reflexivity|].
  exists {| ng_id := Some (js "chat"); ng_items := [sample_chat] |}. split; [|split; [reflexivity|left]].
  assert (E : useSidebarConfig sample_groups (Some (serializeSidebarModulesAdmin sample_modules)) sample_user
      = [{| ng_id := Some (js "chat"); ng_items := [sample_chat] |};
         {| ng_id := Some (js "admin"); ng_items := drop 1 (default [] (ng_items <$> (sample_groups !! 1%nat))) |}])
      by (vm_compute; reflexivity).
  rewrite E. left.
Defined.

(** The entry of the task logs stands for drawings too: with the task logs
    switched off it is shown, and leads to them. *)
Definition task_entry : NavItem :=
  {| ni_title := js "Task Logs"; ni_adminOnly := false; ni_rootOnly := false;
     ni_target := NavLink (js "/usage-logs/task") (Some [js "/usage-logs/drawing"; js "/usage-logs/task"]) |}.

Example task_entry_without_task :
  let c := set_flag SIDEBAR_MODULES_DEFAULT (js "console") (js "task") false in
  let group := {| ng_id := Some (js "general"); ng_items := [task_entry] |} in
  useSidebarConfig [group] (Some (serializeSidebarModulesAdmin c)) sample_user = [group]
  ∧ address_on c sample_user (Some (js "general")) (js "/usage-logs/task") = false.
Proof. split; by_eval. Qed.

(** The status as the server sends it, with the saved configuration. *)
Definition sample_status : option jstr :=
  Some (json_stringify (JObj [entry "SidebarModulesAdmin" (JStr (serializeSidebarModulesAdmin sample_modules))])).

Lemma guards_agree_with_sidebar_witness :
  let lower := λ s : jstr, s in
  let admin := parseSidebarConfig (sidebar_setting sample_status) in
  (guard_playground lower sample_status = Open ↔ isModuleEnabled (js "/playground") admin None None = true)
  ∧ (guard_image_workbench lower sample_status = Open ↔ isModuleEnabled (js "/image-workbench") admin None None = true).
Proof. apply (guards_agree_with_sidebar (λ s, s) sample_modules); vm_compute; reflexivity. Defined.

Lemma card_choice_obeyed_witness :
  let l := [(js "console", enabled_key, false); (js "chat", js "chat", false); (js "console", enabled_key, true)] in
  isModuleEnabled (js "/keys") default_config (parseUserSidebarConfig (Some (card_text (toggles card_defaults l)))) None
  = admin_allows default_config (js "console") (js "token")
    && (switches (switch_on card_defaults) l (js "console") enabled_key && switches (switch_on card_defaults) l (js "console") (js "token")).
Proof.
  apply card_choice_obeyed; [|vm_compute; reflexivity|vm_compute; reflexivity].
  repeat constructor; (eexists; split; [reflexivity|]; apply (bool_decide_unpack _); vm_compute; reflexivity).
Defined.

(** Texts that were not written by the settings page: the guard reads the flag
    in another way than the sidebar does. *)
Definition textual_setting : jstr := json_stringify (JObj [entry "chat" (JObj [entry "playground" (str "true")])]).

Lemma textual_flags_differ :
  let stored := Some (json_stringify (JObj [entry "SidebarModulesAdmin" (JStr textual_setting)])) in
  guard_playground (λ s, s) stored = Open
  ∧ isModuleEnabled (js "/playground") (parseSidebarConfig (sidebar_setting stored)) None None = false.
Proof. split; by_eval. Qed.

(** The settings page has no switch for modules that the sidebar knows. *)
Lemma modules_without_switch :
  let opened := parseSidebarModulesAdmin (λ s, s) None in
  flag opened (js "personal") (js "affiliate") = None ∧ flag opened (js "admin") (js "affiliateRecords") = None
  ∧ flag opened (js "admin") (js "monitor") = None ∧ map_get opened (js "agent") = None
  ∧ isModuleEnabled (js "/affiliate") (parseSidebarConfig (Some (serializeSidebarModulesAdmin opened))) None None = true.
Proof. split_and!; by_eval. Qed.
