(* ===== verification/ApiClient.v ===== *)
(** * The HTTP client: shared requests and common answers

    Model of [lib/api.ts]. A [get] that is not told otherwise joins the request
    in flight for the same address and parameters; every answer passes the
    interceptors, which show messages and end the session, before the request
    leaves the table and its callers go on.

    The network is outside the model: the answers are events. Requests and
    callers are numbered as they come. What a request sends besides its
    address and parameters is its flags. *)

From Stdlib Require Import String.
From S2P Require Import JsArith JsonText JsObject.

(** ** Requests *)

(** The flags of [config] the client looks at. *)
Record Flags := { fl_disableDuplicate : bool; fl_skipBusinessError : bool; fl_skipErrorHandler : bool }.

Record GetCall := { gc_url : jstr; gc_params : option json; gc_flags : Flags }.

(** [`${url}?${params}`] *)
Definition params_text (params : option json) : jstr :=
  match params with Some p => if truthy p then json_stringify p else js "{}" | None => js "{}" end.

Definition request_key (url : jstr) (params : option json) : jstr := url ++ js "?" ++ params_text params.

(** ** Answers *)

(** A response with its data, or an error, with the status and the message of the answer where it has one. *)
Inductive Answer :=
| Response (data : json)
| Failed (status : option Z) (answer_message error_message : option json).

(** What the interceptors do: a message, and the end of the session. *)
Inductive Effect := Toast (message : jstr) | ResetAuth.

Definition data_prop (data : json) (name : string) : option json := match data with JObj o => fld o name | _ => None end.

(** [v || w] for a message *)
Definition message_or (v : option json) (w : jstr) : jstr :=
  match v with Some v => if truthy v then string_of_json v else w | None => w end.

Definition response_effects (flags : Flags) (data : json) : list Effect :=
  if fl_skipBusinessError flags || negb (truthy data) then []
  else match data_prop data "success" with
       | Some (JBool false) => [Toast (message_or (data_prop data "message") (js "Request failed"))]
       | _ => []
       end.

Definition error_effects (sessionExpired : jstr) (flags : Flags) (status : option Z) (answer_message error_message : option json)
    : list Effect :=
  if fl_skipErrorHandler flags then []
  else if bool_decide (status = Some 401) then [Toast sessionExpired; ResetAuth]
  else [Toast (message_or answer_message (message_or error_message (js "Request error")))].

Definition answer_effects (sessionExpired : jstr) (flags : Flags) (a : Answer) : list Effect :=
  match a with
  | Response data => response_effects flags data
  | Failed status m e => error_effects sessionExpired flags status m e
  end.

(** ** The client *)

(** A request: what was asked, whether it is in the table of the shared ones,
    and its answer once the interceptors have run. *)
Record Request := { rq_call : GetCall; rq_shared : bool; rq_answer : option Answer; rq_done : bool }.

Record Client := {
  cl_requests : list Request;
  cl_inFlight : list (jstr * nat);
  cl_callers : list (GetCall * nat);
  cl_effects : list Effect;
}.

Definition idle : Client := {| cl_requests := []; cl_inFlight := []; cl_callers := []; cl_effects := [] |}.

Definition new_request (c : GetCall) (shared : bool) : Request :=
  {| rq_call := c; rq_shared := shared; rq_answer := None; rq_done := false |}.

Definition call_key (c : GetCall) : jstr := request_key (gc_url c) (gc_params c).

(** [api.get(url, config)]: the caller waits for the request of the number. *)
Definition get (c : GetCall) (s : Client) : Client :=
  let n := length (cl_requests s) in
  if fl_disableDuplicate (gc_flags c) then
    {| cl_requests := cl_requests s ++ [new_request c false]; cl_inFlight := cl_inFlight s;
       cl_callers := cl_callers s ++ [(c, n)]; cl_effects := cl_effects s |}
  else match map_get (cl_inFlight s) (call_key c) with
       | Some k => {| cl_requests := cl_requests s; cl_inFlight := cl_inFlight s;
                      cl_callers := cl_callers s ++ [(c, k)]; cl_effects := cl_effects s |}
       | None => {| cl_requests := cl_requests s ++ [new_request c true]; cl_inFlight := map_set (cl_inFlight s) (call_key c) n;
                    cl_callers := cl_callers s ++ [(c, n)]; cl_effects := cl_effects s |}
       end.

Definition with_answer (a : Answer) (r : Request) : Request :=
  {| rq_call := rq_call r; rq_shared := rq_shared r; rq_answer := Some a; rq_done := rq_done r |}.

Definition with_done (r : Request) : Request :=
  {| rq_call := rq_call r; rq_shared := rq_shared r; rq_answer := rq_answer r; rq_done := true |}.

(** The network answers a request that has no answer: the interceptors run with the flags it was sent with. *)
Definition answer (sessionExpired : jstr) (n : nat) (a : Answer) (s : Client) : Client :=
  match cl_requests s !! n with
  | Some r =>
      {| cl_requests := <[n := with_answer a r]> (cl_requests s); cl_inFlight := cl_inFlight s; cl_callers := cl_callers s;
         cl_effects := cl_effects s ++ answer_effects sessionExpired (gc_flags (rq_call r)) a |}
  | None => s
  end.

(** [.finally(() => inFlightGet.delete(key))]; the callers go on after it. *)
Definition settle (n : nat) (s : Client) : Client :=
  match cl_requests s !! n with
  | Some r =>
      {| cl_requests := <[n := with_done r]> (cl_requests s);
         cl_inFlight := if rq_shared r then map_delete (cl_inFlight s) (call_key (rq_call r)) else cl_inFlight s;
         cl_callers := cl_callers s; cl_effects := cl_effects s |}
  | None => s
  end.

Inductive client_step (sessionExpired : jstr) : Client → Client → Prop :=
| step_get s c : client_step sessionExpired s (get c s)
| step_answer s n a r : cl_requests s !! n = Some r → rq_answer r = None →
    client_step sessionExpired s (answer sessionExpired n a s)
| step_settle s n r a : cl_requests s !! n = Some r → rq_answer r = Some a → rq_done r = false →
    client_step sessionExpired s (settle n s).

Inductive reachable (sessionExpired : jstr) : Client → Prop :=
| reach_idle : reachable sessionExpired idle
| reach_step s s' : reachable sessionExpired s → client_step sessionExpired s s' → reachable sessionExpired s'.

(** The answer a caller is given, once it has one. *)
Definition caller_answer (s : Client) (i : nat) : option Answer :=
  match cl_callers s !! i with
  | Some (_, n) => match cl_requests s !! n with
                   | Some r => if rq_done r then rq_answer r else None
                   | None => None
                   end
  | None => None
  end.

(** ** Headers *)

Definition getCommonHeaders (uid : option jstr) : list (jstr * jstr) :=
  (js "Content-Type", js "application/json")
  :: match uid with Some ((_ :: _) as u) => [(js "New-Api-User", u)] | _ => [] end.

Definition attach_user (uid : option jstr) (headers : list (jstr * jstr)) : list (jstr * jstr) :=
  match uid with Some ((_ :: _) as u) => map_set headers (js "New-Api-User") u | _ => headers end.
