(* ===== verification/ApiClientProps.v ===== *)
(** * The HTTP client: what is shared

    At any time there is at most one request in flight for an address and its
    parameters among those that may be shared; a caller is given the answer of
    a request for the same address and parameters that was not finished when
    it called. What it is not given is its own flags: messages, and the end of
    the session, follow the flags of the caller that came first. *)

From Stdlib Require Import String.
From S2P Require Import JsArith JsonText JsObject RatioSyncProps ApiClient.

#[local] Opaque js.

(** ** The table of requests in flight *)

Definition live (s : Client) (k : jstr) (n : nat) : Prop :=
  ∃ r, cl_requests s !! n = Some r ∧ rq_shared r = true ∧ rq_done r = false ∧ call_key (rq_call r) = k.

Record client_ok (s : Client) : Prop := {
  ok_keyed : well_keyed (cl_inFlight s);
  ok_table : ∀ k n, map_get (cl_inFlight s) k = Some n ↔ live s k n;
  ok_callers : ∀ c n, (c, n) ∈ cl_callers s → ∃ r, cl_requests s !! n = Some r ∧ call_key (rq_call r) = call_key c
    ∧ (fl_disableDuplicate (gc_flags c) = true → rq_call r = c ∧ rq_shared r = false);
}.

Lemma idle_ok : client_ok idle.
Proof.
  split; [apply NoDup_nil_2| |by intros c n ?%not_elem_of_nil]. intros k n. split; [done|]. by intros (r & H & _).
Qed.

(** *** A request is added *)

Definition add_request (r : Request) (t : list (jstr * nat)) (c : GetCall) (s : Client) : Client :=
  {| cl_requests := cl_requests s ++ [r]; cl_inFlight := t; cl_callers := cl_callers s ++ [(c, length (cl_requests s))];
     cl_effects := cl_effects s |}.

Lemma lookup_added {A} (l : list A) x n y : (l ++ [x]) !! n = Some y ↔ l !! n = Some y ∨ (n = length l ∧ y = x).
Proof.
  rewrite lookup_snoc_Some. split; (intros [[H1 H2]|[H1 H2]] || intros [H|[H1 H2]]); subst; auto.
  left. split; [by eapply lookup_lt_Some|done].
Qed.

Lemma add_callers r t c s :
  client_ok s → call_key (rq_call r) = call_key c →
  (fl_disableDuplicate (gc_flags c) = true → rq_call r = c ∧ rq_shared r = false) →
  ∀ c' n, (c', n) ∈ cl_callers (add_request r t c s) → ∃ r', cl_requests (add_request r t c s) !! n = Some r'
    ∧ call_key (rq_call r') = call_key c'
    ∧ (fl_disableDuplicate (gc_flags c') = true → rq_call r' = c' ∧ rq_shared r' = false).
Proof.
  intros [_ _ Hc] Hk Hf c' n. cbn. rewrite elem_of_app, list_elem_of_singleton. intros [H|[= -> ->]].
  - destruct (Hc _ _ H) as (r' & Hr & Hrest). exists r'. split; [|done]. apply lookup_added. by left.
  - exists r. split; [|done]. apply lookup_added. by right.
Qed.

Lemma add_live r t c s k n :
  live (add_request r t c s) k n ↔
  live s k n ∨ (n = length (cl_requests s) ∧ rq_shared r = true ∧ rq_done r = false ∧ call_key (rq_call r) = k).
Proof.
  unfold live. cbn. split.
  - intros (r' & [H|[-> ->]]%lookup_added & Hr); [left; eauto|by right].
  - intros [(r' & H & Hr)|(-> & Hr)]; [exists r'|exists r]; (split; [apply lookup_added; auto|done]).
Qed.

Lemma get_ok c s : client_ok s → client_ok (get c s).
Proof.
  intros Hs. pose proof Hs as [Hk Ht Hc]. unfold get. cbv zeta. destruct (fl_disableDuplicate (gc_flags c)) eqn:Ed.
  - split; [done| |by apply (add_callers (new_request c false) _ c s)]. intros k n.
    etrans; [|symmetry; apply (add_live (new_request c false) (cl_inFlight s) c s)]. rewrite <- Ht. cbn. naive_solver.
  - destruct (map_get (cl_inFlight s) (call_key c)) as [k|] eqn:Eg.
    + split; [done|by apply Ht|]. intros c' n. cbn. rewrite elem_of_app, list_elem_of_singleton. intros [H|[= -> ->]]; [by apply Hc|].
      apply Ht in Eg as (r & Hr & _ & _ & E). exists r. split_and!; [done|done|congruence].
    + split; [by apply map_set_well_keyed| |by apply (add_callers (new_request c true) _ c s); [..|congruence]]. intros k n.
      etrans; [|symmetry; apply (add_live (new_request c true) (map_set (cl_inFlight s) (call_key c) (length (cl_requests s))) c s)].
      cbn. rewrite map_get_set, <- Ht. case_decide as E.
      * subst k. rewrite Eg. naive_solver.
      * naive_solver.
Qed.

(** *** A request changes *)

Lemma insert_live (l : list Request) n r r' k m :
  l !! n = Some r → rq_shared r' = rq_shared r → rq_call r' = rq_call r →
  (∃ x, <[n := r']> l !! m = Some x ∧ rq_shared x = true ∧ rq_done x = false ∧ call_key (rq_call x) = k) ↔
  (∃ x, l !! m = Some x ∧ rq_shared x = true ∧ rq_done (if decide (m = n) then r' else x) = false ∧ call_key (rq_call x) = k).
Proof.
  intros Hn Hs Hc. destruct (decide (m = n)) as [->|Hne].
  - rewrite list_lookup_insert_eq by by eapply lookup_lt_Some. rewrite Hn. split.
    + intros (x & [= <-] & H1 & H2 & H3). exists r. rewrite <- Hs, <- Hc. done.
    + intros (x & [= <-] & H1 & H2 & H3). exists r'. rewrite Hs, Hc. done.
  - by rewrite list_lookup_insert_ne.
Qed.

Lemma insert_callers s n r r' :
  client_ok s → cl_requests s !! n = Some r → rq_shared r' = rq_shared r → rq_call r' = rq_call r →
  ∀ c m, (c, m) ∈ cl_callers s → ∃ x, <[n := r']> (cl_requests s) !! m = Some x ∧ call_key (rq_call x) = call_key c
    ∧ (fl_disableDuplicate (gc_flags c) = true → rq_call x = c ∧ rq_shared x = false).
Proof.
  intros [_ _ Hc] Hn Hs Hq c m (x & Hx & Hrest)%Hc. destruct (decide (m = n)) as [->|Hne].
  - exists r'. rewrite list_lookup_insert_eq by by eapply lookup_lt_Some. assert (x = r) as -> by congruence.
    rewrite Hs, Hq. done.
  - exists x. by rewrite list_lookup_insert_ne.
Qed.

Lemma answer_ok e n a s : client_ok s → client_ok (answer e n a s).
Proof.
  intros Hs. pose proof Hs as [Hk Ht Hc]. unfold answer. destruct (cl_requests s !! n) as [r|] eqn:En; [|done].
  split; [done| |by apply (insert_callers s n r)]. intros k m. cbn [cl_inFlight]. rewrite Ht. unfold live. cbn [cl_requests].
  rewrite (insert_live _ n r (with_answer a r) k m En) by done. split; intros (x & Hx & H1 & H2 & H3); exists x; (split_and!; [done|done| |done]).
  - case_decide; [|done]. subst. by assert (x = r) as <- by congruence.
  - case_decide; [|done]. subst. by assert (x = r) as -> by congruence.
Qed.

Lemma settle_ok n s r : client_ok s → cl_requests s !! n = Some r → rq_done r = false → client_ok (settle n s).
Proof.
  intros Hs En Hd. pose proof Hs as [Hk Ht Hc]. unfold settle. rewrite En. split.
  - cbn. destruct (rq_shared r); [by apply map_delete_well_keyed|done].
  - intros k m. unfold live. cbn [cl_requests cl_inFlight]. rewrite (insert_live _ n r (with_done r) k m En) by done.
    destruct (rq_shared r) eqn:Er.
    + rewrite map_get_delete. assert (Hl : map_get (cl_inFlight s) (call_key (rq_call r)) = Some n) by (apply Ht; by exists r).
      case_decide as E.
      * subst k. split; [done|]. intros (x & Hx & H1 & H2 & H3). case_decide as D; [done|].
        assert (map_get (cl_inFlight s) (call_key (rq_call r)) = Some m) by (apply Ht; by exists x). congruence.
      * rewrite Ht. split; intros (x & Hx & H1 & H2 & H3); exists x; (split_and!; [done|done| |done]).
        -- case_decide; [|done]. subst. congruence.
        -- case_decide; [|done]. subst. congruence.
    + rewrite Ht. split; intros (x & Hx & H1 & H2 & H3); exists x; (split_and!; [done|done| |done]).
      * case_decide; [|done]. subst. congruence.
      * case_decide; [|done]. subst. congruence.
  - by apply (insert_callers s n r).
Qed.

Lemma reachable_ok e s : reachable e s → client_ok s.
Proof.
  induction 1 as [|s s' _ IH Hstep]; [apply idle_ok|]. destruct Hstep as [s c|s n a r _ _|s n r a Hn _ Hd].
  - by apply get_ok.
  - by apply answer_ok.
  - by apply (settle_ok n s r).
Qed.

(** ** Keys *)

(** The mark between an address and an object of parameters. *)
Definition mark : jstr := js "?{".

Lemma mark_eq : mark = [63; 123].
Proof. reflexivity. Qed.

Lemma includes_cons pat c s : includes pat (c :: s) = starts_with pat (c :: s) || includes pat s.
Proof.
  unfold includes. cbn [index_of]. destruct (starts_with pat (c :: s)); [done|]. by destruct (index_of pat s).
Qed.

Lemma marked_split u1 u2 x y :
  includes mark u1 = false → includes mark u2 = false → u1 ++ mark ++ x = u2 ++ mark ++ y → u1 = u2 ∧ x = y.
Proof.
  assert (Hs : ∀ z, starts_with mark (63 :: 123 :: z) = true) by done. rewrite mark_eq in *.
  revert u2. induction u1 as [|c u1 IH]; intros u2 H1 H2 E.
  - destruct u2 as [|d [|e u2]]; cbn in E; [by injection E|by injection E|].
    injection E as <- <- _. by rewrite includes_cons, Hs in H2.
  - destruct u2 as [|d u2]; cbn in E.
    + destruct u1 as [|e u1]; cbn in E; [by injection E|]. injection E as -> -> _. by rewrite includes_cons, Hs in H1.
    + injection E as -> E. rewrite includes_cons in H1, H2. apply orb_false_iff in H1 as [_ H1], H2 as [_ H2].
      destruct (IH u2 H1 H2 E) as [-> ->]. done.
Qed.

(** Parameters as the pages give them: none, or an object. *)
Definition object_params (c : GetCall) : Prop := match gc_params c with None | Some (JObj _) => True | _ => False end.

Lemma params_text_object c : object_params c → ∃ t, params_text (gc_params c) = 123 :: t.
Proof.
  unfold object_params, params_text. destruct (gc_params c) as [[]|]; try done; [|by eexists; vm_compute].
  intros _. change (truthy (JObj o)) with true. cbv iota. unfold json_stringify. cbn [json_print]. unfold enclose.
  destruct (map _ _); by eexists.
Qed.

Lemma key_determines c c' :
  object_params c → object_params c' → includes mark (gc_url c) = false → includes mark (gc_url c') = false →
  call_key c = call_key c' → gc_url c = gc_url c' ∧ params_text (gc_params c) = params_text (gc_params c').
Proof.
  intros Ho Ho' Hu Hu'. destruct (params_text_object c Ho) as [t Ht], (params_text_object c' Ho') as [t' Ht'].
  unfold call_key, request_key. rewrite Ht, Ht'. intros E. destruct (marked_split (gc_url c) (gc_url c') t t' Hu Hu') as [-> ->].
  - rewrite mark_eq. exact E.
  - done.
Qed.

(** ** Sharing *)

Definition plain_call (c : GetCall) : Prop := object_params c ∧ includes mark (gc_url c) = false.

(** C19. However calls and answers interleave, no two requests that may be
    shared are in flight with the same key. Every caller waits for a request
    of its key, which is one for the same address and the same text of
    parameters; a caller that refused to share waits for a request of its own.
    A call is served by a request that is not finished: a new one, unless one
    that may be shared is in flight for its key, and then none is sent. *)
Theorem shared_requests sessionExpired s :
  reachable sessionExpired s →
  (∀ k n n', live s k n → live s k n' → n = n')
  ∧ (∀ c n, (c, n) ∈ cl_callers s → ∃ r, cl_requests s !! n = Some r
       ∧ (plain_call c → plain_call (rq_call r) →
          gc_url (rq_call r) = gc_url c ∧ params_text (gc_params (rq_call r)) = params_text (gc_params c))
       ∧ (fl_disableDuplicate (gc_flags c) = true → rq_call r = c ∧ rq_shared r = false))
  ∧ (∀ c, ∃ n r, cl_callers (get c s) = cl_callers s ++ [(c, n)] ∧ cl_requests (get c s) !! n = Some r ∧ rq_done r = false
       ∧ (if fl_disableDuplicate (gc_flags c) then cl_requests (get c s) = cl_requests s ++ [r]
          else (∃ m, live s (call_key c) m) ∧ cl_requests (get c s) = cl_requests s ∧ live s (call_key c) n
               ∨ (∀ m, ¬ live s (call_key c) m) ∧ cl_requests (get c s) = cl_requests s ++ [r])).
Proof.
  intros Hs%reachable_ok. pose proof Hs as [Hk Ht Hc]. split; [|split].
  - intros k n n' H1%Ht H2%Ht. congruence.
  - intros c n (r & Hr & E & Hd)%Hc. exists r. split_and!; [done| |done]. intros [? ?] [? ?]. by apply key_determines.
  - intros c. unfold get. cbv zeta. destruct (fl_disableDuplicate (gc_flags c)).
    + exists (length (cl_requests s)), (new_request c false). split_and!; [done| |done|done]. apply lookup_added. by right.
    + destruct (map_get (cl_inFlight s) (call_key c)) as [k|] eqn:Eg.
      * apply Ht in Eg. pose proof Eg as (r & Hr & H1 & H2 & H3). exists k, r. split_and!; [done|done|done|]. left. eauto.
      * exists (length (cl_requests s)), (new_request c true). split_and!; [done| |done|]; [apply lookup_added; by right|].
        right. split; [|done]. intros m Hm%Ht. congruence.
Qed.

(** ** Evaluations *)

Definition no_flags : Flags := {| fl_disableDuplicate := false; fl_skipBusinessError := false; fl_skipErrorHandler := false |}.
Definition self_guard : GetCall :=
  {| gc_url := js "/api/user/self"; gc_params := None;
     gc_flags := {| fl_disableDuplicate := false; fl_skipBusinessError := false; fl_skipErrorHandler := true |} |}.
Definition self_page : GetCall := {| gc_url := js "/api/user/self"; gc_params := None; gc_flags := no_flags |}.

Definition two_callers (first second : GetCall) : Client :=
  settle 0 (answer (js "Session expired!") 0 (Failed (Some 401) None None) (get second (get first idle))).

Lemma two_callers_reachable first second :
  call_key first = call_key second → fl_disableDuplicate (gc_flags first) = false → fl_disableDuplicate (gc_flags second) = false →
  reachable (js "Session expired!") (two_callers first second).
Proof.
  intros Hk H1 H2. unfold two_callers.
  assert (Hg : cl_requests (get second (get first idle)) !! 0%nat = Some (new_request first true)).
  { unfold get at 1. rewrite H2. unfold get. rewrite H1. cbn. by rewrite Hk, decide_True. }
  eapply reach_step; [eapply reach_step; [eapply reach_step; [eapply reach_step; [apply reach_idle|]|]|]|].
  - apply (step_get _ _ first).
  - apply (step_get _ _ second).
  - by eapply step_answer.
  - eapply (step_settle _ _ 0 (with_answer (Failed (Some 401) None None) (new_request first true))); [|done|done].
    unfold answer. rewrite Hg. cbn [cl_requests]. apply list_lookup_insert_eq. by eapply lookup_lt_Some.
Qed.

Lemma shared_requests_witness :
  let s := two_callers self_guard self_page in
  reachable (js "Session expired!") s ∧ (∀ k n n', live s k n → live s k n' → n = n').
Proof.
  cbv zeta. split; [by apply two_callers_reachable|]. apply (shared_requests (js "Session expired!")). by apply two_callers_reachable.
Defined.

(** The messages and the end of the session follow the flags of the first
    caller: a page that asks for messages is told nothing when a guard asked
    before it, and the session is not ended. *)
Lemma flags_of_first_caller :
  caller_answer (two_callers self_guard self_page) 1 = Some (Failed (Some 401) None None)
  ∧ cl_effects (two_callers self_guard self_page) = []
  ∧ cl_effects (two_callers self_page self_guard) = [Toast (js "Session expired!"); ResetAuth].
Proof. split_and!; by_eval. Qed.
