(* ===== verification/SettingsForm.v ===== *)
(** * System settings: what a form sends

    Model of [features/system-settings/hooks/use-settings-form.ts]. The server
    names settings with dots; the form library nests the values under the
    segments of the names. The hook expands the names for the library, flattens
    the values to know what was saved last, and sends the fields the library
    marks as edited whose values differ from that.

    The library itself (which fields it marks, its validation) is outside the
    model: the marks are an argument. A value the sources could only make with
    [undefined] is [None] in the values read and written here. *)

From Stdlib Require Import String.
From S2P Require Import JsArith JsonText JsObject.

Definition c_dot : Z := 46.

Definition isPlainObject (v : json) : bool := match v with JObj _ => true | _ => false end.

(** [parentKey ? `${parentKey}.${key}` : key] *)
Definition next_key (parentKey key : jstr) : jstr := if nonempty parentKey then parentKey ++ c_dot :: key else key.

(** ** Flat and nested values *)

(** The assignments [flattenValues] makes below a key, in their order; the
    entries are taken in the order of the language after each is flattened. *)
Fixpoint flat_entries (parentKey : jstr) (v : json) : object :=
  match v with
  | JObj o => concat (map snd (own_entries (map (λ e : jstr * json, (e.1, flat_entries (next_key parentKey e.1) e.2)) o)))
  | _ => [(parentKey, v)]
  end.

Definition set_entries (result l : object) : object := foldl (λ r (e : jstr * json), obj_set r e.1 e.2) result l.

Definition flattenValues (values : object) : object := set_entries [] (flat_entries [] (JObj values)).

(** [setDeepValue(target, path, value)] for the segments of a path *)
Fixpoint setDeepValue (target : object) (segments : list jstr) (value : json) : object :=
  match segments with
  | [] => target
  | [segment] => obj_set target segment value
  | segment :: rest =>
      let next := match obj_get target segment with Some (JObj o) => o | _ => [] end in
      obj_set target segment (JObj (setDeepValue next rest value))
  end.

Definition has_dot (key : jstr) : bool := includes [c_dot] key.

Definition expand_step (result : object) (e : jstr * json) : object :=
  if has_dot e.1 then setDeepValue result (split_char c_dot e.1) e.2 else obj_set result e.1 e.2.

(** [expandDotPaths]: what is under a key with dots is kept as it is. *)
Fixpoint expand_value (v : json) : json :=
  match v with
  | JObj o =>
      JObj (foldl expand_step []
              (own_entries (map (λ e : jstr * json, (e.1, if has_dot e.1 then e.2 else expand_value e.2)) o)))
  | _ => v
  end.

Definition expandDotPaths (values : object) : object :=
  match expand_value (JObj values) with JObj o => o | _ => [] end.

(** ** The marks of the library *)

(** What the library marks: a flag, or marks by field or by index. *)
Inductive Dirty := DirtyFlag (b : bool) | DirtyFields (fields : list (jstr * Dirty)).

(** [values[key]] of a plain object or an array *)
Definition source_of (values : option json) (key : jstr) : option json :=
  match values with
  | Some (JObj o) => obj_get o key
  | Some (JArr l) => match index_key key with Some i => l !! Z.to_nat i | None => None end
  | _ => None
  end.

(** The fields marked below a key, with their values. *)
Fixpoint dirty_entries (parentKey : jstr) (dirty : Dirty) (values : option json) : list (jstr * option json) :=
  match dirty with
  | DirtyFlag true => [(parentKey, values)]
  | DirtyFlag false => []
  | DirtyFields fields =>
      concat (map snd (own_entries
        (map (λ e : jstr * Dirty, (e.1, dirty_entries (next_key parentKey e.1) e.2 (source_of values e.1))) fields)))
  end.

Definition collectDirtyValues (dirty : Dirty) (data : object) : list (jstr * option json) :=
  foldl (λ r (e : jstr * option json), map_set r e.1 e.2) []
    (match dirty with DirtyFlag _ => [] | _ => dirty_entries [] dirty (Some (JObj data)) end).

(** ** The form *)

Definition is_composite (v : json) : bool := match v with JArr _ | JObj _ => true | _ => false end.

Definition defaultCompare (a b : option json) : bool :=
  match a, b with
  | None, None => true
  | Some JNull, Some JNull => true
  | Some (JBool x), Some (JBool y) => bool_decide (x = y)
  | Some (JNum x), Some (JNum y) => num_eq x y
  | Some (JStr x), Some (JStr y) => bool_decide (x = y)
  | Some x, Some y => is_composite x && is_composite y && bool_decide (json_stringify x = json_stringify y)
  | _, _ => false
  end.

(** The refs of the hook, and the values the form was last reset to. *)
Record SettingsForm := {
  sf_defaults : object;
  sf_baseline : object;
  sf_serialized : jstr;
  sf_reset_to : object;
}.

Definition saved_as (values : object) : SettingsForm :=
  {| sf_defaults := values; sf_baseline := flattenValues values;
     sf_serialized := json_stringify (JObj (flattenValues values)); sf_reset_to := values |}.

Definition mount_form (defaultValues : object) : SettingsForm := saved_as (expandDotPaths defaultValues).

(** The effect on the defaults: the form is reset where they say something else. *)
Definition receive_defaults (defaultValues : object) (s : SettingsForm) : SettingsForm :=
  let expanded := expandDotPaths defaultValues in
  if bool_decide (json_stringify (JObj (flattenValues expanded)) = sf_serialized s) then s else saved_as expanded.

Definition changed_entries (dirty : Dirty) (data : object) (s : SettingsForm) : list (jstr * option json) :=
  filterb (λ e : jstr * option json, negb (defaultCompare e.2 (obj_get (sf_baseline s) e.1)))
    (own_entries (collectDirtyValues dirty data)).

(** [handleSubmit]: what is sent, [None] where nothing changed, and the form
    afterwards; [sent] says whether [onSubmit] came through. *)
Definition handleSubmit (dirty : Dirty) (data : object) (sent : bool) (s : SettingsForm)
    : option (list (jstr * option json)) * SettingsForm :=
  let changedEntries := changed_entries dirty data s in
  if negb (nonempty changedEntries) then (None, s)
  else (Some (foldl (λ acc (e : jstr * option json), map_set acc e.1 e.2) [] changedEntries),
        if sent then saved_as data else s).

Definition handleReset (s : SettingsForm) : SettingsForm :=
  {| sf_defaults := sf_defaults s; sf_baseline := sf_baseline s; sf_serialized := sf_serialized s;
     sf_reset_to := sf_defaults s |}.

(** ** Evaluations *)

Definition sample_settings : object :=
  [entry "Notice" (str "hi"); entry "quota.user" (num 5); entry "quota.group.vip" (JBool true); entry "Ratios" (JArr [num 1])].

Example settings_run :
  flattenValues (expandDotPaths sample_settings) = [entry "Notice" (str "hi"); entry "quota.user" (num 5);
    entry "quota.group.vip" (JBool true); entry "Ratios" (JArr [num 1])]
  ∧ (handleSubmit (DirtyFields [(js "quota", DirtyFields [(js "user", DirtyFlag true)]); (js "Notice", DirtyFlag true)])
       (expandDotPaths [entry "Notice" (str "hi"); entry "quota.user" (num 6)]) true (mount_form sample_settings)).1
    = Some [(js "quota.user", Some (num 6))].
Proof. split; by_eval. Qed.
