(* ===== verification/SettingsFormProps.v ===== *)
(** * System settings: names, paths and what is sent

    The names of the settings and the paths of the values correspond, so that
    flattening what was expanded gives the settings back, and a submit sends
    exactly the marked fields that differ from what was saved last. *)

From Stdlib Require Import String.
From S2P Require Import JsArith JsonText JsObject RatioSyncProps RatioSyncInv SettingsForm.

#[local] Opaque js.

(** ** Paths *)

(** A segment of a path. *)
Definition segment (s : jstr) : Prop := (c_dot ∉ s) ∧ s ≠ [].

Definition path_key (p : jstr) (segs : list jstr) : jstr := foldl next_key p segs.

Lemma next_key_nonempty p k : k ≠ [] → next_key p k ≠ [].
Proof. unfold next_key. destruct p; [done|]. done. Qed.

Lemma path_key_app p segs : p ≠ [] → path_key p segs = join [c_dot] (p :: segs).
Proof.
  unfold path_key. revert p. induction segs as [|s segs IH]; intros p Hp; [done|]. cbn [foldl].
  assert (next_key p s = p ++ c_dot :: s) as -> by by destruct p. rewrite IH by by destruct p.
  destruct segs as [|t segs]; [done|]. cbn [join]. by rewrite <- app_assoc.
Qed.

Lemma path_key_join segs : Forall segment segs → path_key [] segs = join [c_dot] segs.
Proof.
  destruct segs as [|s segs]; [done|]. intros [[_ Hs] _]%Forall_cons. exact (path_key_app s segs Hs).
Qed.

Lemma path_key_inj s1 s2 : Forall segment s1 → Forall segment s2 → path_key [] s1 = path_key [] s2 → s1 = s2.
Proof.
  intros H1 H2. rewrite !path_key_join by done. intros E.
  assert (Hd : ∀ s, Forall segment s → Forall (λ x, c_dot ∉ x) s) by (intros s H; eapply Forall_impl; [exact H|]; by intros x [? _]).
  assert (Hj : ∀ a (s : list jstr), Forall segment (a :: s) → join [c_dot] (a :: s) ≠ []).
  { intros a s [[_ Ha] _]%Forall_cons. destruct a; [done|]. by destruct s. }
  destruct s1 as [|a s1], s2 as [|b s2]; [done| | |].
  - cbn [join] in E. by destruct (Hj b s2 H2).
  - by destruct (Hj a s1 H1).
  - rewrite <- (split_char_join c_dot (a :: s1)), <- (split_char_join c_dot (b :: s2)) by (done || by apply Hd). by rewrite E.
Qed.

(** ** Values at paths *)

(** The value that is no plain object at a path. *)
Fixpoint leaf (v : json) (segs : list jstr) : option json :=
  match segs with
  | [] => if isPlainObject v then None else Some v
  | s :: rest => match v with
                 | JObj o => match obj_get o s with Some w => leaf w rest | None => None end
                 | _ => None
                 end
  end.

(** Objects with distinct segments as names, all the way down. *)
Inductive tidy : json → Prop :=
| tidy_object o : well_keyed o → Forall (λ e, segment e.1 ∧ tidy e.2) o → tidy (JObj o)
| tidy_other v : isPlainObject v = false → tidy v.

Lemma tidy_get o s w : tidy (JObj o) → obj_get o s = Some w → segment s ∧ tidy w.
Proof. intros H Hg. inversion H as [? _ Ho|]; subst; [|done]. by apply (Forall_map_get _ _ _ _ Ho) in Hg. Qed.

Lemma leaf_segments v segs w : tidy v → leaf v segs = Some w → Forall segment segs.
Proof.
  revert v. induction segs as [|s segs IH]; intros v Hv; [constructor|]. cbn. destruct v as [| | | | |o]; try done.
  destruct (obj_get o s) as [x|] eqn:E; [|done]. destruct (tidy_get _ _ _ Hv E) as [Hs Hx]. intros H. constructor; [done|by eapply IH].
Qed.

(** The entries below a key are the entries of the values, one after the other. *)
Lemma nested_entries {V W} (g : jstr * V → list W) (o : list (jstr * V)) x :
  x ∈ concat (map snd (own_entries (map (λ e, (e.1, g e)) o))) ↔ ∃ e, e ∈ o ∧ x ∈ g e.
Proof.
  rewrite own_entries_Permutation, map_map. cbn [snd]. rewrite list_elem_of_In, in_concat. split.
  - intros (l & Hl%in_map_iff & Hx). destruct Hl as (e & <- & He). exists e. by rewrite !list_elem_of_In.
  - intros (e & He & Hx). exists (g e). rewrite in_map_iff. rewrite !list_elem_of_In in *. eauto.
Qed.

Lemma flat_entries_leaf v p k w :
  tidy v → (k, w) ∈ flat_entries p v ↔ ∃ segs, leaf v segs = Some w ∧ k = path_key p segs.
Proof.
  intros Hv. revert p. induction v as [|b|x|s|l IH|o IH] using json_nested_ind; intros p.
  1-5: cbn [flat_entries]; rewrite list_elem_of_singleton; split;
    [intros [= -> ->]; by exists []|intros ([|? ?] & [= <-] & ->); done].
  cbn [flat_entries]. rewrite (nested_entries (λ e : jstr * json, flat_entries (next_key p e.1) e.2) o (k, w)).
  inversion Hv as [? Hk Ho|]; subst; [|done]. rewrite Forall_forall in IH, Ho. split.
  - intros ([n x] & Hn & Hx). destruct (Ho _ Hn) as [_ Htx]. cbn in Htx, Hx. apply (IH _ Hn Htx) in Hx as (segs & Hl & ->).
    exists (n :: segs). cbn [leaf]. by rewrite (map_get_elem _ _ _ Hk Hn).
  - intros ([|n segs] & Hl & ->); [done|]. cbn [leaf] in Hl. destruct (obj_get o n) as [x|] eqn:E; [|done].
    apply map_get_Some_elem in E. exists (n, x). split; [done|]. destruct (Ho _ E) as [_ Htx]. apply (IH _ E Htx). by exists segs.
Qed.

(** ** Assigning entries *)

(** Where equal names have equal values, assigning them makes a table of them. *)
Lemma assign_get {V} (l acc : list (jstr * V)) k w :
  (∀ k w w', (k, w) ∈ l → (k, w') ∈ l → w = w') →
  map_get (foldl (λ r (e : jstr * V), map_set r e.1 e.2) acc l) k = Some w
  ↔ (k, w) ∈ l ∨ ((k ∉ map fst l) ∧ map_get acc k = Some w).
Proof.
  revert acc. induction l as [|[n x] l IH]; intros acc Hf.
  - cbn. split; [right; split; [apply not_elem_of_nil|done]|]. by intros [?%not_elem_of_nil|[_ ?]].
  - cbn [foldl map fst snd]. rewrite IH by (intros ? ? ? H1 H2; eapply Hf; by right). rewrite map_get_set, not_elem_of_cons, elem_of_cons.
    destruct (decide (n = k)) as [->|Hne]; [|naive_solver]. split.
    + intros [H|[Hn [= ->]]]; [by left; right|]. left. by left.
    + intros [[[= ->]|H]|[[? _] _]]; [|by left|done]. destruct (decide (k ∈ map fst l)) as [Hin|Hn]; [|by right].
      left. apply list_elem_of_fmap in Hin as ([k' w'] & -> & Hin). by rewrite (Hf k' x w') by (by left || by right).
Qed.

Lemma flatten_get o k w :
  tidy (JObj o) → map_get (flattenValues o) k = Some w ↔ ∃ segs, leaf (JObj o) segs = Some w ∧ k = path_key [] segs.
Proof.
  intros Ho. unfold flattenValues, set_entries. rewrite assign_get.
  - rewrite flat_entries_leaf by done. split; [by intros [H|[_ ?]]|by left].
  - intros k' w1 w2 (s1 & H1 & E1)%flat_entries_leaf (s2 & H2 & E2)%flat_entries_leaf; try done.
    assert (s1 = s2) as -> by (apply path_key_inj; [by eapply leaf_segments|by eapply leaf_segments|congruence]). congruence.
Qed.

(** What was saved last under the name of a path. *)
Lemma baseline_at o segs : tidy (JObj o) → Forall segment segs → map_get (flattenValues o) (path_key [] segs) = leaf (JObj o) segs.
Proof.
  intros Ho Hs. destruct (leaf (JObj o) segs) as [w|] eqn:E; [by apply flatten_get; eauto|].
  destruct (map_get (flattenValues o) (path_key [] segs)) as [w|] eqn:Eg; [|done].
  apply flatten_get in Eg as (segs' & Hl & Ek); [|done].
  assert (segs = segs') as -> by (apply path_key_inj; [done|by eapply leaf_segments|done]). congruence.
Qed.

(** ** The marked fields *)

Fixpoint marked (d : Dirty) (segs : list jstr) : bool :=
  match segs with
  | [] => match d with DirtyFlag b => b | DirtyFields _ => false end
  | s :: rest => match d with
                 | DirtyFields fields => match map_get fields s with Some d' => marked d' rest | None => false end
                 | DirtyFlag _ => false
                 end
  end.

Definition value_at (values : option json) (segs : list jstr) : option json := foldl source_of values segs.

Inductive tidy_marks : Dirty → Prop :=
| tidy_flag b : tidy_marks (DirtyFlag b)
| tidy_fields fields : well_keyed fields → Forall (λ e, segment e.1 ∧ tidy_marks e.2) fields → tidy_marks (DirtyFields fields).

Section dirty_ind.
Context (P : Dirty → Prop) (P_flag : ∀ b, P (DirtyFlag b)) (P_fields : ∀ f : list (jstr * Dirty), Forall (λ e, P e.2) f → P (DirtyFields f)).

Fixpoint dirty_nested_ind (d : Dirty) : P d :=
  match d with
  | DirtyFlag b => P_flag b
  | DirtyFields f => P_fields f ((fix go (f : list (jstr * Dirty)) : Forall (λ e, P e.2) f :=
      match f with [] => Forall_nil_2 _ | e :: f' => Forall_cons_2 _ _ _ (dirty_nested_ind e.2) (go f') end) f)
  end.
End dirty_ind.

Lemma marked_segments d segs : tidy_marks d → marked d segs = true → Forall segment segs.
Proof.
  revert d. induction segs as [|s segs IH]; intros d Hd; [constructor|]. cbn. destruct d as [|f]; [done|].
  destruct (map_get f s) as [x|] eqn:E; [|done]. inversion Hd as [|? _ Hf]; subst.
  destruct (Forall_map_get _ _ _ _ Hf E) as [Hs Hx]. intros H. constructor; [done|by eapply IH].
Qed.

Lemma dirty_entries_marked d p vals k x :
  tidy_marks d →
  (k, x) ∈ dirty_entries p d vals ↔ ∃ segs, marked d segs = true ∧ k = path_key p segs ∧ x = value_at vals segs.
Proof.
  intros Hd. revert p vals. induction d as [b|f IH] using dirty_nested_ind; intros p vals.
  - cbn. destruct b.
    + rewrite list_elem_of_singleton. split; [intros [= -> ->]; by exists []|]. intros ([|? ?] & H & -> & ->); done.
    + split; [by intros ?%not_elem_of_nil|]. intros ([|? ?] & H & _); done.
  - cbn [dirty_entries].
    rewrite (nested_entries (λ e : jstr * Dirty, dirty_entries (next_key p e.1) e.2 (source_of vals e.1)) f (k, x)).
    inversion Hd as [|? Hk Hf]; subst. rewrite Forall_forall in IH, Hf. split.
    + intros ([n d'] & Hn & Hx). destruct (Hf _ Hn) as [_ Hd']. cbn in Hd', Hx. apply (IH _ Hn Hd') in Hx as (segs & Hm & -> & ->).
      exists (n :: segs). cbn [marked]. by rewrite (map_get_elem _ _ _ Hk Hn).
    + intros ([|n segs] & Hm & -> & ->); [done|]. cbn [marked] in Hm. destruct (map_get f n) as [d'|] eqn:E; [|done].
      apply map_get_Some_elem in E. exists (n, d'). split; [done|]. destruct (Hf _ E) as [_ Hd']. apply (IH _ E Hd'). by exists segs.
Qed.

Lemma collect_get f data k x :
  tidy_marks (DirtyFields f) →
  map_get (collectDirtyValues (DirtyFields f) data) k = Some x
  ↔ ∃ segs, marked (DirtyFields f) segs = true ∧ k = path_key [] segs ∧ x = value_at (Some (JObj data)) segs.
Proof.
  intros Hd. unfold collectDirtyValues. rewrite assign_get.
  - rewrite dirty_entries_marked by done. split; [by intros [H|[_ ?]]|by left].
  - intros k' w1 w2 (s1 & H1 & E1 & ->)%dirty_entries_marked (s2 & H2 & E2 & ->)%dirty_entries_marked; try done.
    assert (s1 = s2) as -> by (apply path_key_inj; [by eapply marked_segments|by eapply marked_segments|congruence]). done.
Qed.

Lemma assign_well_keyed {V} (l acc : list (jstr * V)) :
  well_keyed acc → well_keyed (foldl (λ r (e : jstr * V), map_set r e.1 e.2) acc l).
Proof. revert acc. induction l as [|e l IH]; intros acc Ha; [done|]. cbn. by apply IH, map_set_well_keyed. Qed.

Lemma changed_get dirty data s k x :
  let changed := changed_entries dirty data s in
  map_get (foldl (λ acc (e : jstr * option json), map_set acc e.1 e.2) [] changed) k = Some x
  ↔ map_get (collectDirtyValues dirty data) k = Some x ∧ defaultCompare x (obj_get (sf_baseline s) k) = false.
Proof.
  cbv zeta. assert (Hw : well_keyed (collectDirtyValues dirty data)) by (by apply assign_well_keyed, NoDup_nil_2).
  assert (He : ∀ k x, (k, x) ∈ changed_entries dirty data s ↔
    map_get (collectDirtyValues dirty data) k = Some x ∧ defaultCompare x (obj_get (sf_baseline s) k) = false).
  { intros k' x'. unfold changed_entries. rewrite elem_of_filterb, elem_of_own_entries, negb_true_iff. cbn [fst snd].
    split; intros [H1 H2]; (split; [|done]); [by apply map_get_elem|by apply map_get_Some_elem]. }
  rewrite assign_get.
  - rewrite He. split; [by intros [H|[_ ?]]|by left].
  - intros k' w1 w2 [H1 _]%He [H2 _]%He. congruence.
Qed.

Lemma assign_has {V} (l acc : list (jstr * V)) k :
  k ∈ map fst l ∨ k ∈ map fst acc → ∃ v, map_get (foldl (λ r (e : jstr * V), map_set r e.1 e.2) acc l) k = Some v.
Proof.
  intros Hk. destruct (map_get _ k) as [v|] eqn:E; [by exists v|]. apply map_get_None in E. exfalso. apply E. clear E.
  revert acc Hk. induction l as [|e l IH]; intros acc Hk; [by destruct Hk as [?%not_elem_of_nil|]|]. cbn [foldl]. apply IH.
  rewrite map_set_keys, elem_of_set_add. cbn [map] in Hk. rewrite elem_of_cons in Hk. tauto.
Qed.

(** ** What a submit sends *)

(** The form was last saved as some values: since it was mounted, reset by
    new defaults, or submitted. *)
Definition saved_form (s : SettingsForm) (old : object) : Prop := sf_baseline s = flattenValues old.

(** C29. A submit sends, under its dotted name, every field the library marks
    whose value differs from the one saved last, with its value, and nothing
    else; when none differs nothing is sent and the form stays. When the
    server took the fields, the values that were submitted are the ones saved
    last, so that submitting them again sends nothing that equals itself. *)
Theorem settings_submit_spec s old fields data sent :
  saved_form s old → tidy (JObj old) → tidy_marks (DirtyFields fields) →
  let r := handleSubmit (DirtyFields fields) data sent s in
  let differs segs := defaultCompare (value_at (Some (JObj data)) segs) (leaf (JObj old) segs) = false in
  match r.1 with
  | Some changed =>
      (∀ k x, map_get changed k = Some x ↔
         ∃ segs, marked (DirtyFields fields) segs = true ∧ differs segs ∧ k = path_key [] segs ∧ x = value_at (Some (JObj data)) segs)
      ∧ (∃ segs, marked (DirtyFields fields) segs = true ∧ differs segs)
      ∧ saved_form r.2 (if sent then data else old)
  | None => (∀ segs, marked (DirtyFields fields) segs = true → ¬ differs segs) ∧ r.2 = s
  end.
Proof.
  intros Hs Ho Hd. cbv zeta.
  assert (Hc : ∀ k x, map_get (foldl (λ acc (e : jstr * option json), map_set acc e.1 e.2) [] (changed_entries (DirtyFields fields) data s)) k = Some x
    ↔ ∃ segs, marked (DirtyFields fields) segs = true
        ∧ defaultCompare (value_at (Some (JObj data)) segs) (leaf (JObj old) segs) = false
        ∧ k = path_key [] segs ∧ x = value_at (Some (JObj data)) segs).
  { intros k x. rewrite changed_get, collect_get, Hs by done. split.
    - intros ((segs & Hm & -> & ->) & Hne). exists segs. rewrite baseline_at in Hne by (done || by eapply marked_segments). done.
    - intros (segs & Hm & Hne & -> & ->). split; [by exists segs|]. by rewrite baseline_at by (done || by eapply marked_segments). }
  unfold handleSubmit. cbv zeta. destruct (changed_entries (DirtyFields fields) data s) as [|[k x] l] eqn:E; cbn [nonempty negb fst snd].
  - split; [|done]. intros segs Hm Hne.
    assert (H : map_get (foldl (λ acc (e : jstr * option json), map_set acc e.1 e.2) [] []) (path_key [] segs)
                = Some (value_at (Some (JObj data)) segs)) by (apply Hc; by exists segs). done.
  - split_and!; [done| |by destruct sent].
    destruct (assign_has ((k, x) :: l) [] k) as [y Hy]; [left; by left|].
    apply Hc in Hy as (segs & Hm & Hne & _). by exists segs.
Qed.

(** ** Expanding and flattening *)

(** Names with segments, none of them below another, for values that are no plain objects. *)
Record settings_names (o : object) : Prop := {
  names_keyed : well_keyed o;
  names_segments : Forall (λ e, Forall (λ s, s ≠ []) (split_char c_dot e.1) ∧ isPlainObject e.2 = false) o;
  names_apart : ∀ e e', e ∈ o → e' ∈ o → split_char c_dot e.1 `prefix_of` split_char c_dot e'.1 → e.1 = e'.1;
}.

Lemma setDeepValue_tidy o segs v :
  tidy (JObj o) → Forall segment segs → isPlainObject v = false → tidy (JObj (setDeepValue o segs v)).
Proof.
  intros Ho Hs Hv. revert o Ho. induction Hs as [|s segs Hs Hsegs IH]; intros o Ho; [done|].
  assert (Hset : ∀ w, tidy w → tidy (JObj (obj_set o s w))).
  { intros w Hw. inversion Ho as [? Hk Hf|]; subst; [|done]. constructor; [by apply map_set_well_keyed|]. by apply Forall_map_set. }
  cbn [setDeepValue]. destruct segs as [|t segs]; [by apply Hset; constructor 2|]. apply Hset, IH.
  assert (He : tidy (JObj [])) by (constructor; [apply NoDup_nil_2|constructor]).
  destruct (obj_get o s) as [[]|] eqn:E; try exact He. by destruct (tidy_get _ _ _ Ho E).
Qed.

Lemma leaf_setDeepValue o segs v p :
  segs ≠ [] → isPlainObject v = false →
  leaf (JObj (setDeepValue o segs v)) p
  = if decide (p = segs) then Some v
    else if decide (p `prefix_of` segs ∨ segs `prefix_of` p) then None
    else leaf (JObj o) p.
Proof.
  intros Hne Hv. revert o p Hne. induction segs as [|s segs IH]; intros o p Hne; [done|].
  destruct p as [|s' r].
  { rewrite decide_False by done. rewrite decide_True by (left; apply prefix_nil). done. }
  cbn [setDeepValue]. destruct (decide (s' = s)) as [->|Hs].
  - destruct segs as [|t segs].
    + cbn [leaf]. rewrite map_get_set_eq. destruct r as [|x r].
      * rewrite decide_True by done. cbn. by rewrite Hv.
      * rewrite decide_False by done. rewrite decide_True by (right; apply prefix_cons, prefix_nil). by destruct v.
    + cbn [leaf]. rewrite map_get_set_eq, IH by done.
      destruct (decide (r = t :: segs)) as [->|Hr]; [by rewrite decide_True|]. rewrite (decide_False (P := s :: r = _)) by congruence.
      destruct (decide (r `prefix_of` t :: segs ∨ _)) as [Hp|Hp].
      * rewrite decide_True; [done|]. destruct Hp; [left|right]; by apply prefix_cons.
      * rewrite decide_False; [|intros [H|H]; apply Hp; [left|right]; by apply prefix_cons_inv_2 in H].
        destruct r as [|x r]; [exfalso; apply Hp; left; apply prefix_nil|]. by destruct (obj_get o s) as [[]|].
  - rewrite decide_False by congruence. rewrite decide_False by (intros [H|H]; apply prefix_cons_inv_1 in H; congruence).
    destruct segs; cbn [leaf]; by rewrite map_get_set_ne.
Qed.

Lemma name_segments k : Forall (λ s, s ≠ []) (split_char c_dot k) → Forall segment (split_char c_dot k).
Proof.
  intros Hk. pose proof (split_char_pieces c_dot k) as H. rewrite Forall_forall in H, Hk. apply Forall_forall.
  intros s Hs. split; [by apply H|by apply Hk].
Qed.

Lemma expand_step_path result e : expand_step result e = setDeepValue result (split_char c_dot e.1) e.2.
Proof.
  unfold expand_step, has_dot. destruct (includes [c_dot] e.1) eqn:E; [done|]. rewrite split_char_no_sep; [done|].
  intros H%includes_single. congruence.
Qed.

Lemma expand_flat o : settings_names o → expandDotPaths o = foldl (λ r e, setDeepValue r (split_char c_dot e.1) e.2) [] (own_entries o).
Proof.
  intros [_ Hs _]. unfold expandDotPaths. cbn [expand_value].
  assert (map (λ e : jstr * json, (e.1, if has_dot e.1 then e.2 else expand_value e.2)) o = o) as ->.
  { rewrite <- (map_id o) at 2. apply map_ext_Forall. eapply Forall_impl; [exact Hs|]. intros [k v] [_ Hv]. cbn in Hv |- *.
    case_match; [done|]. by destruct v. }
  generalize (own_entries o), ([] : object). intros l. induction l as [|e l IH]; intros r; [done|]. cbn [foldl].
  by rewrite expand_step_path, IH.
Qed.

Lemma expand_leaf (done_ l : object) :
  Forall (λ e, Forall (λ s, s ≠ []) (split_char c_dot e.1) ∧ isPlainObject e.2 = false) l →
  (∀ e e', e ∈ done_ ++ l → e' ∈ done_ ++ l → split_char c_dot e.1 `prefix_of` split_char c_dot e'.1 → e.1 = e'.1) →
  NoDup (map fst (done_ ++ l)) →
  ∀ r, tidy (JObj r) → (∀ p w, leaf (JObj r) p = Some w ↔ ∃ k, (k, w) ∈ done_ ∧ p = split_char c_dot k) →
  let r' := foldl (λ r e, setDeepValue r (split_char c_dot e.1) e.2) r l in
  tidy (JObj r') ∧ ∀ p w, leaf (JObj r') p = Some w ↔ ∃ k, (k, w) ∈ done_ ++ l ∧ p = split_char c_dot k.
Proof.
  intros Hl. revert done_. induction Hl as [|[k v] l [Hk Hv] _ IH]; intros dn Hap Hnd r Hr Hleaf; cbv zeta.
  { rewrite app_nil_r. done. }
  cbn [foldl fst snd]. assert (Happ : dn ++ (k, v) :: l = (dn ++ [(k, v)]) ++ l) by by rewrite <- app_assoc.
  rewrite Happ in *. apply IH; [done|done| |].
  - apply setDeepValue_tidy; [done|by apply name_segments|done].
  - intros p w. rewrite leaf_setDeepValue by (done || apply split_char_nonempty).
    setoid_rewrite elem_of_app. setoid_rewrite list_elem_of_singleton.
    assert (Hother : ∀ k' w', (k', w') ∈ dn → k' ≠ k).
    { intros k' w' Hin ->. rewrite map_app in Hnd. apply NoDup_app in Hnd as [Hnd _]. rewrite map_app in Hnd.
      apply NoDup_app in Hnd as (_ & Hd & _). apply (Hd k); [apply list_elem_of_fmap; by exists (k, w')|by left]. }
    destruct (decide (p = split_char c_dot k)) as [->|Hp].
    + split; [intros [= ->]; exists k; by auto|]. intros (k' & [Hin|[= -> ->]] & Hs); [|done].
      exfalso. apply (Hother k' w Hin). rewrite <- (join_split_char c_dot k'), <- (join_split_char c_dot k). by rewrite Hs.
    + destruct (decide _) as [Hpre|Hpre].
      * split; [done|]. intros (k' & [Hin|[= -> ->]] & ->); [|done]. exfalso. apply (Hother k' w Hin).
        destruct Hpre as [Hpre|Hpre]; [|symmetry]; (eapply (Hap (_, _) (_, _)); [..|exact Hpre]); rewrite !elem_of_app, list_elem_of_singleton; eauto.
      * rewrite Hleaf. split; [intros (k' & Hin & ->); exists k'; by auto|]. intros (k' & [Hin|[= -> ->]] & ->); [by exists k'|done].
Qed.

(** Settings with dotted names, none of them below another, are given to
    the form as nested values, and flattening the nested values gives every
    setting back under its name, and no other name. *)
Theorem settings_expand_flatten o k :
  settings_names o → map_get (flattenValues (expandDotPaths o)) k = map_get o k.
Proof.
  intros Hn. pose proof Hn as [Hk Hs Ha]. rewrite expand_flat by done.
  destruct (expand_leaf [] (own_entries o)) with (r := [] : object) as [Ht Hl].
  - by rewrite own_entries_Permutation.
  - cbn. intros e e'. rewrite !elem_of_own_entries. apply Ha.
  - by apply own_entries_well_keyed.
  - constructor; [apply NoDup_nil_2|constructor].
  - intros p w. split; [by destruct p|]. by intros (? & ?%not_elem_of_nil & _).
  - cbn [app] in Hl. apply option_eq. intros w. rewrite flatten_get by done. split.
    + intros (segs & (k' & Hin & ->)%Hl & ->). apply map_get_elem; [done|]. apply (proj1 (elem_of_own_entries _ _)) in Hin.
      rewrite path_key_join, join_split_char; [done|]. rewrite Forall_forall in Hs. apply Hs in Hin as [Hin _]. by apply name_segments.
    + intros Hin%map_get_Some_elem. exists (split_char c_dot k). split; [apply Hl; exists k; by rewrite elem_of_own_entries|].
      rewrite path_key_join; [by rewrite join_split_char|]. rewrite Forall_forall in Hs. apply Hs in Hin as [Hin _]. by apply name_segments.
Qed.

(** ** Evaluations *)

(** A check that values are tidy, for the values at hand. *)
Definition segmentb (s : jstr) : bool := bool_decide (c_dot ∉ s) && nonempty s.

Fixpoint tidyb (v : json) : bool :=
  match v with
  | JObj o => bool_decide (NoDup (map fst o)) && forallb (λ e : jstr * json, segmentb e.1 && tidyb e.2) o
  | _ => true
  end.

Lemma segmentb_ok s : segmentb s = true → segment s.
Proof. intros [H1%bool_decide_eq_true H2]%andb_true_iff. split; [done|]. by destruct s. Qed.

Lemma tidyb_ok v : tidyb v = true → tidy v.
Proof.
  induction v as [|b|x|s|l IH|o IH] using json_nested_ind; try by constructor 2.
  cbn [tidyb]. intros [Hk Ho]%andb_true_iff. apply bool_decide_eq_true in Hk. rewrite forallb_forall in Ho. rewrite Forall_forall in IH.
  constructor; [exact Hk|]. apply Forall_forall. intros e He. pose proof (Ho e (proj1 (list_elem_of_In _ _) He)) as [H1 H2]%andb_true_iff.
  split; [by apply segmentb_ok|by apply IH].
Qed.

Definition sample_marks : list (jstr * Dirty) :=
  [(js "quota", DirtyFields [(js "user", DirtyFlag true)]); (js "Notice", DirtyFlag true)].

Lemma sample_marks_tidy : tidy_marks (DirtyFields sample_marks).
Proof.
  constructor; [apply (bool_decide_unpack _); vm_compute; reflexivity|]. constructor; [|constructor; [|constructor]].
  - split; [by apply segmentb_ok; vm_compute|]. constructor; [apply (bool_decide_unpack _); vm_compute; reflexivity|].
    constructor; [|constructor]. split; [by apply segmentb_ok; vm_compute|constructor].
  - split; [by apply segmentb_ok; vm_compute|constructor].
Qed.

Lemma settings_submit_spec_witness :
  let old := expandDotPaths sample_settings in
  let data := expandDotPaths [entry "Notice" (str "hi"); entry "quota.user" (num 6)] in
  let r := handleSubmit (DirtyFields sample_marks) data true (mount_form sample_settings) in
  let differs segs := defaultCompare (value_at (Some (JObj data)) segs) (leaf (JObj old) segs) = false in
  match r.1 with
  | Some changed =>
      (∀ k x, map_get changed k = Some x ↔
         ∃ segs, marked (DirtyFields sample_marks) segs = true ∧ differs segs ∧ k = path_key [] segs
                 ∧ x = value_at (Some (JObj data)) segs)
      ∧ (∃ segs, marked (DirtyFields sample_marks) segs = true ∧ differs segs)
      ∧ saved_form r.2 data
  | None => (∀ segs, marked (DirtyFields sample_marks) segs = true → ¬ differs segs) ∧ r.2 = mount_form sample_settings
  end.
Proof.
  apply (settings_submit_spec (mount_form sample_settings) (expandDotPaths sample_settings) sample_marks _ true).
  - reflexivity.
  - apply tidyb_ok. vm_compute. reflexivity.
  - exact sample_marks_tidy.
Defined.

Lemma settings_expand_flatten_witness :
  map_get (flattenValues (expandDotPaths sample_settings)) (js "quota.group.vip") = map_get sample_settings (js "quota.group.vip").
Proof.
  apply settings_expand_flatten. split.
  - apply (bool_decide_unpack _). vm_compute. reflexivity.
  - apply (bool_decide_unpack _). vm_compute. reflexivity.
  - intros e e' He He' Hp. apply list_elem_of_In in He, He'.
    assert (H : forallb (λ e, forallb (λ e', negb (bool_decide (split_char c_dot e.1 `prefix_of` split_char c_dot e'.1))
      || bool_decide (e.1 = e'.1)) sample_settings) sample_settings = true) by (vm_compute; reflexivity).
    rewrite forallb_forall in H. specialize (H e He). rewrite forallb_forall in H. specialize (H e' He').
    rewrite (bool_decide_eq_true_2 _ Hp) in H. by apply bool_decide_eq_true in H.
Defined.

(** A name below another: only one of the two settings is left. *)
Lemma name_below_another :
  flattenValues (expandDotPaths [entry "theme" (str "dark"); entry "theme.accent" (str "red")]) = [entry "theme.accent" (str "red")].
Proof. by_eval. Qed.
