(* ===== verification/TableUrl.v ===== *)
(** * Tables: filters and pages in the address

    Model of [hooks/use-table-url-state.ts], the hook behind every table of
    the console, with the search schemas of three routes. The address holds the
    page, the page size, the text of the global filter and the filters of the
    columns; the hook reads them from it, keeps the filters as state beside it
    and navigates when one of them changes.

    The router hands the hook the search that the schema of the route makes of
    what was navigated to; a property that is [undefined] is absent from it.
    Whether a search with the same properties is a new object is left open:
    the effect on [search] runs exactly when it is. Page numbers and sizes are
    integers; a value of another kind than a number, a text or an array is
    kept as it is. *)

From Stdlib Require Import String.
From S2P Require Import JsJson JsObject.

(** ** Searches *)

Inductive value := VNumber (n : Z) | VString (s : jstr) | VArray (l : list json) | VOther (v : json).

Abbreviation SearchRecord := (list (jstr * value)).

(** What a navigation writes over the search: [None] is [undefined]. *)
Definition patch_property (o : SearchRecord) (e : jstr * option value) : SearchRecord :=
  match e.2 with Some v => map_set o e.1 v | None => map_delete o e.1 end.

Definition patch_search (o : SearchRecord) (patch : list (jstr * option value)) : SearchRecord :=
  foldl patch_property o patch.

(** ** The schema of a route *)

(** [z.number()], [z.string()], [z.array(z.string())] or [z.array(z.enum(l))],
    and the union of an array and a text that stands for one entry. *)
Inductive FieldKind := FNumber | FString | FStrings (allowed : option (list jstr)) | FStringsOrOne.

(** [kind.optional().catch(caught)] *)
Record Field := { fd_kind : FieldKind; fd_catch : value }.

Definition entry_ok (allowed : option (list jstr)) (v : json) : bool :=
  match v with
  | JStr s => match allowed with Some l => bool_decide (s ∈ l) | None => true end
  | _ => false
  end.

(** The value of a kind, or [None] where it is refused. *)
Definition parse_kind (k : FieldKind) (v : value) : option value :=
  match k, v with
  | FNumber, VNumber _ => Some v
  | FString, VString _ => Some v
  | FStrings allowed, VArray l => if forallb (entry_ok allowed) l then Some v else None
  | FStringsOrOne, VArray l => if forallb (entry_ok None) l then Some v else None
  | FStringsOrOne, VString s => Some (VArray (if nonempty s then [JStr s] else []))
  | _, _ => None
  end.

Definition parse_field (f : Field) (v : option value) : option value :=
  match v with Some v => Some (default (fd_catch f) (parse_kind (fd_kind f) v)) | None => None end.

Abbreviation Schema := (list (jstr * Field)).

Definition validateSearch (schema : Schema) (o : SearchRecord) : SearchRecord :=
  omap (λ e : jstr * Field, option_map (pair e.1) (parse_field e.2 (map_get o e.1))) schema.

Definition schema (l : list (string * FieldKind * value)) : Schema :=
  map (λ e : string * FieldKind * value, (js e.1.1, {| fd_kind := e.1.2; fd_catch := e.2 |})) l.

Definition channelsSearchSchema : Schema := schema
  [("page", FNumber, VNumber 1); ("pageSize", FNumber, VNumber 10); ("filter", FString, VString []);
   ("status", FStrings None, VArray []); ("type", FStrings None, VArray []); ("group", FStrings None, VArray []);
   ("model", FString, VString [])]%string.

Definition modelsSearchSchema : Schema := schema
  [("page", FNumber, VNumber 1); ("pageSize", FNumber, VNumber 10); ("filter", FString, VString []);
   ("vendor", FStrings None, VArray []); ("status", FStrings None, VArray []); ("sync", FStrings None, VArray []);
   ("dPage", FNumber, VNumber 1); ("dPageSize", FNumber, VNumber 10); ("dFilter", FString, VString []);
   ("dStatus", FStrings None, VArray [])]%string.

Definition usersSearchSchema : Schema := schema
  [("page", FNumber, VNumber 1); ("pageSize", FNumber, VNumber 10); ("filter", FString, VString []);
   ("status", FStrings (Some (map js ["1"; "2"])), VArray []);
   ("role", FStrings (Some (map js ["1"; "5"; "10"; "100"])), VArray []);
   ("group", FStringsOrOne, VArray [])]%string.

(** ** The parameters of the hook *)

Inductive ColumnType := TString | TArray.

Record Column := {
  columnId : jstr;
  searchKey : jstr;
  columnType : option ColumnType;
  serialize : option (value → value);
  deserialize : option (option value → option value);
}.

Record UseTableUrlStateParams := {
  p_pageKey : option jstr; p_pageSizeKey : option jstr;
  p_defaultPage : option Z; p_defaultPageSize : option Z;
  p_globalFilterEnabled : option bool; p_globalFilterKey : option jstr; p_globalFilterTrim : option bool;
  p_columnFilters : list Column;
}.

Section Table.
Context (params : UseTableUrlStateParams) (routeSchema : Schema).

Definition pageKey : jstr := default (js "page") (p_pageKey params).
Definition pageSizeKey : jstr := default (js "pageSize") (p_pageSizeKey params).
Definition defaultPage : Z := default 1 (p_defaultPage params).
Definition defaultPageSize : Z := default 20 (p_defaultPageSize params).
Definition globalFilterKey : jstr := default (js "filter") (p_globalFilterKey params).
Definition globalFilterEnabled : bool := default true (p_globalFilterEnabled params).
Definition trimGlobal : bool := default true (p_globalFilterTrim params).

(** ** Reading the address *)

Abbreviation ColumnFilters := (list (jstr * value)).

Definition is_string_column (c : Column) : bool := match columnType c with Some TString => true | _ => false end.

(** A value that filters: a text that is not blank, or an array that is not empty. *)
Definition filtering (c : Column) (v : option value) : option value :=
  if is_string_column c then
    match v with Some (VString s) => if nonempty (trim s) then Some (VString s) else None | _ => None end
  else
    match v with Some (VArray l) => if nonempty l then Some (VArray l) else None | _ => None end.

Definition read_column (c : Column) (search : SearchRecord) : option value :=
  filtering c (default id (deserialize c) (map_get search (searchKey c))).

Definition initialColumnFilters (search : SearchRecord) : ColumnFilters :=
  omap (λ c, option_map (pair (columnId c)) (read_column c search)) (p_columnFilters params).

Definition number_or (v : option value) (d : Z) : Z := match v with Some (VNumber n) => n | _ => d end.

Definition page_number (search : SearchRecord) : Z := number_or (map_get search pageKey) defaultPage.

Record PaginationState := { pageIndex : Z; pageSize : Z }.

Definition pagination (search : SearchRecord) : PaginationState :=
  {| pageIndex := Z.max 0 (page_number search - 1);
     pageSize := number_or (map_get search pageSizeKey) defaultPageSize |}.

Definition initialGlobalFilter (search : SearchRecord) : option jstr :=
  if globalFilterEnabled then
    Some (match map_get search globalFilterKey with Some (VString s) => s | _ => [] end)
  else None.

(** ** The state *)

Record UrlTable := {
  ut_search : SearchRecord;
  ut_columnFilters : ColumnFilters;
  ut_globalFilter : option jstr;
}.

(** The first render at an address. *)
Definition mount (o : SearchRecord) : UrlTable :=
  let search := validateSearch routeSchema o in
  {| ut_search := search; ut_columnFilters := initialColumnFilters search; ut_globalFilter := initialGlobalFilter search |}.

(** The render after a navigation; the effect takes the filters of a search that is a new object. *)
Definition arrive (renewed : bool) (next : SearchRecord) (filters : ColumnFilters) (global : option jstr) (s : UrlTable)
    : UrlTable :=
  if renewed then {| ut_search := next; ut_columnFilters := initialColumnFilters next; ut_globalFilter := global |}
  else {| ut_search := ut_search s; ut_columnFilters := filters; ut_globalFilter := global |}.

Definition navigated (patch : list (jstr * option value)) (s : UrlTable) : SearchRecord :=
  validateSearch routeSchema (patch_search (ut_search s) patch).

(** ** What a change navigates to *)

Definition page_patch (next : PaginationState) : list (jstr * option value) :=
  let nextPage := pageIndex next + 1 in
  [(pageKey, if nextPage <=? defaultPage then None else Some (VNumber nextPage));
   (pageSizeKey, if pageSize next =? defaultPageSize then None else Some (VNumber (pageSize next)))].

Definition global_value (next : jstr) : jstr := if trimGlobal then trim next else next.

Definition global_patch (v : jstr) : list (jstr * option value) :=
  [(pageKey, None); (globalFilterKey, if nonempty v then Some (VString v) else None)].

(** [next.find((f) => f.id === cfg.columnId)?.value], where it filters *)
Definition found_filter (c : Column) (next : ColumnFilters) : option value := filtering c (map_get next (columnId c)).

Definition written_column (c : Column) (next : ColumnFilters) : option value :=
  option_map (default id (serialize c)) (found_filter c next).

Definition columns_patch (next : ColumnFilters) : list (jstr * option value) :=
  (pageKey, None) :: map (λ c, (searchKey c, written_column c next)) (p_columnFilters params).

(** The page to go to when there are fewer pages, if any. *)
Definition range_patch (pageCount : Z) (toLast : bool) (search : SearchRecord) : option (list (jstr * option value)) :=
  if (0 <? pageCount) && (pageCount <? page_number search)
  then Some [(pageKey, if toLast then Some (VNumber pageCount) else None)] else None.

(** ** Events *)

(** The updaters of the table library, a visit of another address of the route, and a count of pages. *)
Inductive UrlEvent :=
| PaginationChange (updater : PaginationState → PaginationState)
| GlobalFilterChange (updater : jstr → jstr)
| ColumnFiltersChange (updater : ColumnFilters → ColumnFilters)
| EnsurePageInRange (pageCount : Z) (toLast : bool)
| Visit (o : SearchRecord).

(** Where an event navigates to, with the filters and the text it sets. *)
Definition onPaginationChange (updater : PaginationState → PaginationState) (s : UrlTable) : SearchRecord :=
  navigated (page_patch (updater (pagination (ut_search s)))) s.

Definition onGlobalFilterChange (updater : jstr → jstr) (s : UrlTable) : option (SearchRecord * jstr) :=
  if globalFilterEnabled then
    let v := global_value (updater (default [] (ut_globalFilter s))) in Some (navigated (global_patch v) s, v)
  else None.

Definition onColumnFiltersChange (updater : ColumnFilters → ColumnFilters) (s : UrlTable) : SearchRecord * ColumnFilters :=
  let next := updater (ut_columnFilters s) in (navigated (columns_patch next) s, next).

Definition ensurePageInRange (pageCount : Z) (toLast : bool) (s : UrlTable) : option SearchRecord :=
  option_map (λ p, navigated p s) (range_patch pageCount toLast (ut_search s)).

(** The next address, and the filters and the text if the effect does not run. *)
Definition url_target (e : UrlEvent) (s : UrlTable) : option (SearchRecord * ColumnFilters * option jstr) :=
  match e with
  | PaginationChange updater => Some (onPaginationChange updater s, ut_columnFilters s, ut_globalFilter s)
  | GlobalFilterChange updater =>
      option_map (λ t : SearchRecord * jstr, (t.1, ut_columnFilters s, Some t.2)) (onGlobalFilterChange updater s)
  | ColumnFiltersChange updater =>
      let t := onColumnFiltersChange updater s in Some (t.1, t.2, ut_globalFilter s)
  | EnsurePageInRange n toLast => option_map (λ t, (t, ut_columnFilters s, ut_globalFilter s)) (ensurePageInRange n toLast s)
  | Visit o => Some (validateSearch routeSchema o, ut_columnFilters s, ut_globalFilter s)
  end.

(** Searches with the same properties. *)
Definition same_search (a b : SearchRecord) : Prop := ∀ k, map_get a k = map_get b k.

Inductive url_step : UrlTable → UrlEvent → UrlTable → Prop :=
| url_stays s e : url_target e s = None → url_step s e s
| url_goes s e t renewed :
    url_target e s = Some t → (renewed = false → same_search t.1.1 (ut_search s)) →
    url_step s e (arrive renewed t.1.1 t.1.2 t.2 s).

Inductive url_run : UrlTable → list UrlEvent → UrlTable → Prop :=
| url_run_nil s : url_run s [] s
| url_run_cons s e s1 l s2 : url_step s e s1 → url_run s1 l s2 → url_run s (e :: l) s2.

(** What the hook returns. *)
Definition shown_global (s : UrlTable) : option jstr :=
  if globalFilterEnabled then Some (default [] (ut_globalFilter s)) else None.
End Table.

(** ** The tables of the console *)

Definition column (id key : string) (t : ColumnType) : Column :=
  {| columnId := js id; searchKey := js key; columnType := Some t; serialize := None; deserialize := None |}.

Definition channels_table (isMobile : bool) : UseTableUrlStateParams :=
  {| p_pageKey := None; p_pageSizeKey := None; p_defaultPage := Some 1;
     p_defaultPageSize := Some (if isMobile then 10 else 20);
     p_globalFilterEnabled := Some true; p_globalFilterKey := Some (js "filter"); p_globalFilterTrim := None;
     p_columnFilters := [column "status" "status" TArray; column "type" "type" TArray; column "group" "group" TArray;
                         column "model" "model" TString] |}.

Definition models_table (isMobile : bool) : UseTableUrlStateParams :=
  {| p_pageKey := None; p_pageSizeKey := None; p_defaultPage := Some 1;
     p_defaultPageSize := Some (if isMobile then 10 else 20);
     p_globalFilterEnabled := Some true; p_globalFilterKey := Some (js "filter"); p_globalFilterTrim := None;
     p_columnFilters := [column "status" "status" TArray; column "vendor_id" "vendor" TArray;
                         column "sync_official" "sync" TArray] |}.

Definition deployments_table (isMobile : bool) : UseTableUrlStateParams :=
  {| p_pageKey := Some (js "dPage"); p_pageSizeKey := Some (js "dPageSize"); p_defaultPage := Some 1;
     p_defaultPageSize := Some (if isMobile then 8 else 10);
     p_globalFilterEnabled := Some true; p_globalFilterKey := Some (js "dFilter"); p_globalFilterTrim := None;
     p_columnFilters := [column "status" "dStatus" TArray] |}.

Definition users_table (isMobile : bool) : UseTableUrlStateParams :=
  {| p_pageKey := None; p_pageSizeKey := None; p_defaultPage := Some 1;
     p_defaultPageSize := Some (if isMobile then 10 else 20);
     p_globalFilterEnabled := Some true; p_globalFilterKey := Some (js "filter"); p_globalFilterTrim := None;
     p_columnFilters := [column "status" "status" TArray; column "role" "role" TArray; column "group" "group" TArray] |}.

(** ** Evaluations *)

Definition sample_search : SearchRecord :=
  [(js "page", VNumber 4); (js "status", VArray [JStr (js "1")]); (js "model", VString (js " gpt ")); (js "type", VString (js "x"))].

Example url_sample :
  let p := channels_table false in
  let s := mount p channelsSearchSchema sample_search in
  pageIndex (pagination p (ut_search s)) = 3
  ∧ ut_columnFilters s = [(js "status", VArray [JStr (js "1")]); (js "model", VString (js " gpt "))]
  ∧ pagination p (onColumnFiltersChange p channelsSearchSchema (λ _, []) s).1 = {| pageIndex := 0; pageSize := 20 |}
  ∧ ensurePageInRange p channelsSearchSchema 3 true s
    = Some [(js "page", VNumber 3); (js "status", VArray [JStr (js "1")]); (js "type", VArray []); (js "model", VString (js " gpt "))].
Proof. split_and!; by_eval. Qed.
