(* ===== verification/TableUrlProps.v ===== *)
(** * Tables: the address is what is shown

    The filters a table keeps as state are the ones of its address, whatever
    the operator and the router do, and every change of the hook is the change
    of an abstract table with a page, a text and a filter per column. *)

From Stdlib Require Import String.
From S2P Require Import JsJson JsObject TableUrl.

#[local] Opaque js.

(** ** Searches *)

Lemma map_get_omap {V W} (f : jstr * V → option W) (l : list (jstr * V)) k :
  well_keyed l →
  map_get (omap (λ e, option_map (pair e.1) (f e)) l) k = match map_get l k with Some v => f (k, v) | None => None end.
Proof.
  unfold well_keyed. induction l as [|[k' v] l IH]; [done|]. cbn [map fst]. intros [Hn Hk]%NoDup_cons.
  specialize (IH Hk). cbn [map_get]. change (omap ?g ((k', v) :: l)) with (match g (k', v) with Some w => w :: omap g l | None => omap g l end).
  cbn beta. cbn [fst]. case_decide as E.
  - subst k'. destruct (f (k, v)); cbn [option_map map_get]; [by rewrite decide_True|]. rewrite IH. apply map_get_None in Hn. by rewrite Hn.
  - destruct (f (k', v)); cbn [option_map map_get]; [by rewrite decide_False|done].
Qed.

Lemma map_get_validate sch o k :
  well_keyed sch →
  map_get (validateSearch sch o) k = match map_get sch k with Some f => parse_field f (map_get o k) | None => None end.
Proof. intros Hk. unfold validateSearch. by rewrite (map_get_omap (λ e, parse_field e.2 (map_get o e.1))). Qed.

Lemma map_get_patch o patch k :
  well_keyed patch → map_get (patch_search o patch) k = match map_get patch k with Some r => r | None => map_get o k end.
Proof.
  unfold well_keyed, patch_search. revert o. induction patch as [|[k' r] l IH]; intros o; [done|]. cbn [map fst].
  intros [Hn Hk]%NoDup_cons. cbn [foldl map_get]. rewrite IH by done. unfold patch_property. cbn [fst snd]. case_decide as E.
  - subst k'. apply map_get_None in Hn as ->. destruct r; [by rewrite map_get_set_eq|by rewrite map_get_delete_eq].
  - destruct (map_get l k); [done|]. destruct r; [by rewrite map_get_set_ne|by rewrite map_get_delete_ne].
Qed.

(** A schema whose own values are of their kind. *)
Definition sound_field (f : Field) : Prop := parse_kind (fd_kind f) (fd_catch f) = Some (fd_catch f).

Lemma parse_kind_idemp k v w : parse_kind k v = Some w → parse_kind k w = Some w.
Proof.
  destruct k, v; cbn; try done; try (by intros [= <-]).
  - destruct (forallb (entry_ok allowed) l) eqn:E; [|done]. intros [= <-]. by rewrite E.
  - intros [= <-]. by destruct s.
  - destruct (forallb (entry_ok None) l) eqn:E; [|done]. intros [= <-]. by rewrite E.
Qed.

Lemma parse_field_idemp f v : sound_field f → parse_field f (parse_field f v) = parse_field f v.
Proof.
  intros Hf. destruct v as [v|]; [|done]. cbn. f_equal. destruct (parse_kind (fd_kind f) v) eqn:E; cbn.
  - by rewrite (parse_kind_idemp _ _ _ E).
  - by rewrite Hf.
Qed.

Lemma parse_field_number f v : fd_kind f = FNumber → sound_field f → v = None ∨ (∃ n, v = Some (VNumber n)) →
  parse_field f v = v.
Proof. intros Hk _ [->|[n ->]]; [done|]. cbn. by rewrite Hk. Qed.

(** ** Tables that fit their route *)

Definition lawful (c : Column) : Prop :=
  filtering c (default id (deserialize c) None) = None
  ∧ ∀ v, filtering c (Some v) = Some v →
      filtering c (default id (deserialize c) (Some (default id (serialize c) v))) = Some v.

Lemma filtering_idemp c v w : filtering c v = Some w → filtering c (Some w) = Some w.
Proof.
  unfold filtering. destruct (is_string_column c), v as [[]|]; try done.
  - destruct (nonempty (trim s)) eqn:E; [|done]. intros [= <-]. by rewrite E.
  - destruct (nonempty l) eqn:E; [|done]. intros [= <-]. by rewrite E.
Qed.

Lemma filtering_twice c v : filtering c (filtering c v) = filtering c v.
Proof.
  destruct (filtering c v) eqn:E; [by apply (filtering_idemp _ v)|]. unfold filtering. by destruct (is_string_column c).
Qed.

Lemma plain_lawful c : serialize c = None → deserialize c = None → lawful c.
Proof. intros Hs Hd. unfold lawful. rewrite Hs, Hd. cbn [default from_option]. unfold id. split; [|done]. unfold filtering. by destruct (is_string_column c). Qed.

Definition table_keys (p : UseTableUrlStateParams) : list jstr :=
  pageKey p :: pageSizeKey p :: globalFilterKey p :: map searchKey (p_columnFilters p).

(** What a route promises the hook. *)
Class TableFits (p : UseTableUrlStateParams) (sch : Schema) : Prop := {
  fits_keys : NoDup (table_keys p);
  fits_ids : NoDup (map columnId (p_columnFilters p));
  fits_first : defaultPage p = 1;
  fits_schema : well_keyed sch;
  fits_sound : Forall (λ e, sound_field e.2) sch;
  fits_page : option_map fd_kind (map_get sch (pageKey p)) = Some FNumber;
  fits_page_size : option_map fd_kind (map_get sch (pageSizeKey p)) = Some FNumber;
  fits_global : option_map fd_kind (map_get sch (globalFilterKey p)) = Some FString;
  fits_columns : Forall lawful (p_columnFilters p);
}.

Ltac solve_fits :=
  split; [apply (bool_decide_unpack _); vm_compute; reflexivity
         |apply (bool_decide_unpack _); vm_compute; reflexivity
         |reflexivity
         |apply (bool_decide_unpack _); vm_compute; reflexivity
         |repeat constructor|vm_compute; reflexivity|vm_compute; reflexivity|vm_compute; reflexivity
         |repeat (constructor; [by apply plain_lawful|]); constructor].

#[export] Instance channels_fit b : TableFits (channels_table b) channelsSearchSchema.
Proof. destruct b; solve_fits. Qed.
#[export] Instance models_fit b : TableFits (models_table b) modelsSearchSchema.
Proof. destruct b; solve_fits. Qed.
#[export] Instance deployments_fit b : TableFits (deployments_table b) modelsSearchSchema.
Proof. destruct b; solve_fits. Qed.
#[export] Instance users_fit b : TableFits (users_table b) usersSearchSchema.
Proof. destruct b; solve_fits. Qed.

Lemma NoDup_pair {A} (a b : A) : a ≠ b → NoDup [a; b].
Proof. intros H. apply NoDup_cons. split; [by rewrite list_elem_of_singleton|apply NoDup_singleton]. Qed.

Lemma one_keyed (k : jstr) (r : option value) : well_keyed [(k, r)].
Proof. apply NoDup_singleton. Qed.

Section Fits.
Context {p : UseTableUrlStateParams} {sch : Schema} `{!TableFits p sch}.

Abbreviation validate := (validateSearch sch).

Lemma sound_at k f : map_get sch k = Some f → sound_field f.
Proof. intros H%map_get_Some_elem. pose proof (fits_sound (p := p)) as Hs. rewrite Forall_forall in Hs. exact (Hs _ H). Qed.

Lemma map_get_valid o k :
  map_get (validate o) k = match map_get sch k with Some f => parse_field f (map_get o k) | None => None end.
Proof. apply map_get_validate, (fits_schema (p := p)). Qed.

(** A search that came through the schema is one that it leaves alone. *)
Definition validated (o : SearchRecord) : Prop := same_search (validate o) o.

Lemma validate_validated o : validated (validate o).
Proof.
  intros k. rewrite !map_get_valid. destruct (map_get sch k) as [f|] eqn:E; [|done].
  by apply parse_field_idemp, (sound_at k).
Qed.

Lemma same_validated a b : same_search a b → validated a → validated b.
Proof.
  intros Hs Ha k. specialize (Ha k). rewrite map_get_valid in *. by rewrite <- !(Hs k).
Qed.

Lemma read_same c a b : same_search a b → read_column c a = read_column c b.
Proof. intros H. unfold read_column. by rewrite (H (searchKey c)). Qed.

Lemma pagination_same a b : same_search a b → pagination p a = pagination p b.
Proof. intros H. unfold pagination, page_number. by rewrite !H. Qed.

(** ** Filters read from a search *)

Lemma map_get_initial (cols : list Column) o c :
  NoDup (map columnId cols) → c ∈ cols →
  map_get (omap (λ c, option_map (pair (columnId c)) (read_column c o)) cols) (columnId c) = read_column c o.
Proof.
  induction cols as [|d cols IH]; [by intros _ ?%elem_of_nil|]. cbn [map]. intros [Hn Hnd]%NoDup_cons Hc.
  change (omap ?g (d :: cols)) with (match g d with Some w => w :: omap g cols | None => omap g cols end). cbn beta.
  apply elem_of_cons in Hc as [->|Hc].
  - destruct (read_column d o); cbn [option_map map_get]; [by rewrite decide_True|]. apply map_get_None. intros Hin. apply Hn.
    apply list_elem_of_fmap in Hin as (e & -> & He). apply list_elem_of_omap in He as (d' & Hd' & He).
    destruct (read_column d' o); [|done]. injection He as <-. cbn. by apply (list_elem_of_fmap_2 columnId).
  - assert (columnId d ≠ columnId c) by (intros E; apply Hn; rewrite E; by apply (list_elem_of_fmap_2 columnId)).
    destruct (read_column d o); cbn [option_map map_get]; [rewrite decide_False by done|]; by apply IH.
Qed.

Lemma found_initial o c : c ∈ p_columnFilters p → found_filter c (initialColumnFilters p o) = read_column c o.
Proof.
  intros Hc. unfold found_filter, initialColumnFilters. rewrite map_get_initial by (done || apply fits_ids).
  apply filtering_twice.
Qed.

(** ** The patches *)

Lemma keys_distinct : pageKey p ≠ pageSizeKey p ∧ pageKey p ≠ globalFilterKey p ∧ pageSizeKey p ≠ globalFilterKey p
  ∧ NoDup (map searchKey (p_columnFilters p)).
Proof.
  pose proof fits_keys as H. unfold table_keys in H. rewrite !NoDup_cons, !not_elem_of_cons in H. naive_solver.
Qed.

Lemma column_key c : c ∈ p_columnFilters p →
  searchKey c ≠ pageKey p ∧ searchKey c ≠ pageSizeKey p ∧ searchKey c ≠ globalFilterKey p.
Proof.
  intros Hc%(list_elem_of_fmap_2 searchKey). pose proof fits_keys as H. unfold table_keys in H.
  rewrite !NoDup_cons, !not_elem_of_cons in H. split_and!; intros E; rewrite E in Hc; naive_solver.
Qed.

Lemma page_patch_keyed n : well_keyed (page_patch p n).
Proof. destruct keys_distinct as (? & _). by apply NoDup_pair. Qed.

Lemma global_patch_keyed v : well_keyed (global_patch p v).
Proof. destruct keys_distinct as (_ & ? & _). by apply NoDup_pair. Qed.

Lemma columns_patch_keyed next : well_keyed (columns_patch p next).
Proof.
  unfold well_keyed, columns_patch. cbn [map fst]. rewrite map_map. cbn [fst]. rewrite NoDup_cons. split; [|apply keys_distinct].
  intros (c & E & Hc)%list_elem_of_fmap. destruct (column_key c Hc). congruence.
Qed.

Lemma map_get_columns_patch next c :
  c ∈ p_columnFilters p → map_get (columns_patch p next) (searchKey c) = Some (written_column c next).
Proof.
  intros Hc. apply map_get_elem; [apply columns_patch_keyed|]. right. apply list_elem_of_fmap. by exists c.
Qed.

Lemma map_get_navigated patch s k :
  well_keyed patch →
  map_get (navigated sch patch s) k
  = match map_get sch k with
    | Some f => parse_field f (match map_get patch k with Some r => r | None => map_get (ut_search s) k end)
    | None => None
    end.
Proof. intros Hp. unfold navigated. rewrite map_get_valid. destruct (map_get sch k); [|done]. by rewrite map_get_patch. Qed.

(** A key the patch leaves alone keeps its value. *)
Lemma navigated_frame patch s k :
  well_keyed patch → validated (ut_search s) → map_get patch k = None →
  map_get (navigated sch patch s) k = map_get (ut_search s) k.
Proof. intros Hp Hv Hn. rewrite map_get_navigated, Hn by done. specialize (Hv k). by rewrite map_get_valid in Hv. Qed.

(** A value of the kind of its key is what the address then has. *)
Definition fits_value (k : jstr) (r : option value) : Prop :=
  match r with
  | None => True
  | Some w => ∃ f, map_get sch k = Some f ∧ parse_kind (fd_kind f) w = Some w
  end.

Lemma navigated_written patch s k r :
  well_keyed patch → map_get patch k = Some r → fits_value k r → map_get (navigated sch patch s) k = r.
Proof.
  intros Hp Hk Hr. rewrite map_get_navigated, Hk by done. destruct r as [w|]; cbn in Hr.
  - destruct Hr as (f & -> & Hw). cbn. by rewrite Hw.
  - by destruct (map_get sch k).
Qed.

Lemma number_fits k n : option_map fd_kind (map_get sch k) = Some FNumber → fits_value k (Some (VNumber n)).
Proof. intros H. cbn. destruct (map_get sch k) as [f|]; [|done]. injection H as H. exists f. by rewrite H. Qed.

(** ** The filters of the state are those of the address *)

Definition url_ok (s : UrlTable) : Prop :=
  validated (ut_search s) ∧ Forall (λ c, found_filter c (ut_columnFilters s) = read_column c (ut_search s)) (p_columnFilters p).

Definition no_visit (e : UrlEvent) : Prop := match e with Visit _ => False | _ => True end.

(** The text that is shown is the one of the address. *)
Definition text_ok (s : UrlTable) : Prop := shown_global p s = initialGlobalFilter p (ut_search s).

Lemma table_mount_ok o : url_ok (mount p sch o).
Proof. split; [apply validate_validated|]. apply Forall_forall. intros c Hc. by apply found_initial. Qed.

Lemma read_written c w : lawful c →
  filtering c (default id (deserialize c) (option_map (default id (serialize c)) (filtering c w))) = filtering c w.
Proof.
  intros [Hn Hs]. destruct (filtering c w) as [v|] eqn:E; cbn [option_map]; [|done].
  apply Hs. by apply (filtering_idemp _ w).
Qed.

Lemma column_lawful c : c ∈ p_columnFilters p → lawful c.
Proof. pose proof (fits_columns (p := p)) as H. rewrite Forall_forall in H. apply H. Qed.

(** Where a navigation leads, and what is read from it. *)
Lemma arrive_ok renewed next fs g s :
  validated next → (renewed = false → same_search next (ut_search s)) →
  (renewed = false → Forall (λ c, found_filter c fs = read_column c next) (p_columnFilters p)) →
  url_ok (arrive p renewed next fs g s) ∧ same_search next (ut_search (arrive p renewed next fs g s)).
Proof.
  intros Hv Hs Hf. destruct renewed; cbn.
  - split; [|done]. split; [done|]. apply Forall_forall. intros c Hc. by apply found_initial.
  - specialize (Hs eq_refl). specialize (Hf eq_refl). split; [|done]. split; [by apply (same_validated next)|].
    eapply Forall_impl; [exact Hf|]. intros c Hc. cbn. rewrite Hc. by apply read_same.
Qed.

Lemma same_page_patch patch s :
  well_keyed patch → validated (ut_search s) → map_get patch (pageSizeKey p) = None → map_get patch (pageKey p) = Some None →
  pagination p (navigated sch patch s) = {| pageIndex := 0; pageSize := pageSize (pagination p (ut_search s)) |}.
Proof.
  intros Hk Hv Hz Hp. unfold pagination, page_number. rewrite (navigated_frame patch s _ Hk Hv Hz).
  rewrite (navigated_written patch s _ None Hk Hp) by done. cbn [number_or]. pose proof (fits_first (p := p)) as ->. done.
Qed.

Lemma same_filter patch s c :
  well_keyed patch → validated (ut_search s) → map_get patch (searchKey c) = None →
  read_column c (navigated sch patch s) = read_column c (ut_search s).
Proof. intros Hk Hv Hn. unfold read_column. by rewrite (navigated_frame patch s _ Hk Hv Hn). Qed.

Lemma same_text patch s :
  well_keyed patch → validated (ut_search s) → map_get patch (globalFilterKey p) = None →
  initialGlobalFilter p (navigated sch patch s) = initialGlobalFilter p (ut_search s).
Proof. intros Hk Hv Hn. unfold initialGlobalFilter. by rewrite (navigated_frame patch s _ Hk Hv Hn). Qed.

Lemma read_columns_patch next s c :
  c ∈ p_columnFilters p → fits_value (searchKey c) (written_column c next) →
  read_column c (navigated sch (columns_patch p next) s) = found_filter c next.
Proof.
  intros Hc Hw. unfold read_column.
  rewrite (navigated_written _ s _ _ (columns_patch_keyed next) (map_get_columns_patch next c Hc) Hw).
  unfold written_column, found_filter. apply read_written. by apply column_lawful.
Qed.

(** *** The filters when the address stays the same *)

Lemma patch_without_page k (r : option value) : k ≠ pageKey p → map_get [(pageKey p, r)] k = None.
Proof. intros H. cbn. by rewrite decide_False. Qed.

Lemma columns_patch_frame next k : k ≠ pageKey p → k ∉ map searchKey (p_columnFilters p) → map_get (columns_patch p next) k = None.
Proof.
  intros Hp Hk. apply map_get_None. unfold columns_patch. cbn [map fst]. rewrite map_map. cbn [fst]. by apply not_elem_of_cons.
Qed.

Lemma table_key_not_column k : k = pageSizeKey p ∨ k = globalFilterKey p → k ≠ pageKey p ∧ k ∉ map searchKey (p_columnFilters p).
Proof.
  intros Hk. destruct keys_distinct as (H1 & H2 & _). split; [by destruct Hk; subst|].
  intros (c & E & Hc)%list_elem_of_fmap. destruct (column_key c Hc) as (_ & ? & ?). destruct Hk; congruence.
Qed.

(** ** Runs *)

(** What the table offers: pages from the first on, and values its route accepts. *)
Definition event_fits (e : UrlEvent) (s : UrlTable) : Prop :=
  match e with
  | PaginationChange updater => 0 ≤ pageIndex (updater (pagination p (ut_search s)))
  | ColumnFiltersChange updater =>
      Forall (λ c, fits_value (searchKey c) (written_column c (updater (ut_columnFilters s)))) (p_columnFilters p)
  | _ => True
  end.

Inductive fitting_run : UrlTable → list UrlEvent → UrlTable → Prop :=
| fitting_nil s : fitting_run s [] s
| fitting_cons s e s1 l s2 :
    event_fits e s → url_step p sch s e s1 → fitting_run s1 l s2 → fitting_run s (e :: l) s2.

Lemma page_patch_written x s :
  validated (ut_search s) → 0 ≤ pageIndex x → pagination p (navigated sch (page_patch p x) s) = x.
Proof.
  intros Hv Hx. unfold pagination, page_number. destruct x as [i n]. cbn [pageIndex] in Hx.
  pose proof (fits_first (p := p)) as Hd. destruct keys_distinct as (Hk & _).
  erewrite (navigated_written _ s (pageKey p)), (navigated_written _ s (pageSizeKey p));
    [|apply page_patch_keyed|cbn; rewrite decide_False, decide_True by done; reflexivity| |apply page_patch_keyed
     |cbn; rewrite decide_True by done; reflexivity|].
  - cbn [pageIndex pageSize]. rewrite Hd. f_equal.
    + destruct (i + 1 <=? 1) eqn:E; reflect_bools; cbn [number_or]; lia.
    + destruct (n =? defaultPageSize p) eqn:E; reflect_bools; by cbn [number_or].
  - cbn. case_match; [done|]. apply number_fits, fits_page_size.
  - cbn. case_match; [done|]. apply number_fits, fits_page.
Qed.

(** Where an event leads, the invariant holds again. *)
Lemma target_ok s e t :
  url_ok s → event_fits e s → url_target p sch e s = Some t →
  validated t.1.1 ∧ Forall (λ c, found_filter c t.1.2 = read_column c t.1.1 ∨
    match e with Visit _ => t.1.2 = ut_columnFilters s | _ => False end) (p_columnFilters p).
Proof.
  intros [Hv Hf] He Ht. rewrite Forall_forall in Hf.
  assert (Hold : ∀ patch, well_keyed patch → (∀ c, c ∈ p_columnFilters p → map_get patch (searchKey c) = None) →
    Forall (λ c, found_filter c (ut_columnFilters s) = read_column c (navigated sch patch s) ∨
      match e with Visit _ => ut_columnFilters s = ut_columnFilters s | _ => False end) (p_columnFilters p)).
  { intros patch Hk Hn. apply Forall_forall. intros c Hc. left. rewrite (Hf c Hc). symmetry. apply same_filter; auto. }
  destruct e as [u|u|u|n b|o]; cbn in Ht, He.
  - injection Ht as <-. cbn. split; [apply validate_validated|]. apply Hold; [apply page_patch_keyed|]. intros c Hc.
    destruct (column_key c Hc) as (? & ? & _). cbn. by rewrite !decide_False by done.
  - unfold onGlobalFilterChange in Ht. destruct (globalFilterEnabled p); [|done]. injection Ht as <-. cbn.
    split; [apply validate_validated|]. apply Hold; [apply global_patch_keyed|]. intros c Hc.
    destruct (column_key c Hc) as (? & _ & ?). cbn. by rewrite !decide_False by done.
  - injection Ht as <-. cbn. split; [apply validate_validated|]. rewrite Forall_forall in He. apply Forall_forall.
    intros c Hc. left. symmetry. apply read_columns_patch; auto.
  - unfold ensurePageInRange, range_patch in Ht. case_match; [|done]. injection Ht as <-. cbn.
    split; [apply validate_validated|]. apply Hold; [apply NoDup_singleton|]. intros c Hc.
    destruct (column_key c Hc) as (? & _). cbn. by rewrite decide_False by done.
  - injection Ht as <-. cbn. split; [apply validate_validated|]. apply Forall_forall. by right.
Qed.

(** The filters an event sets are those of its address, also where the address stays. *)
Lemma target_shown s e t :
  url_ok s → event_fits e s → url_target p sch e s = Some t → same_search t.1.1 (ut_search s) →
  Forall (λ c, found_filter c t.1.2 = read_column c t.1.1) (p_columnFilters p).
Proof.
  intros Hs He Ht Hr. destruct (target_ok s e t Hs He Ht) as [_ Hf].
  eapply Forall_impl; [apply Forall_and; split; [exact Hf|apply Hs]|]. intros c [[Hc|Hc] Hold]; [done|].
  destruct e; try done. cbn in Hold. rewrite Hc, Hold. symmetry. by apply read_same.
Qed.

Lemma step_ok s e s' : url_ok s → event_fits e s → url_step p sch s e s' → url_ok s'.
Proof.
  intros Hs He Hst. destruct Hst as [s e|s e t renewed Ht Hr]; [done|].
  destruct (target_ok s e t Hs He Ht) as [Hv _]. apply arrive_ok; [done|done|]. intros Hn. by apply (target_shown s e t Hs He Ht), Hr.
Qed.

Lemma run_ok s l s' : fitting_run s l s' → url_ok s → url_ok s'.
Proof. induction 1; intros; [done|]. by eauto using step_ok. Qed.

(** ** The abstract table *)

(** What is shown: the page, the text of the address, the text in the field,
    and the filter in effect for every column. *)
Record TableView := {
  tv_pagination : PaginationState;
  tv_text : option jstr;
  tv_field : option jstr;
  tv_filter : Column → option value;
}.

Definition view_of (search : SearchRecord) (field : option jstr) (filters : Column → option value) : TableView :=
  {| tv_pagination := pagination p search; tv_text := initialGlobalFilter p search; tv_field := field; tv_filter := filters |}.

Definition view (s : UrlTable) : TableView :=
  view_of (ut_search s) (shown_global p s) (λ c, found_filter c (ut_columnFilters s)).

Definition view_eq (a b : TableView) : Prop :=
  tv_pagination a = tv_pagination b ∧ tv_text a = tv_text b ∧ tv_field a = tv_field b
  ∧ Forall (λ c, tv_filter a c = tv_filter b c) (p_columnFilters p).

Inductive ViewEvent :=
| ToPage (x : PaginationState)
| ToText (t : jstr)
| ToFilters (f : Column → option value)
| CountPages (n : Z) (toLast : bool)
| Elsewhere (o : SearchRecord).

Definition label (e : UrlEvent) (s : UrlTable) : ViewEvent :=
  match e with
  | PaginationChange updater => ToPage (updater (pagination p (ut_search s)))
  | GlobalFilterChange updater => ToText (updater (default [] (ut_globalFilter s)))
  | ColumnFiltersChange updater => ToFilters (λ c, found_filter c (updater (ut_columnFilters s)))
  | EnsurePageInRange n toLast => CountPages n toLast
  | Visit o => Elsewhere o
  end.

Definition with_page (i : Z) (v : TableView) : TableView :=
  {| tv_pagination := {| pageIndex := i; pageSize := pageSize (tv_pagination v) |}; tv_text := tv_text v;
     tv_field := tv_field v; tv_filter := tv_filter v |}.

Definition with_text (t : jstr) (v : TableView) : TableView :=
  {| tv_pagination := tv_pagination v; tv_text := Some t; tv_field := Some t; tv_filter := tv_filter v |}.

(** A filter or text leads to the first page, a page leaves the filters; a
    page after the last leads to the first or the last one. *)
Definition view_step (e : ViewEvent) (v : TableView) : TableView :=
  match e with
  | ToPage x => {| tv_pagination := x; tv_text := tv_text v; tv_field := tv_field v; tv_filter := tv_filter v |}
  | ToText t => if globalFilterEnabled p then with_text (global_value p t) (with_page 0 v) else v
  | ToFilters f =>
      let w := with_page 0 v in
      {| tv_pagination := tv_pagination w; tv_text := tv_text w; tv_field := tv_field w; tv_filter := f |}
  | CountPages n toLast =>
      if (0 <? n) && (n <=? pageIndex (tv_pagination v)) then with_page (if toLast then n - 1 else 0) v else v
  | Elsewhere o => view_of (validate o) (tv_field v) (λ c, read_column c (validate o))
  end.

Lemma view_arrive renewed next fs g s :
  validated next → (renewed = false → same_search next (ut_search s)) →
  (renewed = false → Forall (λ c, found_filter c fs = read_column c next) (p_columnFilters p)) →
  view_eq (view (arrive p renewed next fs g s))
    (view_of next (if globalFilterEnabled p then Some (default [] g) else None) (λ c, read_column c next)).
Proof.
  intros Hv Hs Hf. destruct (arrive_ok renewed next fs g s Hv Hs Hf) as [[_ Ho] He]. unfold view, view_of, view_eq. cbn [tv_pagination tv_text tv_field tv_filter].
  split_and!.
  - symmetry. by apply pagination_same.
  - unfold initialGlobalFilter. by rewrite (He (globalFilterKey p)).
  - unfold shown_global. by destruct renewed.
  - eapply Forall_impl; [exact Ho|]. intros c Hc. cbn in *. rewrite Hc. symmetry. by apply read_same.
Qed.

Definition field_of (g : option jstr) : option jstr := if globalFilterEnabled p then Some (default [] g) else None.

(** The filters of a navigation that leaves the columns alone. *)
Lemma columns_kept patch s :
  url_ok s → well_keyed patch → (∀ c, c ∈ p_columnFilters p → map_get patch (searchKey c) = None) →
  Forall (λ c, read_column c (navigated sch patch s) = found_filter c (ut_columnFilters s)) (p_columnFilters p).
Proof.
  intros [Hv Hf] Hk Hn. rewrite Forall_forall in Hf. apply Forall_forall. intros c Hc. rewrite (Hf c Hc). apply same_filter; auto.
Qed.

Lemma text_patch_written t s :
  globalFilterEnabled p = true → initialGlobalFilter p (navigated sch (global_patch p t) s) = Some t.
Proof.
  intros He. unfold initialGlobalFilter. rewrite He. destruct keys_distinct as (_ & Hk & _).
  erewrite (navigated_written _ s (globalFilterKey p)); [|apply global_patch_keyed|cbn; rewrite decide_False, decide_True by done; reflexivity|].
  - by destruct t.
  - destruct t; [done|]. cbn. pose proof (fits_global (p := p)) as Hg. destruct (map_get sch (globalFilterKey p)) as [f|]; [|done].
    injection Hg as Hg. exists f. by rewrite Hg.
Qed.

Lemma count_view n toLast s :
  validated (ut_search s) →
  match ensurePageInRange p sch n toLast s with
  | Some next => (0 <? n) && (n <=? pageIndex (pagination p (ut_search s))) = true
      ∧ pagination p next = {| pageIndex := if toLast then n - 1 else 0; pageSize := pageSize (pagination p (ut_search s)) |}
      ∧ next = navigated sch [(pageKey p, if toLast then Some (VNumber n) else None)] s
  | None => (0 <? n) && (n <=? pageIndex (pagination p (ut_search s))) = false
  end.
Proof.
  intros Hv. unfold ensurePageInRange, range_patch. cbn [pagination pageIndex].
  replace (n <=? Z.max 0 (page_number p (ut_search s) - 1)) with ((n <=? 0) || (n <? page_number p (ut_search s)))
    by (destruct (n <=? 0) eqn:?, (n <? page_number p (ut_search s)) eqn:?; cbn; symmetry; reflect_bools; [apply Z.leb_le|apply Z.leb_le|apply Z.leb_le|apply Z.leb_gt]; lia).
  destruct (0 <? n) eqn:En; reflect_bools; cbn [andb]; [|done]. replace (n <=? 0) with false by (symmetry; apply Z.leb_gt; lia). cbn [orb].
  destruct (n <? page_number p (ut_search s)) eqn:E; [|done]. cbn [option_map]. split_and!; [done| |done].
  unfold pagination, page_number. pose proof (fits_first (p := p)) as Hd. destruct keys_distinct as (Hk & _).
  erewrite (navigated_written _ s (pageKey p)); [|apply one_keyed|cbn; by rewrite decide_True|].
  - rewrite (navigated_frame _ s (pageSizeKey p) (one_keyed _ _) Hv) by (cbn; by rewrite decide_False). f_equal.
    destruct toLast; cbn [number_or]; lia.
  - destruct toLast; [|done]. apply number_fits, fits_page.
Qed.

Lemma target_view s e t :
  url_ok s → event_fits e s → url_target p sch e s = Some t →
  view_eq (view_of t.1.1 (field_of t.2) (λ c, read_column c t.1.1)) (view_step (label e s) (view s)).
Proof.
  intros Hs He Ht. pose proof Hs as [Hv _]. destruct (table_key_not_column (globalFilterKey p)) as [Hg Hgc]; [by right|].
  destruct (table_key_not_column (pageSizeKey p)) as [Hz Hzc]; [by left|]. destruct keys_distinct as (_ & _ & Hzg & _).
  destruct e as [u|u|u|n b|o]; cbn in Ht, He.
  - injection Ht as <-. cbn. unfold view_eq. cbn. split_and!.
    + by apply page_patch_written.
    + apply same_text; [apply page_patch_keyed|done|]. cbn. by rewrite !decide_False.
    + done.
    + apply columns_kept; [done|apply page_patch_keyed|]. intros c Hc. destruct (column_key c Hc) as (? & ? & _). cbn. by rewrite !decide_False.
  - unfold onGlobalFilterChange in Ht. destruct (globalFilterEnabled p) eqn:Eg; [|done]. injection Ht as <-. cbn. rewrite Eg.
    unfold view_eq, field_of. cbn. rewrite Eg. split_and!.
    + apply same_page_patch; [apply global_patch_keyed|done|cbn; by rewrite !decide_False by done|cbn; by rewrite decide_True].
    + by apply text_patch_written.
    + done.
    + apply columns_kept; [done|apply global_patch_keyed|]. intros c Hc. destruct (column_key c Hc) as (? & _ & ?). cbn. by rewrite !decide_False.
  - injection Ht as <-. cbn. unfold view_eq. cbn. split_and!.
    + apply same_page_patch; [apply columns_patch_keyed|done|by apply columns_patch_frame|cbn; by rewrite decide_True].
    + apply same_text; [apply columns_patch_keyed|done|by apply columns_patch_frame].
    + done.
    + rewrite Forall_forall in He. apply Forall_forall. intros c Hc. apply read_columns_patch; auto.
  - pose proof (count_view n b s Hv) as Hc. destruct (ensurePageInRange p sch n b s) as [next|]; [|done]. injection Ht as <-.
    destruct Hc as (E & Hp & ->). cbn [fst snd label view_step]. change (tv_pagination (view s)) with (pagination p (ut_search s)).
    rewrite E. unfold view_eq. cbn. split_and!.
    + exact Hp.
    + apply same_text; [apply one_keyed|done|]. by apply patch_without_page.
    + done.
    + apply columns_kept; [done|apply one_keyed|]. intros c Hc. destruct (column_key c Hc) as (? & _). by apply patch_without_page.
  - injection Ht as <-. unfold view_eq. cbn. split_and!; try done. apply Forall_forall. done.
Qed.

Lemma stay_view s e : url_ok s → url_target p sch e s = None → view_eq (view s) (view_step (label e s) (view s)).
Proof.
  intros [Hv _] Ht. destruct e as [u|u|u|n b|o]; cbn in Ht; try done.
  - unfold onGlobalFilterChange in Ht. cbn. destruct (globalFilterEnabled p); [done|]. unfold view_eq. split_and!; try done. by apply Forall_forall.
  - pose proof (count_view n b s Hv) as Hc. destruct (ensurePageInRange p sch n b s); [done|]. cbn [label view_step].
    change (tv_pagination (view s)) with (pagination p (ut_search s)). rewrite Hc. unfold view_eq. split_and!; try done. by apply Forall_forall.
Qed.

Lemma view_eq_trans a b c : view_eq a b → view_eq b c → view_eq a c.
Proof.
  intros (? & ? & ? & Hab) (? & ? & ? & Hbc). unfold view_eq. split_and!; [congruence..|].
  eapply Forall_impl; [apply Forall_and; split; [exact Hab|exact Hbc]|]. intros x [? ?]. congruence.
Qed.

(** A count that was acted on asks for nothing more. *)
Lemma count_settles n toLast s s' :
  validated (ut_search s) → url_step p sch s (EnsurePageInRange n toLast) s' →
  ensurePageInRange p sch n toLast s' = None.
Proof.
  intros Hv Hst. inversion Hst as [? ? Ht|? ? t renewed Ht Hr]; subst; [cbn in Ht; by destruct (ensurePageInRange p sch n toLast s')|].
  pose proof (count_view n toLast s Hv) as Hc. cbn in Ht. destruct (ensurePageInRange p sch n toLast s) as [next|] eqn:En; [|done].
  injection Ht as <-. destruct Hc as (E & Hp & ->). cbn [fst snd] in *. apply andb_true_iff in E as [E1 _]. apply Z.ltb_lt in E1.
  set (s' := arrive p renewed _ _ _ s).
  assert (Hs' : same_search (navigated sch [(pageKey p, if toLast then Some (VNumber n) else None)] s) (ut_search s'))
    by (destruct renewed; cbn; [done|by apply Hr]).
  assert (Hv' : validated (ut_search s')) by (eapply same_validated; [exact Hs'|apply validate_validated]).
  pose proof (count_view n toLast s' Hv') as Hc'. destruct (ensurePageInRange p sch n toLast s'); [exfalso|done].
  destruct Hc' as (E' & _). rewrite <- (pagination_same _ _ Hs'), Hp in E'. cbn in E'. apply andb_true_iff in E' as [_ E']. apply Z.leb_le in E'.
  destruct toLast; lia.
Qed.

(** *** The text in the field *)

Lemma text_step s e s' :
  url_ok s → event_fits e s → no_visit e → text_ok s → url_step p sch s e s' → text_ok s'.
Proof.
  intros Hs He Hn Hx Hst. destruct Hst as [s e|s e t renewed Ht Hr]; [done|].
  pose proof (target_view s e t Hs He Ht) as (_ & Hx' & Hfd & _). destruct (target_ok s e t Hs He Ht) as [Hv _].
  unfold text_ok. transitivity (field_of t.2); [by destruct renewed|].
  transitivity (initialGlobalFilter p t.1.1).
  - cbn in Hx', Hfd. rewrite Hfd, Hx'. destruct e as [u|u|u|n b|o]; cbn [label view_step]; try exact Hx; try done.
    + destruct (globalFilterEnabled p); [done|exact Hx].
    + case_match; exact Hx.
  - unfold initialGlobalFilter. destruct renewed; [done|]. by rewrite (Hr eq_refl (globalFilterKey p)).
Qed.

Lemma mount_text o : text_ok (mount p sch o).
Proof. unfold text_ok, shown_global, mount, initialGlobalFilter. cbn. by destruct (globalFilterEnabled p). Qed.

Lemma run_text s l s' : fitting_run s l s' → url_ok s → Forall no_visit l → text_ok s → text_ok s'.
Proof.
  induction 1 as [s|s e s1 l s2 He Hst _ IH]; intros Hs Hn Hx; [done|]. apply Forall_cons in Hn as [Hn Hl].
  apply IH; [by eapply step_ok|done|by eapply text_step].
Qed.

(** ** The results *)

(** C14. Whatever the operator and the router do, reloading the page or opening its
    address elsewhere shows the same table: the page, the filters of the
    columns, and, unless another address was visited in between, the text in
    the field of the global filter. *)
Theorem table_reopens o l s :
  fitting_run (mount p sch o) l s →
  let r := mount p sch (ut_search s) in
  tv_pagination (view r) = tv_pagination (view s) ∧ tv_text (view r) = tv_text (view s)
  ∧ Forall (λ c, tv_filter (view r) c = tv_filter (view s) c) (p_columnFilters p)
  ∧ (Forall no_visit l → tv_field (view r) = tv_field (view s)).
Proof.
  intros Hrun. pose proof (run_ok _ _ _ Hrun (table_mount_ok o)) as [Hv Hf]. cbn. split_and!.
  - by apply pagination_same.
  - unfold initialGlobalFilter. by rewrite (Hv (globalFilterKey p)).
  - eapply Forall_impl; [apply Forall_and; split; [exact Hf|apply (table_mount_ok (ut_search s))]|]. cbn. intros c [-> ->]. by apply read_same.
  - intros Hn. pose proof (run_text _ _ _ Hrun (table_mount_ok o) Hn (mount_text o)) as ->. rewrite mount_text. cbn.
    unfold initialGlobalFilter. by rewrite (Hv (globalFilterKey p)).
Qed.

(** C21. Every step of the hook is one step of an abstract table that holds a
    page, a text and one filter per column: a new filter or text leads to the
    first page, a new page keeps the filters, and a page after the last one
    leads to the first or the last one and asks for nothing more. *)
Theorem url_refines_table o l s e s' :
  fitting_run (mount p sch o) l s → event_fits e s → url_step p sch s e s' →
  view_eq (view s') (view_step (label e s) (view s))
  ∧ (∀ n toLast, e = EnsurePageInRange n toLast → ensurePageInRange p sch n toLast s' = None).
Proof.
  intros Hrun He Hst. pose proof (run_ok _ _ _ Hrun (table_mount_ok o)) as Hs. split.
  - destruct Hst as [s e Ht|s e t renewed Ht Hr]; [by apply stay_view|].
    destruct (target_ok s e t Hs He Ht) as [Hv _].
    eapply view_eq_trans; [apply view_arrive; [done|done|]|by apply target_view].
    intros Hn. by apply (target_shown s e t Hs He Ht), Hr.
  - intros n toLast ->. by apply (count_settles n toLast s); [apply Hs|].
Qed.
End Fits.

(** ** Evaluations *)

(** The run in which every search is a new object. *)
Definition follow (p : UseTableUrlStateParams) (sch : Schema) (s : UrlTable) (e : UrlEvent) : UrlTable :=
  match url_target p sch e s with Some t => arrive p true t.1.1 t.1.2 t.2 s | None => s end.

Lemma follow_step p sch s e : url_step p sch s e (follow p sch s e).
Proof. unfold follow. destruct (url_target p sch e s) as [t|] eqn:E; [by apply url_goes|by apply url_stays]. Qed.

Definition sample_filters : list (jstr * value) :=
  [(js "status", VArray [JStr (js "2")]); (js "role", VArray [JStr (js "10")])].

Definition sample_run : list UrlEvent :=
  [ColumnFiltersChange (λ _, sample_filters); GlobalFilterChange (λ _, js " bob ");
   PaginationChange (λ _, {| pageIndex := 6; pageSize := 50 |}); EnsurePageInRange 3 true].

Definition sample_users : UrlTable := mount (users_table false) usersSearchSchema [(js "group", VString (js "vip"))].

Lemma sample_fitting :
  fitting_run (p := users_table false) (sch := usersSearchSchema) sample_users sample_run
    (foldl (follow (users_table false) usersSearchSchema) sample_users sample_run).
Proof.
  unfold sample_run. cbn [foldl]. repeat (eapply fitting_cons; [|apply follow_step|]); [|done|by cbn|done|constructor].
  repeat (constructor; [first [exact I|eexists; split; vm_compute; reflexivity]|]). constructor.
Qed.

Lemma table_reopens_witness :
  let s := foldl (follow (users_table false) usersSearchSchema) sample_users sample_run in
  let r := mount (users_table false) usersSearchSchema (ut_search s) in
  pagination (users_table false) (ut_search r) = {| pageIndex := 2; pageSize := 50 |}
  ∧ tv_field (view (p := users_table false) r) = Some (js "bob").
Proof.
  intros s r. destruct (table_reopens (p := users_table false) _ sample_run _ sample_fitting) as (Hp & _ & _ & Hf). split.
  - etransitivity; [exact Hp|]. vm_compute. reflexivity.
  - etransitivity; [apply Hf; repeat constructor|]. vm_compute. reflexivity.
Defined.

Lemma url_refines_table_witness :
  view_eq (p := users_table false) (view (p := users_table false)
      (follow (users_table false) usersSearchSchema sample_users (EnsurePageInRange 3 true)))
    (view_step (p := users_table false) (sch := usersSearchSchema) (CountPages 3 true) (view (p := users_table false) sample_users)).
Proof.
  apply (url_refines_table (p := users_table false) (sch := usersSearchSchema) [(js "group", VString (js "vip"))] []
    sample_users (EnsurePageInRange 3 true)); [constructor|exact I|apply follow_step].
Defined.

(** The text of the global filter is read once: going back to an address
    without it leaves it in the field, and in what the table asks for. *)
Lemma global_filter_stays :
  let p := channels_table false in
  let s := follow p channelsSearchSchema (mount p channelsSearchSchema [(js "filter", VString (js "gpt"))]) (Visit []) in
  shown_global p s = Some (js "gpt") ∧ initialGlobalFilter p (ut_search s) = Some [].
Proof. split; by_eval. Qed.

(** A column without a type is read as an array, although its type says it is a text. *)
Lemma untyped_column_unread :
  let c := {| columnId := js "name"; searchKey := js "name"; columnType := None; serialize := None; deserialize := None |} in
  read_column c [(js "name", VString (js "x"))] = None.
Proof. by_eval. Qed.
