(* ===== verification/Moderation.v ===== *)
(** * Content moderation: the setting and its form

    Model of [features/system-settings/request-limits/content-moderation-utils.ts]
    and of the form in [content-moderation-section.tsx]. The server keeps the
    configuration of the moderation of prompts in one JSON text; the console
    reads it into a configuration, shows it as a form and writes it back.

    The lower case of the language is an argument. The thresholds are the
    properties of an object, kept as they are. *)

From Stdlib Require Import String.
From S2P Require Import JsArith JsonText JsObject NavConfig.

(** ** The configuration *)

Inductive ContentModerationMode := pre_block | observe.
Inductive ContentModerationObserveHitAction := hit_observe | hit_pre_block | hit_pre_block_monitor.
Inductive ContentModerationModelType := general | dedicated.
Inductive ContentModerationProvider := deepseek.
Inductive ContentModerationModelFilterType := filter_all | filter_include | filter_exclude.

#[export] Instance mode_eq_dec : EqDecision ContentModerationMode.
Proof. solve_decision. Defined.
#[export] Instance filter_type_eq_dec : EqDecision ContentModerationModelFilterType.
Proof. solve_decision. Defined.

Record ContentModerationModelFilter := {
  mf_type : ContentModerationModelFilterType;
  mf_models : list jstr;
}.

Record ContentModerationConfigView := {
  cm_enabled : bool;
  cm_mode : ContentModerationMode;
  cm_observe_hit_action : ContentModerationObserveHitAction;
  cm_model_type : ContentModerationModelType;
  cm_provider : ContentModerationProvider;
  cm_base_url : jstr;
  cm_model : jstr;
  cm_api_key_count : option json;
  cm_api_key_masks : option json;
  cm_api_keys : list jstr;
  cm_timeout_ms : jsnum;
  cm_all_groups : bool;
  cm_groups : list jstr;
  cm_model_filter : ContentModerationModelFilter;
  cm_exclude_openai_oauth_team : bool;
  cm_exclude_user_ids : list jsnum;
  cm_thresholds : object;
  cm_keys_configured : bool;
}.

(** [0.65] and the like *)
Definition decimal (s : string) : json := JNum (number_of_string (js s)).

Definition DEFAULT_CONTENT_MODERATION_THRESHOLDS : object :=
  [entry "child-exploitation" (decimal "0.65"); entry "sexual-content" (decimal "0.65");
   entry "violence-weapons-terrorism" (decimal "0.95"); entry "self-harm" (decimal "0.65");
   entry "hate-harassment" (decimal "0.65"); entry "fraud-scams-spam" (decimal "0.9");
   entry "illegal-activity" (decimal "0.95"); entry "cyber-abuse" (decimal "0.9");
   entry "privacy-abuse" (decimal "0.9"); entry "intellectual-property" (decimal "0.9");
   entry "safeguards-evasion" (decimal "0.9")].

Definition DEFAULT_CONTENT_MODERATION_CONFIG : ContentModerationConfigView :=
  {| cm_enabled := false; cm_mode := pre_block; cm_observe_hit_action := hit_observe; cm_model_type := dedicated;
     cm_provider := deepseek; cm_base_url := js "https://api.openai.com"; cm_model := js "omni-moderation-latest";
     cm_api_key_count := None; cm_api_key_masks := None; cm_api_keys := []; cm_timeout_ms := num_of_Z 3000;
     cm_all_groups := true; cm_groups := []; cm_model_filter := {| mf_type := filter_all; mf_models := [] |};
     cm_exclude_openai_oauth_team := false; cm_exclude_user_ids := [];
     cm_thresholds := DEFAULT_CONTENT_MODERATION_THRESHOLDS; cm_keys_configured := false |}.

(** ** Normalising values of any kind *)

Definition normalizeMode (v : option json) : ContentModerationMode :=
  if is_str v (js "observe") then observe else pre_block.

Definition normalizeObserveHitAction (v : option json) : ContentModerationObserveHitAction :=
  if is_str v (js "pre_block") then hit_pre_block
  else if is_str v (js "pre_block_monitor") then hit_pre_block_monitor else hit_observe.

Definition normalizeModelType (v : option json) : ContentModerationModelType :=
  if is_str v (js "general") then general else dedicated.

Definition normalizeProvider (v : option json) : ContentModerationProvider := deepseek.

Definition normalizeModelFilterType (v : option json) : ContentModerationModelFilterType :=
  if is_str v (js "include") then filter_include
  else if is_str v (js "exclude") then filter_exclude else filter_all.

(** [String(item ?? '').trim()] *)
Definition trimmed_text (item : json) : jstr := trim (match item with JNull => [] | v => string_of_json v end).

Section Lower.
Context (toLowerCase : jstr → jstr).

(** The texts that are not blank, each once up to case, in their first spelling. *)
Definition list_step (st : list jstr * list jstr) (item : json) : list jstr * list jstr :=
  let '(seen, out) := st in
  let trimmed := trimmed_text item in
  let key := toLowerCase trimmed in
  if negb (nonempty trimmed) then st
  else if bool_decide (key ∈ seen) then st
  else (seen ++ [key], out ++ [trimmed]).

Definition normalizeStringList (value : option json) : list jstr :=
  match value with Some (JArr l) => (foldl list_step ([], []) l).2 | _ => [] end.

Definition user_id (item : json) : jsnum :=
  match item with JNum x => x | _ => number_of_string (trimmed_text item) end.

Definition id_step (out : list jsnum) (item : json) : list jsnum :=
  let userId := user_id item in
  if negb (is_safe_integer userId) || num_le userId (num_of_Z 0) || existsb (λ y, num_eq y userId) out then out
  else out ++ [userId].

Definition normalizeContentModerationUserIds (value : option json) : list jsnum :=
  match value with Some (JArr l) => foldl id_step [] l | _ => [] end.

Definition normalizeModelFilter (value : option json) : ContentModerationModelFilter :=
  let raw := match value with Some (JObj o) => o | _ => [] end in
  let type := normalizeModelFilterType (fld raw "type") in
  let models := normalizeStringList (fld raw "models") in
  if bool_decide (type = filter_all) || negb (nonempty models) then {| mf_type := filter_all; mf_models := [] |}
  else {| mf_type := type; mf_models := models |}.

(** ** Reading the setting *)

(** [String(v || d)] *)
Definition text_of_or (v : option json) (d : string) : jstr :=
  match v with Some x => if truthy x then string_of_json x else js d | None => js d end.

Definition api_keys_of (v : option json) : list jstr :=
  match v with Some (JArr l) => filterb nonempty (map trimmed_text l) | _ => [] end.

Definition timeout_of (v : option json) (modelType : ContentModerationModelType) : jsnum :=
  let d := match modelType with general => num_of_Z 8000 | dedicated => cm_timeout_ms DEFAULT_CONTENT_MODERATION_CONFIG end in
  match v with Some (JNum x) => if num_lt (num_of_Z 0) x then x else d | _ => d end.

(** [{ ...defaults, ...(v ?? {}) }] *)
Definition thresholds_of (v : option json) : object :=
  spread DEFAULT_CONTENT_MODERATION_THRESHOLDS
    (match v with Some x => default [] (entries_of x) | None => [] end).

(** The configuration an object stands for; other values have no such properties. *)
Definition config_of (parsed : object) : ContentModerationConfigView :=
  let apiKeys := api_keys_of (fld parsed "api_keys") in
  let allGroups := if map_has parsed (js "all_groups") then is_truthy (fld parsed "all_groups") else true in
  let modelType := normalizeModelType (fld parsed "model_type") in
  {| cm_enabled := is_truthy (fld parsed "enabled");
     cm_mode := normalizeMode (fld parsed "mode");
     cm_observe_hit_action := normalizeObserveHitAction (fld parsed "observe_hit_action");
     cm_model_type := modelType;
     cm_provider := normalizeProvider (fld parsed "provider");
     cm_base_url := text_of_or (fld parsed "base_url")
       (match modelType with general => "https://api.deepseek.com" | dedicated => "https://api.openai.com" end)%string;
     cm_model := text_of_or (fld parsed "model")
       (match modelType with general => "deepseek-v4-flash" | dedicated => "omni-moderation-latest" end)%string;
     cm_api_key_count := fld parsed "api_key_count";
     cm_api_key_masks := fld parsed "api_key_masks";
     cm_api_keys := apiKeys;
     cm_timeout_ms := timeout_of (fld parsed "timeout_ms") modelType;
     cm_all_groups := allGroups;
     cm_groups := if allGroups then [] else normalizeStringList (fld parsed "groups");
     cm_model_filter := normalizeModelFilter (fld parsed "model_filter");
     cm_exclude_openai_oauth_team := is_truthy (fld parsed "exclude_openai_oauth_team");
     cm_exclude_user_ids := normalizeContentModerationUserIds (fld parsed "exclude_user_ids");
     cm_thresholds := thresholds_of (fld parsed "thresholds");
     cm_keys_configured := truthy (nullish_or (fld parsed "keys_configured") (JBool (nonempty apiKeys))) |}.

Definition parseContentModerationConfig (value : option jstr) : ContentModerationConfigView :=
  match value with
  | None => DEFAULT_CONTENT_MODERATION_CONFIG
  | Some s =>
      if negb (nonempty (trim s)) then DEFAULT_CONTENT_MODERATION_CONFIG
      else match json_parse s with
           | Some (JObj o) => config_of o
           | Some JNull | None => DEFAULT_CONTENT_MODERATION_CONFIG
           | Some _ => config_of []
           end
  end.

(** ** Writing it *)

Definition mode_json (m : ContentModerationMode) : json :=
  match m with pre_block => str "pre_block" | observe => str "observe" end.
Definition hit_json (a : ContentModerationObserveHitAction) : json :=
  match a with hit_observe => str "observe" | hit_pre_block => str "pre_block" | hit_pre_block_monitor => str "pre_block_monitor" end.
Definition model_type_json (t : ContentModerationModelType) : json :=
  match t with general => str "general" | dedicated => str "dedicated" end.
Definition filter_type_json (t : ContentModerationModelFilterType) : json :=
  match t with filter_all => str "all" | filter_include => str "include" | filter_exclude => str "exclude" end.
Definition texts_json (l : list jstr) : json := JArr (map JStr l).
Definition model_filter_json (f : ContentModerationModelFilter) : json :=
  JObj [entry "type" (filter_type_json (mf_type f)); entry "models" (texts_json (mf_models f))].

Definition config_json (config : ContentModerationConfigView) : json :=
  let modelFilter := normalizeModelFilter (Some (model_filter_json (cm_model_filter config))) in
  JObj
    [entry "enabled" (JBool (cm_enabled config));
     entry "mode" (mode_json (normalizeMode (Some (mode_json (cm_mode config)))));
     entry "observe_hit_action" (hit_json (normalizeObserveHitAction (Some (hit_json (cm_observe_hit_action config)))));
     entry "model_type" (model_type_json (normalizeModelType (Some (model_type_json (cm_model_type config)))));
     entry "provider" (str "deepseek");
     entry "base_url" (JStr (cm_base_url config));
     entry "model" (JStr (cm_model config));
     entry "api_keys" (texts_json (cm_api_keys config));
     entry "timeout_ms" (JNum (cm_timeout_ms config));
     entry "all_groups" (JBool (cm_all_groups config));
     entry "groups" (texts_json (if cm_all_groups config then [] else normalizeStringList (Some (texts_json (cm_groups config)))));
     entry "model_filter" (model_filter_json modelFilter);
     entry "exclude_openai_oauth_team" (JBool (cm_exclude_openai_oauth_team config));
     entry "exclude_user_ids"
       (JArr (map JNum (normalizeContentModerationUserIds (Some (JArr (map JNum (cm_exclude_user_ids config)))))));
     entry "thresholds" (JObj (cm_thresholds config))].

Definition stringifyContentModerationConfig (config : ContentModerationConfigView) : jstr :=
  json_stringify (config_json config).

(** ** The form *)

Record ContentModerationFormValues := {
  fv_enabled : bool;
  fv_mode : ContentModerationMode;
  fv_observe_hit_action : ContentModerationObserveHitAction;
  fv_model_type : ContentModerationModelType;
  fv_provider : ContentModerationProvider;
  fv_base_url : jstr;
  fv_model : jstr;
  fv_api_key : jstr;
  fv_timeout_ms : jsnum;
  fv_all_groups : bool;
  fv_groups : list jstr;
  fv_model_filter_type : ContentModerationModelFilterType;
  fv_model_filter_models_text : jstr;
  fv_exclude_openai_oauth_team : bool;
  fv_exclude_user_ids_text : jstr;
}.

Definition toFormValues (raw : jstr) : ContentModerationFormValues :=
  let config := parseContentModerationConfig (Some raw) in
  {| fv_enabled := cm_enabled config; fv_mode := cm_mode config; fv_observe_hit_action := cm_observe_hit_action config;
     fv_model_type := cm_model_type config; fv_provider := cm_provider config; fv_base_url := cm_base_url config;
     fv_model := cm_model config; fv_api_key := default [] (head (cm_api_keys config));
     fv_timeout_ms := cm_timeout_ms config; fv_all_groups := cm_all_groups config; fv_groups := cm_groups config;
     fv_model_filter_type := mf_type (cm_model_filter config);
     fv_model_filter_models_text := join [c_nl] (mf_models (cm_model_filter config));
     fv_exclude_openai_oauth_team := cm_exclude_openai_oauth_team config;
     fv_exclude_user_ids_text := join [c_nl] (map string_of_number (cm_exclude_user_ids config)) |}.

(** [text.split(/[\s,]+/).filter(Boolean)] *)
Definition is_separator (c : Z) : bool := is_ws c || (c =? c_comma).

Fixpoint words_from (word s : jstr) : list jstr :=
  match s with
  | [] => if nonempty word then [word] else []
  | c :: s' =>
      if is_separator c then (if nonempty word then [word] else []) ++ words_from [] s'
      else words_from (word ++ [c]) s'
  end.

Definition words (s : jstr) : list jstr := words_from [] s.

(** [/^[1-9]\d*$/] *)
Definition is_id_text (item : jstr) : bool :=
  match item with c :: r => (49 <=? c) && (c <=? 57) && forallb is_digit r | [] => false end.

(** What the schema of the form accepts. *)
Definition contentModerationSchema (v : ContentModerationFormValues) : bool :=
  nonempty (fv_base_url v) && nonempty (fv_model v)
  && is_integer (fv_timeout_ms v) && num_le (num_of_Z 500) (fv_timeout_ms v) && num_le (fv_timeout_ms v) (num_of_Z 30000)
  && forallb (λ item, is_id_text item && is_safe_integer (number_of_string item)) (words (fv_exclude_user_ids_text v))
  && (bool_decide (fv_model_filter_type v = filter_all) || nonempty (trim (fv_model_filter_models_text v))).

Definition submitted_config (v : ContentModerationFormValues) (thresholds : object) : ContentModerationConfigView :=
  let apiKey := trim (fv_api_key v) in
  let filterModels := filterb nonempty (map trim (split_char c_nl (fv_model_filter_models_text v))) in
  let groups := if fv_all_groups v then [] else fv_groups v in
  let excludeUserIds := normalizeContentModerationUserIds
    (Some (JArr (map (λ w, JNum (number_of_string w)) (words (fv_exclude_user_ids_text v))))) in
  {| cm_enabled := fv_enabled v; cm_mode := fv_mode v; cm_observe_hit_action := fv_observe_hit_action v;
     cm_model_type := fv_model_type v; cm_provider := fv_provider v; cm_base_url := trim (fv_base_url v);
     cm_model := trim (fv_model v); cm_api_key_count := None; cm_api_key_masks := None;
     cm_api_keys := if nonempty apiKey then [apiKey] else []; cm_timeout_ms := fv_timeout_ms v;
     cm_all_groups := fv_all_groups v; cm_groups := groups;
     cm_model_filter := {| mf_type := fv_model_filter_type v;
                           mf_models := if bool_decide (fv_model_filter_type v = filter_all) then [] else filterModels |};
     cm_exclude_openai_oauth_team := fv_exclude_openai_oauth_team v; cm_exclude_user_ids := excludeUserIds;
     cm_thresholds := thresholds; cm_keys_configured := false |}.

(** [onSubmit] over the setting [raw] the page was opened with: the text that
    is stored, or [None] where the form is refused. *)
Definition onSubmit (raw : jstr) (v : ContentModerationFormValues) : option jstr :=
  if contentModerationSchema v then
    Some (stringifyContentModerationConfig (submitted_config v (cm_thresholds (parseContentModerationConfig (Some raw)))))
  else None.
End Lower.

(** ** Evaluations *)

Definition sample_setting : jstr :=
  json_stringify (JObj [entry "enabled" (JBool true); entry "api_keys" (texts_json [js "****1"; js "****2"]);
    entry "groups" (texts_json [js " vip"; js "VIP"; js ""]); entry "all_groups" (num 0);
    entry "exclude_user_ids" (JArr [num 3; str "4"; num 3; num (-1)]);
    entry "model_filter" (JObj [entry "type" (str "include"); entry "models" (texts_json [js "gpt-5"])])]).

Definition lower_id (s : jstr) : jstr := map (λ c, if (65 <=? c) && (c <=? 90) then c + 32 else c) s.

Example moderation_sample :
  let v := toFormValues lower_id sample_setting in
  fv_groups v = [js "vip"] ∧ fv_exclude_user_ids_text v = js "3" ++ [c_nl] ++ js "4" ∧ fv_api_key v = js "****1"
  ∧ contentModerationSchema v = true ∧ fv_timeout_ms v = num_of_Z 3000 ∧ words (js " 3, 4,,5 ") = [js "3"; js "4"; js "5"].
Proof. split_and!; by_eval. Qed.
