(* ===== verification/ModerationProps.v ===== *)
(** * Content moderation: a saved setting opens as it was saved

    Lists are normalised once and for all, thresholds keep their order, and a
    form that is accepted is shown again as it was submitted when the server
    sends its setting back: without blanks and repetitions, and with the mask
    of the key. *)

From Stdlib Require Import String.
From S2P Require Import JsArith JsonText JsObject NavConfig NavConfigProps Moderation.

(** ** Normal forms of lists *)

Lemma trimmed_text_str t : trimmed_text (JStr t) = trim t.
Proof. done. Qed.

Section Lower.
Context (toLowerCase : jstr → jstr).

Abbreviation normalizeStringList := (normalizeStringList toLowerCase).
Abbreviation normalizeModelFilter := (normalizeModelFilter toLowerCase).

(** Trimmed texts, none of them blank, and distinct up to case. *)
Definition normal_texts (l : list jstr) : Prop :=
  Forall (λ t, trim t = t ∧ nonempty t = true) l ∧ NoDup (map toLowerCase l).

Definition list_ok (st : list jstr * list jstr) : Prop := st.1 = map toLowerCase st.2 ∧ normal_texts st.2.

Lemma list_step_ok st item : list_ok st → list_ok (list_step toLowerCase st item).
Proof.
  destruct st as [seen out]. intros [Hs [Ht Hn]]. cbn in Hs, Ht, Hn. unfold list_step.
  destruct (nonempty (trimmed_text item)) eqn:E; cbn [negb]; [|done]. case_bool_decide as Hin; [done|].
  subst seen. split; cbn; [by rewrite map_app|]. split.
  - apply Forall_app. split; [done|]. apply Forall_singleton. split; [unfold trimmed_text; apply trim_idemp|done].
  - rewrite map_app. apply NoDup_app. split_and!; [done| |apply NoDup_singleton]. intros x Hx Hx'.
    apply list_elem_of_singleton in Hx' as ->. done.
Qed.

Lemma list_steps_ok l st : list_ok st → list_ok (foldl (list_step toLowerCase) st l).
Proof. revert st. induction l; intros st Hs; [done|]. cbn. by apply IHl, list_step_ok. Qed.

Lemma normal_result v : normal_texts (normalizeStringList v).
Proof.
  assert (Hnil : normal_texts []) by (split; constructor). unfold Moderation.normalizeStringList. destruct v as [[]|]; try done.
  apply (list_steps_ok _ ([], [])). by split.
Qed.

Lemma list_steps_normal l st :
  list_ok st → normal_texts (st.2 ++ l) → (foldl (list_step toLowerCase) st (map JStr l)).2 = st.2 ++ l.
Proof.
  revert st. induction l as [|t l IH]; intros [seen out] [Hs Hn] [Ht Hd]; cbn [map foldl fst snd] in *; [by rewrite app_nil_r|].
  apply Forall_app in Ht as [Ho [[Htr Hne] Hl]%Forall_cons]. unfold list_step at 2. rewrite trimmed_text_str, Htr, Hne. cbn [negb].
  rewrite bool_decide_eq_false_2.
  - rewrite IH; cbn; [by rewrite <- app_assoc| |].
    + subst seen. split; cbn; [by rewrite map_app|]. split; [apply Forall_app; split; [done|by constructor]|].
      rewrite map_app in *. cbn [map] in *. rewrite cons_middle, app_assoc in Hd. by apply NoDup_app in Hd as [? _].
    + rewrite <- app_assoc. split; [apply Forall_app; split; [done|by constructor]|done].
  - subst seen. rewrite map_app in Hd. apply NoDup_app in Hd as (_ & Hd & _). intros Hin. apply (Hd _ Hin). left.
Qed.

Lemma normal_fixed l : normal_texts l → normalizeStringList (Some (texts_json l)) = l.
Proof. intros Hl. apply (list_steps_normal l ([], [])); [split; [done|]; split; constructor|done]. Qed.

Lemma normalize_twice v : normalizeStringList (Some (texts_json (normalizeStringList v))) = normalizeStringList v.
Proof. apply normal_fixed, normal_result. Qed.

(** Nothing but blank texts is lost: every other one has a representative. *)
Lemma list_steps_keep l st item :
  (item ∈ l ∧ trimmed_text item ≠ [] ∨ toLowerCase (trimmed_text item) ∈ st.1) → st.1 = map toLowerCase st.2 →
  toLowerCase (trimmed_text item) ∈ map toLowerCase (foldl (list_step toLowerCase) st l).2.
Proof.
  revert st. induction l as [|x l IH]; intros [seen out] Hx Hs; cbn [foldl fst snd] in *.
  - destruct Hx as [[Hx _]|Hx]; [by apply elem_of_nil in Hx|]. by rewrite <- Hs.
  - assert (Hs' : (list_step toLowerCase (seen, out) x).1 = map toLowerCase (list_step toLowerCase (seen, out) x).2).
    { unfold list_step. repeat case_match; cbn; [done|done|]. by rewrite map_app, Hs. }
    apply IH; [|done]. destruct Hx as [[[->|Hx]%elem_of_cons Hne]|Hx].
    + right. unfold list_step. destruct (trimmed_text x) as [|c t] eqn:E; [done|]. cbn [nonempty negb]. case_bool_decide; [done|].
      cbn. set_solver.
    + by left.
    + right. unfold list_step. repeat case_match; [done|done|]. cbn. set_solver.
Qed.

Lemma elem_of_normalized l t : t ∈ normalizeStringList (Some (JArr l)) → ∃ item, item ∈ l ∧ t = trimmed_text item.
Proof.
  unfold Moderation.normalizeStringList. assert (H : ∀ st, (∀ u, u ∈ st.2 → ∃ item, item ∈ l ∧ u = trimmed_text item) →
    ∀ k, (∀ item, item ∈ k → item ∈ l) → ∀ u, u ∈ (foldl (list_step toLowerCase) st k).2 → ∃ item, item ∈ l ∧ u = trimmed_text item).
  { intros st Hst k. revert st Hst. induction k as [|x k IH]; intros st Hst Hk; [exact Hst|]. cbn. apply IH; [|set_solver].
    destruct st as [seen out]. unfold list_step. repeat case_match; [exact Hst|exact Hst|]. cbn. intros u [Hu|Hu%list_elem_of_singleton]%elem_of_app.
    - by apply Hst.
    - exists x. split; [|done]. apply Hk. left. }
  apply (H ([], [])); [intros u Hu; by apply elem_of_nil in Hu|done].
Qed.
End Lower.

(** Ids that are safe, positive and distinct. *)
Definition normal_ids (l : list jsnum) : Prop :=
  Forall (λ x, is_safe_integer x = true ∧ num_le x (num_of_Z 0) = false) l
  ∧ ∀ a x b, l = a ++ x :: b → existsb (λ y, num_eq y x) a = false.

Lemma id_steps_ok l out : normal_ids out → normal_ids (foldl id_step out l).
Proof.
  revert out. induction l as [|item l IH]; intros out Ho; [done|]. cbn. apply IH. unfold id_step. destruct (_ || _ || _) eqn:E; [done|].
  apply orb_false_iff in E as [[Hs Hp]%orb_false_iff He]. apply negb_false_iff in Hs. destruct Ho as [Hf Hd]. split.
  - apply Forall_app. split; [done|]. by apply Forall_singleton.
  - intros a x b Hab. destruct (list_eq_dec (A := jsnum) b []) as [->|Hb].
    + apply app_inj_tail in Hab as [<- <-]. done.
    + destruct (exists_last Hb) as (b' & y & ->). rewrite (app_comm_cons b' [y] x), app_assoc in Hab.
      apply app_inj_tail in Hab as [-> _]. by apply (Hd a x b').
Qed.

Lemma ids_result v : normal_ids (normalizeContentModerationUserIds v).
Proof.
  assert (Hnil : normal_ids []) by (split; [constructor|]; by intros [] ? ?). destruct v as [[]|]; try done. by apply id_steps_ok.
Qed.

Lemma id_steps_normal l out : normal_ids (out ++ l) → foldl id_step out (map JNum l) = out ++ l.
Proof.
  revert out. induction l as [|x l IH]; intros out Ho; cbn; [by rewrite app_nil_r|].
  pose proof Ho as [[_ [[Hs Hp] _]%Forall_cons]%Forall_app Hd]. unfold id_step. cbn [user_id].
  rewrite Hs, Hp, (Hd out x l eq_refl). cbn [negb orb]. rewrite IH; [by rewrite <- app_assoc|by rewrite <- app_assoc].
Qed.

Lemma ids_twice v :
  normalizeContentModerationUserIds (Some (JArr (map JNum (normalizeContentModerationUserIds v)))) = normalizeContentModerationUserIds v.
Proof. apply (id_steps_normal _ []), ids_result. Qed.

Lemma elem_of_ids l x : x ∈ normalizeContentModerationUserIds (Some (JArr (map JNum l))) → x ∈ l.
Proof.
  cbn [normalizeContentModerationUserIds]. assert (H : ∀ k out, (∀ y, y ∈ out → y ∈ l) → (∀ y, y ∈ k → y ∈ l) →
    ∀ y, y ∈ foldl id_step out (map JNum k) → y ∈ l).
  { induction k as [|z k IH]; intros out Ho Hk; [exact Ho|]. cbn. apply IH; [|set_solver]. unfold id_step. cbn [user_id]. case_match; [done|].
    intros y [Hy|Hy%list_elem_of_singleton]%elem_of_app; [by apply Ho|]. apply Hk. subst. left. }
  apply (H l []); [intros y Hy; by apply elem_of_nil in Hy|done].
Qed.

(** ** Thresholds keep their order *)

Lemma assoc_ext {K V} `{EqDecision K} (l l' : list (K * V)) :
  map fst l = map fst l' → NoDup (map fst l) → (∀ k, map_get l k = map_get l' k) → l = l'.
Proof.
  revert l'. induction l as [|[k v] l IH]; intros [|[k' v'] l']; try done. cbn [map fst]. intros [= <- Hk] [Hn Hd]%NoDup_cons Hg.
  pose proof (Hg k) as Hv. cbn in Hv. rewrite !decide_True in Hv by done. injection Hv as <-. f_equal. apply IH; [done|done|].
  intros q. specialize (Hg q). cbn in Hg. case_decide; [|done]. subst q. pose proof (proj2 (map_get_None l k) Hn) as E. rewrite E.
  rewrite Hk in Hn. by rewrite (proj2 (map_get_None l' k) Hn).
Qed.

Lemma set_fold_prefix {A} `{EqDecision A} (l acc : list A) : ∃ rest, js_set_from acc l = acc ++ rest.
Proof.
  unfold js_set_from. revert acc. induction l as [|x l IH]; intros acc; cbn; [exists []; by rewrite app_nil_r|].
  destruct (IH (set_add acc x)) as [rest ->]. unfold set_add. case_decide; [by exists rest|]. exists (x :: rest). by rewrite <- app_assoc.
Qed.

Lemma set_fold_present {A} `{EqDecision A} (acc rest : list A) :
  NoDup (acc ++ rest) → js_set_from acc (acc ++ rest) = acc ++ rest.
Proof.
  intros Hnd. unfold js_set_from. rewrite foldl_app. transitivity (foldl set_add acc rest).
  - f_equal. assert (H : ∀ l, (∀ x, x ∈ l → x ∈ acc) → foldl set_add acc l = acc).
    { induction l as [|x l IH]; intros Hl; [done|]. cbn. unfold set_add at 2. rewrite decide_True by (apply Hl; left). apply IH. set_solver. }
    by apply H.
  - by apply (js_set_from_NoDup acc rest).
Qed.

Lemma spread_keys (a b : object) : map fst (spread a b) = js_set_from (map fst a) (map fst b).
Proof.
  unfold spread, js_set_from. revert a. induction b as [|[k v] b IH]; intros a; [done|]. cbn [foldl map fst snd]. by rewrite IH, map_set_keys.
Qed.

Lemma spread_again (d y : object) : NoDup (map fst d) → spread d (spread d y) = spread d y.
Proof.
  intros Hd. destruct (set_fold_prefix (map fst y) (map fst d)) as [rest E].
  assert (Hk : map fst (spread d y) = map fst d ++ rest) by (by rewrite spread_keys).
  assert (Hn : NoDup (map fst (spread d y))) by (rewrite spread_keys; by apply NoDup_js_set_from).
  assert (Hs : map fst (spread d (spread d y)) = map fst (spread d y)).
  { rewrite spread_keys, Hk. rewrite set_fold_present; [done|]. by rewrite <- Hk. }
  apply assoc_ext; [done|by rewrite Hs|]. intros k. rewrite map_get_spread by done.
  destruct (map_get (spread d y) k) eqn:Ek; [done|]. apply map_get_None. apply map_get_None in Ek. rewrite Hk in Ek. set_solver.
Qed.

Lemma default_thresholds_keyed : NoDup (map fst DEFAULT_CONTENT_MODERATION_THRESHOLDS).
Proof. apply (bool_decide_unpack _). vm_compute. reflexivity. Qed.

Section Settings.
Context (toLowerCase : jstr → jstr).

Lemma parsed_thresholds value :
  ∃ y, cm_thresholds (parseContentModerationConfig toLowerCase value) = spread DEFAULT_CONTENT_MODERATION_THRESHOLDS y.
Proof.
  assert (Hd : ∃ y, cm_thresholds DEFAULT_CONTENT_MODERATION_CONFIG = spread DEFAULT_CONTENT_MODERATION_THRESHOLDS y) by by exists [].
  unfold parseContentModerationConfig. destruct value as [s|]; [|done]. destruct (negb _); [done|].
  destruct (json_parse s) as [[]|]; try done; cbn; unfold thresholds_of; by eexists.
Qed.
End Settings.

(** ** Words *)

Definition word (w : jstr) : Prop := w ≠ [] ∧ Forall (λ c, is_separator c = false) w.

Lemma words_from_word s acc : Forall (λ c, is_separator c = false) acc → Forall word (words_from acc s).
Proof.
  revert acc. induction s as [|c s IH]; intros acc Ha; cbn [words_from].
  - destruct acc; cbn; [constructor|]. apply Forall_singleton. by split.
  - destruct (is_separator c) eqn:Hc.
    + apply Forall_app. split; [|by apply IH]. destruct acc; cbn; [constructor|]. apply Forall_singleton. by split.
    + apply IH. apply Forall_app. by split; [|apply Forall_singleton].
Qed.

Lemma words_word s : Forall word (words s).
Proof. by apply words_from_word. Qed.

Lemma words_from_app w s acc :
  Forall (λ c, is_separator c = false) w → words_from acc (w ++ s) = words_from (acc ++ w) s.
Proof.
  intros Hw. revert acc. induction Hw as [|c w Hc _ IH]; intros acc; cbn; [by rewrite app_nil_r|].
  rewrite Hc, IH. by rewrite <- app_assoc.
Qed.

Lemma words_join l : Forall word l → words (join [c_nl] l) = l.
Proof.
  unfold words. induction 1 as [|w l [Hne Hw] Hl IH]; [done|]. destruct l as [|w' l].
  - cbn [join]. rewrite <- (app_nil_r w) at 1. rewrite words_from_app by done. cbn. by destruct w.
  - rewrite join_cons, words_from_app by done. cbn [app words_from]. change (is_separator c_nl) with true. cbn iota.
    rewrite IH. by destruct w.
Qed.

(** ** What is written is read *)

Lemma mode_read m : normalizeMode (Some (mode_json m)) = m.
Proof. by destruct m. Qed.
Lemma hit_read a : normalizeObserveHitAction (Some (hit_json a)) = a.
Proof. by destruct a. Qed.
Lemma model_type_read t : normalizeModelType (Some (model_type_json t)) = t.
Proof. by destruct t. Qed.
Lemma filter_type_read t : normalizeModelFilterType (Some (filter_type_json t)) = t.
Proof. by destruct t. Qed.

#[local] Opaque js.

Section Read.
Context (toLowerCase : jstr → jstr).

Abbreviation normalizeStringList := (normalizeStringList toLowerCase).
Abbreviation normalizeModelFilter := (normalizeModelFilter toLowerCase).

(** A filter as the setting has it: of all models, or of some. *)
Lemma filter_read t models :
  normalizeModelFilter (Some (model_filter_json {| mf_type := t; mf_models := models |}))
  = let l := normalizeStringList (Some (texts_json models)) in
    if bool_decide (t = filter_all) || negb (nonempty l) then {| mf_type := filter_all; mf_models := [] |}
    else {| mf_type := t; mf_models := l |}.
Proof.
  unfold Moderation.normalizeModelFilter, model_filter_json. cbn [mf_type mf_models]. look. by rewrite filter_type_read.
Qed.

Lemma filter_all_empty v :
  mf_type (normalizeModelFilter v) = filter_all → normalizeModelFilter v = {| mf_type := filter_all; mf_models := [] |}.
Proof.
  unfold Moderation.normalizeModelFilter. destruct (_ || _) eqn:E; [done|]. cbn [mf_type]. intros Ht.
  apply orb_false_iff in E as [E _]. by apply bool_decide_eq_false in E.
Qed.

Lemma filter_twice v : normalizeModelFilter (Some (model_filter_json (normalizeModelFilter v))) = normalizeModelFilter v.
Proof.
  unfold Moderation.normalizeModelFilter at 2 3. set (raw := match v with Some (JObj o) => o | _ => [] end).
  set (l := Moderation.normalizeStringList _ _). assert (Hl : normal_texts toLowerCase l) by apply normal_result.
  destruct (bool_decide _ || _) eqn:E; rewrite filter_read; cbn zeta; [done|]. rewrite (normal_fixed _ _ Hl), E. done.
Qed.

(** A configuration with nothing to normalise but its lists. *)
Definition plain_config (c : ContentModerationConfigView) : Prop :=
  cm_base_url c ≠ [] ∧ cm_model c ≠ [] ∧ num_lt (num_of_Z 0) (cm_timeout_ms c) = true
  ∧ Forall (λ t, trim t = t ∧ nonempty t = true) (cm_api_keys c)
  ∧ (∃ y, cm_thresholds c = spread DEFAULT_CONTENT_MODERATION_THRESHOLDS y) ∧ cm_provider c = deepseek.

Definition normalized (c : ContentModerationConfigView) : ContentModerationConfigView :=
  {| cm_enabled := cm_enabled c; cm_mode := cm_mode c; cm_observe_hit_action := cm_observe_hit_action c;
     cm_model_type := cm_model_type c; cm_provider := cm_provider c; cm_base_url := cm_base_url c; cm_model := cm_model c;
     cm_api_key_count := None; cm_api_key_masks := None; cm_api_keys := cm_api_keys c; cm_timeout_ms := cm_timeout_ms c;
     cm_all_groups := cm_all_groups c;
     cm_groups := if cm_all_groups c then [] else normalizeStringList (Some (texts_json (cm_groups c)));
     cm_model_filter := normalizeModelFilter (Some (model_filter_json (cm_model_filter c)));
     cm_exclude_openai_oauth_team := cm_exclude_openai_oauth_team c;
     cm_exclude_user_ids := normalizeContentModerationUserIds (Some (JArr (map JNum (cm_exclude_user_ids c))));
     cm_thresholds := cm_thresholds c; cm_keys_configured := nonempty (cm_api_keys c) |}.

Lemma api_keys_read l : Forall (λ t, trim t = t ∧ nonempty t = true) l → api_keys_of (Some (texts_json l)) = l.
Proof.
  unfold api_keys_of, texts_json. induction 1 as [|t l [Ht Hn] _ IH]; [done|]. cbn [map]. rewrite trimmed_text_str, Ht. cbn. rewrite Hn.
  by f_equal.
Qed.

Lemma text_read s d : s ≠ [] → text_of_or (Some (JStr s)) d = s.
Proof. by destruct s. Qed.

Lemma parse_stringify c :
  plain_config c → json_safeb (config_json toLowerCase c) = true →
  parseContentModerationConfig toLowerCase (Some (stringifyContentModerationConfig toLowerCase c)) = normalized c.
Proof.
  intros (Hb & Hm & Ht & Hk & [y Hy] & Hpr) Hs. pose proof (json_safeb_ok _ Hs) as Hsafe. unfold parseContentModerationConfig, stringifyContentModerationConfig.
  destruct (stringify_blank _ Hsafe) as [_ ->]. cbn [negb]. rewrite (json_parse_stringify _ Hsafe).
  assert (Hth : own_entries (cm_thresholds c) = cm_thresholds c).
  { apply safe_entries. unfold config_json in Hs. apply safe_object in Hs as [_ Hf]. rewrite !Forall_cons in Hf. cbn [snd entry] in Hf. apply Hf. }
  unfold config_json, config_of, normalized. unfold map_has. rewrite ?mode_read, ?hit_read, ?model_type_read.
  change (obj_get ?o (js "all_groups")) with (fld o "all_groups"). look. cbn [is_truthy truthy nullish_or].
  rewrite mode_read, hit_read, model_type_read, !text_read, api_keys_read, filter_twice, ids_twice by done.
  f_equal.
  - unfold normalizeProvider. by rewrite Hpr.
  - unfold timeout_of. by rewrite Ht.
  - destruct (cm_all_groups c); [done|]. apply normalize_twice.
  - unfold thresholds_of. cbn [entries_of default from_option]. unfold id. rewrite Hth, Hy. apply spread_again, default_thresholds_keyed.
Qed.
End Read.

(** ** The form *)

Lemma timeout_positive x : num_le (num_of_Z 500) x = true → num_lt (num_of_Z 0) x = true.
Proof. destruct x as [s|s| |s m e]; try destruct s; try done. Qed.

Section Form.
Context (toLowerCase : jstr → jstr).

Abbreviation submitted := (submitted_config).

(** The filter and the ids a form stands for. *)
Definition form_filter (v : ContentModerationFormValues) : ContentModerationModelFilter :=
  normalizeModelFilter toLowerCase (Some (model_filter_json (cm_model_filter (submitted v [])))).

Definition form_ids (v : ContentModerationFormValues) : list jsnum := cm_exclude_user_ids (submitted v []).

(** The form without blanks and repetitions. *)
Definition tidy (v : ContentModerationFormValues) : ContentModerationFormValues :=
  {| fv_enabled := fv_enabled v; fv_mode := fv_mode v; fv_observe_hit_action := fv_observe_hit_action v;
     fv_model_type := fv_model_type v; fv_provider := fv_provider v; fv_base_url := trim (fv_base_url v);
     fv_model := trim (fv_model v); fv_api_key := trim (fv_api_key v); fv_timeout_ms := fv_timeout_ms v;
     fv_all_groups := fv_all_groups v;
     fv_groups := if fv_all_groups v then [] else normalizeStringList toLowerCase (Some (texts_json (fv_groups v)));
     fv_model_filter_type := mf_type (form_filter v);
     fv_model_filter_models_text := join [c_nl] (mf_models (form_filter v));
     fv_exclude_openai_oauth_team := fv_exclude_openai_oauth_team v;
     fv_exclude_user_ids_text := join [c_nl] (map string_of_number (form_ids v)) |}.

(** An accepted form with an address and a model, and ids that are printed as they were typed. *)
Definition form_ok (v : ContentModerationFormValues) (th : object) : Prop :=
  trim (fv_base_url v) ≠ [] ∧ trim (fv_model v) ≠ []
  ∧ Forall (λ w, string_of_number (number_of_string w) = w) (words (fv_exclude_user_ids_text v))
  ∧ json_safeb (config_json toLowerCase (submitted v th)) = true.

Lemma schema_parts v :
  contentModerationSchema v = true ↔
  nonempty (fv_base_url v) = true ∧ nonempty (fv_model v) = true ∧ is_integer (fv_timeout_ms v) = true
  ∧ num_le (num_of_Z 500) (fv_timeout_ms v) = true ∧ num_le (fv_timeout_ms v) (num_of_Z 30000) = true
  ∧ Forall (λ item, is_id_text item && is_safe_integer (number_of_string item) = true) (words (fv_exclude_user_ids_text v))
  ∧ (fv_model_filter_type v = filter_all ∨ nonempty (trim (fv_model_filter_models_text v)) = true).
Proof.
  unfold contentModerationSchema. rewrite !andb_true_iff, orb_true_iff, bool_decide_eq_true, forallb_forall, Forall_forall.
  setoid_rewrite list_elem_of_In. tauto.
Qed.

Lemma submitted_plain v raw :
  contentModerationSchema v = true → trim (fv_base_url v) ≠ [] → trim (fv_model v) ≠ [] →
  plain_config (submitted v (cm_thresholds (parseContentModerationConfig toLowerCase raw))).
Proof.
  intros (_ & _ & _ & Ht & _)%schema_parts Hb Hm. unfold plain_config, submitted_config. cbn. split_and!; try done.
  - by apply timeout_positive.
  - destruct (nonempty (trim (fv_api_key v))) eqn:E; [|constructor]. apply Forall_singleton. split; [apply trim_idemp|done].
  - apply parsed_thresholds.
  - by destruct (fv_provider v).
Qed.

(** Ids are words of the text, and the text of an id is that word. *)
Lemma form_ids_words v :
  Forall (λ w, string_of_number (number_of_string w) = w) (words (fv_exclude_user_ids_text v)) →
  Forall (λ x, ∃ w, w ∈ words (fv_exclude_user_ids_text v) ∧ x = number_of_string w ∧ string_of_number x = w) (form_ids v).
Proof.
  intros Hw. apply Forall_forall. intros x Hx. unfold form_ids, submitted_config in Hx. cbn [cm_exclude_user_ids] in Hx.
  rewrite <- (map_map number_of_string JNum) in Hx. apply elem_of_ids in Hx. apply list_elem_of_fmap in Hx as (w & -> & Hin).
  exists w. rewrite Forall_forall in Hw. split_and!; auto.
Qed.

Lemma tidy_words v :
  Forall (λ w, string_of_number (number_of_string w) = w) (words (fv_exclude_user_ids_text v)) →
  words (fv_exclude_user_ids_text (tidy v)) = map string_of_number (form_ids v).
Proof.
  intros Hw%form_ids_words. apply words_join. apply Forall_map. eapply Forall_impl; [exact Hw|]. intros x (w & Hin & _ & E). cbn. rewrite E.
  pose proof (words_word (fv_exclude_user_ids_text v)) as H. rewrite Forall_forall in H. by apply H.
Qed.

Lemma tidy_ids v th :
  Forall (λ w, string_of_number (number_of_string w) = w) (words (fv_exclude_user_ids_text v)) →
  cm_exclude_user_ids (submitted (tidy v) th) = form_ids v.
Proof.
  intros Hw. unfold submitted_config at 1. cbn [cm_exclude_user_ids]. rewrite (tidy_words v Hw).
  assert (E : map (λ w, JNum (number_of_string w)) (map string_of_number (form_ids v)) = map JNum (form_ids v)).
  { apply form_ids_words in Hw. rewrite map_map. apply map_ext_Forall. eapply Forall_impl; [exact Hw|].
    intros x (w & _ & E & E'). cbn. by rewrite E', E. }
  rewrite E. apply ids_twice.
Qed.

(** The lines of a filter are its models. *)
Lemma filter_lines v :
  mf_type (form_filter v) ≠ filter_all →
  filterb nonempty (map trim (split_char c_nl (join [c_nl] (mf_models (form_filter v))))) = mf_models (form_filter v)
  ∧ mf_models (form_filter v) ≠ [] ∧ normal_texts toLowerCase (mf_models (form_filter v)).
Proof.
  unfold form_filter, submitted_config. cbn [cm_model_filter]. rewrite filter_read. cbn zeta.
  destruct (_ || _) eqn:E; [done|]. intros _. cbn [mf_models mf_type]. apply orb_false_iff in E as [E1 E2].
  apply bool_decide_eq_false in E1. rewrite bool_decide_eq_false_2 in * by done. apply negb_false_iff in E2.
  set (ls := filterb nonempty (map trim (split_char c_nl (fv_model_filter_models_text v)))) in *.
  set (l := normalizeStringList toLowerCase (Some (texts_json ls))) in *.
  assert (Hn : normal_texts toLowerCase l) by apply normal_result.
  assert (Hnl : Forall (λ t, c_nl ∉ t) l).
  { apply Forall_forall. intros t Ht. apply elem_of_normalized in Ht as (item & Hi & ->).
    apply list_elem_of_fmap in Hi as (u & -> & Hu). rewrite trimmed_text_str. apply elem_of_filterb in Hu as [Hu _].
    apply list_elem_of_fmap in Hu as (q & -> & Hq). rewrite trim_idemp. intros Hc%elem_of_trim.
    pose proof (split_char_pieces c_nl (fv_model_filter_models_text v)) as Hp. rewrite Forall_forall in Hp. by apply (Hp q Hq). }
  split_and!; [|by destruct l|done]. rewrite split_char_join by (done || by destruct l).
  destruct Hn as [Ht _]. rewrite (map_ext_Forall trim id), map_id by (eapply Forall_impl; [exact Ht|]; by intros t []).
  apply filterb_id. eapply Forall_impl; [exact Ht|]. by intros t [].
Qed.

Lemma tidy_filter v :
  normalizeModelFilter toLowerCase (Some (model_filter_json (cm_model_filter (submitted (tidy v) [])))) = form_filter v.
Proof.
  unfold submitted_config. cbn [cm_model_filter tidy fv_model_filter_type fv_model_filter_models_text].
  destruct (decide (mf_type (form_filter v) = filter_all)) as [E|E].
  - rewrite E, filter_read, bool_decide_eq_true_2 by done. symmetry. by apply filter_all_empty.
  - destruct (filter_lines v E) as (Hl & Hne & Hn). rewrite Hl, bool_decide_eq_false_2, filter_read by done. cbn zeta.
    rewrite (normal_fixed _ _ Hn), bool_decide_eq_false_2 by done. destruct (form_filter v) as [t models]. cbn in *. by destruct models.
Qed.

(** What the form of a saved setting shows. *)
Lemma saved_form raw v th :
  contentModerationSchema v = true → th = cm_thresholds (parseContentModerationConfig toLowerCase raw) → form_ok v th →
  let saved := stringifyContentModerationConfig toLowerCase (submitted v th) in
  toFormValues toLowerCase saved = tidy v
  ∧ cm_thresholds (parseContentModerationConfig toLowerCase (Some saved)) = th.
Proof.
  intros Hs -> (Hb & Hm & _ & Hj) saved. unfold toFormValues, saved. rewrite parse_stringify by (done || by apply submitted_plain).
  unfold normalized. cbn. split; [|done]. unfold tidy. f_equal.
  - by destruct (trim (fv_api_key v)).
  - by destruct (fv_all_groups v).
  - apply (f_equal (join [c_nl])), (f_equal (map string_of_number)).
    exact (ids_twice (Some (JArr (map (λ w, JNum (number_of_string w)) (words (fv_exclude_user_ids_text v)))))).
Qed.

(** Saving what is shown writes the same setting. *)
Lemma tidy_submitted v th :
  Forall (λ w, string_of_number (number_of_string w) = w) (words (fv_exclude_user_ids_text v)) →
  config_json toLowerCase (submitted (tidy v) th) = config_json toLowerCase (submitted v th).
Proof.
  intros Hw. pose proof (tidy_ids v th Hw) as Hi. pose proof (tidy_filter v) as Hf.
  assert (Hg : (if cm_all_groups (submitted (tidy v) th) then [] else normalizeStringList toLowerCase (Some (texts_json (cm_groups (submitted (tidy v) th)))))
    = if cm_all_groups (submitted v th) then [] else normalizeStringList toLowerCase (Some (texts_json (cm_groups (submitted v th))))).
  { unfold submitted_config. cbn. destruct (fv_all_groups v); [done|].
    exact (normalize_twice toLowerCase (Some (texts_json (fv_groups v)))). }
  unfold config_json. rewrite Hi, Hg.
  change (cm_model_filter (submitted (tidy v) th)) with (cm_model_filter (submitted (tidy v) [])). rewrite Hf.
  change (cm_exclude_user_ids (submitted v th)) with (form_ids v). unfold form_filter, submitted_config.
  cbn [tidy cm_enabled cm_mode cm_observe_hit_action cm_model_type cm_base_url cm_model cm_api_keys cm_timeout_ms cm_all_groups
       cm_exclude_openai_oauth_team cm_thresholds cm_model_filter fv_enabled fv_mode fv_observe_hit_action fv_model_type fv_base_url
       fv_model fv_api_key fv_timeout_ms fv_all_groups fv_exclude_openai_oauth_team].
  by rewrite !trim_idemp.
Qed.

Lemma joined_ink l : l ≠ [] → Forall (λ t, trim t = t ∧ nonempty t = true) l → nonempty (trim (join [c_nl] l)) = true.
Proof.
  intros Hne Hl. destruct l as [|t l]; [done|]. apply Forall_cons in Hl as [[Ht Hn] _]. destruct t as [|c t]; [done|].
  assert (Hc : is_ws c = false).
  { pose proof (trim_edges (c :: t)) as He. rewrite Ht in He. destruct He as [He _]. by apply He. }
  assert (Hin : c ∈ trim (join [c_nl] ((c :: t) :: l))).
  { apply elem_of_trim_ink; [|done]. destruct l; [left|]. rewrite join_cons. left. }
  destruct (trim (join [c_nl] ((c :: t) :: l))); [by apply elem_of_nil in Hin|done].
Qed.

Lemma tidy_accepted v :
  contentModerationSchema v = true → trim (fv_base_url v) ≠ [] → trim (fv_model v) ≠ [] →
  Forall (λ w, string_of_number (number_of_string w) = w) (words (fv_exclude_user_ids_text v)) →
  contentModerationSchema (tidy v) = true.
Proof.
  intros (_ & _ & Hi & Ht & Ht' & Hd & _)%schema_parts Hb Hm Hw. apply schema_parts. split_and!; try done.
  - cbn. by destruct (trim (fv_base_url v)).
  - cbn. by destruct (trim (fv_model v)).
  - rewrite (tidy_words v Hw). apply Forall_map. eapply Forall_impl; [exact (form_ids_words v Hw)|]. intros x (w & Hin & _ & E).
    cbn. rewrite E. rewrite Forall_forall in Hd. by apply Hd.
  - destruct (decide (mf_type (form_filter v) = filter_all)) as [E|E]; [by left|right]. cbn [tidy fv_model_filter_models_text].
    destruct (filter_lines v E) as (_ & Hne & [Hn _]). by apply joined_ink.
Qed.

(** ** The answer of the server *)

(** The form with another key. *)
Definition with_key (key : jstr) (v : ContentModerationFormValues) : ContentModerationFormValues :=
  {| fv_enabled := fv_enabled v; fv_mode := fv_mode v; fv_observe_hit_action := fv_observe_hit_action v;
     fv_model_type := fv_model_type v; fv_provider := fv_provider v; fv_base_url := fv_base_url v; fv_model := fv_model v;
     fv_api_key := key; fv_timeout_ms := fv_timeout_ms v; fv_all_groups := fv_all_groups v; fv_groups := fv_groups v;
     fv_model_filter_type := fv_model_filter_type v; fv_model_filter_models_text := fv_model_filter_models_text v;
     fv_exclude_openai_oauth_team := fv_exclude_openai_oauth_team v; fv_exclude_user_ids_text := fv_exclude_user_ids_text v |}.

Lemma tidy_with_key key v : tidy (with_key key v) = with_key (trim key) (tidy v).
Proof. done. Qed.

(** The items of a list; the server sends [null] for one that is empty. *)
Definition items_of (v : option json) : list json := match v with Some (JArr l) => l | _ => [] end.

(** [answer] is the setting [saved] as the server sends it back: the fields as
    they were written, the thresholds in an order of its own, any further
    fields, and a mask for each of the keys. *)
Definition answers (saved answer : jstr) (masks : list jstr) : Prop :=
  ∃ o o' f f' t t',
    json_parse saved = Some (JObj o) ∧ json_parse answer = Some (JObj o')
    ∧ Forall (λ n, fld o' n = fld o n)
        ["enabled"; "mode"; "observe_hit_action"; "model_type"; "base_url"; "model"; "timeout_ms"; "all_groups";
         "exclude_openai_oauth_team"]%string
    ∧ Forall (λ n, items_of (fld o' n) = items_of (fld o n)) ["groups"; "exclude_user_ids"]%string
    ∧ (fld o "model_filter" = Some (JObj f) ∧ fld o' "model_filter" = Some (JObj f')
       ∧ fld f' "type" = fld f "type" ∧ items_of (fld f' "models") = items_of (fld f "models"))
    ∧ (fld o "thresholds" = Some (JObj t) ∧ fld o' "thresholds" = Some (JObj t') ∧ t' ≡ₚ t)
    ∧ fld o' "api_keys" = Some (texts_json masks)
    ∧ length masks = length (items_of (fld o "api_keys"))
    ∧ Forall (λ m, trim m = m ∧ nonempty m = true) masks.

Lemma parse_elements_array f acc s v r : parse_elements f acc s = Some (v, r) → ∃ l, v = JArr l.
Proof.
  revert acc s. induction f as [|f IH]; intros acc s; [done|]. cbn [parse_elements]. destruct (parse_value f s) as [[x s']|]; [|done].
  destruct (skip_ws s') as [|d s'']; [done|]. destruct (d =? c_comma); [apply IH|]. destruct (d =? 93); [|done]. intros [= <- _]. eauto.
Qed.

Lemma parse_object_ink s o : json_parse s = Some (JObj o) → nonempty (trim s) = true.
Proof.
  intros H. assert (Hin : 123 ∈ trim s); [|destruct (trim s); [by apply elem_of_nil in Hin|done]].
  apply elem_of_trim_ink; [|done]. destruct (drop_while_suffix is_json_ws s) as (u & -> & _). apply elem_of_app. right.
  fold (skip_ws s). unfold json_parse in H. cbn [parse_value] in H. destruct (skip_ws s) as [|c r]; [done|].
  destruct (c =? c_quote); [repeat (case_match; simplify_eq)|]. destruct (c =? 123) eqn:Eo; [apply Z.eqb_eq in Eo as ->; left|].
  exfalso. destruct (c =? 91); [|repeat (case_match; simplify_eq)]. destruct (skip_ws r) as [|d r']; [done|]. destruct (d =? 93); [repeat (case_match; simplify_eq)|].
  destruct (parse_elements _ _ _) as [[x r'']|] eqn:E; [|done]. apply parse_elements_array in E as [l ->]. repeat (case_match; simplify_eq).
Qed.

Lemma texts_items l l' : items_of l = items_of l' → normalizeStringList toLowerCase l = normalizeStringList toLowerCase l'.
Proof.
  assert (H : ∀ v, normalizeStringList toLowerCase v = (foldl (list_step toLowerCase) ([], []) (items_of v)).2) by by intros [[]|].
  intros E. by rewrite !H, E.
Qed.

Lemma ids_items l l' : items_of l = items_of l' → normalizeContentModerationUserIds l = normalizeContentModerationUserIds l'.
Proof.
  assert (H : ∀ v, normalizeContentModerationUserIds v = foldl id_step [] (items_of v)) by by intros [[]|].
  intros E. by rewrite !H, E.
Qed.

(** Thresholds of the known categories, in whatever order they come. *)
Lemma spread_known (d t t' : object) :
  NoDup (map fst d) → map fst t = map fst d → t' ≡ₚ t → spread d t' = t.
Proof.
  intros Hd Ht Hp. assert (Hn : NoDup (map fst t')) by by rewrite Hp, Ht.
  assert (Hk : map fst (spread d t') = map fst t).
  { rewrite spread_keys, Ht, <- (app_nil_r (map fst d)) at 1. unfold js_set_from. rewrite app_nil_r.
    assert (H : ∀ l, (∀ x, x ∈ l → x ∈ map fst d) → foldl set_add (map fst d) l = map fst d).
    { induction l as [|x l IH]; intros Hl; [done|]. cbn. unfold set_add at 2. rewrite decide_True by (apply Hl; left).
      apply IH. set_solver. }
    apply H. intros x. by rewrite Hp, Ht. }
  apply assoc_ext; [done|by rewrite Hk, Ht|]. intros k. rewrite map_get_spread by done.
  assert (He : map_get t' k = map_get t k).
  { apply option_eq. intros v. assert (Hn' : NoDup (map fst t)) by by rewrite Ht.
    split; intros E%map_get_Some_elem; apply map_get_elem; try done; [by rewrite <- Hp|by rewrite Hp]. }
  rewrite He. destruct (map_get t k) eqn:E; [done|]. apply map_get_None. apply map_get_None in E. by rewrite <- Ht.
Qed.

(** The thresholds of a setting are those of the categories the server knows. *)
Definition known_thresholds (th : object) : Prop := map fst th = map fst DEFAULT_CONTENT_MODERATION_THRESHOLDS.

(** The answer opens as the setting that was saved, but for the keys. *)
Lemma answer_read saved answer masks th :
  answers saved answer masks → (∃ o, json_parse saved = Some (JObj o) ∧ fld o "thresholds" = Some (JObj th)) →
  known_thresholds th → json_safeb (JObj th) = true →
  toFormValues toLowerCase answer = with_key (default [] (head masks)) (toFormValues toLowerCase saved)
  ∧ cm_thresholds (parseContentModerationConfig toLowerCase (Some answer)) = th.
Proof.
  intros (o & o' & f & f' & t & t' & Ho & Ho' & Hp & Hi & (Hf & Hf' & Hty & Hm) & (Ht & Ht' & Hperm) & Hk & _ & Hmk) (q & Hq & Htq) Hknown Hsafe.
  assert (q = o) as -> by congruence. assert (t = th) as -> by congruence.
  rewrite !Forall_cons in Hp. rewrite !Forall_cons in Hi. destruct Hp as (He & Hmo & Hh & Hmt & Hb & Hmd & Hto & Ha & Hx & _), Hi as (Hg & Hu & _).
  apply texts_items in Hg, Hm. apply ids_items in Hu.
  assert (Hall : map_has o' (js "all_groups") = map_has o (js "all_groups")) by (unfold map_has; change (map_get ?o (js "all_groups")) with (fld o "all_groups"); by rewrite Ha).
  unfold toFormValues, parseContentModerationConfig. rewrite (parse_object_ink _ _ Ho), (parse_object_ink _ _ Ho'), Ho, Ho'. cbn [negb].
  unfold config_of, with_key. cbn. rewrite He, Hmo, Hh, Hmt, Hb, Hmd, Hto, Ha, Hx, Hg, Hu, Hall, Hk, api_keys_read by done. split.
  - f_equal; unfold Moderation.normalizeModelFilter; by rewrite Hf, Hf', Hty, Hm.
  - unfold thresholds_of. rewrite Ht'. cbn. apply spread_known; [apply default_thresholds_keyed|done|]. by rewrite own_entries_Permutation.
Qed.

(** C25. A form that is accepted is shown again as it was submitted, when the
    server sends its setting back: without blanks around its texts and without
    groups, models and users that repeat up to case, and with the mask of the
    key in the place of the key; saving what is shown then writes what the form
    with that mask would have written, and the thresholds are those of the
    setting before. The address and the model must not be blank (a blank one is
    accepted, and opens as the default), the ids of users are printed as they
    were typed, the texts are texts that JSON keeps, and the categories of the
    thresholds are those the page knows. The server is one that has nothing to
    correct: it cuts a slash at the end of the address and lists that are too
    long ([setting/content_moderation.go]), and sends everything else back. *)
Theorem moderation_reopens raw v saved answer masks :
  form_ok v (cm_thresholds (parseContentModerationConfig toLowerCase (Some raw))) →
  known_thresholds (cm_thresholds (parseContentModerationConfig toLowerCase (Some raw))) →
  onSubmit toLowerCase raw v = Some saved →
  answers saved answer masks →
  let masked := with_key (default [] (head masks)) v in
  toFormValues toLowerCase answer = tidy masked
  ∧ onSubmit toLowerCase answer (tidy masked) = onSubmit toLowerCase raw masked
  ∧ cm_thresholds (parseContentModerationConfig toLowerCase (Some answer))
    = cm_thresholds (parseContentModerationConfig toLowerCase (Some raw)).
Proof.
  intros Hok Hkn Hs Han masked. unfold onSubmit in Hs. destruct (contentModerationSchema v) eqn:Hv; [|done]. apply (inj Some) in Hs as <-.
  destruct (saved_form (Some raw) v _ Hv eq_refl Hok) as [Hf _]. pose proof Hok as (Hb & Hm & Hw & Hj).
  assert (Hmask : trim (default [] (head masks)) = default [] (head masks)).
  { destruct Han as (? & ? & ? & ? & ? & ? & _ & _ & _ & _ & _ & _ & _ & _ & Hmk). destruct Hmk as [|m l [? _]]; done. }
  set (th := cm_thresholds _) in *.
  assert (Hth : json_safeb (JObj th) = true).
  { unfold config_json in Hj. apply safe_object in Hj as [_ Hj]. rewrite !Forall_cons in Hj. cbn [snd entry] in Hj. apply Hj. }
  destruct (answer_read _ _ _ th Han) as [Ha Hat]; [|done|done|].
  { eexists. split; [by apply json_parse_stringify, json_safeb_ok|]. look. done. }
  rewrite Ha, Hf. split_and!; [unfold masked; by rewrite tidy_with_key, Hmask| |done].
  unfold onSubmit. rewrite (tidy_accepted masked) by done. rewrite Hat. assert (contentModerationSchema masked = true) as -> by done.
  f_equal. unfold stringifyContentModerationConfig. by rewrite tidy_submitted.
Qed.
End Form.

(** ** Evaluations *)

Definition sample_form : ContentModerationFormValues :=
  {| fv_enabled := true; fv_mode := observe; fv_observe_hit_action := hit_pre_block; fv_model_type := general; fv_provider := deepseek;
     fv_base_url := js " https://a.b "; fv_model := js "m"; fv_api_key := js " sk-1"; fv_timeout_ms := num_of_Z 900;
     fv_all_groups := false; fv_groups := map js ["vip"; "VIP"; "default"]%string; fv_model_filter_type := filter_exclude;
     fv_model_filter_models_text := js "gpt-5" ++ [c_nl; c_nl] ++ js " GPT-5 "; fv_exclude_openai_oauth_team := true;
     fv_exclude_user_ids_text := js "12, 7 12" |}.

(** What the server sends for it: the mask of the key, the thresholds in
    another order, and the fields it adds. *)
Definition sample_saved : jstr := default [] (onSubmit lower_id sample_setting sample_form).
Definition object_in (v : option json) : object := match v with Some (JObj o) => o | _ => [] end.
Definition saved_object : object := object_in (json_parse sample_saved).
Definition answer_object : object :=
  obj_set (obj_set (obj_set saved_object (js "thresholds") (JObj (rev (object_in (fld saved_object "thresholds")))))
    (js "api_keys") (texts_json [js "****sk-1"])) (js "keys_configured") (JBool true).
Definition sample_answer : jstr := json_stringify (JObj answer_object).

Lemma moderation_reopens_witness :
  let shown := toFormValues lower_id sample_answer in
  onSubmit lower_id sample_answer shown = onSubmit lower_id sample_setting (with_key (js "****sk-1") sample_form)
  ∧ fv_groups shown = map js ["vip"; "default"]%string ∧ fv_api_key shown = js "****sk-1"
  ∧ fv_exclude_user_ids_text shown = js "12" ++ [c_nl] ++ js "7" ∧ fv_model_filter_models_text shown = js "gpt-5".
Proof.
  destruct (moderation_reopens lower_id sample_setting sample_form sample_saved sample_answer [js "****sk-1"]) as (Hf & Hs & _).
  - split_and!; [discriminate|discriminate|repeat (constructor; [vm_compute; reflexivity|]); constructor|vm_compute; reflexivity].
  - vm_compute. reflexivity.
  - vm_compute. reflexivity.
  - exists saved_object, answer_object, (object_in (fld saved_object "model_filter")), (object_in (fld answer_object "model_filter")),
      (object_in (fld saved_object "thresholds")), (rev (object_in (fld saved_object "thresholds"))).
    do 2 (split; [vm_compute; reflexivity|]). do 2 (split; [repeat (constructor; [vm_compute; reflexivity|]); constructor|]).
    split; [split; [|split; [|split]]; vm_compute; reflexivity|].
    split; [split; [|split]; [vm_compute; reflexivity|vm_compute; reflexivity|exact (symmetry (Permutation_rev _))]|].
    do 2 (split; [vm_compute; reflexivity|]). constructor; [split; vm_compute; reflexivity|constructor].
  - cbv zeta. rewrite Hf. split; [exact Hs|]. split_and!; vm_compute; reflexivity.
Defined.

(** The form has one field for the keys: of two keys the server rotates, the
    second is gone once anything is saved. *)
Lemma extra_keys_dropped :
  let v := toFormValues lower_id sample_setting in
  cm_api_keys (parseContentModerationConfig lower_id (Some sample_setting)) = map js ["****1"; "****2"]%string
  ∧ option_map (λ s, cm_api_keys (parseContentModerationConfig lower_id (Some s))) (onSubmit lower_id sample_setting v)
    = Some [js "****1"].
Proof. split; by_eval. Qed.

(** A blank address is accepted, and opens as the one of the default. *)
Lemma blank_address_accepted :
  let v := {| fv_enabled := true; fv_mode := observe; fv_observe_hit_action := hit_observe; fv_model_type := dedicated;
     fv_provider := deepseek; fv_base_url := js " "; fv_model := js "m"; fv_api_key := []; fv_timeout_ms := num_of_Z 900;
     fv_all_groups := true; fv_groups := []; fv_model_filter_type := filter_all; fv_model_filter_models_text := [];
     fv_exclude_openai_oauth_team := true; fv_exclude_user_ids_text := [] |} in
  option_map (λ s, fv_base_url (toFormValues lower_id s)) (onSubmit lower_id sample_setting v) = Some (js "https://api.openai.com").
Proof. by_eval. Qed.
