(* ===== verification/ModerationForm.v ===== *)
(** * Settings: the form of content moderation

    Model of the controls of
    [features/system-settings/request-limits/content-moderation-section.tsx]:
    the values of the form, the models offered for the audit, and a request
    for the models of the provider that may be under way while the form is
    edited. The answer of the server is an event of its own; the values a save
    stores are those of [Moderation]. *)

From Stdlib Require Import String.
From S2P Require Import JsArith JsonText JsObject NavConfig Moderation.

#[export] Instance model_type_eq_dec : EqDecision ContentModerationModelType.
Proof. solve_decision. Defined.

(** ** The values *)

Definition with_audit (t : ContentModerationModelType) (base_url model : jstr) (timeout : jsnum) (v : ContentModerationFormValues)
    : ContentModerationFormValues :=
  {| fv_enabled := fv_enabled v; fv_mode := fv_mode v; fv_observe_hit_action := fv_observe_hit_action v; fv_model_type := t;
     fv_provider := fv_provider v; fv_base_url := base_url; fv_model := model; fv_api_key := fv_api_key v; fv_timeout_ms := timeout;
     fv_all_groups := fv_all_groups v; fv_groups := fv_groups v; fv_model_filter_type := fv_model_filter_type v;
     fv_model_filter_models_text := fv_model_filter_models_text v; fv_exclude_openai_oauth_team := fv_exclude_openai_oauth_team v;
     fv_exclude_user_ids_text := fv_exclude_user_ids_text v |}.

Definition with_groups (all : bool) (groups : list jstr) (v : ContentModerationFormValues) : ContentModerationFormValues :=
  {| fv_enabled := fv_enabled v; fv_mode := fv_mode v; fv_observe_hit_action := fv_observe_hit_action v; fv_model_type := fv_model_type v;
     fv_provider := fv_provider v; fv_base_url := fv_base_url v; fv_model := fv_model v; fv_api_key := fv_api_key v; fv_timeout_ms := fv_timeout_ms v;
     fv_all_groups := all; fv_groups := groups; fv_model_filter_type := fv_model_filter_type v;
     fv_model_filter_models_text := fv_model_filter_models_text v; fv_exclude_openai_oauth_team := fv_exclude_openai_oauth_team v;
     fv_exclude_user_ids_text := fv_exclude_user_ids_text v |}.

Definition with_filter (t : ContentModerationModelFilterType) (text : jstr) (v : ContentModerationFormValues) : ContentModerationFormValues :=
  {| fv_enabled := fv_enabled v; fv_mode := fv_mode v; fv_observe_hit_action := fv_observe_hit_action v; fv_model_type := fv_model_type v;
     fv_provider := fv_provider v; fv_base_url := fv_base_url v; fv_model := fv_model v; fv_api_key := fv_api_key v; fv_timeout_ms := fv_timeout_ms v;
     fv_all_groups := fv_all_groups v; fv_groups := fv_groups v; fv_model_filter_type := t;
     fv_model_filter_models_text := text; fv_exclude_openai_oauth_team := fv_exclude_openai_oauth_team v;
     fv_exclude_user_ids_text := fv_exclude_user_ids_text v |}.

(** The fields that nothing else looks at; the mode decides whether the action
    for a hit is shown. *)
Definition with_plain (enabled : bool) (mode : ContentModerationMode) (key : jstr) (team : bool)
    (ids : jstr) (v : ContentModerationFormValues) : ContentModerationFormValues :=
  {| fv_enabled := enabled; fv_mode := mode; fv_observe_hit_action := fv_observe_hit_action v; fv_model_type := fv_model_type v;
     fv_provider := fv_provider v; fv_base_url := fv_base_url v; fv_model := fv_model v; fv_api_key := key; fv_timeout_ms := fv_timeout_ms v;
     fv_all_groups := fv_all_groups v; fv_groups := fv_groups v; fv_model_filter_type := fv_model_filter_type v;
     fv_model_filter_models_text := fv_model_filter_models_text v; fv_exclude_openai_oauth_team := team;
     fv_exclude_user_ids_text := ids |}.

Definition with_hit (hit : ContentModerationObserveHitAction) (v : ContentModerationFormValues) : ContentModerationFormValues :=
  {| fv_enabled := fv_enabled v; fv_mode := fv_mode v; fv_observe_hit_action := hit; fv_model_type := fv_model_type v;
     fv_provider := fv_provider v; fv_base_url := fv_base_url v; fv_model := fv_model v; fv_api_key := fv_api_key v; fv_timeout_ms := fv_timeout_ms v;
     fv_all_groups := fv_all_groups v; fv_groups := fv_groups v; fv_model_filter_type := fv_model_filter_type v;
     fv_model_filter_models_text := fv_model_filter_models_text v; fv_exclude_openai_oauth_team := fv_exclude_openai_oauth_team v;
     fv_exclude_user_ids_text := fv_exclude_user_ids_text v |}.

(** ** The section *)

Record ContentModerationSection := {
  ms_values : ContentModerationFormValues;
  ms_availableModels : list jstr;
  ms_fetchingModels : bool;
}.

Definition with_values (v : ContentModerationFormValues) (s : ContentModerationSection) : ContentModerationSection :=
  {| ms_values := v; ms_availableModels := ms_availableModels s; ms_fetchingModels := ms_fetchingModels s |}.

Definition offered_model (model : jstr) : list jstr := if nonempty model then [model] else [].

Section Section_.
Context (toLowerCase : jstr → jstr).

Definition openSection (raw : jstr) : ContentModerationSection :=
  let defaults := toFormValues toLowerCase raw in
  {| ms_values := defaults; ms_availableModels := offered_model (fv_model defaults); ms_fetchingModels := false |}.

(** The effect of another stored setting. *)
Definition resetSection (raw : jstr) (s : ContentModerationSection) : ContentModerationSection :=
  let defaults := toFormValues toLowerCase raw in
  {| ms_values := defaults; ms_availableModels := offered_model (fv_model defaults); ms_fetchingModels := ms_fetchingModels s |}.
End Section_.

Definition default_model (t : ContentModerationModelType) : jstr :=
  match t with general => js "deepseek-v4-flash" | dedicated => js "omni-moderation-latest" end.
Definition default_base_url (t : ContentModerationModelType) : jstr :=
  match t with general => js "https://api.deepseek.com" | dedicated => js "https://api.openai.com" end.
Definition default_timeout (t : ContentModerationModelType) : jsnum :=
  match t with general => num_of_Z 8000 | dedicated => num_of_Z 3000 end.
Definition other_type (t : ContentModerationModelType) : ContentModerationModelType :=
  match t with general => dedicated | dedicated => general end.

(** The toggle of the model type: the model becomes the default of the type,
    the address and the timeout only where they are the defaults of the other. *)
Definition model_type_change (t : ContentModerationModelType) (s : ContentModerationSection) : ContentModerationSection :=
  let v := ms_values s in
  let o := other_type t in
  let base_url := if bool_decide (fv_base_url v = default_base_url o) then default_base_url t else fv_base_url v in
  let timeout := if num_eq (fv_timeout_ms v) (default_timeout o) then default_timeout t else fv_timeout_ms v in
  {| ms_values := with_audit t base_url (default_model t) timeout v; ms_availableModels := [default_model t];
     ms_fetchingModels := ms_fetchingModels s |}.

Definition all_groups_change (all : bool) (v : ContentModerationFormValues) : ContentModerationFormValues :=
  with_groups all (if all then [] else fv_groups v) v.

Definition filter_type_change (t : ContentModerationModelFilterType) (v : ContentModerationFormValues) : ContentModerationFormValues :=
  with_filter t (if bool_decide (t = filter_all) then [] else fv_model_filter_models_text v) v.

(** The request for the models starts; without a key there is none. *)
Definition fetch_start (s : ContentModerationSection) : ContentModerationSection :=
  if nonempty (trim (fv_api_key (ms_values s)))
  then {| ms_values := ms_values s; ms_availableModels := ms_availableModels s; ms_fetchingModels := true |} else s.

(** Its answer: the address and the models of the provider, or [None] for a failure. *)
Definition fetch_answer (answer : option (jstr * list jstr)) (s : ContentModerationSection) : ContentModerationSection :=
  match answer with
  | None => {| ms_values := ms_values s; ms_availableModels := ms_availableModels s; ms_fetchingModels := false |}
  | Some (base_url, models) =>
      let v := ms_values s in
      let model := if bool_decide (fv_model v ∈ models) then fv_model v else default [] (head models) in
      {| ms_values := with_audit (fv_model_type v) base_url model (fv_timeout_ms v) v; ms_availableModels := models; ms_fetchingModels := false |}
  end.

Inductive SectionEvent :=
| ModelTypeToggle (t : ContentModerationModelType)
| ModelSelect (model : jstr)
| ModelInput (model : jstr)
| BaseUrlInput (base_url : jstr)
| TimeoutInput (timeout : jsnum)
| AllGroupsSelect (all : bool)
| GroupsSelect (groups : list jstr)
| FilterTypeSelect (t : ContentModerationModelFilterType)
| FilterModelsInput (text : jstr)
| HitActionSelect (hit : ContentModerationObserveHitAction)
| PlainInput (enabled : bool) (mode : ContentModerationMode) (key : jstr) (team : bool) (ids : jstr)
| FetchModels
| ModelsFetched (answer : option (jstr * list jstr))
| StoredSetting (raw : jstr).

(** Whether the control of an event is shown and enabled. *)
Definition offered (e : SectionEvent) (s : ContentModerationSection) : bool :=
  let v := ms_values s in
  match e with
  | ModelTypeToggle t => negb (bool_decide (t = fv_model_type v))
  | ModelSelect model => bool_decide (fv_model_type v = general) && bool_decide (model ∈ ms_availableModels s)
  | ModelInput _ => bool_decide (fv_model_type v = dedicated)
  | HitActionSelect _ => bool_decide (fv_mode v = observe)
  | GroupsSelect _ => negb (fv_all_groups v)
  | FilterModelsInput _ => negb (bool_decide (fv_model_filter_type v = filter_all))
  | FetchModels => bool_decide (fv_model_type v = general) && negb (ms_fetchingModels s)
  | ModelsFetched _ => ms_fetchingModels s
  | _ => true
  end.

Definition section_event (toLowerCase : jstr → jstr) (e : SectionEvent) (s : ContentModerationSection) : ContentModerationSection :=
  let v := ms_values s in
  match e with
  | ModelTypeToggle t => model_type_change t s
  | ModelSelect model => if nonempty model then with_values (with_audit (fv_model_type v) (fv_base_url v) model (fv_timeout_ms v) v) s else s
  | ModelInput model => with_values (with_audit (fv_model_type v) (fv_base_url v) model (fv_timeout_ms v) v) s
  | BaseUrlInput base_url => with_values (with_audit (fv_model_type v) base_url (fv_model v) (fv_timeout_ms v) v) s
  | TimeoutInput timeout => with_values (with_audit (fv_model_type v) (fv_base_url v) (fv_model v) timeout v) s
  | AllGroupsSelect all => with_values (all_groups_change all v) s
  | GroupsSelect groups => with_values (with_groups (fv_all_groups v) groups v) s
  | FilterTypeSelect t => with_values (filter_type_change t v) s
  | FilterModelsInput text => with_values (with_filter (fv_model_filter_type v) text v) s
  | HitActionSelect hit => with_values (with_hit hit v) s
  | PlainInput enabled mode key team ids => with_values (with_plain enabled mode key team ids v) s
  | FetchModels => fetch_start s
  | ModelsFetched answer => fetch_answer answer s
  | StoredSetting raw => resetSection toLowerCase raw s
  end.

(** The runs of the page. *)
Inductive section_run (toLowerCase : jstr → jstr) : ContentModerationSection → list SectionEvent → ContentModerationSection → Prop :=
| section_run_nil s : section_run toLowerCase s [] s
| section_run_cons s e l s' :
    offered e s = true → section_run toLowerCase (section_event toLowerCase e s) l s' → section_run toLowerCase s (e :: l) s'.

(** ** What every state of the page has *)

(** The model of a general audit is one that is offered (or none); the groups
    are empty while all are audited, and so is the list of models. *)
Definition section_ok (s : ContentModerationSection) : Prop :=
  (fv_model_type (ms_values s) = general → fv_model (ms_values s) = [] ∨ fv_model (ms_values s) ∈ ms_availableModels s)
  ∧ (fv_all_groups (ms_values s) = true → fv_groups (ms_values s) = [])
  ∧ (fv_model_filter_type (ms_values s) = filter_all → fv_model_filter_models_text (ms_values s) = []).

Lemma offered_self m : m = [] ∨ m ∈ offered_model m.
Proof. destruct m as [|c m]; [by left|right]. left. Qed.

Lemma hidden_models_empty toLowerCase v :
  mf_type (normalizeModelFilter toLowerCase v) = filter_all → mf_models (normalizeModelFilter toLowerCase v) = [].
Proof.
  unfold normalizeModelFilter. case_bool_decide as E; cbn [orb]; [done|]. by destruct (negb _).
Qed.

Lemma config_hidden toLowerCase value :
  let config := parseContentModerationConfig toLowerCase value in
  (cm_all_groups config = true → cm_groups config = []) ∧ (mf_type (cm_model_filter config) = filter_all → mf_models (cm_model_filter config) = []).
Proof.
  assert (H : ∀ o, (cm_all_groups (config_of toLowerCase o) = true → cm_groups (config_of toLowerCase o) = [])
    ∧ (mf_type (cm_model_filter (config_of toLowerCase o)) = filter_all → mf_models (cm_model_filter (config_of toLowerCase o)) = [])).
  { intros o. split; [|apply hidden_models_empty]. unfold config_of. cbn [cm_all_groups cm_groups]. by intros ->. }
  unfold parseContentModerationConfig. destruct value as [s|]; [|done]. destruct (negb _); [done|]. destruct (json_parse s) as [[]|]; auto.
Qed.

Lemma stored_ok toLowerCase raw fetching :
  section_ok {| ms_values := toFormValues toLowerCase raw; ms_availableModels := offered_model (fv_model (toFormValues toLowerCase raw));
                ms_fetchingModels := fetching |}.
Proof.
  destruct (config_hidden toLowerCase (Some raw)) as [Hg Hf]. unfold section_ok, toFormValues.
  cbn [ms_values ms_availableModels fv_model_type fv_model fv_all_groups fv_groups fv_model_filter_type fv_model_filter_models_text].
  split_and!; [intros _; apply offered_self|done|]. intros H. by rewrite (Hf H).
Qed.

Lemma event_ok toLowerCase e s : offered e s = true → section_ok s → section_ok (section_event toLowerCase e s).
Proof.
  intros He (Hm & Hg & Hf). unfold section_ok. destruct e; cbn [section_event offered] in *; try done; try (apply stored_ok).
  - cbn. split_and!; [right; left|done|done].
  - apply andb_true_iff in He as [_ He%bool_decide_eq_true]. destruct (nonempty model) eqn:E; [|done]. cbn. by split_and!; [right|..].
  - apply bool_decide_eq_true in He. cbn. split_and!; [by rewrite He|done|done].
  - cbn. split_and!; [done| |done]. by intros ->.
  - apply negb_true_iff in He. cbn. split_and!; [done| |done]. by rewrite He.
  - cbn. split_and!; [done|done|]. by intros ->.
  - apply negb_true_iff, bool_decide_eq_false in He. by cbn.
  - unfold fetch_start. by destruct (nonempty _).
  - destruct answer as [[base_url models]|]; [|done]. cbn. split_and!; [|done|done]. intros _. case_bool_decide; [by right|].
    destruct models as [|m models]; [by left|right]. left.
Qed.

(** The action for a hit that was selected or stored last. *)
Definition last_hit (toLowerCase : jstr → jstr) (hit : ContentModerationObserveHitAction) (e : SectionEvent) : ContentModerationObserveHitAction :=
  match e with
  | HitActionSelect hit' => hit'
  | StoredSetting raw => fv_observe_hit_action (toFormValues toLowerCase raw)
  | _ => hit
  end.

Lemma event_hit toLowerCase e s :
  fv_observe_hit_action (ms_values (section_event toLowerCase e s)) = last_hit toLowerCase (fv_observe_hit_action (ms_values s)) e.
Proof.
  destruct e; try done; cbn [section_event last_hit].
  - by destruct (nonempty model).
  - unfold fetch_start. by destruct (nonempty _).
  - by destruct answer as [[base_url models]|].
Qed.

(** C34. In every state of the page, whatever is edited, stored meanwhile or
    answered, the model of a general audit is one of those that are offered
    (or none is chosen), the groups are empty while all groups are audited and
    so is the list of models while all models are: of these two hidden fields a
    save stores nothing. The third field that is hidden at times, the action
    for a hit, which is shown in the observing mode only, is kept: a save in
    either mode stores the action that was selected last while it was shown, or
    the one of the setting. *)
Theorem moderation_form_invariant (toLowerCase : jstr → jstr) (raw : jstr) (l : list SectionEvent) (s : ContentModerationSection)
    (Hrun : section_run toLowerCase (openSection toLowerCase raw) l s) :
  section_ok s
  ∧ ∀ thresholds, cm_observe_hit_action (submitted_config (ms_values s) thresholds)
                  = fold_left (last_hit toLowerCase) l (fv_observe_hit_action (toFormValues toLowerCase raw)).
Proof.
  assert (H : ∀ s0, section_run toLowerCase s0 l s → section_ok s0 →
    section_ok s ∧ fv_observe_hit_action (ms_values s) = fold_left (last_hit toLowerCase) l (fv_observe_hit_action (ms_values s0))).
  { clear Hrun. intros s0. induction 1 as [|s1 e l s2 He _ IH]; [done|]. intros Hs. cbn [fold_left]. rewrite <- event_hit.
    by apply IH, event_ok. }
  destruct (H _ Hrun (stored_ok _ _ _)) as [Hs Hh]. split; [done|]. intros thresholds. exact Hh.
Qed.

(** ** The toggle of the model type *)

Lemma num_eq_finite x m e : num_eq x (S754_finite false m e) = true → x = S754_finite false m e.
Proof.
  unfold num_eq, SFeqb, SFcompare. destruct x as [[]|[]| |[] m' e']; try done.
  destruct (Z.compare_spec e' e) as [->|He|He]; try done. destruct (Pos.compare_cont Eq m' m) eqn:E; try done.
  by apply Pos.compare_eq in E as ->.
Qed.

Lemma num_eq_default x t : num_eq x (default_timeout t) = true → x = default_timeout t.
Proof.
  assert (H : ∃ m e, default_timeout t = S754_finite false m e) by (destruct t; vm_compute; eauto).
  destruct H as (m & e & ->). apply num_eq_finite.
Qed.

(** There and back: the address and the timeout return, but for those that are
    the defaults of the other type; the model is the default one. *)
Lemma toggle_back s :
  let t := fv_model_type (ms_values s) in
  fv_base_url (ms_values s) ≠ default_base_url (other_type t) →
  num_eq (fv_timeout_ms (ms_values s)) (default_timeout (other_type t)) = false →
  ms_values (model_type_change t (model_type_change (other_type t) s))
  = with_audit t (fv_base_url (ms_values s)) (default_model t) (fv_timeout_ms (ms_values s)) (ms_values s).
Proof.
  cbv zeta. set (t := fv_model_type (ms_values s)). intros Hb Ht. assert (Ho : other_type (other_type t) = t) by by destruct t.
  unfold model_type_change. cbv zeta. cbn [ms_values with_audit fv_base_url fv_timeout_ms]. rewrite Ho.
  assert (Hr : ∀ u, num_eq (default_timeout u) (default_timeout u) = true) by by intros [].
  assert (Eb : (if bool_decide ((if bool_decide (fv_base_url (ms_values s) = default_base_url t) then default_base_url (other_type t)
      else fv_base_url (ms_values s)) = default_base_url (other_type t)) then default_base_url t
    else if bool_decide (fv_base_url (ms_values s) = default_base_url t) then default_base_url (other_type t) else fv_base_url (ms_values s))
    = fv_base_url (ms_values s)).
  { destruct (decide (fv_base_url (ms_values s) = default_base_url t)) as [E|E].
    - rewrite (bool_decide_true _ E), bool_decide_true by done. by rewrite E.
    - rewrite (bool_decide_false _ E), bool_decide_false by done. done. }
  assert (Et : (if num_eq (if num_eq (fv_timeout_ms (ms_values s)) (default_timeout t) then default_timeout (other_type t)
      else fv_timeout_ms (ms_values s)) (default_timeout (other_type t)) then default_timeout t
    else if num_eq (fv_timeout_ms (ms_values s)) (default_timeout t) then default_timeout (other_type t) else fv_timeout_ms (ms_values s))
    = fv_timeout_ms (ms_values s)).
  { destruct (num_eq (fv_timeout_ms (ms_values s)) (default_timeout t)) eqn:E; [by rewrite Hr, (num_eq_default _ _ E)|by rewrite Ht]. }
  by rewrite Eb, Et.
Qed.

(** ** Requests for the models *)

Definition general_setting : jstr :=
  json_stringify (JObj [entry "model_type" (str "general"); entry "api_keys" (texts_json [js "sk-1"])]).

Definition provider_answer : option (jstr * list jstr) := Some (js "https://api.deepseek.com", [js "deepseek-v4"; js "deepseek-r2"]).

(** The model type can be changed while a request is under way; its answer
    then gives the other type the address and a model of the provider, and the
    form is accepted with them. *)
Lemma late_models_overwrite :
  let s := fold_left (λ s e, section_event lower_id e s)
             [FetchModels; ModelTypeToggle dedicated; ModelsFetched provider_answer] (openSection lower_id general_setting) in
  fv_model_type (ms_values s) = dedicated ∧ fv_model (ms_values s) = js "deepseek-v4"
  ∧ fv_base_url (ms_values s) = js "https://api.deepseek.com" ∧ contentModerationSchema (ms_values s) = true.
Proof. split_and!; by_eval. Qed.

(** An answer without models takes away the model that was chosen, and the form is refused from then on. *)
Lemma empty_answer_clears_model :
  let s0 := openSection lower_id general_setting in
  let s := section_event lower_id (ModelsFetched (Some (js "https://api.deepseek.com", []))) (section_event lower_id FetchModels s0) in
  contentModerationSchema (ms_values s0) = true ∧ fv_model (ms_values s) = [] ∧ contentModerationSchema (ms_values s) = false.
Proof. split_and!; by_eval. Qed.

(** ** Evaluations *)

Definition sample_events : list SectionEvent :=
  [FetchModels; PlainInput true observe (js "sk-1") false []; HitActionSelect hit_pre_block; AllGroupsSelect false; GroupsSelect [js "vip"];
   ModelsFetched provider_answer; ModelSelect (js "deepseek-r2"); PlainInput true pre_block (js "sk-1") false []; AllGroupsSelect true].

Definition sample_section : ContentModerationSection :=
  fold_left (λ s e, section_event lower_id e s) sample_events (openSection lower_id general_setting).

(** Back in the blocking mode, the action that was selected is still stored. *)
Lemma moderation_form_invariant_witness :
  section_ok sample_section ∧ fv_mode (ms_values sample_section) = pre_block
  ∧ cm_observe_hit_action (submitted_config (ms_values sample_section) []) = hit_pre_block
  ∧ fv_model (ms_values sample_section) = js "deepseek-r2" ∧ fv_groups (ms_values sample_section) = [].
Proof.
  destruct (moderation_form_invariant lower_id general_setting sample_events sample_section) as [Hs Hh].
  - repeat (apply section_run_cons; [by_eval|]). apply section_run_nil.
  - split; [exact Hs|]. split; [by_eval|]. split; [rewrite (Hh []); by_eval|]. split; by_eval.
Defined.
