(* ===== verification/Estimator.v ===== *)
(** * Billing expressions: the estimator

    Model of the local cost estimator of [features/pricing/lib/tier-expr.ts],
    which hands the text of an expression to the engine of the language and
    calls the function it makes of it with the token counts.

    What the engine does is modelled for the part of the language that price
    expressions are written in: numbers, texts, the variables and functions of
    the estimator, calls, the arithmetic operators, comparisons, [&&] and the
    conditional. A text with anything else in it, or an operation on other
    operands, is outside the model: the result is [None]. A text that is no
    expression because a colon follows one is a syntax error; the message of
    the engine is an argument. *)

From Stdlib Require Import String.
From S2P Require Import JsArith JsExec BillingExpr TierExpr.

(** ** Tokens *)

Inductive token := TNum (x : jsnum) | TStr (s : jstr) | TId (s : jstr) | TOp (s : jstr).

#[export] Instance token_eq_dec : EqDecision token.
Proof. solve_decision. Defined.

(** A numeric literal: no leading zero, nothing after it. *)
Definition literal (s : jstr) : option jsnum :=
  match s with
  | 48 :: c :: _ => if is_digit c then None else match read_decimal false s with Some (x, []) => Some x | _ => None end
  | _ => match read_decimal false s with Some (x, []) => Some x | _ => None end
  end.

(** What has been read of a token. *)
Inductive lex_state :=
| LexStart | LexNum (acc : jstr) | LexId (acc : jstr) | LexStr (acc : jstr) | LexOp (c : Z) | LexDone (t : token) | LexBad.

Definition ident_start (c : Z) : bool := is_word c && negb (is_digit c) || (c =? 36).
Definition ident_char (c : Z) : bool := is_word c || (c =? 36).

Definition op_chars : jstr := js "+-*/<>&?:(),".

(** Two characters that are one operator, and those that are one outside the model. *)
Definition op_pair (c d : Z) : bool := bool_decide ([c; d] ∈ map js ["&&"; "<="; ">="]%string).
Definition other_pair (c d : Z) : bool :=
  bool_decide ([c; d] ∈ map js ["++"; "--"; "**"; "//"; "/*"; "<<"; ">>"; "??"; "?."]%string).

Definition after_exponent (acc : jstr) : bool :=
  match last acc with Some e => (e =? 101) || (e =? 69) | None => false end.

(** The token goes on with a character. *)
Definition continue (st : lex_state) (c : Z) : option lex_state :=
  match st with
  | LexNum acc =>
      if ident_char c || (c =? 46) || (((c =? 43) || (c =? 45)) && after_exponent acc) then Some (LexNum (acc ++ [c])) else None
  | LexId acc => if ident_char c then Some (LexId (acc ++ [c])) else None
  | LexStr acc =>
      if c =? c_quote then Some (LexDone (TStr acc))
      else if (c =? c_backslash) || is_line_end c then Some LexBad else Some (LexStr (acc ++ [c]))
  | LexOp o => if op_pair o c then Some (LexDone (TOp [o; c])) else if other_pair o c then Some LexBad else None
  | LexBad => Some LexBad
  | LexStart | LexDone _ => None
  end.

(** The token ends; [None] where it is none of the model. *)
Definition finish (st : lex_state) : option (list token) :=
  match st with
  | LexStart => Some []
  | LexNum acc => option_map (λ x, [TNum x]) (literal acc)
  | LexId acc => Some [TId acc]
  | LexOp o => if o =? 38 then None else Some [TOp [o]]
  | LexDone t => Some [t]
  | LexStr _ | LexBad => None
  end.

Definition begin (c : Z) : option lex_state :=
  if is_ws c then Some LexStart
  else if c =? c_quote then Some (LexStr [])
  else if is_digit c || (c =? 46) then Some (LexNum [c])
  else if ident_start c then Some (LexId [c])
  else if bool_decide (c ∈ op_chars) then Some (LexOp c)
  else None.

Definition lex_step (st : lex_state) (c : Z) : option (list token * lex_state) :=
  match continue st c with
  | Some st' => Some ([], st')
  | None => match finish st, begin c with Some ts, Some st' => Some (ts, st') | _, _ => None end
  end.

Fixpoint lex_run (st : lex_state) (s : jstr) : option (list token * lex_state) :=
  match s with
  | [] => Some ([], st)
  | c :: s' =>
      match lex_step st c with
      | Some (ts, st1) =>
          match lex_run st1 s' with Some (ts', st2) => Some (ts ++ ts', st2) | None => None end
      | None => None
      end
  end.

Definition lex (s : jstr) : option (list token) :=
  match lex_run LexStart s with
  | Some (ts, st) => match finish st with Some ts' => Some (ts ++ ts') | None => None end
  | None => None
  end.

(** ** Expressions *)

Inductive binop := OpAdd | OpSub | OpMul | OpDiv | OpLt | OpLe | OpGt | OpGe | OpAnd.

Inductive expr :=
| ENum (x : jsnum)
| EStr (s : jstr)
| EVar (x : jstr)
| ENeg (e : expr)
| EBin (o : binop) (a b : expr)
| ECond (c a b : expr)
| ECall (f : jstr) (args : list expr).

(** The operators of a level; a higher level binds tighter. *)
Definition level_ops (l : nat) : list (string * binop) :=
  match l with
  | 1%nat => [("&&", OpAnd)]
  | 2%nat => [("<", OpLt); ("<=", OpLe); (">", OpGt); (">=", OpGe)]
  | 3%nat => [("+", OpAdd); ("-", OpSub)]
  | 4%nat => [("*", OpMul); ("/", OpDiv)]
  | _ => []
  end%string.

Definition token_op (l : nat) (t : token) : option binop :=
  match t with
  | TOp s => option_map snd (find (λ e : string * binop, bool_decide (js e.1 = s)) (level_ops l))
  | _ => None
  end.

Definition is_op (s : string) (t : token) : bool := bool_decide (t = TOp (js s)).

(** Level 0 is the conditional, levels 1 to 4 are left-associative operators,
    level 5 is a sign before an operand, and the operands. *)
Fixpoint parse_level (fuel : nat) (l : nat) (ts : list token) {struct fuel} : option (expr * list token) :=
  match fuel with
  | O => None
  | S f =>
      match l with
      | O =>
          match parse_level f 1 ts with
          | Some (c, t :: r) =>
              if is_op "?" t then
                match parse_level f 0 r with
                | Some (a, t' :: r') =>
                    if is_op ":" t' then
                      match parse_level f 0 r' with Some (b, r'') => Some (ECond c a b, r'') | None => None end
                    else None
                | _ => None
                end
              else Some (c, t :: r)
          | other => other
          end
      | 5%nat =>
          match ts with
          | TNum x :: r => Some (ENum x, r)
          | TStr s :: r => Some (EStr s, r)
          | TId x :: r =>
              match r with
              | t :: r' => if is_op "(" t then
                             match parse_args f r' with Some (args, r'') => Some (ECall x args, r'') | None => None end
                           else Some (EVar x, r)
              | [] => Some (EVar x, r)
              end
          | t :: r =>
              if is_op "-" t then match parse_level f 5 r with Some (e, r') => Some (ENeg e, r') | None => None end
              else if is_op "(" t then
                match parse_level f 0 r with
                | Some (e, t' :: r') => if is_op ")" t' then Some (e, r') else None
                | _ => None
                end
              else None
          | [] => None
          end
      | _ => match parse_level f (S l) ts with Some (a, r) => parse_tail f l a r | None => None end
      end
  end
with parse_tail (fuel : nat) (l : nat) (a : expr) (ts : list token) {struct fuel} : option (expr * list token) :=
  match fuel with
  | O => None
  | S f =>
      match ts with
      | t :: r =>
          match token_op l t with
          | Some o => match parse_level f (S l) r with Some (b, r') => parse_tail f l (EBin o a b) r' | None => None end
          | None => Some (a, ts)
          end
      | [] => Some (a, [])
      end
  end
with parse_args (fuel : nat) (ts : list token) {struct fuel} : option (list expr * list token) :=
  match fuel with
  | O => None
  | S f =>
      match parse_level f 0 ts with
      | Some (e, t :: r) =>
          if is_op ")" t then Some ([e], r)
          else if is_op "," t then
            match parse_args f r with Some (es, r') => Some (e :: es, r') | None => None end
          else None
      | _ => None
      end
  end.

Inductive compiled := Compiled (e : expr) | NoExpression.

(** [new Function(..., `return (${exprStr});`)] *)
Definition compile (exprStr : jstr) : option compiled :=
  match lex exprStr with
  | Some ts =>
      match parse_level (12 * S (length ts)) 0 ts with
      | Some (e, []) => Some (Compiled e)
      | Some (_, t :: _) => if is_op ":" t then Some NoExpression else None
      | None => None
      end
  | None => None
  end.

(** ** Running an expression *)

Inductive val := VNum (x : jsnum) | VBool (b : bool) | VStr (s : jstr).

Definition arith (o : binop) (x y : jsnum) : val :=
  match o with
  | OpAdd => VNum (num_add x y) | OpSub => VNum (num_sub x y)
  | OpMul => VNum (num_mul x y) | OpDiv => VNum (num_div x y)
  | OpLt => VBool (num_lt x y) | OpLe => VBool (num_le x y)
  | OpGt => VBool (num_lt y x) | OpGe => VBool (num_le y x)
  | OpAnd => VNum x
  end.

Definition truthy_val (v : val) : bool :=
  match v with
  | VNum S754_nan | VNum (S754_zero _) => false
  | VNum _ => true
  | VBool b => b
  | VStr s => nonempty s
  end.

(** [Math.floor] *)
Definition num_floor (x : jsnum) : jsnum :=
  match x with
  | S754_finite s m e =>
      if 0 <=? e then x
      else let q := Z.pos m / 2 ^ (- e) in
           if Z.pos m mod 2 ^ (- e) =? 0 then x else if s then num_of_Z (- (q + 1)) else num_of_Z q
  | _ => x
  end.
Definition num_ceil (x : jsnum) : jsnum := SFopp (num_floor (SFopp x)).

(** The functions of the environment; [tier] sets [matchedTier]. *)
Definition call (f : jstr) (args : list val) (matchedTier : jstr) : option (val * jstr) :=
  match args with
  | [VStr name; VNum value] => if bool_decide (f = js "tier") then Some (VNum value, name) else None
  | [VNum x] =>
      if bool_decide (f = js "abs") then Some (VNum (num_abs x), matchedTier)
      else if bool_decide (f = js "floor") then Some (VNum (num_floor x), matchedTier)
      else if bool_decide (f = js "ceil") then Some (VNum (num_ceil x), matchedTier)
      else None
  | [VNum x; VNum y] =>
      if bool_decide (f = js "max") then Some (VNum (num_max x y), matchedTier)
      else if bool_decide (f = js "min") then Some (VNum (SFopp (num_max (SFopp x) (SFopp y))), matchedTier)
      else None
  | _ => None
  end.

Section Eval.
Context (env : list (jstr * jsnum)).

Fixpoint eval (e : expr) (matchedTier : jstr) : option (val * jstr) :=
  match e with
  | ENum x => Some (VNum x, matchedTier)
  | EStr s => Some (VStr s, matchedTier)
  | EVar x => match map_get env x with Some v => Some (VNum v, matchedTier) | None => None end
  | ENeg e => match eval e matchedTier with Some (VNum x, m) => Some (VNum (SFopp x), m) | _ => None end
  | EBin OpAnd a b =>
      match eval a matchedTier with
      | Some (v, m) => if truthy_val v then eval b m else Some (v, m)
      | None => None
      end
  | EBin o a b =>
      match eval a matchedTier with
      | Some (VNum x, m) => match eval b m with Some (VNum y, m') => Some (arith o x y, m') | _ => None end
      | _ => None
      end
  | ECond c a b =>
      match eval c matchedTier with
      | Some (v, m) => if truthy_val v then eval a m else eval b m
      | None => None
      end
  | ECall f args =>
      match (fix eval_args (l : list expr) (m : jstr) : option (list val * jstr) :=
               match l with
               | [] => Some ([], m)
               | x :: l' =>
                   match eval x m with
                   | Some (v, m') => match eval_args l' m' with Some (vs, m'') => Some (v :: vs, m'') | None => None end
                   | None => None
                   end
               end) args matchedTier with
      | Some (vs, m) => call f vs m
      | None => None
      end
  end.
End Eval.

(** ** The estimator *)

(** The token counts of [ESTIMATOR_VARS], in their order. *)
Definition ESTIMATOR_KEYS : list jstr :=
  map js ["cacheReadTokens"; "cacheCreateTokens"; "cacheCreate1hTokens"; "imageTokens"; "imageOutputTokens";
          "audioInputTokens"; "audioOutputTokens"]%string.

(** Token counts by name. *)
Definition ExtraTokenValues : Type := list (jstr * jsnum).

Record EvalResult := { er_cost : jsnum; er_matchedTier : jstr; er_error : option jstr }.

Definition token_count (extra : ExtraTokenValues) (key : jstr) : jsnum := or_zero (map_get extra key).

(** [promptTokens + cacheReadTokens + cacheCreateTokens + cacheCreate1hTokens] *)
Definition context_length (promptTokens : jsnum) (extra : ExtraTokenValues) : jsnum :=
  num_add (num_add (num_add promptTokens (token_count extra (js "cacheReadTokens")))
             (token_count extra (js "cacheCreateTokens")))
    (token_count extra (js "cacheCreate1hTokens")).

Definition estimator_env (promptTokens completionTokens : jsnum) (extra : ExtraTokenValues) : list (jstr * jsnum) :=
  (js "p", promptTokens) :: (js "c", completionTokens) :: (js "len", context_length promptTokens extra)
  :: zip ESTIMATOR_VARS (map (token_count extra) ESTIMATOR_KEYS).

(** [Number(value) || 0] *)
Definition cost_of (v : val) : option jsnum :=
  match v with VNum x => Some (or_zero (Some x)) | VBool b => Some (if b then num_of_Z 1 else or_zero None) | VStr _ => None end.

Definition evalExprLocally (syntaxError exprStr : jstr) (promptTokens completionTokens : jsnum) (extra : ExtraTokenValues)
    : option EvalResult :=
  if negb (nonempty (trim exprStr)) then Some {| er_cost := or_zero None; er_matchedTier := []; er_error := None |}
  else match compile exprStr with
       | Some NoExpression => Some {| er_cost := or_zero None; er_matchedTier := []; er_error := Some syntaxError |}
       | Some (Compiled e) =>
           match eval (estimator_env promptTokens completionTokens extra) e [] with
           | Some (v, m) => option_map (λ c, {| er_cost := c; er_matchedTier := m; er_error := None |}) (cost_of v)
           | None => None
           end
       | None => None
       end.

(** ** The estimator of the editor *)

(** The component [CostEstimator] of [tiered-pricing-editor.tsx]. *)
Record CostEstimator := {
  ce_promptTokens : jsnum;
  ce_completionTokens : jsnum;
  ce_extras : ExtraTokenValues;
}.

Definition initial_estimator : CostEstimator :=
  {| ce_promptTokens := num_of_Z 0; ce_completionTokens := num_of_Z 0;
     ce_extras := map (λ k, (k, num_of_Z 0)) ESTIMATOR_KEYS |}.

Definition setPromptTokens (value : jsnum) (ce : CostEstimator) : CostEstimator :=
  {| ce_promptTokens := value; ce_completionTokens := ce_completionTokens ce; ce_extras := ce_extras ce |}.
Definition setCompletionTokens (value : jsnum) (ce : CostEstimator) : CostEstimator :=
  {| ce_promptTokens := ce_promptTokens ce; ce_completionTokens := value; ce_extras := ce_extras ce |}.
Definition setExtra (stateKey : jstr) (value : jsnum) (ce : CostEstimator) : CostEstimator :=
  {| ce_promptTokens := ce_promptTokens ce; ce_completionTokens := ce_completionTokens ce;
     ce_extras := map_set (ce_extras ce) stateKey value |}.

(** [variable.field.replace('Price', 'Tokens')] *)
Definition stateKey (variable : BillingVar) : option jstr :=
  option_map (λ field, match index_of (js "Price") field with
                       | Some i => take i field ++ js "Tokens" ++ drop (i + 5) field
                       | None => field
                       end) (bv_field variable).

(** The fields of the other counts, shown where the expression has their variables. *)
Definition extra_fields (effectiveExpr : jstr) (ce : CostEstimator) : list (jstr * jsnum) :=
  if exprUsesExtraVars effectiveExpr
  then omap (λ v, option_map (λ k, (bv_key v, default S754_nan (map_get (ce_extras ce) k))) (stateKey v)) BILLING_EXTRA_VARS
  else [].

Definition estimator_result (syntaxError effectiveExpr : jstr) (ce : CostEstimator) : option EvalResult :=
  evalExprLocally syntaxError effectiveExpr (ce_promptTokens ce) (ce_completionTokens ce) (ce_extras ce).

(** ** Evaluations *)

(** A text with single quotes for double ones. *)
Definition quoted_text (s : string) : jstr := map (λ c, if c =? 39 then c_quote else c) (js s).

Definition estimate (s : string) : option (jstr * jstr) :=
  option_map (λ r, (string_of_number (er_cost r), er_matchedTier r))
    (evalExprLocally (js "error") (quoted_text s) (num_of_Z 1000) (num_of_Z 10) [(js "cacheReadTokens", num_of_Z 5)]).

Example estimate_samples :
  estimate "len <= 1004 ? tier('a', p * 2 + c * 1) : tier('b', p * 1e-3 + c * -1 + cr * 2)" = Some (js "1", js "b")
  ∧ estimate "max(p, c) - 2 * (c + 1) / 4" = Some (js "994.5", [])
  ∧ estimate "p < 5 && c < 5" = Some (js "0", []) ∧ estimate "p ++ c" = None
  ∧ estimate "ceil(p / 3) - floor(-0.5)" = Some (js "335", [])
  ∧ exprUsesExtraVars (quoted_text "tier('ai', p * 1 + c * 2)") = true ∧ exprUsesExtraVars (js "p * 1 + cry * 2") = false.
Proof. split_and!; by_eval. Qed.
