(* ===== verification/EstimatorParse.v ===== *)
(** * Billing expressions: the words and the parser of the estimator

    How the lexer of the estimator reads what the editor prints: a text is
    followed token by token. A word, an operator, a quoted label and a number
    are [item]s, texts that are the same tokens wherever a separator follows;
    items one after another are the tokens one after another. Then the parser,
    level by level, with the fuel that is enough for it. *)

From Stdlib Require Import String.
From S2P Require Import JsExec JsonText JsArith BillingExpr TierExpr TierExprFacts Estimator.

(** ** Texts the lexer reads *)

Lemma lex_run_app st s1 s2 :
  lex_run st (s1 ++ s2)
  = match lex_run st s1 with
    | Some (ts, st1) => match lex_run st1 s2 with Some (ts', st2) => Some (ts ++ ts', st2) | None => None end
    | None => None
    end.
Proof.
  revert st. induction s1 as [|c s1 IH]; intros st; cbn [app lex_run].
  - by destruct (lex_run st s2) as [[]|].
  - destruct (lex_step st c) as [[ts st1]|]; [|done]. rewrite IH. destruct (lex_run st1 s1) as [[ts1 st2]|]; [|done].
    destruct (lex_run st2 s2) as [[ts2 st3]|]; [|done]. by rewrite app_assoc.
Qed.

(** What may follow a token: a blank, a parenthesis, a comma, a text. *)
Definition sep (c : Z) : bool := is_ws c || (c =? 40) || (c =? 41) || (c =? c_comma) || (c =? c_quote).

(** A text that is read as some tokens wherever a separator follows. *)
Definition item (s : jstr) (ts : list token) : Prop :=
  ∃ ts0 st tl, lex_run LexStart s = Some (ts0, st) ∧ finish st = Some tl ∧ ts = ts0 ++ tl
    ∧ ∀ c, sep c = true → continue st c = None.

Lemma lex_item s ts : item s ts → lex s = Some ts.
Proof. intros (ts0 & st & tl & Hr & Hf & -> & _). unfold lex. by rewrite Hr, Hf. Qed.

Lemma item_cat s1 s2 ts1 ts2 :
  item s1 ts1 → item s2 ts2 → (∀ c, head s2 = Some c → sep c = true) → item (s1 ++ s2) (ts1 ++ ts2).
Proof.
  intros (ts0 & st & tl & Hr & Hf & -> & Hc) (us0 & su & ul & Hr' & Hf' & -> & Hc') Hh.
  destruct s2 as [|c s2].
  - injection Hr' as <- <-. injection Hf' as <-. rewrite !app_nil_r. by exists ts0, st, tl.
  - specialize (Hc c (Hh c eq_refl)). cbn [lex_run] in Hr'. unfold lex_step in Hr'. cbn [continue finish] in Hr'.
    destruct (begin c) as [sb|] eqn:Hb; [|done]. destruct (lex_run sb s2) as [[vs sv]|] eqn:Hv; [|done]. injection Hr' as <- <-.
    exists (ts0 ++ tl ++ vs), sv, ul. rewrite lex_run_app, Hr. cbn [lex_run]. unfold lex_step. rewrite Hc, Hf, Hb, Hv.
    split_and!; [done|done|by rewrite <- !app_assoc|done].
Qed.

Lemma item_space s ts : item s ts → item (32 :: s) ts.
Proof.
  intros (ts0 & st & tl & Hr & H). exists ts0, st, tl. split; [|done].
  change (lex_run LexStart (32 :: s)) with (match lex_run LexStart s with Some (us, su) => Some ([] ++ us, su) | None => None end).
  by rewrite Hr.
Qed.

(** [s1 ++ " " ++ s2] *)
Lemma item_then s1 s2 ts1 ts2 : item s1 ts1 → item s2 ts2 → item (s1 ++ 32 :: s2) (ts1 ++ ts2).
Proof. intros H1 H2. apply item_cat; [done|by apply item_space|]. by intros c [= <-]. Qed.

Lemma sep_not_ident c : sep c = true → ident_char c = false ∧ c ≠ 46 ∧ c ≠ 43 ∧ c ≠ 45.
Proof.
  unfold sep. intros H. assert (Hc : is_ws c = true ∨ c = 40 ∨ c = 41 ∨ c = c_comma ∨ c = c_quote).
  { rewrite !orb_true_iff, !Z.eqb_eq in H. tauto. }
  destruct Hc as [Hw|[->|[->|[->| ->]]]]; [|done..]. split_and!; [|by intros ->..].
  unfold ident_char. apply orb_false_iff. split; [|by apply Z.eqb_neq; intros ->].
  destruct (is_word c) eqn:E; [|done]. apply is_word_ws in E as [E _]. by rewrite E in Hw.
Qed.

(** ** Words, operators and quoted texts *)

Lemma ident_run acc w : Forall (λ c, ident_char c = true) w → lex_run (LexId acc) w = Some ([], LexId (acc ++ w)).
Proof.
  intros Hw. revert acc. induction Hw as [|c w Hc _ IH]; intros acc; cbn [lex_run]; [by rewrite app_nil_r|].
  unfold lex_step. cbn [continue]. rewrite Hc, IH. by rewrite <- app_assoc.
Qed.

Lemma ident_start_facts c : ident_start c = true →
  is_ws c = false ∧ (c =? c_quote) = false ∧ is_digit c = false ∧ (c =? 46) = false.
Proof.
  unfold ident_start. intros [[Hw Hd%negb_true_iff]%andb_true_iff|Hc%Z.eqb_eq]%orb_true_iff; [|by subst].
  split_and!; [by apply is_word_ws| |done|]; apply Z.eqb_neq; by intros ->.
Qed.

Lemma item_word c w : ident_start c = true → Forall (λ c, ident_char c = true) w → item (c :: w) [TId (c :: w)].
Proof.
  intros Hc Hw. destruct (ident_start_facts c Hc) as (H1 & H2 & H3 & H4). exists [], (LexId (c :: w)), [TId (c :: w)]. split_and!; try done.
  - cbn [lex_run]. unfold lex_step. cbn [continue finish]. unfold begin. rewrite H1, H2, H3, H4, Hc. cbn [orb]. by rewrite (ident_run [c] w Hw).
  - intros d Hd%sep_not_ident. cbn. by destruct Hd as [-> _].
Qed.

Lemma str_run acc w :
  Forall (λ c, (c =? c_quote) = false ∧ (c =? c_backslash) = false ∧ is_line_end c = false) w →
  lex_run (LexStr acc) w = Some ([], LexStr (acc ++ w)).
Proof.
  intros Hw. revert acc. induction Hw as [|c w (H1 & H2 & H3) _ IH]; intros acc; cbn [lex_run]; [by rewrite app_nil_r|].
  unfold lex_step. cbn [continue]. rewrite H1, H2, H3. cbn [orb]. rewrite IH. by rewrite <- app_assoc.
Qed.

(** A label without quotes, backslashes and line ends. *)
Definition plain_char (c : Z) : bool := negb (c =? c_quote) && negb (c =? c_backslash) && negb (is_line_end c).

Lemma item_quoted s : forallb plain_char s = true → item (quoted s) [TStr s].
Proof.
  intros Hs. exists [], (LexDone (TStr s)), [TStr s]. split_and!; try done. unfold quoted.
  change (lex_run LexStart (c_quote :: s ++ [c_quote]))
    with (match lex_run (LexStr []) (s ++ [c_quote]) with Some (us, su) => Some ([] ++ us, su) | None => None end).
  rewrite lex_run_app, str_run; [done|]. rewrite forallb_forall in Hs. apply Forall_forall.
  intros c Hc%list_elem_of_In%Hs. unfold plain_char in Hc. rewrite !andb_true_iff, !negb_true_iff in Hc. tauto.
Qed.

Lemma op_pair_ws o c : is_ws c = true → op_pair o c = false ∧ other_pair o c = false.
Proof.
  intros Hc. split; apply bool_decide_eq_false; intros Hin.
  - assert (H : Forall (λ w, ∀ d, last w = Some d → is_ws d = false) (map js ["&&"; "<="; ">="]%string))
      by (repeat constructor; vm_compute; intros ? [= <-]; reflexivity).
    rewrite Forall_forall in H. specialize (H _ Hin c eq_refl). congruence.
  - assert (H : Forall (λ w, ∀ d, last w = Some d → is_ws d = false) (map js ["++"; "--"; "**"; "//"; "/*"; "<<"; ">>"; "??"; "?."]%string))
      by (repeat constructor; vm_compute; intros ? [= <-]; reflexivity).
    rewrite Forall_forall in H. specialize (H _ Hin c eq_refl). congruence.
Qed.

Lemma op_continue o c : sep c = true → continue (LexOp o) c = None.
Proof.
  intros H. cbn. assert (Hp : op_pair o c = false ∧ other_pair o c = false); [|by destruct Hp as [-> ->]].
  unfold sep in H. rewrite !orb_true_iff, !Z.eqb_eq in H. destruct H as [[[[H|H]|H]|H]|H]; [by apply op_pair_ws|..]; subst;
    split; apply bool_decide_eq_false; intros Hin; apply list_elem_of_fmap in Hin as (w & E & Hw);
    apply (f_equal last) in E; cbn [last] in E;
    repeat (apply elem_of_cons in Hw as [->|Hw]; [vm_compute in E; congruence|]); by apply elem_of_nil in Hw.
Qed.

Lemma item_single o ts : lex_run LexStart [o] = Some ([], LexOp o) → finish (LexOp o) = Some ts → item [o] ts.
Proof. intros Hr Hf. exists [], (LexOp o), ts. split_and!; [done|done|done|]. intros c. apply op_continue. Qed.

Lemma item_pair s t : lex_run LexStart s = Some ([], LexDone t) → item s [t].
Proof. intros Hr. exists [], (LexDone t), [t]. by split_and!. Qed.

(** ** Numbers *)

Lemma num_of_decimal_opp m e : num_of_decimal true m e = SFopp (num_of_decimal false m e).
Proof.
  assert (Haux : ∀ mx ex lx, binary_round_aux prec64 emax64 true mx ex lx = SFopp (binary_round_aux prec64 emax64 false mx ex lx)).
  { intros mx ex lx. unfold binary_round_aux. destruct (shr_fexp prec64 emax64 mx ex lx) as [mrs e'].
    destruct (shr_fexp prec64 emax64 _ e' loc_Exact) as [mrs' e'']. destruct (shr_m mrs'); [done| |done]. by destruct (Z.leb e'' _). }
  unfold num_of_decimal. destruct m as [|q]; [done|]. destruct (0 <=? e).
  - destruct (Z.pos q * 10 ^ e); [done| |done]. unfold binary_round. match goal with |- context [let '(_, _) := ?x in _] => destruct x as [mz ez] end. apply Haux.
  - destruct (SFdiv_core_binary prec64 emax64 (Z.pos q) 0 (10 ^ (- e)) 0) as [[q' e'] l]. apply Haux.
Qed.

Lemma read_decimal_opp s : read_decimal true s = match read_decimal false s with Some (x, r) => Some (SFopp x, r) | None => None end.
Proof.
  unfold read_decimal. destruct (take_digits s) as [ip r]. destruct (match r with [] => _ | _ => _ end) as [fp r'].
  destruct (nonempty _); [|done]. destruct (take_exponent r') as [[e r2]|]; [|done]. by rewrite num_of_decimal_opp.
Qed.

Lemma num_continue acc w :
  (∀ u c v, w = u ++ c :: v → ident_char c || (c =? 46) || (((c =? 43) || (c =? 45)) && after_exponent (acc ++ u)) = true) →
  lex_run (LexNum acc) w = Some ([], LexNum (acc ++ w)).
Proof.
  revert acc. induction w as [|c w IH]; intros acc Hw; cbn [lex_run]; [by rewrite app_nil_r|].
  unfold lex_step. cbn [continue]. pose proof (Hw [] c w eq_refl) as Hc. rewrite app_nil_r in Hc. rewrite Hc, IH; [by rewrite <- app_assoc|].
  intros u d v ->. rewrite <- app_assoc. exact (Hw (c :: u) d v eq_refl).
Qed.

Lemma digits_run acc d : Forall (λ c, is_digit c = true) d → lex_run (LexNum acc) d = Some ([], LexNum (acc ++ d)).
Proof.
  intros Hd. apply num_continue. intros u c v ->. apply Forall_app in Hd as [_ [Hc _]%Forall_cons].
  unfold ident_char, is_word. by rewrite Hc.
Qed.

Lemma take_digits_digits s d t : take_digits s = (d, t) → Forall (λ c, is_digit c = true) d.
Proof.
  revert d t; induction s as [|c s IH]; cbn; intros d t; [by intros [= <- <-]|].
  destruct (is_digit c) eqn:Hc; [|by intros [= <- <-]].
  destruct (take_digits s) as [d' t']. intros [= <- <-]. constructor; [done|by eapply IH].
Qed.

Lemma take_digits_rest s d c t : take_digits s = (d, c :: t) → is_digit c = false.
Proof.
  revert d; induction s as [|x s IH]; cbn; intros d; [done|].
  destruct (is_digit x) eqn:Hx; [|by intros [= <- <- <-]].
  destruct (take_digits s) as [d' t']. intros [= <- ->]. by eapply IH.
Qed.

Lemma signed_run acc d ds :
  (d =? 43) || (d =? 45) = true → after_exponent acc = true → Forall (λ c, is_digit c = true) ds →
  lex_run (LexNum acc) (d :: ds) = Some ([], LexNum (acc ++ d :: ds)).
Proof.
  intros Hd Ha Hs. apply num_continue. intros [|x u] c v E; cbn [app] in E.
  - injection E as <- _. by rewrite app_nil_r, Hd, Ha, orb_true_r.
  - injection E as <- ->. apply Forall_app in Hs as [_ [Hc _]%Forall_cons]. unfold ident_char, is_word. by rewrite Hc.
Qed.

Lemma exponent_run acc s e : take_exponent s = Some (e, []) → lex_run (LexNum acc) s = Some ([], LexNum (acc ++ s)).
Proof.
  destruct s as [|c s]; cbn [take_exponent]; [by rewrite app_nil_r|].
  destruct ((c =? 101) || (c =? 69)) eqn:Ec; [|done].
  assert (Hc : ident_char c = true) by (apply orb_true_iff in Ec as [Ec%Z.eqb_eq|Ec%Z.eqb_eq]; by subst).
  assert (Ha : after_exponent (acc ++ [c]) = true) by (unfold after_exponent; by rewrite last_snoc).
  intros H. change (c :: s) with ([c] ++ s). rewrite lex_run_app. cbn [lex_run]. unfold lex_step at 1. cbn [continue]. rewrite Hc. cbn [orb].
  assert (Hs : lex_run (LexNum (acc ++ [c])) s = Some ([], LexNum ((acc ++ [c]) ++ s))); [|by rewrite Hs, <- (app_assoc acc)].
  assert (Hds : ∀ u, (match take_digits u with ([], _) => None | (_, r) => Some (0, r) end) = Some (0, []) → Forall (λ c, is_digit c = true) u).
  { intros u Hu. destruct (take_digits u) as [ds t] eqn:Ed. destruct ds as [|d0 ds]; [done|]. injection Hu as ->.
    pose proof (take_digits_digits _ _ _ Ed) as Hd. apply take_digits_nil_rest in Ed. by rewrite app_nil_r in Ed; subst. }
  destruct s as [|d s]; [by rewrite app_nil_r|]. unfold take_sign in H. destruct (d =? 45) eqn:E1; [|destruct (d =? 43) eqn:E2].
  - apply signed_run; [by rewrite E1, orb_true_r|done|]. apply Hds. destruct (take_digits s) as [[|d0 ds] t]; [done|]. by injection H as _ ->.
  - apply signed_run; [by rewrite E2|done|]. apply Hds. destruct (take_digits s) as [[|d0 ds] t]; [done|]. by injection H as _ ->.
  - apply digits_run, Hds. destruct (take_digits (d :: s)) as [[|d0 ds] t]; [done|]. by injection H as _ ->.
Qed.

(** An unsigned JSON number is a literal, read character by character. *)
Lemma decimal_run acc s x :
  read_decimal false s = Some (x, []) → lex_run (LexNum acc) s = Some ([], LexNum (acc ++ s)).
Proof.
  intros H. unfold read_decimal in H. destruct (take_digits s) as [ip r] eqn:Ed. pose proof (take_digits_digits _ _ _ Ed) as Hd.
  apply take_digits_nil_rest in Ed. subst s. rewrite lex_run_app, (digits_run _ _ Hd).
  destruct r as [|c r].
  - by rewrite !app_nil_r.
  - destruct (c =? 46) eqn:Ec.
    + destruct (take_digits r) as [fp r'] eqn:Ef. pose proof (take_digits_digits _ _ _ Ef) as Hf. apply take_digits_nil_rest in Ef. subst r.
      destruct (nonempty _); [|done]. destruct (take_exponent r') as [[e r2]|] eqn:Ee; [|done]. injection H as _ ->.
      change (c :: fp ++ r') with ([c] ++ fp ++ r'). rewrite lex_run_app. cbn [lex_run]. unfold lex_step at 1. cbn [continue].
      rewrite Ec, orb_true_r. cbn [orb]. rewrite lex_run_app, (digits_run _ _ Hf), (exponent_run _ _ _ Ee). cbn [app]. by rewrite <- !app_assoc.
    + destruct (nonempty _); [|done]. destruct (take_exponent (c :: r)) as [[e r2]|] eqn:Ee; [|done]. injection H as _ ->.
      rewrite (exponent_run _ _ _ Ee). by rewrite <- app_assoc.
Qed.

Lemma begin_digit c : is_digit c = true → begin c = Some (LexNum [c]).
Proof.
  intros Hc. unfold begin. rewrite (is_digit_not_ws c Hc). unfold is_digit in Hc.
  rewrite (proj2 (Z.eqb_neq c c_quote)) by (unfold c_quote; intros ->; done).
  assert (is_digit c = true) as -> by done. done.
Qed.

(** The literal a JSON number is, after the tokens of a state that ends. *)
Lemma literal_run st tl neg s x :
  (∀ c, is_digit c = true → continue st c = None) → finish st = Some tl →
  parse_number s = Some (x, []) → (neg, s) = (match s with c :: r => if c =? 45 then (true, r) else (false, s) | [] => (false, s) end) →
  lex_run st s = Some (tl, LexNum s) ∧ literal s = Some x.
Proof.
  intros Hst Hf Hp Hs. unfold parse_number in Hp. rewrite <- Hs in Hp. assert (neg = false) as ->.
  { destruct s as [|c r]; [by injection Hs|]. destruct (c =? 45); [|by injection Hs]. injection Hs as _ E.
    apply (f_equal length) in E. cbn in E. lia. }
  destruct (take_digits s) as [ip r] eqn:Ed. pose proof (take_digits_digits _ _ _ Ed) as Hd. pose proof (take_digits_nil_rest _ _ _ Ed) as Es.
  destruct ip as [|d ip]; [done|]. cbn zeta in Hp. apply Forall_cons in Hd as [Hd Hi].
  set (ok := match ip with [] => true | _ => _ end) in Hp. destruct ok eqn:Hok; [|done].
  set (bad := match r with [] => false | _ => _ end) in Hp. destruct bad; [done|]. split.
  - subst s. cbn [app lex_run]. unfold lex_step. rewrite (Hst d Hd), Hf, (begin_digit d Hd).
    pose proof (decimal_run [] _ _ Hp) as Hr. cbn [app lex_run] in Hr. unfold lex_step in Hr. cbn [continue] in Hr.
    assert (Hid : ident_char d = true) by (unfold ident_char, is_word; by rewrite Hd). rewrite Hid in Hr. cbn [orb app] in Hr.
    destruct (lex_run (LexNum [d]) (ip ++ r)) as [[us su]|]; [|done]. injection Hr as -> ->. by rewrite app_nil_r.
  - unfold literal. subst s. cbn [app] in *. destruct ip as [|d2 ip]; cbn [app] in *.
    + destruct r as [|c r]; [by rewrite Hp; repeat case_match|].
      rewrite (take_digits_rest _ _ _ _ Ed), Hp. by repeat case_match.
    + unfold ok in Hok. apply negb_true_iff, Z.eqb_neq in Hok. rewrite Hp. repeat case_match; try done; congruence.
Qed.

(** The tokens and the expression of a number that is written as [s]. *)
Definition num_tokens (s : jstr) (x : jsnum) : list token :=
  if starts_with [45] s then [TOp (js "-"); TNum (SFopp x)] else [TNum x].
Definition num_expr (s : jstr) (x : jsnum) : expr := if starts_with [45] s then ENeg (ENum (SFopp x)) else ENum x.

Lemma SFopp_involutive (x : jsnum) : SFopp (SFopp x) = x.
Proof. destruct x as [[]|[]| |[] m e]; done. Qed.

Lemma minus_digit c : is_digit c = true → continue (LexOp 45) c = None.
Proof.
  intros Hc. assert (H : c ∈ seqZ 48 10) by (apply elem_of_seqZ; unfold is_digit in Hc; lia).
  revert c Hc H. assert (H : Forall (λ c, continue (LexOp 45) c = None) (seqZ 48 10)) by (repeat constructor).
  rewrite Forall_forall in H. auto.
Qed.

Lemma num_sep acc c : sep c = true → continue (LexNum acc) c = None.
Proof.
  intros (Hi & H46 & H43 & H45)%sep_not_ident. cbn. rewrite Hi.
  by rewrite (proj2 (Z.eqb_neq c 46) H46), (proj2 (Z.eqb_neq c 43) H43), (proj2 (Z.eqb_neq c 45) H45).
Qed.

Lemma safe_parsed x : number_safe x = true → parse_number (string_of_number x) = Some (x, []).
Proof. unfold number_safe. intros [_ H%bool_decide_eq_true]%andb_true_iff. done. Qed.

Lemma parse_minus r x :
  parse_number (45 :: r) = Some (x, []) → parse_number r = Some (SFopp x, []) ∧ ∀ c u, r = c :: u → (c =? 45) = false.
Proof.
  unfold parse_number at 1. rewrite Z.eqb_refl. intros H.
  assert (Hr : ∀ c u, r = c :: u → (c =? 45) = false).
  { intros c u ->. destruct (c =? 45) eqn:E; [|done]. apply Z.eqb_eq in E as ->. done. }
  split; [|done]. unfold parse_number. assert (E : (match r with c :: u => if c =? 45 then (true, u) else (false, r) | [] => (false, r) end) = (false, r)).
  { destruct r as [|c u]; [done|]. by rewrite (Hr c u eq_refl). }
  rewrite E. destruct (take_digits r) as [ip t]. cbn zeta in *. revert H.
  match goal with |- (if ?b then _ else _) = _ → _ => destruct b end; [|done].
  match goal with |- (if ?b then _ else _) = _ → _ => destruct b end; [done|]. intros H.
  rewrite read_decimal_opp in H. destruct (read_decimal false r) as [[y q]|]; [|done]. injection H as <- ->. by rewrite SFopp_involutive.
Qed.

Lemma item_number s x : parse_number s = Some (x, []) → item s (num_tokens s x).
Proof.
  intros Hp. unfold num_tokens. destruct s as [|c s]; [done|].
  destruct (starts_with [45] (c :: s)) eqn:Em.
  - apply starts_with_true in Em as [r E]. injection E as -> ->. destruct (parse_minus r x Hp) as [Hr Hc].
    destruct (literal_run (LexOp 45) [TOp (js "-")] false r (SFopp x) minus_digit eq_refl Hr) as [Hl Hlit].
    { destruct r as [|d u]; [done|]. by rewrite (Hc d u eq_refl). }
    exists [TOp (js "-")], (LexNum r), [TNum (SFopp x)]. split_and!; [|cbn [finish]; by rewrite Hlit|done|apply num_sep].
    change (45 :: r) with ([45] ++ r). rewrite lex_run_app. change (lex_run LexStart [45]) with (Some (@nil token, LexOp 45)).
    cbv beta iota. by rewrite Hl.
  - destruct (literal_run LexStart [] false (c :: s) x (λ _ _, eq_refl) eq_refl Hp) as [Hl Hlit].
    { destruct (c =? 45) eqn:E; [|done]. apply Z.eqb_eq in E as ->. done. }
    exists [], (LexNum (c :: s)), [TNum x]. split_and!; [done|cbn [finish]; by rewrite Hlit|done|apply num_sep].
Qed.

(** ** The parser of the estimator

    What the parser reads from the tokens of an expression, level by level:
    operands, runs of operators, calls and conditionals, with the fuel that is
    enough for them; a text of such tokens is compiled. *)

(** ** Tokens the parser reads *)

(** What may follow an expression of a level. *)
Definition stops_at (l : nat) (rest : list token) : Prop :=
  match rest with
  | [] => True
  | t :: _ => (∀ l', (l ≤ l' ≤ 4)%nat → token_op l' t = None) ∧ (l = O → is_op "?" t = false) ∧ is_op "(" t = false
  end.

Definition parses (l : nat) (ts : list token) (e : expr) : Prop :=
  ts ≠ [] ∧ ∀ f rest, (12 * length ts + (6 - l) ≤ f)%nat → stops_at l rest → parse_level f l (ts ++ rest) = Some (e, rest).

Definition tail_parses (l : nat) (a : expr) (ts : list token) (e : expr) : Prop :=
  ∀ f rest, (12 * length ts + 1 ≤ f)%nat → stops_at l rest → parse_tail f l a (ts ++ rest) = Some (e, rest).

#[export] Instance binop_eq_dec : EqDecision binop.
Proof. solve_decision. Defined.

Definition LEVELS : list nat := [1; 2; 3; 4]%nat.

Lemma elem_of_levels l : l ∈ LEVELS ↔ (1 ≤ l ≤ 4)%nat.
Proof. unfold LEVELS. rewrite !elem_of_cons, elem_of_nil. lia. Qed.

Lemma ops_distinct :
  forallb (λ l, forallb (λ e : string * binop, negb (bool_decide (js e.1 = js "(")) &&
    forallb (λ l', (l' =? l)%nat || bool_decide (token_op l' (TOp (js e.1)) = None)) LEVELS) (level_ops l)) LEVELS = true.
Proof. vm_compute. reflexivity. Qed.

Lemma op_inv l t o : token_op l t = Some o →
  ∃ e : string * binop, t = TOp (js e.1) ∧ js e.1 ≠ js "(" ∧ ∀ l', (1 ≤ l' ≤ 4)%nat → l' ≠ l → token_op l' t = None.
Proof.
  destruct t as [| | |s]; try done. cbn. destruct (find _ (level_ops l)) as [e|] eqn:E; [|done]. intros _.
  apply find_some in E as [Hin Hs]. apply bool_decide_eq_true in Hs. subst s. exists e.
  assert (Hl : (1 ≤ l ≤ 4)%nat) by (destruct l as [|[|[|[|[|l]]]]]; [done|lia..|done]).
  pose proof ops_distinct as H. rewrite forallb_forall in H. specialize (H l (proj1 (list_elem_of_In _ _) (proj2 (elem_of_levels l) Hl))).
  rewrite forallb_forall in H. specialize (H e Hin). apply andb_true_iff in H as [Hp%negb_true_iff%bool_decide_eq_false H].
  rewrite forallb_forall in H. split_and!; [done|done|]. intros l' Hl' Hne.
  specialize (H l' (proj1 (list_elem_of_In _ _) (proj2 (elem_of_levels l') Hl'))). apply orb_true_iff in H as [H|H].
  - by apply Nat.eqb_eq in H.
  - by apply bool_decide_eq_true in H.
Qed.

Lemma operator_stops l o t rest : token_op l t = Some o → stops_at (S l) (t :: rest).
Proof.
  intros H. destruct (op_inv l t o H) as (e & E & Hp & Hl). split_and!; [|done|].
  - intros l' Hl'. apply Hl; lia.
  - apply bool_decide_eq_false. rewrite E. by intros [= ?].
Qed.

Lemma stops_weaken l l' rest : (l ≤ l')%nat → stops_at l rest → stops_at l' rest.
Proof.
  intros Hl. destruct rest as [|t rest]; [done|]. intros (H1 & H2 & H3). split_and!; [|intros ->; apply H2; lia|done].
  intros k Hk. apply H1. lia.
Qed.

Lemma tail_nil l a : (1 ≤ l ≤ 4)%nat → tail_parses l a [] a.
Proof.
  intros Hl [|f] rest Hf Hs; cbn in Hf; [lia|]. cbn [app parse_tail]. destruct rest as [|t rest]; [done|]. destruct Hs as [Hs _]. by rewrite (Hs l) by lia.
Qed.

Lemma tail_cons l a t o ts b ts' e :
  token_op l t = Some o → parses (S l) ts b → (∀ rest, stops_at l rest → stops_at (S l) (ts' ++ rest)) →
  tail_parses l (EBin o a b) ts' e → tail_parses l a (t :: ts ++ ts') e.
Proof.
  intros Ht [_ Hb] Hst Htl [|f] rest Hf Hs; cbn [length] in Hf; [lia|]. rewrite length_app in Hf. cbn [app parse_tail]. rewrite Ht, <- app_assoc.
  rewrite Hb by (lia || auto). apply Htl; [lia|done].
Qed.

Lemma level_tail l ts a ts' e :
  (1 ≤ l ≤ 4)%nat → parses (S l) ts a → (∀ rest, stops_at l rest → stops_at (S l) (ts' ++ rest)) →
  tail_parses l a ts' e → parses l (ts ++ ts') e.
Proof.
  intros Hl [Hne Ha] Hst Htl. split; [by destruct ts|]. intros [|f] rest Hf Hs; rewrite length_app in Hf; [lia|].
  assert (Hlen : (1 ≤ length ts)%nat) by (destruct ts; [done|cbn; lia]).
  assert (E : parse_level (S f) l ((ts ++ ts') ++ rest)
    = match parse_level f (S l) ((ts ++ ts') ++ rest) with Some (a, r) => parse_tail f l a r | None => None end)
    by (destruct l as [|[|[|[|[|l]]]]]; [lia|done..|lia]).
  rewrite E, <- app_assoc, Ha by (lia || auto). apply Htl; [lia|done].
Qed.

Lemma parses_up l ts e : (1 ≤ l ≤ 4)%nat → parses (S l) ts e → parses l ts e.
Proof.
  intros Hl H. rewrite <- (app_nil_r ts). eapply level_tail; [done|exact H| |by apply tail_nil].
  intros rest. cbn [app]. apply stops_weaken. lia.
Qed.

Lemma parses_operand l ts e : (1 ≤ l ≤ 5)%nat → parses 5 ts e → parses l ts e.
Proof.
  intros Hl H. destruct (decide (l = 5%nat)) as [->|]; [done|].
  assert (H4 : parses 4 ts e) by (apply parses_up; [lia|done]). destruct (decide (l = 4%nat)) as [->|]; [done|].
  assert (H3 : parses 3 ts e) by (apply parses_up; [lia|done]). destruct (decide (l = 3%nat)) as [->|]; [done|].
  assert (H2 : parses 2 ts e) by (apply parses_up; [lia|done]). destruct (decide (l = 2%nat)) as [->|]; [done|].
  assert (l = 1%nat) as -> by lia. apply parses_up; [lia|done].
Qed.

(** [a op b] *)
Lemma parses_bin l ts a t o ts' b :
  (1 ≤ l ≤ 4)%nat → token_op l t = Some o → parses (S l) ts a → parses (S l) ts' b → parses l (ts ++ t :: ts') (EBin o a b).
Proof.
  intros Hl Ht Ha Hb. eapply level_tail; [done|exact Ha| |].
  - intros rest _. cbn [app]. by eapply operator_stops.
  - rewrite <- (app_nil_r ts'). eapply tail_cons; [exact Ht|exact Hb| |by apply tail_nil].
    intros rest. cbn [app]. apply stops_weaken. lia.
Qed.

(** A run of operands joined by one operator. *)
Lemma tail_run l t o (l' : list (list token * expr)) a :
  (1 ≤ l ≤ 4)%nat → token_op l t = Some o → Forall (λ x, parses (S l) x.1 x.2) l' →
  tail_parses l a (concat (map (λ x, t :: x.1) l')) (foldl (EBin o) a (map snd l')).
Proof.
  intros Hl Ht Hx. revert a. induction Hx as [|[ts b] l' Hb Hl' IH]; intros a; [by apply tail_nil|].
  cbn [map concat fst snd foldl app]. eapply tail_cons; [exact Ht|exact Hb| |apply IH].
  intros rest Hs. destruct l' as [|[ts' b'] l']; cbn [map concat app fst]; [apply (stops_weaken l); [lia|done]|]. by eapply operator_stops.
Qed.

Lemma parses_run l t o ts a l' :
  (1 ≤ l ≤ 4)%nat → token_op l t = Some o → parses (S l) ts a → Forall (λ x : list token * expr, parses (S l) x.1 x.2) l' →
  parses l (ts ++ concat (map (λ x, t :: x.1) l')) (foldl (EBin o) a (map snd l')).
Proof.
  intros Hl Ht Ha Hx. eapply level_tail; [done|exact Ha| |by apply tail_run].
  intros rest Hs. destruct l' as [|[ts' b'] l']; cbn [map concat app fst]; [apply (stops_weaken l); [lia|done]|]. by eapply operator_stops.
Qed.


(** ** Operands and calls *)

Lemma parses_num s x : parses 5 (num_tokens s x) (num_expr s x).
Proof.
  unfold num_tokens, num_expr. destruct (starts_with [45] s); (split; [done|]); intros f rest Hf _; cbn [length] in Hf.
  - destruct f as [|[|f]]; [lia..|]. reflexivity.
  - destruct f as [|f]; [lia|]. reflexivity.
Qed.

Lemma parses_id v : parses 5 [TId v] (EVar v).
Proof.
  split; [done|]. intros [|f] rest Hf Hs; [lia|]. cbn [app parse_level]. destruct rest as [|t rest]; [done|].
  destruct Hs as (_ & _ & ->). reflexivity.
Qed.

Lemma parses_str s : parses 5 [TStr s] (EStr s).
Proof. split; [done|]. intros [|f] rest Hf Hs; [lia|]. reflexivity. Qed.

(** Without a condition. *)
Lemma parses_plain ts e : parses 1 ts e → parses 0 ts e.
Proof.
  intros [Hne H]. split; [done|]. intros [|f] rest Hf Hs; [lia|]. cbn [parse_level].
  rewrite H; [|lia|by apply (stops_weaken 0); [lia|]]. destruct rest as [|t rest]; [done|]. destruct Hs as (_ & Hq & _). by rewrite Hq.
Qed.

Definition tok (s : string) : token := TOp (js s).

Lemma stops_tok s l rest :
  forallb (λ l', bool_decide (token_op l' (tok s) = None)) LEVELS && negb (is_op "?" (tok s)) && negb (is_op "(" (tok s)) = true →
  stops_at l (tok s :: rest).
Proof.
  intros [[H1 H2%negb_true_iff]%andb_true_iff H3%negb_true_iff]%andb_true_iff. split_and!; [|done|done]. intros l' Hl'.
  destruct (decide (l' = O)) as [->|]; [done|]. rewrite forallb_forall in H1.
  apply (bool_decide_eq_true (token_op l' (tok s) = None)), H1, list_elem_of_In, elem_of_levels. lia.
Qed.

(** [c ? a : b] *)
Lemma parses_cond ts c ts' a ts'' b :
  parses 1 ts c → parses 0 ts' a → parses 0 ts'' b → parses 0 (ts ++ tok "?" :: ts' ++ tok ":" :: ts'') (ECond c a b).
Proof.
  intros [Hne Hc] [_ Ha] [_ Hb]. split; [by destruct ts|]. intros [|f] rest Hf Hs; [lia|].
  rewrite !length_app in Hf; cbn [length] in Hf; rewrite length_app in Hf; cbn [length] in Hf.
  cbn [parse_level]. rewrite <- app_assoc. cbn [app]. rewrite <- app_assoc. cbn [app].
  rewrite Hc; [|lia|]. 2: { split_and!; [|lia|done]. intros [|[|[|[|[|l']]]]] Hl'; try lia; reflexivity. }
  change (is_op "?" (tok "?")) with true. cbv beta iota. rewrite Ha; [|lia|by apply stops_tok].
  change (is_op ":" (tok ":")) with true. cbv beta iota. by rewrite Hb by (lia || done).
Qed.

(** [f(x)] and [f(x, y)] *)
Lemma args_last ts e f rest :
  parses 0 ts e → (12 * length ts + 8 ≤ f)%nat → parse_args f (ts ++ tok ")" :: rest) = Some ([e], rest).
Proof.
  intros [_ H] Hf. destruct f as [|f]; [lia|]. cbn [parse_args]. rewrite H; [done|lia|by apply stops_tok].
Qed.

Lemma args_more ts e f rest :
  parses 0 ts e → (12 * length ts + 8 ≤ S f)%nat →
  parse_args (S f) (ts ++ tok "," :: rest)
  = match parse_args f rest with Some (es, r') => Some (e :: es, r') | None => None end.
Proof.
  intros [_ H] Hf. cbn [parse_args]. rewrite H; [done|lia|by apply stops_tok].
Qed.

Definition call_tokens (g s : jstr) (ts : list token) : list token := TId g :: tok "(" :: TStr s :: tok "," :: ts ++ [tok ")"].

Lemma parses_call g s ts e : parses 0 ts e → parses 5 (call_tokens g s ts) (ECall g [EStr s; e]).
Proof.
  intros H. split; [done|]. intros [|f] rest Hf Hs; [lia|]. unfold call_tokens in *. cbn [length] in Hf. rewrite length_app in Hf. cbn [length] in Hf.
  cbn [app parse_level]. change (is_op "(" (tok "(")) with true. cbv beta iota. rewrite <- app_assoc. cbn [app].
  assert (Hs' : parses 0 [TStr s] (EStr s)) by (apply parses_plain, parses_operand; [lia|apply parses_str]).
  destruct f as [|f]; [lia|]. change (TStr s :: tok "," :: ts ++ tok ")" :: rest) with ([TStr s] ++ tok "," :: ts ++ tok ")" :: rest).
  rewrite (args_more _ _ _ _ Hs') by (cbn [length]; lia). by rewrite (args_last _ _ _ _ H) by lia.
Qed.

(** A text that is an expression from end to end. *)
Lemma compile_item s ts e : item s ts → parses 0 ts e → compile s = Some (Compiled e) ∧ trim s ≠ [].
Proof.
  intros Hi%lex_item [Hne Hp]. split.
  - unfold compile. rewrite Hi. specialize (Hp (12 * S (length ts))%nat []). rewrite app_nil_r in Hp. by rewrite Hp by (lia || done).
  - intros Ht. apply Hne. assert (Hw : Forall (λ c, is_ws c = true) s).
    { apply Forall_forall. intros c Hc. destruct (is_ws c) eqn:Ew; [done|].
      assert (Hin : c ∈ trim s) by by apply elem_of_trim_ink. rewrite Ht in Hin. by apply elem_of_nil in Hin. }
    assert (Hl : lex_run LexStart s = Some ([], LexStart)).
    { clear -Hw. induction Hw as [|c s Hc _ IH]; [done|]. cbn [lex_run]. unfold lex_step. cbn [continue finish]. unfold begin. by rewrite Hc, IH. }
    unfold lex in Hi. rewrite Hl in Hi. by injection Hi as <-.
Qed.
