(* ===== verification/EstimatorProps.v ===== *)
(** * Billing expressions: what is printed is what is computed

    The expression the visual editor prints for its tiers, handed to the
    estimator, costs what the tiers say: the printer is correct for the
    meaning of expressions. *)

From Stdlib Require Import String.
From S2P Require Import JsArith JsonText JsExec BillingExpr TierExpr TierExprFacts StatusCodeRulesProps Estimator EstimatorParse.

#[local] Opaque string_of_number number_of_string.

(** ** What the tiers say *)

(** The number a condition compares with. *)
Definition bound_of (v : cond_value) : jsnum :=
  match v with NumValue x => x | TextValue s => number_of_string s end.

Section Charge.
Context (env : list (jstr * jsnum)).

Definition count (v : jstr) : jsnum := default S754_nan (map_get env v).

(** The prices of a tier by variable: input and output, and the other costs that are not zero. *)
Definition unit_prices (tier : VisualTier) : list (jstr * jsnum) :=
  (js "p", or_zero (Some (t_input tier))) :: (js "c", or_zero (Some (t_output tier)))
  :: omap (λ e : jstr * jstr, let v := cost (t_costs tier) e.1 in if nonzero v then Some (e.2, v) else None) BILLING_CACHE_VAR_MAP.

Definition sum (l : list jsnum) : jsnum := match l with [] => or_zero None | x :: l' => foldl num_add x l' end.

(** Tokens times prices. *)
Definition charge (prices : list (jstr * jsnum)) : jsnum := sum (map (λ u, num_mul (count u.1) u.2) prices).

Definition compare (o : TierOp) (x y : jsnum) : bool :=
  match o with Op_lt => num_lt x y | Op_le => num_le x y | Op_gt => num_lt y x | Op_ge => num_le y x end.

Definition holds (c : TierConditionInput) : bool := compare (ci_op c) (count (var_name (ci_var c))) (bound_of (ci_value c)).

(** All conditions with a value. *)
Definition applies (tier : VisualTier) : bool := forallb holds (filterb has_value (t_conditions tier)).

Definition numbered (i : Z) : jstr := js "tier_" ++ string_of_Z (i + 1).

(** The first tier that applies; the last one is for everything else. *)
Fixpoint chosen (i : Z) (tiers : list VisualTier) : option (jstr * VisualTier) :=
  match tiers with
  | [] => None
  | tier :: rest =>
      if negb (nonempty rest) || applies tier then Some (label_or (numbered i) tier, tier) else chosen (i + 1) rest
  end.

(** What a configuration charges, and under which label. *)
Definition config_charge (tiers : list VisualTier) : jsnum * jstr :=
  let free := (charge [(js "p", num_of_Z 0); (js "c", num_of_Z 0)], []) in
  match tiers with
  | [] => free
  | [tier] => if applies tier then (charge (unit_prices tier), label_or (js "default") tier) else free
  | _ => match chosen 0 tiers with Some (l, tier) => (charge (unit_prices tier), l) | None => free end
  end.
End Charge.

(** ** Configurations that are expressions *)

Definition number_text (s : jstr) (x : jsnum) : bool := bool_decide (parse_number s = Some (x, [])).

Definition price_ok (x : jsnum) : bool := number_text (string_of_number x) x.

(** A condition has a value, that is a number as JSON writes it, or none. *)
Definition condition_runs (c : TierConditionInput) : bool :=
  negb (has_value c) || number_text (value_text (ci_value c)) (bound_of (ci_value c)).

Definition tier_runs (tier : VisualTier) : bool :=
  forallb plain_char (t_label tier) && forallb condition_runs (t_conditions tier)
  && forallb (λ u : jstr * jsnum, price_ok u.2) (unit_prices tier).

(** A tier before the last one has a condition, so that what is printed is an expression. *)
Fixpoint guarded (tiers : list VisualTier) : bool :=
  match tiers with
  | [] | [_] => true
  | tier :: rest => nonempty (filterb has_value (t_conditions tier)) && guarded rest
  end.

Definition config_runs (tiers : list VisualTier) : bool := forallb tier_runs tiers && guarded tiers.

(** ** The tokens of what is printed *)

Definition product_tokens (u : jstr * jsnum) : list token := TId u.1 :: tok "*" :: num_tokens (string_of_number u.2) u.2.
Definition product_expr (u : jstr * jsnum) : expr := EBin OpMul (EVar u.1) (num_expr (string_of_number u.2) u.2).

Definition is_name (v : jstr) : bool :=
  match v with c :: w => ident_start c && forallb ident_char w | [] => false end.

Lemma item_name v : is_name v = true → item v [TId v].
Proof.
  destruct v as [|c w]; [done|]. intros [Hc Hw]%andb_true_iff. apply item_word; [done|].
  rewrite forallb_forall in Hw. apply Forall_forall. intros d Hd. by apply Hw, list_elem_of_In.
Qed.

(** A single operator. *)
Lemma item_op s : (match js s with [o] => (match begin o with Some (LexOp c) => c =? o | _ => false end) && negb (o =? 38) | _ => false end) = true →
  item (js s) [tok s].
Proof.
  unfold tok. destruct (js s) as [|o [|]]; try done. intros [H1 H2%negb_true_iff]%andb_true_iff.
  apply item_single; [|cbn; by rewrite H2]. cbn [lex_run]. unfold lex_step. cbn [continue finish].
  destruct (begin o) as [[]|]; try done. by apply Z.eqb_eq in H1 as ->.
Qed.

Lemma item_product u : is_name u.1 = true → price_ok u.2 = true → item (product u.1 u.2) (product_tokens u).
Proof.
  intros Hv Hx%bool_decide_eq_true. unfold product, product_tokens. change (js " * ") with (32 :: js "*" ++ [32]).
  change (u.1 ++ (32 :: js "*" ++ [32]) ++ string_of_number u.2) with (u.1 ++ 32 :: (js "*" ++ 32 :: string_of_number u.2)).
  apply (item_then u.1 _ [TId u.1]); [by apply item_name|]. apply (item_then (js "*") _ [tok "*"]); [by apply item_op|by apply item_number].
Qed.

Lemma parses_product u : parses 4 (product_tokens u) (product_expr u).
Proof.
  apply (parses_bin 4 [TId u.1]); [lia|done|apply parses_id|apply parses_num].
Qed.

(** Texts joined by an operator. *)
Lemma item_join s t x xs ts tss :
  item s [t] → item x ts → Forall2 item xs tss →
  item (join (32 :: s ++ [32]) (x :: xs)) (ts ++ concat (map (cons t) tss)).
Proof.
  intros Hs Hx Hxs. revert x ts Hx. induction Hxs as [|y us ys uss Hy _ IH]; intros x ts Hx.
  - cbn [join map concat]. by rewrite app_nil_r.
  - rewrite join_cons. cbn [map concat app]. rewrite <- app_assoc. cbn [app].
    apply item_then; [done|]. change (t :: us ++ concat (map (cons t) uss)) with ([t] ++ (us ++ concat (map (cons t) uss))).
    apply item_then; [done|]. by apply IH.
Qed.


(** The costs of a tier, from the first product on. *)
Definition prices_text (us : list (jstr * jsnum)) : jstr := join (js " + ") (map (λ u, product u.1 u.2) us).
Definition prices_tokens (us : list (jstr * jsnum)) : list token :=
  match us with [] => [] | u :: us' => product_tokens u ++ concat (map (λ v, tok "+" :: product_tokens v) us') end.
Definition prices_expr (us : list (jstr * jsnum)) : expr :=
  match us with [] => EStr [] | u :: us' => foldl (EBin OpAdd) (product_expr u) (map product_expr us') end.

Lemma tier_body_text tier : buildTierBodyExpr tier = prices_text (unit_prices tier).
Proof.
  unfold buildTierBodyExpr, prices_text, unit_prices. cbn [map fst snd]. do 3 f_equal. unfold extra_products.
  induction BILLING_CACHE_VAR_MAP as [|e m IH]; [done|]. cbn [omap list_omap].
  destruct (nonzero (cost (t_costs tier) e.1)); cbn [map fst snd]; by rewrite IH.
Qed.

Definition priced (us : list (jstr * jsnum)) : bool := forallb (λ u, is_name u.1 && price_ok u.2) us.

Lemma item_prices us : us ≠ [] → priced us = true → item (prices_text us) (prices_tokens us).
Proof.
  intros Hne Hp. unfold priced in Hp. rewrite forallb_forall in Hp.
  assert (Hi : Forall (λ u, item (product u.1 u.2) (product_tokens u)) us).
  { apply Forall_forall. intros u Hu%list_elem_of_In%Hp. apply andb_true_iff in Hu as [Hv Hx]. by apply item_product. }
  destruct Hi as [|u us Hu Hi]; [done|]. unfold prices_text, prices_tokens. cbn [map].
  replace (map (λ v, tok "+" :: product_tokens v) us) with (map (cons (tok "+")) (map product_tokens us)) by by rewrite map_map.
  apply (item_join (js "+")); [by apply item_op|done|]. clear Hne Hp Hu.
  induction Hi as [|v us Hv _ IH]; [apply Forall2_nil; done|by apply Forall2_cons].
Qed.

Lemma parses_prices us : us ≠ [] → parses 3 (prices_tokens us) (prices_expr us).
Proof.
  destruct us as [|u us]; [done|]. intros _. unfold prices_tokens, prices_expr.
  pose proof (parses_run 3 (tok "+") OpAdd (product_tokens u) (product_expr u) (map (λ v, (product_tokens v, product_expr v)) us)) as H.
  rewrite !map_map in H. cbn [fst snd] in H. apply H; [lia|done|apply parses_product|].
  apply Forall_fmap, Forall_true. intros v. apply parses_product.
Qed.

(** The names of the costs are words. *)
Lemma priced_tier tier : tier_runs tier = true → priced (unit_prices tier) = true.
Proof.
  intros [_ Hp]%andb_true_iff. unfold priced. rewrite forallb_forall in *. intros u Hu. rewrite (Hp u Hu), andb_true_r.
  assert (Hn : forallb (λ e : jstr * jstr, is_name e.2) BILLING_CACHE_VAR_MAP = true) by by_eval.
  rewrite forallb_forall in Hn. apply list_elem_of_In in Hu. unfold unit_prices in Hu.
  apply elem_of_cons in Hu as [->|[->|Hu]%elem_of_cons]; [by_eval..|].
  apply list_elem_of_omap in Hu as (e & He%list_elem_of_In & Hu). cbn zeta in Hu. destruct (nonzero _); [|done].
  injection Hu as <-. by apply Hn.
Qed.

(** The call of a tier. *)
Definition tier_tokens (label : jstr) (us : list (jstr * jsnum)) : list token := call_tokens (js "tier") label (prices_tokens us).
Definition tier_expr (label : jstr) (us : list (jstr * jsnum)) : expr := ECall (js "tier") [EStr label; prices_expr us].

Lemma item_tier label tier :
  forallb plain_char label = true → tier_runs tier = true → item (tier_call label tier) (tier_tokens label (unit_prices tier)).
Proof.
  intros Hl Ht. unfold tier_call, tier_tokens, call_tokens. rewrite tier_body_text.
  apply (item_cat (js "tier(") _ [TId (js "tier"); tok "("]).
  { exists [TId (js "tier")], (LexOp 40), [tok "("]. split_and!; [by_eval|done|done|]. intros c. apply op_continue. }
  2: { by intros c [= <-]. }
  apply (item_cat (quoted label) _ [TStr label]); [by apply item_quoted| |by intros c [= <-]].
  change (js ", " ++ prices_text (unit_prices tier) ++ js ")") with (js "," ++ 32 :: (prices_text (unit_prices tier) ++ js ")")).
  apply (item_then (js ",") _ [tok ","]); [by apply item_op|].
  apply item_cat; [|by apply item_op|by intros c [= <-]]. apply item_prices; [done|by apply priced_tier].
Qed.

Lemma parses_tier label us : us ≠ [] → parses 5 (tier_tokens label us) (tier_expr label us).
Proof. intros Hne. by apply parses_call, parses_plain, parses_up, parses_up, parses_prices; [lia..|]. Qed.

(** ** Conditions *)

Definition op_of_tier (o : TierOp) : binop :=
  match o with Op_lt => OpLt | Op_le => OpLe | Op_gt => OpGt | Op_ge => OpGe end.

Definition condition_tokens (c : TierConditionInput) : list token :=
  TId (var_name (ci_var c)) :: TOp (op_name (ci_op c)) :: num_tokens (value_text (ci_value c)) (bound_of (ci_value c)).
Definition condition_expr (c : TierConditionInput) : expr :=
  EBin (op_of_tier (ci_op c)) (EVar (var_name (ci_var c))) (num_expr (value_text (ci_value c)) (bound_of (ci_value c))).

Lemma item_condition c :
  number_text (value_text (ci_value c)) (bound_of (ci_value c)) = true → item (condition_text c) (condition_tokens c).
Proof.
  intros Hx%bool_decide_eq_true. unfold condition_text, condition_tokens.
  apply (item_then (var_name (ci_var c)) _ [TId (var_name (ci_var c))]); [by apply item_name; destruct (ci_var c)|].
  apply (item_then (op_name (ci_op c)) _ [TOp (op_name (ci_op c))]); [|by apply item_number].
  destruct (ci_op c); [by apply item_op|by apply item_pair|by apply item_op|by apply item_pair].
Qed.

Lemma parses_condition c : parses 2 (condition_tokens c) (condition_expr c).
Proof.
  apply (parses_bin 2 [TId (var_name (ci_var c))]); [lia|by destruct (ci_op c)| |apply parses_operand; [lia|apply parses_num]].
  apply parses_operand; [lia|apply parses_id].
Qed.

Definition conditions_tokens (l : list TierConditionInput) : list token :=
  match l with [] => [] | c :: l' => condition_tokens c ++ concat (map (λ d, tok "&&" :: condition_tokens d) l') end.
Definition conditions_expr (l : list TierConditionInput) : expr :=
  match l with [] => EStr [] | c :: l' => foldl (EBin OpAnd) (condition_expr c) (map condition_expr l') end.

Lemma item_conditions conditions :
  forallb condition_runs conditions = true → filterb has_value conditions ≠ [] →
  item (buildConditionStr conditions) (conditions_tokens (filterb has_value conditions)).
Proof.
  intros Hc Hne. unfold buildConditionStr.
  assert (Hi : Forall (λ c, item (condition_text c) (condition_tokens c)) (filterb has_value conditions)).
  { apply Forall_forall. intros c [Hin Hv]%elem_of_filterb. rewrite forallb_forall in Hc. apply list_elem_of_In, Hc in Hin.
    unfold condition_runs in Hin. rewrite Hv in Hin. by apply item_condition. }
  destruct Hi as [|c l Hc0 Hi]; [done|]. unfold conditions_tokens. cbn [map].
  replace (map (λ d, tok "&&" :: condition_tokens d) l) with (map (cons (tok "&&")) (map condition_tokens l)) by by rewrite map_map.
  apply (item_join (js "&&")); [by apply item_pair|done|]. clear Hne Hc Hc0.
  induction Hi as [|d l Hd _ IH]; [apply Forall2_nil; done|by apply Forall2_cons].
Qed.

Lemma parses_conditions l : l ≠ [] → parses 1 (conditions_tokens l) (conditions_expr l).
Proof.
  destruct l as [|c l]; [done|]. intros _. unfold conditions_tokens, conditions_expr.
  pose proof (parses_run 1 (tok "&&") OpAnd (condition_tokens c) (condition_expr c) (map (λ d, (condition_tokens d, condition_expr d)) l)) as H.
  rewrite !map_map in H. cbn [fst snd] in H. apply H; [lia|done|apply parses_condition|].
  apply Forall_fmap, Forall_true. intros d. apply parses_condition.
Qed.

(** ** What the expressions are worth *)

Definition NAMES : list jstr := js "p" :: js "c" :: js "len" :: map snd BILLING_CACHE_VAR_MAP.

Section Worth.
Context (env : list (jstr * jsnum)) (Henv : ∀ v, v ∈ NAMES → is_Some (map_get env v)).

Lemma count_get v : v ∈ NAMES → map_get env v = Some (count env v).
Proof. intros [x Hx]%Henv. unfold count. by rewrite Hx. Qed.

Lemma eval_num s x m : eval env (num_expr s x) m = Some (VNum x, m).
Proof. unfold num_expr. destruct (starts_with [45] s); [|done]. cbn [eval]. by rewrite SFopp_involutive. Qed.

Lemma eval_product u m : u.1 ∈ NAMES → eval env (product_expr u) m = Some (VNum (num_mul (count env u.1) u.2), m).
Proof. intros Hu. unfold product_expr. cbn [eval]. by rewrite (count_get _ Hu), eval_num. Qed.

Lemma eval_sum us x a m :
  Forall (λ u : jstr * jsnum, u.1 ∈ NAMES) us → eval env a m = Some (VNum x, m) →
  eval env (foldl (EBin OpAdd) a (map product_expr us)) m
  = Some (VNum (foldl num_add x (map (λ u, num_mul (count env u.1) u.2) us)), m).
Proof.
  intros Hus. revert x a. induction Hus as [|u us Hu _ IH]; intros x a Ha; [done|].
  cbn [map foldl]. apply IH. cbn [eval]. by rewrite Ha, (eval_product u m Hu).
Qed.

Lemma eval_prices us m :
  us ≠ [] → Forall (λ u : jstr * jsnum, u.1 ∈ NAMES) us → eval env (prices_expr us) m = Some (VNum (charge env us), m).
Proof.
  intros Hne Hus. destruct Hus as [|u us Hu Hus]; [done|]. unfold prices_expr, charge, sum. cbn [map].
  by apply eval_sum, eval_product.
Qed.

Lemma eval_tier label us m :
  us ≠ [] → Forall (λ u : jstr * jsnum, u.1 ∈ NAMES) us → eval env (tier_expr label us) m = Some (VNum (charge env us), label).
Proof. intros Hne Hus. unfold tier_expr. cbn [eval]. rewrite (eval_prices us m Hne Hus). by vm_compute. Qed.

Lemma eval_condition c m : eval env (condition_expr c) m = Some (VBool (holds env c), m).
Proof.
  unfold condition_expr, holds. assert (Hv : var_name (ci_var c) ∈ NAMES) by (destruct (ci_var c); set_solver).
  destruct (ci_op c); cbn [op_of_tier eval]; by rewrite (count_get _ Hv), eval_num.
Qed.

Lemma eval_conditions l m : l ≠ [] → eval env (conditions_expr l) m = Some (VBool (forallb (holds env) l), m).
Proof.
  destruct l as [|c l]; [done|]. intros _. unfold conditions_expr. cbn [forallb].
  generalize (holds env c), (condition_expr c), (eval_condition c m). induction l as [|d l IH]; intros b a Ha.
  - by rewrite andb_true_r.
  - cbn [map foldl forallb]. rewrite andb_assoc. apply IH. cbn [eval]. rewrite Ha. cbn [truthy_val]. destruct b; [apply eval_condition|done].
Qed.

Lemma eval_cond l e e' m :
  l ≠ [] → eval env (ECond (conditions_expr l) e e') m = if forallb (holds env) l then eval env e m else eval env e' m.
Proof. intros Hl. cbn [eval]. rewrite (eval_conditions l m Hl). by destruct (forallb (holds env) l). Qed.

End Worth.

Lemma tier_names tier : Forall (λ u : jstr * jsnum, u.1 ∈ NAMES) (unit_prices tier).
Proof.
  unfold unit_prices, NAMES. apply Forall_forall. intros u Hu. apply elem_of_cons in Hu as [->|[->|Hu]%elem_of_cons]; [set_solver..|].
  apply list_elem_of_omap in Hu as (e & He & Hu). cbn zeta in Hu. destruct (nonzero _); [|done]. injection Hu as <-.
  do 3 (apply elem_of_cons; right). by apply (list_elem_of_fmap_2 snd _ _ He).
Qed.

Lemma estimator_names p c extra v : v ∈ NAMES → is_Some (map_get (estimator_env p c extra) v).
Proof.
  assert (Hn : map fst (estimator_env p c extra) = map js ["p"; "c"; "len"; "cr"; "cc"; "cc1h"; "img"; "img_o"; "ai"; "ao"]%string) by reflexivity.
  intros Hv. destruct (map_get (estimator_env p c extra) v) eqn:E; [done|]. exfalso.
  apply map_get_None in E. apply E. rewrite Hn.
  assert (Hs : forallb (λ v, bool_decide (v ∈ map js ["p"; "c"; "len"; "cr"; "cc"; "cc1h"; "img"; "img_o"; "ai"; "ao"]%string)) NAMES = true) by by_eval.
  rewrite forallb_forall in Hs. by apply list_elem_of_In, Hs, bool_decide_eq_true in Hv.
Qed.

(** ** Configurations *)

Definition free_prices : list (jstr * jsnum) := [(js "p", num_of_Z 0); (js "c", num_of_Z 0)].

Lemma free_text : prices_text free_prices = js "p * 0 + c * 0" ∧ priced free_prices = true.
Proof. by vm_compute. Qed.

Lemma free_names : Forall (λ u : jstr * jsnum, u.1 ∈ NAMES) free_prices.
Proof. repeat constructor; set_solver. Qed.

(** A condition before an expression and another one. *)
Lemma item_guard conditions s ts s' ts' :
  forallb condition_runs conditions = true → filterb has_value conditions ≠ [] → item s ts → item s' ts' →
  item (buildConditionStr conditions ++ js " ? " ++ s ++ js " : " ++ s')
    (conditions_tokens (filterb has_value conditions) ++ tok "?" :: ts ++ tok ":" :: ts').
Proof.
  intros Hc Hne Hs Hs'. apply (item_then _ (js "? " ++ s ++ js " : " ++ s') _ (tok "?" :: ts ++ tok ":" :: ts')); [by apply item_conditions|].
  apply (item_then (js "?") (s ++ js " : " ++ s') [tok "?"]); [by apply item_op|].
  apply (item_then s (js ": " ++ s')); [done|]. apply (item_then (js ":") s' [tok ":"]); [by apply item_op|done].
Qed.

Lemma label_plain d tier :
  forallb plain_char d = true → tier_runs tier = true → forallb plain_char (label_or d tier) = true.
Proof.
  intros Hd [[Hl _]%andb_true_iff _]%andb_true_iff. unfold label_or. by destruct (t_label tier).
Qed.

Lemma numbered_plain i : 0 ≤ i → forallb plain_char (numbered i) = true.
Proof.
  intros Hi. unfold numbered. rewrite forallb_app. apply andb_true_iff. split; [done|].
  apply forallb_forall. intros c Hc%list_elem_of_In. destruct (string_of_Z_digits (i + 1)) as [_ H]; [lia|].
  rewrite Forall_forall in H. specialize (H c Hc). assert (Hin : c ∈ seqZ 48 10) by (apply elem_of_seqZ; unfold is_digit in H; lia).
  assert (Hs : Forall (λ c, plain_char c = true) (seqZ 48 10)) by (repeat constructor). rewrite Forall_forall in Hs. auto.
Qed.

Lemma conditions_empty conditions : buildConditionStr conditions = [] ↔ filterb has_value conditions = [].
Proof.
  unfold buildConditionStr. split; [|by intros ->]. destruct (filterb has_value conditions) as [|c l]; [done|].
  cbn [map]. destruct (map condition_text l); [|rewrite join_cons]; cbn [join]; unfold condition_text; by destruct (ci_var c).
Qed.

(** Several tiers, from the one at [i] on: the tokens, the tree and its worth. *)
Lemma tiers_run p c extra tiers i m :
  0 ≤ i → tiers ≠ [] → forallb tier_runs tiers = true → guarded tiers = true →
  ∃ ts e l tier, item (join (js " : ") (tier_parts i tiers)) ts ∧ parses 0 ts e
    ∧ chosen (estimator_env p c extra) i tiers = Some (l, tier)
    ∧ eval (estimator_env p c extra) e m = Some (VNum (charge (estimator_env p c extra) (unit_prices tier)), l).
Proof.
  revert i. induction tiers as [|tier rest IH]; [done|]. intros i Hi _ [Ht Hr]%andb_true_iff Hg.
  set (l := label_or (numbered i) tier). assert (Hl : forallb plain_char l = true) by by apply label_plain; [apply numbered_plain|].
  pose proof (item_tier l tier Hl Ht) as Hitem. pose proof (parses_tier l (unit_prices tier)) as Hp.
  destruct rest as [|tier' rest].
  - exists (tier_tokens l (unit_prices tier)), (tier_expr l (unit_prices tier)), l, tier. split_and!; [done| |done|].
    + apply parses_plain, parses_operand; [lia|by apply Hp].
    + apply eval_tier; [apply estimator_names|done|apply tier_names].
  - change (guarded (tier :: tier' :: rest)) with (nonempty (filterb has_value (t_conditions tier)) && guarded (tier' :: rest)) in Hg.
    apply andb_true_iff in Hg as [Hne%nonempty_true Hg].
    destruct (IH (i + 1)) as (ts & e & l' & tier1 & H1 & H2 & H3 & H4); [lia|done|done|done|].
    exists (conditions_tokens (filterb has_value (t_conditions tier)) ++ tok "?" :: tier_tokens l (unit_prices tier) ++ tok ":" :: ts).
    exists (ECond (conditions_expr (filterb has_value (t_conditions tier))) (tier_expr l (unit_prices tier)) e).
    exists (if applies (estimator_env p c extra) tier then l else l'), (if applies (estimator_env p c extra) tier then tier else tier1).
    assert (Hcond : buildConditionStr (t_conditions tier) ≠ []) by by rewrite conditions_empty.
    split_and!.
    + change (tier_parts i (tier :: tier' :: rest))
        with ((if true && nonempty (buildConditionStr (t_conditions tier)) then buildConditionStr (t_conditions tier) ++ js " ? " ++ tier_call l tier
               else tier_call l tier) :: tier_parts (i + 1) (tier' :: rest)).
      rewrite (proj2 (nonempty_true _) Hcond). cbn [andb].
      assert (Hj : ∀ x y ys, join (js " : ") (x :: y :: ys) = x ++ js " : " ++ join (js " : ") (y :: ys)) by done.
      destruct (tier_parts (i + 1) (tier' :: rest)) eqn:E; [done|]. rewrite Hj, <- E, <- !app_assoc.
      apply item_guard; [|done|done|by rewrite E]. by apply andb_true_iff in Ht as [[_ Ht]%andb_true_iff _].
    + apply parses_cond; [by apply parses_conditions| |done]. apply parses_plain, parses_operand; [lia|by apply Hp].
    + cbn [chosen nonempty negb orb]. destruct (applies _ tier); [done|exact H3].
    + rewrite eval_cond; [|apply estimator_names|done].
      change (forallb (holds (estimator_env p c extra)) (filterb has_value (t_conditions tier))) with (applies (estimator_env p c extra) tier).
      destruct (applies _ tier); [|exact H4]. apply eval_tier; [apply estimator_names|done|apply tier_names].
Qed.

(** One tier, or none. *)
Lemma single_run p c extra tier :
  tier_runs tier = true →
  ∃ ts e, item (generateExprFromVisualConfig (Some [tier])) ts ∧ parses 0 ts e
    ∧ eval (estimator_env p c extra) e []
      = Some (VNum (config_charge (estimator_env p c extra) [tier]).1, (config_charge (estimator_env p c extra) [tier]).2).
Proof.
  intros Ht. set (l := label_or (js "default") tier). assert (Hl : forallb plain_char l = true) by by apply label_plain.
  pose proof (item_tier l tier Hl Ht) as Hitem. pose proof (parses_tier l (unit_prices tier)) as Hp.
  change (generateExprFromVisualConfig (Some [tier]))
    with (if nonempty (buildConditionStr (t_conditions tier))
          then buildConditionStr (t_conditions tier) ++ js " ? " ++ tier_call l tier ++ js " : " ++ js "p * 0 + c * 0" else tier_call l tier).
  cbn [config_charge]. fold l. destruct (nonempty (buildConditionStr (t_conditions tier))) eqn:Hn.
  - apply nonempty_true in Hn. rewrite conditions_empty in Hn. destruct free_text as [Hf Hfp]. rewrite <- Hf.
    exists (conditions_tokens (filterb has_value (t_conditions tier)) ++ tok "?" :: tier_tokens l (unit_prices tier) ++ tok ":" :: prices_tokens free_prices).
    exists (ECond (conditions_expr (filterb has_value (t_conditions tier))) (tier_expr l (unit_prices tier)) (prices_expr free_prices)).
    split_and!.
    + apply item_guard; [|done|done|by apply item_prices]. by apply andb_true_iff in Ht as [[_ Ht]%andb_true_iff _].
    + apply parses_cond; [by apply parses_conditions|apply parses_plain, parses_operand; [lia|by apply Hp]|].
      by apply parses_plain, parses_up, parses_up, parses_prices; [lia..|].
    + rewrite eval_cond; [|apply estimator_names|done].
      change (forallb (holds (estimator_env p c extra)) (filterb has_value (t_conditions tier))) with (applies (estimator_env p c extra) tier).
      destruct (applies _ tier); cbn [fst snd].
      * apply eval_tier; [apply estimator_names|done|apply tier_names].
      * apply eval_prices; [apply estimator_names|done|apply free_names].
  - exists (tier_tokens l (unit_prices tier)), (tier_expr l (unit_prices tier)). split_and!; [done| |].
    + apply parses_plain, parses_operand; [lia|by apply Hp].
    + assert (Hc : filterb has_value (t_conditions tier) = []) by by apply conditions_empty; destruct (buildConditionStr _).
      unfold applies. rewrite Hc. cbn [forallb fst snd]. apply eval_tier; [apply estimator_names|done|apply tier_names].
Qed.

Lemma config_run p c extra tiers :
  config_runs tiers = true →
  ∃ ts e, item (generateExprFromVisualConfig (Some tiers)) ts ∧ parses 0 ts e
    ∧ eval (estimator_env p c extra) e []
      = Some (VNum (config_charge (estimator_env p c extra) tiers).1, (config_charge (estimator_env p c extra) tiers).2).
Proof.
  intros [Ht Hg]%andb_true_iff. destruct tiers as [|tier [|tier' rest]].
  - destruct free_text as [Hf Hfp]. change (generateExprFromVisualConfig (Some [])) with (js "p * 0 + c * 0"). rewrite <- Hf.
    exists (prices_tokens free_prices), (prices_expr free_prices). split_and!; [by apply item_prices| |].
    + by apply parses_plain, parses_up, parses_up, parses_prices; [lia..|].
    + apply eval_prices; [apply estimator_names|done|apply free_names].
  - apply single_run. by apply andb_true_iff in Ht as [Ht _].
  - destruct (tiers_run p c extra (tier :: tier' :: rest) 0 []) as (ts & e & l & t & H1 & H2 & H3 & H4); [lia|done|done|done|].
    exists ts, e. split_and!; [exact H1|done|]. unfold config_charge. by rewrite H3.
Qed.

(** Each field of the estimator sets the count of its own variable. *)
Lemma fields_match : map (λ v, (bv_key v, stateKey v)) BILLING_EXTRA_VARS = zip ESTIMATOR_VARS (map Some ESTIMATOR_KEYS).
Proof. by_eval. Qed.

(** A tier without conditions before the last one is no expression. *)
Lemma unguarded_tier_no_expression p c extra :
  let tiers := [{| t_label := js "a"; t_conditions := []; t_input := num_of_Z 1; t_output := num_of_Z 2; t_cache_mode := CACHE_MODE_GENERIC; t_costs := [] |};
                {| t_label := js "b"; t_conditions := []; t_input := num_of_Z 3; t_output := num_of_Z 4; t_cache_mode := CACHE_MODE_GENERIC; t_costs := [] |}] in
  forallb tier_runs tiers = true
  ∧ evalExprLocally (js "error") (generateExprFromVisualConfig (Some tiers)) p c extra
    = Some {| er_cost := or_zero None; er_matchedTier := []; er_error := Some (js "error") |}.
Proof. cbv zeta. by split; [by_eval|vm_compute]. Qed.

(** ** What is printed is what is computed *)

(** C3. The tiers of the visual editor are printed as an expression that is
    worth what they say: for tiers whose labels need no escape, whose costs and
    bounds are numbers as JSON writes them, and of which all but the last have
    a condition, the estimator reads the printed text without an error, names
    the first tier whose conditions all hold (the last of several takes the
    rest; a single tier that does not apply names none and costs nothing), and
    gives the sum of the tokens of each kind times their price. *)
Theorem printed_tiers_charge (syntaxError : jstr) (tiers : list VisualTier) (p c : jsnum) (extra : ExtraTokenValues)
    (H : config_runs tiers = true) :
  evalExprLocally syntaxError (generateExprFromVisualConfig (Some tiers)) p c extra
  = Some {| er_cost := or_zero (Some (config_charge (estimator_env p c extra) tiers).1);
            er_matchedTier := (config_charge (estimator_env p c extra) tiers).2; er_error := None |}.
Proof.
  destruct (config_run p c extra tiers H) as (ts & e & Hi & Hp & He). destruct (compile_item _ _ _ Hi Hp) as [Hc Ht].
  unfold evalExprLocally. rewrite (proj2 (nonempty_true _) Ht), Hc, He. done.
Qed.

(** A tier of the samples. *)
Definition sample_tier (label : string) (conditions : list TierConditionInput) (input output cr : Z) : VisualTier :=
  {| t_label := js label; t_conditions := conditions; t_input := num_of_Z input; t_output := num_of_Z output;
     t_cache_mode := CACHE_MODE_GENERIC; t_costs := [(js "cache_read_unit_cost", num_of_Z cr)] |}.

Definition sample_tiers : list VisualTier :=
  [sample_tier "standard" [{| ci_var := Var_len; ci_op := Op_le; ci_value := TextValue (js "200000") |}] 3 15 1;
   sample_tier "" [] 6 22 2].

Lemma printed_tiers_charge_witness :
  config_runs sample_tiers = true
  ∧ evalExprLocally (js "error") (generateExprFromVisualConfig (Some sample_tiers)) (num_of_Z 200000) (num_of_Z 10)
      [(js "cacheReadTokens", num_of_Z 1)]
    = Some {| er_cost := num_of_Z 1200222; er_matchedTier := js "tier_2"; er_error := None |}.
Proof.
  split; [by_eval|].
  rewrite (printed_tiers_charge (js "error") sample_tiers (num_of_Z 200000) (num_of_Z 10) [(js "cacheReadTokens", num_of_Z 1)] eq_refl).
  by_eval.
Defined.
