(* ===== verification/JsonEditor.v ===== *)
(** * The editor of key and value texts

    Model of [components/json-editor.tsx], the table in which the drawers of
    channels, models and prefilled groups edit a JSON object held as a text by
    their forms. The editor keeps rows and the text it knows of beside the
    text of its parent, which takes every change over; an effect reads the
    rows again when the parent's text is not the one the editor knows.

    The clock gives rows their ids and is an argument of the events. *)

From Stdlib Require Import String.
From S2P Require Import JsNumber JsMap JsJson JsonText JsObject NavConfig.

(** ** The state *)

Inductive ValueType := type_string | type_number | type_any.
Inductive Mode := visual_mode | json_mode.

Record EditorRow := { er_id : jstr; er_key : jstr; er_value : jstr }.

Record JsonEditor := {
  je_value : jstr;          (* the text of the parent *)
  je_mode : Mode;
  je_rows : list EditorRow;
  je_jsonValue : jstr;
}.

Definition with_rows (rows : list EditorRow) (s : JsonEditor) : JsonEditor :=
  {| je_value := je_value s; je_mode := je_mode s; je_rows := rows; je_jsonValue := je_jsonValue s |}.

(** [setJsonValue(json)] and [onChange(json)] *)
Definition with_text (json : jstr) (s : JsonEditor) : JsonEditor :=
  {| je_value := json; je_mode := je_mode s; je_rows := je_rows s; je_jsonValue := json |}.

Definition with_mode (mode : Mode) (s : JsonEditor) : JsonEditor :=
  {| je_value := je_value s; je_mode := mode; je_rows := je_rows s; je_jsonValue := je_jsonValue s |}.

(** The first render; the effect finds the text it knows. *)
Definition open_editor (value : jstr) : JsonEditor :=
  {| je_value := value; je_mode := visual_mode; je_rows := []; je_jsonValue := value |}.

(** ** Reading a text *)

(** [typeof val === 'object' ? JSON.stringify(val) : String(val)] *)
Definition value_text (v : json) : jstr :=
  match v with JNull | JArr _ | JObj _ => json_stringify v | _ => string_of_json v end.

Definition row_id (now : Z) (index : nat) : jstr := string_of_Z now ++ js "-" ++ string_of_Z (Z.of_nat index).

Definition entry_rows (now : Z) (o : object) : list EditorRow :=
  imap (λ index e, {| er_id := row_id now index; er_key := e.1; er_value := value_text e.2 |}) o.

(** The rows of a text; a text that cannot be read keeps the rows there are. *)
Definition parseJsonToRows (now : Z) (text : jstr) (rows : list EditorRow) : list EditorRow :=
  if negb (nonempty (trim text)) then []
  else match json_parse text ≫= entries_of with Some o => entry_rows now o | None => rows end.

(** ** Writing it *)

Section Typed.
Context (valueType : ValueType).

(** The value of a row. *)
Definition parsed_value (text : jstr) : json :=
  match valueType with
  | type_string => JStr (trim text)
  | type_number => JNum (match number_of_string (trim text) with S754_nan | S754_zero _ => num_of_Z 0 | x => x end)
  | type_any => default (JStr (trim text)) (json_parse text)
  end.

Definition row_step (obj : object) (row : EditorRow) : object :=
  if nonempty (trim (er_key row)) then obj_set obj (trim (er_key row)) (parsed_value (er_value row)) else obj.

Definition rows_object (rows : list EditorRow) : object := foldl row_step [] rows.

Definition convertRowsToJson (rows : list EditorRow) : jstr :=
  if nonempty rows then json_stringify_2 (JObj (rows_object rows)) else [].

(** ** Events *)

Definition handleAddRow (now : Z) (s : JsonEditor) : JsonEditor :=
  with_rows (je_rows s ++ [{| er_id := string_of_Z now; er_key := []; er_value := [] |}]) s.

Definition rows_changed (rows : list EditorRow) (s : JsonEditor) : JsonEditor :=
  with_text (convertRowsToJson rows) (with_rows rows s).

Definition handleDeleteRow (id : jstr) (s : JsonEditor) : JsonEditor :=
  rows_changed (filterb (λ r, negb (bool_decide (er_id r = id))) (je_rows s)) s.

Inductive RowField := KeyField | ValueField.

Definition edit_row (field : RowField) (newValue : jstr) (r : EditorRow) : EditorRow :=
  match field with
  | KeyField => {| er_id := er_id r; er_key := newValue; er_value := er_value r |}
  | ValueField => {| er_id := er_id r; er_key := er_key r; er_value := newValue |}
  end.

Definition handleRowChange (id : jstr) (field : RowField) (newValue : jstr) (s : JsonEditor) : JsonEditor :=
  rows_changed (map (λ r, if bool_decide (er_id r = id) then edit_row field newValue r else r) (je_rows s)) s.

Definition handleJsonChange (now : Z) (newJson : jstr) (s : JsonEditor) : JsonEditor :=
  with_rows (parseJsonToRows now newJson (je_rows s)) (with_text newJson s).

Definition handleFillTemplate (now : Z) (template : option object) (s : JsonEditor) : JsonEditor :=
  match template with
  | Some o => handleJsonChange now (json_stringify_2 (JObj o)) s
  | None => s
  end.

Definition toggleMode (now : Z) (s : JsonEditor) : JsonEditor :=
  match je_mode s with
  | visual_mode => with_mode json_mode (with_text (convertRowsToJson (je_rows s)) s)
  | json_mode => with_mode visual_mode (with_rows (parseJsonToRows now (je_jsonValue s) (je_rows s)) s)
  end.

(** Another text of the parent, and the effect. *)
Definition receive (now : Z) (value : jstr) (s : JsonEditor) : JsonEditor :=
  if bool_decide (value = je_value s) then s
  else
    let s1 := {| je_value := value; je_mode := je_mode s; je_rows := je_rows s; je_jsonValue := je_jsonValue s |} in
    if bool_decide (value = je_jsonValue s) then s1
    else {| je_value := value; je_mode := je_mode s; je_rows := parseJsonToRows now value (je_rows s); je_jsonValue := value |}.

Inductive EditorEvent :=
| AddRow (now : Z)
| DeleteRow (id : jstr)
| RowChange (id : jstr) (field : RowField) (newValue : jstr)
| JsonChange (now : Z) (newJson : jstr)
| FillTemplate (now : Z) (template : option object)
| ToggleMode (now : Z)
| Receive (now : Z) (value : jstr).

Definition editor_event (e : EditorEvent) (s : JsonEditor) : JsonEditor :=
  match e with
  | AddRow now => handleAddRow now s
  | DeleteRow id => handleDeleteRow id s
  | RowChange id field newValue => handleRowChange id field newValue s
  | JsonChange now newJson => handleJsonChange now newJson s
  | FillTemplate now template => handleFillTemplate now template s
  | ToggleMode now => toggleMode now s
  | Receive now value => receive now value s
  end.

(** The controls of the mode. *)
Definition available (e : EditorEvent) (s : JsonEditor) : bool :=
  match e, je_mode s with
  | (AddRow _ | DeleteRow _ | RowChange _ _ _), json_mode => false
  | JsonChange _ _, visual_mode => false
  | _, _ => true
  end.

Definition editor_run (l : list EditorEvent) (s : JsonEditor) : JsonEditor := foldl (λ s e, if available e s then editor_event e s else s) s l.
End Typed.

(** ** Evaluations *)

Definition mapping_text : jstr := json_stringify_2 (JObj [entry "429" (str "503"); entry "400" (str "500")]).

Example editor_sample :
  let s := editor_run type_string [Receive 7 mapping_text] (open_editor []) in
  map (λ r, (er_id r, er_key r, er_value r)) (je_rows s) = [(js "7-0", js "400", js "500"); (js "7-1", js "429", js "503")]
  ∧ je_value (editor_run type_string [DeleteRow (js "7-0"); RowChange (js "7-1") ValueField (js " 502 ")] s)
    = json_stringify_2 (JObj [entry "429" (str "502")])
  ∧ je_value (editor_run type_any [RowChange (js "7-1") ValueField (js "{}")] s) = json_stringify_2 (JObj [entry "400" (num 500); entry "429" (JObj [])]).
Proof. split_and!; by_eval. Qed.

(** ** What its edits write

    On a text the editor can show, an edit of a row changes the entry of that
    row and no other, and switching to the text and back changes nothing. A
    text the editor was mounted over is never shown, and the first edit
    replaces it. *)

#[local] Opaque js string_of_number number_of_string json_stringify json_stringify_2.

(** ** Lists whose members have names of their own *)

Section Named.
Context {A : Type} (name : A → jstr).

Lemma named_map (f : A → A) l i x :
  NoDup (map name l) → l !! i = Some x → map (λ y, if bool_decide (name y = name x) then f y else y) l = <[i := f x]> l.
Proof.
  revert i. induction l as [|y l IH]; intros [|i] Hnd Hi; try done; cbn in *; apply NoDup_cons in Hnd as [Hy Hnd].
  - injection Hi as ->. rewrite bool_decide_true by done. f_equal. rewrite <- (map_id l) at 2. apply map_ext_in. intros z Hz%list_elem_of_In.
    rewrite bool_decide_false; [done|]. intros E. apply Hy. rewrite <- E. by apply list_elem_of_fmap_2.
  - rewrite bool_decide_false; [by rewrite (IH i)|]. intros E. apply Hy. rewrite E. apply list_elem_of_fmap_2, (list_elem_of_lookup_2 _ i), Hi.
Qed.

Lemma named_delete l i x :
  NoDup (map name l) → l !! i = Some x → filterb (λ y, negb (bool_decide (name y = name x))) l = delete i l.
Proof.
  revert i. induction l as [|y l IH]; intros [|i] Hnd Hi; try done; cbn in *; apply NoDup_cons in Hnd as [Hy Hnd].
  - injection Hi as ->. rewrite bool_decide_true by done. cbn. apply filterb_id, Forall_forall. intros z Hz.
    rewrite bool_decide_false; [done|]. intros E. apply Hy. rewrite <- E. by apply list_elem_of_fmap_2.
  - rewrite bool_decide_false; [cbn; f_equal; by apply IH|]. intros E. apply Hy. rewrite E. apply list_elem_of_fmap_2, (list_elem_of_lookup_2 _ i), Hi.
Qed.

Lemma named_map_last (f : A → A) l x :
  NoDup (map name (l ++ [x])) → map (λ y, if bool_decide (name y = name x) then f y else y) (l ++ [x]) = l ++ [f x].
Proof.
  intros Hnd. rewrite (named_map f (l ++ [x]) (length l) x Hnd) by by apply list_lookup_middle.
  by rewrite <- (Nat.add_0_r (length l)), insert_app_r.
Qed.
End Named.

Lemma obj_set_at (o : object) i k v w : well_keyed o → o !! i = Some (k, v) → obj_set o k w = <[i := (k, w)]> o.
Proof.
  unfold well_keyed, obj_set. revert i. induction o as [|[k' v'] o IH]; intros [|i] Hnd Hi; try done; cbn in *; apply NoDup_cons in Hnd as [Hk Hnd].
  - injection Hi as -> ->. by rewrite decide_True.
  - rewrite decide_False; [f_equal; by apply IH|]. intros ->. apply Hk. by apply (list_elem_of_fmap_2 fst _ _ (list_elem_of_lookup_2 _ _ _ Hi)).
Qed.

Lemma obj_delete_at (o : object) i k v : well_keyed o → o !! i = Some (k, v) → obj_delete o k = delete i o.
Proof. intros Hk Hi. by apply (named_delete fst o i (k, v)). Qed.

Lemma NoDup_insert_fresh {A} (l : list A) i x : NoDup l → (x ∉ delete i l) → NoDup (<[i := x]> l).
Proof.
  revert i. induction l as [|y l IH]; intros [|i] Hnd Hx; simpl in *; try done; apply NoDup_cons in Hnd as [Hy Hnd]; apply NoDup_cons.
  - done.
  - apply not_elem_of_cons in Hx as [Hxy Hx]. split; [|by apply IH]. intros Hin. apply list_elem_of_lookup in Hin as [j Hj].
    destruct (decide (i = j)) as [->|Hij].
    + apply list_lookup_insert_Some in Hj as [(_ & E & _)|(? & _)]; [by subst|done].
    + rewrite list_lookup_insert_ne in Hj by done. by apply Hy, (list_elem_of_lookup_2 _ j).
Qed.

(** ** The ids of rows *)

Lemma row_id_inj now i j : row_id now i = row_id now j → i = j.
Proof.
  unfold row_id. intros H. apply app_inv_head, app_inv_head in H.
  assert (E : ∀ n, digits_value (string_of_Z (Z.of_nat n)) = Z.of_nat n) by (intros n; apply string_of_Z_nonneg; lia).
  pose proof (f_equal digits_value H) as Hd. rewrite !E in Hd. lia.
Qed.

Lemma added_id_fresh now' now i : 0 ≤ now' → string_of_Z now' ≠ row_id now i.
Proof.
  intros Hn E. destruct (string_of_Z_nonneg now' Hn) as [_ Hd]. apply all_digits_spec in Hd as [_ Hd]. rewrite E in Hd. unfold row_id in Hd.
  apply Forall_app in Hd as [_ [Hd _]%Forall_app]. by vm_compute in Hd; apply Forall_cons in Hd as [Hd _].
Qed.

Lemma entry_rows_lookup now o i e :
  o !! i = Some e → entry_rows now o !! i = Some {| er_id := row_id now i; er_key := e.1; er_value := value_text e.2 |}.
Proof. intros Hi. unfold entry_rows. rewrite list_lookup_imap. unfold object in *. by rewrite Hi. Qed.

Lemma entry_rows_ids now o : NoDup (map er_id (entry_rows now o)).
Proof.
  apply NoDup_alt. intros i j x. assert (H : ∀ k, map er_id (entry_rows now o) !! k = (λ _, row_id now k) <$> o !! k).
  { intros k. change (map er_id (entry_rows now o)) with (er_id <$> entry_rows now o). rewrite list_lookup_fmap. unfold entry_rows.
    rewrite list_lookup_imap. unfold object in *. by destruct (o !! k). }
  rewrite !H. destruct (_ !! i), (_ !! j); try done. cbn. intros E1 E2. rewrite <- E1 in E2. apply (inj Some) in E2. by apply row_id_inj in E2.
Qed.

Section Typed.
Context (valueType : ValueType).

(** ** The object of the rows *)

Definition row_entry (r : EditorRow) : jstr * json := (trim (er_key r), parsed_value valueType (er_value r)).

Definition rows_named (rows : list EditorRow) : Prop :=
  Forall (λ r, trim (er_key r) ≠ []) rows ∧ NoDup (map (λ r, trim (er_key r)) rows).

(** Rows with names of their own are the entries, in their order. *)
Lemma rows_object_entries rows : rows_named rows → rows_object valueType rows = map row_entry rows.
Proof.
  intros [Hne Hnd]. unfold rows_object. enough (H : ∀ acc, NoDup (map fst acc ++ map (λ r, trim (er_key r)) rows) →
    foldl (row_step valueType) acc rows = acc ++ map row_entry rows) by by apply (H []).
  induction Hne as [|r rows Hr _ IH]; intros acc Hacc; cbn; [by rewrite app_nil_r|].
  assert (Hs : row_step valueType acc r = acc ++ [row_entry r]).
  { unfold row_step. rewrite (proj2 (nonempty_true _) Hr). apply map_set_fresh. apply NoDup_app in Hacc as (_ & Hd & _).
    intros Hin. apply (Hd _ Hin). left. }
  rewrite Hs, IH, <- app_assoc; [done|by apply NoDup_cons in Hnd as [_ Hnd]|]. by rewrite map_app, <- app_assoc.
Qed.

(** ** Texts the editor can show *)

(** Values that are read again from the text of their row. *)
Definition shown_as_is (e : jstr * json) : Prop :=
  trim e.1 = e.1 ∧ e.1 ≠ [] ∧ parsed_value valueType (value_text e.2) = e.2.

Definition editable (o : object) : Prop := json_safe (JObj o) ∧ o ≠ [] ∧ Forall shown_as_is o.

Lemma editable_facts o : editable o → well_keyed o ∧ own_entries o = o ∧ json_safe (JObj o).
Proof. intros (Hs & _). by inversion Hs; subst. Qed.

Lemma entry_rows_entries now o : Forall shown_as_is o → map row_entry (entry_rows now o) = o.
Proof.
  intros Ho. unfold entry_rows. generalize (row_id now). induction Ho as [|e o (Hk & _ & Hv) _ IH]; intros ids; [done|].
  cbn. f_equal; [|apply (IH (λ n, ids (S n)))]. unfold row_entry. cbn [er_key er_value]. rewrite Hk, Hv. by destruct e.
Qed.

Lemma entry_rows_named now o : well_keyed o → Forall shown_as_is o → rows_named (entry_rows now o).
Proof.
  intros Hw Ho. pose proof (entry_rows_entries now o Ho) as He.
  assert (Hk : map (λ r, trim (er_key r)) (entry_rows now o) = map fst o) by by rewrite <- He at 2; rewrite map_map.
  split; [|by rewrite Hk]. apply Forall_forall. intros r Hr E.
  assert (Hin : [] ∈ map fst o) by by rewrite <- Hk, <- E; apply (list_elem_of_fmap_2 (λ r, trim (er_key r))).
  apply list_elem_of_fmap in Hin as (e & Ee & Hin). rewrite Forall_forall in Ho. destruct (Ho e Hin) as (_ & Hne & _). congruence.
Qed.

Lemma converted rows : rows_named rows → rows ≠ [] → convertRowsToJson valueType rows = json_stringify_2 (JObj (map row_entry rows)).
Proof. intros Hr Hne. unfold convertRowsToJson. by rewrite (proj2 (nonempty_true _) Hne), rows_object_entries. Qed.

(** ** One edit of a shown text *)

Lemma text_shown now o rows : editable o → parseJsonToRows now (json_stringify_2 (JObj o)) rows = entry_rows now o.
Proof.
  intros He. destruct (editable_facts o He) as (_ & Ho & Hs). unfold parseJsonToRows.
  rewrite json_parse_stringify_2 by done. assert (Ht : nonempty (trim (json_stringify_2 (JObj o))) = true).
  { with_strategy transparent [json_stringify_2] unfold json_stringify_2. rewrite (trim_no_edge (json_print _ _ _)) by by apply json_print_edges.
    pose proof (json_parse_print 2 _ Hs) as Hp. destruct (json_print 2 0 (JObj o)); [by rewrite json_parse_nil in Hp|done]. }
  rewrite Ht. cbn [negb mbind option_bind entries_of]. by rewrite Ho.
Qed.

(** Rows whose entry at [i] is another one. *)
Lemma row_replaced now o i r :
  editable o → (i < length o)%nat → trim (er_key r) ≠ [] → trim (er_key r) ∉ map fst (delete i o) →
  convertRowsToJson valueType (<[i := r]> (entry_rows now o)) = json_stringify_2 (JObj (<[i := row_entry r]> o)).
Proof.
  intros He Hi Hr Hf. destruct (editable_facts o He) as (Hw & _ & _). destruct He as (_ & Hne & Ho).
  pose proof (entry_rows_named now o Hw Ho) as [Hn Hd].
  assert (Hm : map row_entry (<[i := r]> (entry_rows now o)) = <[i := row_entry r]> o).
  { change (map row_entry (<[i := r]> (entry_rows now o))) with (row_entry <$> <[i := r]> (entry_rows now o)). rewrite list_fmap_insert.
    change (row_entry <$> entry_rows now o) with (map row_entry (entry_rows now o)). by rewrite entry_rows_entries. }
  rewrite converted, Hm; [done| |].
  - split; [apply Forall_insert; [done|done]|].
    assert (Hk : map (λ r, trim (er_key r)) (<[i := r]> (entry_rows now o)) = map fst (<[i := row_entry r]> o)) by by rewrite <- Hm, map_map.
    rewrite Hk. unfold object in *. change (NoDup (fst <$> <[i := row_entry r]> o)). rewrite list_fmap_insert. apply NoDup_insert_fresh; [done|].
    change (trim (er_key r) ∉ delete i (fst <$> o)). by rewrite <- list_fmap_delete.
  - intros E. apply (f_equal length) in E. rewrite length_insert in E. unfold entry_rows in E. rewrite length_imap in E. cbn in E. lia.
Qed.

(** After a text is received: its rows are shown, switching to the text and
    back keeps it, and editing, renaming, deleting or adding one row edits one
    entry. *)
Lemma row_edits now o s i k v :
  editable o → o !! i = Some (k, v) →
  let s1 := {| je_value := json_stringify_2 (JObj o); je_mode := je_mode s; je_rows := entry_rows now o; je_jsonValue := json_stringify_2 (JObj o) |} in
  convertRowsToJson valueType (je_rows s1) = json_stringify_2 (JObj o)
  ∧ (∀ w, je_value (handleRowChange valueType (row_id now i) ValueField w s1)
          = json_stringify_2 (JObj (obj_set o k (parsed_value valueType w))))
  ∧ (∀ k', trim k' ≠ [] → trim k' ∉ map fst (obj_delete o k) →
       je_value (handleRowChange valueType (row_id now i) KeyField k' s1) = json_stringify_2 (JObj (<[i := (trim k', v)]> o)))
  ∧ je_value (handleDeleteRow valueType (row_id now i) s1)
    = (if (1 <? length o)%nat then json_stringify_2 (JObj (obj_delete o k)) else [])
  ∧ (∀ now' k' w, 0 ≤ now' → trim k' ≠ [] → trim k' ∉ map fst o →
       je_value (handleRowChange valueType (string_of_Z now') ValueField w
         (handleRowChange valueType (string_of_Z now') KeyField k' (handleAddRow now' s1)))
       = json_stringify_2 (JObj (o ++ [(trim k', parsed_value valueType w)]))).
Proof.
  intros He Hi. cbv zeta. destruct (editable_facts o He) as (Hw & _ & _). pose proof He as (_ & Hne & Ho).
  pose proof (entry_rows_named now o Hw Ho) as Hn. pose proof (entry_rows_entries now o Ho) as Hr.
  pose proof (entry_rows_lookup now o i (k, v) Hi) as Hl. pose proof (entry_rows_ids now o) as Hids. cbn [fst snd] in Hl.
  assert (Hm : ∀ f, map (λ y, if bool_decide (er_id y = row_id now i) then f y else y) (entry_rows now o)
      = <[i := f {| er_id := row_id now i; er_key := k; er_value := value_text v |}]> (entry_rows now o))
    by (intros f; exact (named_map er_id f _ i _ Hids Hl)).
  assert (Hlen : (i < length o)%nat) by by apply lookup_lt_Some in Hi.
  assert (Hrow : shown_as_is (k, v)) by by rewrite Forall_forall in Ho; apply Ho, (list_elem_of_lookup_2 _ i).
  destruct Hrow as (Htk & Hnk & Hv). cbn [fst snd] in Htk, Hnk, Hv.
  assert (Hdel : ∀ x, x ∉ map fst (obj_delete o k) → x ∉ map fst (delete i o)) by by intros x; rewrite (obj_delete_at o i k v Hw Hi).
  split_and!.
  - cbn [je_rows]. rewrite converted, Hr; [done|done|]. intros E. rewrite E in Hr. by destruct o.
  - intros w. cbn [handleRowChange rows_changed with_text with_rows je_value je_rows].
    rewrite Hm, row_replaced; [|done|done|by cbn [edit_row er_key]; rewrite Htk|].
    + unfold row_entry. cbn [edit_row er_key er_value]. rewrite Htk. by rewrite (obj_set_at o i k v).
    + cbn [edit_row er_key]. rewrite Htk. apply Hdel. intros Hin. apply list_elem_of_fmap in Hin as (e & -> & Hin).
      unfold obj_delete, map_delete in Hin. apply elem_of_filterb in Hin as [_ Hin]. by rewrite bool_decide_true in Hin.
  - intros k' Hk' Hf. cbn [handleRowChange rows_changed with_text with_rows je_value je_rows].
    rewrite Hm, row_replaced; [|done|done|done|by apply Hdel].
    unfold row_entry. cbn [edit_row er_key er_value]. by rewrite Hv.
  - cbn [handleDeleteRow rows_changed with_text with_rows je_value je_rows].
    assert (Hd : filterb (λ r, negb (bool_decide (er_id r = row_id now i))) (entry_rows now o) = delete i (entry_rows now o))
      by exact (named_delete er_id _ i _ Hids Hl).
    rewrite Hd, (obj_delete_at o i k v Hw Hi). destruct (Nat.ltb_spec 1 (length o)) as [H1|H1].
    + rewrite converted.
      * do 2 f_equal. rewrite <- Hr at 2. change (row_entry <$> delete i (entry_rows now o) = delete i (row_entry <$> entry_rows now o)).
        apply list_fmap_delete.
      * destruct Hn as [Hf Hd']. split; [by apply Forall_delete|].
        change (NoDup ((λ r, trim (er_key r)) <$> delete i (entry_rows now o))). rewrite list_fmap_delete.
        eapply sublist_NoDup; [exact Hd'|apply sublist_delete].
      * intros E. apply (f_equal length) in E. rewrite length_delete in E by by rewrite Hl. unfold entry_rows in E. rewrite length_imap in E. cbn in E. lia.
    + assert (Hone : delete i (entry_rows now o) = []).
      { apply nil_length_inv. rewrite length_delete by by rewrite Hl. unfold entry_rows. rewrite length_imap. lia. }
      by rewrite Hone.
  - intros now' k' w Hn' Hk' Hf. set (r0 := {| er_id := string_of_Z now'; er_key := []; er_value := [] |}).
    set (rows := entry_rows now o) in *.
    assert (Hids' : NoDup (map er_id (rows ++ [r0]))).
    { rewrite map_app. apply NoDup_app. split_and!; [done| |apply NoDup_singleton]. intros x Hx Hin%list_elem_of_singleton. subst x.
      apply list_elem_of_fmap in Hx as (r & E & Hr0). apply list_elem_of_lookup in Hr0 as [j Hj]. unfold rows, entry_rows in Hj.
      rewrite list_lookup_imap in Hj. unfold object in *. destruct (o !! j); [|done]. cbn in Hj. apply (inj Some) in Hj. subst r.
      by apply (added_id_fresh now' now j Hn'). }
    assert (Hadd : ∀ f, map (λ y, if bool_decide (er_id y = string_of_Z now') then f y else y) (rows ++ [r0]) = rows ++ [f r0])
      by (intros f; exact (named_map_last er_id f rows r0 Hids')).
    assert (Hadd' : ∀ f, map (λ y, if bool_decide (er_id y = string_of_Z now') then f y else y) (rows ++ [edit_row KeyField k' r0])
      = rows ++ [f (edit_row KeyField k' r0)]).
    { intros f. apply (named_map_last er_id f rows (edit_row KeyField k' r0)). rewrite map_app in *. exact Hids'. }
    cbn [handleAddRow handleRowChange rows_changed with_text with_rows je_value je_rows]. fold rows r0. rewrite Hadd, Hadd', converted.
    + by rewrite map_app, Hr.
    + destruct Hn as [Hf' Hd']. split; [by apply Forall_app; split; [|apply Forall_singleton]|].
      rewrite map_app. apply NoDup_app. split_and!; [done| |apply NoDup_singleton].
      intros x Hx Hin%list_elem_of_singleton. subst x. apply Hf. rewrite <- Hr, map_map. exact Hx.
    + by destruct rows.
Qed.

(** ** Runs *)

(** The editor knows the text of its parent. *)
Lemma knows_text l s : je_value s = je_jsonValue s → je_value (editor_run valueType l s) = je_jsonValue (editor_run valueType l s).
Proof.
  revert s. induction l as [|e l IH]; intros s Hs; [done|]. apply IH. destruct (available e s); [|done].
  destruct e; cbn [editor_event]; try done.
  - by destruct template.
  - unfold toggleMode. by destruct (je_mode s).
  - unfold receive. case_bool_decide; [done|]. case_bool_decide; by cbn.
Qed.

Lemma received now text s :
  je_value s = je_jsonValue s → je_value s ≠ text →
  receive now text s = {| je_value := text; je_mode := je_mode s; je_rows := parseJsonToRows now text (je_rows s); je_jsonValue := text |}.
Proof. intros Hs Ht. unfold receive. by rewrite !bool_decide_false by congruence. Qed.

(** C26. The text a form hands over after the editor was mounted is shown row by
    row, switching to the text and back keeps it, and editing a value or a
    key, deleting a row or adding one edits exactly that entry of it: for
    objects whose values are read again from the text of their row. *)
Theorem shown_text_edits (l : list EditorEvent) (value : jstr) (now now1 now2 : Z) (o : object) (i : nat) (k : jstr) (v : json) :
  let s := editor_run valueType l (open_editor value) in
  let text := json_stringify_2 (JObj o) in
  let s1 := receive now text s in
  editable o → o !! i = Some (k, v) → je_value s ≠ text →
  je_rows s1 = entry_rows now o
  ∧ (je_mode s = visual_mode → let s2 := toggleMode valueType now2 (toggleMode valueType now1 s1) in
     je_value s2 = text ∧ je_rows s2 = entry_rows now2 o ∧ je_mode s2 = visual_mode)
  ∧ (∀ w, je_value (handleRowChange valueType (row_id now i) ValueField w s1)
          = json_stringify_2 (JObj (obj_set o k (parsed_value valueType w))))
  ∧ (∀ k', trim k' ≠ [] → trim k' ∉ map fst (obj_delete o k) →
       je_value (handleRowChange valueType (row_id now i) KeyField k' s1) = json_stringify_2 (JObj (<[i := (trim k', v)]> o)))
  ∧ je_value (handleDeleteRow valueType (row_id now i) s1)
    = (if (1 <? length o)%nat then json_stringify_2 (JObj (obj_delete o k)) else [])
  ∧ (∀ now' k' w, 0 ≤ now' → trim k' ≠ [] → trim k' ∉ map fst o →
       je_value (handleRowChange valueType (string_of_Z now') ValueField w
         (handleRowChange valueType (string_of_Z now') KeyField k' (handleAddRow now' s1)))
       = json_stringify_2 (JObj (o ++ [(trim k', parsed_value valueType w)]))).
Proof.
  cbv zeta. intros He Hi Hv. rewrite (received now _ _ (knows_text l (open_editor value) eq_refl) Hv), (text_shown now o _ He).
  destruct (row_edits now o (editor_run valueType l (open_editor value)) i k v He Hi) as (Hc & Hr).
  split; [done|]. split; [|exact Hr]. intros Hm. unfold toggleMode. cbn [je_mode je_rows je_jsonValue je_value with_mode with_text with_rows] in *.
  rewrite Hm. cbn [je_mode je_rows je_jsonValue je_value with_mode with_text with_rows]. rewrite Hc. split_and!; [done| |done]. by apply text_shown.
Qed.

(** The editors of two texts: the same, or untouched. *)
Definition forgets (value : jstr) (s s0 : JsonEditor) : Prop :=
  s = s0
  ∨ je_value s = value ∧ je_jsonValue s = value ∧ je_value s0 = [] ∧ je_jsonValue s0 = [] ∧ je_rows s = je_rows s0
    ∧ je_mode s = visual_mode ∧ je_mode s0 = visual_mode.

Definition no_receive (e : EditorEvent) : Prop := match e with Receive _ _ => False | _ => True end.

Lemma forgets_step value e s s0 :
  no_receive e → forgets value s s0 →
  forgets value (if available e s then editor_event valueType e s else s) (if available e s0 then editor_event valueType e s0 else s0).
Proof.
  intros He [->|(H1 & H2 & H3 & H4 & H5 & H6 & H7)]; [by left|].
  destruct s as [sv sm sr sj], s0 as [v0 m0 r0 j0]. cbn [je_value je_mode je_rows je_jsonValue] in *. subst.
  destruct e; try done; cbn [available je_mode editor_event]; try (by left); try (right; done).
  - destruct template; [|right; done]. left. unfold handleFillTemplate, handleJsonChange, with_rows, with_text. done.
Qed.

(** A text the editor is mounted over is not shown, and whatever is edited,
    filled in or switched afterwards writes what it would write over the empty
    text: the entries of the text are kept only as long as nothing is written.
    Switching to the text at once replaces it by the empty one. *)
Theorem opened_text_forgotten (l : list EditorEvent) (value : jstr) (Hl : Forall no_receive l) :
  let s := editor_run valueType l (open_editor value) in
  let s0 := editor_run valueType l (open_editor []) in
  je_rows s = je_rows s0 ∧ (s = s0 ∨ je_value s = value ∧ je_value s0 = [])
  ∧ (∀ now, je_value (toggleMode valueType now (open_editor value)) = []).
Proof.
  cbv zeta. assert (H : forgets value (editor_run valueType l (open_editor value)) (editor_run valueType l (open_editor []))).
  { unfold editor_run. assert (H0 : forgets value (open_editor value) (open_editor [])) by (by right).
    revert H0. generalize (open_editor value), (open_editor []). induction Hl as [|e l He _ IH]; intros s s0 Hs; [done|].
    cbn [foldl]. apply IH. by apply forgets_step. }
  destruct H as [->|(H1 & H2 & H3 & H4 & H5 & H6 & H7)]; split_and!; try done; [by left|by right].
Qed.

(** A text that is no JSON is replaced by the rows of the text before it when the table is shown and left again. *)
Lemma invalid_text_replaced now text s :
  je_mode s = json_mode → nonempty (trim text) = true → json_parse text = None →
  let s1 := handleJsonChange now text s in
  je_value s1 = text ∧ je_value (toggleMode valueType now (toggleMode valueType now s1)) = convertRowsToJson valueType (je_rows s).
Proof.
  intros Hm Ht Hp. assert (Hr : ∀ rows, parseJsonToRows now text rows = rows) by (intros rows; unfold parseJsonToRows; by rewrite Ht, Hp).
  cbv zeta. split; [done|]. unfold handleJsonChange, toggleMode. cbn [je_mode with_rows with_text]. rewrite Hm. cbn. by rewrite !Hr.
Qed.
End Typed.

(** ** Evaluations *)

Definition sample_object : object := [entry "400" (str "500"); entry "429" (str "503")].

Lemma shown_text_edits_witness :
  let s1 := receive 7 (json_stringify_2 (JObj sample_object)) (open_editor []) in
  je_rows s1 = entry_rows 7 sample_object
  ∧ je_value (handleRowChange type_string (js "7-0") ValueField (js " 502 ") s1)
    = json_stringify_2 (JObj [entry "400" (str "502"); entry "429" (str "503")]).
Proof.
  assert (He : editable type_string sample_object).
  { split; [|split; [done|repeat apply Forall_cons_2; try apply Forall_nil_2; split_and!; try done; by_eval]].
    assert (Hc : ∀ s : jstr, forallb code_unitb s = true → Forall code_unit s) by exact code_unitb_ok.
    constructor; [by apply (bool_decide_eq_true (NoDup _)); by_eval|by_eval| |];
      repeat apply Forall_cons_2; try apply Forall_nil_2; try constructor; apply Hc; by_eval. }
  assert (Hv : je_value (open_editor []) ≠ json_stringify_2 (JObj sample_object)) by (by vm_compute).
  destruct (shown_text_edits type_string [] [] 7 8 9 sample_object 0 (js "400") (str "500") He eq_refl Hv) as (H1 & _ & H2 & _).
  split; [exact H1|]. etrans; [exact (H2 (js " 502 "))|]. by_eval.
Defined.

Lemma opened_text_forgotten_witness :
  let l := [AddRow 7; RowChange (js "7") KeyField (js "401"); RowChange (js "7") ValueField (js "500")] in
  je_rows (editor_run type_string l (open_editor mapping_text)) = je_rows (editor_run type_string l (open_editor []))
  ∧ je_value (editor_run type_string l (open_editor mapping_text)) = json_stringify_2 (JObj [entry "401" (str "500")]).
Proof.
  cbv zeta. split; [|by_eval].
  apply (opened_text_forgotten type_string [AddRow 7; RowChange (js "7") KeyField (js "401"); RowChange (js "7") ValueField (js "500")] mapping_text).
  repeat constructor.
Defined.
