(* ===== verification/EntityForms.v ===== *)
(** * Forms of keys, redemption codes and users

    Model of [features/keys/lib/api-key-form.ts],
    [features/redemption-codes/lib/redemption-form.ts] and
    [features/users/lib/user-form.ts]: what a form shows of a stored entity and
    what it sends; of the conversion of quotas in [lib/format.ts]; and of the
    requests that create keys in
    [features/keys/components/api-keys-mutate-drawer.tsx].

    Dates are the integers of their milliseconds, ids, times and counts are
    integers, quotas are numbers. A field that is [undefined] is [None]. *)

From Stdlib Require Import String.
From S2P Require Import JsArith JsJson JsonText JsObject NavConfig Currency.

(** ** Quotas *)

Section Quota.
Context (config : CurrencyConfig).

(** The rate of the display, or [None] where tokens are shown. *)
Definition exchange_rate (meta : DisplayMeta) : option jsnum :=
  match meta with MetaCurrency _ _ rate | MetaCustom _ rate => Some rate | MetaTokens _ => None end.

Definition parseQuotaFromDollars (amount : jsnum) : jsnum :=
  if negb (is_finite amount) then num_of_Z 0
  else match exchange_rate (getDisplayMeta config) with
       | None => math_round amount
       | Some rate =>
           let usdAmount := if num_lt (num_of_Z 0) rate then num_div amount rate else amount in
           math_round (num_mul usdAmount (quotaPerUnit config))
       end.

Definition quotaUnitsToDollars (units : jsnum) : jsnum :=
  match exchange_rate (getDisplayMeta config) with
  | None => units
  | Some rate => num_mul (num_div units (quotaPerUnit config)) rate
  end.

(** [new Date(seconds * 1000)] where it is positive, and back *)
Definition date_of (seconds : Z) : option Z := if 0 <? seconds then Some (seconds * 1000) else None.
Definition seconds_of (never : Z) (date : option Z) : Z := match date with Some ms => ms / 1000 | None => never end.

(** [v || d] of a text *)
Definition text_or_else (v : option jstr) (d : jstr) : jstr := match v with Some ((_ :: _) as s) => s | _ => d end.

(** ** Keys *)

Record ApiKey := {
  ak_id : Z;
  ak_name : jstr;
  ak_remain_quota : jsnum;
  ak_unlimited_quota : bool;
  ak_expired_time : Z;
  ak_group : option jstr;
  ak_cross_group_retry : option bool;
  ak_model_limits_enabled : bool;
  ak_model_limits : option jstr;
  ak_allow_ips : option jstr;
}.

Record ApiKeyFormValues := {
  kf_name : jstr;
  kf_remain_quota_dollars : option jsnum;
  kf_expired_time : option Z;
  kf_unlimited_quota : bool;
  kf_model_limits : list jstr;
  kf_allow_ips : option jstr;
  kf_group : option jstr;
  kf_cross_group_retry : option bool;
  kf_tokenCount : option Z;
}.

Record ApiKeyFormData := {
  kd_name : jstr;
  kd_remain_quota : jsnum;
  kd_expired_time : Z;
  kd_unlimited_quota : bool;
  kd_model_limits_enabled : bool;
  kd_model_limits : jstr;
  kd_allow_ips : jstr;
  kd_group : jstr;
  kd_cross_group_retry : bool;
}.

(** [DEFAULT_GROUP] of keys, the group of their user *)
Definition KEY_DEFAULT_GROUP : jstr := [].

Definition getApiKeyFormSchema (data : ApiKeyFormValues) : bool :=
  nonempty (kf_name data)
  && match kf_tokenCount data with Some n => 1 <=? n | None => true end
  && match kf_remain_quota_dollars data with Some x => is_finite x | None => true end
  && (kf_unlimited_quota data
      || match kf_remain_quota_dollars data with Some x => negb (num_lt x (num_of_Z 0)) | None => false end).

Definition API_KEY_FORM_DEFAULT_VALUES : ApiKeyFormValues :=
  {| kf_name := []; kf_remain_quota_dollars := Some (num_of_Z 10); kf_expired_time := None; kf_unlimited_quota := true;
     kf_model_limits := []; kf_allow_ips := Some []; kf_group := Some KEY_DEFAULT_GROUP; kf_cross_group_retry := Some true;
     kf_tokenCount := Some 1 |}.

Definition getApiKeyFormDefaultValues (defaultUseAutoGroup : bool) : ApiKeyFormValues :=
  let d := API_KEY_FORM_DEFAULT_VALUES in
  {| kf_name := kf_name d; kf_remain_quota_dollars := kf_remain_quota_dollars d; kf_expired_time := kf_expired_time d;
     kf_unlimited_quota := kf_unlimited_quota d; kf_model_limits := kf_model_limits d; kf_allow_ips := kf_allow_ips d;
     kf_group := Some (if defaultUseAutoGroup then js "auto" else KEY_DEFAULT_GROUP);
     kf_cross_group_retry := Some defaultUseAutoGroup; kf_tokenCount := kf_tokenCount d |}.

Definition apiKeyPayload (data : ApiKeyFormValues) : ApiKeyFormData :=
  {| kd_name := kf_name data;
     kd_remain_quota := if kf_unlimited_quota data then num_of_Z 0
                        else parseQuotaFromDollars (match kf_remain_quota_dollars data with
                                                    | None | Some S754_nan | Some (S754_zero _) => num_of_Z 0
                                                    | Some x => x
                                                    end);
     kd_expired_time := seconds_of (-1) (kf_expired_time data);
     kd_unlimited_quota := kf_unlimited_quota data;
     kd_model_limits_enabled := nonempty (kf_model_limits data);
     kd_model_limits := join [c_comma] (kf_model_limits data);
     kd_allow_ips := default [] (kf_allow_ips data);
     kd_group := default [] (kf_group data);
     kd_cross_group_retry := bool_decide (kf_group data = Some (js "auto")) && default false (kf_cross_group_retry data) |}.

Definition transformApiKeyToFormDefaults (apiKey : ApiKey) : ApiKeyFormValues :=
  {| kf_name := ak_name apiKey;
     kf_remain_quota_dollars := Some (if ak_unlimited_quota apiKey then num_of_Z 0 else quotaUnitsToDollars (ak_remain_quota apiKey));
     kf_expired_time := date_of (ak_expired_time apiKey);
     kf_unlimited_quota := ak_unlimited_quota apiKey;
     kf_model_limits := match ak_model_limits apiKey with
                        | Some ((_ :: _) as s) => filterb nonempty (split_char c_comma s)
                        | _ => []
                        end;
     kf_allow_ips := Some (text_or_else (ak_allow_ips apiKey) []);
     kf_group := Some (text_or_else (ak_group apiKey) KEY_DEFAULT_GROUP);
     kf_cross_group_retry := Some (default false (ak_cross_group_retry apiKey));
     kf_tokenCount := Some 1 |}.

(** The effect that replaces a group that is not among the groups of the user. *)
Definition correct_group (groups : list jstr) (data : ApiKeyFormValues) : ApiKeyFormValues :=
  let currentGroup := default [] (kf_group data) in
  if negb (nonempty groups) || negb (nonempty currentGroup) || bool_decide (currentGroup ∈ groups) then data
  else
    let fallback := if bool_decide (js "default" ∈ groups) then js "default" else default [] (head groups) in
    {| kf_name := kf_name data; kf_remain_quota_dollars := kf_remain_quota_dollars data; kf_expired_time := kf_expired_time data;
       kf_unlimited_quota := kf_unlimited_quota data; kf_model_limits := kf_model_limits data; kf_allow_ips := kf_allow_ips data;
       kf_group := Some fallback;
       kf_cross_group_retry := if bool_decide (currentGroup = js "auto") then Some false else kf_cross_group_retry data;
       kf_tokenCount := kf_tokenCount data |}.

(** The names of the keys a form creates; [suffix] is the random text. *)
Definition created_name (suffix : nat → jstr) (name : jstr) (i : nat) : jstr :=
  match i with
  | O => if nonempty name then name else js "default-" ++ suffix O
  | _ => (if nonempty name then name else js "default") ++ js "-" ++ suffix i
  end.

(** The loop over the count: the names that are sent until one is refused, and
    how many are created. *)
Fixpoint create_loop (suffix : nat → jstr) (answers : nat → bool) (name : jstr) (i n : nat) : list jstr * nat :=
  match n with
  | O => ([], O)
  | S n' =>
      let sent := created_name suffix name i in
      if answers i then let r := create_loop suffix answers name (S i) n' in (sent :: r.1, S r.2) else ([sent], O)
  end.

Definition create_keys (suffix : nat → jstr) (answers : nat → bool) (data : ApiKeyFormValues) : list jstr * nat :=
  let count := match kf_tokenCount data with None | Some 0 => 1 | Some n => n end in
  create_loop suffix answers (kf_name data) 0 (Z.to_nat count).

(** ** Redemption codes *)

Record Redemption := { rd_id : Z; rd_name : jstr; rd_quota : jsnum; rd_expired_time : Z }.

Record RedemptionFormValues := {
  rf_name : jstr; rf_quota_dollars : jsnum; rf_expired_time : option Z; rf_count : option Z;
}.

Record RedemptionFormData := { rp_name : jstr; rp_quota : jsnum; rp_expired_time : Z; rp_count : Z }.

Definition getRedemptionFormSchema (data : RedemptionFormValues) : bool :=
  (1 <=? Z.of_nat (length (rf_name data))) && (Z.of_nat (length (rf_name data)) <=? 20)
  && is_finite (rf_quota_dollars data) && negb (num_lt (rf_quota_dollars data) (num_of_Z 0))
  && match rf_count data with Some n => (1 <=? n) && (n <=? 100) | None => true end.

Definition REDEMPTION_FORM_DEFAULT_VALUES : RedemptionFormValues :=
  {| rf_name := []; rf_quota_dollars := num_of_Z 10; rf_expired_time := None; rf_count := Some 1 |}.

Definition redemptionPayload (data : RedemptionFormValues) : RedemptionFormData :=
  {| rp_name := rf_name data; rp_quota := parseQuotaFromDollars (rf_quota_dollars data);
     rp_expired_time := seconds_of 0 (rf_expired_time data);
     rp_count := match rf_count data with None | Some 0 => 1 | Some n => n end |}.

Definition transformRedemptionToFormDefaults (redemption : Redemption) : RedemptionFormValues :=
  {| rf_name := rd_name redemption; rf_quota_dollars := quotaUnitsToDollars (rd_quota redemption);
     rf_expired_time := date_of (rd_expired_time redemption); rf_count := Some 1 |}.

(** ** Users *)

Record User := {
  us_id : Z;
  us_username : jstr;
  us_display_name : jstr;
  us_role : Z;
  us_quota : jsnum;
  us_concurrency : option Z;
  us_group : jstr;
  us_inviter_id : option Z;
  us_remark : option jstr;
  us_setting : option jstr;
}.

Record UserFormValues := {
  uf_username : jstr;
  uf_display_name : option jstr;
  uf_password : option jstr;
  uf_role : option Z;
  uf_quota_dollars : option jsnum;
  uf_concurrency : option Z;
  uf_group : option jstr;
  uf_inviter_id : option Z;
  uf_remark : option jstr;
  uf_context_auto_compact_enabled : option bool;
  uf_context_auto_compact_trigger_k : option jsnum;
  uf_context_auto_compact_target_k : option jsnum;
}.

Record UserFormData := {
  up_id : option Z;
  up_username : jstr;
  up_display_name : jstr;
  up_password : option jstr;
  up_concurrency : Z;
  up_role : option Z;
  up_group : option jstr;
  up_inviter_id : option Z;
  up_remark : option jstr;
}.

Definition USER_DEFAULT_GROUP : jstr := js "default".

Definition in_range (lo hi : Z) (x : option jsnum) : bool :=
  match x with Some n => is_finite n && num_le (num_of_Z lo) n && num_le n (num_of_Z hi) | None => true end.

Definition userFormSchema (data : UserFormValues) : bool :=
  nonempty (uf_username data)
  && match uf_quota_dollars data with Some x => is_finite x && negb (num_lt x (num_of_Z 0)) | None => true end
  && match uf_concurrency data with Some n => 0 <=? n | None => true end
  && match uf_inviter_id data with Some n => 0 <=? n | None => true end
  && in_range 64 250 (uf_context_auto_compact_trigger_k data) && in_range 32 249 (uf_context_auto_compact_target_k data)
  && (negb (default false (uf_context_auto_compact_enabled data))
      || num_lt (default (num_of_Z 140) (uf_context_auto_compact_target_k data))
           (default (num_of_Z 250) (uf_context_auto_compact_trigger_k data))).

Definition USER_FORM_DEFAULT_VALUES : UserFormValues :=
  {| uf_username := []; uf_display_name := Some []; uf_password := Some []; uf_role := Some 1; uf_quota_dollars := Some (num_of_Z 0);
     uf_concurrency := Some 5; uf_group := Some USER_DEFAULT_GROUP; uf_inviter_id := Some 0; uf_remark := Some [];
     uf_context_auto_compact_enabled := Some false; uf_context_auto_compact_trigger_k := Some (num_of_Z 250);
     uf_context_auto_compact_target_k := Some (num_of_Z 140) |}.

(** [v || undefined] of a text *)
Definition filled_text (v : option jstr) : option jstr := match v with Some ((_ :: _) as s) => Some s | _ => None end.

(** Creating sends the required fields only; the quota is never sent. *)
Definition userPayload (data : UserFormValues) (userId originalInviterId : option Z) : UserFormData :=
  let update := match userId with Some _ => true | None => false end in
  {| up_id := userId;
     up_username := uf_username data;
     up_display_name := text_or_else (uf_display_name data) (uf_username data);
     up_password := filled_text (uf_password data);
     up_concurrency := default 5 (uf_concurrency data);
     up_role := if update then uf_role data
                else match uf_role data with None | Some 0 => Some 1 | r => r end;
     up_group := if update then uf_group data else None;
     up_inviter_id := if update && negb (bool_decide (uf_inviter_id data = Some (default 0 originalInviterId)))
                      then uf_inviter_id data else None;
     up_remark := if update then filled_text (uf_remark data) else None |}.

(** [setting.key] of the parsed setting: a text that is not JSON has no settings, [null] throws. *)
Definition parsed_user_setting (setting : option jstr) : option object :=
  match setting with
  | Some ((_ :: _) as s) =>
      match json_parse s with
      | Some JNull => None
      | Some (JObj o) => Some o
      | Some _ | None => Some []
      end
  | _ => Some []
  end.

Definition number_setting (setting : object) (name : string) (d : Z) : jsnum :=
  match fld setting name with Some (JNum x) => x | _ => num_of_Z d end.

Definition transformUserToFormDefaults (user : User) : option UserFormValues :=
  setting ← parsed_user_setting (us_setting user);
  Some {| uf_username := us_username user; uf_display_name := Some (us_display_name user); uf_password := Some [];
          uf_role := Some (us_role user); uf_quota_dollars := Some (quotaUnitsToDollars (us_quota user));
          uf_concurrency := Some (default 5 (us_concurrency user));
          uf_group := Some (if nonempty (us_group user) then us_group user else USER_DEFAULT_GROUP);
          uf_inviter_id := Some (default 0 (us_inviter_id user)); uf_remark := Some (text_or_else (us_remark user) []);
          uf_context_auto_compact_enabled := Some (is_true (fld setting "context_auto_compact_enabled"));
          uf_context_auto_compact_trigger_k := Some (number_setting setting "context_auto_compact_trigger_k" 250);
          uf_context_auto_compact_target_k := Some (number_setting setting "context_auto_compact_target_k" 140) |}.
End Quota.

(** ** Adjusting a quota *)

Inductive QuotaAdjustMode := quota_add | quota_subtract | quota_override.

Record UserQuotaDialog := { uq_mode : QuotaAdjustMode; uq_amount : jstr }.

Definition initial_quota_dialog : UserQuotaDialog := {| uq_mode := quota_add; uq_amount := [] |}.

(** [handleConfirm]: the mode and the value that are sent, if any. *)
Definition quota_adjustment (config : CurrencyConfig) (allowAdvancedModes : bool) (d : UserQuotaDialog) : option (QuotaAdjustMode * jsnum) :=
  let amountValue := match parse_float (uq_amount d) with S754_nan | S754_zero _ => num_of_Z 0 | x => x end in
  let quotaValue := parseQuotaFromDollars config (num_abs amountValue) in
  let override := match uq_mode d with quota_override => true | _ => false end in
  if negb override && (negb (nonempty (uq_amount d)) || num_le quotaValue (num_of_Z 0)) then None
  else
    let submitMode := if allowAdvancedModes then uq_mode d else quota_add in
    Some (submitMode, if override then parseQuotaFromDollars config amountValue else num_abs quotaValue).

Inductive QuotaDialogEvent := ChooseMode (m : QuotaAdjustMode) | TypeAmount (t : jstr) | CancelAdjust | Adjusted (success : bool).

Definition quota_dialog_event (e : QuotaDialogEvent) (d : UserQuotaDialog) : UserQuotaDialog :=
  match e with
  | ChooseMode m => {| uq_mode := m; uq_amount := [] |}
  | TypeAmount t => {| uq_mode := uq_mode d; uq_amount := t |}
  | CancelAdjust | Adjusted true => initial_quota_dialog
  | Adjusted false => d
  end.
