(* ===== verification/EntityDrawer.v ===== *)
(** * Drawers that edit stored entities

    Model of the drawers of keys, redemption codes and users,
    [features/keys/components/api-keys-mutate-drawer.tsx],
    [features/redemption-codes/components/redemptions-mutate-drawer.tsx] and
    [features/users/components/users-mutate-drawer.tsx]. Each is one component
    that stays mounted with one form: opening a row requests the entity anew,
    and an answer resets the form whenever it comes. What the drawers share is
    a state machine over an interface; the three forms are its instances. *)

From Stdlib Require Import String.
From S2P Require Import Prelude JsString JsJson JsonText JsObject JsArith Currency EntityForms.

(** ** The interface *)

(** What a drawer knows of its entities and of its form. *)
Class DrawerOps (Entity Form Payload : Type) := {
  entity_id : Entity → Z;
  to_form : Entity → option Form;              (* [None] where it throws *)
  initial_form : Form;                         (* the form at the first render *)
  blank : Form;                                (* the form of a new entity *)
  accepts : bool → Form → bool;                (* the checks of an update or a creation *)
  settle : Form → Form;                        (* what effects make of the form after a render *)
  payload_of : option Z → Form → Form → Payload;   (* for a row, over the default values of the form *)
  refreshes : bool;                            (* whether a dialog of the drawer loads the row again *)
}.

(** What the effects have done, they do not do again. *)
Class DrawerLaws {Entity Form Payload : Type} (ops : DrawerOps Entity Form Payload) : Prop :=
  settle_settled : ∀ f : Form, settle (settle f) = settle f.

Section Machine.
Context {Entity Form Payload : Type} `{!DrawerOps Entity Form Payload}.

(** ** The state *)

Inductive Opened := Closed | Creating | Updating (id : Z).

Inductive Call := UpdateCall (id : Z) (p : Payload) | CreateCall (p : Payload).

Record Drawer := {
  dr_open : Opened;
  dr_values : Form;
  dr_defaultValues : Form;       (* what [form.reset()] returns to *)
  dr_loads : list Z;             (* the rows whose entities are requested *)
  dr_isSubmitting : bool;
  dr_sent : list Call;
}.

(** The first render. *)
Definition mounted : Drawer :=
  {| dr_open := Closed; dr_values := initial_form; dr_defaultValues := initial_form; dr_loads := []; dr_isSubmitting := false; dr_sent := [] |}.

Definition with_open (o : Opened) (s : Drawer) : Drawer :=
  {| dr_open := o; dr_values := dr_values s; dr_defaultValues := dr_defaultValues s; dr_loads := dr_loads s;
     dr_isSubmitting := dr_isSubmitting s; dr_sent := dr_sent s |}.

Definition with_form (values : Form) (s : Drawer) : Drawer :=
  {| dr_open := dr_open s; dr_values := values; dr_defaultValues := dr_defaultValues s; dr_loads := dr_loads s;
     dr_isSubmitting := dr_isSubmitting s; dr_sent := dr_sent s |}.

(** [form.reset(values)] and [form.reset()] *)
Definition reset_to (values : Form) (s : Drawer) : Drawer :=
  {| dr_open := dr_open s; dr_values := values; dr_defaultValues := values; dr_loads := dr_loads s;
     dr_isSubmitting := dr_isSubmitting s; dr_sent := dr_sent s |}.
Definition reset_form (s : Drawer) : Drawer := with_form (dr_defaultValues s) s.

Definition with_loads (loads : list Z) (s : Drawer) : Drawer :=
  {| dr_open := dr_open s; dr_values := dr_values s; dr_defaultValues := dr_defaultValues s; dr_loads := loads;
     dr_isSubmitting := dr_isSubmitting s; dr_sent := dr_sent s |}.

Definition with_submitting (b : bool) (s : Drawer) : Drawer :=
  {| dr_open := dr_open s; dr_values := dr_values s; dr_defaultValues := dr_defaultValues s; dr_loads := dr_loads s;
     dr_isSubmitting := b; dr_sent := dr_sent s |}.

Definition send (c : Call) (s : Drawer) : Drawer :=
  {| dr_open := dr_open s; dr_values := dr_values s; dr_defaultValues := dr_defaultValues s; dr_loads := dr_loads s;
     dr_isSubmitting := true; dr_sent := dr_sent s ++ [c] |}.

(** ** Events *)

Definition open_row (id : Z) (s : Drawer) : Drawer := with_loads (dr_loads s ++ [id]) (with_open (Updating id) s).

Definition open_new (s : Drawer) : Drawer := reset_to blank (with_open Creating s).

(** The sheet is closed by the operator. *)
Definition close_sheet (s : Drawer) : Drawer := reset_form (with_open Closed s).

Fixpoint remove_first (id : Z) (l : list Z) : list Z :=
  match l with [] => [] | x :: l' => if x =? id then l' else x :: remove_first id l' end.

(** The answer to a request: the entity, or [None] for a failure. *)
Definition loaded (id : Z) (answer : option Entity) (s : Drawer) : Drawer :=
  let s1 := with_loads (remove_first id (dr_loads s)) s in
  match answer ≫= to_form with Some values => reset_to values s1 | None => s1 end.

Definition submit (s : Drawer) : Drawer :=
  match dr_open s with
  | Closed => s
  | Creating => if accepts false (dr_values s) then send (CreateCall (payload_of None (dr_defaultValues s) (dr_values s))) s else s
  | Updating id => if accepts true (dr_values s) then send (UpdateCall id (payload_of (Some id) (dr_defaultValues s) (dr_values s))) s else s
  end.

(** The answer to what was sent; a success closes whatever is open. *)
Definition saved (success : bool) (s : Drawer) : Drawer :=
  with_submitting false (if success then with_open Closed s else s).

(** The quota of a user was adjusted: the row is requested again. *)
Definition refresh (s : Drawer) : Drawer :=
  match dr_open s with Updating id => with_loads (dr_loads s ++ [id]) s | _ => s end.

Inductive DrawerEvent :=
| OpenRow (id : Z)
| OpenNew
| CloseSheet
| Loaded (id : Z) (answer : option Entity)
| EditForm (f : Form → Form)
| Submit
| Saved (success : bool)
| Refresh.

(** What can happen: one row is open at a time, an answer answers a request. *)
Definition possible (e : DrawerEvent) (s : Drawer) : bool :=
  match e, dr_open s with
  | (OpenRow _ | OpenNew), Closed => true
  | (CloseSheet | EditForm _), (Creating | Updating _) => true
  | Submit, (Creating | Updating _) => negb (dr_isSubmitting s)
  | Loaded id _, _ => existsb (Z.eqb id) (dr_loads s)
  | Saved _, _ => dr_isSubmitting s
  | Refresh, Updating _ => refreshes
  | _, _ => false
  end.

(** An event, and the effects of the render after it. *)
Definition drawer_event (e : DrawerEvent) (s : Drawer) : Drawer :=
  let s1 := match e with
            | OpenRow id => open_row id s
            | OpenNew => open_new s
            | CloseSheet => close_sheet s
            | Loaded id answer => loaded id answer s
            | EditForm f => with_form (f (dr_values s)) s
            | Submit => submit s
            | Saved success => saved success s
            | Refresh => refresh s
            end in
  with_form (settle (dr_values s1)) s1.

Inductive drawer_run : Drawer → list DrawerEvent → Drawer → Prop :=
| drawer_run_nil s : drawer_run s [] s
| drawer_run_cons s e l s' : possible e s = true → drawer_run (drawer_event e s) l s' → drawer_run s (e :: l) s'.

Definition drawer_steps (l : list DrawerEvent) (s : Drawer) : Drawer := fold_left (λ s e, drawer_event e s) l s.

Fixpoint all_possible (l : list DrawerEvent) (s : Drawer) : bool :=
  match l with [] => true | e :: l' => possible e s && all_possible l' (drawer_event e s) end.
End Machine.
Arguments Drawer : clear implicits.
Arguments DrawerEvent : clear implicits.
Arguments Call : clear implicits.

(** ** The three drawers *)

Section Instances.
Context (config : CurrencyConfig).

(** Keys; the groups of the user have been loaded. *)
Definition key_drawer (defaultUseAutoGroup : bool) (groups : list jstr) : DrawerOps ApiKey ApiKeyFormValues ApiKeyFormData :=
  {| entity_id := ak_id;
     to_form := λ k, Some (transformApiKeyToFormDefaults config k);
     initial_form := getApiKeyFormDefaultValues defaultUseAutoGroup;
     blank := getApiKeyFormDefaultValues (defaultUseAutoGroup && bool_decide (js "auto" ∈ groups));
     accepts := λ _, getApiKeyFormSchema;
     settle := correct_group groups;
     payload_of := λ _ _, apiKeyPayload config;
     refreshes := false |}.

Definition redemption_drawer : DrawerOps Redemption RedemptionFormValues RedemptionFormData :=
  {| entity_id := rd_id;
     to_form := λ r, Some (transformRedemptionToFormDefaults config r);
     initial_form := REDEMPTION_FORM_DEFAULT_VALUES;
     blank := REDEMPTION_FORM_DEFAULT_VALUES;
     accepts := λ _, getRedemptionFormSchema;
     settle := id;
     payload_of := λ _ _, redemptionPayload config;
     refreshes := false |}.

(** Users; a new one needs a password of 8 to 20 characters. *)
Definition user_accepts (update : bool) (data : UserFormValues) : bool :=
  let n := Z.of_nat (length (default [] (uf_password data))) in
  userFormSchema data && (update || (8 <=? n) && (n <=? 20)).

Definition user_drawer : DrawerOps User UserFormValues UserFormData :=
  {| entity_id := us_id;
     to_form := transformUserToFormDefaults config;
     initial_form := USER_FORM_DEFAULT_VALUES;
     blank := USER_FORM_DEFAULT_VALUES;
     accepts := user_accepts;
     settle := id;
     payload_of := λ id defaults data, userPayload data id (uf_inviter_id defaults);
     refreshes := true |}.
End Instances.

(** A group that is replaced is replaced by one of the groups. *)
Lemma corrected_in groups : groups ≠ [] →
  (if bool_decide (js "default" ∈ groups) then js "default" else default [] (head groups)) ∈ groups.
Proof. intros Hg. case_bool_decide as Hd; [done|]. destruct groups as [|g groups]; [done|]. left. Qed.

(** No group to choose from, no group chosen, or one of the groups. *)
Definition group_stays (groups : list jstr) (f : ApiKeyFormValues) : bool :=
  negb (nonempty groups) || negb (nonempty (default [] (kf_group f))) || bool_decide (default [] (kf_group f) ∈ groups).

Lemma correct_group_id groups f : group_stays groups f = true → correct_group groups f = f.
Proof. unfold group_stays, correct_group. by intros ->. Qed.

Lemma correct_group_stays groups f : group_stays groups (correct_group groups f) = true.
Proof.
  unfold correct_group. cbv zeta. fold (group_stays groups f). destruct (group_stays groups f) eqn:E; [done|].
  unfold group_stays in *. cbn [kf_group default].
  apply orb_false_iff in E as [E _]. apply orb_false_iff in E as [E _]. rewrite E.
  assert (Hin : groups ≠ []) by (by destruct groups). apply corrected_in in Hin. revert Hin.
  generalize (if bool_decide (js "default" ∈ groups) then js "default" else default [] (head groups)). intros g Hg.
  rewrite (bool_decide_true (g ∈ groups)) by exact Hg. by rewrite orb_true_r.
Qed.

#[export] Instance key_drawer_laws config auto groups : DrawerLaws (key_drawer config auto groups).
Proof. intros f. apply correct_group_id, correct_group_stays. Qed.

#[export] Instance redemption_drawer_laws config : DrawerLaws (redemption_drawer config).
Proof. by intros f. Qed.
#[export] Instance user_drawer_laws config : DrawerLaws (user_drawer config).
Proof. by intros f. Qed.

(** ** Orderly use *)

Section Orderly.
Context {Entity Form Payload : Type} `{!DrawerOps Entity Form Payload}.

(** What the operator has before him: nothing, a new entity with the edits made
    to it, a row that is not shown yet, or a row that shows its entity with the
    edits made since. *)
Inductive Session :=
| NoSession
| NewEntity (edits : list (Form → Form))
| WaitingFor (id : Z)
| EditingRow (id : Z) (a : Entity) (edits : list (Form → Form)).

(** The form after some edits, the effects of each render included. *)
Definition form_of (base : Form) (edits : list (Form → Form)) : Form := fold_left (λ v f, settle (f v)) edits (settle base).

Definition session_step (e : DrawerEvent Entity Form) (σ : Session) : Session :=
  match e, σ with
  | OpenRow id, _ => WaitingFor id
  | OpenNew, _ => NewEntity []
  | (CloseSheet | Saved true), _ => NoSession
  | Loaded id (Some a), (WaitingFor id' | EditingRow id' _ _) =>
      match to_form a with Some _ => if id' =? id then EditingRow id' a [] else σ | None => σ end
  | EditForm f, NewEntity edits => NewEntity (edits ++ [f])
  | EditForm f, EditingRow id a edits => EditingRow id a (edits ++ [f])
  | _, _ => σ
  end.

(** What a click on the button to save is to send. *)
Definition session_sends (σ : Session) : list (Call Payload) :=
  match σ with
  | NewEntity edits =>
      let v := form_of blank edits in if accepts false v then [CreateCall (payload_of None blank v)] else []
  | EditingRow id a edits =>
      match to_form a with
      | Some w => let v := form_of w edits in if accepts true v then [UpdateCall id (payload_of (Some id) w v)] else []
      | None => []
      end
  | _ => []
  end.

(** All that a sequence of events is to send. *)
Fixpoint prescribed (σ : Session) (l : list (DrawerEvent Entity Form)) : list (Call Payload) :=
  match l with
  | [] => []
  | e :: l' => match e with Submit => session_sends σ | _ => [] end ++ prescribed (session_step e σ) l'
  end.

(** An operator who waits: nothing is edited or saved before the row is shown,
    and a request is answered while its row is open, with the entity of the row. *)
Definition waits (σ : Session) (e : DrawerEvent Entity Form) (s : Drawer Form Payload) : Prop :=
  match e with
  | Loaded id answer => dr_open s = Updating id ∧ match answer with Some a => entity_id a = id | None => True end
  | EditForm _ | Submit => match σ with WaitingFor _ => False | _ => True end
  | _ => True
  end.

Inductive waiting_run : Session → Drawer Form Payload → list (DrawerEvent Entity Form) → Drawer Form Payload → Prop :=
| waiting_nil σ s : waiting_run σ s [] s
| waiting_cons σ s e l s' :
    possible e s = true → waits σ e s → waiting_run (session_step e σ) (drawer_event e s) l s' → waiting_run σ s (e :: l) s'.

(** The drawer holds what the session says. *)
Definition holds (σ : Session) (s : Drawer Form Payload) : Prop :=
  match σ with
  | NoSession => dr_open s = Closed
  | NewEntity edits => dr_open s = Creating ∧ dr_defaultValues s = blank ∧ dr_values s = form_of blank edits
  | WaitingFor id => dr_open s = Updating id
  | EditingRow id a edits =>
      dr_open s = Updating id ∧ entity_id a = id ∧ to_form a = Some (dr_defaultValues s) ∧ dr_values s = form_of (dr_defaultValues s) edits
  end.

Context `{!DrawerLaws _}.

Lemma form_of_settled base edits : settle (form_of base edits) = form_of base edits.
Proof.
  unfold form_of. destruct edits as [|f edits _] using rev_ind; [apply settle_settled|]. rewrite fold_left_app. apply settle_settled.
Qed.

Lemma form_of_edit base edits f : settle (f (form_of base edits)) = form_of base (edits ++ [f]).
Proof. unfold form_of. by rewrite fold_left_app. Qed.

Lemma holds_settle σ s : holds σ s → holds σ (with_form (settle (dr_values s)) s).
Proof.
  destruct σ as [|edits|id|id a edits]; cbn; [done| |done|].
  - intros (? & ? & ->). by rewrite form_of_settled.
  - intros (? & ? & ? & ->). by rewrite form_of_settled.
Qed.

Lemma holds_loaded σ id answer s : waits σ (Loaded id answer) s → holds σ s →
  holds (session_step (Loaded id answer) σ) (drawer_event (Loaded id answer) s).
Proof.
  intros [Ho Ha] Hs. unfold drawer_event, loaded. destruct answer as [a|]; [|destruct σ; by apply holds_settle].
  change (Some a ≫= to_form) with (to_form a). cbn [session_step]. destruct (to_form a) as [v|] eqn:Ev; [|destruct σ; by apply holds_settle].
  assert (Hnew : holds (EditingRow id a []) (with_form (settle v) (reset_to v (with_loads (remove_first id (dr_loads s)) s)))).
  { by split_and!. }
  destruct σ as [|edits|id'|id' a' edits]; cbn in Hs; [congruence|by destruct Hs; congruence| |];
    assert (id' = id) as -> by (destruct_and?; congruence); by rewrite Z.eqb_refl.
Qed.

Lemma holds_step σ e s : possible e s = true → waits σ e s → holds σ s → holds (session_step e σ) (drawer_event e s).
Proof.
  intros Hp Hw Hs. destruct e as [id| | |id answer|f| |success|]; [done|by split_and!|done|by apply holds_loaded| | | |].
  - unfold drawer_event. destruct σ as [|edits|id|id a edits]; cbn in Hs, Hw; [|by destruct Hs as (? & ? & ->); split_and!; [..|apply form_of_edit]|done|].
    + cbn in Hp. by rewrite Hs in Hp.
    + destruct Hs as (? & ? & ? & ->). split_and!; [done..|]. apply form_of_edit.
  - unfold drawer_event. assert (holds σ (submit s)) by (unfold submit; repeat case_match; by destruct σ).
    assert (session_step Submit σ = σ) as -> by by destruct σ. by apply holds_settle.
  - unfold drawer_event. destruct success; [by destruct σ|]. assert (session_step (Saved false) σ = σ) as -> by by destruct σ.
    apply holds_settle. by destruct σ.
  - unfold drawer_event. assert (session_step Refresh σ = σ) as -> by by destruct σ. apply holds_settle.
    unfold refresh. case_match; by destruct σ.
Qed.

(** Only the button to save sends, and it sends what the session says. *)
Lemma step_sends σ e s : waits σ e s → holds σ s →
  dr_sent (drawer_event e s) = dr_sent s ++ match e with Submit => session_sends σ | _ => [] end.
Proof.
  intros Hw Hs. destruct e as [id| | |id answer|f| |success|]; cbn; rewrite ?app_nil_r; try done.
  - unfold loaded. by case_match.
  - unfold submit. destruct σ as [|edits|id|id a edits]; cbn in Hs, Hw |- *; [by rewrite Hs, app_nil_r| |done|].
    + destruct Hs as (-> & -> & ->). case_match; [done|by rewrite app_nil_r].
    + destruct Hs as (-> & _ & -> & ->). case_match; [done|by rewrite app_nil_r].
  - by destruct success.
  - unfold refresh. by case_match.
Qed.

(** The updates a sequence prescribes: of the entity at hand, or of one it loads. *)
Definition own_update (l : list (DrawerEvent Entity Form)) (id : Z) (p : Payload) : Prop :=
  ∃ a w edits, entity_id a = id ∧ Loaded id (Some a) ∈ l ∧ to_form a = Some w ∧ p = payload_of (Some id) w (form_of w edits).

Lemma prescribed_own done_ σ s l s' id p :
  waiting_run σ s l s' → holds σ s →
  match σ with EditingRow i a _ => Loaded i (Some a) ∈ done_ | _ => True end →
  UpdateCall id p ∈ prescribed σ l → own_update (done_ ++ l) id p.
Proof.
  intros Hrun. revert done_. induction Hrun as [σ s|σ s e l s' Hp Hw _ IH]; intros dn Hs Hd Hin; [by apply elem_of_nil in Hin|].
  cbn [prescribed] in Hin. apply elem_of_app in Hin as [Hin|Hin].
  - destruct e; try by apply elem_of_nil in Hin. destruct σ as [|edits|i|i a edits]; cbn in Hin; try by apply elem_of_nil in Hin.
    + case_match; [|by apply elem_of_nil in Hin]. by apply list_elem_of_singleton in Hin.
    + destruct Hs as (_ & Hid & Hto & _). rewrite Hto in Hin. case_match; [|by apply elem_of_nil in Hin].
      apply list_elem_of_singleton in Hin. injection Hin as -> ->. exists a, (dr_defaultValues s), edits. split_and!; try done. set_solver.
  - assert (Hd' : match session_step e σ with EditingRow i a _ => Loaded i (Some a) ∈ dn ++ [e] | _ => True end).
    { destruct e as [| | |i [a|]| | |[]|], σ as [|?|i'|i' a' ?]; cbn in *; try done; try (apply elem_of_app; by left).
      - destruct (to_form a); [|done]. destruct (i' =? i) eqn:E; [|done]. apply Z.eqb_eq in E as ->. set_solver.
      - destruct (to_form a); [|set_solver]. destruct (i' =? i) eqn:E; [|set_solver]. apply Z.eqb_eq in E as ->. set_solver. }
    specialize (IH (dn ++ [e]) (holds_step _ _ _ Hp Hw Hs) Hd' Hin). by rewrite <- app_assoc in IH.
Qed.

Lemma sends_prescribed σ s l s' : waiting_run σ s l s' → holds σ s → dr_sent s' = dr_sent s ++ prescribed σ l.
Proof.
  induction 1 as [σ s|σ s e l s' Hp Hw _ IH]; intros Hs; [by rewrite app_nil_r|].
  rewrite (IH (holds_step _ _ _ Hp Hw Hs)), (step_sends σ e s Hw Hs). cbn [prescribed]. by rewrite app_assoc.
Qed.

(** C32. For an operator who waits for a row before he edits or saves it, and
    whose requests are answered while their row is open, the drawer sends
    exactly what the sequence of events prescribes, whatever was opened, saved
    or closed before: at each click on the button to save the entity that was
    loaded last for the open row (or the blank one), with the edits made to it
    since and no others, if the form accepts them; and so every update for a
    row is made of an entity of that row that was loaded for it. *)
Theorem waiting_updates_own_row (l : list (DrawerEvent Entity Form)) (s : Drawer Form Payload)
    (Hrun : waiting_run NoSession mounted l s) :
  dr_sent s = prescribed NoSession l
  ∧ ∀ id p, UpdateCall id p ∈ dr_sent s → own_update l id p.
Proof.
  assert (Hs : dr_sent s = prescribed NoSession l) by exact (sends_prescribed NoSession mounted l s Hrun eq_refl).
  split; [done|]. intros id p. rewrite Hs. exact (prescribed_own [] NoSession mounted l s id p Hrun eq_refl I).
Qed.
End Orderly.

(** A redemption code is opened, shown, renamed and saved. *)
#[local] Instance sample_ops : DrawerOps Redemption RedemptionFormValues RedemptionFormData := redemption_drawer DEFAULT_CURRENCY_CONFIG.

Definition sample_redemption : Redemption :=
  {| rd_id := 7; rd_name := js "gift"; rd_quota := num_of_Z 5000000; rd_expired_time := 0 |}.
Definition renamed (v : RedemptionFormValues) : RedemptionFormValues :=
  {| rf_name := js "present"; rf_quota_dollars := rf_quota_dollars v; rf_expired_time := rf_expired_time v; rf_count := rf_count v |}.
Definition sample_row_events : list (DrawerEvent Redemption RedemptionFormValues) :=
  [OpenRow 7; Loaded 7 (Some sample_redemption); EditForm renamed; Submit].
Definition sample_payload : RedemptionFormData :=
  {| rp_name := js "present"; rp_quota := num_of_Z 5000000; rp_expired_time := 0; rp_count := 1 |}.

Lemma waiting_updates_own_row_witness :
  dr_sent (drawer_steps sample_row_events mounted) = [UpdateCall 7 sample_payload]
  ∧ own_update sample_row_events 7 sample_payload.
Proof.
  assert (Hp : prescribed NoSession sample_row_events = [UpdateCall 7 sample_payload]) by (vm_compute; reflexivity).
  destruct (waiting_updates_own_row sample_row_events (drawer_steps sample_row_events mounted)) as [Hs Hown].
  - repeat (apply waiting_cons; [reflexivity|cbn; repeat split|]). apply waiting_nil.
  - rewrite Hs in Hown |- *. rewrite Hp in Hown |- *. split; [reflexivity|]. apply Hown. left.
Defined.

(** ** What they save

    A row that is loaded and not edited is saved with its own fields; a row
    that is saved before it is loaded, or after an answer for another row, is
    saved with the fields of the other one. *)

#[local] Opaque js json_parse num_of_Z.

(** ** Runs of any drawer *)

Section Runs.
Context {Entity Form Payload : Type} `{!DrawerOps Entity Form Payload}.

(** Nothing is open, requested or being sent. *)
Definition at_rest (s : Drawer Form Payload) : Prop := dr_open s = Closed ∧ dr_isSubmitting s = false ∧ dr_loads s = [].


(** A row is opened and shown, then another is opened and saved before it is loaded. *)
Definition unloaded_run (idA idB : Z) (a : Entity) : list (DrawerEvent Entity Form) :=
  [OpenRow idA; Loaded idA (Some a); CloseSheet; OpenRow idB; Submit].

(** A row is opened and closed, another is opened and shown, and the answer
    for the first one comes before the other is saved. *)
Definition late_run (idA idB : Z) (a b : Entity) : list (DrawerEvent Entity Form) :=
  [OpenRow idA; CloseSheet; OpenRow idB; Loaded idB (Some b); Loaded idA (Some a); Submit].

(** What the events leave. *)
Lemma open_event id s : drawer_event (OpenRow id) s =
  {| dr_open := Updating id; dr_values := settle (dr_values s); dr_defaultValues := dr_defaultValues s; dr_loads := dr_loads s ++ [id];
     dr_isSubmitting := dr_isSubmitting s; dr_sent := dr_sent s |}.
Proof. done. Qed.

Lemma close_event s : drawer_event CloseSheet s =
  {| dr_open := Closed; dr_values := settle (dr_defaultValues s); dr_defaultValues := dr_defaultValues s; dr_loads := dr_loads s;
     dr_isSubmitting := dr_isSubmitting s; dr_sent := dr_sent s |}.
Proof. done. Qed.

Lemma loaded_event id a v s : to_form a = Some v → drawer_event (Loaded id (Some a)) s =
  {| dr_open := dr_open s; dr_values := settle v; dr_defaultValues := v; dr_loads := remove_first id (dr_loads s);
     dr_isSubmitting := dr_isSubmitting s; dr_sent := dr_sent s |}.
Proof. intros Ha. unfold drawer_event, loaded. change (Some a ≫= to_form) with (to_form a). by rewrite Ha. Qed.

Lemma submit_event id s : dr_open s = Updating id → accepts true (dr_values s) = true →
  dr_sent (drawer_event Submit s) = dr_sent s ++ [UpdateCall id (payload_of (Some id) (dr_defaultValues s) (dr_values s))].
Proof. intros Ho Hok. unfold drawer_event, submit. by rewrite Ho, Hok. Qed.


Lemma unloaded_saved `{!DrawerLaws _} idA idB a v s : at_rest s → to_form a = Some v → accepts true (settle v) = true →
  all_possible (unloaded_run idA idB a) s = true
  ∧ dr_sent (drawer_steps (unloaded_run idA idB a) s) = dr_sent s ++ [UpdateCall idB (payload_of (Some idB) v (settle v))].
Proof.
  intros (Ho & Hi & Hl) Ha Hok. unfold drawer_steps, unloaded_run. cbn [all_possible fold_left].
  rewrite !open_event, close_event, !(loaded_event _ _ _ _ Ha), (submit_event idB); cbn; rewrite ?settle_settled; [|done|exact Hok].
  rewrite Ho, Hi, Hl. cbn. by rewrite Z.eqb_refl.
Qed.

Lemma late_saved `{!DrawerLaws _} idA idB a b v w s :
  at_rest s → to_form a = Some v → to_form b = Some w → idA ≠ idB → accepts true (settle v) = true →
  all_possible (late_run idA idB a b) s = true
  ∧ dr_sent (drawer_steps (late_run idA idB a b) s) = dr_sent s ++ [UpdateCall idB (payload_of (Some idB) v (settle v))].
Proof.
  intros (Ho & Hi & Hl) Ha Hb Hne Hok. apply Z.eqb_neq in Hne. unfold drawer_steps, late_run. cbn [all_possible fold_left].
  rewrite !open_event, close_event, !(loaded_event _ _ _ _ Hb), !(loaded_event _ _ _ _ Ha), (submit_event idB); [|done|exact Hok].
  cbn. rewrite Ho, Hi, Hl. cbn. rewrite Hne, (Z.eqb_sym idB idA), Hne, !Z.eqb_refl. cbn. by rewrite !Z.eqb_refl.
Qed.
End Runs.

(** C30. In each drawer, a row that is saved before its entity has come is written
    with the values of the row that was shown before; and where the answer for
    a row that was closed again comes late, it takes the place of what is shown
    of the open row, which is saved with it. *)
Theorem stale_row_saved {Entity Form Payload : Type} (ops : DrawerOps Entity Form Payload) (laws : DrawerLaws ops)
    (idA idB : Z) (a b : Entity) (v w : Form) (s : Drawer Form Payload)
    (Hs : at_rest s) (Ha : to_form a = Some v) (Hb : to_form b = Some w) (Hne : idA ≠ idB) (Hok : accepts true (settle v) = true) :
  let sent := dr_sent s ++ [UpdateCall idB (payload_of (Some idB) v (settle v))] in
  (all_possible (unloaded_run idA idB a) s = true ∧ dr_sent (drawer_steps (unloaded_run idA idB a) s) = sent)
  ∧ (all_possible (late_run idA idB a b) s = true ∧ dr_sent (drawer_steps (late_run idA idB a b) s) = sent).
Proof. split; [by apply unloaded_saved|by eapply late_saved]. Qed.

(** Two redemption codes: saving the second one before it is loaded gives it
    the name and the quota of the first. *)
Definition other_redemption : Redemption :=
  {| rd_id := 8; rd_name := js "prize"; rd_quota := num_of_Z 500000; rd_expired_time := 0 |}.

Definition redemption_start : Drawer RedemptionFormValues RedemptionFormData :=
  @mounted _ _ _ (redemption_drawer DEFAULT_CURRENCY_CONFIG).
Definition first_payload : RedemptionFormData :=
  {| rp_name := js "gift"; rp_quota := num_of_Z 5000000; rp_expired_time := 0; rp_count := 1 |}.

Lemma first_payload_shown : first_payload =
  redemptionPayload DEFAULT_CURRENCY_CONFIG (transformRedemptionToFormDefaults DEFAULT_CURRENCY_CONFIG sample_redemption).
Proof. vm_compute. reflexivity. Qed.

Lemma stale_row_saved_witness :
  (all_possible (DrawerOps0 := redemption_drawer DEFAULT_CURRENCY_CONFIG) (unloaded_run 7 8 sample_redemption) redemption_start = true
   ∧ dr_sent (drawer_steps (DrawerOps0 := redemption_drawer DEFAULT_CURRENCY_CONFIG) (unloaded_run 7 8 sample_redemption) redemption_start)
     = [UpdateCall 8 first_payload])
  ∧ (all_possible (DrawerOps0 := redemption_drawer DEFAULT_CURRENCY_CONFIG) (late_run 7 8 sample_redemption other_redemption) redemption_start = true
     ∧ dr_sent (drawer_steps (DrawerOps0 := redemption_drawer DEFAULT_CURRENCY_CONFIG) (late_run 7 8 sample_redemption other_redemption) redemption_start)
       = [UpdateCall 8 first_payload]).
Proof.
  rewrite first_payload_shown.
  refine (stale_row_saved (redemption_drawer DEFAULT_CURRENCY_CONFIG) (redemption_drawer_laws _) 7 8 sample_redemption other_redemption
            _ _ redemption_start _ eq_refl eq_refl _ _).
  - split; [reflexivity|split; reflexivity].
  - discriminate.
  - vm_compute. reflexivity.
Defined.

(** ** Keys *)





Section Keys.
Context (config : CurrencyConfig) (defaultUseAutoGroup : bool) (groups : list jstr).









End Keys.




(** ** What reading and writing leave out *)

(** A limitation of models that is switched off is switched on by any update. *)
Lemma disabled_limits_enabled config k s p :
  ak_model_limits k = Some s → p ∈ split_char c_comma s → nonempty p = true →
  kd_model_limits_enabled (apiKeyPayload config (transformApiKeyToFormDefaults config k)) = true.
Proof.
  intros Hs Hp Hn. assert (Hc : p ∈ filterb nonempty (split_char c_comma s)) by by apply elem_of_filterb.
  unfold apiKeyPayload, transformApiKeyToFormDefaults. cbn [kd_model_limits_enabled kf_model_limits]. rewrite Hs.
  destruct s as [|c s]; [|by destruct (filterb _ _); [inversion Hc|]].
  apply list_elem_of_singleton in Hp as ->. done.
Qed.

(** The settings [null] of a user cannot be shown. *)
Lemma null_setting_throws config u : us_setting u = Some (js "null") → transformUserToFormDefaults config u = None.
Proof.
  intros Hu. unfold transformUserToFormDefaults. rewrite Hu.
  assert (parsed_user_setting (Some (js "null")) = None) as -> by (vm_compute; reflexivity). done.
Qed.

(** A user whose quota is negative cannot be updated, though the quota is not sent. *)
Lemma negative_quota_refused config u v :
  transformUserToFormDefaults config u = Some v → num_lt (quotaUnitsToDollars config (us_quota u)) (num_of_Z 0) = true →
  user_accepts true v = false.
Proof.
  unfold transformUserToFormDefaults. destruct (parsed_user_setting (us_setting u)) as [o|]; [|done]. cbn [mbind option_bind].
  intros Hv Hlt. apply (inj Some) in Hv as <-. unfold user_accepts, userFormSchema. cbn [uf_username uf_quota_dollars].
  rewrite Hlt, !andb_false_r. done.
Qed.

Lemma update_sends_no_quota data id1 inviter data' :
  uf_username data = uf_username data' → uf_display_name data = uf_display_name data' → uf_password data = uf_password data' →
  uf_role data = uf_role data' → uf_concurrency data = uf_concurrency data' → uf_group data = uf_group data' →
  uf_inviter_id data = uf_inviter_id data' → uf_remark data = uf_remark data' →
  userPayload data id1 inviter = userPayload data' id1 inviter.
Proof. unfold userPayload. by intros -> -> -> -> -> -> -> ->. Qed.

(** Replacing the quota of a user without an amount sets it to zero. *)
Example blank_override_sends_zero :
  quota_adjustment DEFAULT_CURRENCY_CONFIG true {| uq_mode := quota_override; uq_amount := [] |} = Some (quota_override, num_of_Z 0).
Proof. vm_compute. reflexivity. Qed.

(** What is added or taken away is a positive quota, and without the advanced
    modes quotas are only added. *)
Lemma adjustment_positive config advanced d m v :
  quota_adjustment config advanced d = Some (m, v) →
  (uq_mode d ≠ quota_override → num_le v (num_of_Z 0) = false) ∧ m = (if advanced then uq_mode d else quota_add).
Proof.
  assert (Habs : ∀ x, num_le x (num_of_Z 0) = false → num_le (num_abs x) (num_of_Z 0) = false) by (by intros [[]|[]| |[] ? ?]).
  unfold quota_adjustment. cbv zeta. intros H.
  destruct (negb _ && _) eqn:E in H; [done|]. apply (inj Some) in H. injection H as <- <-. split; [|done]. intros Hm.
  destruct (uq_mode d); [| |done]; apply Habs; cbn [negb andb] in E; by apply orb_false_iff in E as [_ E].
Qed.

(** ** Creating keys *)

(** Every key that is created was sent with its own name, the first one with
    the name that was typed; after one is refused nothing is sent. *)
Lemma create_loop_spec suffix answers name i n :
  let r := create_loop suffix answers name i n in
  r.1 = map (created_name suffix name) (seq i (length r.1))
  ∧ (r.2 <= n)%nat ∧ length r.1 = (if Nat.eqb r.2 n then r.2 else S r.2)
  ∧ (∀ j, (j < r.2)%nat → answers (i + j)%nat = true) ∧ ((r.2 < n)%nat → answers (i + r.2)%nat = false).
Proof.
  revert i. induction n as [|n IH]; intros i; cbn [create_loop]; [cbn; split_and!; [done|lia|done|intros; lia|intros; lia]|].
  destruct (answers i) eqn:Ei; cbn.
  - destruct (IH (S i)) as (H1 & H2 & H3 & H4 & H5). split_and!.
    + by rewrite <- H1.
    + lia.
    + rewrite H3. destruct (Nat.eqb _ n); lia.
    + intros [|j] Hj; [by rewrite Nat.add_0_r|]. replace (i + S j)%nat with (S i + j)%nat by lia. apply H4. lia.
    + intros Hn. replace (i + S _)%nat with (S i + (create_loop suffix answers name (S i) n).2)%nat by lia. apply H5. lia.
  - split_and!; [done|lia|done|intros; lia|]. intros _. by rewrite Nat.add_0_r.
Qed.
